(* ===== verification/_CoqProject ===== *)
-Q . S2P
Prelude.v
Floats.v
Motion.v
Contract.v
Stream.v
Json.v
Codec.v
CodecFacts.v
Servo.v
Policy.v
Jog.v
Effects.v
Executor.v
Controller.v
ControllerDemo.v
ControllerFacts.v
ControllerLegs.v
ControllerHolds.v
Clients.v
Chunks.v
ChunksSafety.v
ChunksDemo.v
Deadman.v
StepWindow.v
Wire.v
RtProtocol.v
Observation.v
Link.v
LinkReference.v
LinkFacts.v
LinkSafety.v
LinkDemo.v
SimLink.v
SimLinkSafety.v
SimLinkDemo.v
SimObserve.v
Horizon.v
HorizonFacts.v
HorizonSafety.v
HorizonCommits.v
HorizonPending.v
Runtime.v
RuntimeClients.v
RuntimeNative.v
RuntimeLoop.v
RuntimeDemo.v
RuntimeFacts.v
RuntimeSafety.v
RuntimeMotion.v
RuntimeRuns.v
RuntimeSessions.v
Service.v
ServiceFacts.v
ServiceSafety.v
ServiceRuns.v
Sdk.v
SdkSafety.v
SdkService.v
Coordinator.v
SupervisedArm.v
SupervisedArmSafety.v
AsyncAuthority.v
Group.v
PairRelease.v
SupervisedGroup.v
SupervisedGroupSafety.v
Feedback.v
FeedbackFacts.v
Safety.v
Mapping.v
Teleop.v
S288.v
Hand.v
