(* ===== verification/Prelude.v ===== *)
(** * A verification library for the arm-control stack

    The program under src/arm_control runs robot arms from a PC: it plans and
    admits trajectories, streams them to a real-time (RT) server or flies them
    itself, coordinates two arms, teleoperates a follower arm from a small
    leader arm, and drives a self-sensing hand.  This library models the parts
    that decide whether motion may happen, as executable definitions translated
    from the Python source, and proves what makes them correct.

    ** Parts and files

    - [Prelude] (this file): exceptions and the error monad, tactics, generic
      lemmas, runs of a deterministic machine.
    - [Floats]: binary64 arithmetic (Python floats, numpy doubles) on the
      standard library's specification floats, with the order, rounding and
      interval lemmas the other files share.
    - [Motion]: motion/types.py (trajectories, Hermite sampling, curve bounds),
      control/gains.py, contracts/impedance.py.
    - [Contract]: execution/contract.py, the vocabulary between a supervisor
      and its clients: stamps, identities, requests, admission, observations and
      the receipt lifecycle of an execution.
    - [Stream]: execution/stream.py, execution/controller.py and
      supervisor/admission.py, revisable streams over the same vocabulary.
    - [Json], [Codec]: execution/codec.py, contract values to and from JSON;
      [CodecFacts] proves what the decoders admit and that nothing is lost.
    - [Servo]: Modules [LegSettling] (control/leg_settling.py), [JogHold] and
      [JogRamp] (control/jog_hold.py), [Integral] (control/integral.py).
    - [Policy]: control/execution_policy.py, the last check of plans and servo
      commands.
    - [Jog]: planning/jog.py, the gates of a jog step.
    - [Effects]: objects with attributes, exceptions and outputs as a monad, and
      the program logic the controller's theorems are proved with.
    - [Executor]: control/trajectory_executor.py and control/reference.py, from a
      sampled point to a joint servo command.
    - [Controller]: control/arm_controller.py, the whole object, with the message
      bodies of contracts/motion.py and contracts/motor.py; [ControllerDemo] runs
      it, [ControllerFacts], [ControllerLegs] and [ControllerHolds] prove it.
    - [Clients], [Chunks], [Deadman], [StepWindow]: clients/common.py, chunks.py,
      teleop.py, rl.py and planner.py, the applications over the SDK: their
      stream session, the action-chunk client, deadman teleoperation, the step
      window and the reviewed plan; [ChunksSafety] and [ChunksDemo] prove and run
      the second.
    - [Wire]: the layouts of Python's struct module, used by the next files.
    - [RtProtocol]: plants/remote_rt/protocol.py, every frame exchanged with the
      RT server.
    - [Observation]: plants/remote_rt/observation.py, from frames to
      observations and the tracker of applied commands.
    - [Link], [LinkReference]: plants/remote_rt/client.py, the PC's session with
      the RT server and its reference operations, with the other threads acting
      where a call waits; [LinkFacts], [LinkSafety] and [LinkDemo] prove and run it.
    - [SimLink], [SimObserve]: plants/sim_link.py, the simulated plant behind the
      same surface: its servo cycles interleaved with the calls of other threads,
      and the observation ring; [SimLinkSafety] and [SimLinkDemo] go with it.
    - [Horizon]: plants/remote_rt/reference.py, the main, worker and sender
      threads of the reference uploader as interleaved steps; [HorizonFacts]
      proves its splices, [HorizonSafety] its envelopes, [HorizonCommits] its
      commits and [HorizonPending] its polls, with a demo run.
    - [Runtime], [RuntimeClients], [RuntimeNative], [RuntimeLoop]:
      supervisor/runtime.py, one robot behind the supervisor: the ledger and the
      forwarding, the client operations, the RT reference and the streams, and
      the tick with its inputs.  It runs the objects of [Controller] and
      [Horizon] in place.  [RuntimeDemo] runs it; [RuntimeFacts] states its
      invariant, [RuntimeSafety] and [RuntimeMotion] carry it through the
      operations, [RuntimeSessions] follows who holds the robot, and
      [RuntimeRuns] proves what follows.
    - [Service]: supervisor/service.py and the caller-thread half of
      supervisor/runtime.py: connections, the operations of a request, the queue
      of the loop.  [ServiceFacts] shows what a request may do, [ServiceSafety] has
      the invariant of the queue and the connections, [ServiceRuns] its theorems.
    - [Sdk]: arm_control/sdk.py, the channel of an application and the calls of
      ArmClient; [SdkSafety] proves them, and [SdkService] composes them with the
      service.
    - [Coordinator]: multi_arm/coordinator.py with multi_arm/types.py and
      multi_arm/synchronization.py, the two-arm staging barrier.
    - [SupervisedArm], [AsyncAuthority]: multi_arm/supervised.py, the handle the
      coordinator holds of an arm behind its supervisor, over the SDK, and the
      worker that arms and disarms it; [SupervisedArmSafety] proves the first.
    - [Group]: multi_arm/group.py, the start of a group on one RT host.
    - [SupervisedGroup]: multi_arm/supervised_group.py, the same start through the
      supervisors of the members; [SupervisedGroupSafety] proves it.
    - [PairRelease]: the release of both members in multi_arm/supervised_hardware.py.
    - [Feedback]: multi_arm/feedback.py and multi_arm/supervised_feedback.py, two
      packet histories at one RT stamp, and the shared mode of
      multi_arm/supervised_hardware.py over them; proved in [FeedbackFacts].
    - [Safety], [Mapping], [Teleop]: leader_follower/safety.py, mapping.py and
      loop.py: the gates, the retargeter and the loop that composes them.
    - [S288]: leader_follower/s288.py, the leader's servo bus.
    - [Hand]: end_effectors/franka_hand.py and hand_move.py, Modules [Grasp] and
      [Move].

    [Motion], [Contract] and [Wire] are the leaves; [Stream] and [Observation]
    produce [Contract] values, [Policy] checks [Motion] plans, [Controller]
    composes [Executor], [Policy] and the objects of [Servo], [Runtime] runs a
    [Controller] and a [Horizon], [Service] serves a [Runtime] to the [Codec]'s
    requests, [Coordinator] constructs [Motion] trajectories, and [Teleop] runs
    [Mapping] and [Safety].
    Definitions keep the source's names: the operation [poll] of the class
    LegSettling is [Servo.LegSettling.poll], a constructor with its checks
    ([__init__], [__post_init__]) is [X_new] or [new].

    ** How the code is modelled

    - A function that can raise returns a [result]; the string of an exception
      or refusal is the fixed part of the source's message.
    - An object is a record; a method maps it (and its arguments, clock readings
      included) to a new record and its result.  The coordinator threads its
      state, its exceptions and a log of handle calls through a small monad; the
      controller, the horizon, the links, the runtime, the clients, the SDK and
      the group use the general monad of [Effects].
    - Threads that share an object are interleaved at the points where the source
      lets go of it: the runtime and the horizon take one input at a time, a call
      of [Link] lets the others act where it waits, a cycle of [SimLink] is two
      steps, and the thread of a connection ([Service]) is a program of sections,
      each one operation on the loop, one block under the lock or one question
      to the outside.
    - A float is a [spec_float] at precision 53 and exponent bound 1024, so every
      rounding, NaN and infinity is the machine's; a theorem about computed
      values that says NaN-or-inside means exactly that.  An integer is a [Z],
      with its width where the source packs it.
    - A dictionary is a [gmap]; an association that the source iterates in
      insertion order is a list.
    - What is outside (controllers, devices, kinematics, clocks, callbacks) is
      an argument, an oracle indexed by the number of questions asked, or the
      list of inputs of a run.  The theorems hold for every such behaviour,
      exceptions included.

    ** What the theorems show

    - The execution lifecycle ([Contract]): receipts implement an abstract
      transition relation, are idempotent, and leave the evidence the outcome
      claims; admission decides exactly the stated condition.
    - The pair protocol ([Coordinator]): an invariant of all reachable states,
      from which release only on a READY pair, both cancels on every abort, ids
      staged once and outcomes frozen.
    - The gates ([Policy], [Safety], [Servo], [Mapping]): what is admitted is
      finite and inside its limits, timeouts and deadmen bound every wait, NaN
      does not pass where the proof says so.
    - The arm controller ([Executor], [Controller*]): every command it sends was
      vetted at that moment in an armed, acknowledged, ready and unstopped
      object; a leg is admitted, never swapped, answered, and over after its
      settling time; a stop is final, a disarm forgets, a cancel holds the
      measured pose.
    - The reference horizon ([Horizon*]): under any interleaving an envelope
      carries a published decision for what the arm runs, a COMMIT, alone or of a
      group, names an acknowledged upload, a selection does not stay unknown, and
      a splice leaves the motion in flight as it is and goes on with the suffix.
    - The supervisor ([Runtime*]), composed with its controller and its horizon:
      under any interleaving of clients and threads the wire carries only
      commands the controller vetted, bit for bit, motion begins only under ARM
      (without the RT's selection also in time), APPLIED rests on the RT's own
      states, the ledger obeys the contract, a session without the robot changes
      nothing, and the history never forgets a live execution.
    - Its service ([Service*]) refines it: whatever the connections ask, queue,
      abandon and close, the runtime is in a state that its own inputs reach, each
      in the name of a session given out, so every theorem of [RuntimeRuns] holds
      of it; an ended session is mute, each line has one reply in its turn,
      connections are bounded, and so are the timed waits of a request: 2 s in
      all, 1 s for status and await_authority, 6 s for a group join, 8 s for a group cancel (the exchanges with the
      RT and the lock of the runtime are not timed here).
    - The codec ([CodecFacts]): decoding yields only what the constructors accept,
      and every such value comes back from its encoding.
    - The SDK ([Sdk*]): an outcome is the supervisor's own word, the exceptions
      of a call are the SDK's (the conversions of deadline and set_load_model
      apart, which are stated), a channel in doubt is never used again, and a
      call is the operation of the runtime it names.
    - The links ([Link*], [SimLink*]): an upload that returns is whole, a COMMIT
      that returns was answered, a stop that reports success sent a DISARM and
      was confirmed by a later state, the
      simulated plant is driven only by live commands, and a fault stands until a
      stop.
    - The clients ([Chunks*], [Deadman], [StepWindow], [Jog]): a chunk is never
      retroactive, a cancel is final, reports claim only what was seen, motion
      needs a held deadman, and an approved jog step is inside its envelope.
    - A group ([Group], [SupervisedGroup]) starts wholly, every member committed
      under its own upload and recorded with its own stamps, or every member is
      sent a cancel; the start over supervisors returns; a pair ([PairRelease]) is
      released wholly or the member that was accepted is sent a cancel.
    - A supervised member ([SupervisedArm*], [AsyncAuthority]): an event that says
      yes repeats the supervisor, a released plan is answered once and never
      dropped in silence, and a DISARM wins over every ARM before it.
    - The feedback of a pair ([Feedback*]) is interpolated, never extrapolated, on
      one attested clock; readiness is shown only on an alignment just made.
    - The wire ([Wire], [RtProtocol], [S288]): packers and unpackers agree, the
      checksum is the bitwise one and detects any error in one word.
    - The evidence rules ([Observation], [Hand]): applied, grasped and reached
      are claimed only on later, measured confirmation.
    - The loop ([Teleop]): the event trace of every run, a start-up alignment
      that raises (which leaves the follower open) included.  It also shows that the
      slowdown in the collision warning zone changes nothing, because the
      previous target it scales around is already the new one.

    ** Bounds and fuel

    Recursions are structural on the lists a run is given (events, iterations,
    polls, attempts up to the retry count, knots).  The one loop with fuel is the
    wait of [SupervisedGroup] for stamps; one round per reading of the clock is
    enough, and [supervised_start_returns] says so.
    Bounds of the protocol (16 joints, 128 knots, 33792 reference bytes, 32-bit
    counters) are the source's constants.

    ** Not modelled

    The bytes of sockets and serial ports, process start and shutdown; third-party
    numerics (planning, inverse kinematics, dynamics, physics engines); user
    interfaces and visualisation; the simulated servo bus; log text, demos and
    self-checks.  Of the supervisor: the trace and the fault record and the hosted
    scene, whose answers, with those of the state history and the observations,
    are an oracle of the service; JSON text is the parameter [loads].  A decoder
    refuses a leaf whose type is not the annotated one, where Python keeps it.
    Of the RT client: the read-only observer.  The launcher and the console
    adapter, the closed-chain records, the assembly of a controller from files and
    the device adapters remain: they compose the parts modelled here.  The loop is
    one computation per input: a thread of a client never sees a tick half done,
    as under the source's lock, while the worker threads act between any two
    inputs.  [float ** 2] is taken
    as the rounded square. *)
From Stdlib Require Export ZArith Lia.
From stdpp Require Export base decidable option list gmap sets strings.

#[global] Set Default Goal Selector "!".

(** ** Exceptions and the error monad

    A Python function that can raise returns a [result]: [Ok] the value, or
    [Err] the exception.  The string of an exception is the static part of the
    source's message (interpolated values are left out). *)

Inductive exn :=
  | ValueError (msg : string)
  | IllegalTransition (msg : string)   (* a subclass of ValueError *)
  | IndexError
  | KeyError
  | TypeError (msg : string)
  | AttributeError
  | OverflowError
  | ZeroDivisionError
  | StructError
  | RuntimeError (msg : string)
  | RtLinkError (msg : string)
  | ReferenceRefused (operation res : Z) (reply : list (string * Z))   (* subclasses of RtLinkError, *)
  | ReferenceCancelledBeforeDispatch (msg : string)                    (* itself a RuntimeError *)
  | OSError
  | SupervisorError (msg : string)      (* of the SDK, a RuntimeError *)
  | NeedsOperator (msg : string)        (* of the clients, a RuntimeError *)
  | Refused (msg : string)              (* in the SDK a subclass of SupervisorError *)
  | TimeoutError (msg : string).        (* a subclass of OSError *)

#[export] Instance exn_eq_dec : EqDecision exn.
Proof. solve_decision. Defined.

(** [isinstance(exc, ValueError)]: what [except ValueError] catches.
    [struct.error] is not a [ValueError]. *)
Definition is_ValueError (e : exn) : bool :=
  match e with ValueError _ | IllegalTransition _ => true | _ => false end.

(** [isinstance(exc, RtLinkError)] *)
Definition is_RtLinkError (e : exn) : bool :=
  match e with RtLinkError _ | ReferenceRefused _ _ _ | ReferenceCancelledBeforeDispatch _ => true | _ => false end.

(** [isinstance(exc, SupervisorError)] and [isinstance(exc, OSError)] in a client *)
Definition is_SupervisorError (e : exn) : bool := match e with SupervisorError _ | Refused _ => true | _ => false end.
Definition is_OSError (e : exn) : bool := match e with OSError | TimeoutError _ => true | _ => false end.

Inductive result (A : Type) :=
  | Ok (a : A)
  | Err (e : exn).
Arguments Ok {A} a.
Arguments Err {A} e.

#[export] Instance result_eq_dec {A} `{EqDecision A} : EqDecision (result A).
Proof. solve_decision. Defined.

Definition rbind {A B} (m : result A) (k : A -> result B) : result B :=
  match m with Ok a => k a | Err e => Err e end.

Declare Scope py_scope.
Delimit Scope py_scope with py.
Notation "x <-- m ;; k" := (rbind m (fun x => k))
  (at level 100, m at next level, right associativity) : py_scope.
(** [if c: raise ValueError(msg)] followed by the rest of the function. *)
Notation "'raise_if' c 'of' e ;; k" := (if c then Err e else k)
  (at level 100, c at level 99, e at level 99, k at level 200, right associativity) : py_scope.
(** [if c: return why] in a function that returns a refusal string. *)
Notation "'refuse_if' c 'of' e ;; k" := (if c then Ok (Some e) else k)
  (at level 100, c at level 99, e at level 99, k at level 200, right associativity) : py_scope.
Open Scope py_scope.

Definition is_ok {A} (r : result A) : bool := match r with Ok _ => true | Err _ => false end.

(** [x is not None] *)
Definition is_some {A} (o : option A) : bool := match o with Some _ => true | None => false end.

(** [for x in l: f(x)], for its exceptions. *)
Fixpoint rall {A} (f : A -> result unit) (l : list A) : result unit :=
  match l with [] => Ok tt | a :: l => _ <-- f a ;; rall f l end.

Fixpoint rmap {A B} (f : A -> result B) (l : list A) : result (list B) :=
  match l with
  | [] => Ok []
  | a :: l => b <-- f a ;; bs <-- rmap f l ;; Ok (b :: bs)
  end.

(** ** Tactics *)

(** Case split on the scrutinee of some [match]/[if] of a hypothesis or goal,
    keeping the equation, then clean up. *)
Ltac case_in H :=
  match type of H with
  | context [match ?x with _ => _ end] => destruct x eqn:?
  end.
Ltac case_goal :=
  match goal with
  | |- context [match ?x with _ => _ end] => destruct x eqn:?
  end.

(** Turns boolean equations into propositions. *)
Ltac breflect :=
  repeat match goal with
  | H : _ && _ = true |- _ => apply andb_true_iff in H as [? ?]
  | H : _ || _ = false |- _ => apply orb_false_iff in H as [? ?]
  | H : negb _ = true |- _ => apply negb_true_iff in H
  | H : negb _ = false |- _ => apply negb_false_iff in H
  | H : bool_decide _ = true |- _ => apply bool_decide_eq_true in H
  | H : bool_decide _ = false |- _ => apply bool_decide_eq_false in H
  | H : Z.eqb _ _ = true |- _ => apply Z.eqb_eq in H
  | H : Z.eqb _ _ = false |- _ => apply Z.eqb_neq in H
  | H : Z.ltb _ _ = true |- _ => apply Z.ltb_lt in H
  | H : Z.ltb _ _ = false |- _ => apply Z.ltb_ge in H
  | H : Z.leb _ _ = true |- _ => apply Z.leb_le in H
  | H : Z.leb _ _ = false |- _ => apply Z.leb_gt in H
  | H : Nat.eqb _ _ = true |- _ => apply Nat.eqb_eq in H
  | H : Nat.eqb _ _ = false |- _ => apply Nat.eqb_neq in H
  end.

(** Walks down a chain of guards and monadic binds in a hypothesis
    [f ... = v], closing the branches that end in another constructor and
    keeping the equation of every test passed. *)
Ltac inv_chain H :=
  unfold rbind in H;
  repeat (cbv beta iota zeta in H;
    lazymatch type of H with
    | (match ?x with _ => _ end) = _ => destruct x eqn:?; try discriminate H
    end).
(** The same, for a final [Ok v = Ok w]. *)
Ltac inv_ok H := inv_chain H; cbv beta iota zeta in H; injection H as H; try subst.

(** Passes the first guard of [H : (raise_if c of e ;; k) = Ok v], keeping [E : c = false]. *)
Ltac pass_guard H E :=
  cbv beta zeta in H;
  lazymatch type of H with
  | (if ?c then _ else _) = _ => destruct c eqn:E; [discriminate H|]
  end.

(** ** Generic lemmas *)

Lemma rbind_ok {A B} (m : result A) (k : A -> result B) b :
  rbind m k = Ok b <-> exists a, m = Ok a /\ k a = Ok b.
Proof. destruct m; simpl; naive_solver. Qed.

Lemma rmap_ok_length {A B} (f : A -> result B) l l' :
  rmap f l = Ok l' -> length l' = length l.
Proof.
  revert l'. induction l as [|a l IH]; intros l' H; simpl in *; [by simplify_eq|].
  destruct (f a); simpl in H; [|done].
  destruct (rmap f l); simpl in H; [|done]. simplify_eq/=. f_equal. by apply IH.
Qed.

Lemma rmap_ok_Forall2 {A B} (f : A -> result B) l l' :
  rmap f l = Ok l' <-> Forall2 (fun a b => f a = Ok b) l l'.
Proof.
  revert l'. induction l as [|a l IH]; intros l'; simpl.
  - split; [intros [= <-]; constructor | by inversion 1].
  - split.
    + intros H. destruct (f a) eqn:Ha; simpl in H; [|done].
      destruct (rmap f l) eqn:Hl; simpl in H; [|done]. simplify_eq.
      constructor; [done|]. by apply IH.
    + inversion 1 as [|? b ? bs Hb Hbs]; subst. rewrite Hb. simpl.
      apply IH in Hbs. by rewrite Hbs.
Qed.

Lemma forallb_Forall {A} (f : A -> bool) (l : list A) :
  forallb f l = true <-> Forall (fun x => f x = true) l.
Proof.
  induction l as [|a l IH]; simpl; [split; [constructor|done]|].
  rewrite andb_true_iff, IH. symmetry. apply (Forall_cons (fun x => f x = true)).
Qed.

Lemma existsb_false_Forall {A} (f : A -> bool) (l : list A) :
  existsb f l = false <-> Forall (fun x => f x = false) l.
Proof.
  induction l as [|a l IH]; simpl; [split; [constructor|done]|].
  rewrite orb_false_iff, IH. symmetry. apply (Forall_cons (fun x => f x = false)).
Qed.

(** ** Dictionaries whose insertion order the source iterates *)

Section Dict.
Context {K A : Type} `{EqDecision K}.
Implicit Types (k : K) (l : list (K * A)).
Definition dget k l : option A := snd <$> List.find (fun x => bool_decide (x.1 = k)) l.
Definition dupd k (f : A -> A) l : list (K * A) := map (fun x => if bool_decide (x.1 = k) then (x.1, f x.2) else x) l.
Definition dput k (v : A) l : list (K * A) := if is_some (dget k l) then dupd k (fun _ => v) l else l ++ [(k, v)].
Definition ddel k l : list (K * A) := List.filter (fun x => negb (bool_decide (x.1 = k))) l.

Lemma dget_in k l v : dget k l = Some v -> (k, v) ∈ l.
Proof.
  unfold dget. destruct (List.find _ l) as [[k' v']|] eqn:E; [|done]. intros [= <-].
  apply List.find_some in E as [Hin Hk]. apply bool_decide_eq_true in Hk as <-. by apply list_elem_of_In.
Qed.
Lemma dupd_in k f l x : x ∈ dupd k f l -> x ∈ l \/ exists v, (x.1, v) ∈ l /\ x.1 = k /\ x = (k, f v).
Proof.
  unfold dupd. intros ([k' v] & -> & Hin)%list_elem_of_fmap. case_bool_decide as E; [|by left]. right. exists v. simpl in *. by subst.
Qed.
Lemma dput_in k v l x : x ∈ dput k v l -> x ∈ l \/ x = (k, v).
Proof.
  unfold dput. destruct (is_some _).
  - intros [?|(w & _ & _ & ->)]%dupd_in; auto.
  - intros [?|?%list_elem_of_singleton]%elem_of_app; auto.
Qed.
Lemma dupd_keys k f l : map fst (dupd k f l) = map fst l.
Proof. unfold dupd. rewrite map_map. apply map_ext. intros [k' v]. by case_bool_decide. Qed.
Lemma dget_nodup k v l : NoDup (map fst l) -> (k, v) ∈ l -> dget k l = Some v.
Proof.
  unfold dget. induction l as [|[k' v'] l IH]; simpl; [by intros _ ?%elem_of_nil|]. intros [Hn Hd]%NoDup_cons Hin.
  case_bool_decide as E; simpl in *.
  - subst. apply elem_of_cons in Hin as [[= ->]|Hin]; [done|]. destruct Hn. by apply (list_elem_of_fmap_2 fst) in Hin.
  - apply elem_of_cons in Hin as [[= -> ->]|Hin]; [done|]. by apply IH.
Qed.
Lemma dput_nodup k v l : NoDup (map fst l) -> NoDup (map fst (dput k v l)).
Proof.
  intros Hd. unfold dput. destruct (is_some (dget k l)) eqn:E; [by rewrite dupd_keys|].
  rewrite map_app. apply NoDup_app. split; [done|]. split; [|by apply NoDup_singleton].
  intros y Hy Hk. apply list_elem_of_singleton in Hk as ->. apply list_elem_of_fmap in Hy as ([k' v'] & Ek & Hin).
  simpl in Ek. subst k'. by rewrite (dget_nodup _ _ _ Hd Hin) in E.
Qed.
Lemma dget_dput k v l : dget k (dput k v l) = Some v.
Proof.
  unfold dput, dget, dupd. destruct (List.find _ l) as [x|] eqn:E; simpl.
  - induction l as [|[k' v'] l IH]; simpl in *; [done|]. case_bool_decide as Ek; simpl.
    + by case_bool_decide.
    + case_bool_decide; [done|]. by apply IH.
  - induction l as [|[k' v'] l IH]; simpl in *; [by case_bool_decide|]. case_bool_decide; [done|]. by apply IH.
Qed.
Lemma dget_dupd k f l : dget k (dupd k f l) = f <$> dget k l.
Proof.
  unfold dget, dupd. induction l as [|[k' v'] l IH]; simpl; [done|]. case_bool_decide as Ek; simpl.
  - by case_bool_decide.
  - by case_bool_decide.
Qed.
Lemma dget_dupd_ne k k' f l : k <> k' -> dget k (dupd k' f l) = dget k l.
Proof.
  intros Hn. unfold dget, dupd. induction l as [|[j v'] l IH]; simpl; [done|].
  destruct (decide (j = k')) as [->|Hj].
  - rewrite (bool_decide_eq_true_2 (k' = k')) by done. simpl. by rewrite bool_decide_eq_false_2.
  - rewrite (bool_decide_eq_false_2 (j = k')) by done. simpl. case_bool_decide; [done|]. by apply IH.
Qed.
Lemma dget_dput_ne k k' v l : k <> k' -> dget k (dput k' v l) = dget k l.
Proof.
  intros Hn. unfold dput. destruct (is_some _); [by apply dget_dupd_ne|]. unfold dget.
  induction l as [|[j w] l IH]; simpl; [by rewrite bool_decide_eq_false_2|]. by case_bool_decide.
Qed.
Lemma dget_ddel k l : dget k (ddel k l) = None.
Proof.
  unfold dget, ddel. induction l as [|x l IH]; [done|]. simpl. case_bool_decide; simpl; [exact IH|].
  by rewrite bool_decide_false.
Qed.
Lemma dget_ddel_ne k k' l : k <> k' -> dget k (ddel k' l) = dget k l.
Proof.
  intros Hn. unfold dget, ddel. induction l as [|x l IH]; [done|]. simpl. case_bool_decide as E; simpl.
  - rewrite IH. by rewrite bool_decide_false by congruence.
  - by destruct (bool_decide (x.1 = k)).
Qed.
Lemma ddel_in k l x : x ∈ ddel k l -> x ∈ l.
Proof. unfold ddel. rewrite !list_elem_of_In. intros H. by apply List.filter_In in H as []. Qed.
Lemma ddel_nodup k l : NoDup (map fst l) -> NoDup (map fst (ddel k l)).
Proof.
  unfold ddel. induction l as [|[k' v] l IH]; simpl; [done|]. intros [Hn Hd]%NoDup_cons. case_bool_decide; simpl; [by apply IH|].
  apply NoDup_cons. split; [|by apply IH]. intros ([j w] & -> & Hin)%list_elem_of_fmap. apply Hn. simpl.
  apply (list_elem_of_fmap_2 fst _ (j, w)). by eapply ddel_in.
Qed.
End Dict.

(** ** Reachability of a deterministic machine under a list of inputs *)

Section Run.
Context {S I : Type} (step : S -> I -> S).
Definition run_steps (s : S) (l : list I) : S := fold_left step l s.

Lemma run_steps_app s l1 l2 :
  run_steps s (l1 ++ l2) = run_steps (run_steps s l1) l2.
Proof. apply fold_left_app. Qed.

Lemma run_steps_inv (Inv : S -> Prop) :
  (forall s i, Inv s -> Inv (step s i)) ->
  forall l s, Inv s -> Inv (run_steps s l).
Proof. intros Hstep l. induction l as [|i l IH]; simpl; auto. Qed.
End Run.

