(* ===== verification/Floats.v ===== *)
(** IEEE-754 binary64, the Python and numpy [float].

    The development computes with the Standard Library's [spec_float] at
    precision 53 and maximal exponent 1024: every operation below is the
    correctly rounded (ties to even) operation the program runs, so no theorem
    rests on exact real arithmetic.  NaN has a single value (no payload).
    Decimal literals are the doubles the Python parser yields. *)
From Stdlib Require Import SpecFloat PrimFloat FloatOps.
From S2P Require Import Prelude.

Abbreviation float := spec_float.

Definition fprec : Z := 53.
Definition femax : Z := 1024.

Definition fadd : float -> float -> float := SFadd fprec femax.
Definition fsub : float -> float -> float := SFsub fprec femax.
Definition fmul : float -> float -> float := SFmul fprec femax.
Definition fdiv : float -> float -> float := SFdiv fprec femax.
Definition fsqrt : float -> float := SFsqrt fprec femax.
Definition fopp : float -> float := SFopp.
Definition fabs : float -> float := SFabs.
Definition fltb : float -> float -> bool := SFltb.
Definition fleb : float -> float -> bool := SFleb.
Definition feqb : float -> float -> bool := SFeqb.
Definition f0 : float := S754_zero false.
Definition f1 : float := Eval vm_compute in Prim2SF 1%float.
Definition e9 : float := Eval vm_compute in Prim2SF 1e9%float.
Definition finf : float := S754_infinity false.
Definition fnan : float := S754_nan.

Declare Scope fl_scope.
Delimit Scope fl_scope with fl.
Notation "x +f y" := (fadd x y) (at level 50, left associativity) : fl_scope.
Notation "x -f y" := (fsub x y) (at level 50, left associativity) : fl_scope.
Notation "x *f y" := (fmul x y) (at level 40, left associativity) : fl_scope.
Notation "x /f y" := (fdiv x y) (at level 40, left associativity) : fl_scope.
Notation "x <f y" := (fltb x y) (at level 70) : fl_scope.
Notation "x <=f y" := (fleb x y) (at level 70) : fl_scope.
Notation "x =f y" := (feqb x y) (at level 70) : fl_scope.
Notation "x >f y" := (fltb y x) (at level 70, only parsing) : fl_scope.
Notation "x >=f y" := (fleb y x) (at level 70, only parsing) : fl_scope.
Open Scope fl_scope.

(** [math.isfinite], [math.isnan] *)
Definition isfinite (x : float) : bool :=
  match x with S754_zero _ | S754_finite _ _ _ => true | _ => false end.
Definition isnan (x : float) : bool :=
  match x with S754_nan => true | _ => false end.

(** [float(n)] of a Python int: nearest double, [OverflowError] past the range. *)
Definition of_Z (n : Z) : float := binary_normalize fprec femax n 0 false.
Definition int_to_float (n : Z) : result float :=
  match of_Z n with S754_infinity _ => Err OverflowError | x => Ok x end.

(** Python's [max(a, b)] and [min(a, b)]: the first argument unless the second
    is strictly larger (smaller). *)
Definition py_max (a b : float) : float := if b >f a then b else a.
Definition py_min (a b : float) : float := if b <f a then b else a.
(** numpy's [maximum]/[minimum] and [clip]: a NaN operand is the result. *)
Definition np_max (a b : float) : float :=
  if isnan a then a else if a >f b then a else b.
Definition np_min (a b : float) : float :=
  if isnan a then a else if a <f b then a else b.
Definition clip (x lo hi : float) : float := np_min (np_max x lo) hi.

(** [round(x)] of a float: nearest int, ties to even. *)
Definition py_round (x : float) : result Z :=
  match x with
  | S754_zero _ => Ok 0%Z
  | S754_finite s m e =>
      let a :=
        match e with
        | Z0 => Zpos m
        | Zpos _ => Z.shiftl (Zpos m) e
        | Zneg p =>
            let q := Z.shiftr (Zpos m) (Zpos p) in
            let r := Zpos m - Z.shiftl q (Zpos p) in
            match Z.compare (2 * r) (2 ^ Zpos p) with
            | Lt => q
            | Gt => q + 1
            | Eq => if Z.even q then q else q + 1
            end
        end%Z in
      Ok (if s then - a else a)%Z
  | S754_infinity _ => Err OverflowError
  | S754_nan => Err (ValueError "cannot convert float NaN to integer")
  end.

(** [int(x)] of a float: truncation toward zero. *)
Definition py_int (x : float) : result Z :=
  match x with
  | S754_zero _ => Ok 0%Z
  | S754_finite s m e =>
      let a := match e with Zneg p => Z.shiftr (Zpos m) (Zpos p) | _ => Z.shiftl (Zpos m) e end%Z in
      Ok (if s then - a else a)%Z
  | S754_infinity _ => Err OverflowError
  | S754_nan => Err (ValueError "cannot convert float NaN to integer")
  end.

(** ** Vectors (1-D arrays) and matrices (lists of rows) *)

Abbreviation vec := (list float).
Abbreviation mat := (list (list float)).

Definition all_finite (v : vec) : bool := forallb isfinite v.
Definition mat_finite (m : mat) : bool := forallb all_finite m.
Definition np_abs (v : vec) : vec := map fabs v.
(** Every row as long as the first: what [np.asarray(..., dtype=float)] accepts
    as a 2-D array. *)
Definition rectangular (m : mat) : bool :=
  match m with
  | [] => true
  | r :: m => forallb (fun r' => Nat.eqb (length r') (length r)) m
  end.
Definition ncols (m : mat) : nat := match m with [] => 0 | r :: _ => length r end.
Definition same_shape (a b : mat) : bool :=
  Nat.eqb (length a) (length b) && forallb (fun r => Nat.eqb (length r) (ncols b)) a.

(** Element-wise operation on two 1-D arrays with numpy's broadcasting: equal
    lengths, or one of them a single element; otherwise [ValueError]. *)
Definition bcast {A} (f : float -> float -> A) (a b : vec) : result (list A) :=
  if Nat.eqb (length a) (length b) then Ok (zip_with f a b)
  else match a, b with
  | [x], _ => Ok (map (f x) b)
  | _, [y] => Ok (map (fun x => f x y) a)
  | _, _ => Err (ValueError "operands could not be broadcast together")
  end.

(** [np.max(v)]: NaN if any entry is NaN, [ValueError] on an empty array. *)
Definition vec_max (v : vec) : result float :=
  match v with
  | [] => Err (ValueError "zero-size array to reduction operation")
  | x :: v => Ok (fold_left np_max v x)
  end.
Definition vec_min (v : vec) : result float :=
  match v with
  | [] => Err (ValueError "zero-size array to reduction operation")
  | x :: v => Ok (fold_left np_min v x)
  end.

(** First index satisfying [p]: [np.where(mask)[0][0]]. *)
Fixpoint first_index {A} (p : A -> bool) (l : list A) : option nat :=
  match l with
  | [] => None
  | a :: l => if p a then Some 0 else S <$> first_index p l
  end.

(** [np.diff(v)] *)
Fixpoint np_diff (v : vec) : vec :=
  match v with
  | a :: ((b :: _) as w) => (b -f a) :: np_diff w
  | _ => []
  end.

(** ** Order

    Non-NaN values are ordered as integer triples (class, exponent, mantissa);
    every comparison reduces to linear arithmetic on these keys. *)

Definition fkey (x : float) : option (Z * Z * Z) :=
  match x with
  | S754_nan => None
  | S754_infinity s => Some (if s then -2 else 2, 0, 0)%Z
  | S754_zero _ => Some (0, 0, 0)%Z
  | S754_finite false m e => Some (1, e, Zpos m)%Z
  | S754_finite true m e => Some (-1, - e, Zneg m)%Z
  end.

Definition klt (a b : Z * Z * Z) : Prop :=
  (a.1.1 < b.1.1 \/ (a.1.1 = b.1.1 /\ (a.1.2 < b.1.2 \/ (a.1.2 = b.1.2 /\ a.2 < b.2))))%Z.

#[export] Instance klt_dec a b : Decision (klt a b).
Proof. unfold klt. apply _. Defined.

Lemma SFcompare_key x y a b :
  fkey x = Some a -> fkey y = Some b ->
  (SFcompare x y = Some Lt /\ klt a b) \/
  (SFcompare x y = Some Eq /\ a = b) \/
  (SFcompare x y = Some Gt /\ klt b a).
Proof.
  unfold klt.
  destruct x as [s|s| |[] m e], y as [s'|s'| |[] m' e']; simpl; intros [= <-] [= <-];
    try destruct s; try destruct s'; simpl; try (by intuition lia).
  - change (Pos.compare_cont Eq m m') with (Pos.compare m m').
    destruct (Z.compare_spec e e'); [|right; right; split; [done|lia]|left; split; [done|lia]].
    destruct (Pos.compare_spec m m'); simpl; subst; intuition lia.
  - change (Pos.compare_cont Eq m m') with (Pos.compare m m').
    destruct (Z.compare_spec e e'); [|left; split; [done|lia]|right; right; split; [done|lia]].
    destruct (Pos.compare_spec m m'); simpl; subst; intuition lia.
Qed.

Lemma fkey_None x : fkey x = None <-> isnan x = true.
Proof. by destruct x as [| | |[]]. Qed.

Lemma SFcompare_nan x y : isnan x = true \/ isnan y = true -> SFcompare x y = None.
Proof. destruct x, y; simpl; intros []; done. Qed.

Lemma fltb_spec x y :
  fltb x y = true <-> exists a b, fkey x = Some a /\ fkey y = Some b /\ klt a b.
Proof.
  unfold fltb, SFltb. destruct (fkey x) as [a|] eqn:Kx; [destruct (fkey y) as [b|] eqn:Ky|].
  - destruct (SFcompare_key x y a b Kx Ky) as [[-> ?]|[[-> ?]|[-> ?]]]; simplify_eq.
    + naive_solver.
    + split; [done|]. intros (?&?&?&?&?). simplify_eq. unfold klt in *. lia.
    + split; [done|]. intros (?&?&?&?&?). simplify_eq. unfold klt in *. lia.
  - rewrite SFcompare_nan by (right; by apply fkey_None). naive_solver.
  - rewrite SFcompare_nan by (left; by apply fkey_None). naive_solver.
Qed.

Lemma fleb_spec x y :
  fleb x y = true <-> exists a b, fkey x = Some a /\ fkey y = Some b /\ ~ klt b a.
Proof.
  unfold fleb, SFleb. destruct (fkey x) as [a|] eqn:Kx; [destruct (fkey y) as [b|] eqn:Ky|].
  - destruct (SFcompare_key x y a b Kx Ky) as [[-> ?]|[[-> ?]|[-> ?]]]; simplify_eq.
    + split; [|done]. intros _. do 2 eexists. do 2 (split; [done|]). unfold klt in *. lia.
    + split; [|done]. intros _. do 2 eexists. do 2 (split; [done|]). unfold klt in *. lia.
    + naive_solver.
  - rewrite SFcompare_nan by (right; by apply fkey_None). naive_solver.
  - rewrite SFcompare_nan by (left; by apply fkey_None). naive_solver.
Qed.

Lemma feqb_spec x y :
  feqb x y = true <-> exists a, fkey x = Some a /\ fkey y = Some a.
Proof.
  unfold feqb, SFeqb. destruct (fkey x) as [a|] eqn:Kx; [destruct (fkey y) as [b|] eqn:Ky|].
  - destruct (SFcompare_key x y a b Kx Ky) as [[-> ?]|[[-> ?]|[-> ?]]]; simplify_eq.
    + split; [done|]. intros (?&?&?). simplify_eq. unfold klt in *. lia.
    + naive_solver.
    + split; [done|]. intros (?&?&?). simplify_eq. unfold klt in *. lia.
  - rewrite SFcompare_nan by (right; by apply fkey_None). naive_solver.
  - rewrite SFcompare_nan by (left; by apply fkey_None). naive_solver.
Qed.

(** Turns every float comparison of the context and goal into key arithmetic. *)
Ltac fkeys :=
  repeat match goal with
  | H : fltb _ _ = true |- _ => apply fltb_spec in H as (? & ? & ? & ? & ?)
  | H : fleb _ _ = true |- _ => apply fleb_spec in H as (? & ? & ? & ? & ?)
  | H : feqb _ _ = true |- _ => apply feqb_spec in H as (? & ? & ?)
  | H1 : fkey ?x = Some _, H2 : fkey ?x = Some _ |- _ => rewrite H1 in H2; simplify_eq
  end.

Lemma isnan_key x : isnan x = false <-> exists a, fkey x = Some a.
Proof.
  destruct (fkey x) eqn:K; [split; [eauto|]|].
  - intros _. destruct (isnan x) eqn:E; [|done]. apply fkey_None in E. congruence.
  - apply fkey_None in K. rewrite K. naive_solver.
Qed.

Lemma finite_not_nan x : isfinite x = true -> isnan x = false.
Proof. by destruct x. Qed.

Lemma fltb_irrefl x : fltb x x = false.
Proof. destruct (fltb x x) eqn:E; [|done]. fkeys. unfold klt in *. lia. Qed.

Lemma fleb_refl x : isnan x = false -> fleb x x = true.
Proof. intros [a Ha]%isnan_key. apply fleb_spec. exists a, a. unfold klt. intuition lia. Qed.

Lemma fltb_fleb x y : fltb x y = true -> fleb x y = true.
Proof. intros. fkeys. apply fleb_spec. do 2 eexists. do 2 (split; [done|]). unfold klt in *. lia. Qed.

Lemma fleb_trans x y z : fleb x y = true -> fleb y z = true -> fleb x z = true.
Proof.
  intros. fkeys. apply fleb_spec. do 2 eexists. do 2 (split; [done|]). unfold klt in *. lia.
Qed.

Lemma fltb_trans x y z : fltb x y = true -> fltb y z = true -> fltb x z = true.
Proof.
  intros. fkeys. apply fltb_spec. do 2 eexists. do 2 (split; [done|]). unfold klt in *. lia.
Qed.

Lemma fltb_fleb_trans x y z : fltb x y = true -> fleb y z = true -> fltb x z = true.
Proof.
  intros. fkeys. apply fltb_spec. do 2 eexists. do 2 (split; [done|]). unfold klt in *. lia.
Qed.

Lemma fleb_fltb_trans x y z : fleb x y = true -> fltb y z = true -> fltb x z = true.
Proof.
  intros. fkeys. apply fltb_spec. do 2 eexists. do 2 (split; [done|]). unfold klt in *. lia.
Qed.

Lemma fltb_asym x y : fltb x y = true -> fltb y x = false.
Proof.
  intros. destruct (fltb y x) eqn:E; [|done]. fkeys. unfold klt in *. lia.
Qed.

Lemma fltb_not_fleb x y : fltb x y = true -> fleb y x = false.
Proof.
  intros. destruct (fleb y x) eqn:E; [|done]. fkeys. unfold klt in *. lia.
Qed.

(** On numbers, "not less" is "at least". *)
Lemma fltb_false x y :
  isnan x = false -> isnan y = false -> fltb x y = false -> fleb y x = true.
Proof.
  intros [a Ha]%isnan_key [b Hb]%isnan_key H. apply fleb_spec. exists b, a.
  do 2 (split; [done|]). intros K. assert (fltb x y = true) by (apply fltb_spec; eauto). congruence.
Qed.

Lemma fleb_false x y :
  isnan x = false -> isnan y = false -> fleb x y = false -> fltb y x = true.
Proof.
  intros [a Ha]%isnan_key [b Hb]%isnan_key H. apply fltb_spec. exists b, a.
  do 2 (split; [done|]). unfold klt.
  assert (~ (fleb x y = true)) as K by congruence. rewrite fleb_spec in K.
  destruct a as [[a1 a2] a3], b as [[b1 b2] b3]. simpl.
  destruct (decide (klt (b1, b2, b3) (a1, a2, a3))) as [Hk|Hk]; [exact Hk|].
  exfalso. apply K. naive_solver.
Qed.

Lemma fleb_nan x y : fleb x y = true -> isnan x = false /\ isnan y = false.
Proof. intros. fkeys. split; apply isnan_key; eauto. Qed.

Lemma fltb_nan x y : fltb x y = true -> isnan x = false /\ isnan y = false.
Proof. intros. fkeys. split; apply isnan_key; eauto. Qed.

#[export] Hint Resolve finite_not_nan fleb_refl fltb_fleb : core.

(** ** Minimum, maximum, clip *)

Lemma np_max_spec a b :
  isnan a = false -> isnan b = false ->
  (np_max a b = a \/ np_max a b = b) /\ fleb a (np_max a b) = true /\ fleb b (np_max a b) = true.
Proof.
  intros Ha Hb. unfold np_max. rewrite Ha. destruct (fltb b a) eqn:E.
  - split; [auto|]. auto using fleb_refl, fltb_fleb.
  - split; [auto|]. auto using fleb_refl, fltb_false.
Qed.

Lemma np_min_spec a b :
  isnan a = false -> isnan b = false ->
  (np_min a b = a \/ np_min a b = b) /\ fleb (np_min a b) a = true /\ fleb (np_min a b) b = true.
Proof.
  intros Ha Hb. unfold np_min. rewrite Ha. destruct (fltb a b) eqn:E.
  - split; [auto|]. auto using fleb_refl, fltb_fleb.
  - split; [auto|]. auto using fleb_refl, fltb_false.
Qed.

Lemma np_max_nan a b : isnan a = false -> isnan b = false -> isnan (np_max a b) = false.
Proof. intros. by destruct (np_max_spec a b) as [[-> | ->] _]. Qed.
Lemma np_min_nan a b : isnan a = false -> isnan b = false -> isnan (np_min a b) = false.
Proof. intros. by destruct (np_min_spec a b) as [[-> | ->] _]. Qed.

Lemma np_min_isnan a b : isnan a = true \/ isnan b = true -> isnan (np_min a b) = true.
Proof.
  unfold np_min. intros [Ha|Hb]; [by rewrite Ha|]. destruct (isnan a) eqn:E; [done|].
  destruct (fltb a b) eqn:F; [|done]. apply fltb_nan in F as [? ?]; congruence.
Qed.
Lemma np_max_isnan a b : isnan a = true \/ isnan b = true -> isnan (np_max a b) = true.
Proof.
  unfold np_max. intros [Ha|Hb]; [by rewrite Ha|]. destruct (isnan a) eqn:E; [done|].
  destruct (fltb b a) eqn:F; [|done]. apply fltb_nan in F as [? ?]; congruence.
Qed.

(** [clip] lands in a well-ordered interval. *)
Lemma clip_bounds x lo hi :
  isnan x = false -> fleb lo hi = true ->
  fleb lo (clip x lo hi) = true /\ fleb (clip x lo hi) hi = true.
Proof.
  intros Hx Hle. destruct (fleb_nan _ _ Hle) as [Hlo Hhi]. unfold clip.
  destruct (np_max_spec x lo) as (_ & _ & Hm); [done..|].
  pose proof (np_max_nan x lo Hx Hlo) as Hn.
  destruct (np_min_spec (np_max x lo) hi) as (Hor & H1 & H2); [done..|].
  split; [|done]. destruct Hor as [-> | ->]; done.
Qed.

Lemma clip_nan x lo hi :
  isnan x = false -> isnan lo = false -> isnan hi = false -> isnan (clip x lo hi) = false.
Proof. intros. unfold clip. auto using np_min_nan, np_max_nan. Qed.

Lemma clip_or x lo hi :
  isnan x = false -> isnan lo = false -> isnan hi = false ->
  clip x lo hi = x \/ clip x lo hi = lo \/ clip x lo hi = hi.
Proof.
  intros Hx Hlo Hhi. unfold clip.
  destruct (np_max_spec x lo) as (Hm & _); [done..|].
  destruct (np_min_spec (np_max x lo) hi) as (Hn & _); [by apply np_max_nan|done|].
  destruct Hn as [-> | ->]; [destruct Hm as [-> | ->]|]; auto.
Qed.

Lemma py_max_ge_l a b : isnan a = false -> fleb a (py_max a b) = true.
Proof. unfold py_max. intros. destruct (fltb a b) eqn:E; auto. Qed.

Lemma fabs_nan x : isnan (fabs x) = isnan x.
Proof. by destruct x. Qed.
Lemma fabs_finite x : isfinite (fabs x) = isfinite x.
Proof. by destruct x. Qed.
Lemma fabs_nonneg x : isnan x = false -> fleb f0 (fabs x) = true.
Proof. by destruct x. Qed.
Lemma fopp_nan x : isnan (fopp x) = isnan x.
Proof. by destruct x. Qed.

(** ** Exact cases of the arithmetic *)

Lemma fsub_diag x : isfinite x = true -> fsub x x = f0.
Proof.
  destruct x as [[]| | |s m e]; try done. intros _. unfold fsub, SFsub.
  rewrite Z.sub_diag. done.
Qed.

Lemma fmul_zero_l s y : isfinite y = true -> exists s', fmul (S754_zero s) y = S754_zero s'.
Proof. destruct y; try done; simpl; eauto. Qed.
Lemma fmul_zero_r s x : isfinite x = true -> exists s', fmul x (S754_zero s) = S754_zero s'.
Proof. destruct x; try done; simpl; eauto. Qed.

Lemma fadd_zero_r x s :
  isfinite x = true -> feqb (fadd x (S754_zero s)) x = true /\ isfinite (fadd x (S754_zero s)) = true.
Proof.
  intros Hx. destruct x as [[]| | |[] m e]; try done; destruct s; simpl; try done;
    (split; [apply feqb_spec; eauto | done]).
Qed.

(** ** Rounding keeps the sign and does not vanish

    The exponent of the leading bit, [digits m + e], never decreases in
    [binary_round_aux], so a result far from the subnormal range is not zero. *)

Lemma shr_1_m r : (0 <= shr_m r)%Z -> shr_m (shr_1 r) = (shr_m r / 2)%Z.
Proof.
  destruct r as [m r s]. simpl. intros Hm. destruct m as [|[p|p|]|]; try done; simpl.
  - apply (Z.div_unique _ _ _ 1); lia.
  - apply (Z.div_unique _ _ _ 0); lia.
Qed.

Lemma iter_pos_nat {A} (f : A -> A) (n : positive) (x : A) :
  SpecFloat.iter_pos f n x = Nat.iter (Pos.to_nat n) f x.
Proof.
  revert x. induction n as [n IH|n IH|]; intros x; simpl SpecFloat.iter_pos.
  - rewrite !IH, Pos2Nat.inj_xI.
    replace (S (2 * Pos.to_nat n)) with (Pos.to_nat n + (Pos.to_nat n + 1)) by lia.
    by rewrite !Nat.iter_add.
  - rewrite !IH, Pos2Nat.inj_xO.
    replace (2 * Pos.to_nat n) with (Pos.to_nat n + Pos.to_nat n) by lia.
    by rewrite !Nat.iter_add.
  - done.
Qed.

Lemma iter_shr_m (n : nat) r :
  (0 <= shr_m r)%Z -> shr_m (Nat.iter n shr_1 r) = (shr_m r / 2 ^ Z.of_nat n)%Z.
Proof.
  intros Hr. induction n as [|n IH]; [simpl; by rewrite Z.div_1_r|].
  rewrite Nat.iter_succ, shr_1_m, IH.
  - rewrite Z.div_div by lia. f_equal. rewrite Nat2Z.inj_succ, Z.pow_succ_r by lia. lia.
  - rewrite IH. apply Z.div_pos; lia.
Qed.

Lemma digits2_pos_bound p : (2 ^ (Zpos (digits2_pos p) - 1) <= Zpos p < 2 ^ Zpos (digits2_pos p))%Z.
Proof.
  induction p as [p IH|p IH|]; simpl digits2_pos; [| |done].
  - rewrite Pos2Z.inj_succ. replace (Z.succ _ - 1)%Z with (Zpos (digits2_pos p)) by lia.
    rewrite Z.pow_succ_r by lia.
    rewrite Z.sub_1_r in IH. pose proof (Z.pow_pred_r 2 (Zpos (digits2_pos p))) as Hp. lia.
  - rewrite Pos2Z.inj_succ. replace (Z.succ _ - 1)%Z with (Zpos (digits2_pos p)) by lia.
    rewrite Z.pow_succ_r by lia.
    pose proof (Z.pow_pred_r 2 (Zpos (digits2_pos p))) as Hp.
    rewrite Z.sub_1_r in IH. lia.
Qed.

(** A mantissa shifted right by less than its length stays positive and
    keeps its leading exponent. *)
Lemma digits_div_pow p n :
  (0 <= n < Zpos (digits2_pos p))%Z ->
  exists q, (Zpos p / 2 ^ n = Zpos q)%Z /\ (Zpos (digits2_pos q) = Zpos (digits2_pos p) - n)%Z.
Proof.
  intros Hn. pose proof (digits2_pos_bound p) as [Hlo Hhi].
  set (d := Zpos (digits2_pos p)) in *.
  assert (2 ^ (d - n - 1) <= Zpos p / 2 ^ n)%Z as H1.
  { apply Z.div_le_lower_bound; [lia|]. rewrite <-Z.pow_add_r by lia.
    replace (n + (d - n - 1))%Z with (d - 1)%Z by lia. done. }
  assert (Zpos p / 2 ^ n < 2 ^ (d - n))%Z as H2.
  { apply Z.div_lt_upper_bound; [lia|]. rewrite <-Z.pow_add_r by lia.
    replace (n + (d - n))%Z with d by lia. done. }
  assert (0 < 2 ^ (d - n - 1))%Z by lia.
  destruct (Zpos p / 2 ^ n)%Z as [|q|q] eqn:Eq; [lia| |lia].
  exists q. split; [done|]. pose proof (digits2_pos_bound q) as [G1 G2].
  assert (d - n - 1 < Zpos (digits2_pos q))%Z by (apply (Z.pow_lt_mono_r_iff 2); lia).
  assert (Zpos (digits2_pos q) - 1 < d - n)%Z by (apply (Z.pow_lt_mono_r_iff 2); lia).
  lia.
Qed.

Lemma digits2_pos_mono p q : (p <= q)%positive -> (digits2_pos p <= digits2_pos q)%positive.
Proof.
  intros Hle. pose proof (digits2_pos_bound p). pose proof (digits2_pos_bound q).
  assert (Zpos (digits2_pos p) - 1 < Zpos (digits2_pos q))%Z; [|lia].
  apply (Z.pow_lt_mono_r_iff 2); lia.
Qed.

Definition lead (m : positive) (e : Z) : Z := Zpos (digits2_pos m) + e.

Lemma shr_fexp_lead m e l :
  (lead m e >= -1073)%Z ->
  exists q e' r, shr_fexp fprec femax (Zpos m) e l = (r, e') /\ shr_m r = Zpos q /\
    lead q e' = lead m e /\ (e' >= -1074)%Z.
Proof.
  unfold shr_fexp, lead, fexp, emin, fprec, femax. intros Hl. simpl Zdigits2.
  set (d := Zpos (digits2_pos m)) in *.
  assert (shr_m (shr_record_of_loc (Zpos m) l) = Zpos m) as Hm by (by destruct l as [|[]]).
  set (k := (Z.max (d + e - 53) (3 - 1024 - 53) - e)%Z).
  destruct k as [|p|p] eqn:Ek; subst k; simpl.
  - exists m, e. eexists. split; [done|]. split; [done|]. lia.
  - assert (0 <= Zpos p < d)%Z as Hp by lia.
    destruct (digits_div_pow m (Zpos p) Hp) as (q & Hq & Hd).
    exists q, (e + Zpos p)%Z. eexists. split; [done|].
    rewrite iter_pos_nat, iter_shr_m by (rewrite Hm; lia). rewrite Hm, positive_nat_Z.
    split; [done|]. rewrite Hd. lia.
  - exists m, e. eexists. split; [done|]. split; [done|]. lia.
Qed.

Lemma round_aux_nonzero s m e l :
  (lead m e >= -1073)%Z ->
  (exists m' e', binary_round_aux fprec femax s (Zpos m) e l = S754_finite s m' e' /\
     (lead m' e' >= lead m e)%Z) \/
  binary_round_aux fprec femax s (Zpos m) e l = S754_infinity s.
Proof.
  intros Hl. unfold binary_round_aux.
  destruct (shr_fexp_lead m e l Hl) as (q & e1 & r & -> & Hr & Hq & He1).
  assert (exists q', round_nearest_even (shr_m r) (loc_of_shr_record r) = Zpos q' /\
            (q <= q')%positive) as (q' & -> & Hle).
  { rewrite Hr. unfold round_nearest_even.
    destruct (loc_of_shr_record r) as [|[]]; try (destruct (Z.even _));
      first [by exists q | exists (q + 1)%positive; split; [done|lia]]. }
  apply digits2_pos_mono in Hle.
  destruct (shr_fexp_lead q' e1 loc_Exact) as (q2 & e2 & r2 & -> & Hr2 & Hq2 & He2).
  { unfold lead in *. lia. }
  rewrite Hr2. destruct (e2 <=? _)%Z; [left|by right].
  exists q2, e2. split; [done|]. unfold lead in *. lia.
Qed.

Lemma shl_align_lead m e e' :
  let '(m', e'') := shl_align m e e' in lead m' e'' = lead m e.
Proof.
  unfold shl_align, lead. destruct (e' - e)%Z as [|p|p] eqn:E; try done.
  assert (forall n, digits2_pos (Pos.iter xO m n) = (digits2_pos m + n)%positive) as Hd.
  { intros n. induction n as [|n IH] using Pos.peano_ind; [simpl; lia|].
    rewrite Pos.iter_succ. simpl. rewrite IH. lia. }
  rewrite Hd. lia.
Qed.

(** [float(n)] has the sign of [n] and is not smaller than 1 in magnitude. *)
Lemma of_Z_sign n :
  (n = 0%Z /\ of_Z n = f0) \/
  (n <> 0%Z /\ exists s, s = (n <? 0)%Z /\
    ((exists m e, of_Z n = S754_finite s m e /\ (lead m e >= 1)%Z) \/ of_Z n = S754_infinity s)).
Proof.
  assert (forall s p, (exists m e, binary_round fprec femax s p 0 = S754_finite s m e /\ (lead m e >= 1)%Z)
          \/ binary_round fprec femax s p 0 = S754_infinity s) as Hr.
  { intros s p. unfold binary_round.
    pose proof (shl_align_lead p 0 (fexp fprec femax (Zpos (digits2_pos p) + 0))) as Hs.
    destruct (shl_align p 0 _) as [m e].
    assert (lead p 0 >= 1)%Z by (unfold lead; lia).
    destruct (round_aux_nonzero s m e loc_Exact) as [(m' & e' & -> & Hl)| ->]; [lia| |auto].
    left. exists m', e'. split; [done|]. lia. }
  unfold of_Z, binary_normalize. destruct n as [|p|p]; [by left|right..].
  - split; [lia|]. exists false. split; [done|]. apply Hr.
  - split; [lia|]. exists true. split; [done|]. apply Hr.
Qed.

(** A product of values whose leading exponents add up above the subnormal
    range keeps the product of the signs and is not zero. *)
Lemma fmul_nonzero s1 m1 e1 s2 m2 e2 :
  (lead m1 e1 + lead m2 e2 >= -1072)%Z ->
  let r := fmul (S754_finite s1 m1 e1) (S754_finite s2 m2 e2) in
  (exists m e, r = S754_finite (xorb s1 s2) m e) \/ r = S754_infinity (xorb s1 s2).
Proof.
  intros Hl. simpl. unfold fmul, SFmul.
  assert (lead (m1 * m2) (e1 + e2) >= -1073)%Z as Hl'.
  { unfold lead in *.
    pose proof (digits2_pos_bound m1) as [H1 _]. pose proof (digits2_pos_bound m2) as [H2 _].
    pose proof (digits2_pos_bound (m1 * m2)) as [_ H3].
    rewrite Pos2Z.inj_mul in H3.
    assert (2 ^ (Zpos (digits2_pos m1) - 1 + (Zpos (digits2_pos m2) - 1)) < 2 ^ Zpos (digits2_pos (m1 * m2)))%Z as H4.
    { rewrite Z.pow_add_r by lia. eapply Z.le_lt_trans; [|exact H3]. apply Z.mul_le_mono_nonneg; lia. }
    apply (Z.pow_lt_mono_r_iff 2) in H4; lia. }
  destruct (round_aux_nonzero (xorb s1 s2) (m1 * m2) (e1 + e2) loc_Exact Hl') as [(m & e & -> & _)| ->]; eauto.
Qed.

(** Scaling an int by a fixed positive double of ordinary size keeps its sign:
    the comparison with zero of [n * c] is the comparison of [n]. *)
Lemma of_Z_scaled_sign n m e :
  (lead m e >= -1000)%Z ->
  fltb f0 (fmul (of_Z n) (S754_finite false m e)) = (0 <? n)%Z.
Proof.
  intros Hl. destruct (of_Z_sign n) as [[-> ->]|(Hn & s & -> & Hs)]; [done|].
  assert ((0 <? n)%Z = negb (n <? 0)%Z) as -> by (destruct (Z.ltb_spec 0 n), (Z.ltb_spec n 0); simpl; lia).
  destruct Hs as [(m1 & e1 & -> & H1)| ->].
  - destruct (fmul_nonzero (n <? 0)%Z m1 e1 false m e) as [(m2 & e2 & ->)| ->]; [lia| |];
      rewrite xorb_false_r; by destruct (n <? 0)%Z.
  - simpl. rewrite xorb_false_r. by destruct (n <? 0)%Z.
Qed.

(** [feqb] and the order are compatible. *)
Lemma feqb_fleb x y : feqb x y = true -> fleb x y = true /\ fleb y x = true.
Proof.
  intros. fkeys. split; apply fleb_spec; do 2 eexists; do 2 (split; [done|]); unfold klt; lia.
Qed.

Lemma all_finite_lookup (v : vec) i x :
  all_finite v = true -> v !! i = Some x -> isfinite x = true.
Proof.
  unfold all_finite. rewrite forallb_Forall. intros H Hi. by eapply (Forall_lookup_1 _ _ _ _ H).
Qed.

Lemma bcast_ok_lookup {A} (f : float -> float -> A) (a b : vec) l :
  length a = length b -> bcast f a b = Ok l ->
  forall i x y, a !! i = Some x -> b !! i = Some y -> l !! i = Some (f x y).
Proof.
  intros Hlen H i x y Hx Hy. unfold bcast in H. rewrite Hlen, Nat.eqb_refl in H. simplify_eq.
  rewrite lookup_zip_with, Hx, Hy. done.
Qed.

(** ** Subtraction and order

    On canonical doubles ([valid]) the comparison of [x - y] with zero agrees
    with the comparison of [x] and [y] in one direction: rounding keeps the
    sign of the exact difference. *)

Definition valid (x : float) : bool := valid_binary fprec femax x.

Lemma binary_round_aux_sign s m e l :
  let r := binary_round_aux fprec femax s (Zpos m) e l in
  r = S754_zero s \/ (exists m' e', r = S754_finite s m' e') \/ r = S754_infinity s.
Proof.
  assert (forall n e l, (0 <= n)%Z -> exists q e', 
    let '(mrs, e1) := shr_fexp fprec femax n e l in shr_m mrs = q /\ e1 = e' /\ (0 <= q)%Z) as Hs.
  { intros n e0 l0 Hn. unfold shr_fexp, shr.
    assert (shr_m (shr_record_of_loc n l0) = n) as Hm by (by destruct l0 as [|[]]).
    destruct (_ - _)%Z as [|p|p]; [by exists n, e0; rewrite Hm| |by exists n, e0; rewrite Hm].
    exists (n / 2 ^ Zpos p)%Z, (e0 + Zpos p)%Z.
    rewrite iter_pos_nat, iter_shr_m; [|by rewrite Hm].
    rewrite Hm, positive_nat_Z.
    split; [done|]. split; [done|]. apply Z.div_pos; lia. }
  unfold binary_round_aux. simpl.
  destruct (Hs (Zpos m) e l) as (q & e1 & H1); [lia|].
  destruct (shr_fexp _ _ (Zpos m) e l) as [r1 e1']. destruct H1 as (Hq & -> & H0).
  assert (0 <= round_nearest_even (shr_m r1) (loc_of_shr_record r1))%Z as Hr.
  { rewrite Hq. unfold round_nearest_even. destruct (loc_of_shr_record r1) as [|[]]; try case_match; lia. }
  destruct (Hs _ e1 loc_Exact Hr) as (q2 & e2 & H2).
  destruct (shr_fexp _ _ _ e1 loc_Exact) as [r2 e2']. destruct H2 as (Hq2 & -> & H20).
  rewrite Hq2. destruct q2; [by left| |lia].
  destruct (_ <=? _)%Z; eauto.
Qed.

Lemma binary_round_sign s m e :
  let r := binary_round fprec femax s m e in
  r = S754_zero s \/ (exists m' e', r = S754_finite s m' e') \/ r = S754_infinity s.
Proof.
  unfold binary_round. destruct (shl_align m e _) as [m' e']. apply binary_round_aux_sign.
Qed.

(** The integer [m * 2 ^ (e - z)] an operand is aligned to. *)
Definition scaled (m : positive) (e z : Z) : Z := (Zpos m * 2 ^ (e - z))%Z.

Lemma shl_align_scaled m e z : (z <= e)%Z -> Zpos (fst (shl_align m e z)) = scaled m e z.
Proof.
  intros Hz. unfold shl_align, scaled. destruct (z - e)%Z as [|p|p] eqn:E.
  - replace (e - z)%Z with 0%Z by lia. simpl. lia.
  - lia.
  - replace (e - z)%Z with (Zpos p) by lia. simpl. clear.
    induction p as [|p IH] using Pos.peano_ind; [simpl; lia|].
    rewrite Pos.iter_succ, Pos2Z.inj_succ, Z.pow_succ_r by lia.
    rewrite Pos2Z.inj_xO, IH. lia.
Qed.

Lemma valid_digits m e :
  bounded fprec femax m e = true ->
  (Zpos (digits2_pos m) <= 53 /\ -1074 <= e /\ (-1074 < e -> Zpos (digits2_pos m) = 53))%Z.
Proof.
  unfold bounded, canonical_mantissa, fexp, emin, fprec, femax. intros H.
  apply andb_true_iff in H as [H1%Z.eqb_eq _]. lia.
Qed.

(** On canonical mantissas the lexicographic order is the order of values. *)
Lemma scaled_mono m e m' e' :
  bounded fprec femax m e = true -> bounded fprec femax m' e' = true ->
  (e < e' \/ (e = e' /\ Zpos m <= Zpos m'))%Z ->
  (scaled m e (Z.min e e') <= scaled m' e' (Z.min e e'))%Z.
Proof.
  intros [D1 [E1 F1]]%valid_digits [D2 [E2 F2]]%valid_digits [Hlt|[-> Hm]].
  - rewrite Z.min_l by lia. unfold scaled. rewrite Z.sub_diag, Z.mul_1_r.
    pose proof (digits2_pos_bound m) as [_ B1]. pose proof (digits2_pos_bound m') as [B2 _].
    rewrite F2 in B2 by lia.
    assert (Zpos m < 2 ^ 53)%Z.
    { eapply Z.lt_le_trans; [exact B1|]. apply Z.pow_le_mono_r; lia. }
    assert (2 ^ 53 <= Zpos m' * 2 ^ (e' - e))%Z; [|lia].
    replace 53%Z with (53 - 1 + 1)%Z by lia. rewrite Z.pow_add_r by lia.
    apply Z.mul_le_mono_nonneg; try lia. apply Z.pow_le_mono_r; lia.
  - rewrite Z.min_id. unfold scaled. rewrite Z.sub_diag. lia.
Qed.

Lemma fsub_nonpos x y :
  isfinite x = true -> isfinite y = true -> valid x = true -> valid y = true ->
  fleb x y = true -> fleb (fsub x y) f0 = true.
Proof.
  intros Fx Fy Vx Vy H. apply fleb_spec in H as (a & b & Kx & Ky & Hk).
  destruct x as [s| | |s m e], y as [s'| | |s' m' e']; try done.
  { by destruct s, s'. }
  { destruct s'; simpl in *; simplify_eq; [|done]. unfold klt in Hk. simpl in Hk. lia. }
  { destruct s; simpl in *; simplify_eq; [done|]. unfold klt in Hk. simpl in Hk. lia. }
  unfold fsub, SFsub. rewrite !shl_align_scaled by lia.
  unfold valid, valid_binary in Vx, Vy.
  assert (cond_Zopp s (scaled m e (Z.min e e')) - cond_Zopp s' (scaled m' e' (Z.min e e')) <= 0)%Z as Hd.
  { assert (forall p k z, 0 <= scaled p k z)%Z as Hpos by (intros; unfold scaled; lia).
    pose proof (Hpos m e (Z.min e e')). pose proof (Hpos m' e' (Z.min e e')).
    destruct s, s'; simpl in *; simplify_eq; unfold klt in Hk; simpl in Hk; try lia.
    - pose proof (scaled_mono m' e' m e Vy Vx) as Hs. rewrite Z.min_comm in Hs. lia.
    - pose proof (scaled_mono m e m' e' Vx Vy) as Hs. lia. }
  unfold binary_normalize. destruct (_ - _)%Z as [|p|p]; [done|lia|].
  destruct (binary_round_sign true p (Z.min e e')) as [-> | [(?&?& ->)| ->]]; done.
Qed.

(** The contrapositive the code uses: [np.diff > 0] means strictly increasing. *)
Lemma fsub_pos_lt x y :
  isfinite x = true -> isfinite y = true -> valid x = true -> valid y = true ->
  fleb (fsub y x) f0 = false -> fltb x y = true.
Proof.
  intros Fx Fy Vx Vy H. apply fleb_false; auto.
  destruct (fleb y x) eqn:E; [|done]. by rewrite fsub_nonpos in H.
Qed.

(** ** Conversion of machine-sized ints does not overflow *)

Lemma shr_fexp_exp m e l :
  snd (shr_fexp fprec femax (Zpos m) e l) = Z.max e (Z.max (lead m e - 53) (-1074)).
Proof.
  unfold shr_fexp, lead, fexp, emin, fprec, femax. simpl Zdigits2.
  destruct (_ - e)%Z as [|p|p] eqn:E; simpl; lia.
Qed.

Lemma digits2_pos_le p k : (0 <= k -> Zpos p < 2 ^ k -> Zpos (digits2_pos p) <= k)%Z.
Proof.
  intros Hk Hp. pose proof (digits2_pos_bound p) as [H _].
  assert (Zpos (digits2_pos p) - 1 < k)%Z; [|lia].
  apply (Z.pow_lt_mono_r_iff 2); lia.
Qed.

Lemma digits2_pos_succ p : (Zpos (digits2_pos (p + 1)) <= Zpos (digits2_pos p) + 1)%Z.
Proof.
  apply digits2_pos_le; [lia|]. pose proof (digits2_pos_bound p) as [_ H].
  rewrite Z.pow_add_r, Pos2Z.inj_add by lia. change (2 ^ 1)%Z with 2%Z.
  generalize dependent (2 ^ Zpos (digits2_pos p))%Z. intros P HP. lia.
Qed.

Lemma round_aux_finite s m e l :
  (-1073 <= lead m e <= 900 -> e <= 900 ->
   isfinite (binary_round_aux fprec femax s (Zpos m) e l) = true)%Z.
Proof.
  intros Hl He. unfold binary_round_aux.
  destruct (shr_fexp_lead m e l) as (q & e1 & r & Heq & Hr & Hq & _); [lia|].
  pose proof (shr_fexp_exp m e l) as He1. rewrite Heq in He1 |- *. simpl in He1. rewrite Hr.
  assert (exists q', round_nearest_even (Zpos q) (loc_of_shr_record r) = Zpos q' /\
            (Zpos (digits2_pos q) <= Zpos (digits2_pos q') <= Zpos (digits2_pos q) + 1)%Z) as (q' & -> & Hd).
  { pose proof (digits2_pos_succ q). pose proof (digits2_pos_mono q (q + 1) ltac:(lia)).
    unfold round_nearest_even.
    destruct (loc_of_shr_record r) as [|[]]; try case_match;
      first [exists q; split; [done|lia] | exists (q + 1)%positive; split; [done|lia]]. }
  destruct (shr_fexp_lead q' e1 loc_Exact) as (q2 & e2 & r2 & Heq2 & Hr2 & _ & _);
    [unfold lead in *; lia|].
  pose proof (shr_fexp_exp q' e1 loc_Exact) as He2. rewrite Heq2 in He2 |- *. simpl in He2. rewrite Hr2.
  assert (e2 <=? femax - fprec = true)%Z as ->; [|done].
  apply Z.leb_le. unfold femax, fprec, lead in *. lia.
Qed.

Lemma of_Z_finite n : (Z.abs n < 2 ^ 64)%Z -> isfinite (of_Z n) = true.
Proof.
  assert (forall s p, (Zpos p < 2 ^ 64)%Z -> isfinite (binary_round fprec femax s p 0) = true) as H.
  { intros s p Hp. unfold binary_round.
    pose proof (digits2_pos_le p 64 ltac:(lia) Hp) as Hd.
    pose proof (shl_align_lead p 0 (fexp fprec femax (Zpos (digits2_pos p) + 0))) as Hs.
    assert (snd (shl_align p 0 (fexp fprec femax (Zpos (digits2_pos p) + 0))) <= 0)%Z as He
      by (unfold shl_align; destruct (_ - 0)%Z eqn:E; simpl; lia).
    destruct (shl_align p 0 _) as [m e]. simpl in He. apply round_aux_finite; [|lia].
    rewrite Hs. unfold lead. lia. }
  unfold of_Z, binary_normalize. destruct n as [|p|p]; [done| |]; simpl; auto.
Qed.

Lemma int_to_float_ok n : (Z.abs n < 2 ^ 64)%Z -> int_to_float n = Ok (of_Z n).
Proof.
  intros H. unfold int_to_float. pose proof (of_Z_finite n H). by destruct (of_Z n).
Qed.

(** ** Reading a vector by index *)

Definition fget (l : vec) (i : nat) : float := default fnan (l !! i).

Lemma fget_lookup l i : i < length l -> l !! i = Some (fget l i).
Proof. intros [x H]%lookup_lt_is_Some. unfold fget. by rewrite H. Qed.

Lemma fget_map (f : nat -> float) n i : i < n -> fget (map f (seq 0 n)) i = f i.
Proof. intros H. unfold fget. by rewrite list_lookup_fmap, lookup_seq_lt. Qed.

Lemma fget_replicate n x i : i < n -> fget (replicate n x) i = x.
Proof. intros H. unfold fget. by rewrite lookup_replicate_2. Qed.

(** ** Reductions *)

Lemma fold_max_le v acc c :
  fleb (fold_left np_max v acc) c = true -> fleb acc c = true /\ Forall (fun x => fleb x c = true) v.
Proof.
  revert acc. induction v as [|x v IH]; intros acc H; simpl in H; [by split|].
  apply IH in H as [H Hv]. destruct (fleb_nan _ _ H) as [Hn _].
  destruct (isnan acc) eqn:Ea; [by rewrite (np_max_isnan acc x) in Hn by auto|].
  destruct (isnan x) eqn:Ex; [by rewrite (np_max_isnan acc x) in Hn by auto|].
  destruct (np_max_spec acc x Ea Ex) as (_ & H1 & H2).
  split; [|constructor; [|done]]; by eapply fleb_trans.
Qed.

(** A bound on [np.max] bounds every entry, and no entry is NaN. *)
Lemma vec_max_le v m c : vec_max v = Ok m -> fleb m c = true -> Forall (fun x => fleb x c = true) v.
Proof.
  destruct v as [|x v]; simpl; [done|]. intros [= <-] H. apply fold_max_le in H as [H1 H2]. by constructor.
Qed.

Lemma fold_min_lower v acc :
  isnan acc = false -> Forall (fun x => isnan x = false) v ->
  let m := fold_left np_min v acc in
  isnan m = false /\ fleb m acc = true /\ Forall (fun x => fleb m x = true) v /\ (m = acc \/ m ∈ v).
Proof.
  intros Ha Hv. revert acc Ha. induction Hv as [|x v Hx Hv IH]; intros acc Ha; simpl.
  { repeat split; auto. }
  destruct (np_min_spec acc x Ha Hx) as (Hor & H1 & H2).
  destruct (IH (np_min acc x) (np_min_nan _ _ Ha Hx)) as (Hn & Hm & Hf & Hin).
  split; [done|]. split; [by eapply fleb_trans|]. split; [constructor; [by eapply fleb_trans|done]|].
  rewrite elem_of_cons. destruct Hin as [-> |]; [destruct Hor as [-> | ->]|]; auto.
Qed.

Lemma fold_max_upper v acc :
  isnan acc = false -> Forall (fun x => isnan x = false) v ->
  let m := fold_left np_max v acc in
  isnan m = false /\ fleb acc m = true /\ Forall (fun x => fleb x m = true) v /\ (m = acc \/ m ∈ v).
Proof.
  intros Ha Hv. revert acc Ha. induction Hv as [|x v Hx Hv IH]; intros acc Ha; simpl.
  { repeat split; auto. }
  destruct (np_max_spec acc x Ha Hx) as (Hor & H1 & H2).
  destruct (IH (np_max acc x) (np_max_nan _ _ Ha Hx)) as (Hn & Hm & Hf & Hin).
  split; [done|]. split; [by eapply fleb_trans|]. split; [constructor; [by eapply fleb_trans|done]|].
  rewrite elem_of_cons. destruct Hin as [-> |]; [destruct Hor as [-> | ->]|]; auto.
Qed.

(** ** Sums with a finite operand are never NaN *)

Lemma binary_normalize_nan n e s : isnan (binary_normalize fprec femax n e s) = false.
Proof.
  destruct n as [|p|p]; simpl; [done| |];
    [destruct (binary_round_sign false p e) as [-> | [(?&?& ->)| ->]]
    |destruct (binary_round_sign true p e) as [-> | [(?&?& ->)| ->]]]; done.
Qed.

Lemma fadd_nan x y : isnan x = false -> isfinite y = true -> isnan (fadd x y) = false.
Proof.
  unfold fadd. destruct x as [s|s| |s m e], y as [s'|s'| |s' m' e']; simpl; try done.
  - by destruct s, s'.
  - intros _ _. apply binary_normalize_nan.
Qed.

Lemma fsub_nan x y : isnan x = false -> isfinite y = true -> isnan (fsub x y) = false.
Proof.
  unfold fsub. destruct x as [s|s| |s m e], y as [s'|s'| |s' m' e']; simpl; try done.
  - by destruct s, s'.
  - intros _ _. apply binary_normalize_nan.
Qed.

(** ** Intervals up to NaN *)

(** NaN, or inside the closed interval. *)
Definition within (lo x hi : float) : Prop := isnan x = true \/ (fleb lo x = true /\ fleb x hi = true).

Lemma clip_isnan x lo hi : isnan x = true \/ isnan lo = true \/ isnan hi = true -> isnan (clip x lo hi) = true.
Proof.
  unfold clip. intros [H|[H|H]]; apply np_min_isnan; [left; apply np_max_isnan; by left|left; apply np_max_isnan; by right|by right].
Qed.

Lemma clip_within x lo hi : fleb lo hi = true -> within lo (clip x lo hi) hi.
Proof.
  intros H. destruct (isnan x) eqn:E; [left; apply clip_isnan; by left|right; by apply clip_bounds].
Qed.

(** The interval spanned by two bounds in any order and a point. *)
Definition span_lo (a b q : float) : float := np_min (np_min a b) q.
Definition span_hi (a b q : float) : float := np_max (np_max a b) q.

Lemma clip_span x a b q : isnan q = false -> within (span_lo a b q) (clip x a b) (span_hi a b q).
Proof.
  intros Nq. destruct (isnan (clip x a b)) eqn:E; [by left|].
  assert (isnan x = false /\ isnan a = false /\ isnan b = false) as (Nx & Na & Nb).
  { destruct (isnan x) eqn:?, (isnan a) eqn:?, (isnan b) eqn:?; auto; rewrite clip_isnan in E; auto. }
  right. destruct (np_min_spec a b Na Nb) as (_ & A1 & A2). destruct (np_max_spec a b Na Nb) as (_ & B1 & B2).
  destruct (np_min_spec _ q (np_min_nan a b Na Nb) Nq) as (_ & C1 & _).
  destruct (np_max_spec _ q (np_max_nan a b Na Nb) Nq) as (_ & D1 & _).
  assert (fleb (np_min a b) (clip x a b) = true /\ fleb (clip x a b) (np_max a b) = true) as [F1 F2].
  { unfold clip. destruct (np_max_spec x a Nx Na) as (_ & M1 & M2). pose proof (np_max_nan x a Nx Na) as Nm.
    destruct (np_min_spec (np_max x a) b Nm Nb) as ([E1|E1] & M3 & M4); rewrite E1 in *; split.
    - exact (fleb_trans _ _ _ A1 M2).
    - exact (fleb_trans _ _ _ M4 B2).
    - exact A2.
    - exact B2. }
  split; [exact (fleb_trans _ _ _ C1 F1)|exact (fleb_trans _ _ _ F2 D1)].
Qed.

(** Clipping into an interval that holds [q] keeps inside any other that does. *)
Lemma clip_hull y lo hi a b q :
  fleb lo q = true -> fleb q hi = true -> fleb a q = true -> fleb q b = true ->
  within a y b -> within a (clip y lo hi) b.
Proof.
  intros Hl Hh Ha Hb [Hy|[Y1 Y2]]; [left; apply clip_isnan; by left|].
  destruct (fleb_nan _ _ Hl) as [Nl Nq]. destruct (fleb_nan _ _ Hh) as [_ Nh]. destruct (fleb_nan _ _ Y1) as [_ Ny].
  right. unfold clip. destruct (np_max_spec y lo Ny Nl) as (Em & M1 & M2). pose proof (np_max_nan y lo Ny Nl) as Nm.
  destruct (np_min_spec (np_max y lo) hi Nm Nh) as (Ei & I1 & I2).
  assert (fleb (np_max y lo) b = true) as Hmb by (destruct Em as [-> | ->]; [done|exact (fleb_trans _ _ _ Hl Hb)]).
  assert (fleb a (np_max y lo) = true) as Ham by exact (fleb_trans _ _ _ Y1 M1).
  destruct Ei as [E|E]; rewrite E in *; [done|]. split; [exact (fleb_trans _ _ _ Ha Hh)|exact (fleb_trans _ _ _ I1 Hmb)].
Qed.

Lemma fleb_antisym x y : fleb x y = true -> fleb y x = true -> feqb x y = true.
Proof.
  intros H1 H2. apply fleb_spec in H1 as (a & b & Ka & Kb & H1). apply fleb_spec in H2 as (b' & a' & Kb' & Ka' & H2).
  rewrite Ka in Ka'. rewrite Kb in Kb'. simplify_eq. apply feqb_spec. exists a'. split; [done|].
  assert (a' = b') as <-; [|done]. destruct a' as [[? ?] ?], b' as [[? ?] ?]. unfold klt in *. simpl in *.
  f_equal; [f_equal|]; lia.
Qed.
