(* ===== verification/Motion.v ===== *)
(** Joint trajectories and the flown curve: [arm_control/motion/types.py], and
    the gain and impedance value checks of [arm_control/control/gains.py] and
    [arm_control/contracts/impedance.py].

    A [JointTrajectory] is validated by its constructor; [sample_at] evaluates
    one cubic Hermite segment (or the chord when there are no velocities), and
    [bounds] computes the extrema the execution policy admits plans by.  Every
    formula is written with the source's operations in the source's order. *)
From Stdlib Require Import SpecFloat PrimFloat FloatOps.
From S2P Require Import Prelude Floats.

Definition f2 : float := Eval vm_compute in Prim2SF 2%float.
Definition f3 : float := Eval vm_compute in Prim2SF 3%float.
Definition f4 : float := Eval vm_compute in Prim2SF 4%float.
Definition f6 : float := Eval vm_compute in Prim2SF 6%float.
Definition f12 : float := Eval vm_compute in Prim2SF 12%float.
Definition f1e_300 : float := Eval vm_compute in Prim2SF 1e-300%float.
Definition f1e_6 : float := Eval vm_compute in Prim2SF 1e-6%float.

(** ** Values *)

Record TrajectoryPoint := {
  pt_time : float;
  pt_position : vec;
  pt_velocity : vec;
  pt_acceleration : vec;
}.

Record JointTrajectory := {
  times : vec;
  positions : mat;
  velocities : option mat;
}.

Record JointState := { js_position : vec; js_velocity : vec }.

Record JointServoCommand := {
  q_des : vec;
  qd_des : vec;
  tau_ff : vec;
  cmd_kp : vec;
  cmd_kd : vec;
}.

(** [JointTrajectory.__post_init__]: 1-D times and 2-D positions are the types
    (a ragged matrix is refused by [np.asarray]). *)
Definition JointTrajectory_new (ts : vec) (ps : mat) (vs : option mat) : result JointTrajectory :=
  raise_if negb (rectangular ps) of ValueError "setting an array element with a sequence" ;;
  raise_if negb (length ts =? length ps) of ValueError "times length must match positions rows" ;;
  raise_if length ts <? 2 of ValueError "trajectory must contain at least two points" ;;
  raise_if existsb (fun d => d <=f f0) (np_diff ts) of ValueError "times must be strictly increasing" ;;
  raise_if (match vs with Some v => negb (same_shape v ps) | None => false end)
    of ValueError "velocities shape must match positions shape" ;;
  Ok {| times := ts; positions := ps; velocities := vs |}.

Section Trajectory.
Context (tr : JointTrajectory).

Definition first_time : float := default fnan (head (times tr)).
Definition last_time : float := default fnan (last (times tr)).
Definition duration_sec : float := last_time -f first_time.
Definition num_joints : nat := ncols (positions tr).

(** [JointTrajectory._point] *)
Definition point (index : nat) : TrajectoryPoint := {|
  pt_time := default fnan (times tr !! index);
  pt_position := default [] (positions tr !! index);
  pt_velocity := match velocities tr with
                 | Some v => default [] (v !! index)
                 | None => replicate num_joints f0
                 end;
  pt_acceleration := replicate num_joints f0;
|}.
End Trajectory.

(** [np.searchsorted(a, t, side="right")] on an increasing array: how many
    entries are not greater than [t], NaN sorting last. *)
Definition np_less (a b : float) : bool := (a <f b) || (negb (isnan a) && isnan b).
Definition searchsorted_right (a : vec) (t : float) : nat :=
  length (List.filter (fun x => negb (np_less t x)) a).

(** One joint of one segment of [sample_at]: [s] in segment units, [h] its
    length. *)
Section Hermite.
Context (h s q0 q1 v0 v1 : float).
Let s2 := s *f s.
Let s3 := s *f s *f s.
Let dq := q1 -f q0.

Definition hermite_position : float :=
  q0 +f (f3 *f s2 -f f2 *f s3) *f dq
     +f h *f ((s3 -f f2 *f s2 +f s) *f v0 +f (s3 -f s2) *f v1).
Definition hermite_velocity : float :=
  (f6 *f s -f f6 *f s2) *f dq /f h +f (f3 *f s2 -f f4 *f s +f f1) *f v0
     +f (f3 *f s2 -f f2 *f s) *f v1.
Definition hermite_acceleration : float :=
  (f6 -f f12 *f s) *f dq /f (h *f h)
     +f ((f6 *f s -f f4) *f v0 +f (f6 *f s -f f2) *f v1) /f h.
End Hermite.

(** Rows [i] and [i+1] of a matrix, joint by joint. *)
Definition row_pair (m : mat) (i j : nat) : list (float * float) :=
  zip (default [] (m !! i)) (default [] (m !! j)).

(** [JointTrajectory.sample_at]; a NaN time falls past the last knot and
    raises [IndexError]. *)
Definition sample_at (tr : JointTrajectory) (t : float) : result TrajectoryPoint :=
  if t <=f first_time tr then Ok (point tr 0)
  else if t >=f last_time tr then Ok (point tr (length (times tr) - 1))
  else
    let upper := searchsorted_right (times tr) t in
    let lower := upper - 1 in
    match times tr !! upper, times tr !! lower with
    | Some tu, Some tl =>
        let h := tu -f tl in
        let s := (t -f tl) /f h in
        let q := row_pair (positions tr) lower upper in
        match velocities tr with
        | None => Ok {|
            pt_time := t;
            pt_position := map (fun '(q0, q1) => q0 +f s *f (q1 -f q0)) q;
            pt_velocity := map (fun '(q0, q1) => (q1 -f q0) /f h) q;
            pt_acceleration := replicate (num_joints tr) f0 |}
        | Some vm =>
            let v := row_pair vm lower upper in
            Ok {|
              pt_time := t;
              pt_position := zip_with (fun '(q0, q1) '(v0, v1) => hermite_position h s q0 q1 v0 v1) q v;
              pt_velocity := zip_with (fun '(q0, q1) '(v0, v1) => hermite_velocity h s q0 q1 v0 v1) q v;
              pt_acceleration := zip_with (fun '(q0, q1) '(v0, v1) => hermite_acceleration h s q0 q1 v0 v1) q v |}
        end
    | _, _ => Err IndexError
    end.

(** ** Curve extrema *)

Record joint_bounds := {
  q_min : float;
  q_max : float;
  qd_abs_max : float;
  qdd_abs_max : float;
}.

Section Segment.
Context (h q0 q1 v0 v1 : float).
Definition c0 : float := q0.
Definition c1 : float := h *f v0.
Definition c2 : float := fopp f3 *f q0 -f f2 *f h *f v0 +f f3 *f q1 -f h *f v1.
Definition c3 : float := f2 *f q0 +f h *f v0 -f f2 *f q1 +f h *f v1.
Definition q_at (s : float) : float := ((c3 *f s +f c2) *f s +f c1) *f s +f c0.
Definition qd_at (s : float) : float := ((f3 *f c3 *f s +f f2 *f c2) *f s +f c1) /f h.

(** The root of [dq/ds] selected by [sign], or NaN when it is not an
    interior point. *)
Definition extremum_at (sign : float) : float :=
  let a := f3 *f c3 in
  let b := f2 *f c2 in
  let c := c1 in
  let disc := b *f b -f f4 *f a *f c in
  let root := fsqrt (if f0 <f disc then disc else f0) in
  let quad := if f1e_300 <f fabs a then (fopp b +f sign *f root) /f (f2 *f a) else fnan in
  let lin := if f1e_300 <f fabs b then fopp c /f b else fnan in
  let s := if f1e_300 <f fabs a then quad else lin in
  let s := if (f0 <f disc) || (fabs a <=f f1e_300) then s else fnan in
  if (f0 <f s) && (s <f f1) then s else fnan.
Definition q_candidate (sign : float) : float :=
  let s := extremum_at sign in
  if isnan s then q_at f0 else q_at s.
Definition qd_candidate : float :=
  let s := if f1e_300 <f fabs c3 then fopp c2 /f (f3 *f c3) else fnan in
  let s := if (f0 <f s) && (s <f f1) then s else fnan in
  if isnan s then f0 else fabs (qd_at s).

(** The loop body of [bounds] for one joint. *)
Definition segment_bounds (b : joint_bounds) : joint_bounds := {|
  q_min := np_min (q_min b)
    (np_min (np_min (np_min (q_at f0) (q_at f1)) (q_candidate f1)) (q_candidate (fopp f1)));
  q_max := np_max (q_max b)
    (np_max (np_max (np_max (q_at f0) (q_at f1)) (q_candidate f1)) (q_candidate (fopp f1)));
  qd_abs_max := np_max (qd_abs_max b)
    (np_max (np_max (fabs (qd_at f0)) (fabs (qd_at f1))) qd_candidate);
  qdd_abs_max := np_max (qdd_abs_max b)
    (np_max (fabs (f2 *f c2) /f (h *f h)) (fabs (f6 *f c3 +f f2 *f c2) /f (h *f h)));
|}.
End Segment.

(** The segments of joint [j]: length, end positions, end velocities. *)
Definition segment_of (tr : JointTrajectory) (j i : nat) : float * float * float * float * float :=
  let at_ (m : mat) k := default fnan (m !! k ≫= lookup j) in
  let h := default fnan (times tr !! S i) -f default fnan (times tr !! i) in
  let q0 := at_ (positions tr) i in
  let q1 := at_ (positions tr) (S i) in
  match velocities tr with
  | None => let v := (q1 -f q0) /f h in (h, q0, q1, v, v)
  | Some vm => (h, q0, q1, at_ vm i, at_ vm (S i))
  end.

Definition joint_bounds0 : joint_bounds :=
  {| q_min := finf; q_max := fopp finf; qd_abs_max := f0; qdd_abs_max := f0 |}.

(** [JointTrajectory.bounds] *)
Definition bounds_of (tr : JointTrajectory) (j : nat) : joint_bounds :=
  fold_left (fun b i => let '(h, q0, q1, v0, v1) := segment_of tr j i in
                        segment_bounds h q0 q1 v0 v1 b)
    (seq 0 (length (times tr) - 1)) joint_bounds0.
Definition bounds (tr : JointTrajectory) : list joint_bounds :=
  map (bounds_of tr) (seq 0 (num_joints tr)).

(** ** Gain checks ([control/gains.py]) *)

Record DmMotorLimits := {
  kp_lo : float; kp_hi : float; kd_lo : float; kd_hi : float;
  torque_lo : float; torque_hi : float }.

Definition in_range (lo x hi : float) : bool := (lo <=f x) && (x <=f hi).

Definition validate_hardware_gains (kp kd torque : float) (l : DmMotorLimits) : result unit :=
  raise_if negb (in_range (kp_lo l) kp (kp_hi l)) of ValueError "kp" ;;
  raise_if negb (in_range (kd_lo l) kd (kd_hi l)) of ValueError "kd" ;;
  raise_if negb (in_range (torque_lo l) torque (torque_hi l)) of ValueError "torque" ;;
  Ok tt.

Definition validate_torque_limits (limits : vec) (n : option nat) : result vec :=
  raise_if (length limits =? 0) of ValueError "must be a non-empty joint vector" ;;
  raise_if (match n with Some n => negb (length limits =? n) | None => false end) of ValueError "length" ;;
  raise_if negb (all_finite limits) || existsb (fun x => x <=f f0) limits
    of ValueError "must be finite and positive" ;;
  Ok limits.

Definition validate_integral_vector (values : option vec) (n : nat) : result vec :=
  let v := default (replicate n f0) values in
  raise_if negb (length v =? n) || negb (all_finite v) || existsb (fun x => x <f f0) v
    of ValueError "must have shape (n,) and be finite and nonnegative" ;;
  Ok v.

(** ** Cartesian impedance values ([contracts/impedance.py])

    A spec is a record: the check that a dict has exactly these keys is its
    type. *)

Record pose_hold_spec := {
  ph_id : float;
  ph_kc : vec;
  ph_dc : vec;
  ph_nullspace_kp : float;
  ph_nullspace_kd : float;
}.

Record cartesian_spec := {
  cs_frame : string;
  cs_task_R : mat;
  cs_kc : vec;
  cs_dc : vec;
}.

Definition axis_caps : list float :=
  replicate 3 (of_Z 1000) ++ replicate 3 (of_Z 100) ++ replicate 3 (of_Z 200) ++ replicate 3 (of_Z 50).

Definition pose_hold_values (spec : pose_hold_spec) : result (list float) :=
  let ident := ph_id spec in
  raise_if negb (isfinite ident) || negb ((f0 <f ident) && (ident <f of_Z (2 ^ 32)))
           || negb (match py_int ident with Ok i => ident =f of_Z i | Err _ => false end)
    of ValueError "pose hold id must be a nonzero uint32" ;;
  raise_if negb (length (ph_kc spec) =? 6) || negb (length (ph_dc spec) =? 6)
    of ValueError "Cartesian stiffness/damping require six axes" ;;
  let gains := ph_kc spec ++ ph_dc spec ++ [ph_nullspace_kp spec; ph_nullspace_kd spec] in
  let caps := axis_caps ++ [of_Z 20; of_Z 10] in
  raise_if existsb (fun '(x, cap) => negb (isfinite x) || negb ((f0 <=f x) && (x <=f cap))) (zip gains caps)
    of ValueError "pose hold gains must be finite, nonnegative and within protocol bounds" ;;
  Ok (ident :: gains).

Definition unpack_pose_hold_values (values : list float) : result pose_hold_spec :=
  raise_if negb (length values =? 15) of ValueError "pose hold block must contain 15 values" ;;
  let spec := {| ph_id := default fnan (values !! 0);
                 ph_kc := take 6 (drop 1 values);
                 ph_dc := take 6 (drop 7 values);
                 ph_nullspace_kp := default fnan (values !! 13);
                 ph_nullspace_kd := default fnan (values !! 14) |} in
  checked <-- pose_hold_values spec ;;
  Ok {| ph_id := default fnan (checked !! 0);
        ph_kc := take 6 (drop 1 checked);
        ph_dc := take 6 (drop 7 checked);
        ph_nullspace_kp := default fnan (checked !! 13);
        ph_nullspace_kd := default fnan (checked !! 14) |}.

(** Entry [i][j] of a 3x3 matrix. *)
Definition m3 (r : mat) (i j : nat) : float := default fnan (r !! i ≫= lookup j).

(** [sum(rows[i][k] * rows[j][k] for k in range(3)) - (i == j)], in absolute
    value: [sum] starts at the int 0. *)
Definition ortho_error (r : mat) (i j : nat) : float :=
  let dot := f0 +f m3 r i 0 *f m3 r j 0 +f m3 r i 1 *f m3 r j 1 +f m3 r i 2 *f m3 r j 2 in
  fabs (dot -f (if Nat.eqb i j then f1 else f0)).

Definition det3 (r : mat) : float :=
  m3 r 0 0 *f (m3 r 1 1 *f m3 r 2 2 -f m3 r 1 2 *f m3 r 2 1)
  -f m3 r 0 1 *f (m3 r 1 0 *f m3 r 2 2 -f m3 r 1 2 *f m3 r 2 0)
  +f m3 r 0 2 *f (m3 r 1 0 *f m3 r 2 1 -f m3 r 1 1 *f m3 r 2 0).

Definition cartesian_values (spec : cartesian_spec) : result (list float) :=
  raise_if negb (String.eqb (cs_frame spec) "base")
    of ValueError "the cartesian tail is in the robot BASE frame" ;;
  let rows := cs_task_R spec in
  let kc := cs_kc spec in
  let dc := cs_dc spec in
  raise_if negb (length rows =? 3) || existsb (fun r => negb (length r =? 3)) rows
           || negb (length kc =? 6) || negb (length dc =? 6)
    of ValueError "cartesian requires a 3x3 task_R and six-axis kc/dc" ;;
  let flat := concat rows in
  raise_if negb (all_finite (flat ++ kc ++ dc)) of ValueError "cartesian values must be finite" ;;
  raise_if existsb (fun i => existsb (fun j => f1e_6 <f ortho_error rows i j) [0; 1; 2]) [0; 1; 2]
    of ValueError "task_R must be orthonormal" ;;
  raise_if f1e_6 <f fabs (det3 rows -f f1) of ValueError "task_R must be a rotation (det +1)" ;;
  raise_if existsb (fun '(x, cap) => negb ((f0 <=f x) && (x <=f cap))) (zip (kc ++ dc) axis_caps)
    of ValueError "cartesian gains must be nonnegative and within the pose-hold envelope" ;;
  Ok (flat ++ kc ++ dc).

(** ** Lemmas: the segment search *)

Definition increasing (ts : vec) : Prop :=
  forall i a b, ts !! i = Some a -> ts !! S i = Some b -> fltb a b = true.

Lemma np_diff_lookup ts i a b :
  ts !! i = Some a -> ts !! S i = Some b -> np_diff ts !! i = Some (b -f a).
Proof.
  revert i. induction ts as [|x ts IH]; intros i Ha Hb; [done|].
  destruct ts as [|y ts]; [by destruct i|].
  destruct i as [|i]; simpl in *; [by simplify_eq|]. by apply IH.
Qed.

(** The constructor's check makes canonical finite times strictly increasing. *)
Lemma JointTrajectory_new_increasing ts ps vs tr :
  JointTrajectory_new ts ps vs = Ok tr ->
  all_finite ts = true -> forallb valid ts = true -> increasing (times tr).
Proof.
  unfold JointTrajectory_new. intros H Hf Hv. inv_ok H. intros i a b Ha Hb.
  apply fsub_pos_lt.
  - by eapply all_finite_lookup.
  - by eapply all_finite_lookup.
  - apply forallb_Forall in Hv. by eapply (Forall_lookup_1 _ _ _ _ Hv).
  - apply forallb_Forall in Hv. by eapply (Forall_lookup_1 _ _ _ _ Hv).
  - match goal with H : existsb _ (np_diff ts) = false |- _ => apply existsb_false_Forall in H as Hd end.
    eapply (Forall_lookup_1 (fun d => (d <=f f0) = false)); [exact Hd|]. by apply np_diff_lookup.
Qed.

Lemma increasing_le ts i j a b :
  increasing ts -> all_finite ts = true -> i <= j ->
  ts !! i = Some a -> ts !! j = Some b -> fleb a b = true.
Proof.
  intros Hinc Hf Hij Ha Hb. revert b Hb. induction Hij as [|j Hij IH]; intros b Hb.
  - simplify_eq. apply fleb_refl, finite_not_nan. by eapply all_finite_lookup.
  - destruct (lookup_lt_is_Some_2 ts j) as [c Hc].
    { apply lookup_lt_Some in Hb. lia. }
    apply (fleb_trans _ c); [by apply IH|]. apply fltb_fleb. by eapply Hinc.
Qed.

Lemma increasing_tail x ts : increasing (x :: ts) -> increasing ts.
Proof. intros H i a b Ha Hb. by apply (H (S i)). Qed.

(** [searchsorted] splits an increasing array at [t]. *)
Lemma searchsorted_split ts t :
  increasing ts -> all_finite ts = true -> isnan t = false ->
  (forall i a, ts !! i = Some a -> i < searchsorted_right ts t -> fleb a t = true) /\
  (forall i a, ts !! i = Some a -> searchsorted_right ts t <= i -> fltb t a = true).
Proof.
  intros Hinc Hf Ht. induction ts as [|x ts IH]; [done|].
  assert (isfinite x = true /\ all_finite ts = true) as [Hx Hts] by (simpl in Hf; by apply andb_true_iff in Hf).
  destruct (IH (increasing_tail _ _ Hinc) Hts) as [IH1 IH2].
  assert (np_less t x = fltb t x) as Hless.
  { unfold np_less. rewrite (finite_not_nan x), andb_false_r, orb_false_r by done. done. }
  unfold searchsorted_right in *. simpl. rewrite Hless. destruct (fltb t x) eqn:Etx; simpl.
  - assert (List.filter (fun y => negb (np_less t y)) ts = []) as Hnil.
    { destruct (List.filter _ ts) as [|y l] eqn:El; [done|].
      assert (In y (y :: l)) as Hy by (by left). rewrite <-El in Hy.
      apply filter_In in Hy as [Hy Hn]. apply list_elem_of_In, list_elem_of_lookup in Hy as [k Hk].
      assert (fleb x y = true) as Hxy by (by eapply (increasing_le (x :: ts) 0 (S k)); [| |lia| |]).
      assert (fltb t y = true) as Hty by (by eapply fltb_fleb_trans).
      unfold np_less in Hn. by rewrite Hty in Hn. }
    rewrite Hnil. simpl. split; [intros; lia|]. intros i a Hi _.
    eapply fltb_fleb_trans; [exact Etx|]. eapply (increasing_le (x :: ts) 0 i); eauto with lia.
  - split.
    + intros [|i] a Hi Hlt; simpl in *; [simplify_eq; apply fltb_false; auto|]. eapply IH1; eauto with lia.
    + intros [|i] a Hi Hlt; simpl in *; [lia|]. eapply IH2; eauto with lia.
Qed.

Lemma rectangular_row m i r : rectangular m = true -> m !! i = Some r -> length r = ncols m.
Proof.
  destruct m as [|r0 m]; simpl; [done|]. intros H. destruct i as [|i]; simpl; [by intros [= ->]|].
  intros Hi. apply forallb_Forall in H. apply (Forall_lookup_1 _ _ _ _ H) in Hi. by apply Nat.eqb_eq.
Qed.

Lemma same_shape_row a b i r : same_shape a b = true -> a !! i = Some r -> length r = ncols b.
Proof.
  unfold same_shape. intros [_ H]%andb_true_iff Hi. apply forallb_Forall in H.
  apply (Forall_lookup_1 _ _ _ _ H) in Hi. by apply Nat.eqb_eq.
Qed.

(** What the constructor guarantees: as many rows as knots, at least two, every
    row of positions and velocities [num_joints] wide. *)
Record traj_ok (tr : JointTrajectory) : Prop := {
  to_knots : 2 <= length (times tr);
  to_rows : length (positions tr) = length (times tr);
  to_width : forall i r, positions tr !! i = Some r -> length r = num_joints tr;
  to_vrows : forall vm, velocities tr = Some vm -> length vm = length (times tr);
  to_vwidth : forall vm i r, velocities tr = Some vm -> vm !! i = Some r -> length r = num_joints tr;
}.

Lemma JointTrajectory_new_ok ts ps vs tr : JointTrajectory_new ts ps vs = Ok tr -> traj_ok tr.
Proof.
  unfold JointTrajectory_new. intros H. inv_ok H. breflect. simplify_eq/=.
  apply Nat.ltb_ge in Heqb1. split; simpl; unfold num_joints; simpl.
  - done.
  - done.
  - intros. by eapply rectangular_row.
  - intros vm ->. breflect. unfold same_shape in *. breflect. congruence.
  - intros vm i r -> Hi. breflect. by eapply same_shape_row.
Qed.

Lemma traj_ok_row tr k : traj_ok tr -> k < length (times tr) ->
  exists r, positions tr !! k = Some r /\ length r = num_joints tr.
Proof.
  intros Hok Hk. rewrite <-(to_rows _ Hok) in Hk. apply lookup_lt_is_Some_2 in Hk as [r Hr].
  exists r. split; [done|]. by eapply to_width.
Qed.

Lemma traj_ok_vrow tr vm k : traj_ok tr -> velocities tr = Some vm -> k < length (times tr) ->
  exists r, vm !! k = Some r /\ length r = num_joints tr.
Proof.
  intros Hok Hv Hk. rewrite <-(to_vrows _ Hok vm Hv) in Hk. apply lookup_lt_is_Some_2 in Hk as [r Hr].
  exists r. split; [done|]. by eapply to_vwidth.
Qed.

(** All three vectors of a point have one entry per joint. *)
Definition point_width (n : nat) (p : TrajectoryPoint) : Prop :=
  length (pt_position p) = n /\ length (pt_velocity p) = n /\ length (pt_acceleration p) = n.

Lemma point_ok tr k : traj_ok tr -> k < length (times tr) -> point_width (num_joints tr) (point tr k).
Proof.
  intros Hok Hk. unfold point_width, point. simpl.
  destruct (traj_ok_row tr k Hok Hk) as (r & -> & Hr). simpl.
  rewrite length_replicate. split; [done|]. split; [|done].
  destruct (velocities tr) as [vm|] eqn:Ev; [|by rewrite length_replicate].
  destruct (traj_ok_vrow tr vm k Hok Ev Hk) as (v & -> & Hv). done.
Qed.

(** The knots around an interior time. *)
Lemma segment_found tr t :
  traj_ok tr -> increasing (times tr) -> all_finite (times tr) = true -> isnan t = false ->
  fleb t (first_time tr) = false -> fleb (last_time tr) t = false ->
  let k := searchsorted_right (times tr) t - 1 in
  exists tl tu, searchsorted_right (times tr) t = S k /\ S k < length (times tr) /\
    times tr !! k = Some tl /\ times tr !! S k = Some tu /\ fleb tl t = true /\ fltb t tu = true.
Proof.
  intros Hok Hinc Hf Ht H1 H2. destruct (searchsorted_split _ t Hinc Hf Ht) as [Sl Su].
  pose proof (to_knots _ Hok) as Hn. set (u := searchsorted_right (times tr) t) in *.
  assert (exists a, times tr !! 0 = Some a) as [a Ha] by (apply lookup_lt_is_Some_2; lia).
  assert (exists b, times tr !! (length (times tr) - 1) = Some b) as [b Hb]
    by (apply lookup_lt_is_Some_2; lia).
  assert (first_time tr = a) as Ea by (unfold first_time; rewrite head_lookup, Ha; done).
  assert (last_time tr = b) as Eb.
  { unfold last_time. rewrite last_lookup. replace (pred _) with (length (times tr) - 1) by lia. by rewrite Hb. }
  assert (isfinite a = true /\ isfinite b = true) as [Fa Fb].
  { split; [eapply (all_finite_lookup _ 0)|eapply (all_finite_lookup _ (length (times tr) - 1))]; done. }
  assert (0 < u) as Hu0.
  { destruct (decide (0 < u)); [done|]. specialize (Su 0 a Ha ltac:(lia)).
    apply fltb_fleb in Su. congruence. }
  assert (u < length (times tr)) as Hul.
  { destruct (decide (u < length (times tr))); [done|].
    specialize (Sl (length (times tr) - 1) b Hb ltac:(lia)). congruence. }
  destruct (lookup_lt_is_Some_2 (times tr) (u - 1)) as [tl Htl]; [lia|].
  destruct (lookup_lt_is_Some_2 (times tr) u) as [tu Htu]; [lia|].
  exists tl, tu. replace (S (u - 1)) with u by lia.
  split; [done|]. split; [done|]. split; [done|]. split; [done|].
  split; [eapply Sl; eauto with lia | eapply Su; eauto with lia].
Qed.

(** ** Properties *)

(** Sampling a constructed trajectory of finite knots at any time that is
    not NaN succeeds (the segment search never indexes out of range), gives one
    value per joint, holds the first and last knots outside the time span, and
    inside it uses the segment whose knots bracket the time. *)
Theorem sample_at_total ts ps vs tr t :
  JointTrajectory_new ts ps vs = Ok tr ->
  all_finite ts = true -> forallb valid ts = true -> isnan t = false ->
  exists pt, sample_at tr t = Ok pt /\ point_width (num_joints tr) pt /\
    (fleb t (first_time tr) = true -> pt = point tr 0) /\
    (fleb t (first_time tr) = false -> fleb (last_time tr) t = true ->
       pt = point tr (length ts - 1)) /\
    (fleb t (first_time tr) = false -> fleb (last_time tr) t = false ->
       exists k tl tu, ts !! k = Some tl /\ ts !! S k = Some tu /\
         fleb tl t = true /\ fltb t tu = true /\ pt_time pt = t).
Proof.
  intros Hnew Hf Hv Ht.
  pose proof (JointTrajectory_new_ok _ _ _ _ Hnew) as Hok.
  pose proof (JointTrajectory_new_increasing _ _ _ _ Hnew Hf Hv) as Hinc.
  assert (times tr = ts) as Ets by (unfold JointTrajectory_new in Hnew; by inv_ok Hnew).
  pose proof (to_knots _ Hok) as Hn. rewrite <-Ets in Hf |- *.
  unfold sample_at. destruct (fleb t (first_time tr)) eqn:E1.
  { eexists. split; [done|]. split; [apply point_ok; [done|lia]|]. done. }
  destruct (fleb (last_time tr) t) eqn:E2.
  { eexists. split; [done|]. split; [apply point_ok; [done|lia]|]. done. }
  destruct (segment_found tr t Hok Hinc Hf Ht E1 E2) as (tl & tu & Hs & Hk & Htl & Htu & Hl & Hu).
  set (k := searchsorted_right (times tr) t - 1) in *. cbv zeta. rewrite Hs.
  replace (S k - 1) with k by lia. rewrite Htu, Htl.
  destruct (traj_ok_row tr k Hok ltac:(lia)) as (r0 & Hr0 & Lr0).
  destruct (traj_ok_row tr (S k) Hok ltac:(lia)) as (r1 & Hr1 & Lr1).
  assert (forall f, length (map (f : float * float -> float) (row_pair (positions tr) k (S k))) = num_joints tr) as Hlen.
  { intros f. unfold row_pair. rewrite Hr0, Hr1. simpl. rewrite length_map, length_zip_with. lia. }
  destruct (velocities tr) as [vm|] eqn:Ev.
  - destruct (traj_ok_vrow tr vm k Hok Ev ltac:(lia)) as (v0 & Hv0 & Lv0).
    destruct (traj_ok_vrow tr vm (S k) Hok Ev ltac:(lia)) as (v1 & Hv1 & Lv1).
    eexists. split; [done|]. split; [|split; [done|split; [done|intros _ _; by exists k, tl, tu]]].
    unfold point_width, row_pair. rewrite Hr0, Hr1, Hv0, Hv1. simpl.
    rewrite !length_zip_with. lia.
  - eexists. split; [done|]. split; [|split; [done|split; [done|intros _ _; by exists k, tl, tu]]].
    unfold point_width. simpl. rewrite !Hlen, length_replicate. done.
Qed.

Definition f0_5 : float := Eval vm_compute in Prim2SF 0.5%float.
Example sample_at_total_witness :
  exists pt tr, JointTrajectory_new [f0; f1] [[f0]; [f1]] (Some [[f0]; [f0]]) = Ok tr /\
    sample_at tr f0_5 = Ok pt.
Proof.
  destruct (JointTrajectory_new [f0; f1] [[f0]; [f1]] (Some [[f0]; [f0]])) as [tr|] eqn:E;
    [|vm_compute in E; discriminate].
  destruct (sample_at_total _ _ _ tr f0_5 E eq_refl eq_refl eq_refl) as (pt & H & _).
  exists pt, tr. split; [reflexivity | exact H].
Defined.

(** A joint held still over a segment (equal end positions, zero end
    velocities) is sampled exactly at its knot, whatever the point of the
    segment: the offset form of the Hermite polynomial adds only zeros. *)
Theorem hermite_held_exact h s q :
  isfinite q = true -> isfinite h = true ->
  isfinite (f3 *f (s *f s) -f f2 *f (s *f s *f s)) = true ->
  isfinite (s *f s *f s -f f2 *f (s *f s) +f s) = true ->
  isfinite (s *f s *f s -f s *f s) = true ->
  feqb (hermite_position h s q q f0 f0) q = true.
Proof.
  intros Hq Hh H1 H2 H3. unfold hermite_position. rewrite (fsub_diag q Hq). unfold f0.
  destruct (fmul_zero_r false _ H1) as [s1 ->].
  destruct (fmul_zero_r false _ H2) as [z2 ->]. destruct (fmul_zero_r false _ H3) as [z3 ->].
  destruct (fadd_zero_r q s1 Hq) as [Hq1 Hq2].
  assert (exists z, fadd (S754_zero z2) (S754_zero z3) = S754_zero z) as [z ->]
    by (destruct z2, z3; simpl; eauto).
  destruct (fmul_zero_r z _ Hh) as [z' ->].
  destruct (fadd_zero_r (q +f S754_zero s1) z' Hq2) as [Hq3 _].
  apply feqb_spec in Hq1 as (a & Ka & Kb), Hq3 as (b & Kc & Kd).
  apply feqb_spec. exists a. rewrite Kc. split; congruence.
Qed.

Example hermite_held_exact_witness :
  feqb (hermite_position f2 f0_5 f1 f1 f0 f0) f1 = true.
Proof. apply hermite_held_exact; reflexivity. Defined.

(** Extracting the constructor's promise on accepted torque limits. *)
Lemma validate_torque_limits_ok limits n v :
  validate_torque_limits limits n = Ok v ->
  v = limits /\ all_finite v = true /\ Forall (fun x => fltb f0 x = true) v.
Proof.
  unfold validate_torque_limits. intros H. inv_ok H. breflect.
  split; [done|]. split; [done|].
  match goal with H : existsb _ _ = false |- _ => apply existsb_false_Forall in H as He end.
  match goal with H : all_finite _ = true |- _ => rename H into Hf end.
  unfold all_finite in Hf. apply forallb_Forall in Hf.
  apply Forall_lookup_2. intros i x Hi.
  apply (Forall_lookup_1 _ _ _ _ He) in Hi as Hx. apply (Forall_lookup_1 _ _ _ _ Hf) in Hi.
  by apply fleb_false; auto.
Qed.
