(* ===== verification/Contract.v ===== *)
(** The execution contract, [arm_control/execution/contract.py]: stamps and
    clocks, robot identity, observation, authority, execution requests,
    admission and selection, and the fold of receipts into an execution's
    status.

    A frozen dataclass is a record; its [__post_init__] is the function
    [<Name>_new] from the raw field values to a [result].  The functions that
    return a refusal string return an [option refusal]: [None] is the empty
    string, and a constructor carries the values the source formats. *)
From Stdlib Require Import SpecFloat PrimFloat FloatOps Ascii.
From S2P Require Import Prelude Floats Motion.

Definition CONTRACT_VERSION : Z := 1.

(** ** Identifiers *)

Definition is_alnum (c : ascii) : bool :=
  let n := Ascii.nat_of_ascii c in
  ((48 <=? n) && (n <=? 57)) || ((65 <=? n) && (n <=? 90)) || ((97 <=? n) && (n <=? 122)).
(** [[A-Za-z0-9_.:-]] and [[A-Za-z0-9_.-]] *)
Definition instance_char (c : ascii) : bool :=
  is_alnum c || bool_decide (c = "_"%char) || bool_decide (c = "."%char) || bool_decide (c = "-"%char).
Definition id_char (c : ascii) : bool := instance_char c || bool_decide (c = ":"%char).

(** [re.fullmatch] of a class repeated 1 to 64 times. *)
Definition fullmatch_1_64 (p : ascii -> bool) (s : string) : bool :=
  (1 <=? String.length s) && (String.length s <=? 64) && forallb p (String.list_ascii_of_string s).

Definition identifier (value : string) : result string :=
  raise_if negb (fullmatch_1_64 id_char value) of ValueError "must be 1-64 chars of [A-Za-z0-9_.:-]" ;;
  Ok value.

(** [_vector]: an optional vector, checked for length (when stated) and
    finiteness. *)
Definition vector (value : option vec) (n : option nat) : result (option vec) :=
  match value with
  | None => Ok None
  | Some arr =>
      raise_if (match n with Some n => negb (length arr =? n) | None => false end) of ValueError "must have n values" ;;
      raise_if negb (all_finite arr) of ValueError "must be finite" ;;
      Ok (Some arr)
  end.

(** ** Time *)

Inductive Clock := RT_HOST | PC | ROBOT | EXECUTION.
#[export] Instance Clock_eq_dec : EqDecision Clock.
Proof. solve_decision. Defined.

Record Stamp := mk_Stamp { ns : Z; clock : Clock; domain : string }.
#[export] Instance Stamp_eq_dec : EqDecision Stamp.
Proof. solve_decision. Defined.

Definition Stamp_new (n : Z) (c : Clock) (d : string) : result Stamp :=
  raise_if (n <? 0)%Z of ValueError "Stamp.ns must be a non-negative int" ;;
  Ok (mk_Stamp n c d).

Definition f1e_9 : float := Eval vm_compute in Prim2SF 1e-9%float.

Definition elapsed (later earlier : Stamp) : result float :=
  raise_if negb (bool_decide (clock later = clock earlier)) || bool_decide (domain later = "")
           || negb (bool_decide (domain later = domain earlier))
    of ValueError "stamps on different or unattested clocks" ;;
  d <-- int_to_float (ns later - ns earlier) ;;
  Ok (d *f f1e_9).

(** ** Identity and capability *)

Record RobotIdentity := {
  instance_id : string;
  joint_names : list string;
  backend : string;
  model_id : string;
}.

Definition RobotIdentity_new (inst : string) (names : list string) (be model : string) : result RobotIdentity :=
  raise_if negb (fullmatch_1_64 instance_char inst) of ValueError "instance_id must be 1-64 chars of [A-Za-z0-9_.-]" ;;
  raise_if bool_decide (names = []) || negb (bool_decide (NoDup names)) || existsb (fun j => bool_decide (j = "")) names
    of ValueError "joint_names must be distinct non-empty names" ;;
  Ok {| instance_id := inst; joint_names := names; backend := be; model_id := model |}.

Definition identity_n (i : RobotIdentity) : nat := length (joint_names i).

(** ** Observation *)

Inductive Validity := VALID | STALE | MISSING | INVALID.
#[export] Instance Validity_eq_dec : EqDecision Validity.
Proof. solve_decision. Defined.

Record RobotState := {
  rs_instance_id : string;
  rs_validity : Validity;
  rs_reason : string;
  rs_q : option vec;
  rs_dq : option vec;
  rs_tau : option vec;
  rs_selected_q : option vec;
  rs_selected_qd : option vec;
  rs_output_tau : option vec;
  rs_wrench : option vec;
  rs_source : option Stamp;
  rs_received : option Stamp;
  rs_state_seq : option Z;
  rs_last_command_seq : option Z;
}.


(** [RobotState.__post_init__] on the raw fields [r]. *)
Definition RobotState_new (r : RobotState) : result RobotState :=
  if negb (bool_decide (rs_validity r = VALID)) then
    raise_if existsb is_some [rs_q r; rs_dq r; rs_tau r; rs_selected_q r; rs_selected_qd r; rs_output_tau r; rs_wrench r]
      of ValueError "observation carries no values" ;;
    raise_if bool_decide (rs_reason r = "") of ValueError "observation needs a reason" ;;
    Ok r
  else
    match rs_q r, rs_source r, rs_received r with
    | Some q0, Some _, Some _ =>
        q <-- vector (Some q0) None ;;
        let n := Some (length q0) in
        dq <-- vector (rs_dq r) n ;;
        tau <-- vector (rs_tau r) n ;;
        selected_q <-- vector (rs_selected_q r) n ;;
        selected_qd <-- vector (rs_selected_qd r) n ;;
        output_tau <-- vector (rs_output_tau r) n ;;
        wrench <-- vector (rs_wrench r) (Some 6) ;;
        Ok {| rs_instance_id := rs_instance_id r; rs_validity := rs_validity r; rs_reason := rs_reason r;
              rs_q := q; rs_dq := dq; rs_tau := tau;
              rs_selected_q := selected_q; rs_selected_qd := selected_qd; rs_output_tau := output_tau;
              rs_wrench := wrench; rs_source := rs_source r; rs_received := rs_received r;
              rs_state_seq := rs_state_seq r; rs_last_command_seq := rs_last_command_seq r |}
    | _, _, _ => Err (ValueError "a valid observation needs q, source and received stamps")
    end.

(** ** Ownership and lifecycle *)

Inductive Lifecycle := DISCONNECTED | OBSERVING | CONNECTED | CLAIMED | ARMED | L_FAULTED.
#[export] Instance Lifecycle_eq_dec : EqDecision Lifecycle.
Proof. solve_decision. Defined.

Record Fault := {
  fault_code : string;
  fault_text : string;
  fault_source : string;
  fault_arm_epoch : option Z;
}.

Record Authority := {
  lifecycle : Lifecycle;
  session : option string;
  arm_epoch : Z;
  stop_epoch : Z;
  fault : option Fault;
  holding : option bool;
}.

Definition can_hold (l : Lifecycle) : bool :=
  match l with ARMED | L_FAULTED => true | _ => false end.

Definition Authority_new (a : Authority) : result Authority :=
  raise_if negb (Bool.eqb (bool_decide (lifecycle a = L_FAULTED)) (is_some (fault a)))
    of ValueError "FAULTED and only FAULTED carries a fault" ;;
  raise_if can_hold (lifecycle a) && (arm_epoch a <=? 0)%Z
    of ValueError "an armed or faulted robot has an ARM generation" ;;
  raise_if (match holding a with Some true => true | _ => false end) && negb (can_hold (lifecycle a))
    of ValueError "only an armed or faulted robot can be holding" ;;
  Ok a.

(** ** Execution requests *)

Record JointGains := { gains_kp : vec; gains_kd : vec }.

Definition JointGains_new (kp kd : vec) : result JointGains :=
  raise_if negb (all_finite kp) of ValueError "kp must be finite" ;;
  raise_if negb (all_finite kd) of ValueError "kd must be finite" ;;
  raise_if negb (length kd =? length kp) || existsb (fun x => x <f f0) kp || existsb (fun x => x <f f0) kd
    of ValueError "kp/kd must be matching non-negative vectors" ;;
  Ok {| gains_kp := kp; gains_kd := kd |}.

Record Completion := {
  vel_tol : float;
  goal_q : option vec;
  residual_max : option float;
}.

Definition Completion_new (c : Completion) : result Completion :=
  raise_if negb (isfinite (vel_tol c) && (f0 <f vel_tol c)) of ValueError "vel_tol must be finite and positive" ;;
  raise_if negb (Bool.eqb (is_some (goal_q c)) (is_some (residual_max c)))
    of ValueError "goal_q and residual_max come together" ;;
  raise_if (match residual_max c with Some r => negb (isfinite r && (f0 <f r)) | None => false end)
    of ValueError "residual_max must be finite and positive" ;;
  g <-- vector (goal_q c) None ;;
  Ok {| vel_tol := vel_tol c; goal_q := g; residual_max := residual_max c |}.

Record CartesianImpedance := { task_R : mat; kc : vec; dc : vec }.

(** The validated 21 values, cut back into the 3x3 matrix and the diagonals. *)
Definition CartesianImpedance_new (r : mat) (k d : vec) : result CartesianImpedance :=
  values <-- cartesian_values {| cs_frame := "base"; cs_task_R := r; cs_kc := k; cs_dc := d |} ;;
  Ok {| task_R := [take 3 values; take 3 (drop 3 values); take 3 (drop 6 values)];
        kc := take 6 (drop 9 values); dc := take 6 (drop 15 values) |}.

Definition CartesianImpedance_spec (c : CartesianImpedance) : cartesian_spec :=
  {| cs_frame := "base"; cs_task_R := task_R c; cs_kc := kc c; cs_dc := dc c |}.

Inductive Start := ON_ADMIT | ON_RELEASE.

Record TrajectoryRequest := {
  request_id : string;
  req_instance_id : string;
  req_joint_names : list string;
  trajectory : JointTrajectory;
  profile : string;
  gains : option JointGains;
  model_token : option string;
  start : Start;
  admit_by : option Stamp;
  completion : option Completion;
  supersedes : option string;
  cartesian : option CartesianImpedance;
}.

(** [TrajectoryRequest.__post_init__] *)
Definition TrajectoryRequest_new (r : TrajectoryRequest) : result TrajectoryRequest :=
  _ <-- identifier (request_id r) ;;
  raise_if negb (Bool.eqb (bool_decide (profile r = "cartesian_impedance")) (is_some (cartesian r)))
    of ValueError "the cartesian_impedance profile and its CartesianImpedance settings come together" ;;
  _ <-- (match supersedes r with Some s => identifier s | None => Ok "" end) ;;
  let n := num_joints (trajectory r) in
  raise_if negb (length (req_joint_names r) =? n) of ValueError "joint_names must name every trajectory column" ;;
  raise_if negb (all_finite (times (trajectory r))) || negb (mat_finite (positions (trajectory r)))
           || negb (match velocities (trajectory r) with Some v => mat_finite v | None => true end)
    of ValueError "trajectory must be finite" ;;
  raise_if (match gains r with Some g => negb (length (gains_kp g) =? n) | None => false end)
    of ValueError "gains must cover every joint" ;;
  raise_if (match completion r with
            | Some c => match goal_q c with Some g => negb (length g =? n) | None => false end
            | None => false
            end)
    of ValueError "completion goal_q must cover every joint" ;;
  raise_if (match admit_by r with
            | Some s => negb (bool_decide (clock s = PC)) || bool_decide (domain s = "")
            | None => false
            end)
    of ValueError "admit_by must be on the attested PC monotonic clock" ;;
  Ok r.

(** [TrajectoryRequest.expired] *)
Definition expired (r : TrajectoryRequest) (now : Stamp) : result bool :=
  match admit_by r with
  | None => Ok false
  | Some by_ => e <-- elapsed now by_ ;; Ok (f0 <f e)
  end.

(** ** Execution status *)

Inductive Phase :=
  | REQUESTED | ADMITTED | SELECTED | SENT | APPLIED
  | COMPLETED | REJECTED | SUPERSEDED | EXPIRED | CANCELLED | FAULTED.
#[export] Instance Phase_eq_dec : EqDecision Phase.
Proof. solve_decision. Defined.

Definition Phase_nat (p : Phase) : nat :=
  match p with
  | REQUESTED => 0 | ADMITTED => 1 | SELECTED => 2 | SENT => 3 | APPLIED => 4
  | COMPLETED => 5 | REJECTED => 6 | SUPERSEDED => 7 | EXPIRED => 8 | CANCELLED => 9 | FAULTED => 10
  end.
Definition Phase_of_nat (n : nat) : option Phase :=
  [REQUESTED; ADMITTED; SELECTED; SENT; APPLIED; COMPLETED; REJECTED; SUPERSEDED; EXPIRED; CANCELLED; FAULTED] !! n.
#[export] Instance Phase_countable : Countable Phase.
Proof. apply (inj_countable Phase_nat Phase_of_nat). by intros []. Defined.

(** [_TERMINAL], and [Phase.terminal] *)
Definition terminal (p : Phase) : bool :=
  match p with
  | COMPLETED | REJECTED | SUPERSEDED | EXPIRED | CANCELLED | FAULTED => true
  | _ => false
  end.

(** [_CHAIN.index] *)
Definition chain_index (p : Phase) : result nat :=
  match p with
  | REQUESTED => Ok 0 | ADMITTED => Ok 1 | SELECTED => Ok 2 | SENT => Ok 3 | APPLIED => Ok 4
  | _ => Err (ValueError "tuple.index(x): x not in tuple")
  end.

(** [_ENDS]: which phases each terminal outcome may follow. *)
Definition ends (p : Phase) : option (list Phase) :=
  match p with
  | REJECTED => Some [REQUESTED; ADMITTED]
  | SUPERSEDED => Some [ADMITTED]
  | EXPIRED => Some [ADMITTED]
  | CANCELLED => Some [ADMITTED; SELECTED; SENT; APPLIED]
  | FAULTED => Some [SELECTED; SENT; APPLIED]
  | COMPLETED => Some [APPLIED]
  | _ => None
  end.

Inductive evidence_value := EvInt (n : Z) | EvFloat (x : float) | EvStr (s : string).
Definition EVIDENCE_KEYS : nat := 16.

Record Receipt := {
  rc_execution_id : string;
  rc_request_id : string;
  rc_instance_id : string;
  rc_phase : Phase;
  rc_at : Stamp;
  rc_reason : string;
  rc_evidence : gmap string evidence_value;
}.

Definition Receipt_new (r : Receipt) : result Receipt :=
  _ <-- identifier (rc_execution_id r) ;;
  _ <-- identifier (rc_request_id r) ;;
  raise_if EVIDENCE_KEYS <? size (rc_evidence r) of ValueError "evidence is bounded to 16 entries" ;;
  raise_if is_some (ends (rc_phase r)) && negb (bool_decide (rc_phase r = COMPLETED))
           && bool_decide (rc_reason r = "") of ValueError "a receipt needs a reason" ;;
  Ok r.

Record ExecutionStatus := {
  execution_id : string;
  es_request_id : string;
  es_instance_id : string;
  phase : Phase;
  reached : gmap Phase Stamp;
  reason : string;
}.

Definition status_terminal (s : ExecutionStatus) : bool := terminal (phase s).
Definition status_ok (s : ExecutionStatus) : option bool :=
  if status_terminal s then Some (bool_decide (phase s = COMPLETED)) else None.

(** [ExecutionStatus.start] *)
Definition start_status (r : Receipt) : result ExecutionStatus :=
  raise_if negb (bool_decide (rc_phase r ∈ [REQUESTED; ADMITTED; REJECTED]))
    of IllegalTransition "an execution begins requested/admitted/rejected" ;;
  Ok {| execution_id := rc_execution_id r; es_request_id := rc_request_id r;
        es_instance_id := rc_instance_id r; phase := rc_phase r;
        reached := {[ rc_phase r := rc_at r ]}; reason := rc_reason r |}.

(** [ExecutionStatus.apply] *)
Definition apply_receipt (s : ExecutionStatus) (r : Receipt) : result ExecutionStatus :=
  raise_if negb (bool_decide ((rc_execution_id r, rc_request_id r, rc_instance_id r)
                              = (execution_id s, es_request_id s, es_instance_id s)))
    of IllegalTransition "receipt belongs to another execution" ;;
  if is_some (reached s !! rc_phase r) then Ok s
  else
    raise_if status_terminal s of IllegalTransition "is already terminal" ;;
    _ <-- (match ends (rc_phase r) with
           | Some befores =>
               raise_if negb (bool_decide (phase s ∈ befores)) of IllegalTransition "cannot follow" ;; Ok tt
           | None =>
               i <-- chain_index (rc_phase r) ;;
               j <-- chain_index (phase s) ;;
               raise_if i <=? j of IllegalTransition "cannot follow" ;; Ok tt
           end) ;;
    Ok {| execution_id := execution_id s; es_request_id := es_request_id s;
          es_instance_id := es_instance_id s; phase := rc_phase r;
          reached := <[ rc_phase r := rc_at r ]> (reached s); reason := rc_reason r |}.

(** ** Capability, admission, selection and supersession refusals *)

Record Capabilities := {
  contract_version : Z;
  profiles : list string;
  protocol_version : option Z;
  cap_pose_hold : bool;
  cap_observer : bool;
  rt_setup : string;
}.

Inductive refusal :=
  | RefInstance (req robot : string)
  | RefJointOrder
  | RefContractVersion (backend application : Z)
  | RefProfile (p : string)
  | RefModel (planned : option string) (runs : string)
  | RefAdmitClock (by_ now : Stamp)
  | RefAdmitPassed
  | RefNotOwned (l : Lifecycle)
  | RefNotArmed (l : Lifecycle)
  | RefNotPending (target : string)
  | RefNotReplaceable (id : string) (p : Phase)
  | RefNameIt (id : string)                   (* "name it in supersedes to replace it" *)
  | RefCancelFirst (id : string) (p : Phase). (* "cancel it first" *)

Definition capability_refusal (c : Capabilities) (p : string) : option refusal :=
  if negb (contract_version c =? CONTRACT_VERSION)%Z
  then Some (RefContractVersion (contract_version c) CONTRACT_VERSION)
  else if negb (bool_decide (p ∈ profiles c)) then Some (RefProfile p)
  else None.

(** [_OWNING] *)
Definition owning (l : Lifecycle) : bool :=
  match l with CLAIMED | ARMED => true | _ => false end.

(** [admission_refusal]; comparing stamps may raise. *)
Definition admission_refusal (r : TrajectoryRequest) (identity : RobotIdentity) (caps : Capabilities)
    (auth : Authority) (now : Stamp) (token : option string) : result (option refusal) :=
  refuse_if negb (bool_decide (req_instance_id r = instance_id identity))
    of RefInstance (req_instance_id r) (instance_id identity) ;;
  refuse_if negb (bool_decide (req_joint_names r = joint_names identity)) of RefJointOrder ;;
  match capability_refusal caps (profile r) with
  | Some why => Ok (Some why)
  | None =>
    refuse_if is_some token && negb (bool_decide (model_token r = token))
      of RefModel (model_token r) (default "" token) ;;
    late <-- (match admit_by r with
              | None => Ok None
              | Some by_ =>
                  refuse_if negb (bool_decide (domain by_ = domain now)) || negb (bool_decide (clock now = PC))
                    of RefAdmitClock by_ now ;;
                  e <-- expired r now ;;
                  refuse_if e of RefAdmitPassed ;;
                  Ok None
              end) ;;
    match late with
    | Some why => Ok (Some why)
    | None =>
        refuse_if negb (owning (lifecycle auth)) of RefNotOwned (lifecycle auth) ;;
        Ok None
    end
  end.

(** [selection_refusal] *)
Definition selection_refusal (a : Authority) : option refusal :=
  if negb (bool_decide (lifecycle a = ARMED)) then Some (RefNotArmed (lifecycle a)) else None.

(** [supersession_refusal] *)
Definition supersession_refusal (r : TrajectoryRequest) (current : option ExecutionStatus) : option refusal :=
  let live := match current with Some c => negb (status_terminal c) | None => false end in
  match supersedes r, current with
  | Some target, Some c =>
      if negb live || negb (bool_decide (execution_id c = target)) then Some (RefNotPending target)
      else if negb (bool_decide (phase c = ADMITTED)) then Some (RefNotReplaceable (execution_id c) (phase c))
      else None
  | Some target, None => Some (RefNotPending target)
  | None, Some c =>
      if live then Some (if bool_decide (phase c = ADMITTED) then RefNameIt (execution_id c)
                         else RefCancelFirst (execution_id c) (phase c))
      else None
  | None, None => None
  end.

Record CancelRequest := { cancel_execution_id : string; cancel_reason : string }.
Definition CancelRequest_new (id why : string) : result CancelRequest :=
  i <-- identifier id ;; Ok {| cancel_execution_id := i; cancel_reason := why |}.

(** ** The abstract lifecycle of an execution

    Phases make progress along one chain, which may skip forward, until an
    outcome the current phase allows; outcomes are final. *)

Definition progress (p : Phase) : nat :=
  match p with
  | REQUESTED => 0 | ADMITTED => 1 | SELECTED => 2 | SENT => 3 | APPLIED => 4 | _ => 5
  end.

Inductive phase_step : Phase -> Phase -> Prop :=
  | step_forward p q : terminal q = false -> progress p < progress q -> phase_step p q
  | step_reject p : progress p < progress SELECTED -> phase_step p REJECTED
  | step_supersede : phase_step ADMITTED SUPERSEDED
  | step_expire : phase_step ADMITTED EXPIRED
  | step_cancel p : terminal p = false -> p <> REQUESTED -> phase_step p CANCELLED
  | step_fault p : terminal p = false -> progress ADMITTED < progress p -> phase_step p FAULTED
  | step_complete : phase_step APPLIED COMPLETED.

Lemma phase_step_live p q : phase_step p q -> terminal p = false.
Proof. inversion 1; subst; try done; destruct p; try done; simpl in *; try lia; destruct q; simpl in *; lia. Qed.

Lemma phase_step_progress p q : phase_step p q -> progress p < progress q.
Proof. inversion 1; subst; simpl in *; try lia; destruct p; simpl in *; try done; lia. Qed.

#[export] Instance phase_step_dec p q : Decision (phase_step p q).
Proof.
  destruct p, q; first
    [ left; constructor; simpl; (done || lia)
    | right; intros H; inversion H; subst; simpl in *; (done || lia) ].
Defined.

Definition own_receipt (s : ExecutionStatus) (r : Receipt) : Prop :=
  rc_execution_id r = execution_id s /\ rc_request_id r = es_request_id s /\
  rc_instance_id r = es_instance_id s.

Definition advance (s : ExecutionStatus) (r : Receipt) : ExecutionStatus :=
  {| execution_id := execution_id s; es_request_id := es_request_id s;
     es_instance_id := es_instance_id s; phase := rc_phase r;
     reached := <[ rc_phase r := rc_at r ]> (reached s); reason := rc_reason r |}.

Definition is_illegal {A} (x : result A) : Prop := exists m, x = Err (IllegalTransition m).

#[export] Instance own_receipt_dec s r : Decision (own_receipt s r).
Proof. unfold own_receipt. apply _. Defined.

Lemma is_some_spec {A} (o : option A) : is_some o = true <-> is_Some o.
Proof. destruct o; simpl; naive_solver. Qed.

(** The table the source walks decides the abstract step. *)
Lemma apply_fresh s r :
  own_receipt s r -> reached s !! rc_phase r = None -> status_terminal s = false ->
  (phase_step (phase s) (rc_phase r) -> apply_receipt s r = Ok (advance s r)) /\
  (~ phase_step (phase s) (rc_phase r) -> is_illegal (apply_receipt s r)).
Proof.
  intros (H1 & H2 & H3) Hn Ht. unfold apply_receipt, is_illegal.
  rewrite bool_decide_true by congruence. rewrite Hn. simpl. rewrite Ht.
  unfold status_terminal in Ht. unfold advance.
  destruct (rc_phase r) eqn:Er, (phase s) eqn:Es; try discriminate Ht; simpl;
    (split; [intros Hstep; first [done | exfalso; inversion Hstep; subst; simpl in *; try done; lia]
            |intros Hno; first [by eexists | exfalso; apply Hno; constructor; simpl; (done || lia)]]).
Qed.

Lemma apply_receipt_spec s r :
  (~ own_receipt s r -> is_illegal (apply_receipt s r)) /\
  (own_receipt s r -> is_Some (reached s !! rc_phase r) -> apply_receipt s r = Ok s) /\
  (own_receipt s r -> reached s !! rc_phase r = None ->
     (phase_step (phase s) (rc_phase r) -> apply_receipt s r = Ok (advance s r)) /\
     (~ phase_step (phase s) (rc_phase r) -> is_illegal (apply_receipt s r))).
Proof.
  split; [|split].
  - intros Hno. unfold apply_receipt. rewrite bool_decide_false; [by eexists|].
    intros [=]. by apply Hno.
  - intros (H1 & H2 & H3) Hsome. unfold apply_receipt.
    rewrite bool_decide_true by congruence. by apply is_some_spec in Hsome as ->.
  - intros Hown Hn. destruct (status_terminal s) eqn:Ht; [|by apply apply_fresh].
    split.
    + intros Hstep%phase_step_live. unfold status_terminal in Ht. congruence.
    + intros _. destruct Hown as (H1 & H2 & H3). unfold apply_receipt.
      rewrite bool_decide_true by congruence. rewrite Hn, Ht. by eexists.
Qed.

(** C1: a receipt applied to a status is refused when it belongs to another
    execution, changes nothing when its phase was already reached, and
    otherwise moves the status exactly along the abstract lifecycle relation:
    the code's phase chain and outcome table implement that specification. *)
Theorem apply_receipt_refines s r :
  (~ own_receipt s r -> is_illegal (apply_receipt s r)) /\
  (own_receipt s r -> is_Some (reached s !! rc_phase r) -> apply_receipt s r = Ok s) /\
  (own_receipt s r -> reached s !! rc_phase r = None ->
     (phase_step (phase s) (rc_phase r) -> apply_receipt s r = Ok (advance s r)) /\
     (~ phase_step (phase s) (rc_phase r) -> is_illegal (apply_receipt s r))).
Proof. apply apply_receipt_spec. Qed.

Definition stamp0 : Stamp := mk_Stamp 5 PC "pc:boot".
Definition receipt0 (p : Phase) : Receipt := {|
  rc_execution_id := "e1"; rc_request_id := "r1"; rc_instance_id := "fr3_1"; rc_phase := p;
  rc_at := stamp0; rc_reason := "x"; rc_evidence := ∅ |}.
Definition status0 : ExecutionStatus := {|
  execution_id := "e1"; es_request_id := "r1"; es_instance_id := "fr3_1"; phase := ADMITTED;
  reached := {[ ADMITTED := stamp0 ]}; reason := "x" |}.

(** *** Histories: a status is the fold of delivered receipts *)

(** A caller that drops a refused receipt. *)
Definition deliver (s : ExecutionStatus) (r : Receipt) : ExecutionStatus :=
  match apply_receipt s r with Ok s' => s' | Err _ => s end.

Lemma deliver_cases s r :
  deliver s r = s \/
  (own_receipt s r /\ reached s !! rc_phase r = None /\
   phase_step (phase s) (rc_phase r) /\ deliver s r = advance s r).
Proof.
  unfold deliver. destruct (apply_receipt s r) as [s'|e] eqn:E; [|by left].
  pose proof (apply_receipt_spec s r) as (H1 & H2 & H3).
  destruct (decide (own_receipt s r)) as [Hown|Hno].
  - destruct (reached s !! rc_phase r) eqn:Er.
    + rewrite H2 in E by eauto. simplify_eq. by left.
    + destruct (H3 Hown eq_refl) as [Hs Hns].
      destruct (decide (phase_step (phase s) (rc_phase r))) as [Hstep|Hstep].
      * rewrite Hs in E by done. simplify_eq. by right.
      * destruct (Hns Hstep) as [m Hm]. congruence.
  - destruct (H1 Hno) as [m Hm]. congruence.
Qed.

(** A start and the deliveries after it. *)
Inductive history : ExecutionStatus -> Prop :=
  | history_start r s : start_status r = Ok s -> history s
  | history_deliver s r : history s -> history (deliver s r).

(** What a history has recorded about the phases it went through. *)
Record history_inv (s : ExecutionStatus) : Prop := {
  hi_phase : is_Some (reached s !! phase s);
  hi_order : forall p, is_Some (reached s !! p) -> p = phase s \/ progress p < progress (phase s);
  hi_unmoved : phase s = REJECTED \/ phase s = SUPERSEDED \/ phase s = EXPIRED ->
    forall p, is_Some (reached s !! p) -> p = phase s \/ progress p <= progress ADMITTED;
  hi_completed : phase s = COMPLETED -> is_Some (reached s !! APPLIED);
}.

Lemma history_inv_holds s : history s -> history_inv s.
Proof.
  induction 1 as [r s Hs|s r H IH].
  - unfold start_status in Hs. inv_ok Hs. breflect. split; simpl.
    + rewrite lookup_singleton_eq. eauto.
    + intros p [x Hx]. apply lookup_singleton_Some in Hx as [-> _]. by left.
    + intros _ p [x Hx]. apply lookup_singleton_Some in Hx as [-> _]. by left.
    + intros Hc. rewrite Hc in Heqb. set_solver.
  - destruct (deliver_cases s r) as [-> |(Hown & Hn & Hstep & ->)]; [done|].
    destruct IH as [IH1 IH2 IH3 IH4]. split; simpl.
    + rewrite lookup_insert_eq. eauto.
    + intros p [x Hx]. apply lookup_insert_Some in Hx as [[-> _]|[_ Hx]]; [by left|]. right.
      pose proof (phase_step_progress _ _ Hstep). destruct (IH2 p ltac:(eauto)) as [-> |]; lia.
    + intros Hend p [x Hx]. apply lookup_insert_Some in Hx as [[-> _]|[_ Hx]]; [by left|]. right.
      assert (progress (phase s) <= progress ADMITTED) as Hp.
      { destruct Hend as [E|[E|E]]; rewrite E in Hstep; inversion Hstep as [? ? Ht|? Hp| | | | |]; subst;
          try match goal with Hq : ADMITTED = phase s |- _ => rewrite <-Hq end; simpl in *; (done || lia). }
      simpl in Hp. destruct (IH2 p ltac:(eauto)) as [-> |]; lia.
    + intros Hc. rewrite Hc in Hstep. inversion Hstep as [? q|  | | | | |]; subst; try done.
      rewrite Hc, lookup_insert_ne by done. replace APPLIED with (phase s). done.
Qed.

(** Along any sequence of delivered receipts an execution that ended
    REJECTED, SUPERSEDED or EXPIRED was never selected, sent or applied, and
    one that ended COMPLETED had its plant acceptance (APPLIED) reported. *)
Theorem terminal_history_evidence s :
  history s ->
  ((phase s = REJECTED \/ phase s = SUPERSEDED \/ phase s = EXPIRED) ->
     reached s !! SELECTED = None /\ reached s !! SENT = None /\ reached s !! APPLIED = None) /\
  (phase s = COMPLETED -> is_Some (reached s !! APPLIED)).
Proof.
  intros H. destruct (history_inv_holds s H) as [_ _ Hu Hc]. split; [|done].
  intros Hend. specialize (Hu Hend).
  assert (forall p, progress ADMITTED < progress p -> terminal p = false -> reached s !! p = None) as Hnone.
  { intros p Hp Ht. apply eq_None_not_Some. intros Hs. destruct (Hu p Hs) as [-> |]; [|lia].
    destruct Hend as [E|[E|E]]; by rewrite E in Ht. }
  repeat split; apply Hnone; simpl; (done || lia).
Qed.

Definition delivered_example : ExecutionStatus :=
  fold_left deliver [receipt0 APPLIED; receipt0 COMPLETED; receipt0 APPLIED] status0.

Example terminal_history_evidence_witness :
  phase delivered_example = COMPLETED /\ is_Some (reached delivered_example !! APPLIED).
Proof.
  split; [reflexivity|].
  destruct (terminal_history_evidence delivered_example) as [_ H].
  - repeat apply history_deliver. apply (history_start (receipt0 ADMITTED)). reflexivity.
  - apply H. reflexivity.
Defined.

Lemma deliver_terminal l t : status_terminal t = true -> fold_left deliver l t = t.
Proof.
  intros Ht. induction l as [|r' l IH]; simpl; [done|].
  destruct (deliver_cases t r') as [-> |(_ & _ & Hstep%phase_step_live & _)]; [exact IH|].
  unfold status_terminal in Ht. congruence.
Qed.

Lemma deliver_reached l t r :
  own_receipt t r -> is_Some (reached t !! rc_phase r) ->
  own_receipt (fold_left deliver l t) r /\ is_Some (reached (fold_left deliver l t) !! rc_phase r).
Proof.
  revert t. induction l as [|r' l IH]; intros t Hown Hr; simpl; [done|].
  destruct (deliver_cases t r') as [-> |(_ & _ & _ & ->)]; [by apply IH|].
  apply IH; [done|]. simpl. rewrite lookup_insert. case_decide; eauto.
Qed.

(** Receipts may be delivered at least once, in any order.  A receipt
    redelivered at any later point changes nothing, and once an execution is
    terminal no receipt changes it. *)
Theorem redelivery_idempotent s r l :
  history s -> apply_receipt s r = Ok (deliver s r) ->
  let s' := fold_left deliver l (deliver s r) in
  apply_receipt s' r = Ok s' /\
  (status_terminal (deliver s r) = true -> s' = deliver s r).
Proof.
  intros Hist Hok s'.
  assert (own_receipt (deliver s r) r /\ is_Some (reached (deliver s r) !! rc_phase r)) as Hfirst.
  { destruct (apply_receipt_spec s r) as (H1 & H2 & H3).
    destruct (decide (own_receipt s r)) as [Hown|Hno];
      [|destruct (H1 Hno) as [m Hm]; congruence].
    destruct (reached s !! rc_phase r) eqn:Er.
    - rewrite H2 in Hok by eauto. injection Hok as <-. split; [done|]. by rewrite Er.
    - destruct (deliver_cases s r) as [E|(_ & _ & _ & ->)].
      + destruct (H3 Hown eq_refl) as [Hs Hns].
        destruct (decide (phase_step (phase s) (rc_phase r))) as [Hstep|Hstep].
        * rewrite Hs in Hok by done. injection Hok as <-. split; [done|]. simpl. rewrite lookup_insert_eq. eauto.
        * destruct (Hns Hstep) as [m Hm]. congruence.
      + split; [done|]. simpl. rewrite lookup_insert_eq. eauto. }
  destruct Hfirst as [Hown Hr].
  destruct (deliver_reached l (deliver s r) r Hown Hr) as [Hown' Hr'].
  split; [by apply (apply_receipt_spec s' r)|]. apply deliver_terminal.
Qed.

Example redelivery_idempotent_witness :
  apply_receipt delivered_example (receipt0 APPLIED) = Ok delivered_example.
Proof.
  apply (redelivery_idempotent status0 (receipt0 APPLIED) [receipt0 COMPLETED; receipt0 APPLIED]).
  - apply (history_start (receipt0 ADMITTED)). reflexivity.
  - reflexivity.
Defined.

(** ** Stamps *)

Lemma elapsed_comparable a b :
  clock a = clock b -> domain a <> "" -> domain a = domain b ->
  (Z.abs (ns a - ns b) < 2 ^ 64)%Z ->
  elapsed a b = Ok (of_Z (ns a - ns b) *f f1e_9).
Proof.
  intros Hc Hd Hdd Hb. unfold elapsed. rewrite bool_decide_true, bool_decide_false, bool_decide_true by done.
  simpl. by rewrite int_to_float_ok.
Qed.

(** Seconds between two stamps exist only on one attested clock; there,
    for differences a 64-bit clock can hold, the result is finite arithmetic
    whose sign is the sign of the nanosecond difference, so no rounding turns
    a later stamp into a not-later one. *)
Theorem elapsed_sign a b :
  (clock a = clock b /\ domain a <> "" /\ domain a = domain b /\ (Z.abs (ns a - ns b) < 2 ^ 64)%Z ->
     exists e, elapsed a b = Ok e /\ fltb f0 e = (ns b <? ns a)%Z) /\
  (~ (clock a = clock b /\ domain a <> "" /\ domain a = domain b) ->
     elapsed a b = Err (ValueError "stamps on different or unattested clocks")).
Proof.
  split.
  - intros (Hc & Hd & Hdd & Hb). eexists. split; [by apply elapsed_comparable|].
    unfold f1e_9. rewrite of_Z_scaled_sign by (unfold lead; simpl; lia).
    destruct (Z.ltb_spec 0 (ns a - ns b)), (Z.ltb_spec (ns b) (ns a)); lia.
  - intros Hno. unfold elapsed.
    destruct (decide (clock a = clock b)); [|by rewrite bool_decide_false].
    destruct (decide (domain a = "")); [by rewrite (bool_decide_true (domain a = "")), orb_true_r|].
    destruct (decide (domain a = domain b)); [exfalso; by apply Hno|].
    rewrite (bool_decide_false (domain a = domain b)) by done. simpl. by rewrite orb_true_r.
Qed.

Example elapsed_sign_witness :
  exists e, elapsed (mk_Stamp 6 PC "pc:a") (mk_Stamp 5 PC "pc:a") = Ok e /\ fltb f0 e = true.
Proof.
  destruct (elapsed_sign (mk_Stamp 6 PC "pc:a") (mk_Stamp 5 PC "pc:a")) as [H _].
  destruct H as (e & He & Hs); [repeat split; try done; simpl; lia|]. by exists e.
Defined.

(** ** Admission *)

(** Past the deadline, for a deadline the constructor accepts. *)
Lemma expired_deadline r now by_ :
  admit_by r = Some by_ -> clock by_ = PC -> domain by_ <> "" ->
  clock now = PC -> domain by_ = domain now -> (Z.abs (ns now - ns by_) < 2 ^ 64)%Z ->
  expired r now = Ok (ns by_ <? ns now)%Z.
Proof.
  intros Hr Hc Hd Hn Hdd Hb. unfold expired. rewrite Hr.
  rewrite elapsed_comparable by congruence. simpl. unfold f1e_9.
  rewrite of_Z_scaled_sign by (unfold lead; simpl; lia).
  f_equal. destruct (Z.ltb_spec 0 (ns now - ns by_)), (Z.ltb_spec (ns by_) (ns now)); lia.
Qed.

Lemma TrajectoryRequest_new_deadline raw r by_ :
  TrajectoryRequest_new raw = Ok r -> admit_by r = Some by_ -> clock by_ = PC /\ domain by_ <> "".
Proof.
  unfold TrajectoryRequest_new. intros H Hr. inv_ok H. rewrite Hr in *. breflect. done.
Qed.

Lemma TrajectoryRequest_new_id raw r : TrajectoryRequest_new raw = Ok r -> r = raw.
Proof. unfold TrajectoryRequest_new. intros H. by inv_ok H. Qed.

(** The staging conditions in terms of the parties' values. *)
Definition admissible (r : TrajectoryRequest) (identity : RobotIdentity) (caps : Capabilities)
    (auth : Authority) (now : Stamp) (token : option string) : Prop :=
  req_instance_id r = instance_id identity /\
  req_joint_names r = joint_names identity /\
  contract_version caps = CONTRACT_VERSION /\ profile r ∈ profiles caps /\
  (token = None \/ model_token r = token) /\
  (forall by_, admit_by r = Some by_ -> clock now = PC /\ domain by_ = domain now /\ (ns now <= ns by_)%Z) /\
  (lifecycle auth = CLAIMED \/ lifecycle auth = ARMED).

Definition clock_range (s : Stamp) : Prop := (0 <= ns s < 2 ^ 63)%Z.

Lemma capability_refusal_none c p :
  capability_refusal c p = None <-> contract_version c = CONTRACT_VERSION /\ p ∈ profiles c.
Proof.
  unfold capability_refusal. destruct (Z.eqb_spec (contract_version c) CONTRACT_VERSION); simpl; [|naive_solver].
  destruct (bool_decide (p ∈ profiles c)) eqn:E; breflect; simpl; naive_solver.
Qed.

Lemma owning_spec l : owning l = true <-> l = CLAIMED \/ l = ARMED.
Proof. destruct l; simpl; naive_solver. Qed.

(** For a request its constructor accepted and stamps of a 63-bit
    nanosecond clock, admission never raises, and it admits exactly when the
    request names this robot in its canonical joint order, the capability and
    the model agree, a deadline is on this supervisor's clock and not passed
    (compared in whole nanoseconds), and the robot is claimed or armed. *)
Theorem admission_exact raw r identity caps auth now token :
  TrajectoryRequest_new raw = Ok r -> clock_range now ->
  (forall by_, admit_by r = Some by_ -> clock_range by_) ->
  (exists why, admission_refusal r identity caps auth now token = Ok why) /\
  (admission_refusal r identity caps auth now token = Ok None <->
   admissible r identity caps auth now token).
Proof.
  intros Hnew Hnow Hby. unfold admission_refusal, admissible.
  destruct (decide (req_instance_id r = instance_id identity)) as [Hi|Hi];
    [rewrite bool_decide_true by done | rewrite bool_decide_false by done; simpl; split; [eauto|naive_solver]].
  simpl.
  destruct (decide (req_joint_names r = joint_names identity)) as [Hj|Hj];
    [rewrite bool_decide_true by done | rewrite bool_decide_false by done; simpl; split; [eauto|naive_solver]].
  simpl. pose proof (capability_refusal_none caps (profile r)) as Hcap.
  destruct (capability_refusal caps (profile r)) as [why|];
    [split; [eauto|]; split; [done|]; intros (_&_&Hv&Hp&_); by assert (Some why = None) by (by apply Hcap)|].
  destruct Hcap as [Hcap _]. destruct (Hcap eq_refl) as [Hv Hp]. clear Hcap.
  destruct (is_some token && negb (bool_decide (model_token r = token))) eqn:Etok.
  { breflect. split; [eauto|]. split; [done|]. intros (_&_&_&_&Ht&_).
    destruct token; [|done]. naive_solver. }
  assert (token = None \/ model_token r = token) as Htok.
  { destruct token; [right|by left]. simpl in Etok. by breflect. }
  assert (forall b, (exists why, (refuse_if negb (owning (lifecycle auth)) of RefNotOwned b ;; Ok None) = Ok why) /\
    ((refuse_if negb (owning (lifecycle auth)) of RefNotOwned b ;; Ok None) = Ok None <->
     lifecycle auth = CLAIMED \/ lifecycle auth = ARMED)) as Hown.
  { intros b. rewrite <-owning_spec. destruct (owning (lifecycle auth)); simpl; split; eauto; naive_solver. }
  destruct (admit_by r) as [by_|] eqn:Eby; simpl.
  - destruct (TrajectoryRequest_new_deadline _ _ _ Hnew Eby) as [Hbc Hbd].
    specialize (Hby _ eq_refl). unfold clock_range in *.
    destruct (negb (bool_decide (domain by_ = domain now)) || negb (bool_decide (clock now = PC))) eqn:Eclk; simpl.
    { split; [eauto|]. split; [done|]. intros (_&_&_&_&_&Hd&_). destruct (Hd _ eq_refl) as (Hc1 & Hc2 & _).
      by rewrite !bool_decide_true in Eclk. }
    breflect. rewrite (expired_deadline r now by_) by (done || lia). simpl.
    destruct (Z.ltb_spec (ns by_) (ns now)); simpl.
    { split; [eauto|]. split; [done|]. intros (_&_&_&_&_&Hd&_). destruct (Hd _ eq_refl) as (_ & _ & Hle). lia. }
    destruct (Hown (lifecycle auth)) as [Ho1 Ho2]. split; [done|]. rewrite Ho2. naive_solver.
  - destruct (Hown (lifecycle auth)) as [Ho1 Ho2]. split; [done|]. rewrite Ho2. naive_solver.
Qed.

Definition identity0 : RobotIdentity :=
  {| instance_id := "fr3_1"; joint_names := ["j1"]; backend := "franka"; model_id := "" |}.
Definition caps0 : Capabilities :=
  {| contract_version := 1; profiles := ["joint_impedance"]; protocol_version := None;
     cap_pose_hold := false; cap_observer := false; rt_setup := "ok" |}.
Definition armed0 : Authority :=
  {| lifecycle := ARMED; session := Some "s1"; arm_epoch := 3; stop_epoch := 0; fault := None;
     holding := Some false |}.
Definition request0 : TrajectoryRequest :=
  {| request_id := "r1"; req_instance_id := "fr3_1"; req_joint_names := ["j1"];
     trajectory := {| times := [f0; f1]; positions := [[f0]; [f0]]; velocities := None |};
     profile := "joint_impedance"; gains := None; model_token := Some "m1"; start := ON_ADMIT;
     admit_by := Some (mk_Stamp 9 PC "pc:boot"); completion := None; supersedes := None;
     cartesian := None |}.

Example admission_exact_witness :
  admission_refusal request0 identity0 caps0 armed0 (mk_Stamp 9 PC "pc:boot") (Some "m1") = Ok None.
Proof.
  destruct (admission_exact request0 request0 identity0 caps0 armed0 (mk_Stamp 9 PC "pc:boot") (Some "m1"))
    as [_ H]; [reflexivity | unfold clock_range; simpl; lia | intros b [= <-]; unfold clock_range; simpl; lia |].
  apply H. unfold admissible. simpl. repeat split; auto; [set_solver | naive_solver lia..].
Defined.

(** ** Supersession *)

(** Next to a robot's current execution a request is admitted exactly when
    nothing is live and it names nothing, or it names the live execution and
    that execution is still ADMITTED: a selected execution is never replaced,
    and a pending one never implicitly. *)
Theorem supersession_exact r current :
  supersession_refusal r current = None <->
  match supersedes r with
  | None => forall c, current = Some c -> status_terminal c = true
  | Some target => exists c, current = Some c /\ execution_id c = target /\ phase c = ADMITTED
  end.
Proof.
  unfold supersession_refusal. destruct (supersedes r) as [target|], current as [c|].
  - destruct (status_terminal c) eqn:Et; simpl.
    { split; [done|]. intros (? & [= <-] & _ & Hp). unfold status_terminal in Et. by rewrite Hp in Et. }
    destruct (bool_decide (execution_id c = target)) eqn:Ei; simpl; breflect;
      [destruct (bool_decide (phase c = ADMITTED)) eqn:Ep; simpl; breflect|].
    + split; [by exists c | done].
    + split; [done|]. by intros (? & [= <-] & _ & Hp).
    + split; [done|]. by intros (? & [= <-] & Hi & _).
  - split; [done|]. by intros (? & ? & _).
  - destruct (status_terminal c) eqn:Et; simpl.
    + split; [|done]. by intros _ ? [= <-].
    + split; [done|]. intros H. specialize (H c eq_refl). congruence.
  - done.
Qed.

(** ** Observations carry values only when valid *)

(** The shape of a usable observation: a finite [q] and every other joint
    vector absent or finite and as long, a wrench of six. *)
Definition observation_wf (r : RobotState) : Prop :=
  let ok n v := forall x : vec, v = Some x -> length x = n /\ all_finite x = true in
  match rs_validity r with
  | VALID => exists q, rs_q r = Some q /\ all_finite q = true /\
      is_Some (rs_source r) /\ is_Some (rs_received r) /\
      ok (length q) (rs_dq r) /\ ok (length q) (rs_tau r) /\ ok (length q) (rs_selected_q r) /\
      ok (length q) (rs_selected_qd r) /\ ok (length q) (rs_output_tau r) /\ ok 6 (rs_wrench r)
  | _ => rs_reason r <> "" /\ rs_q r = None /\ rs_dq r = None /\ rs_tau r = None /\
      rs_selected_q r = None /\ rs_selected_qd r = None /\ rs_output_tau r = None /\ rs_wrench r = None
  end.

Lemma vector_ok_iff v n w :
  vector v n = Ok w <-> w = v /\ (forall x, v = Some x -> all_finite x = true /\
    (forall k, n = Some k -> length x = k)).
Proof.
  unfold vector. destruct v as [x|].
  - destruct (match n with Some n => negb (length x =? n) | None => false end) eqn:En;
      [|destruct (all_finite x) eqn:E]; simpl.
    + split; [done|]. intros [_ H]. destruct (H x eq_refl) as [_ Hk]. destruct n as [k|]; [|done].
      breflect. by specialize (Hk k eq_refl).
    + split; [|by intros [-> _]]. intros [= <-]. split; [done|]. intros ? [= <-]. split; [done|].
      intros k ->. by breflect.
    + split; [done|]. intros [_ H]. destruct (H x eq_refl). congruence.
  - split; [|by intros [-> _]]. intros [= <-]. done.
Qed.

Lemma vector_sized v k :
  (forall x, v = Some x -> length x = k /\ all_finite x = true) -> vector v (Some k) = Ok v.
Proof.
  intros H. apply vector_ok_iff. split; [done|]. intros x Hx. destruct (H x Hx) as [<- ?].
  split; [done|]. by intros ? [= <-].
Qed.

Lemma RobotState_new_spec r :
  (observation_wf r -> RobotState_new r = Ok r) /\
  (forall r', RobotState_new r = Ok r' -> r' = r /\ observation_wf r).
Proof.
  unfold RobotState_new, observation_wf.
  destruct (bool_decide (rs_validity r = VALID)) eqn:Ev; breflect; simpl.
  - rewrite Ev. split.
    + intros (q & Hq & Hfq & [src Hs] & [rc Hr] & H1 & H2 & H3 & H4 & H5 & H6). rewrite Hq, Hs, Hr.
      simpl. rewrite Hfq. simpl.
      rewrite !vector_sized by done. simpl. destruct r; simpl in *; congruence.
    + intros r' H. destruct (rs_q r) as [q|] eqn:Eq; [|done].
      destruct (rs_source r) eqn:Es; [|done]. destruct (rs_received r) eqn:Er; [|done].
      destruct (all_finite q) eqn:Ef; [|done]. cbn [negb rbind] in H.
      repeat (apply rbind_ok in H as (? & Hv & H); apply vector_ok_iff in Hv as [-> ?]).
      injection H as <-. split; [destruct r; simpl in *; congruence|].
      exists q. repeat split; eauto; naive_solver.
  - split.
    + intros H. destruct (rs_validity r); [done| | |];
        destruct H as (Hr & -> & -> & -> & -> & -> & -> & ->); simpl; by rewrite bool_decide_false.
    + intros r' H. inv_ok H. breflect. split; [done|].
      destruct (rs_validity r'); [done| | |];
        (split; [done|]; repeat match goal with
           | H : is_some ?x = false |- _ => destruct x; [done|clear H] end; done).
Qed.

(** The observation constructor accepts exactly the well-formed values and
    returns them unchanged: a stale, missing or invalid observation carries no
    numbers and says why, a valid one carries finite joint vectors of one
    width with both stamps. *)
Theorem RobotState_new_exact r :
  (observation_wf r -> RobotState_new r = Ok r) /\
  (forall r', RobotState_new r = Ok r' -> r' = r /\ observation_wf r).
Proof. apply RobotState_new_spec. Qed.

(** The authority constructor accepts exactly the consistent lifecycles:
    a fault with and only with FAULTED, a positive ARM generation when armed or
    faulted, and holding only then. *)
Theorem Authority_new_exact a :
  (exists a', Authority_new a = Ok a') <->
  (lifecycle a = L_FAULTED <-> is_Some (fault a)) /\
  (lifecycle a = ARMED \/ lifecycle a = L_FAULTED -> (0 < arm_epoch a)%Z) /\
  (holding a = Some true -> lifecycle a = ARMED \/ lifecycle a = L_FAULTED).
Proof.
  unfold Authority_new. pose proof (is_some_spec (fault a)) as Hf.
  destruct (lifecycle a), (is_some (fault a)), (holding a) as [[]|], (Z.leb_spec (arm_epoch a) 0);
    simpl; (split; [intros [? ?]; first [discriminate | naive_solver lia] | intros (H1 & H2 & H3); eauto;
      exfalso; naive_solver lia]).
Qed.
