(* ===== verification/Stream.v ===== *)
(** Stream extension values: [arm_control/execution/stream.py], the controller
    values of [arm_control/execution/controller.py] and the admission policy of
    [arm_control/supervisor/admission.py].

    A stream is opened by one request carrying an initial curve and revised by
    suffixes; each constructor below re-checks the same capacity and identity
    rules the execution contract states.  The length of a text is counted in the
    bytes of its [string], which for ASCII are the source's characters. *)
From stdpp Require Import pretty.
From Stdlib Require Import SpecFloat PrimFloat FloatOps.
From S2P Require Import Prelude Floats Motion Contract.

Definition STREAM_VERSION : Z := 1.

(** [_text], [_sequence] *)
Definition text (value : string) : result unit :=
  raise_if bool_decide (value = "") || (256 <? String.length value)
    of ValueError "must be a nonempty string of at most 256 characters" ;;
  Ok tt.
Definition sequence (value : Z) : result unit :=
  raise_if negb ((0 <? value) && (value <? 2 ^ 64))%Z of ValueError "must be a positive uint64" ;;
  Ok tt.

(** [_curve] *)
Definition curve (value : JointTrajectory) : result JointTrajectory :=
  match velocities value with
  | None => Err (ValueError "stream requires explicit Hermite velocities")
  | Some vm =>
      raise_if negb ((2 <=? length (times value)) && (length (times value) <=? 128)
                     && ((1 <=? num_joints value) && (num_joints value <=? 16)))
        of ValueError "stream capacity is 2..128 knots x 1..16 joints" ;;
      r <-- JointTrajectory_new (times value) (positions value) (Some vm) ;;
      raise_if negb (all_finite (times r)) || negb (mat_finite (positions r)) || negb (mat_finite vm)
        of ValueError "stream curve must be finite" ;;
      Ok r
  end.

Inductive SelectionState := NOT_REQUESTED | SEL_PENDING | SEL_SELECTED | SEL_REFUSED.

Record StreamOpen := {
  so_request_id : string;
  open_seq : Z;
  so_instance_id : string;
  so_joint_names : list string;
  so_model_token : string;
  so_scene_token : string;
  stream_policy_id : string;
  initial : JointTrajectory;
  so_start : Start;
  so_admit_by : option Stamp;
}.

(** [StreamOpen.as_request] on its fields *)
Definition open_request (o : StreamOpen) : TrajectoryRequest := {|
  request_id := so_request_id o; req_instance_id := so_instance_id o;
  req_joint_names := so_joint_names o; trajectory := initial o;
  profile := "joint_impedance"; gains := None; model_token := Some (so_model_token o);
  start := so_start o; admit_by := so_admit_by o; completion := None; supersedes := None;
  cartesian := None |}.
Definition as_request (o : StreamOpen) : result TrajectoryRequest := TrajectoryRequest_new (open_request o).

Definition StreamOpen_new (o : StreamOpen) : result StreamOpen :=
  _ <-- sequence (open_seq o) ;;
  _ <-- text (so_model_token o) ;;
  _ <-- text (so_scene_token o) ;;
  _ <-- text (stream_policy_id o) ;;
  c <-- curve (initial o) ;;
  let o := {| so_request_id := so_request_id o; open_seq := open_seq o;
              so_instance_id := so_instance_id o; so_joint_names := so_joint_names o;
              so_model_token := so_model_token o; so_scene_token := so_scene_token o;
              stream_policy_id := stream_policy_id o; initial := c;
              so_start := so_start o; so_admit_by := so_admit_by o |} in
  _ <-- as_request o ;;
  raise_if negb (first_time c =f f0) of ValueError "initial stream phase must start at zero" ;;
  Ok o.

Record StreamRevision := {
  sr_request_id : string;
  sr_execution_id : string;
  proposal_seq : Z;
  expected_revision : Z;
  sr_anchor_id : string;
  sr_scene_token : string;
  suffix : JointTrajectory;
  sr_terminal : bool;
  sr_admit_by : option Stamp;
}.

(** The request a revision borrows the deadline convention from. *)
Definition revision_request (r : StreamRevision) (c : JointTrajectory) : TrajectoryRequest := {|
  request_id := sr_request_id r; req_instance_id := "stream";
  req_joint_names := map (fun i => "j" +:+ pretty i) (seq 0 (num_joints c)); trajectory := c;
  profile := "joint_impedance"; gains := None; model_token := None; start := ON_ADMIT;
  admit_by := sr_admit_by r; completion := None; supersedes := None; cartesian := None |}.

Definition StreamRevision_new (r : StreamRevision) : result StreamRevision :=
  _ <-- text (sr_request_id r) ;;
  _ <-- text (sr_execution_id r) ;;
  _ <-- text (sr_anchor_id r) ;;
  _ <-- text (sr_scene_token r) ;;
  _ <-- sequence (proposal_seq r) ;;
  _ <-- sequence (expected_revision r) ;;
  c <-- curve (suffix r) ;;
  raise_if sr_terminal r && existsb (fun v => negb (v =f f0))
             (default [] (velocities c ≫= last))
    of ValueError "terminal revision must have zero endpoint velocity" ;;
  _ <-- TrajectoryRequest_new (revision_request r c) ;;
  Ok {| sr_request_id := sr_request_id r; sr_execution_id := sr_execution_id r;
        proposal_seq := proposal_seq r; expected_revision := expected_revision r;
        sr_anchor_id := sr_anchor_id r; sr_scene_token := sr_scene_token r; suffix := c;
        sr_terminal := sr_terminal r; sr_admit_by := sr_admit_by r |}.

Record SpliceAnchor := {
  anchor_id : string;
  sa_expected_revision : Z;
  cut_phase : float;
  sa_q : vec;
  sa_qd : vec;
  issued_at : Stamp;
  expires_at : Stamp;
}.

Definition splice_vector (v : vec) : result unit :=
  raise_if negb ((1 <=? length v) && (length v <=? 16)) || negb (all_finite v)
    of ValueError "must be a finite joint vector" ;;
  Ok tt.

Definition SpliceAnchor_new (a : SpliceAnchor) : result SpliceAnchor :=
  _ <-- text (anchor_id a) ;;
  _ <-- sequence (sa_expected_revision a) ;;
  _ <-- splice_vector (sa_q a) ;;
  _ <-- splice_vector (sa_qd a) ;;
  raise_if negb (length (sa_q a) =? length (sa_qd a)) || negb (isfinite (cut_phase a)) || (cut_phase a <f f0)
    of ValueError "invalid splice knot" ;;
  raise_if negb (bool_decide ((clock (issued_at a), domain (issued_at a)) = (clock (expires_at a), domain (expires_at a))))
    of ValueError "anchor expiry must use its issuance clock" ;;
  raise_if (ns (expires_at a) <=? ns (issued_at a))%Z of ValueError "anchor must have a positive lifetime" ;;
  Ok a.

Record RevisionStatus := {
  rv_execution_id : string;
  rv_request_id : string;
  rv_expected_revision : option Z;
  rv_revision : option Z;
  rv_phase : Phase;
  rv_selection_state : SelectionState;
  rv_at : Stamp;
  rv_reason : string;
}.

Record StreamView := {
  sv_execution : ExecutionStatus;
  sv_model_token : string;
  sv_scene_token : string;
  sv_stream_policy_id : string;
  selected_reference_id : option Z;
  selected_revision : option Z;
  selected_phase : option float;
  protected_until : option float;
  selected_end_phase : option float;
  selected_terminal : option bool;
  pending_request_id : option string;
  pending_revision : option Z;
  sv_splice : option SpliceAnchor;
}.

(** ** Controller values *)

Record ControllerPreset := { preset_id : string; law : string }.
Definition ControllerPreset_new (p : ControllerPreset) : result ControllerPreset :=
  raise_if bool_decide (preset_id p = "") || negb (bool_decide (law p ∈ ["joint"; "soft"]))
    of ValueError "preset requires an id and joint/soft law" ;;
  Ok p.

Record PayloadValue := { mass_kg : float; com_ee : option vec }.

(** The centre of mass is kept only for a positive mass. *)
Definition PayloadValue_new (mass : float) (c : option vec) : result PayloadValue :=
  raise_if negb (isfinite mass) || (mass <f f0) of ValueError "payload mass must be finite and nonnegative" ;;
  com <-- (match c with
           | Some v =>
               if f0 <f mass then
                 raise_if negb (length v =? 3) || negb (all_finite v)
                   of ValueError "payload CoM must contain three finite values" ;;
                 Ok (Some v)
               else Ok None
           | None => Ok None
           end) ;;
  Ok {| mass_kg := mass; com_ee := com |}.

Record PayloadState := { pl_revision : Z; pl_value : PayloadValue }.
Record ControllerState := {
  ct_law : string;
  ct_preset_id : option string;
  ct_kp : vec;
  ct_kd : vec;
  ct_payload : PayloadState;
}.

(** ** Stream admission policy *)

Record StreamPolicy := {
  sp_id : string;
  min_commit_lead_s : float;
  max_candidate_age_s : float;
  max_future_s : float;
  start_velocity_tolerance_rad_s : vec;
}.

Definition finite_positive (x : float) : bool := isfinite x && negb (x <=f f0).

Definition StreamPolicy_new (p : StreamPolicy) : result StreamPolicy :=
  raise_if bool_decide (sp_id p = "") of ValueError "stream policy requires an identity" ;;
  raise_if negb (finite_positive (min_commit_lead_s p)) of ValueError "min_commit_lead_s" ;;
  raise_if negb (finite_positive (max_candidate_age_s p)) of ValueError "max_candidate_age_s" ;;
  raise_if negb (finite_positive (max_future_s p)) of ValueError "max_future_s" ;;
  raise_if min_commit_lead_s p +f max_candidate_age_s p >=f max_future_s p
    of ValueError "commit lead + candidate age must fit future budget" ;;
  let values := start_velocity_tolerance_rad_s p in
  raise_if (length values =? 0) || negb (forallb (fun v => isfinite v && (f0 <=f v)) values)
    of ValueError "start velocity tolerance must be finite/nonnegative" ;;
  Ok p.

Record StreamFacts := {
  sf_model_token : string;
  sf_scene_token : string;
  sf_policy : StreamPolicy;
}.

(** ** Properties *)

Lemma JointTrajectory_new_id ts ps vs tr :
  JointTrajectory_new ts ps vs = Ok tr -> tr = {| times := ts; positions := ps; velocities := vs |}.
Proof. unfold JointTrajectory_new. intros H. by inv_ok H. Qed.

(** An admitted curve: within the stream capacity, with finite velocities, and
    a trajectory the constructor accepts. *)
Record curve_ok (c : JointTrajectory) : Prop := {
  co_new : JointTrajectory_new (times c) (positions c) (velocities c) = Ok c;
  co_knots : 2 <= length (times c) <= 128;
  co_joints : 1 <= num_joints c <= 16;
  co_velocities : is_Some (velocities c);
  co_finite : all_finite (times c) = true /\ mat_finite (positions c) = true /\
    (forall vm, velocities c = Some vm -> mat_finite vm = true);
}.

Lemma curve_sound v c : curve v = Ok c -> c = v /\ curve_ok c.
Proof.
  unfold curve. destruct (velocities v) as [vm|] eqn:Ev; [|done]. intros H.
  destruct (negb _) eqn:Ecap; [done|]. apply rbind_ok in H as (r & Hr & H).
  pose proof (JointTrajectory_new_id _ _ _ _ Hr) as ->. simpl in H.
  inv_ok H. assert (v = {| times := times v; positions := positions v; velocities := Some vm |}) as Hv.
  { destruct v. simpl in *. by subst. }
  split; [done|]. rewrite Hv in Ecap.
  repeat match goal with H : negb _ = false |- _ => apply negb_false_iff in H end.
  breflect. repeat match goal with H : (_ <=? _) = true |- _ => apply Nat.leb_le in H end.
  split; simpl in *; [done|lia|unfold num_joints in *; simpl in *; lia|eauto|].
  split; [done|]. split; [done|]. by intros ? [= <-].
Qed.

(** A stream open that its constructor accepts is, read as an execution
    request, accepted by the request constructor unchanged (so the shared
    identity and deadline rules hold), its curve starts at phase zero with
    explicit finite velocities, inside 2..128 knots and 1..16 joints, with one
    joint name per column. *)
Theorem StreamOpen_new_sound raw o :
  StreamOpen_new raw = Ok o ->
  as_request o = Ok (open_request o) /\ curve_ok (initial o) /\
  feqb (first_time (initial o)) f0 = true /\ (0 < open_seq o < 2 ^ 64)%Z /\
  length (so_joint_names o) = num_joints (initial o) /\
  (forall s, so_admit_by o = Some s -> clock s = PC /\ domain s <> "").
Proof.
  unfold StreamOpen_new. intros H.
  apply rbind_ok in H as (? & Hseq & H). do 3 (apply rbind_ok in H as (? & _ & H)).
  apply rbind_ok in H as (c & Hc & H). cbv zeta in H. apply rbind_ok in H as (rq & Hrq & H).
  inv_ok H. apply curve_sound in Hc as [-> Hok]. breflect. simpl.
  pose proof (TrajectoryRequest_new_id _ _ Hrq) as ->.
  split; [exact Hrq|]. split; [done|]. split; [done|].
  unfold sequence in Hseq. destruct (negb _) eqn:Es; [done|]. breflect.
  split; [done|]. unfold as_request in Hrq. split.
  - unfold TrajectoryRequest_new in Hrq. inv_chain Hrq. breflect. done.
  - intros s Hs. by eapply TrajectoryRequest_new_deadline.
Qed.

Definition curve0 : JointTrajectory :=
  {| times := [f0; f1]; positions := [[f0]; [f1]]; velocities := Some [[f0]; [f0]] |}.
Definition open0 : StreamOpen := {|
  so_request_id := "s1"; open_seq := 1; so_instance_id := "fr3_1"; so_joint_names := ["j1"];
  so_model_token := "m"; so_scene_token := "sc"; stream_policy_id := "p"; initial := curve0;
  so_start := ON_ADMIT; so_admit_by := None |}.
Example StreamOpen_new_sound_witness : as_request open0 = Ok (open_request open0).
Proof. apply (StreamOpen_new_sound open0 open0). reflexivity. Defined.

(** A revision that its constructor accepts carries a capacity-bounded
    finite curve, positive sequence numbers, an attested PC deadline if any,
    and, when it is the terminal one, ends at rest in every joint. *)
Theorem StreamRevision_new_sound raw r :
  StreamRevision_new raw = Ok r ->
  curve_ok (suffix r) /\ (0 < proposal_seq r < 2 ^ 64)%Z /\ (0 < expected_revision r < 2 ^ 64)%Z /\
  (forall s, sr_admit_by r = Some s -> clock s = PC /\ domain s <> "") /\
  (sr_terminal r = true -> forall vm row, velocities (suffix r) = Some vm -> last vm = Some row ->
     Forall (fun v => feqb v f0 = true) row).
Proof.
  unfold StreamRevision_new. intros H. do 4 (apply rbind_ok in H as (? & _ & H)).
  apply rbind_ok in H as (? & Hp & H). apply rbind_ok in H as (? & He & H).
  apply rbind_ok in H as (c & Hc & H). destruct (sr_terminal raw && _) eqn:Et; [done|].
  apply rbind_ok in H as (rq & Hrq & H). injection H as <-. simpl.
  apply curve_sound in Hc as [-> Hok]. split; [done|].
  unfold sequence in Hp, He.
  destruct (negb _) eqn:Ep; [done|]. destruct (negb (_ && _)%Z) eqn:Ee in He; [done|]. breflect.
  split; [done|]. split; [done|]. split.
  - intros s Hs. pose proof (TrajectoryRequest_new_id _ _ Hrq) as ->.
    by eapply TrajectoryRequest_new_deadline; [exact Hrq|].
  - intros Hterm vm row Hv Hrow. rewrite Hterm, Hv in Et. simpl in Et. rewrite Hrow in Et. simpl in Et.
    apply existsb_false_Forall in Et. eapply Forall_impl; [exact Et|]. intros y Hy. simpl in Hy. by breflect.
Qed.

Definition revision0 : StreamRevision := {|
  sr_request_id := "s2"; sr_execution_id := "e1"; proposal_seq := 1; expected_revision := 1;
  sr_anchor_id := "a"; sr_scene_token := "sc"; suffix := curve0; sr_terminal := true;
  sr_admit_by := None |}.
Example StreamRevision_new_sound_witness : curve_ok (suffix revision0).
Proof. apply (StreamRevision_new_sound revision0 revision0). vm_compute. reflexivity. Defined.
