(* ===== verification/Json.v ===== *)
(** JSON values, as [json.loads] yields them and [json.dumps] takes them, the
    conversions the supervisor's socket applies to them ([int], [str], [bool],
    [d[key]], [f( **d)], [np.asarray]), and the interface between an encoder and
    its decoder.

    [encode] is the function of [arm_control/execution/codec.py] on the values
    of the standard types; the contract's dataclasses add their instances in
    [Codec].  [Lossless from valid] is what a codec promises: decoding what was
    encoded gives back every valid value. *)
From stdpp Require Import pretty.
From Stdlib Require Import SpecFloat PrimFloat FloatOps.
From S2P Require Import Prelude Floats.

Inductive json :=
  | JNull | JBool (b : bool) | JInt (n : Z) | JNum (x : float) | JStr (s : string)
  | JArr (l : list json) | JObj (kv : list (string * json)).

(** ** Reading a value *)

Fixpoint jget (k : string) (kv : list (string * json)) : option json :=
  match kv with [] => None | (k', v) :: kv => if String.eqb k k' then Some v else jget k kv end.
Definition has_key (k : string) (kv : list (string * json)) : bool := is_some (jget k kv).

(** [d[k]], [d.get(k)] *)
Definition field (k : string) (d : json) : result json :=
  match d with
  | JObj kv => match jget k kv with Some v => Ok v | None => Err KeyError end
  | _ => Err (TypeError "indices must be integers or slices, not str")
  end.
Definition field_get (k : string) (d : json) : result json :=
  match d with JObj kv => Ok (default JNull (jget k kv)) | _ => Err AttributeError end.

(** [f( **d)]: a function whose parameters are [required] and [optional]. *)
Definition kwargs (required optional : list string) (d : json) : result (list (string * json)) :=
  match d with
  | JObj kv =>
      raise_if existsb (fun x => negb (existsb (String.eqb x.1) (required ++ optional))) kv
        of TypeError "got an unexpected keyword argument" ;;
      raise_if existsb (fun k => negb (has_key k kv)) required of TypeError "missing a required argument" ;;
      Ok kv
  | _ => Err (TypeError "argument after ** must be a mapping")
  end.
(** A parameter of that call: the value given, or [None]. *)
Definition arg (k : string) (kv : list (string * json)) : json := default JNull (jget k kv).

(** [x or y] *)
Definition truth (j : json) : bool :=
  match j with
  | JNull => false
  | JBool b => b
  | JInt n => negb (n =? 0)%Z
  | JNum x => negb (x =f f0)
  | JStr s => negb (String.eqb s "")
  | JArr l => match l with [] => false | _ => true end
  | JObj kv => match kv with [] => false | _ => true end
  end.

(** [int(x)], [float(x)], [str(x)]; text that spells a number is refused here
    though Python parses it, as is the [repr] of a float or of a container. *)
Definition to_int (j : json) : result Z :=
  match j with
  | JInt n => Ok n
  | JBool b => Ok (Z.b2z b)
  | JNum x => py_int x
  | JStr _ => Err (ValueError "invalid literal for int()")
  | _ => Err (TypeError "int() argument must be a string, a bytes-like object or a real number")
  end.
Definition to_float (j : json) : result float :=
  match j with
  | JInt n => int_to_float n
  | JBool b => Ok (of_Z (Z.b2z b))
  | JNum x => Ok x
  | JStr _ => Err (ValueError "could not convert string to float")
  | _ => Err (TypeError "float() argument must be a string or a real number")
  end.
Definition to_str (j : json) : result string :=
  match j with
  | JStr s => Ok s
  | JInt n => Ok (pretty n)
  | JBool b => Ok (if b then "True" else "False")
  | JNull => Ok "None"
  | _ => Err (TypeError "not text")
  end.

(** A leaf the source stores as it comes: the model types it here, where Python
    leaves a value of another type to the checks and the uses that follow. *)
Definition as_str (j : json) : result string := match j with JStr s => Ok s | _ => Err (TypeError "not text") end.
Definition as_int (j : json) : result Z := match j with JInt n => Ok n | _ => Err (TypeError "not an integer") end.
Definition as_bool (j : json) : result bool := match j with JBool b => Ok b | _ => Err (TypeError "not a boolean") end.
Definition as_num (j : json) : result float :=
  match j with JNum x => Ok x | JInt n => int_to_float n | _ => Err (TypeError "not a number") end.
(** [None if x is None else f(x)] *)
Definition opt {A} (f : json -> result A) (j : json) : result (option A) :=
  match j with JNull => Ok None | _ => a <-- f j ;; Ok (Some a) end.
(** [tuple(x)] of a list, each element read by [f]. *)
Definition tuple_of {A} (f : json -> result A) (j : json) : result (list A) :=
  match j with JArr l => rmap f l | _ => Err (TypeError "object is not iterable") end.
(** [{key(k): f(v) for k, v in d.items()}] *)
Definition items_of {A} (f : json -> result A) (j : json) : result (list (string * A)) :=
  match j with
  | JObj kv => rmap (fun x => a <-- f x.2 ;; Ok (x.1, a)) kv
  | _ => Err AttributeError
  end.

(** [np.asarray(x, dtype=float)]: the shape and the elements in row order. *)
Fixpoint np_array (j : json) : result (list nat * vec) :=
  match j with
  | JNull => Ok ([], [fnan])
  | JBool b => Ok ([], [of_Z (Z.b2z b)])
  | JInt n => x <-- int_to_float n ;; Ok ([], [x])
  | JNum x => Ok ([], [x])
  | JStr _ => Err (ValueError "could not convert string to float")
  | JObj _ => Err (TypeError "float() argument must be a string or a real number")
  | JArr l =>
      items <-- rmap np_array l ;;
      match items with
      | [] => Ok ([0], [])
      | (shape, _) :: _ =>
          raise_if existsb (fun i => negb (bool_decide (i.1 = shape))) items
            of ValueError "setting an array element with a sequence" ;;
          Ok (length items :: shape, concat (map snd items))
      end
  end.
Definition np_ravel (j : json) : result vec := a <-- np_array j ;; Ok a.2.
Definition np_1d (j : json) : result vec :=
  a <-- np_array j ;; match a.1 with [_] => Ok a.2 | _ => Err (ValueError "must be a 1-D array") end.
Fixpoint rows (r c : nat) (data : vec) : mat :=
  match r with 0 => [] | S r => take c data :: rows r c (drop c data) end.
Definition np_2d (j : json) : result mat :=
  a <-- np_array j ;; match a.1 with [r; c] => Ok (rows r c a.2) | _ => Err (ValueError "must be a 2-D array") end.

(** ** Writing a value *)

Class Encode (A : Type) := encode : A -> json.
(** The text of a dictionary's key. *)
Class KeyText (K : Type) := key_text : K -> string.
#[export] Instance encode_json : Encode json := fun j => j.
#[export] Instance encode_bool : Encode bool := JBool.
#[export] Instance encode_int : Encode Z := JInt.
#[export] Instance encode_float : Encode float := JNum.
#[export] Instance encode_str : Encode string := JStr.
#[export] Instance encode_option {A} `{Encode A} : Encode (option A) :=
  fun o => match o with Some a => encode a | None => JNull end.
#[export] Instance encode_list {A} `{Encode A} : Encode (list A) := fun l => JArr (map encode l).
#[export] Instance encode_dict {K A} `{Countable K, KeyText K, Encode A} : Encode (gmap K A) :=
  fun m => JObj (map (fun x => (key_text x.1, encode x.2)) (map_to_list m)).
#[export] Instance key_str : KeyText string := fun k => k.

(** ** What a codec promises *)

Class Lossless {A} `{Encode A} (from : json -> result A) (valid : A -> Prop) : Prop :=
  lossless a : valid a -> from (encode a) = Ok a.
Definition any {A} (a : A) : Prop := True.
(** The constructor accepts the value, and leaves it as it is. *)
Definition made_by {A} (new : A -> result A) (a : A) : Prop := new a = Ok a.
Definition opt_all {A} (P : A -> Prop) (o : option A) : Prop := match o with Some a => P a | None => True end.

Create HintDb codec.
#[export] Hint Unfold any : codec.

#[export] Instance lossless_str : Lossless as_str any.
Proof. done. Qed.
#[export] Instance lossless_to_str : Lossless to_str any.
Proof. done. Qed.
#[export] Instance lossless_int : Lossless as_int any.
Proof. done. Qed.
#[export] Instance lossless_to_int : Lossless to_int any.
Proof. done. Qed.
#[export] Instance lossless_bool : Lossless as_bool any.
Proof. done. Qed.
#[export] Instance lossless_num : Lossless as_num any.
Proof. done. Qed.

(** An encoding that [None] does not share. *)
Class Present {A} `{Encode A} : Prop := present a : encode a <> JNull.
Arguments Present A {_}.
#[export] Instance present_str : Present string.
Proof. done. Qed.
#[export] Instance present_int : Present Z.
Proof. done. Qed.
#[export] Instance present_bool : Present bool.
Proof. done. Qed.
#[export] Instance present_float : Present float.
Proof. done. Qed.
#[export] Instance present_list {A} `{Encode A} : Present (list A).
Proof. done. Qed.

Lemma lossless_opt {A} `{Encode A, !Present A} (from : json -> result A) valid `{!Lossless from valid} o :
  opt_all valid o -> opt from (encode o) = Ok o.
Proof.
  destruct o as [a|]; simpl; [|done]. intros Ha. change (opt from (encode a) = Ok (Some a)).
  pose proof (lossless a Ha) as E. pose proof (present a) as Hp. unfold opt. by destruct (encode a); [|rewrite E..].
Qed.

Lemma lossless_rmap {A} `{Encode A} (from : json -> result A) valid `{!Lossless from valid} l :
  Forall valid l -> rmap from (map encode l) = Ok l.
Proof. induction 1 as [|a l Ha Hl IH]; simpl; [done|]. by rewrite lossless, IH. Qed.

Lemma lossless_tuple {A} `{Encode A} (from : json -> result A) valid `{!Lossless from valid} l :
  Forall valid l -> tuple_of from (encode l) = Ok l.
Proof. apply lossless_rmap, _. Qed.
Lemma strings_back (l : list string) : tuple_of as_str (encode l) = Ok l.
Proof. apply (lossless_tuple as_str any), Forall_true. done. Qed.

Lemma items_back {A} `{Encode A} (from : json -> result A) valid `{!Lossless from valid} (m : gmap string A) :
  map_Forall (fun _ => valid) m ->
  (kv <-- items_of from (encode m) ;; Ok (list_to_map kv : gmap string A)) = Ok m.
Proof.
  intros Hm. apply rbind_ok. exists (map_to_list m). split; [|by rewrite list_to_map_to_list].
  apply map_Forall_to_list in Hm. unfold encode, encode_dict. simpl.
  induction Hm as [|[k a] l Ha Hl IH]; simpl; [done|]. by rewrite lossless, IH.
Qed.

(** ** Arrays *)

Lemma np_scalars (v : vec) : rmap np_array (map JNum v) = Ok (map (fun x => ([], [x])) v).
Proof. induction v as [|x v IH]; simpl; [done|]. by rewrite IH. Qed.
Lemma concat_singletons {A} (l : list A) : concat (map (fun x => [x]) l) = l.
Proof. induction l as [|a l IH]; simpl; [done|]. by rewrite IH. Qed.

Lemma existsb_none {A} (f : A -> bool) l : Forall (fun a => f a = false) l -> existsb f l = false.
Proof. by apply existsb_false_Forall. Qed.

Lemma np_vector (v : vec) : np_array (encode v) = Ok ([length v], v).
Proof.
  unfold encode, encode_list, encode, encode_float. simpl. rewrite np_scalars. simpl.
  destruct v as [|x v]; [done|]. simpl. rewrite existsb_none; [|apply Forall_map, Forall_true; intros; by rewrite bool_decide_eq_true_2].
  rewrite length_map, map_map. simpl. do 2 f_equal. f_equal. apply concat_singletons.
Qed.
Lemma np_ravel_back (v : vec) : np_ravel (encode v) = Ok v.
Proof. unfold np_ravel. by rewrite np_vector. Qed.
Lemma np_1d_back (v : vec) : np_1d (encode v) = Ok v.
Proof. unfold np_1d. by rewrite np_vector. Qed.

Lemma rectangular_cols (m : mat) : rectangular m = true -> Forall (fun r => length r = ncols m) m.
Proof.
  destruct m as [|r m]; simpl; [by constructor|]. intros H. constructor; [done|].
  apply forallb_Forall in H. eapply Forall_impl; [exact H|]. intros r' E. by apply Nat.eqb_eq in E.
Qed.
Lemma rows_concat (m : mat) c : Forall (fun r => length r = c) m -> rows (length m) c (concat m) = m.
Proof.
  induction 1 as [|r m Hr Hm IH]; simpl; [done|]. rewrite take_app_length' by done. rewrite drop_app_length' by done. by rewrite IH.
Qed.

Lemma np_rows (m : mat) : rmap np_array (map encode m) = Ok (map (fun r => ([length r], r)) m).
Proof. induction m as [|r m IH]; [done|]. cbn [map rmap]. by rewrite np_vector, IH. Qed.

Lemma np_list (l : list json) :
  np_array (JArr l) =
    (items <-- rmap np_array l ;;
     match items with
     | [] => Ok ([0], [])
     | (shape, _) :: _ =>
         raise_if existsb (fun i => negb (bool_decide (i.1 = shape))) items
           of ValueError "setting an array element with a sequence" ;;
         Ok (length items :: shape, concat (map snd items))
     end).
Proof. done. Qed.

Lemma np_2d_back (m : mat) : rectangular m = true -> m <> [] -> np_2d (encode m) = Ok m.
Proof.
  intros Hr Hm. apply rectangular_cols in Hr as Hc. unfold np_2d.
  change (encode m) with (JArr (map encode m)). rewrite np_list, np_rows. cbn [rbind].
  destruct m as [|r m]; [done|]. cbn [map]. rewrite existsb_none.
  2: { change (?a :: map ?f m) with (map f (r :: m)). apply Forall_map. eapply Forall_impl; [exact Hc|].
       intros r' E'. simpl in *. by rewrite E', bool_decide_eq_true_2. }
  cbn [rbind fst snd length]. rewrite length_map, map_map. cbn [map snd]. rewrite map_id.
  change (Ok (rows (length (r :: m)) (ncols (r :: m)) (concat (r :: m))) = Ok (r :: m)). by rewrite rows_concat.
Qed.
