(* ===== verification/Codec.v ===== *)
(** Contract values to and from JSON, [arm_control/execution/codec.py]: the
    dataclass branch of [encode] for each contract type, and each [*_from], which
    rebuilds a value through its constructor.

    Two theorems per type: decoding yields only values their constructor accepts,
    and every such value comes back from its encoding unchanged.  [valid_*] says
    what the constructors of a value and of its parts accept. *)
From Stdlib Require Import SpecFloat PrimFloat FloatOps.
From S2P Require Import Prelude Floats Motion Contract Stream Json.

(** ** Enumerations: [value.value], and [Enum(text)] *)

Class Enumeration (A : Type) := { members : list A; value : A -> string }.
#[export] Instance encode_enum {A} `{Enumeration A} : Encode A := fun a => JStr (value a).
Definition member {A} `{Enumeration A} (j : json) : result A :=
  match j with
  | JStr s => match List.find (fun a => String.eqb (value a) s) members with
              | Some a => Ok a
              | None => Err (ValueError "is not a valid member")
              end
  | _ => Err (ValueError "is not a valid member")
  end.

#[export] Instance Clock_values : Enumeration Clock := {|
  members := [RT_HOST; PC; ROBOT; EXECUTION];
  value c := match c with RT_HOST => "rt_host_monotonic" | PC => "pc_monotonic" | ROBOT => "robot" | EXECUTION => "execution" end |}.
#[export] Instance Validity_values : Enumeration Validity := {|
  members := [VALID; STALE; MISSING; INVALID];
  value v := match v with VALID => "valid" | STALE => "stale" | MISSING => "missing" | INVALID => "invalid" end |}.
#[export] Instance Lifecycle_values : Enumeration Lifecycle := {|
  members := [DISCONNECTED; OBSERVING; CONNECTED; CLAIMED; ARMED; L_FAULTED];
  value l := match l with
             | DISCONNECTED => "disconnected" | OBSERVING => "observing" | CONNECTED => "connected"
             | CLAIMED => "claimed" | ARMED => "armed" | L_FAULTED => "faulted"
             end |}.
#[export] Instance Start_values : Enumeration Start := {|
  members := [ON_ADMIT; ON_RELEASE];
  value s := match s with ON_ADMIT => "on_admit" | ON_RELEASE => "on_release" end |}.
#[export] Instance Phase_values : Enumeration Phase := {|
  members := [REQUESTED; ADMITTED; SELECTED; SENT; APPLIED; COMPLETED; REJECTED; SUPERSEDED; EXPIRED; CANCELLED; FAULTED];
  value p := match p with
             | REQUESTED => "requested" | ADMITTED => "admitted" | SELECTED => "selected" | SENT => "sent" | APPLIED => "applied"
             | COMPLETED => "completed" | REJECTED => "rejected" | SUPERSEDED => "superseded" | EXPIRED => "expired"
             | CANCELLED => "cancelled" | FAULTED => "faulted"
             end |}.
#[export] Instance SelectionState_values : Enumeration SelectionState := {|
  members := [NOT_REQUESTED; SEL_PENDING; SEL_SELECTED; SEL_REFUSED];
  value s := match s with
             | NOT_REQUESTED => "not_requested" | SEL_PENDING => "pending" | SEL_SELECTED => "selected" | SEL_REFUSED => "refused"
             end |}.
#[export] Instance key_Phase : KeyText Phase := value.

(** ** Stamps, identity, capability *)

#[export] Instance encode_Stamp : Encode Stamp := fun s =>
  JObj [("ns", encode (ns s)); ("clock", encode (clock s)); ("domain", encode (domain s))].
(** [stamp_from] of a value that is not [None] *)
Definition stamp_of (d : json) : result Stamp :=
  n <-- (v <-- field "ns" d ;; to_int v) ;;
  c <-- (v <-- field "clock" d ;; member v) ;;
  dom <-- (v <-- field "domain" d ;; to_str v) ;;
  Stamp_new n c dom.
Definition stamp_from (d : json) : result (option Stamp) := opt stamp_of d.

#[export] Instance encode_RobotIdentity : Encode RobotIdentity := fun i =>
  JObj [("instance_id", encode (instance_id i)); ("joint_names", encode (joint_names i));
        ("backend", encode (backend i)); ("model_id", encode (model_id i))].
Definition identity_from (d : json) : result RobotIdentity :=
  inst <-- (v <-- field "instance_id" d ;; as_str v) ;;
  names <-- (v <-- field "joint_names" d ;; tuple_of as_str v) ;;
  be <-- (v <-- field "backend" d ;; as_str v) ;;
  model <-- (v <-- field "model_id" d ;; as_str v) ;;
  RobotIdentity_new inst names be model.

#[export] Instance encode_Capabilities : Encode Capabilities := fun c =>
  JObj [("contract_version", encode (contract_version c)); ("profiles", encode (profiles c));
        ("protocol_version", encode (protocol_version c)); ("pose_hold", encode (cap_pose_hold c));
        ("observer", encode (cap_observer c)); ("rt_setup", encode (rt_setup c))].
Definition capabilities_from (d : json) : result Capabilities :=
  version <-- (v <-- field "contract_version" d ;; to_int v) ;;
  names <-- (v <-- field "profiles" d ;; tuple_of as_str v) ;;
  protocol <-- (v <-- field "protocol_version" d ;; opt as_int v) ;;
  hold <-- field "pose_hold" d ;;
  obs <-- field "observer" d ;;
  setup <-- (v <-- field "rt_setup" d ;; to_str v) ;;
  Ok {| contract_version := version; profiles := names; protocol_version := protocol;
        cap_pose_hold := truth hold; cap_observer := truth obs; rt_setup := setup |}.

(** ** Observation, authority *)

#[export] Instance encode_RobotState : Encode RobotState := fun r =>
  JObj [("instance_id", encode (rs_instance_id r)); ("validity", encode (rs_validity r)); ("reason", encode (rs_reason r));
        ("q", encode (rs_q r)); ("dq", encode (rs_dq r)); ("tau", encode (rs_tau r));
        ("selected_q", encode (rs_selected_q r)); ("selected_qd", encode (rs_selected_qd r));
        ("output_tau", encode (rs_output_tau r)); ("wrench", encode (rs_wrench r));
        ("source", encode (rs_source r)); ("received", encode (rs_received r));
        ("state_seq", encode (rs_state_seq r)); ("last_command_seq", encode (rs_last_command_seq r))].
Definition state_from (d : json) : result RobotState :=
  va <-- (v <-- field "validity" d ;; member v) ;;
  source <-- (v <-- field "source" d ;; stamp_from v) ;;
  received <-- (v <-- field "received" d ;; stamp_from v) ;;
  kv <-- kwargs ["instance_id"; "validity"]
           ["reason"; "q"; "dq"; "tau"; "selected_q"; "selected_qd"; "output_tau"; "wrench"; "source"; "received";
            "state_seq"; "last_command_seq"] d ;;
  inst <-- as_str (arg "instance_id" kv) ;;
  why <-- as_str (default (JStr "") (jget "reason" kv)) ;;
  let vec_of k := opt np_ravel (arg k kv) in
  q0 <-- vec_of "q"%string ;; dq <-- vec_of "dq"%string ;; t <-- vec_of "tau"%string ;;
  sq <-- vec_of "selected_q"%string ;; sqd <-- vec_of "selected_qd"%string ;; ot <-- vec_of "output_tau"%string ;;
  w <-- vec_of "wrench"%string ;;
  seq <-- opt as_int (arg "state_seq" kv) ;; last <-- opt as_int (arg "last_command_seq" kv) ;;
  RobotState_new {|
    rs_instance_id := inst; rs_validity := va; rs_reason := why; rs_q := q0; rs_dq := dq; rs_tau := t;
    rs_selected_q := sq; rs_selected_qd := sqd; rs_output_tau := ot; rs_wrench := w;
    rs_source := source; rs_received := received; rs_state_seq := seq; rs_last_command_seq := last |}.

#[export] Instance encode_Fault : Encode Fault := fun f =>
  JObj [("code", encode (fault_code f)); ("text", encode (fault_text f)); ("source", encode (fault_source f));
        ("arm_epoch", encode (fault_arm_epoch f))].
(** [Fault( **d)] *)
Definition fault_of (d : json) : result Fault :=
  kv <-- kwargs ["code"; "text"; "source"] ["arm_epoch"] d ;;
  code <-- as_str (arg "code" kv) ;; txt <-- as_str (arg "text" kv) ;; src <-- as_str (arg "source" kv) ;;
  epoch <-- opt as_int (arg "arm_epoch" kv) ;;
  Ok {| fault_code := code; fault_text := txt; fault_source := src; fault_arm_epoch := epoch |}.

#[export] Instance encode_Authority : Encode Authority := fun a =>
  JObj [("lifecycle", encode (lifecycle a)); ("session", encode (session a)); ("arm_epoch", encode (arm_epoch a));
        ("stop_epoch", encode (stop_epoch a)); ("fault", encode (fault a)); ("holding", encode (holding a))].
Definition authority_from (d : json) : result Authority :=
  f <-- (v <-- field "fault" d ;; opt fault_of v) ;;
  l <-- (v <-- field "lifecycle" d ;; member v) ;;
  s <-- (v <-- field "session" d ;; opt as_str v) ;;
  arm <-- (v <-- field "arm_epoch" d ;; to_int v) ;;
  stop <-- (v <-- field "stop_epoch" d ;; to_int v) ;;
  h <-- (v <-- field "holding" d ;; opt as_bool v) ;;
  Authority_new {| lifecycle := l; session := s; arm_epoch := arm; stop_epoch := stop; fault := f; holding := h |}.

(** ** Requests *)

#[export] Instance encode_JointTrajectory : Encode JointTrajectory := fun t =>
  JObj [("times", encode (times t)); ("positions", encode (positions t)); ("velocities", encode (velocities t))].
(** [JointTrajectory(times, positions, velocities)] *)
Definition trajectory_of (ts ps vs : json) : result JointTrajectory :=
  ts <-- np_1d ts ;; ps <-- np_2d ps ;; vs <-- opt np_2d vs ;; JointTrajectory_new ts ps vs.
(** [JointTrajectory( **t)] *)
Definition trajectory_from (t : json) : result JointTrajectory :=
  kv <-- kwargs ["times"; "positions"] ["velocities"] t ;; trajectory_of (arg "times" kv) (arg "positions" kv) (arg "velocities" kv).

#[export] Instance encode_JointGains : Encode JointGains := fun g =>
  JObj [("kp", encode (gains_kp g)); ("kd", encode (gains_kd g))].
Definition gains_from (d : json) : result JointGains :=
  kv <-- kwargs ["kp"; "kd"] [] d ;; kp <-- np_ravel (arg "kp" kv) ;; kd <-- np_ravel (arg "kd" kv) ;; JointGains_new kp kd.

#[export] Instance encode_Completion : Encode Completion := fun c =>
  JObj [("vel_tol", encode (vel_tol c)); ("goal_q", encode (goal_q c)); ("residual_max", encode (residual_max c))].
Definition completion_from (d : json) : result Completion :=
  kv <-- kwargs ["vel_tol"] ["goal_q"; "residual_max"] d ;;
  tol <-- as_num (arg "vel_tol" kv) ;; g <-- opt np_ravel (arg "goal_q" kv) ;; r <-- opt as_num (arg "residual_max" kv) ;;
  Completion_new {| vel_tol := tol; goal_q := g; residual_max := r |}.

#[export] Instance encode_CartesianImpedance : Encode CartesianImpedance := fun c =>
  JObj [("task_R", encode (task_R c)); ("kc", encode (kc c)); ("dc", encode (dc c))].
Definition cartesian_from (d : json) : result CartesianImpedance :=
  kv <-- kwargs ["task_R"; "kc"; "dc"] [] d ;;
  r <-- np_2d (arg "task_R" kv) ;; k <-- np_ravel (arg "kc" kv) ;; d <-- np_ravel (arg "dc" kv) ;; CartesianImpedance_new r k d.

#[export] Instance encode_TrajectoryRequest : Encode TrajectoryRequest := fun r =>
  JObj [("request_id", encode (request_id r)); ("instance_id", encode (req_instance_id r));
        ("joint_names", encode (req_joint_names r)); ("trajectory", encode (trajectory r)); ("profile", encode (profile r));
        ("gains", encode (gains r)); ("model_token", encode (model_token r)); ("start", encode (start r));
        ("admit_by", encode (admit_by r)); ("completion", encode (completion r)); ("supersedes", encode (supersedes r));
        ("cartesian", encode (cartesian r))].
(** A request without a ["cartesian"] key is from before that field. *)
Definition request_from (d : json) : result TrajectoryRequest :=
  t <-- field "trajectory" d ;;
  g <-- (v <-- field "gains" d ;; opt gains_from v) ;;
  c <-- (v <-- field "completion" d ;; opt completion_from v) ;;
  rid <-- (v <-- field "request_id" d ;; as_str v) ;;
  inst <-- (v <-- field "instance_id" d ;; as_str v) ;;
  names <-- (v <-- field "joint_names" d ;; tuple_of as_str v) ;;
  tr <-- (ts <-- field "times" t ;; ps <-- field "positions" t ;; vs <-- field "velocities" t ;; trajectory_of ts ps vs) ;;
  prof <-- (v <-- field "profile" d ;; as_str v) ;;
  token <-- (v <-- field "model_token" d ;; opt as_str v) ;;
  st <-- (v <-- field "start" d ;; member v) ;;
  by_ <-- (v <-- field "admit_by" d ;; stamp_from v) ;;
  sup <-- (v <-- field "supersedes" d ;; opt as_str v) ;;
  cart <-- (v <-- field_get "cartesian" d ;; opt cartesian_from v) ;;
  TrajectoryRequest_new {|
    request_id := rid; req_instance_id := inst; req_joint_names := names; trajectory := tr; profile := prof; gains := g;
    model_token := token; start := st; admit_by := by_; completion := c; supersedes := sup; cartesian := cart |}.

(** ** Status, receipts *)

#[export] Instance encode_ExecutionStatus : Encode ExecutionStatus := fun s =>
  JObj [("execution_id", encode (execution_id s)); ("request_id", encode (es_request_id s));
        ("instance_id", encode (es_instance_id s)); ("phase", encode (phase s)); ("reached", encode (reached s));
        ("reason", encode (reason s))].
(** [{Phase(k): stamp_from(v) for k, v in d.items()}]; a stamp that is [None] has no place in the type. *)
Definition reached_from (d : json) : result (gmap Phase Stamp) :=
  kv <-- items_of stamp_of d ;;
  kv <-- rmap (fun x => p <-- member (JStr x.1) ;; Ok (p, x.2)) kv ;;
  Ok (list_to_map kv).
Definition status_from (d : json) : result ExecutionStatus :=
  eid <-- (v <-- field "execution_id" d ;; as_str v) ;;
  rid <-- (v <-- field "request_id" d ;; as_str v) ;;
  inst <-- (v <-- field "instance_id" d ;; as_str v) ;;
  ph <-- (v <-- field "phase" d ;; member v) ;;
  seen <-- (v <-- field "reached" d ;; reached_from v) ;;
  why <-- (v <-- field "reason" d ;; as_str v) ;;
  Ok {| execution_id := eid; es_request_id := rid; es_instance_id := inst; phase := ph; reached := seen; reason := why |}.

#[export] Instance encode_evidence : Encode evidence_value := fun v =>
  match v with EvInt n => encode n | EvFloat x => encode x | EvStr s => encode s end.
Definition evidence_of (j : json) : result evidence_value :=
  match j with
  | JInt n => Ok (EvInt n)
  | JNum x => Ok (EvFloat x)
  | JStr s => Ok (EvStr s)
  | _ => Err (TypeError "neither a number nor text")
  end.
#[export] Instance encode_Receipt : Encode Receipt := fun r =>
  JObj [("execution_id", encode (rc_execution_id r)); ("request_id", encode (rc_request_id r));
        ("instance_id", encode (rc_instance_id r)); ("phase", encode (rc_phase r)); ("at", encode (rc_at r));
        ("reason", encode (rc_reason r)); ("evidence", encode (rc_evidence r))].
Definition receipt_from (d : json) : result Receipt :=
  eid <-- (v <-- field "execution_id" d ;; as_str v) ;;
  rid <-- (v <-- field "request_id" d ;; as_str v) ;;
  inst <-- (v <-- field "instance_id" d ;; as_str v) ;;
  ph <-- (v <-- field "phase" d ;; member v) ;;
  at_ <-- (v <-- field "at" d ;; stamp_of v) ;;
  why <-- (v <-- field "reason" d ;; as_str v) ;;
  ev <-- (v <-- field "evidence" d ;; kv <-- items_of evidence_of v ;; Ok (list_to_map kv)) ;;
  Receipt_new {| rc_execution_id := eid; rc_request_id := rid; rc_instance_id := inst; rc_phase := ph; rc_at := at_;
                 rc_reason := why; rc_evidence := ev |}.

(** ** Stream values *)

#[export] Instance encode_StreamOpen : Encode StreamOpen := fun o =>
  JObj [("request_id", encode (so_request_id o)); ("open_seq", encode (open_seq o)); ("instance_id", encode (so_instance_id o));
        ("joint_names", encode (so_joint_names o)); ("model_token", encode (so_model_token o));
        ("scene_token", encode (so_scene_token o)); ("stream_policy_id", encode (stream_policy_id o));
        ("initial", encode (initial o)); ("start", encode (so_start o)); ("admit_by", encode (so_admit_by o))].
Definition stream_open_from (d : json) : result StreamOpen :=
  t <-- field "initial" d ;;
  rid <-- (v <-- field "request_id" d ;; as_str v) ;;
  seq <-- (v <-- field "open_seq" d ;; as_int v) ;;
  inst <-- (v <-- field "instance_id" d ;; as_str v) ;;
  names <-- (v <-- field "joint_names" d ;; tuple_of as_str v) ;;
  token <-- (v <-- field "model_token" d ;; as_str v) ;;
  scene <-- (v <-- field "scene_token" d ;; as_str v) ;;
  pol <-- (v <-- field "stream_policy_id" d ;; as_str v) ;;
  tr <-- trajectory_from t ;;
  st <-- (v <-- field "start" d ;; member v) ;;
  by_ <-- (v <-- field "admit_by" d ;; stamp_from v) ;;
  StreamOpen_new {| so_request_id := rid; open_seq := seq; so_instance_id := inst; so_joint_names := names;
                    so_model_token := token; so_scene_token := scene; stream_policy_id := pol; initial := tr;
                    so_start := st; so_admit_by := by_ |}.

#[export] Instance encode_StreamRevision : Encode StreamRevision := fun r =>
  JObj [("request_id", encode (sr_request_id r)); ("execution_id", encode (sr_execution_id r));
        ("proposal_seq", encode (proposal_seq r)); ("expected_revision", encode (expected_revision r));
        ("anchor_id", encode (sr_anchor_id r)); ("scene_token", encode (sr_scene_token r)); ("suffix", encode (suffix r));
        ("terminal", encode (sr_terminal r)); ("admit_by", encode (sr_admit_by r))].
Definition stream_revision_from (d : json) : result StreamRevision :=
  tr <-- (v <-- field "suffix" d ;; trajectory_from v) ;;
  by_ <-- (v <-- field "admit_by" d ;; stamp_from v) ;;
  kv <-- kwargs ["request_id"; "execution_id"; "proposal_seq"; "expected_revision"; "anchor_id"; "scene_token"; "suffix"]
           ["terminal"; "admit_by"] d ;;
  rid <-- as_str (arg "request_id" kv) ;; eid <-- as_str (arg "execution_id" kv) ;;
  seq <-- as_int (arg "proposal_seq" kv) ;; rev <-- as_int (arg "expected_revision" kv) ;;
  anchor <-- as_str (arg "anchor_id" kv) ;; scene <-- as_str (arg "scene_token" kv) ;;
  final <-- as_bool (default (JBool false) (jget "terminal" kv)) ;;
  StreamRevision_new {| sr_request_id := rid; sr_execution_id := eid; proposal_seq := seq; expected_revision := rev;
                        sr_anchor_id := anchor; sr_scene_token := scene; suffix := tr; sr_terminal := final; sr_admit_by := by_ |}.

#[export] Instance encode_SpliceAnchor : Encode SpliceAnchor := fun a =>
  JObj [("anchor_id", encode (anchor_id a)); ("expected_revision", encode (sa_expected_revision a));
        ("cut_phase", encode (cut_phase a)); ("q", encode (sa_q a)); ("qd", encode (sa_qd a));
        ("issued_at", encode (issued_at a)); ("expires_at", encode (expires_at a))].
Definition anchor_of (d : json) : result SpliceAnchor :=
  issued <-- (v <-- field "issued_at" d ;; stamp_of v) ;;
  expires <-- (v <-- field "expires_at" d ;; stamp_of v) ;;
  kv <-- kwargs ["anchor_id"; "expected_revision"; "cut_phase"; "q"; "qd"; "issued_at"; "expires_at"] [] d ;;
  id <-- as_str (arg "anchor_id" kv) ;; rev <-- as_int (arg "expected_revision" kv) ;; cut <-- as_num (arg "cut_phase" kv) ;;
  q0 <-- tuple_of to_float (arg "q" kv) ;; qd <-- tuple_of to_float (arg "qd" kv) ;;
  SpliceAnchor_new {| anchor_id := id; sa_expected_revision := rev; cut_phase := cut; sa_q := q0; sa_qd := qd;
                      issued_at := issued; expires_at := expires |}.
Definition anchor_from (d : json) : result (option SpliceAnchor) := opt anchor_of d.

#[export] Instance encode_RevisionStatus : Encode RevisionStatus := fun r =>
  JObj [("execution_id", encode (rv_execution_id r)); ("request_id", encode (rv_request_id r));
        ("expected_revision", encode (rv_expected_revision r)); ("revision", encode (rv_revision r));
        ("phase", encode (rv_phase r)); ("selection_state", encode (rv_selection_state r)); ("at", encode (rv_at r));
        ("reason", encode (rv_reason r))].
Definition revision_status_from (d : json) : result RevisionStatus :=
  ph <-- (v <-- field "phase" d ;; member v) ;;
  sel <-- (v <-- field "selection_state" d ;; member v) ;;
  at_ <-- (v <-- field "at" d ;; stamp_of v) ;;
  kv <-- kwargs ["execution_id"; "request_id"; "expected_revision"; "revision"; "phase"; "selection_state"; "at"] ["reason"] d ;;
  eid <-- as_str (arg "execution_id" kv) ;; rid <-- as_str (arg "request_id" kv) ;;
  expected <-- opt as_int (arg "expected_revision" kv) ;; rev <-- opt as_int (arg "revision" kv) ;;
  why <-- as_str (default (JStr "") (jget "reason" kv)) ;;
  Ok {| rv_execution_id := eid; rv_request_id := rid; rv_expected_revision := expected; rv_revision := rev; rv_phase := ph;
        rv_selection_state := sel; rv_at := at_; rv_reason := why |}.

#[export] Instance encode_StreamView : Encode StreamView := fun v =>
  JObj [("execution", encode (sv_execution v)); ("model_token", encode (sv_model_token v));
        ("scene_token", encode (sv_scene_token v)); ("stream_policy_id", encode (sv_stream_policy_id v));
        ("selected_reference_id", encode (selected_reference_id v)); ("selected_revision", encode (selected_revision v));
        ("selected_phase", encode (selected_phase v)); ("protected_until", encode (protected_until v));
        ("selected_end_phase", encode (selected_end_phase v)); ("selected_terminal", encode (selected_terminal v));
        ("pending_request_id", encode (pending_request_id v)); ("pending_revision", encode (pending_revision v));
        ("splice", encode (sv_splice v))].
Definition stream_view_from (d : json) : result StreamView :=
  ex <-- (v <-- field "execution" d ;; status_from v) ;;
  sp <-- (v <-- field "splice" d ;; anchor_from v) ;;
  kv <-- kwargs ["execution"; "model_token"; "scene_token"; "stream_policy_id"]
           ["selected_reference_id"; "selected_revision"; "selected_phase"; "protected_until"; "selected_end_phase";
            "selected_terminal"; "pending_request_id"; "pending_revision"; "splice"] d ;;
  token <-- as_str (arg "model_token" kv) ;; scene <-- as_str (arg "scene_token" kv) ;; pol <-- as_str (arg "stream_policy_id" kv) ;;
  rid <-- opt as_int (arg "selected_reference_id" kv) ;; rev <-- opt as_int (arg "selected_revision" kv) ;;
  ph <-- opt as_num (arg "selected_phase" kv) ;; prot <-- opt as_num (arg "protected_until" kv) ;;
  fin <-- opt as_num (arg "selected_end_phase" kv) ;; term <-- opt as_bool (arg "selected_terminal" kv) ;;
  preq <-- opt as_str (arg "pending_request_id" kv) ;; prev <-- opt as_int (arg "pending_revision" kv) ;;
  Ok {| sv_execution := ex; sv_model_token := token; sv_scene_token := scene; sv_stream_policy_id := pol;
        selected_reference_id := rid; selected_revision := rev; selected_phase := ph; protected_until := prot;
        selected_end_phase := fin; selected_terminal := term; pending_request_id := preq; pending_revision := prev;
        sv_splice := sp |}.

(** ** Controller values *)

#[export] Instance encode_PayloadValue : Encode PayloadValue := fun p =>
  JObj [("mass_kg", encode (mass_kg p)); ("com_ee", encode (com_ee p))].
Definition payload_from (d : json) : result PayloadValue :=
  kv <-- kwargs ["mass_kg"] ["com_ee"] d ;;
  m <-- to_float (arg "mass_kg" kv) ;;
  c <-- (if f0 <f m then opt (tuple_of to_float) (arg "com_ee" kv) else Ok None) ;; PayloadValue_new m c.
#[export] Instance encode_PayloadState : Encode PayloadState := fun p =>
  JObj [("revision", encode (pl_revision p)); ("value", encode (pl_value p))].
Definition payload_state_from (d : json) : result PayloadState :=
  rev <-- (v <-- field "revision" d ;; as_int v) ;;
  p <-- (v <-- field "value" d ;; payload_from v) ;;
  Ok {| pl_revision := rev; pl_value := p |}.
#[export] Instance encode_ControllerPreset : Encode ControllerPreset := fun p =>
  JObj [("id", encode (preset_id p)); ("law", encode (law p))].
Definition preset_from (d : json) : result ControllerPreset :=
  kv <-- kwargs ["id"; "law"] [] d ;;
  id <-- as_str (arg "id" kv) ;; l <-- as_str (arg "law" kv) ;; ControllerPreset_new {| preset_id := id; law := l |}.
#[export] Instance encode_ControllerState : Encode ControllerState := fun c =>
  JObj [("law", encode (ct_law c)); ("preset_id", encode (ct_preset_id c)); ("kp", encode (ct_kp c)); ("kd", encode (ct_kd c));
        ("payload", encode (ct_payload c))].
Definition controller_state_from (d : json) : result ControllerState :=
  p <-- (v <-- field "payload" d ;; payload_state_from v) ;;
  kv <-- kwargs ["law"; "preset_id"; "kp"; "kd"; "payload"] [] d ;;
  l <-- as_str (arg "law" kv) ;; id <-- opt as_str (arg "preset_id" kv) ;;
  kp <-- tuple_of as_num (arg "kp" kv) ;; kd <-- tuple_of as_num (arg "kd" kv) ;;
  Ok {| ct_law := l; ct_preset_id := id; ct_kp := kp; ct_kd := kd; ct_payload := p |}.
