(* ===== verification/CodecFacts.v ===== *)
(** What the contract codec keeps: decoding yields only values the constructors
    accept ([*_sound]), and every such value survives its encoding ([Lossless]).

    [valid_*] collects, for a value and its parts, that the constructor of each
    accepts it and leaves it as it is. *)
From Stdlib Require Import SpecFloat PrimFloat FloatOps.
From S2P Require Import Prelude Floats Motion Contract Stream Json Codec.

(** ** Validity *)

Definition valid_stamp (s : Stamp) : Prop := Stamp_new (ns s) (clock s) (domain s) = Ok s.
Definition valid_identity (i : RobotIdentity) : Prop :=
  RobotIdentity_new (instance_id i) (joint_names i) (backend i) (model_id i) = Ok i.
Definition valid_trajectory (t : JointTrajectory) : Prop := JointTrajectory_new (times t) (positions t) (velocities t) = Ok t.
Definition valid_gains (g : JointGains) : Prop := JointGains_new (gains_kp g) (gains_kd g) = Ok g.
Definition valid_cartesian (c : CartesianImpedance) : Prop := CartesianImpedance_new (task_R c) (kc c) (dc c) = Ok c.
Definition valid_payload (p : PayloadValue) : Prop := PayloadValue_new (mass_kg p) (com_ee p) = Ok p.

Record valid_state (r : RobotState) : Prop := {
  vs_new : made_by RobotState_new r;
  vs_source : opt_all valid_stamp (rs_source r);
  vs_received : opt_all valid_stamp (rs_received r);
}.
Record valid_request (r : TrajectoryRequest) : Prop := {
  vr_new : made_by TrajectoryRequest_new r;
  vr_trajectory : valid_trajectory (trajectory r);
  vr_gains : opt_all valid_gains (gains r);
  vr_completion : opt_all (made_by Completion_new) (completion r);
  vr_cartesian : opt_all valid_cartesian (cartesian r);
  vr_admit_by : opt_all valid_stamp (admit_by r);
}.
Definition valid_status (s : ExecutionStatus) : Prop := map_Forall (fun _ => valid_stamp) (reached s).
Record valid_receipt (r : Receipt) : Prop := { vc_new : made_by Receipt_new r; vc_at : valid_stamp (rc_at r) }.
Record valid_open (o : StreamOpen) : Prop := {
  vo_new : made_by StreamOpen_new o;
  vo_admit_by : opt_all valid_stamp (so_admit_by o);
}.
Record valid_revision (r : StreamRevision) : Prop := {
  vv_new : made_by StreamRevision_new r;
  vv_admit_by : opt_all valid_stamp (sr_admit_by r);
}.
Record valid_anchor (a : SpliceAnchor) : Prop := {
  va_new : made_by SpliceAnchor_new a;
  va_issued : valid_stamp (issued_at a);
  va_expires : valid_stamp (expires_at a);
}.
Record valid_view (v : StreamView) : Prop := {
  vw_execution : valid_status (sv_execution v);
  vw_splice : opt_all valid_anchor (sv_splice v);
}.
Definition valid_revision_status (r : RevisionStatus) : Prop := valid_stamp (rv_at r).
Definition valid_controller_state (c : ControllerState) : Prop := valid_payload (pl_value (ct_payload c)).

(** ** Constructors leave an accepted value as it is *)

Lemma vector_id v n o : vector v n = Ok o -> o = v.
Proof. unfold vector. destruct v; [|by intros [= <-]]. intros H. by inv_ok H. Qed.
Lemma Stamp_new_fields n c d s : Stamp_new n c d = Ok s -> s = mk_Stamp n c d.
Proof. unfold Stamp_new. intros H. by inv_ok H. Qed.
Lemma RobotIdentity_new_fields a b c d i : RobotIdentity_new a b c d = Ok i -> i = Build_RobotIdentity a b c d.
Proof. unfold RobotIdentity_new. intros H. by inv_ok H. Qed.
Lemma Authority_new_id r a : Authority_new r = Ok a -> a = r.
Proof. unfold Authority_new. intros H. by inv_ok H. Qed.
Lemma JointGains_new_fields a b g : JointGains_new a b = Ok g -> g = Build_JointGains a b.
Proof. unfold JointGains_new. intros H. by inv_ok H. Qed.
Lemma Completion_new_id r c : Completion_new r = Ok c -> c = r.
Proof.
  unfold Completion_new. intros H. inv_ok H.
  match goal with H : vector _ _ = Ok _ |- _ => apply vector_id in H as -> end. by destruct r.
Qed.
Lemma Receipt_new_id r a : Receipt_new r = Ok a -> a = r.
Proof.
  unfold Receipt_new. intros H. apply rbind_ok in H as (? & _ & H). apply rbind_ok in H as (? & _ & H). by inv_ok H.
Qed.
Lemma RobotState_new_id r s : RobotState_new r = Ok s -> s = r.
Proof.
  unfold RobotState_new. intros H. destruct (negb _); [by inv_ok H|].
  destruct (rs_q r) as [q0|] eqn:Eq; [|done]. destruct (rs_source r) eqn:Es; [|done]. destruct (rs_received r) eqn:Er; [|done].
  repeat (apply rbind_ok in H as (? & Hv & H); apply vector_id in Hv as ->). injection H as <-.
  destruct r; simpl in *; by subst.
Qed.
Lemma SpliceAnchor_new_id r a : SpliceAnchor_new r = Ok a -> a = r.
Proof.
  unfold SpliceAnchor_new. intros H. do 4 apply rbind_ok in H as (? & _ & H). by inv_ok H.
Qed.
Lemma ControllerPreset_new_id r p : ControllerPreset_new r = Ok p -> p = r.
Proof. unfold ControllerPreset_new. intros H. by inv_ok H. Qed.
Lemma StreamOpen_new_id r o : StreamOpen_new r = Ok o -> o = r.
Proof.
  unfold StreamOpen_new. intros H. do 4 apply rbind_ok in H as (? & _ & H). apply rbind_ok in H as (c & Hc & H).
  apply curve_sound in Hc as [-> _]. apply rbind_ok in H as (? & _ & H). inv_ok H. by destruct r.
Qed.
Lemma StreamRevision_new_id r v : StreamRevision_new r = Ok v -> v = r.
Proof.
  unfold StreamRevision_new. intros H. do 6 apply rbind_ok in H as (? & _ & H). apply rbind_ok in H as (c & Hc & H).
  apply curve_sound in Hc as [-> _]. pass_guard H E. apply rbind_ok in H as (? & _ & H). injection H as <-. by destruct r.
Qed.

Lemma cartesian_shape r k d vs :
  cartesian_values {| cs_frame := "base"; cs_task_R := r; cs_kc := k; cs_dc := d |} = Ok vs ->
  vs = concat r ++ k ++ d /\ length r = 3 /\ Forall (fun row => length row = 3) r /\ length k = 6 /\ length d = 6.
Proof.
  unfold cartesian_values. cbn [cs_frame cs_task_R cs_kc cs_dc]. intros H. pass_guard H E0. pass_guard H E1.
  apply orb_false_iff in E1 as [E1 Ed]. apply orb_false_iff in E1 as [E1 Ek]. apply orb_false_iff in E1 as [Er Erow].
  breflect. inv_ok H. split_and!; [done|done| |done|done].
  apply existsb_false_Forall in Erow. eapply Forall_impl; [exact Erow|]. intros row Hrow. simpl in Hrow. by breflect.
Qed.
Lemma CartesianImpedance_new_fields r k d c : CartesianImpedance_new r k d = Ok c -> c = Build_CartesianImpedance r k d.
Proof.
  unfold CartesianImpedance_new. intros H. apply rbind_ok in H as (vs & Hv & [= <-]).
  apply cartesian_shape in Hv as (-> & Hr & Hrows & Hk & Hd).
  destruct r as [|r1 [|r2 [|r3 [|]]]]; try done. repeat (apply Forall_cons in Hrows as [? Hrows]).
  destruct r1 as [|? [|? [|? [|]]]]; try done. destruct r2 as [|? [|? [|? [|]]]]; try done.
  destruct r3 as [|? [|? [|? [|]]]]; try done. do 6 (destruct k as [|? k]; [done|]). destruct k; [|done].
  do 6 (destruct d as [|? d]; [done|]). by destruct d.
Qed.

Lemma PayloadValue_new_again m c p : PayloadValue_new m c = Ok p -> valid_payload p.
Proof.
  unfold valid_payload, PayloadValue_new. intros H. destruct (negb _ || _) eqn:Em; [done|].
  apply rbind_ok in H as (com & Hc & [= <-]). simpl. rewrite Em.
  destruct c as [v|]; [|by injection Hc as <-]. destruct (f0 <f m) eqn:Ef; [|by injection Hc as <-].
  destruct (negb (length v =? 3) || negb (all_finite v)) eqn:Ev; [done|]. injection Hc as <-. cbn [rbind]. by rewrite Ev.
Qed.

(** ** Decoding yields valid values *)

(** Walks a decoder to its last step, keeping the equation of every field. *)
Ltac decoded H :=
  repeat lazymatch type of H with
  | rbind _ _ = _ => let Hx := fresh "Hf" in apply rbind_ok in H as (? & Hx & H); cbv beta zeta in H
  end.

Lemma opt_sound {A} (from : json -> result A) (P : A -> Prop) d o :
  (forall d a, from d = Ok a -> P a) -> opt from d = Ok o -> opt_all P o.
Proof.
  intros HP H. unfold opt in H. destruct d; [by injection H as <-| ..]; apply rbind_ok in H as (a & Ha & [= <-]); by eapply HP.
Qed.
(** The same for a field whose value is decoded. *)
Lemma field_opt_sound {A} (from : json -> result A) (P : A -> Prop) r o :
  (forall d a, from d = Ok a -> P a) -> (v <-- r ;; opt from v) = Ok o -> opt_all P o.
Proof. intros HP H. apply rbind_ok in H as (v & _ & H). by eapply opt_sound. Qed.
Lemma field_sound {A} (from : json -> result A) (P : A -> Prop) (r : result json) a :
  (forall d a, from d = Ok a -> P a) -> (v <-- r ;; from v) = Ok a -> P a.
Proof. intros HP H. apply rbind_ok in H as (v & _ & H). by eapply HP. Qed.

Lemma stamp_sound d s : stamp_of d = Ok s -> valid_stamp s.
Proof. unfold stamp_of. intros H. decoded H. apply Stamp_new_fields in H as E. by rewrite E in H |- *. Qed.
Lemma stamp_from_sound d o : stamp_from d = Ok o -> opt_all valid_stamp o.
Proof. apply opt_sound, stamp_sound. Qed.
Lemma identity_sound d i : identity_from d = Ok i -> valid_identity i.
Proof. unfold identity_from. intros H. decoded H. apply RobotIdentity_new_fields in H as E. by rewrite E in H |- *. Qed.
Lemma authority_sound d a : authority_from d = Ok a -> made_by Authority_new a.
Proof. unfold authority_from. intros H. decoded H. apply Authority_new_id in H as E. by rewrite <- E in H. Qed.
Lemma trajectory_of_sound ts ps vs t : trajectory_of ts ps vs = Ok t -> valid_trajectory t.
Proof. unfold trajectory_of. intros H. decoded H. apply JointTrajectory_new_id in H as E. by rewrite E in H |- *. Qed.
Lemma trajectory_sound d t : trajectory_from d = Ok t -> valid_trajectory t.
Proof. unfold trajectory_from. intros H. decoded H. by eapply trajectory_of_sound. Qed.
Lemma gains_sound d g : gains_from d = Ok g -> valid_gains g.
Proof. unfold gains_from. intros H. decoded H. apply JointGains_new_fields in H as E. by rewrite E in H |- *. Qed.
Lemma completion_sound d c : completion_from d = Ok c -> made_by Completion_new c.
Proof. unfold completion_from. intros H. decoded H. apply Completion_new_id in H as E. by rewrite <- E in H. Qed.
Lemma cartesian_sound d c : cartesian_from d = Ok c -> valid_cartesian c.
Proof. unfold cartesian_from. intros H. decoded H. apply CartesianImpedance_new_fields in H as E. by rewrite E in H |- *. Qed.
Lemma state_sound d s : state_from d = Ok s -> valid_state s.
Proof.
  unfold state_from. intros H. apply rbind_ok in H as (va & _ & H). apply rbind_ok in H as (source & Hs & H).
  apply rbind_ok in H as (received & Hr & H). decoded H. apply RobotState_new_id in H as E. split.
  - by rewrite <- E in H.
  - rewrite E. by eapply field_sound; [apply stamp_from_sound|].
  - rewrite E. by eapply field_sound; [apply stamp_from_sound|].
Qed.

(** A decoded request is one its constructor, and those of its parts, accept. *)
Lemma request_sound d r : request_from d = Ok r -> valid_request r.
Proof.
  unfold request_from. intros H. apply rbind_ok in H as (t & _ & H). apply rbind_ok in H as (g & Hg & H).
  apply rbind_ok in H as (c & Hc & H). do 3 apply rbind_ok in H as (? & _ & H). apply rbind_ok in H as (tr & Ht & H).
  do 3 apply rbind_ok in H as (? & _ & H). apply rbind_ok in H as (by_ & Hb & H). apply rbind_ok in H as (? & _ & H).
  apply rbind_ok in H as (cart & Hk & H). apply TrajectoryRequest_new_id in H as E. split.
  - by rewrite <- E in H.
  - rewrite E. cbn [trajectory]. decoded Ht. by eapply trajectory_of_sound.
  - rewrite E. by eapply field_opt_sound; [apply gains_sound|].
  - rewrite E. by eapply field_opt_sound; [apply completion_sound|].
  - rewrite E. by eapply field_opt_sound; [apply cartesian_sound|].
  - rewrite E. by eapply field_sound; [apply stamp_from_sound|].
Qed.

Lemma receipt_sound d r : receipt_from d = Ok r -> valid_receipt r.
Proof.
  unfold receipt_from. intros H. do 4 apply rbind_ok in H as (? & _ & H). apply rbind_ok in H as (at_ & Ha & H).
  do 2 apply rbind_ok in H as (? & _ & H). apply Receipt_new_id in H as E. split; [by rewrite <- E in H|].
  rewrite E. by eapply field_sound; [apply stamp_sound|].
Qed.
Lemma items_of_sound {A} (from : json -> result A) (P : A -> Prop) d l :
  (forall d a, from d = Ok a -> P a) -> items_of from d = Ok l -> Forall (fun x => P x.2) l.
Proof.
  intros HP. unfold items_of. destruct d; try done. intros H. apply rmap_ok_Forall2 in H.
  induction H as [|x y l l' Hx H IH]; constructor; [|done]. apply rbind_ok in Hx as (a & Ha & [= <-]). by eapply HP.
Qed.
Lemma status_sound d s : status_from d = Ok s -> valid_status s.
Proof.
  unfold status_from. intros H. do 4 apply rbind_ok in H as (? & _ & H). apply rbind_ok in H as (seen & Hs & H).
  apply rbind_ok in H as (? & _ & [= <-]). unfold valid_status. cbn [reached].
  apply rbind_ok in Hs as (v & _ & Hs). unfold reached_from in Hs. apply rbind_ok in Hs as (kv & Hkv & Hs).
  apply rbind_ok in Hs as (kv' & Hkv' & [= <-]). apply (items_of_sound _ _ _ _ stamp_sound) in Hkv.
  apply rmap_ok_Forall2 in Hkv'. intros p st Hp. apply elem_of_list_to_map_2 in Hp.
  clear -Hkv Hkv' Hp. induction Hkv' as [|x y l l' Hx H IH]; [by apply elem_of_nil in Hp|].
  apply Forall_cons in Hkv as [Hk Hkv]. apply rbind_ok in Hx as (q & _ & [= <-]).
  apply elem_of_cons in Hp as [[= -> ->]|Hp]; [done|by apply IH].
Qed.
Lemma stream_open_sound d o : stream_open_from d = Ok o -> valid_open o.
Proof.
  unfold stream_open_from. intros H. do 10 apply rbind_ok in H as (? & _ & H). apply rbind_ok in H as (by_ & Hb & H).
  apply StreamOpen_new_id in H as E. split; [by rewrite <- E in H|]. rewrite E. by eapply field_sound; [apply stamp_from_sound|].
Qed.
Lemma stream_revision_sound d r : stream_revision_from d = Ok r -> valid_revision r.
Proof.
  unfold stream_revision_from. intros H. apply rbind_ok in H as (? & _ & H). apply rbind_ok in H as (by_ & Hb & H). decoded H.
  apply StreamRevision_new_id in H as E. split; [by rewrite <- E in H|]. rewrite E. by eapply field_sound; [apply stamp_from_sound|].
Qed.
Lemma anchor_sound d a : anchor_of d = Ok a -> valid_anchor a.
Proof.
  unfold anchor_of. intros H. apply rbind_ok in H as (i & Hi & H). apply rbind_ok in H as (e & He & H). decoded H.
  apply SpliceAnchor_new_id in H as E. split; [by rewrite <- E in H| |];
    rewrite E; by eapply field_sound; [apply stamp_sound|].
Qed.
Lemma revision_status_sound d r : revision_status_from d = Ok r -> valid_revision_status r.
Proof.
  unfold revision_status_from. intros H. do 2 apply rbind_ok in H as (? & _ & H). apply rbind_ok in H as (at_ & Ha & H). decoded H.
  injection H as <-. exact (field_sound stamp_of valid_stamp _ _ stamp_sound Ha).
Qed.
Lemma stream_view_sound d v : stream_view_from d = Ok v -> valid_view v.
Proof.
  unfold stream_view_from. intros H. apply rbind_ok in H as (ex & He & H). apply rbind_ok in H as (sp & Hs & H). decoded H.
  injection H as <-. split; [exact (field_sound status_from valid_status _ _ status_sound He)|].
  exact (field_opt_sound anchor_of valid_anchor _ _ anchor_sound Hs).
Qed.
Lemma payload_sound d p : payload_from d = Ok p -> valid_payload p.
Proof. unfold payload_from. intros H. decoded H. by eapply PayloadValue_new_again. Qed.
Lemma payload_state_sound d p : payload_state_from d = Ok p -> valid_payload (pl_value p).
Proof.
  unfold payload_state_from. intros H. apply rbind_ok in H as (? & _ & H). apply rbind_ok in H as (p' & Hp & [= <-]).
  exact (field_sound payload_from valid_payload _ _ payload_sound Hp).
Qed.
Lemma preset_sound d p : preset_from d = Ok p -> made_by ControllerPreset_new p.
Proof. unfold preset_from. intros H. decoded H. apply ControllerPreset_new_id in H as E. by rewrite <- E in H. Qed.
Lemma controller_state_sound d c : controller_state_from d = Ok c -> valid_controller_state c.
Proof.
  unfold controller_state_from. intros H. apply rbind_ok in H as (p & Hp & H). decoded H. injection H as <-.
  exact (field_sound payload_state_from (fun p => valid_payload (pl_value p)) _ _ payload_state_sound Hp).
Qed.

(** ** Valid values survive their encoding *)

(** Reads the fields of an object that was just written. *)
Ltac fields :=
  cbn [field field_get jget has_key kwargs arg is_some existsb app orb negb fst snd rbind from_option id
       String.eqb Ascii.eqb Bool.eqb andb].

#[export] Instance present_stamp : Present Stamp.
Proof. done. Qed.
#[export] Instance present_fault : Present Fault.
Proof. done. Qed.
#[export] Instance present_gains : Present JointGains.
Proof. done. Qed.
#[export] Instance present_completion : Present Completion.
Proof. done. Qed.
#[export] Instance present_cartesian : Present CartesianImpedance.
Proof. done. Qed.
#[export] Instance present_anchor : Present SpliceAnchor.
Proof. done. Qed.

Lemma opt_strings (o : option string) : opt as_str (encode o) = Ok o.
Proof. by destruct o. Qed.
Lemma opt_ints (o : option Z) : opt as_int (encode o) = Ok o.
Proof. by destruct o. Qed.
Lemma opt_bools (o : option bool) : opt as_bool (encode o) = Ok o.
Proof. by destruct o. Qed.
Lemma opt_nums (o : option float) : opt as_num (encode o) = Ok o.
Proof. by destruct o. Qed.
#[export] Instance lossless_vec : Lossless (A:=vec) np_ravel any.
Proof. intros v _. apply np_ravel_back. Qed.
Lemma opt_vecs (o : option vec) : opt np_ravel (encode o) = Ok o.
Proof. apply (lossless_opt np_ravel any). by destruct o. Qed.
Lemma str_back (s : string) : as_str (encode s) = Ok s.
Proof. done. Qed.
Lemma int_back (n : Z) : as_int (encode n) = Ok n.
Proof. done. Qed.
Lemma bool_back (b : bool) : as_bool (encode b) = Ok b.
Proof. done. Qed.
Lemma num_back (x : float) : as_num (encode x) = Ok x.
Proof. done. Qed.
Lemma float_back (x : float) : to_float (encode x) = Ok x.
Proof. done. Qed.
Lemma to_int_back (n : Z) : to_int (encode n) = Ok n.
Proof. done. Qed.
Lemma to_str_back (s : string) : to_str (encode s) = Ok s.
Proof. done. Qed.
Lemma floats_back (v : vec) : tuple_of to_float (encode v) = Ok v.
Proof. unfold tuple_of, encode, encode_list. induction v as [|x v IH]; [done|]. cbn [map rmap]. by rewrite IH. Qed.
Lemma nums_back (v : vec) : tuple_of as_num (encode v) = Ok v.
Proof. unfold tuple_of, encode, encode_list. induction v as [|x v IH]; [done|]. cbn [map rmap]. by rewrite IH. Qed.
#[export] Hint Rewrite opt_strings opt_ints opt_bools opt_nums opt_vecs str_back int_back bool_back num_back float_back to_int_back
  to_str_back floats_back nums_back np_ravel_back np_1d_back strings_back : codec.

Lemma clock_back (c : Clock) : member (encode c) = Ok c.
Proof. by destruct c. Qed.
Lemma validity_back (v : Validity) : member (encode v) = Ok v.
Proof. by destruct v. Qed.
Lemma lifecycle_back (l : Lifecycle) : member (encode l) = Ok l.
Proof. by destruct l. Qed.
Lemma start_back (s : Start) : member (encode s) = Ok s.
Proof. by destruct s. Qed.
Lemma phase_back (p : Phase) : member (encode p) = Ok p.
Proof. by destruct p. Qed.
Lemma selection_back (s : SelectionState) : member (encode s) = Ok s.
Proof. by destruct s. Qed.
#[export] Hint Rewrite clock_back validity_back lifecycle_back start_back phase_back selection_back : codec.

(** The steps of every proof below: read the fields, decode each. *)
Ltac back := fields; autorewrite with codec; cbn [rbind].

#[export] Instance lossless_stamp : Lossless stamp_of valid_stamp.
Proof. intros s Hs. unfold stamp_of. change (encode s) with (encode_Stamp s). unfold encode_Stamp. back. exact Hs. Qed.
Lemma stamp_back (o : option Stamp) : opt_all valid_stamp o -> stamp_from (encode o) = Ok o.
Proof. apply (lossless_opt stamp_of valid_stamp). Qed.
#[export] Instance lossless_identity : Lossless identity_from valid_identity.
Proof. intros i Hi. unfold identity_from. change (encode i) with (encode_RobotIdentity i). unfold encode_RobotIdentity. back. exact Hi. Qed.
#[export] Instance lossless_capabilities : Lossless capabilities_from any.
Proof.
  intros c _. unfold capabilities_from. change (encode c) with (encode_Capabilities c). unfold encode_Capabilities. back. by destruct c.
Qed.
#[export] Instance lossless_fault : Lossless fault_of any.
Proof. intros f _. unfold fault_of. change (encode f) with (encode_Fault f). unfold encode_Fault. back. by destruct f. Qed.
Lemma fault_back (o : option Fault) : opt fault_of (encode o) = Ok o.
Proof. apply (lossless_opt fault_of any). by destruct o. Qed.
#[export] Instance lossless_authority : Lossless authority_from (made_by Authority_new).
Proof.
  intros a Ha. unfold authority_from. change (encode a) with (encode_Authority a). unfold encode_Authority.
  fields. rewrite fault_back. back. destruct a. exact Ha.
Qed.
#[export] Instance lossless_state : Lossless state_from valid_state.
Proof.
  intros r [Hn Hs Hr]. unfold state_from. change (encode r) with (encode_RobotState r). unfold encode_RobotState.
  fields. rewrite !stamp_back by done. back. destruct r. exact Hn.
Qed.

Lemma same_shape_rectangular (v p : mat) : same_shape v p = true -> p <> [] -> rectangular v = true /\ v <> [].
Proof.
  unfold same_shape. intros H Hp. apply andb_true_iff in H as [Hl Hc]. apply Nat.eqb_eq in Hl. apply forallb_Forall in Hc.
  destruct v as [|r v]; [by destruct p|]. split; [|done]. apply Forall_cons in Hc as [H1 H2]. apply forallb_Forall.
  eapply Forall_impl; [exact H2|]. intros x Hx. simpl in *. apply Nat.eqb_eq in H1, Hx. apply Nat.eqb_eq. congruence.
Qed.
Lemma trajectory_shape t : valid_trajectory t ->
  rectangular (positions t) = true /\ positions t <> [] /\
  forall v, velocities t = Some v -> rectangular v = true /\ v <> [].
Proof.
  unfold valid_trajectory, JointTrajectory_new. intros H. pass_guard H E1. pass_guard H E2. pass_guard H E3. pass_guard H E4.
  pass_guard H E5. breflect. assert (positions t <> []) as Hne.
  { intros E. rewrite E in E2. simpl in E2. apply Nat.ltb_ge in E3. lia. }
  split_and!; [done|done|]. intros v Ev. rewrite Ev in E5. breflect. by apply (same_shape_rectangular _ (positions t)).
Qed.
Lemma trajectory_of_back t : valid_trajectory t ->
  trajectory_of (encode (times t)) (encode (positions t)) (encode (velocities t)) = Ok t.
Proof.
  intros Ht. destruct (trajectory_shape t Ht) as (Hr & Hne & Hv). unfold trajectory_of.
  rewrite np_1d_back, np_2d_back by done. cbn [rbind].
  assert (opt np_2d (encode (velocities t)) = Ok (velocities t)) as ->.
  { destruct (velocities t) as [v|]; [|done]. destruct (Hv v eq_refl). change (opt np_2d (encode v) = Ok (Some v)).
    change (opt np_2d (encode v)) with (a <-- np_2d (encode v) ;; Ok (Some a)). by rewrite np_2d_back. }
  exact Ht.
Qed.
#[export] Instance lossless_trajectory : Lossless trajectory_from valid_trajectory.
Proof.
  intros t Ht. unfold trajectory_from. change (encode t) with (encode_JointTrajectory t). unfold encode_JointTrajectory.
  fields. by apply trajectory_of_back.
Qed.
#[export] Instance lossless_gains : Lossless gains_from valid_gains.
Proof. intros g Hg. unfold gains_from. change (encode g) with (encode_JointGains g). unfold encode_JointGains. back. exact Hg. Qed.
#[export] Instance lossless_completion : Lossless completion_from (made_by Completion_new).
Proof.
  intros c Hc. unfold completion_from. change (encode c) with (encode_Completion c). unfold encode_Completion. back.
  destruct c. exact Hc.
Qed.
#[export] Instance lossless_cartesian : Lossless cartesian_from valid_cartesian.
Proof.
  intros c Hc. unfold cartesian_from. change (encode c) with (encode_CartesianImpedance c). unfold encode_CartesianImpedance.
  pose proof Hc as Hv. unfold valid_cartesian, CartesianImpedance_new in Hv. apply rbind_ok in Hv as (vs & Hv & _).
  apply cartesian_shape in Hv as (_ & Hr & Hrows & _ & _). fields. rewrite np_2d_back.
  - back. exact Hc.
  - destruct (task_R c) as [|r m]; [done|]. apply Forall_cons in Hrows as [H1 H2]. apply forallb_Forall.
    eapply Forall_impl; [exact H2|]. intros x Hx. apply Nat.eqb_eq. congruence.
  - by destruct (task_R c).
Qed.

Lemma gains_back (o : option JointGains) : opt_all valid_gains o -> opt gains_from (encode o) = Ok o.
Proof. apply (lossless_opt gains_from valid_gains). Qed.
Lemma completion_back (o : option Completion) : opt_all (made_by Completion_new) o -> opt completion_from (encode o) = Ok o.
Proof. apply (lossless_opt completion_from (made_by Completion_new)). Qed.
Lemma cartesian_back (o : option CartesianImpedance) : opt_all valid_cartesian o -> opt cartesian_from (encode o) = Ok o.
Proof. apply (lossless_opt cartesian_from valid_cartesian). Qed.

#[export] Instance lossless_request : Lossless request_from valid_request.
Proof.
  intros r [Hn Ht Hg Hc Hk Hb]. unfold request_from. change (encode r) with (encode_TrajectoryRequest r).
  unfold encode_TrajectoryRequest. fields. change (encode (trajectory r)) with (encode_JointTrajectory (trajectory r)).
  unfold encode_JointTrajectory. fields. rewrite trajectory_of_back, gains_back, completion_back, cartesian_back, stamp_back by done.
  back. destruct r. exact Hn.
Qed.

Lemma phase_text_back (p : Phase) : member (JStr (key_text p)) = Ok p.
Proof. by destruct p. Qed.
Lemma reached_back (m : gmap Phase Stamp) : map_Forall (fun _ => valid_stamp) m -> reached_from (encode m) = Ok m.
Proof.
  intros Hm. unfold reached_from. apply rbind_ok. exists (map (fun x => (key_text x.1, x.2)) (map_to_list m)).
  apply map_Forall_to_list in Hm. split.
  - unfold encode, encode_dict. cbn [items_of]. induction Hm as [|[p s] l Hs Hl IH]; [done|].
    cbn [map rmap fst snd]. by rewrite (lossless s Hs), IH.
  - apply rbind_ok. exists (map_to_list m). split; [|by rewrite list_to_map_to_list].
    clear Hm. induction (map_to_list m) as [|[p s] l IH]; [done|]. cbn [map rmap fst snd]. by rewrite phase_text_back, IH.
Qed.
#[export] Instance lossless_status : Lossless status_from valid_status.
Proof.
  intros s Hs. unfold status_from. change (encode s) with (encode_ExecutionStatus s). unfold encode_ExecutionStatus. fields.
  rewrite reached_back by done. back. by destruct s.
Qed.
#[export] Instance lossless_evidence : Lossless evidence_of any.
Proof. by intros []. Qed.
#[export] Instance lossless_receipt : Lossless receipt_from valid_receipt.
Proof.
  intros r [Hn Ha]. unfold receipt_from. change (encode r) with (encode_Receipt r). unfold encode_Receipt. fields.
  rewrite (lossless (rc_at r) Ha), (items_back evidence_of any) by done. back. destruct r. exact Hn.
Qed.

Lemma curve_trajectory c t : curve c = Ok t -> valid_trajectory c.
Proof. intros H. apply curve_sound in H as [-> [H _ _ _ _]]. exact H. Qed.
#[export] Instance lossless_open : Lossless stream_open_from valid_open.
Proof.
  intros o [Hn Hb]. unfold stream_open_from. change (encode o) with (encode_StreamOpen o). unfold encode_StreamOpen. fields.
  assert (valid_trajectory (initial o)) as Ht.
  { unfold made_by, StreamOpen_new in Hn. do 4 apply rbind_ok in Hn as (? & _ & Hn). apply rbind_ok in Hn as (c & Hc & _).
    by eapply curve_trajectory. }
  rewrite (lossless (initial o) Ht), stamp_back by done. back. destruct o. exact Hn.
Qed.
#[export] Instance lossless_revision : Lossless stream_revision_from valid_revision.
Proof.
  intros r [Hn Hb]. unfold stream_revision_from. change (encode r) with (encode_StreamRevision r). unfold encode_StreamRevision. fields.
  assert (valid_trajectory (suffix r)) as Ht.
  { unfold made_by, StreamRevision_new in Hn. do 6 apply rbind_ok in Hn as (? & _ & Hn). apply rbind_ok in Hn as (c & Hc & _).
    by eapply curve_trajectory. }
  rewrite (lossless (suffix r) Ht), stamp_back by done. back. destruct r. exact Hn.
Qed.
#[export] Instance lossless_anchor : Lossless anchor_of valid_anchor.
Proof.
  intros a [Hn Hi He]. unfold anchor_of. change (encode a) with (encode_SpliceAnchor a). unfold encode_SpliceAnchor. fields.
  rewrite (lossless (issued_at a) Hi), (lossless (expires_at a) He). back. destruct a. exact Hn.
Qed.
Lemma anchor_back (o : option SpliceAnchor) : opt_all valid_anchor o -> anchor_from (encode o) = Ok o.
Proof. apply (lossless_opt anchor_of valid_anchor). Qed.
#[export] Instance lossless_revision_status : Lossless revision_status_from valid_revision_status.
Proof.
  intros r Hr. unfold revision_status_from. change (encode r) with (encode_RevisionStatus r). unfold encode_RevisionStatus. fields.
  rewrite (lossless (rv_at r) Hr). back. by destruct r.
Qed.
#[export] Instance lossless_view : Lossless stream_view_from valid_view.
Proof.
  intros v [He Hs]. unfold stream_view_from. change (encode v) with (encode_StreamView v). unfold encode_StreamView. fields.
  rewrite (lossless (sv_execution v) He), anchor_back by done. back. by destruct v.
Qed.
#[export] Instance lossless_payload : Lossless payload_from valid_payload.
Proof.
  intros p Hp. unfold payload_from. change (encode p) with (encode_PayloadValue p). unfold encode_PayloadValue. back.
  assert ((if f0 <f mass_kg p then opt (tuple_of to_float) (encode (com_ee p)) else Ok None) = Ok (com_ee p)) as ->; [|exact Hp].
  assert (opt (tuple_of to_float) (encode (com_ee p)) = Ok (com_ee p)) as ->.
  { destruct (com_ee p) as [v|]; [|done]. change (opt (tuple_of to_float) (encode (Some v))) with (a <-- tuple_of to_float (encode v) ;; Ok (Some a)).
    by rewrite floats_back. }
  destruct p as [m c]. cbn [mass_kg com_ee] in *. destruct (f0 <f m) eqn:E; [done|].
  unfold valid_payload, PayloadValue_new in Hp. cbn [mass_kg com_ee] in Hp. destruct (_ || _); [done|].
  destruct c as [v|]; [|done]. by rewrite E in Hp.
Qed.
#[export] Instance lossless_payload_state : Lossless payload_state_from (fun p => valid_payload (pl_value p)).
Proof.
  intros p Hp. unfold payload_state_from. change (encode p) with (encode_PayloadState p). unfold encode_PayloadState. fields.
  rewrite (lossless (pl_value p) Hp). back. by destruct p.
Qed.
#[export] Instance lossless_preset : Lossless preset_from (made_by ControllerPreset_new).
Proof.
  intros p Hp. unfold preset_from. change (encode p) with (encode_ControllerPreset p). unfold encode_ControllerPreset. back.
  destruct p. exact Hp.
Qed.
#[export] Instance lossless_controller_state : Lossless controller_state_from valid_controller_state.
Proof.
  intros c Hc. unfold controller_state_from. change (encode c) with (encode_ControllerState c). unfold encode_ControllerState. fields.
  rewrite (lossless (ct_payload c) Hc). back. by destruct c.
Qed.

(** ** What the codec promises *)

Lemma request_valid r : valid_request r ->
  traj_ok (trajectory r) /\ length (req_joint_names r) = num_joints (trajectory r) /\
  all_finite (times (trajectory r)) = true /\ mat_finite (positions (trajectory r)) = true.
Proof.
  intros [Hn Ht _ _ _ _]. split; [by eapply JointTrajectory_new_ok|].
  unfold made_by, TrajectoryRequest_new in Hn. apply rbind_ok in Hn as (? & _ & Hn). pass_guard Hn E0.
  apply rbind_ok in Hn as (? & _ & Hn). pass_guard Hn E1. pass_guard Hn E2.
  apply negb_false_iff, Nat.eqb_eq in E1. apply orb_false_iff in E2 as [E2 _]. apply orb_false_iff in E2 as [E2 E3].
  by apply negb_false_iff in E2, E3.
Qed.

(** C7: nothing malformed enters through the wire: whatever JSON a request, a stream
    opening, a revision, a payload or a reply is decoded from, the value is one that
    its constructor and those of its parts accept.  A decoded plan has at least two
    knots, as many rows as knots, every row as wide as the named joints, and only
    finite numbers; a stream's curve is within the RT's capacity and finite. *)
Theorem decoding_validates d :
  (forall r, request_from d = Ok r ->
     valid_request r /\ traj_ok (trajectory r) /\ length (req_joint_names r) = num_joints (trajectory r) /\
     all_finite (times (trajectory r)) = true /\ mat_finite (positions (trajectory r)) = true) /\
  (forall o, stream_open_from d = Ok o -> valid_open o /\ curve_ok (initial o) /\ (0 < open_seq o < 2 ^ 64)%Z) /\
  (forall v, stream_revision_from d = Ok v -> valid_revision v /\ curve_ok (suffix v) /\ (0 < proposal_seq v < 2 ^ 64)%Z) /\
  (forall p, payload_from d = Ok p -> valid_payload p) /\
  (forall s, state_from d = Ok s -> valid_state s) /\
  (forall a, authority_from d = Ok a -> made_by Authority_new a) /\
  (forall s, status_from d = Ok s -> valid_status s) /\
  (forall r, receipt_from d = Ok r -> valid_receipt r) /\
  (forall v, stream_view_from d = Ok v -> valid_view v).
Proof.
  split_and!; eauto using payload_sound, state_sound, authority_sound, status_sound, receipt_sound, stream_view_sound.
  - intros r H%request_sound. split; [done|]. by apply request_valid.
  - intros o H%stream_open_sound. pose proof (StreamOpen_new_sound o o (vo_new _ H)) as (_ & Hc & _ & Hs & _). done.
  - intros v H%stream_revision_sound. pose proof (StreamRevision_new_sound v v (vv_new _ H)) as (Hc & Hs & _). done.
Qed.

(** C8: the codec loses nothing: every valid value of the contract that crosses the
    socket, in either direction, is decoded from its encoding unchanged, every field
    of it, those that are absent included. *)
Theorem codec_is_lossless :
  (forall r, valid_request r -> request_from (encode r) = Ok r) /\
  (forall o, valid_open o -> stream_open_from (encode o) = Ok o) /\
  (forall v, valid_revision v -> stream_revision_from (encode v) = Ok v) /\
  (forall p, valid_payload p -> payload_from (encode p) = Ok p) /\
  (forall i, valid_identity i -> identity_from (encode i) = Ok i) /\
  (forall c, capabilities_from (encode c) = Ok c) /\
  (forall s, valid_state s -> state_from (encode s) = Ok s) /\
  (forall a, made_by Authority_new a -> authority_from (encode a) = Ok a) /\
  (forall s, valid_status s -> status_from (encode s) = Ok s) /\
  (forall r, valid_receipt r -> receipt_from (encode r) = Ok r) /\
  (forall a, opt_all valid_anchor a -> anchor_from (encode a) = Ok a) /\
  (forall v, valid_view v -> stream_view_from (encode v) = Ok v) /\
  (forall r, valid_revision_status r -> revision_status_from (encode r) = Ok r) /\
  (forall p, made_by ControllerPreset_new p -> preset_from (encode p) = Ok p) /\
  (forall c, valid_controller_state c -> controller_state_from (encode c) = Ok c).
Proof. split_and!; intros; first [apply lossless; done | by apply anchor_back]. Qed.

(** *** Witnesses: a plan of one joint *)

Module Wired.
Definition r1 : TrajectoryRequest := {|
  request_id := "r1"; req_instance_id := "fr3"; req_joint_names := ["j1"%string];
  trajectory := {| times := [f0; f1]; positions := [[f0]; [f1]]; velocities := Some [[f0]; [f0]] |};
  profile := "joint_impedance"; gains := Some {| gains_kp := [f2]; gains_kd := [f1] |}; model_token := None;
  start := ON_RELEASE; admit_by := Some (mk_Stamp 5 PC "pc:boot");
  completion := Some {| vel_tol := f1; goal_q := None; residual_max := None |}; supersedes := None; cartesian := None |}.
Lemma r1_valid : valid_request r1.
Proof. split; vm_compute; reflexivity. Qed.
Lemma r1_decoded : request_from (encode r1) = Ok r1.
Proof. vm_compute. reflexivity. Qed.
End Wired.
Import Wired.

Example decoding_validates_witness : valid_request r1 /\ traj_ok (trajectory r1).
Proof. destruct (proj1 (decoding_validates (encode r1)) r1 r1_decoded) as (H & Ht & _). exact (conj H Ht). Defined.
Example codec_is_lossless_witness : request_from (encode r1) = Ok r1.
Proof. exact (proj1 codec_is_lossless r1 r1_valid). Defined.
