(* ===== verification/Servo.v ===== *)
(** Small owners of control state, each a Module: the settle clocks of a leg
    ([control/leg_settling.py]), the operator jog deadman and its ramp
    ([control/jog_hold.py]), and the clamped integral ([control/integral.py]).

    Each method is a function on the object's state record; a method that
    returns a value returns the new state with it. *)
From Stdlib Require Import SpecFloat PrimFloat FloatOps.
From S2P Require Import Prelude Floats Motion.

Module LegSettling.

Inductive verdict_state := SETTLING | SETTLED | TIMED_OUT.
#[export] Instance verdict_state_eq_dec : EqDecision verdict_state.
Proof. solve_decision. Defined.

Definition REPORT_PERIOD_S : float := Eval vm_compute in Prim2SF 0.25%float.

Record SettleVerdict := {
  state : verdict_state;
  elapsed_s : float;
  remaining_s : float;
}.
Definition finished (v : SettleVerdict) : bool := negb (bool_decide (state v = SETTLING)).

Record t := {
  timeout_s : float;
  dwell_s : float;
  leg_end : option float;
  settled_since : option float;
  report_at : option float;
}.

Definition new (timeout dwell : float) : result t :=
  raise_if negb (isfinite timeout && isfinite dwell && ((f0 <=f dwell) && (dwell <f timeout)))
    of ValueError "settling requires 0 <= dwell < finite positive timeout" ;;
  Ok {| timeout_s := timeout; dwell_s := dwell; leg_end := Some f0; settled_since := None; report_at := None |}.

Definition begin (s : t) (e : option float) : t :=
  {| timeout_s := timeout_s s; dwell_s := dwell_s s; leg_end := e; settled_since := None; report_at := None |}.

Definition started (s : t) : bool := match report_at s with Some _ => true | None => false end.

Definition with_leg (s : t) (e : option float) (since : option float) : t :=
  {| timeout_s := timeout_s s; dwell_s := dwell_s s; leg_end := e; settled_since := since; report_at := report_at s |}.

(** The arguments of one [poll]; [done] is the callable's answer, consulted
    only on a fresh sample. *)
Record poll_args := { now : float; fresh : bool; done_ : bool; reference_ended : bool }.

Definition judge (s : t) (e : float) (p : poll_args) : t * option SettleVerdict :=
  if now p <f e then (with_leg s (Some e) (settled_since s), None)
  else
    let since :=
      if fresh p then
        if done_ p then match settled_since s with None => Some (now p) | x => x end else None
      else settled_since s in
    let el := py_max f0 (now p -f e) in
    let remaining := py_max f0 (timeout_s s -f el) in
    let st :=
      match since with
      | Some t0 => if fresh p && (now p -f t0 >=f dwell_s s) && (el <=f timeout_s s) then SETTLED
                   else if el >=f timeout_s s then TIMED_OUT else SETTLING
      | None => if el >=f timeout_s s then TIMED_OUT else SETTLING
      end in
    (with_leg s (Some e) since, Some {| state := st; elapsed_s := el; remaining_s := remaining |}).

Definition poll (s : t) (p : poll_args) : t * option SettleVerdict :=
  match leg_end s with
  | None => if negb (reference_ended p) then (s, None) else judge s (now p) p
  | Some e => judge s e p
  end.

Definition due_to_report (s : t) (at_ : float) : t * bool :=
  match report_at s with
  | Some r => if at_ -f r <f REPORT_PERIOD_S then (s, false)
              else ({| timeout_s := timeout_s s; dwell_s := dwell_s s; leg_end := leg_end s;
                       settled_since := settled_since s; report_at := Some at_ |}, true)
  | None => ({| timeout_s := timeout_s s; dwell_s := dwell_s s; leg_end := leg_end s;
                settled_since := settled_since s; report_at := Some at_ |}, true)
  end.

(** *** Properties *)

(** A poll that was judged for a leg ending at [e]. *)
Definition counted (e : float) (p : poll_args) : bool := fresh p && negb (now p <f e).

(** [settled_since] is explained by a list of past polls (latest first): a
    fresh done poll, since which every counted poll said done. *)
Definition since_inv (e : float) (past : list poll_args) (since : option float) : Prop :=
  forall t0, since = Some t0 ->
    exists l1 p0 l2, past = l1 ++ p0 :: l2 /\ now p0 = t0 /\ counted e p0 = true /\ done_ p0 = true /\
      Forall (fun p => counted e p = true -> done_ p = true) l1.

Lemma judge_inv s e p past :
  leg_end s = Some e -> since_inv e past (settled_since s) ->
  let s' := (judge s e p).1 in
  leg_end s' = Some e /\ dwell_s s' = dwell_s s /\ timeout_s s' = timeout_s s /\
  since_inv e (p :: past) (settled_since s').
Proof.
  intros He Hinv. unfold judge. destruct (fltb (now p) e) eqn:Elt; simpl.
  { do 3 (split; [done|]). intros t0 Ht. destruct (Hinv t0 Ht) as (l1 & p0 & l2 & -> & H1 & H2 & H3 & H4).
    exists (p :: l1), p0, l2. do 4 (split; [done|]). constructor; [|done].
    unfold counted. by rewrite Elt, andb_false_r. }
  do 3 (split; [done|]). intros t0 Ht. destruct (fresh p) eqn:Ef; [destruct (done_ p) eqn:Ed|].
  - destruct (settled_since s) as [t1|] eqn:Es.
    + injection Ht as ->. destruct (Hinv t0 eq_refl) as (l1 & p0 & l2 & -> & H1 & H2 & H3 & H4).
      exists (p :: l1), p0, l2. do 4 (split; [done|]). by constructor.
    + injection Ht as <-. exists [], p, past. do 2 (split; [done|]). unfold counted. by rewrite Ef, Elt.
  - done.
  - destruct (Hinv t0 Ht) as (l1 & p0 & l2 & -> & H1 & H2 & H3 & H4).
    exists (p :: l1), p0, l2. do 4 (split; [done|]). constructor; [|done].
    unfold counted. by rewrite Ef.
Qed.

(** A leg begun at [e] and polled. *)
Inductive polled (e : float) : list poll_args -> t -> Prop :=
  | polled_begin s : polled e [] (begin s (Some e))
  | polled_poll past s p : polled e past s -> polled e (p :: past) (poll s p).1.

Lemma polled_inv e past s : polled e past s -> leg_end s = Some e /\ since_inv e past (settled_since s).
Proof.
  induction 1 as [s|past s p H [IH1 IH2]]; [done|].
  unfold poll. rewrite IH1. destruct (judge_inv s e p past IH1 IH2) as (H1 & _ & _ & H4). done.
Qed.

(** Whatever the sequence of polls, SETTLED is reported only on a fresh
    sample whose dwell is backed by an earlier (or this) fresh poll that
    said done, at least [dwell_s] before by the clock, with every fresh poll
    of the leg in between also saying done: stale samples never advance the
    dwell, and moving again restarts it. *)
Theorem settled_needs_fresh_dwell e past s p v :
  polled e past s -> (poll s p).2 = Some v -> state v = SETTLED ->
  fresh p = true /\ exists l1 p0 l2, p :: past = l1 ++ p0 :: l2 /\
    counted e p0 = true /\ done_ p0 = true /\ fleb (dwell_s s) (now p -f now p0) = true /\
    Forall (fun p => counted e p = true -> done_ p = true) l1.
Proof.
  intros Hp Hv Hs. destruct (polled_inv _ _ _ Hp) as [He Hinv].
  destruct (judge_inv s e p past He Hinv) as (_ & _ & _ & Hinv').
  unfold poll in Hv. rewrite He in Hv. unfold judge in Hv, Hinv'.
  destruct (fltb (now p) e) eqn:Elt; [done|]. simpl in Hv, Hinv'. injection Hv as <-. simpl in Hs.
  set (since := if fresh p then _ else _) in *. clearbody since.
  destruct since as [t0|]; [|by destruct (fleb (timeout_s s) _)].
  destruct (fresh p) eqn:Ef; [|by destruct (fleb (timeout_s s) _)]. split; [done|].
  destruct (fleb (dwell_s s) (now p -f t0)) eqn:Ed; [|by destruct (fleb (timeout_s s) _)].
  destruct (Hinv' t0 eq_refl) as (l1 & p0 & l2 & Hl & Ht & Hc & Hd & Hall). subst t0.
  exists l1, p0, l2. auto.
Qed.

Definition f5 : float := Eval vm_compute in Prim2SF 5%float.
Definition leg0 : t := begin {| timeout_s := f5; dwell_s := f1; leg_end := None; settled_since := None; report_at := None |} (Some f0).
Definition poll_at (x : float) : poll_args := {| now := x; fresh := true; done_ := true; reference_ended := false |}.
Example settled_needs_fresh_dwell_witness :
  exists v, (poll (poll leg0 (poll_at f0)).1 (poll_at f2)).2 = Some v /\ state v = SETTLED /\
    fresh (poll_at f2) = true.
Proof.
  eexists. split; [reflexivity|]. split; [reflexivity|].
  eapply (settled_needs_fresh_dwell f0 [poll_at f0] (poll leg0 (poll_at f0)).1 (poll_at f2));
    [apply polled_poll, polled_begin | reflexivity | reflexivity].
Defined.

Lemma judge_finishes s e p :
  fltb (now p) e = false -> fleb (timeout_s s) (py_max f0 (now p -f e)) = true ->
  exists v, (judge s e p).2 = Some v /\ finished v = true /\ (fresh p = false -> state v = TIMED_OUT).
Proof.
  intros Hn Ht. unfold judge. rewrite Hn. simpl. rewrite Ht.
  eexists. split; [done|]. unfold finished. simpl.
  destruct (if fresh p then _ else _); [|done]. destruct (fresh p); simpl; [|done].
  destruct (_ && _); split; done.
Qed.

(** A leg cannot settle forever: once the elapsed time reaches the
    timeout every poll reports a finished verdict, on fresh and stale samples
    alike, and it is TIMED_OUT unless this very sample completes the dwell. *)
Theorem timeout_finishes s e p :
  leg_end s = Some e -> fltb (now p) e = false ->
  fleb (timeout_s s) (py_max f0 (now p -f e)) = true ->
  exists v, (poll s p).2 = Some v /\ finished v = true /\ (fresh p = false -> state v = TIMED_OUT).
Proof.
  intros He Hn Ht. unfold poll. rewrite He. by apply judge_finishes.
Qed.

Example timeout_finishes_witness :
  exists v, (poll leg0 {| now := f5; fresh := false; done_ := true; reference_ended := false |}).2 = Some v /\
    finished v = true /\ state v = TIMED_OUT.
Proof.
  destruct (timeout_finishes leg0 f0 {| now := f5; fresh := false; done_ := true; reference_ended := false |})
    as (v & H1 & H2 & H3); [reflexivity..|]. exists v. auto.
Defined.
End LegSettling.

Module JogHold.

Record t := {
  timeout_s : float;
  n_joints : nat;
  q : option vec;
  at_ : float;
  expired : bool;
}.

Definition new (timeout : float) (n : nat) : result t :=
  raise_if negb (isfinite timeout && (f0 <f timeout)) of ValueError "jog_timeout_s must be finite and positive" ;;
  Ok {| timeout_s := timeout; n_joints := n; q := None; at_ := f0; expired := false |}.

Definition set (s : t) (v : vec) (now : float) : result t :=
  raise_if negb (length v =? n_joints s) of ValueError "jog q must have n values" ;;
  Ok {| timeout_s := timeout_s s; n_joints := n_joints s; q := Some v; at_ := now; expired := expired s |}.

Definition clear (s : t) : t :=
  {| timeout_s := timeout_s s; n_joints := n_joints s; q := None; at_ := at_ s; expired := false |}.

Definition active (s : t) : bool := match q s with Some _ => true | None => false end.

Definition target (s : t) (now : float) : t * option vec :=
  match q s with
  | None => (s, None)
  | Some v =>
      if now -f at_ s >f timeout_s s
      then ({| timeout_s := timeout_s s; n_joints := n_joints s; q := None; at_ := at_ s; expired := true |}, None)
      else (s, Some v)
  end.

Definition take_expired (s : t) : t * bool :=
  ({| timeout_s := timeout_s s; n_joints := n_joints s; q := q s; at_ := at_ s; expired := false |}, expired s).

(** *** Traces of calls; a refused [set] leaves the object unchanged. *)
Inductive call := Set_ (v : vec) (now : float) | Clear | Target (now : float) | TakeExpired.

Definition step (s : t) (c : call) : t :=
  match c with
  | Set_ v now => match set s v now with Ok s' => s' | Err _ => s end
  | Clear => clear s
  | Target now => (target s now).1
  | TakeExpired => (take_expired s).1
  end.

(** The last renewal or drop among the calls made (latest first). *)
Fixpoint last_set (n : nat) (past : list call) : option (vec * float) :=
  match past with
  | [] => None
  | Set_ v now :: past => if length v =? n then Some (v, now) else last_set n past
  | Clear :: _ => None
  | _ :: past => last_set n past
  end.

(** Expiries since the latch was last taken or dropped. *)
Definition deadman_inv (n : nat) (past : list call) (s : t) : Prop :=
  n_joints s = n /\ forall v, q s = Some v -> last_set n past = Some (v, at_ s).

Lemma deadman_holds timeout n s0 past :
  new timeout n = Ok s0 -> deadman_inv n past (fold_right (fun c s => step s c) s0 past) /\
  timeout_s (fold_right (fun c s => step s c) s0 past) = timeout.
Proof.
  intros Hnew. unfold new in Hnew. inv_ok Hnew. induction past as [|c past [[IHn IH] IHt]]; [done|].
  simpl. set (s := fold_right _ _ past) in *. clearbody s.
  destruct c as [v now| |now|]; simpl.
  - unfold set. rewrite IHn. destruct (length v =? n) eqn:E; simpl;
      [|split; [split; [done|simpl; by rewrite E]|done]].
    split; [|done]. split; [done|]. simpl. intros w [= <-]. by rewrite E.
  - done.
  - unfold target. destruct (q s) as [w|] eqn:Eq; simpl.
    + destruct (fltb (timeout_s s) (now -f at_ s)); simpl; [split; [split; [done|intros ? [=]]|done]|].
      split; [split; [done|]|done].
      simpl. by rewrite <-Eq in IH.
    + split; [split|]; try done. by rewrite Eq.
  - split; [split|]; done.
Qed.

(** The jog is a deadman: after any sequence of calls, a setpoint is
    handed out only if the most recent accepted renewal (with no drop since)
    supplied exactly that vector and is not older than the timeout; silence
    stops the motion with no further message. *)
Theorem jog_is_deadman timeout n s0 past now v :
  new timeout n = Ok s0 ->
  let s := fold_right (fun c s => step s c) s0 past in
  (target s now).2 = Some v ->
  exists at_, last_set n past = Some (v, at_) /\ length v = n /\ fltb timeout (now -f at_) = false.
Proof.
  intros Hnew s Hv. destruct (deadman_holds _ _ _ past Hnew) as [[Hn Hq] Ht]. fold s in Hn, Hq, Ht.
  unfold target in Hv. destruct (q s) as [w|] eqn:Eq; [|done].
  destruct (fltb (timeout_s s) (now -f at_ s)) eqn:E; [done|]. injection Hv as ->.
  exists (at_ s). split; [by apply Hq|]. rewrite <-Ht. split; [|done].
  specialize (Hq v eq_refl). clear -Hq. generalize dependent (at_ s). intros a Hq.
  induction past as [|c past IH]; [done|]. destruct c as [w t| |t|]; simpl in Hq; [|done|auto..].
  destruct (length w =? n) eqn:E; [|auto]. injection Hq as -> _. by apply Nat.eqb_eq.
Qed.

Example jog_is_deadman_witness :
  exists s0, new f1 1 = Ok s0 /\ exists a, last_set 1 [Set_ [f1] f0] = Some ([f1], a).
Proof.
  exists {| timeout_s := f1; n_joints := 1; q := None; at_ := f0; expired := false |}.
  split; [reflexivity|].
  destruct (jog_is_deadman f1 1 {| timeout_s := f1; n_joints := 1; q := None; at_ := f0; expired := false |}
    [Set_ [f1] f0] f1 [f1]) as (a & H & _); [reflexivity..|]. by exists a.
Defined.

(** The expiry latch is owed exactly once: [take_expired] answers true
    precisely when a [target] past the timeout dropped a held setpoint since
    the latch was last taken or cleared, and taking it twice never does. *)
Theorem expiry_latched_once s now v :
  q s = Some v -> fltb (timeout_s s) (now -f at_ s) = true ->
  let s1 := (target s now).1 in
  (target s now).2 = None /\ active s1 = false /\ (take_expired s1).2 = true /\
  (take_expired (take_expired s1).1).2 = false /\
  (forall now', (target (take_expired s1).1 now').2 = None /\
                (take_expired (target (take_expired s1).1 now').1).2 = false).
Proof. intros Hq Ht. unfold target. rewrite Hq, Ht. simpl. done. Qed.

Example expiry_latched_once_witness :
  (target {| timeout_s := f1; n_joints := 1; q := Some [f0]; at_ := f0; expired := false |} f2).2 = None.
Proof.
  apply (expiry_latched_once {| timeout_s := f1; n_joints := 1; q := Some [f0]; at_ := f0; expired := false |} f2 [f0]);
    reflexivity.
Defined.
End JogHold.


Module JogRamp.

Record t := {
  v_max : vec;
  a_max : vec;
  envelope : option (vec * vec);   (** [lower], [upper] *)
  q : option vec;
  v : vec;
}.

Definition all_le (a b : vec) : bool := forallb (fun p => p.1 <=f p.2) (zip a b).
Definition positive (a : vec) : bool := forallb (fun x => x >f f0) a.

Definition new (v_max a_max : vec) (lower upper : option vec) : result t :=
  raise_if
    (match lower, upper with
     | None, None => false
     | Some lo, Some hi =>
         negb ((length lo =? length hi) && (length hi =? length v_max) && all_finite lo && all_finite hi && all_le lo hi)
     | _, _ => true
     end) of ValueError "jog ramp envelope: both bounds or neither, finite, lower <= upper, one per joint" ;;
  raise_if negb (length v_max =? length a_max) ||
           negb (all_finite v_max && all_finite a_max && positive v_max && positive a_max)
    of ValueError "jog ramp limits must be finite, positive and one per joint" ;;
  Ok {| v_max := v_max; a_max := a_max;
        envelope := match lower, upper with Some lo, Some hi => Some (lo, hi) | _, _ => None end;
        q := None; v := map (fun _ => f0) v_max |}.

Definition reset (s : t) : t :=
  {| v_max := v_max s; a_max := a_max s; envelope := envelope s; q := None; v := v s |}.

Definition c_25 : float := Eval vm_compute in Prim2SF 0.25%float.
Definition c_5 : float := Eval vm_compute in Prim2SF 0.5%float.

(** One entry of every array of [step]: the speed before the envelope. *)
Definition speed (vm am target q v dt : float) : float :=
  let error := target -f q in
  let step := am *f dt in
  let cap := np_min vm (step *f (fsqrt (c_25 +f f2 *f fabs error /f (step *f dt)) -f c_5)) in
  let v' := clip (clip (error /f dt) (fopp cap) cap) (v -f am *f dt) (v +f am *f dt) in
  if (((error -f v' *f dt) *f error) <f f0) && (fabs (error /f dt -f v) <=f am *f dt)
  then error /f dt else v'.

(** The commanded position and the ramp's speed of one joint. *)
Definition joint (env : option (float * float)) (vm am target q v dt : float) : float * float :=
  let v' := speed vm am target q v dt in
  let q' := q +f v' *f dt in
  match env with
  | None => (q', v')
  | Some (lo, hi) =>
      let low := np_min lo (np_min target q) in
      let high := np_max hi (np_max target q) in
      let stopped := (q' <f low) || (q' >f high) in
      (clip q' low high, if stopped then f0 else v')
  end.

Definition env_at (s : t) (i : nat) : option (float * float) :=
  (fun e => (fget e.1 i, fget e.2 i)) <$> envelope s.

(** [step], for vectors of one value per joint. *)
Definition step (s : t) (target measured : vec) (dt : float) : t * vec :=
  let q0 := default measured (q s) in
  let v0 := match q s with None => map (fun _ => f0) (v_max s) | Some _ => v s end in
  let out := map (fun i => joint (env_at s i) (fget (v_max s) i) (fget (a_max s) i)
                             (fget target i) (fget q0 i) (fget v0 i) dt) (seq 0 (length (v_max s))) in
  ({| v_max := v_max s; a_max := a_max s; envelope := envelope s; q := Some (map fst out); v := map snd out |},
   map fst out).

(** *** Properties *)

(** The limit never further out than [lo, hi] when target and command are inside. *)
Lemma hull_within lo hi target q x :
  fleb lo hi = true -> within lo target hi -> within lo q hi ->
  within lo (clip x (np_min lo (np_min target q)) (np_max hi (np_max target q))) hi.
Proof.
  intros Hle Ht Hq. destruct (fleb_nan _ _ Hle) as [Nlo Nhi].
  assert (isnan target = true \/ isnan q = true ->
          isnan (clip x (np_min lo (np_min target q)) (np_max hi (np_max target q))) = true) as Hnan.
  { intros H. unfold clip. apply np_min_isnan. left. apply np_max_isnan. right.
    apply np_min_isnan. right. by apply np_min_isnan. }
  destruct Ht as [Ht|[T1 T2]]; [left; auto|]. destruct Hq as [Hq|[Q1 Q2]]; [left; auto|].
  destruct (fleb_nan _ _ T1) as [_ Nt]. destruct (fleb_nan _ _ Q1) as [_ Nq].
  assert (fleb lo (np_min target q) = true) as H1.
  { by destruct (np_min_spec target q Nt Nq) as ([-> | ->] & _). }
  assert (fleb (np_max target q) hi = true) as H2.
  { by destruct (np_max_spec target q Nt Nq) as ([-> | ->] & _). }
  destruct (fleb_nan _ _ H1) as [_ N1]. destruct (fleb_nan _ _ H2) as [N2 _].
  assert (fleb lo (np_min lo (np_min target q)) = true) as H3.
  { destruct (np_min_spec lo _ Nlo N1) as ([-> | ->] & _); auto. }
  assert (fleb (np_max hi (np_max target q)) hi = true) as H4.
  { destruct (np_max_spec hi _ Nhi N2) as ([-> | ->] & _); auto. }
  destruct (np_min_spec lo _ Nlo N1) as (_ & H5 & _). destruct (np_max_spec hi _ Nhi N2) as (_ & H6 & _).
  destruct (clip_within x (np_min lo (np_min target q)) (np_max hi (np_max target q))) as [|[C1 C2]].
  - eapply fleb_trans; [exact H5|]. eapply fleb_trans; [exact Hle|exact H6].
  - by left.
  - right. split; eapply fleb_trans; eauto.
Qed.

Definition inside (lo hi w : vec) : Prop :=
  forall i l h x, lo !! i = Some l -> hi !! i = Some h -> w !! i = Some x -> within l x h.

(** A stream of ticks: (target, measured, dt), or the jog's end. *)
Inductive tick := Step (target measured : vec) (dt : float) | Reset.
Definition run1 (s : t) (k : tick) : t :=
  match k with Step g m dt => (step s g m dt).1 | Reset => reset s end.
Definition tick_inside (lo hi : vec) (n : nat) (k : tick) : Prop :=
  match k with Step g m _ => length g = n /\ length m = n /\ inside lo hi g /\ inside lo hi m | Reset => True end.

Definition ramp_inv (lo hi : vec) (n : nat) (s : t) : Prop :=
  envelope s = Some (lo, hi) /\ length (v_max s) = n /\ length lo = n /\ length hi = n /\ all_le lo hi = true /\
  (forall w, q s = Some w -> length w = n /\ inside lo hi w).

Lemma all_le_lookup lo hi i l h : all_le lo hi = true -> lo !! i = Some l -> hi !! i = Some h -> fleb l h = true.
Proof.
  unfold all_le. rewrite forallb_Forall. intros H Hl Hh.
  eapply (Forall_lookup_1 (fun p : float * float => (p.1 <=f p.2) = true) (zip lo hi) i (l, h)); [done|].
  by rewrite lookup_zip_with, Hl, Hh.
Qed.

Lemma step_inside lo hi n s g m dt :
  ramp_inv lo hi n s -> tick_inside lo hi n (Step g m dt) ->
  ramp_inv lo hi n (step s g m dt).1 /\ length (step s g m dt).2 = n /\ inside lo hi (step s g m dt).2.
Proof.
  intros (He & Hn & Hlo & Hhi & Hle & Hq) (Hg & Hm & Ig & Im).
  assert (length (default m (q s)) = n /\ inside lo hi (default m (q s))) as [Hq0 Iq0].
  { destruct (q s) as [w|]; [by apply Hq|done]. }
  unfold step. simpl. set (out := map _ (seq 0 _)).
  assert (length (map fst out) = n /\ inside lo hi (map fst out)) as [Ho Io];
    [|split; [|done]; unfold ramp_inv; simpl; split_and!; try done; by intros w [= <-]].
  split; [unfold out; by rewrite !length_map, length_seq|].
  intros i l h x Hl Hh Hx. unfold out in Hx. rewrite map_map in Hx.
  apply list_lookup_fmap_Some_1 in Hx as (j & -> & Hj). apply lookup_seq in Hj as [-> Hj]. simpl.
  unfold env_at. rewrite He. simpl.
  rewrite (fget_lookup lo i) in Hl by lia. rewrite (fget_lookup hi i) in Hh by lia. simplify_eq.
  apply hull_within.
  - eapply all_le_lookup; [done|apply fget_lookup; lia..].
  - eapply Ig; apply fget_lookup; lia.
  - eapply Iq0; apply fget_lookup; lia.
Qed.

(** Whatever velocities, accelerations, ticks and restarts, a ramp given
    targets inside the position envelope, started inside it, never commands a
    joint outside (an entry is inside, or NaN when its arithmetic overflowed,
    which the command admission refuses). *)
Theorem ramp_stays_inside vm am lo hi s0 past g m dt :
  new vm am (Some lo) (Some hi) = Ok s0 ->
  Forall (tick_inside lo hi (length vm)) past -> tick_inside lo hi (length vm) (Step g m dt) ->
  inside lo hi (step (run_steps run1 s0 past) g m dt).2.
Proof.
  intros Hnew Hpast Hk. eapply step_inside; [|exact Hk].
  assert (ramp_inv lo hi (length vm) s0) as H0.
  { unfold new in Hnew. inv_ok Hnew. breflect. repeat split; simpl; try done; lia. }
  clear Hnew. revert s0 H0. induction Hpast as [|k past Hk' _ IH]; intros s0 H0; simpl; [done|].
  apply IH. destruct k; [by apply step_inside|].
  destruct H0 as (? & ? & ? & ? & ? & ?). by repeat split.
Qed.

Example ramp_stays_inside_witness :
  exists s0, new [f1] [f1] (Some [fopp f1]) (Some [f1]) = Ok s0 /\
    inside [fopp f1] [f1] (step s0 [f1] [f0] c_25).2.
Proof.
  eexists. split; [reflexivity|].
  apply (ramp_stays_inside [f1] [f1] [fopp f1] [f1] _ [] [f1] [f0] c_25); [reflexivity|constructor|].
  repeat split; intros [|[]] l h x; simpl; intros [= <-] [= <-] [= <-]; right; split; reflexivity.
Defined.
End JogRamp.

Module Integral.

Definition I_WINDOW_RAD : float := Eval vm_compute in Prim2SF 0.02%float.
Definition LONG_GAP : float := Eval vm_compute in Prim2SF 0.05%float.

Record IntegralState := {
  ki : vec;
  i_limit : vec;
  kp_ref : option vec;
  bias : vec;
  time : option float;
  cycle : option Z;
}.

Definition zeros (n : nat) : vec := replicate n f0.

Definition new (n : nat) (ki i_limit kp_ref : option vec) : result IntegralState :=
  ki <-- validate_integral_vector ki n ;;
  lim <-- validate_integral_vector i_limit n ;;
  raise_if match kp_ref with
           | None => false
           | Some r => negb (length r =? n) || negb (all_finite r) || existsb (fun x => x <f f0) r
           end of ValueError "integral kp_ref must be n finite nonnegative values (the profile kp)" ;;
  Ok {| ki := ki; i_limit := lim; kp_ref := kp_ref; bias := zeros n; time := None; cycle := None |}.

Definition reset (s : IntegralState) : IntegralState :=
  {| ki := ki s; i_limit := i_limit s; kp_ref := kp_ref s; bias := zeros (length (bias s)); time := None; cycle := None |}.

(** The gain of one joint at the caller's [kp]. *)
Definition scaled_ki (k kp : float) (r : option float) : float :=
  match r with
  | None => k
  | Some r => k *f clip (if r >f f0 then kp /f r else f1) f0 f1
  end.

Definition joint_bias (b k kp err dt lim : float) : float :=
  let live := (kp >f f0) && (fabs err <f I_WINDOW_RAD) in
  let b' := clip (if live then b +f k *f err *f dt else b) (fopp lim) lim in
  if kp <=f f0 then f0 else b'.

Definition vec_ok (s : IntegralState) (v : vec) : bool := (length v =? length (bias s)) && all_finite v.

Definition update (s : IntegralState) (cycle_id : Z) (now : float) (q_des q_measured kp : vec)
    : result (IntegralState * vec) :=
  raise_if (cycle_id <? 0)%Z of ValueError "integral cycle id must be a nonnegative integer" ;;
  raise_if negb (isfinite now) || negb (vec_ok s q_des) || negb (vec_ok s q_measured) || negb (vec_ok s kp)
    of ValueError "integral update needs finite time and matching finite joint vectors" ;;
  raise_if match cycle s with Some c => (cycle_id <? c)%Z | None => false end
    of ValueError "integral cycle id moved backwards" ;;
  if bool_decide (cycle s = Some cycle_id) then Ok (s, bias s)
  else
    let dt := match time s with None => f0 | Some t => py_min (py_max (now -f t) f0) LONG_GAP end in
    let b := map (fun i => joint_bias (fget (bias s) i)
                             (scaled_ki (fget (ki s) i) (fget kp i) ((fun r => fget r i) <$> kp_ref s))
                             (fget kp i) (fget q_des i -f fget q_measured i) dt (fget (i_limit s) i))
                 (seq 0 (length (bias s))) in
    Ok ({| ki := ki s; i_limit := i_limit s; kp_ref := kp_ref s; bias := b; time := Some now; cycle := Some cycle_id |}, b).

(** *** Properties *)

Lemma vector_ok values n v :
  validate_integral_vector values n = Ok v ->
  length v = n /\ forall i, i < n -> fleb f0 (fget v i) = true.
Proof.
  unfold validate_integral_vector. intros H. inv_ok H. apply orb_false_iff in Heqb as [Hb Hneg].
  apply orb_false_iff in Hb as [Hlen Hfin]. apply negb_false_iff in Hlen, Hfin. apply Nat.eqb_eq in Hlen.
  split; [done|]. intros i Hi. unfold fget.
  destruct (lookup_lt_is_Some_2 (default (replicate n f0) values) i) as [x Hx]; [by rewrite Hlen|]. rewrite Hx. simpl.
  apply fltb_false; [by eapply finite_not_nan, all_finite_lookup|done|].
  rewrite existsb_false_Forall in Hneg. by eapply (Forall_lookup_1 _ _ _ _ Hneg) in Hx.
Qed.

(** An update, or the reset of a disarm or a law change. *)
Inductive call := Update (cycle_id : Z) (now : float) (q_des q_measured kp : vec) | Reset.

(** A refused update raises before it writes anything. *)
Definition run1 (s : IntegralState) (c : call) : IntegralState :=
  match c with
  | Update c now qd qm kp => match update s c now qd qm kp with Ok (s', _) => s' | Err _ => s end
  | Reset => reset s
  end.

(** The bias never exceeds its limit. *)
Definition clamped (b lim : float) : Prop := fltb lim b = false /\ fltb b (fopp lim) = false.

Definition inv (n : nat) (s : IntegralState) : Prop :=
  length (bias s) = n /\ forall i, i < n -> fleb f0 (fget (i_limit s) i) = true /\ clamped (fget (bias s) i) (fget (i_limit s) i).

Lemma zero_clamped lim : fleb f0 lim = true -> clamped f0 lim.
Proof.
  destruct lim as [[]|[]| |[] m e]; try done; by split.
Qed.

Lemma joint_bias_clamped b k kp err dt lim : fleb f0 lim = true -> clamped (joint_bias b k kp err dt lim) lim.
Proof.
  intros H. unfold joint_bias. destruct (fleb kp f0); [by apply zero_clamped|].
  set (x := if (f0 <f kp) && _ then _ else b). clearbody x.
  assert (fleb (fopp lim) lim = true) as Hl by (by destruct lim as [[]|[]| |[]]).
  assert (forall y z, isnan y = true -> fltb y z = false /\ fltb z y = false) as Hnan
    by (intros [| | |] z; try done; by destruct z).
  destruct (isnan x) eqn:Ex.
  - assert (isnan (clip x (fopp lim) lim) = true) as E.
    { unfold clip. assert (np_max x (fopp lim) = x) as -> by (unfold np_max; by rewrite Ex).
      unfold np_min. by rewrite Ex. }
    split; [apply (Hnan _ lim E)|apply (Hnan _ (fopp lim) E)].
  - destruct (clip_bounds x (fopp lim) lim Ex Hl) as [H1 H2]. fkeys.
    split; match goal with |- ?a = false => destruct a eqn:E end; try done; fkeys; unfold klt in *; lia.
Qed.

Lemma run1_inv n s c : inv n s -> inv n (run1 s c).
Proof.
  intros [Hn H]. destruct c as [c now qd qm kp|]; simpl.
  - destruct (update s c now qd qm kp) as [[s' b]|] eqn:E; [|done]. unfold update in E. inv_chain E.
    { injection E as <- <-. done. }
    injection E as <- <-. split; simpl; [by rewrite length_map, length_seq|].
    intros i Hi. destruct (H i Hi) as [H1 _]. split; [done|]. rewrite fget_map by lia. by apply joint_bias_clamped.
  - split; simpl; [unfold zeros; by rewrite length_replicate|]. intros i Hi. destruct (H i Hi) as [H1 _]. split; [done|].
    unfold zeros; rewrite Hn, fget_replicate by done. by apply zero_clamped.
Qed.

(** From construction, through any sequence of updates (accepted or
    refused) and resets, no bias entry passes its configured limit. *)
Theorem bias_stays_clamped n k l r s0 calls i :
  new n k l r = Ok s0 -> i < n ->
  let s := run_steps run1 s0 calls in clamped (fget (bias s) i) (fget (i_limit s) i).
Proof.
  intros Hnew Hi. cut (inv n (run_steps run1 s0 calls)); [by intros [_ H]; apply H|].
  apply run_steps_inv; [apply run1_inv|]. unfold new, rbind in Hnew.
  destruct (validate_integral_vector k n) as [ki'|] eqn:Ek; [|done].
  destruct (validate_integral_vector l n) as [lim|] eqn:El; [|done]. inv_ok Hnew.
  destruct (vector_ok _ _ _ El) as [_ Hl]. split; simpl; [unfold zeros; by rewrite length_replicate|].
  intros j Hj. split; [by apply Hl|]. unfold zeros; rewrite fget_replicate by done. by apply zero_clamped, Hl.
Qed.

Definition two_updates : list call :=
  [Update 0 f0 [LONG_GAP] [f0] [f1]; Update 1 f1 [JogRamp.c_5 *f I_WINDOW_RAD] [f0] [f1]].

Example bias_stays_clamped_witness :
  exists s0, new 1 (Some [f1]) (Some [f1]) None = Ok s0 /\
    let s := run_steps run1 s0 two_updates in
    fltb f0 (fget (bias s) 0) = true /\ clamped (fget (bias s) 0) (fget (i_limit s) 0).
Proof.
  eexists. split; [reflexivity|]. split; [vm_compute; reflexivity|].
  apply (bias_stays_clamped 1 (Some [f1]) (Some [f1]) None _ two_updates 0); [reflexivity|lia].
Defined.
End Integral.
