(* ===== verification/Policy.v ===== *)
(** The execution policy of a deployment ([control/execution_policy.py]): the
    position envelope and its escape rule, the admission of a planned
    trajectory, the start and tracking guards, the last check of every servo
    command, and the assembly of the policy from the robot description.

    Arrays are lists; the comparisons between arrays broadcast as numpy does
    ([bcast]), so a policy of the wrong width raises here as it does there. *)
From Stdlib Require Import SpecFloat PrimFloat FloatOps.
From S2P Require Import Prelude Floats Motion.

Definition ENVELOPE_TOL : float := Eval vm_compute in Prim2SF 1e-8%float.
Definition f1e_9' : float := Eval vm_compute in Prim2SF 1e-9%float.
Definition quarter : float := Eval vm_compute in Prim2SF 0.25%float.

Record ExecutionPolicy := {
  command_rate_hz : float;
  state_timeout_sec : float;
  health_timeout_sec : float;
  start_pos_tol_rad : float;
  abort_pos_err_rad : float;
  hold_relatch_rad : float;
  torque_limits : vec;
  position_lower : option vec;
  position_upper : option vec;
  velocity_limits : option vec;
  acceleration_limits : option vec;
  cartesian_kp_min : option float;
}.

Definition positive_finite (x : float) : bool := isfinite x && negb (x <=f f0).
Definition bad_limits (n : nat) (v : option vec) : bool :=
  match v with
  | None => false
  | Some v => negb (length v =? n) || negb (all_finite v) || existsb (fun x => x <=f f0) v
  end.
Definition bad_bound (n : nat) (v : vec) : bool := negb (length v =? n) || negb (all_finite v).

Definition ExecutionPolicy_new (p : ExecutionPolicy) : result ExecutionPolicy :=
  raise_if existsb (fun x => negb (positive_finite x))
      [command_rate_hz p; state_timeout_sec p; health_timeout_sec p; start_pos_tol_rad p; abort_pos_err_rad p;
       hold_relatch_rad p] of ValueError "must be finite and positive" ;;
  limits <-- validate_torque_limits (torque_limits p) None ;;
  let n := length limits in
  raise_if bad_limits n (velocity_limits p) || bad_limits n (acceleration_limits p)
    of ValueError "must match the positive joint limits" ;;
  raise_if match position_lower p, position_upper p with None, None | Some _, Some _ => false | _, _ => true end
    of ValueError "execution_policy requires both position bounds" ;;
  raise_if match position_lower p, position_upper p with
           | Some lo, Some hi => bad_bound n lo || bad_bound n hi | _, _ => false end
    of ValueError "must match joint limits" ;;
  raise_if match position_lower p, position_upper p with
           | Some lo, Some hi => existsb (fun b => b) (zip_with (fun l h => l >=f h) lo hi) | _, _ => false end
    of ValueError "execution_policy position bounds must be ordered" ;;
  raise_if match cartesian_kp_min p with Some k => negb (positive_finite k) | None => false end
    of ValueError "execution_policy.cartesian_kp_min must be finite and positive" ;;
  Ok p.

Definition period (p : ExecutionPolicy) : float := f1 /f command_rate_hz p.

(** Column [j] of an array of rows, reduced by [f]: [q.min(axis=0)]. *)
Definition col_fold (f : float -> float -> float) (rows : mat) (j : nat) : float :=
  match map (fun r => fget r j) rows with
  | [] => fnan
  | x :: xs => fold_left f xs x
  end.

(** [measured]: the rows of [np.atleast_2d]. *)
Definition envelope (p : ExecutionPolicy) (measured : option mat) : option (vec * vec) :=
  match position_lower p, position_upper p with
  | Some lo, Some hi =>
      match measured with
      | None => Some (lo, hi)
      | Some rows =>
          if bool_decide (rows = []) || negb (forallb (fun r => length r =? length lo) rows) || negb (mat_finite rows)
          then Some (lo, hi)
          else Some (map (fun j => np_min (fget lo j) (col_fold np_min rows j)) (seq 0 (length lo)),
                     map (fun j => np_max (fget hi j) (col_fold np_max rows j)) (seq 0 (length lo)))
      end
  | _, _ => None
  end.

(** [np.any(f(a, b))] *)
Definition any2 (f : float -> float -> bool) (a b : vec) : result bool :=
  l <-- bcast f a b ;; Ok (existsb (fun b => b) l).
(** [np.any(f(rows, b))] for a 2-D array against a joint vector. *)
Fixpoint any_rows (f : float -> float -> bool) (rows : mat) (b : vec) : result bool :=
  match rows with
  | [] => Ok false
  | r :: rows => x <-- any2 f r b ;; y <-- any_rows f rows b ;; Ok (x || y)
  end.

Definition below (x lo : float) : bool := x <f (lo -f ENVELOPE_TOL).
Definition above (x hi : float) : bool := x >f (hi +f ENVELOPE_TOL).
Definition over (x lim : float) : bool := fabs x >f (lim +f ENVELOPE_TOL).

Definition outside (rows : mat) (band : vec * vec) : result bool :=
  a <-- any_rows below rows band.1 ;; b <-- any_rows above rows band.2 ;; Ok (a || b).

(** [np.diff(m, axis=0) / dt] *)
Fixpoint rates (m : mat) (dt : vec) : mat :=
  match m, dt with
  | r0 :: ((r1 :: _) as m'), d :: dt => zip_with (fun a b => (b -f a) /f d) r0 r1 :: rates m' dt
  | _, _ => []
  end.

Record Plan := {
  p_times : vec;
  p_positions : mat;
  p_velocities : mat;
  p_kp : vec;
  p_kd : vec;
  p_poses : option mat;
  p_cartesian : option cartesian_spec;
}.

(** A check that runs only under a configured limit vector. *)
Definition under (lim : option vec) (f : vec -> result bool) : result bool :=
  match lim with None => Ok false | Some l => f l end.

Definition start_error (p : ExecutionPolicy) (start measured : vec) : result (option string) :=
  d <-- bcast fsub start measured ;;
  error <-- vec_max (np_abs d) ;;
  refuse_if negb (error <=f start_pos_tol_rad p) of "start point from measured pose - re-plan"%string ;;
  Ok None.

Definition gain_vector_bad (n : nat) (v : vec) : bool := negb (length v =? n) || existsb (fun x => x <f f0) v.

(** The Cartesian part of [plan_error]. *)
Definition cartesian_error (p : ExecutionPolicy) (plan : Plan) : option string :=
  match p_cartesian plan with
  | None => None
  | Some spec =>
      match cartesian_values spec with
      | Err _ => Some "Cartesian impedance spec refused"%string
      | Ok _ =>
          match cartesian_kp_min p with
          | None => Some "this robot's execution policy admits no Cartesian legs"%string
          | Some k => if existsb (fun x => x <f k) (p_kp plan)
                      then Some "a Cartesian leg needs joint kp"%string else None
          end
      end
  end.

Definition plan_error (p : ExecutionPolicy) (plan : Plan) (measured : vec) (n_arm : nat) (been : option mat)
    : result (option string) :=
  let q := p_positions plan in
  let v := p_velocities plan in
  let t := p_times plan in
  refuse_if negb (ncols q =? n_arm) of "trajectory must have n joint columns"%string ;;
  refuse_if (length t <? 2) || negb (length t =? length q) || negb (same_shape v q)
    of "trajectory has invalid sample shapes"%string ;;
  refuse_if negb (all_finite t && mat_finite q && mat_finite v && all_finite (p_kp plan) && all_finite (p_kd plan))
    of "trajectory contains non-finite values"%string ;;
  refuse_if existsb (fun d => d <=f f0) (np_diff t) of "trajectory times must be strictly increasing"%string ;;
  let band := envelope p (Some (default [measured] been)) in
  out <-- match band with None => Ok false | Some b => outside q b end ;;
  refuse_if out of "trajectory outside configured position/velocity safety envelope"%string ;;
  fast <-- under (velocity_limits p) (fun l =>
    a <-- any_rows over v l ;; b <-- any_rows over (rates q (np_diff t)) l ;; Ok (a || b)) ;;
  refuse_if fast of "trajectory exceeds configured joint velocity limits"%string ;;
  hard <-- under (acceleration_limits p) (any_rows over (rates v (np_diff t))) ;;
  refuse_if hard of "trajectory exceeds configured joint acceleration limits"%string ;;
  tr <-- JointTrajectory_new t q (Some v) ;;
  let curve := bounds tr in
  out <-- match band with
          | None => Ok false
          | Some b => x <-- any2 below (map q_min curve) b.1 ;; y <-- any2 above (map q_max curve) b.2 ;; Ok (x || y)
          end ;;
  refuse_if out of "interpolated trajectory leaves the position envelope between waypoints"%string ;;
  fast <-- under (velocity_limits p) (any2 over (map qd_abs_max curve)) ;;
  refuse_if fast of "interpolated trajectory exceeds joint velocity limits between waypoints"%string ;;
  hard <-- under (acceleration_limits p) (any2 over (map qdd_abs_max curve)) ;;
  refuse_if hard of "interpolated trajectory exceeds joint acceleration limits between waypoints"%string ;;
  refuse_if gain_vector_bad n_arm (p_kp plan) of "trajectory kp must be a nonnegative joint vector"%string ;;
  refuse_if gain_vector_bad n_arm (p_kd plan) of "trajectory kd must be a nonnegative joint vector"%string ;;
  refuse_if match p_poses plan with
            | None => false
            | Some poses => negb (length poses =? length t) || negb (forallb (fun r => length r =? 7) poses)
                            || negb (mat_finite poses)
            end of "Cartesian trajectory poses must be finite sample-by-7 values"%string ;;
  match cartesian_error p plan with
  | Some why => Ok (Some why)
  | None => match q with q0 :: _ => start_error p q0 measured | [] => Err IndexError end
  end.

Definition relatch_tolerance (p : ExecutionPolicy) (kp : vec) : result vec :=
  l <-- bcast (fun lim k => quarter *f lim /f np_max k f1e_9') (torque_limits p) kp ;;
  Ok (map (np_min (hold_relatch_rad p)) l).

Definition tracking_error_exceeded (p : ExecutionPolicy) (command : JointServoCommand) (measured : vec) : result bool :=
  d <-- bcast fsub (q_des command) measured ;;
  e <-- vec_max (np_abs d) ;;
  Ok (negb (e <=f abort_pos_err_rad p)).

Definition command_valid (p : ExecutionPolicy) (c : JointServoCommand) (n_arm : nat) (measured : option mat)
    : result bool :=
  if existsb (fun v => negb (length v =? n_arm) || negb (all_finite v))
       [q_des c; qd_des c; tau_ff c; cmd_kp c; cmd_kd c] then Ok false
  else
    out <-- match envelope p measured with None => Ok false | Some b => outside [q_des c] b end ;;
    if out then Ok false else
    fast <-- under (velocity_limits p) (any2 over (qd_des c)) ;;
    if fast then Ok false else
    if negb (forallb (fun x => x >=f f0) (cmd_kp c) && forallb (fun x => x >=f f0) (cmd_kd c)) then Ok false else
    torque <-- bcast (fun t lim => fabs t <=f lim) (tau_ff c) (torque_limits p) ;;
    Ok (forallb (fun b => b) torque).

(** [build_execution_policy]: a deployment's mapping is the record of the
    constructor's keyword arguments, with the description's torque limits. *)
Definition with_bounds (p : ExecutionPolicy) (lo hi : vec) : ExecutionPolicy := {|
  command_rate_hz := command_rate_hz p; state_timeout_sec := state_timeout_sec p;
  health_timeout_sec := health_timeout_sec p; start_pos_tol_rad := start_pos_tol_rad p;
  abort_pos_err_rad := abort_pos_err_rad p; hold_relatch_rad := hold_relatch_rad p;
  torque_limits := torque_limits p; position_lower := Some lo; position_upper := Some hi;
  velocity_limits := velocity_limits p; acceleration_limits := acceleration_limits p;
  cartesian_kp_min := cartesian_kp_min p |}.

Definition build_execution_policy (config : option ExecutionPolicy) (joint_limits : option (vec * vec))
    : result (option ExecutionPolicy) :=
  match config with
  | None => Ok None
  | Some c =>
      let c :=
        match position_lower c, position_upper c, joint_limits with
        | None, None, Some (lo, hi) => if all_finite lo && all_finite hi then with_bounds c lo hi else c
        | _, _, _ => c
        end in
      policy <-- ExecutionPolicy_new c ;;
      match joint_limits, position_lower policy, position_upper policy with
      | Some (lo, hi), Some pl, Some pu =>
          a <-- any2 fltb pl lo ;; b <-- any2 (fun x y => x >f y) pu hi ;;
          raise_if a || b of ValueError "execution_policy position bounds may only narrow the robot description" ;;
          Ok (Some policy)
      | _, _, _ => Ok (Some policy)
      end
  end.

(** ** Lemmas *)

(** What the constructor promises about the widths and values of a policy. *)
Record policy_ok (p : ExecutionPolicy) : Prop := {
  ok_torque : Forall (fun x => fltb f0 x = true) (torque_limits p) /\ all_finite (torque_limits p) = true;
  ok_both : (position_lower p = None <-> position_upper p = None);
  ok_lower lo : position_lower p = Some lo -> length lo = length (torque_limits p) /\ all_finite lo = true;
  ok_upper hi : position_upper p = Some hi -> length hi = length (torque_limits p) /\ all_finite hi = true;
  ok_vel v : velocity_limits p = Some v -> length v = length (torque_limits p);
  ok_acc v : acceleration_limits p = Some v -> length v = length (torque_limits p);
}.

Lemma ExecutionPolicy_new_ok raw p : ExecutionPolicy_new raw = Ok p -> p = raw /\ policy_ok p.
Proof.
  unfold ExecutionPolicy_new. intros H. pass_guard H E0.
  apply rbind_ok in H as (l & El & H).
  apply validate_torque_limits_ok in El as (-> & Hf & Hpos).
  pass_guard H Ev. pass_guard H Eb. pass_guard H Ec. pass_guard H Ed. pass_guard H Ek. injection H as <-.
  apply orb_false_iff in Ev as [Ev Ea].
  split; [done|]. unfold bad_limits, bad_bound in *.
  split.
  - done.
  - clear -Eb. destruct (position_lower raw), (position_upper raw); done || (split; intros; discriminate).
  - intros lo Hlo. rewrite Hlo in *. destruct (position_upper raw); [|done]. by breflect.
  - intros hi Hhi. rewrite Hhi in *. destruct (position_lower raw); [|done]. by breflect.
  - intros v Hv. rewrite Hv in Ev. by breflect.
  - intros v Hv. rewrite Hv in Ea. by breflect.
Qed.

Lemma col_entries rows j n :
  forallb (fun r => length r =? n) rows = true -> mat_finite rows = true -> j < n ->
  Forall (fun x => isnan x = false) (map (fun r => fget r j) rows).
Proof.
  unfold mat_finite. rewrite !forallb_Forall, !Forall_forall. intros H1 H2 Hj x Hx.
  apply list_elem_of_fmap in Hx as (r & -> & Hr). specialize (H1 r Hr). specialize (H2 r Hr). simpl in *. breflect.
  eapply finite_not_nan, all_finite_lookup; [exact H2|]. apply fget_lookup. lia.
Qed.

Lemma all_finite_fget v j : all_finite v = true -> j < length v -> isnan (fget v j) = false.
Proof. intros Hv Hj. eapply finite_not_nan, all_finite_lookup; [exact Hv|by apply fget_lookup]. Qed.

Lemma any2_false f a b i x y :
  length a = length b -> any2 f a b = Ok false -> a !! i = Some x -> b !! i = Some y -> f x y = false.
Proof.
  unfold any2. intros Hl H Hx Hy. apply rbind_ok in H as (l & Hb & H). injection H as H.
  apply existsb_false_Forall in H. pose proof (bcast_ok_lookup _ _ _ _ Hl Hb _ _ _ Hx Hy) as Hi.
  by apply (Forall_lookup_1 _ _ _ _ H) in Hi.
Qed.

Lemma any_rows_false f rows b i r :
  any_rows f rows b = Ok false -> rows !! i = Some r -> any2 f r b = Ok false.
Proof.
  revert i. induction rows as [|r' rows IH]; intros i H Hi; [done|]. simpl in H.
  apply rbind_ok in H as (x & Hx & H). apply rbind_ok in H as (y & Hy & H). injection H as H.
  breflect. subst. destruct i as [|i]; simpl in Hi; [by injection Hi as ->|by eapply IH].
Qed.

Lemma outside_false rows band i r :
  outside rows band = Ok false -> rows !! i = Some r ->
  any2 below r band.1 = Ok false /\ any2 above r band.2 = Ok false.
Proof.
  unfold outside. intros H Hi. apply rbind_ok in H as (x & Hx & H). apply rbind_ok in H as (y & Hy & H).
  injection H as H. breflect. subst. split; by eapply any_rows_false.
Qed.

Lemma envelope_length p m lo' hi' :
  policy_ok p -> envelope p m = Some (lo', hi') ->
  length lo' = length (torque_limits p) /\ length hi' = length (torque_limits p).
Proof.
  intros Hok. unfold envelope. destruct (position_lower p) as [lo|] eqn:El, (position_upper p) as [hi|] eqn:Eh; try done.
  destruct (ok_lower p Hok lo El) as [Hlo _]. destruct (ok_upper p Hok hi Eh) as [Hhi _].
  destruct m as [rows|]; [destruct (_ || _)|]; intros [= <- <-]; [done| |done].
  by rewrite !length_map, length_seq.
Qed.

(** ** Properties *)

(** The position band is never narrower than the configured envelope,
    reaches outside it only as far as a pose the arm was measured at (the
    escape rule: held where it is, brought back in, never driven further out),
    and contains every pose of a finite measurement of the right width. *)
Theorem envelope_escape raw p rows lo hi lo' hi' :
  ExecutionPolicy_new raw = Ok p -> position_lower p = Some lo -> position_upper p = Some hi ->
  envelope p (Some rows) = Some (lo', hi') ->
  forall j, j < length lo ->
    fleb (fget lo' j) (fget lo j) = true /\ fleb (fget hi j) (fget hi' j) = true /\
    (fget lo' j = fget lo j \/ exists r, r ∈ rows /\ fget lo' j = fget r j) /\
    (fget hi' j = fget hi j \/ exists r, r ∈ rows /\ fget hi' j = fget r j) /\
    (forallb (fun r => length r =? length lo) rows = true -> mat_finite rows = true ->
     forall r, r ∈ rows -> fleb (fget lo' j) (fget r j) = true /\ fleb (fget r j) (fget hi' j) = true).
Proof.
  intros Hnew El Eh He j Hj. destruct (ExecutionPolicy_new_ok _ _ Hnew) as [_ Hok].
  destruct (ok_lower p Hok lo El) as [Hlo Flo]. destruct (ok_upper p Hok hi Eh) as [Hhi Fhi].
  pose proof (all_finite_fget lo j Flo Hj) as Nlo.
  assert (isnan (fget hi j) = false) as Nhi by (apply all_finite_fget; [done|lia]).
  unfold envelope in He. rewrite El, Eh in He.
  destruct (bool_decide (rows = [])) eqn:E0; simpl in He; breflect.
  { injection He as <- <-. split_and!; auto. subst rows. intros _ _ r Hr. by apply elem_of_nil in Hr. }
  destruct (forallb _ rows) eqn:E1; simpl in He;
    [|injection He as <- <-; by split_and!; auto].
  destruct (mat_finite rows) eqn:E2; simpl in He;
    [|injection He as <- <-; by split_and!; auto].
  injection He as <- <-. rewrite !fget_map by done.
  pose proof (col_entries rows j _ E1 E2 Hj) as Hc. unfold col_fold.
  destruct rows as [|r0 rows]; [done|]. cbn [map] in *. inversion Hc as [|? ? N0 Nr]; subst.
  destruct (fold_min_lower _ (fget r0 j) N0 Nr) as (Mn & M1 & M2 & M3).
  destruct (fold_max_upper _ (fget r0 j) N0 Nr) as (Xn & X1 & X2 & X3).
  set (mn := fold_left np_min _ _) in *. set (mx := fold_left np_max _ _) in *.
  destruct (np_min_spec (fget lo j) mn Nlo Mn) as (L1 & L2 & L3).
  destruct (np_max_spec (fget hi j) mx Nhi Xn) as (H1 & H2 & H3).
  assert (forall z, z = fget r0 j \/ z ∈ map (fun r => fget r j) rows -> exists r, r ∈ r0 :: rows /\ z = fget r j) as Hin.
  { intros z [-> |Hz]; [exists r0; split; [left|done]|].
    apply list_elem_of_fmap in Hz as (r & -> & Hr). exists r. split; [by right|done]. }
  split; [done|]. split; [done|].
  split; [destruct L1 as [-> | ->]; auto|]. split; [destruct H1 as [-> | ->]; auto|].
  intros _ _ r Hr. assert (fleb mn (fget r j) = true /\ fleb (fget r j) mx = true) as [G1 G2].
  { apply elem_of_cons in Hr as [-> |Hr]; [done|].
    rewrite Forall_forall in M2, X2.
    split; [apply M2|apply X2]; by apply (list_elem_of_fmap_2 (fun r => fget r j)). }
  split; by eapply fleb_trans.
Qed.

(** *** A concrete one-joint deployment *)

Definition policy0 : ExecutionPolicy := {|
  command_rate_hz := f1; state_timeout_sec := f1; health_timeout_sec := f1; start_pos_tol_rad := f1;
  abort_pos_err_rad := f1; hold_relatch_rad := f1; torque_limits := [f1]; position_lower := Some [fopp f1];
  position_upper := Some [f1]; velocity_limits := Some [f2]; acceleration_limits := Some [f12];
  cartesian_kp_min := Some f1 |}.
Definition plan0 : Plan := {|
  p_times := [f0; f1]; p_positions := [[f0]; [quarter]]; p_velocities := [[f0]; [f0]];
  p_kp := [f2]; p_kd := [f1]; p_poses := None;
  p_cartesian := Some {| cs_frame := "base"; cs_task_R := [[f1; f0; f0]; [f0; f1; f0]; [f0; f0; f1]];
                         cs_kc := replicate 6 f1; cs_dc := replicate 6 f1 |} |}.

Example envelope_escape_witness :
  exists lo' hi', envelope policy0 (Some [[f2]]) = Some (lo', hi') /\ fleb f2 (fget hi' 0) = true.
Proof.
  eexists _, _. split; [reflexivity|].
  destruct (envelope_escape policy0 policy0 [[f2]] [fopp f1] [f1] _ _ eq_refl eq_refl eq_refl eq_refl 0)
    as (_ & _ & _ & _ & H); [simpl; lia|].
  apply (H eq_refl eq_refl [f2]). by apply list_elem_of_singleton.
Defined.

(** An entry of a vector within a band, up to the rounding allowance, in the
    sense of the code's comparisons. *)
Definition not_below (lo v : vec) : Prop :=
  forall j x l, v !! j = Some x -> lo !! j = Some l -> fltb x (l -f ENVELOPE_TOL) = false.
Definition not_above (hi v : vec) : Prop :=
  forall j x h, v !! j = Some x -> hi !! j = Some h -> fltb (h +f ENVELOPE_TOL) x = false.
Definition in_band (band : vec * vec) (v : vec) : Prop := not_below band.1 v /\ not_above band.2 v.
Definition under_limit (lim : option vec) (v : vec) : Prop :=
  forall l j x m, lim = Some l -> v !! j = Some x -> l !! j = Some m -> fltb (m +f ENVELOPE_TOL) (fabs x) = false.

(** What an admitted plan satisfies. *)
Record flyable (p : ExecutionPolicy) (plan : Plan) (measured : vec) (n : nat) (band : option (vec * vec)) : Prop := {
  fly_shape : length (p_times plan) = length (p_positions plan) /\ 2 <= length (p_times plan) /\
              same_shape (p_velocities plan) (p_positions plan) = true;
  fly_finite : all_finite (p_times plan) = true /\ mat_finite (p_positions plan) = true /\
               mat_finite (p_velocities plan) = true;
  fly_times : Forall (fun d => fleb d f0 = false) (np_diff (p_times plan));
  fly_knots : forall b i row, band = Some b -> p_positions plan !! i = Some row -> length row = n -> in_band b row;
  fly_speed : forall i row, p_velocities plan !! i = Some row -> length row = n -> under_limit (velocity_limits p) row;
  fly_rates : (forall i row, rates (p_positions plan) (np_diff (p_times plan)) !! i = Some row -> length row = n ->
                 under_limit (velocity_limits p) row) /\
              (forall i row, rates (p_velocities plan) (np_diff (p_times plan)) !! i = Some row -> length row = n ->
                 under_limit (acceleration_limits p) row);
  fly_curve : exists tr, JointTrajectory_new (p_times plan) (p_positions plan) (Some (p_velocities plan)) = Ok tr /\
      (forall b, band = Some b -> not_below b.1 (map q_min (bounds tr)) /\ not_above b.2 (map q_max (bounds tr))) /\
      under_limit (velocity_limits p) (map qd_abs_max (bounds tr)) /\
      under_limit (acceleration_limits p) (map qdd_abs_max (bounds tr));
  fly_gains : length (p_kp plan) = n /\ length (p_kd plan) = n /\
              Forall (fun x => fleb f0 x = true) (p_kp plan) /\ Forall (fun x => fleb f0 x = true) (p_kd plan);
  fly_cartesian : forall spec, p_cartesian plan = Some spec -> is_ok (cartesian_values spec) = true /\
      exists k, cartesian_kp_min p = Some k /\ Forall (fun x => fltb x k = false) (p_kp plan);
  fly_start : forall row j s m, head (p_positions plan) = Some row -> length row = length measured ->
      row !! j = Some s -> measured !! j = Some m -> fleb (fabs (s -f m)) (start_pos_tol_rad p) = true;
}.

Lemma not_below_any2 lo r : length r = length lo -> any2 below r lo = Ok false -> not_below lo r.
Proof. intros Hl H j x l Hx Hlo. by eapply (any2_false below r lo). Qed.
Lemma not_above_any2 hi r : length r = length hi -> any2 above r hi = Ok false -> not_above hi r.
Proof. intros Hl H j x l Hx Hlo. by eapply (any2_false above r hi). Qed.

Lemma limit_entry lim r n :
  (forall l, lim = Some l -> length l = n) -> length r = n -> under lim (any2 over r) = Ok false -> under_limit lim r.
Proof.
  intros Hl Hr H l j x m El Hx Hm. subst lim. simpl in H. eapply (any2_false over r l); [by rewrite (Hl l)|done..].
Qed.

Lemma under_rows lim rows i r n :
  (forall l, lim = Some l -> length l = n) -> length r = n ->
  under lim (any_rows over rows) = Ok false -> rows !! i = Some r -> under_limit lim r.
Proof.
  intros Hl Hr H Hi. apply (limit_entry lim r n); [done..|]. destruct lim as [l|]; [|done]. simpl in *.
  by eapply any_rows_false.
Qed.

Lemma under_split lim f g :
  under lim (fun l => a <-- f l ;; b <-- g l ;; Ok (a || b)) = Ok false -> under lim f = Ok false /\ under lim g = Ok false.
Proof.
  destruct lim as [l|]; simpl; [|done]. intros H. apply rbind_ok in H as (a & Ha & H).
  apply rbind_ok in H as (b & Hb & H). injection H as H. breflect. by subst.
Qed.

Lemma gain_vector_ok n v : all_finite v = true -> gain_vector_bad n v = false ->
  length v = n /\ Forall (fun x => fleb f0 x = true) v.
Proof.
  unfold gain_vector_bad, all_finite. intros Hf H. breflect. split; [done|].
  rewrite existsb_false_Forall in *. rewrite forallb_Forall in Hf. rewrite Forall_forall in *.
  intros x Hx. apply fltb_false; [by apply finite_not_nan, Hf|done|by apply (H0 x)].
Qed.

Lemma start_error_ok p start measured :
  start_error p start measured = Ok None -> forall j s m, length start = length measured ->
  start !! j = Some s -> measured !! j = Some m -> fleb (fabs (s -f m)) (start_pos_tol_rad p) = true.
Proof.
  unfold start_error. intros H j s m Hl Hs Hm. apply rbind_ok in H as (d & Hd & H).
  apply rbind_ok in H as (e & He & H). pass_guard H E. apply negb_false_iff in E.
  pose proof (bcast_ok_lookup _ _ _ _ Hl Hd _ _ _ Hs Hm) as Hj.
  pose proof (vec_max_le _ _ _ He E) as Hall. unfold np_abs in Hall. rewrite Forall_map in Hall.
  by apply (Forall_lookup_1 _ _ _ _ Hall) in Hj.
Qed.

Lemma cartesian_error_none p plan : cartesian_error p plan = None ->
  forall spec, p_cartesian plan = Some spec -> is_ok (cartesian_values spec) = true /\
    exists k, cartesian_kp_min p = Some k /\ Forall (fun x => fltb x k = false) (p_kp plan).
Proof.
  unfold cartesian_error. intros H spec Hs. rewrite Hs in H. destruct (cartesian_values spec); [|done].
  split; [done|]. destruct (cartesian_kp_min p) as [k|]; [|done]. exists k. split; [done|].
  destruct (existsb _ _) eqn:E; [done|]. by apply existsb_false_Forall.
Qed.

(** C39: a plan the policy admits is flyable: finite and strictly increasing in
    time; every waypoint, and the extrema of the cubic the executor flies
    between them, lie in the escape-widened envelope, below the velocity limits
    and the acceleration limits; its gains are nonnegative joint vectors (and
    stiff enough under a Cartesian leg); and it starts within tolerance of the
    measured pose, which a NaN measurement never is. *)
Theorem plan_admitted raw p plan measured n been :
  ExecutionPolicy_new raw = Ok p -> length (torque_limits p) = n ->
  plan_error p plan measured n been = Ok None ->
  flyable p plan measured n (envelope p (Some (default [measured] been))).
Proof.
  intros Hnew Hn H. destruct (ExecutionPolicy_new_ok _ _ Hnew) as [_ Hok].
  assert (forall l, velocity_limits p = Some l -> length l = n) as Lv by (intros l E; rewrite (ok_vel p Hok l E); done).
  assert (forall l, acceleration_limits p = Some l -> length l = n) as La by (intros l E; rewrite (ok_acc p Hok l E); done).
  assert (forall b m, envelope p m = Some b -> length b.1 = n /\ length b.2 = n) as Lb.
  { intros [lo hi] m E. destruct (envelope_length p m lo hi Hok E). simpl. lia. }
  unfold plan_error in H. pass_guard H Ecols. pass_guard H Eshape. pass_guard H Efin. pass_guard H Etime.
  set (band := envelope p _) in *.
  apply rbind_ok in H as (out & Hout & H). pass_guard H E. subst out.
  apply rbind_ok in H as (fast & Hfast & H). pass_guard H E. subst fast.
  apply rbind_ok in H as (hard & Hhard & H). pass_guard H E. subst hard.
  apply rbind_ok in H as (tr & Htr & H).
  apply rbind_ok in H as (out & Hout2 & H). pass_guard H E. subst out.
  apply rbind_ok in H as (fast & Hfast2 & H). pass_guard H E. subst fast.
  apply rbind_ok in H as (hard & Hhard2 & H). pass_guard H E. subst hard.
  pass_guard H Ekp. pass_guard H Ekd. pass_guard H Eposes.
  destruct (cartesian_error p plan) eqn:Ecart; [done|].
  apply under_split in Hfast as [Hv1 Hv2].
  apply negb_false_iff in Efin. repeat (apply andb_true_iff in Efin as [Efin ?]).
  apply orb_false_iff in Eshape as [Eshape Esame]. apply orb_false_iff in Eshape as [Elen Elen2].
  apply negb_false_iff in Esame, Elen2, Ecols. apply Nat.eqb_eq in Elen2, Ecols. apply Nat.ltb_ge in Elen.
  assert (length (map q_min (bounds tr)) = n) as Lt.
  { assert (positions tr = p_positions plan) as Ep by (unfold JointTrajectory_new in Htr; inv_chain Htr; by injection Htr as <-).
    unfold bounds. rewrite !length_map, length_seq. unfold num_joints. by rewrite Ep. }
  rewrite length_map in Lt. split; try done.
  - by apply existsb_false_Forall.
  - intros b i row Eb Hrow Lrow. rewrite Eb in Hout. destruct (Lb _ _ Eb). destruct (outside_false _ _ _ _ Hout Hrow).
    split; [apply not_below_any2|apply not_above_any2]; congruence.
  - intros i row Hrow Lrow. exact (under_rows _ _ _ _ _ Lv Lrow Hv1 Hrow).
  - split; intros i row Hrow Lrow.
    + exact (under_rows _ _ _ _ _ Lv Lrow Hv2 Hrow).
    + exact (under_rows _ _ _ _ _ La Lrow Hhard Hrow).
  - exists tr. split; [done|]. split;
      [|split; [apply (limit_entry _ _ n)|apply (limit_entry _ _ n)]; by rewrite ?length_map].
    intros b Eb. rewrite Eb in Hout2. destruct (Lb _ _ Eb).
    apply rbind_ok in Hout2 as (x & Hx & Hout2). apply rbind_ok in Hout2 as (y & Hy & Hout2).
    injection Hout2 as Hxy. apply orb_false_iff in Hxy as [-> ->].
    split; [apply not_below_any2|apply not_above_any2]; rewrite ?length_map; congruence.
  - destruct (gain_vector_ok n (p_kp plan)); [done..|]. destruct (gain_vector_ok n (p_kd plan)); done.
  - by apply cartesian_error_none.
  - intros row j s m Hrow Hl Hs Hm. destruct (p_positions plan) as [|r0 rows]; [done|]. injection Hrow as ->.
    by eapply start_error_ok.
Qed.

Example plan_admitted_witness : flyable policy0 plan0 [f0] 1 (envelope policy0 (Some [[f0]])).
Proof.
  apply (plan_admitted policy0 policy0 plan0 [f0] 1 None); vm_compute; reflexivity.
Defined.

(** A servo command that passes the last check is one finite value per joint
    in every field, commands no position beyond the escape-widened envelope and
    no speed over its limit, carries nonnegative gains, and its feed-forward
    torque is within the torque limit of every joint. *)
Theorem command_valid_sound raw p c n measured :
  ExecutionPolicy_new raw = Ok p -> length (torque_limits p) = n ->
  command_valid p c n measured = Ok true ->
  Forall (fun v => length v = n /\ all_finite v = true) [q_des c; qd_des c; tau_ff c; cmd_kp c; cmd_kd c] /\
  (forall b, envelope p measured = Some b -> in_band b (q_des c)) /\
  under_limit (velocity_limits p) (qd_des c) /\
  Forall (fun x => fleb f0 x = true) (cmd_kp c) /\ Forall (fun x => fleb f0 x = true) (cmd_kd c) /\
  (forall j t m, tau_ff c !! j = Some t -> torque_limits p !! j = Some m -> fleb (fabs t) m = true).
Proof.
  intros Hnew Hn H. destruct (ExecutionPolicy_new_ok _ _ Hnew) as [_ Hok]. unfold command_valid in H.
  pass_guard H Eshape. apply existsb_false_Forall in Eshape.
  assert (Forall (fun v => length v = n /\ all_finite v = true) [q_des c; qd_des c; tau_ff c; cmd_kp c; cmd_kd c]) as Hs.
  { eapply Forall_impl; [exact Eshape|]. intros v Hv. simpl in Hv. by breflect. }
  split; [exact Hs|]. rewrite !Forall_cons in Hs. destruct Hs as ([Lq _] & [Lqd _] & [Lt _] & _).
  apply rbind_ok in H as (out & Hout & H). pass_guard H E. subst out.
  apply rbind_ok in H as (fast & Hfast & H). pass_guard H E. subst fast.
  pass_guard H Eg. apply negb_false_iff, andb_true_iff in Eg as [G1 G2]. rewrite forallb_Forall in G1, G2.
  apply rbind_ok in H as (tq & Htq & H). injection H as H.
  split; [|split; [|split; [done|split; [done|]]]].
  - intros [lo hi] Eb. rewrite Eb in Hout. destruct (envelope_length p measured lo hi Hok Eb).
    destruct (outside_false _ _ 0 (q_des c) Hout eq_refl).
    split; [apply not_below_any2|apply not_above_any2]; simpl in *; congruence.
  - apply (limit_entry _ _ n); [|done..]. intros l E. by rewrite (ok_vel p Hok l E).
  - intros j t m Ht Hm. rewrite forallb_Forall in H.
    assert (length (tau_ff c) = length (torque_limits p)) as Hl by congruence.
    pose proof (bcast_ok_lookup _ _ _ _ Hl Htq _ _ _ Ht Hm) as Hj.
    by apply (Forall_lookup_1 _ _ _ _ H) in Hj.
Qed.

Definition command0 : JointServoCommand :=
  {| q_des := [f1]; qd_des := [f1]; tau_ff := [fopp f1]; cmd_kp := [f1]; cmd_kd := [f0] |}.
Example command_valid_sound_witness : fleb (fabs (fopp f1)) f1 = true.
Proof.
  destruct (command_valid_sound policy0 policy0 command0 1 None) as (_ & _ & _ & _ & _ & H);
    [reflexivity|reflexivity|vm_compute; reflexivity|]. by apply (H 0).
Defined.

(** The tracking guard fails closed: when it does not trip, every joint of
    the command is within the abort threshold of the measured pose, so a NaN in
    either always trips it. *)
Theorem tracking_fails_closed p c measured :
  tracking_error_exceeded p c measured = Ok false -> length (q_des c) = length measured ->
  forall j x m, q_des c !! j = Some x -> measured !! j = Some m ->
    fleb (fabs (x -f m)) (abort_pos_err_rad p) = true /\ isnan (x -f m) = false.
Proof.
  unfold tracking_error_exceeded. intros H Hl j x m Hx Hm.
  apply rbind_ok in H as (d & Hd & H). apply rbind_ok in H as (e & He & H). injection H as H.
  apply negb_false_iff in H.
  pose proof (bcast_ok_lookup _ _ _ _ Hl Hd _ _ _ Hx Hm) as Hj.
  pose proof (vec_max_le _ _ _ He H) as Hall. unfold np_abs in Hall. rewrite Forall_map in Hall.
  apply (Forall_lookup_1 _ _ _ _ Hall) in Hj. split; [done|].
  apply fleb_nan in Hj as [Hj _]. by rewrite fabs_nan in Hj.
Qed.

Example tracking_fails_closed_witness : fleb (fabs (f1 -f quarter)) f1 = true.
Proof.
  apply (tracking_fails_closed policy0 command0 [quarter]) with (j := 0); [vm_compute; reflexivity|reflexivity..].
Defined.

(** A deployment may narrow the robot description's position limits and
    never expand them: whatever it configures, the assembled policy has both
    bounds or none, and no bound passes the description's. *)
Theorem build_only_narrows config lo hi p pl pu :
  build_execution_policy config (Some (lo, hi)) = Ok (Some p) ->
  position_lower p = Some pl -> position_upper p = Some pu ->
  length lo = length (torque_limits p) -> length hi = length (torque_limits p) ->
  forall j, j < length (torque_limits p) ->
    fltb (fget pl j) (fget lo j) = false /\ fltb (fget hi j) (fget pu j) = false.
Proof.
  unfold build_execution_policy. intros H Hpl Hpu Llo Lhi j Hj. destruct config as [c|]; [|done].
  apply rbind_ok in H as (q & Hq & H). destruct (ExecutionPolicy_new_ok _ _ Hq) as [_ Hok].
  assert (q = p) as ->.
  { destruct (position_lower q), (position_upper q); try (by injection H).
    apply rbind_ok in H as (a & _ & H). apply rbind_ok in H as (b & _ & H). pass_guard H E. by injection H. }
  rewrite Hpl, Hpu in H. apply rbind_ok in H as (a & Ha & H). apply rbind_ok in H as (b & Hb & H).
  pass_guard H E. apply orb_false_iff in E as [-> ->].
  destruct (ok_lower p Hok pl Hpl) as [L1 _]. destruct (ok_upper p Hok pu Hpu) as [L2 _].
  split.
  - eapply (any2_false fltb pl lo j); [congruence|done|apply fget_lookup; lia..].
  - eapply (any2_false (fun x y => fltb y x) pu hi j); [congruence|done|apply fget_lookup; lia..].
Qed.

Example build_only_narrows_witness :
  fltb (fopp f1) (fopp f2) = false.
Proof.
  apply (build_only_narrows (Some policy0) [fopp f2] [f2] policy0 [fopp f1] [f1]) with (j := 0);
    try reflexivity. simpl. lia.
Defined.
