(* ===== verification/Jog.v ===== *)
(** The envelope around a jog step ([planning/jog.py]): five gates in order of
    cost, each of which refuses with its reason.  The two expensive facts, the
    smallest singular value and the collision oracle, are arguments, as in the
    source. *)
From Stdlib Require Import SpecFloat PrimFloat FloatOps.
From S2P Require Import Prelude Floats.

(** ** The envelope *)

Record JogLimits := {
  max_travel_m : float;
  speed_m_s : float;
  rot_speed_rad_s : float;
  floor_z : option float;
  floor_clearance_m : float;
  workspace_min : option vec;
  workspace_max : option vec;
  joint_margin_rad : float;
  sigma_min : float;
}.

Definition JogLimits_new (l : JogLimits) : result JogLimits :=
  raise_if existsb (fun x => negb (x >f f0)) [max_travel_m l; speed_m_s l; rot_speed_rad_s l] of ValueError "jog speed or travel must be positive" ;;
  raise_if existsb (fun x => x <f f0) [floor_clearance_m l; joint_margin_rad l; sigma_min l] of ValueError "jog margin must not be negative" ;;
  Ok l.

(** The dataclass defaults *)
Definition default_limits : JogLimits := Eval vm_compute in {|
  max_travel_m := Prim2SF 0.20; speed_m_s := Prim2SF 0.01; rot_speed_rad_s := Prim2SF 0.10; floor_z := Some f0;
  floor_clearance_m := Prim2SF 0.02; workspace_min := None; workspace_max := None; joint_margin_rad := Prim2SF 0.05;
  sigma_min := Prim2SF 0.02 |}%float.

Record JogVerdict := { ok : bool; reason : string }.
Definition approved : JogVerdict := {| ok := true; reason := "" |}.
Definition refused (why : string) : JogVerdict := {| ok := false; reason := why |}.

(** A gate: a refusal, or the rest of the checks. *)
Notation "'gate' g ;; k" := (v <-- g ;; match v with Some why => Ok (refused why) | None => k end)
  (at level 100, g at next level, right associativity) : py_scope.

(** ** The gates *)

(** [v[i]] of an array *)
Definition item (v : vec) (i : nat) : result float := match v !! i with Some x => Ok x | None => Err IndexError end.
(** ['xyz'[i]] *)
Definition axis (i : nat) : result unit := if i <? 3 then Ok tt else Err IndexError.

(** 1. The stroke from where the jog started *)
Definition stroke_gate (p anchor : vec) (l : JogLimits) : result (option string) :=
  d <-- bcast fsub p anchor ;;
  let travel := np_abs d in
  m <-- vec_max travel ;;
  if m >f max_travel_m l then
    _ <-- axis (default 0 (first_index (fun x => x =f m) travel)) ;; Ok (Some "stroke limit"%string)
  else Ok None.

(** 2. The floor, and one side of the workspace box with its [sense] *)
Definition floor_gate (p : vec) (l : JogLimits) : result (option string) :=
  match floor_z l with
  | None => Ok None
  | Some z => x <-- item p 2 ;; Ok (if x <f (z +f floor_clearance_m l) then Some "floor"%string else None)
  end.

(** The [sense] of the minimum *)
Definition minus_one : float := Eval vm_compute in fopp f1.
Definition workspace_gate (p : vec) (bound : option vec) (sense : float) (side : string) : result (option string) :=
  match bound with
  | None => Ok None
  | Some b =>
      bad <-- bcast (fun x y => ((x -f y) *f sense) <f f0) p b ;;
      match first_index (fun x => x) bad with
      | None => Ok None
      | Some i => _ <-- axis i ;; _ <-- item p i ;; _ <-- item b i ;; Ok (Some side)
      end
  end.

(** [a | b] of two masks, with numpy's broadcasting *)
Definition mask_or (a b : list bool) : result (list bool) :=
  if length a =? length b then Ok (zip_with orb a b)
  else match a, b with
  | [x], _ => Ok (map (orb x) b)
  | _, [y] => Ok (map (fun x => x || y) a)
  | _, _ => Err (ValueError "operands could not be broadcast together")
  end.
(** [np.where(mask)[0]] *)
Fixpoint where_from (i : nat) (mask : list bool) : list nat :=
  match mask with [] => [] | b :: mask => (if b then [i] else []) ++ where_from (S i) mask end.

(** How far outside its usable band a joint is *)
Definition overshoot (lo hi x : float) : float := py_max (py_max (lo -f x) (x -f hi)) f0.

(** 3. A joint outside its band blocks a step that pushes it further out. *)
Fixpoint joint_loop (q now : vec) (known : bool) (lo hi : vec) (l : list nat) : result (option string) :=
  match l with
  | [] => Ok None
  | i :: l =>
      a <-- item lo i ;; x <-- item q i ;; b <-- item hi i ;;
      if known then
        y <-- item now i ;;
        if overshoot a b x <=f overshoot a b y then joint_loop q now known lo hi l else Ok (Some "joint limit"%string)
      else Ok (Some "joint limit"%string)
  end.
Definition usable (q_lower q_upper : vec) (l : JogLimits) : vec * vec :=
  (map (fun x => x +f joint_margin_rad l) q_lower, map (fun x => x -f joint_margin_rad l) q_upper).
Definition joint_gate (q : vec) (now : option vec) (band : vec * vec) : result (option string) :=
  below <-- bcast fltb q band.1 ;;
  above <-- bcast (fun x y => x >f y) q band.2 ;;
  mask <-- mask_or below above ;;
  joint_loop q (default [] now) (is_some now) band.1 band.2 (where_from 0 mask).

(** 4. and 5. The oracles of the caller *)
Definition sigma_gate (q : vec) (sigma : option (vec -> result float)) (l : JogLimits) : result (option string) :=
  match sigma with
  | None => Ok None
  | Some f => s <-- f q ;; Ok (if s <f sigma_min l then Some "singularity"%string else None)
  end.
Definition collision_gate (q : vec) (collides : option (vec -> result bool)) : result (option string) :=
  match collides with
  | None => Ok None
  | Some f => c <-- f q ;; Ok (if c then Some "collision: the arm would hit itself"%string else None)
  end.

Definition check_step (p_next q_next anchor : vec) (limits : JogLimits) (q_lower q_upper : vec) (q_now : option vec)
    (sigma : option (vec -> result float)) (collides : option (vec -> result bool)) : result JogVerdict :=
  gate stroke_gate p_next anchor limits ;;
  gate floor_gate p_next limits ;;
  gate workspace_gate p_next (workspace_min limits) minus_one "workspace min" ;;
  gate workspace_gate p_next (workspace_max limits) f1 "workspace max" ;;
  gate joint_gate q_next q_now (usable q_lower q_upper limits) ;;
  gate sigma_gate q_next sigma limits ;;
  gate collision_gate q_next collides ;;
  Ok approved.

(** ** What an approved step is *)

Lemma where_from_spec mask i j : j ∈ where_from i mask <-> exists k, j = i + k /\ mask !! k = Some true.
Proof.
  revert i. induction mask as [|b mask IH]; intros i; simpl.
  - split; [by intros ?%not_elem_of_nil|by intros (k & _ & [=])].
  - rewrite elem_of_app, IH. split.
    + intros [H|(k & -> & Hk)]; [|by exists (S k); split; [lia|]].
      destruct b; [|by apply not_elem_of_nil in H]. apply list_elem_of_singleton in H as ->. by exists 0; split; [lia|].
    + intros ([|k] & -> & Hk); simpl in Hk; [left; simplify_eq; apply list_elem_of_singleton; lia|right; exists k; split; [lia|done]].
Qed.

(** The loop passes exactly when every listed joint is no further out than now. *)
Lemma joint_loop_ok q now lo hi l : joint_loop q now true lo hi l = Ok None ->
  Forall (fun i => exists a b x y, lo !! i = Some a /\ hi !! i = Some b /\ q !! i = Some x /\ now !! i = Some y /\
    fleb (overshoot a b x) (overshoot a b y) = true) l.
Proof.
  induction l as [|i l IH]; simpl; [constructor|]. unfold item. intros H. inv_chain H. simplify_eq. constructor; [|auto].
  repeat case_match; simplify_eq. eauto 12.
Qed.
Lemma joint_loop_unknown q lo hi l : joint_loop q [] false lo hi l = Ok None -> l = [].
Proof. destruct l as [|i l]; [done|]. simpl. unfold item. intros H. by inv_chain H. Qed.

Lemma mask_or_lookup a b m i x y : length a = length b -> mask_or a b = Ok m -> a !! i = Some x -> b !! i = Some y -> m !! i = Some (x || y).
Proof.
  intros Hl H Hx Hy. unfold mask_or in H. rewrite Hl, Nat.eqb_refl in H. injection H as <-. by rewrite lookup_zip_with, Hx, Hy.
Qed.

(** One joint of an approved step: inside its usable band (NaN passes), or no
    further out of it than it is now. *)
Definition joint_kept (now : option vec) (lo hi : vec) (i : nat) (x : float) : Prop :=
  exists a b, lo !! i = Some a /\ hi !! i = Some b /\
    ((fltb x a = false /\ fltb b x = false) \/
     exists v y, now = Some v /\ v !! i = Some y /\ fleb (overshoot a b x) (overshoot a b y) = true).

Lemma joint_gate_ok q now lo hi : length lo = length q -> length hi = length q -> joint_gate q now (lo, hi) = Ok None ->
  forall i x, q !! i = Some x -> joint_kept now lo hi i x.
Proof.
  intros Hlo Hhi H i x Hx. unfold joint_gate in H. simpl in H. apply rbind_ok in H as (below & Hb & H).
  apply rbind_ok in H as (above & Ha & H). apply rbind_ok in H as (mask & Hm & H).
  destruct (lookup_lt_is_Some_2 lo i) as [a Ea]; [rewrite Hlo; by eapply lookup_lt_Some|].
  destruct (lookup_lt_is_Some_2 hi i) as [b Eb]; [rewrite Hhi; by eapply lookup_lt_Some|].
  exists a, b. split; [done|]. split; [done|].
  pose proof (bcast_ok_lookup _ _ _ _ (eq_sym Hlo) Hb _ _ _ Hx Ea) as B1. pose proof (bcast_ok_lookup _ _ _ _ (eq_sym Hhi) Ha _ _ _ Hx Eb) as B2.
  unfold bcast in Hb, Ha. rewrite Hlo, Nat.eqb_refl in Hb. rewrite Hhi, Nat.eqb_refl in Ha. simplify_eq.
  assert (L : mask !! i = Some (fltb x a || fltb b x)).
  { eapply mask_or_lookup; [|exact Hm|exact B1|exact B2]. by rewrite !length_zip_with, Hlo, Hhi. }
  destruct (fltb x a || fltb b x) eqn:E; [|left; by breflect]. right.
  assert (Hi : i ∈ where_from 0 mask) by (apply where_from_spec; by exists i).
  destruct now as [v|]; simpl in H.
  - apply joint_loop_ok in H. rewrite Forall_forall in H. destruct (H i Hi) as (a' & b' & x' & y & ? & ? & ? & ? & ?). simplify_eq. eauto.
  - apply joint_loop_unknown in H. rewrite H in Hi. by apply not_elem_of_nil in Hi.
Qed.

Lemma gate_ok (g : result (option string)) k v : (gate g ;; k) = Ok v -> ok v = true -> g = Ok None /\ k = Ok v.
Proof. destruct g as [[why|]|e]; simpl; [intros [= <-]; done|auto|done]. Qed.

Lemma item_lookup v i x : v !! i = Some x -> item v i = Ok x.
Proof. unfold item. by intros ->. Qed.

Lemma stroke_gate_ok p anchor l : length p = length anchor -> all_finite p = true -> all_finite anchor = true ->
  isnan (max_travel_m l) = false -> stroke_gate p anchor l = Ok None ->
  forall i x a, p !! i = Some x -> anchor !! i = Some a -> fleb (fabs (fsub x a)) (max_travel_m l) = true.
Proof.
  intros Hl Fp Fa Hn H i x a Hx Ha. unfold stroke_gate in H. apply rbind_ok in H as (d & Hd & H). apply rbind_ok in H as (m & Hm & H).
  destruct (_ >f _) eqn:E; [by inv_chain H|].
  assert (Hfin : Forall (fun y => isnan y = false) (np_abs d)).
  { unfold bcast in Hd. rewrite Hl, Nat.eqb_refl in Hd. injection Hd as <-. apply Forall_map, Forall_lookup_2. intros j y Hy.
    apply lookup_zip_with_Some in Hy as (u & v & -> & Hu & Hv). rewrite fabs_nan.
    apply fsub_nan; [apply finite_not_nan, (all_finite_lookup p j)|apply (all_finite_lookup anchor j)]; done. }
  assert (Hm0 : isnan m = false).
  { unfold vec_max in Hm. destruct (np_abs d) as [|y v]; [done|]. injection Hm as <-. apply Forall_cons in Hfin as [Hy Hv].
    clear - Hy Hv. revert y Hy. induction Hv as [|z v Hz _ IH]; intros y Hy; simpl; [done|]. apply IH. by apply np_max_nan. }
  apply fltb_false in E; [|done..].
  pose proof (vec_max_le _ _ _ Hm E) as HF. rewrite Forall_lookup in HF. apply (HF i). unfold np_abs. rewrite list_lookup_fmap.
  by rewrite (bcast_ok_lookup _ _ _ _ Hl Hd _ _ _ Hx Ha).
Qed.

(** C23: an approved step of finite poses stays within the stroke of the anchor on
    every axis and not under the floor and its clearance; leaves each joint inside
    its usable band, or no further outside it than it is now; keeps the smallest
    singular value from being under its limit, and is not in collision. *)
Theorem approved_step_is_safe p q anchor l q_lower q_upper now sigma collides v :
  length p = 3 -> length anchor = 3 -> all_finite p = true -> all_finite anchor = true -> isnan (max_travel_m l) = false ->
  length q_lower = length q -> length q_upper = length q ->
  check_step p q anchor l q_lower q_upper now sigma collides = Ok v -> ok v = true ->
  (forall i x a, p !! i = Some x -> anchor !! i = Some a -> fleb (fabs (fsub x a)) (max_travel_m l) = true) /\
  (forall z x, floor_z l = Some z -> p !! 2 = Some x -> fltb x (z +f floor_clearance_m l) = false) /\
  (forall i x, q !! i = Some x -> joint_kept now (usable q_lower q_upper l).1 (usable q_lower q_upper l).2 i x) /\
  (forall f, sigma = Some f -> exists s, f q = Ok s /\ fltb s (sigma_min l) = false) /\
  (forall f, collides = Some f -> f q = Ok false).
Proof.
  intros Hp Ha Fp Fa Hn Hlo Hhi H Hv. unfold check_step in H.
  apply gate_ok in H as [H1 H]; [|done]. apply gate_ok in H as [H2 H]; [|done]. apply gate_ok in H as [_ H]; [|done].
  apply gate_ok in H as [_ H]; [|done]. apply gate_ok in H as [H3 H]; [|done]. apply gate_ok in H as [H4 H]; [|done].
  apply gate_ok in H as [H5 _]; [|done]. split_and!.
  - apply stroke_gate_ok; [congruence|done..].
  - intros z x Hz Hx. unfold floor_gate in H2. rewrite Hz in H2. rewrite (item_lookup _ _ _ Hx) in H2. simpl in H2.
    by destruct (fltb x _).
  - apply joint_gate_ok; [by simpl; rewrite length_map..|exact H3].
  - intros f ->. simpl in H4. destruct (f q) as [s|e]; [|done]. exists s. simpl in H4. by destruct (fltb s _).
  - intros f ->. simpl in H5. destruct (f q) as [[]|e]; done.
Qed.

(** The escape hatch is never locked: when no joint outside its band ends up
    further out than it is now, the joint gate lets the step pass. *)
Theorem escape_is_not_locked q now lo hi :
  length lo = length q -> length hi = length q -> length now = length q ->
  (forall i a b x y, lo !! i = Some a -> hi !! i = Some b -> q !! i = Some x -> now !! i = Some y ->
     fltb x a = true \/ fltb b x = true -> fleb (overshoot a b x) (overshoot a b y) = true) ->
  joint_gate q (Some now) (lo, hi) = Ok None.
Proof.
  intros Hlo Hhi Hnow H. unfold joint_gate, bcast. simpl. rewrite Hlo, Hhi, Nat.eqb_refl. simpl. unfold mask_or.
  rewrite !length_zip_with, Hlo, Hhi, Nat.eqb_refl. simpl.
  set (mask := zip_with orb _ _).
  assert (HF : Forall (fun i => exists a b x y, lo !! i = Some a /\ hi !! i = Some b /\ q !! i = Some x /\ now !! i = Some y /\
    fleb (overshoot a b x) (overshoot a b y) = true) (where_from 0 mask)).
  { apply Forall_forall. intros i (k & -> & Hk)%where_from_spec. simpl. apply lookup_zip_with_Some in Hk as (u & v & E & Hu & Hv).
    apply lookup_zip_with_Some in Hu as (x & a & -> & Hx & Ea). apply lookup_zip_with_Some in Hv as (x' & b & -> & Hx' & Eb). simplify_eq.
    destruct (lookup_lt_is_Some_2 now k) as [y Ey]; [rewrite Hnow; by eapply lookup_lt_Some|].
    exists a, b, x, y. split_and!; try done. eapply H; eauto. symmetry in E. by apply orb_true_iff. }
  induction HF as [|i l (a & b & x & y & Ea & Eb & Ex & Ey & Hle) _ IH]; [done|]. simpl.
  rewrite (item_lookup _ _ _ Ea), (item_lookup _ _ _ Eb), (item_lookup _ _ _ Ex), (item_lookup _ _ _ Ey). simpl. by rewrite Hle.
Qed.

(** ** The box is inverted *)

Lemma neg_nonpos x : valid x = true -> isfinite x = true -> fleb x f0 = true -> fltb (fmul x minus_one) f0 = false.
Proof.
  intros V F H. destruct x as [s|s| |s m e]; try done. destruct s; [|done].
  destruct (fmul_nonzero true m e true 4503599627370496 (-52)) as [(m' & e' & E)|E].
  { unfold valid, valid_binary, bounded, canonical_mantissa in V. apply andb_true_iff in V as [V _]. apply Z.eqb_eq in V.
    unfold lead. unfold fexp, SpecFloat.emin in V. simpl (Zpos (digits2_pos 4503599627370496)). unfold fprec, femax in V. lia. }
  - unfold minus_one. by rewrite E.
  - unfold minus_one. by rewrite E.
Qed.

Lemma first_index_Some {A} (p : A -> bool) l i : first_index p l = Some i -> exists x, l !! i = Some x /\ p x = true.
Proof.
  revert i. induction l as [|a l IH]; intros i; simpl; [done|]. destruct (p a) eqn:E; [intros [= <-]; by exists a|].
  destruct (first_index p l) as [j|]; [|done]. intros [= <-]. by apply IH.
Qed.

(** The gate of the workspace minimum never refuses a point that lies outside
    the box on every axis, at or under its minimum: the sign of its comparison is
    the wrong one (what it refuses is the inside). *)
Theorem outside_the_box_passes p b side :
  length p = 3 -> length b = 3 -> all_finite p = true -> all_finite b = true ->
  Forall (fun x => valid x = true) p -> Forall (fun x => valid x = true) b ->
  Forall (fun d => valid d = true /\ isfinite d = true) (zip_with fsub p b) ->
  (forall i x y, p !! i = Some x -> b !! i = Some y -> fleb x y = true) ->
  workspace_gate p (Some b) minus_one side = Ok None.
Proof.
  intros Hp Hb Fp Fb Vp Vb Vd H. unfold workspace_gate, bcast. rewrite Hp, Hb. simpl.
  destruct (first_index _ _) as [i|] eqn:E; [|done]. exfalso. apply first_index_Some in E as (v & E & Hv). subst v.
  apply lookup_zip_with_Some in E as (x & y & E & Hx & Hy). symmetry in E.
  rewrite Forall_lookup in Vp, Vb, Vd. destruct (Vd i (fsub x y)) as [V F]; [by rewrite lookup_zip_with, Hx, Hy|].
  rewrite (neg_nonpos (fsub x y)) in E; [done|done|done|]. apply fsub_nonpos; [by apply (all_finite_lookup p i)|by apply (all_finite_lookup b i)|eauto..].
Qed.

(** ** At concrete poses *)

Module JogDemo.
Definition half : float := Eval vm_compute in Prim2SF 0.5%float.
Definition near : float := Eval vm_compute in Prim2SF 0.51%float.
Definition two : float := Eval vm_compute in Prim2SF 2%float.
Definition stop_ : float := Eval vm_compute in Prim2SF 3%float.
Definition inner : float := Eval vm_compute in Prim2SF 2.99%float.
Definition anchor : vec := [half; half; half].
Definition pose : vec := [near; half; half].
Definition band : vec * vec := ([fopp stop_; fopp stop_], [stop_; stop_]).
Definition boxed : JogLimits := {|
  max_travel_m := two; speed_m_s := f1; rot_speed_rad_s := f1; floor_z := None; floor_clearance_m := f0;
  workspace_min := Some [f0; f0; f0]; workspace_max := None; joint_margin_rad := f0; sigma_min := f0 |}.
Definition verdict p l := check_step p [f0; f0] anchor l band.1 band.2 None None None.

Lemma approved_step_is_safe_witness :
  check_step pose [inner; f0] anchor default_limits band.1 band.2 (Some [stop_; f0]) (Some (fun _ => Ok f1)) (Some (fun _ => Ok false)) = Ok approved /\
  (forall i x a, pose !! i = Some x -> anchor !! i = Some a -> fleb (fabs (fsub x a)) (max_travel_m default_limits) = true) /\
  joint_kept (Some [stop_; f0]) (usable band.1 band.2 default_limits).1 (usable band.1 band.2 default_limits).2 0 inner.
Proof.
  assert (H : check_step pose [inner; f0] anchor default_limits band.1 band.2 (Some [stop_; f0]) (Some (fun _ => Ok f1)) (Some (fun _ => Ok false)) = Ok approved) by (vm_compute; reflexivity).
  destruct (approved_step_is_safe pose [inner; f0] anchor default_limits band.1 band.2 (Some [stop_; f0]) (Some (fun _ => Ok f1))
    (Some (fun _ => Ok false)) approved eq_refl eq_refl eq_refl eq_refl eq_refl eq_refl eq_refl H eq_refl) as (H1 & _ & H3 & _).
  split; [exact H|]. split; [exact H1|]. apply H3. reflexivity.
Defined.

(** A joint on its stop jogs away from it. *)
Lemma escape_is_not_locked_witness : joint_gate [inner] (Some [stop_]) ([fopp two], [two]) = Ok None.
Proof.
  apply escape_is_not_locked; [reflexivity..|]. intros [|i] a b x y Ha Hb Hx Hy _; [|discriminate Ha].
  injection Ha as <-. injection Hb as <-. injection Hx as <-. injection Hy as <-. vm_compute. reflexivity.
Defined.

(** Outside the box [0, oo)^3 a step passes, inside it is refused. *)
Lemma outside_the_box_passes_witness :
  workspace_gate [fopp half; fopp half; fopp half] (workspace_min boxed) minus_one "workspace min" = Ok None /\
  verdict [fopp half; fopp half; fopp half] boxed = Ok approved /\ verdict pose boxed = Ok (refused "workspace min").
Proof.
  split; [|split; vm_compute; reflexivity]. apply outside_the_box_passes; [reflexivity..| | | |].
  - repeat constructor.
  - repeat constructor.
  - vm_compute. repeat constructor.
  - intros [|[|[|i]]] x y Hx Hy; simpl in *; simplify_eq; reflexivity.
Defined.
End JogDemo.
