(* ===== verification/Effects.v ===== *)
(** Objects with attributes, exceptions and outputs.

    A Python object is a record; an assignment to an attribute is the update
    [r <| field := v |>], which works for every record with an [Eta] instance.
    A method is a computation of [M]: it maps the world (the object, and what it
    has said so far) to a result and the next world; an exception keeps the
    assignments made before it, as in Python.

    The logic: [steps R m] says that [m] relates the world before to the world
    after by [R], whether it returns or raises; for a preorder it goes through
    sequences, branches and handlers, and the tactic [steps] does the walk with
    the lemmas of the hint database [steps].  [wp m Q w] is the weakest precondition. *)
From S2P Require Import Prelude.

(** ** Record update *)

Class Eta (R : Type) := eta : R -> R.
Class Setter {R A : Type} (proj : R -> A) := setter : A -> R -> R.
Arguments setter {R A} proj {_} v r /.

(** Abstracts the projection out of the eta expansion of its record. *)
Ltac find_setter proj :=
  lazymatch type of proj with
  | ?R -> _ =>
      let i := constr:(_ : Eta R) in
      let e := eval red in i in
      lazymatch (eval pattern proj in e) with
      | ?f _ => exact (fun v => f (fun _ => v))
      end
  end.
#[export] Hint Extern 1 (@Setter _ _ ?proj) => find_setter proj : typeclass_instances.

Declare Scope record_scope.
Delimit Scope record_scope with rec.
Notation "r <| f := v |>" := (setter f v r)
  (at level 8, left associativity, format "r  <| f  :=  v |>") : record_scope.
Open Scope record_scope.

(** ** Computations *)

Section World.
Context {S O : Type}.

(** The object, and its outputs (latest first), each with the object as it was
    when it spoke; [asked] counts the questions put to the outside. *)
Record world := { obj : S; out : list (S * O); asked : nat }.
#[global] Instance eta_world : Eta world := fun w => {| obj := obj w; out := out w; asked := asked w |}.

Definition M (A : Type) : Type := world -> result A * world.
Definition ret {A} (a : A) : M A := fun w => (Ok a, w).
Definition throw {A} (e : exn) : M A := fun w => (Err e, w).
Definition lift {A} (r : result A) : M A := fun w => (r, w).
Definition bind {A B} (m : M A) (k : A -> M B) : M B :=
  fun w => match m w with (Ok a, w') => k a w' | (Err e, w') => (Err e, w') end.
(** [try: m except (ValueError, TypeError, ...) as e: h(e)] *)
Definition catch {A} (caught : exn -> bool) (m : M A) (h : exn -> M A) : M A :=
  fun w => match m w with
           | (Err e, w') => if caught e then h e w' else (Err e, w')
           | r => r
           end.
(** [try: m finally: f]; [f] runs whatever [m] did. *)
Definition finally {A} (m : M A) (f : M unit) : M A :=
  fun w => let '(r, w1) := m w in match f w1 with (Ok _, w2) => (r, w2) | (Err e, w2) => (Err e, w2) end.
Definition get : M S := fun w => (Ok (obj w), w).
(** An assignment to attributes. *)
Definition upd (f : S -> S) : M unit := fun w => (Ok tt, w <| obj := f (obj w) |>).
Definition say (o : O) : M unit := fun w => (Ok tt, w <| out := (obj w, o) :: out w |>).
(** A question to the outside: its answers are indexed by their order. *)
Definition ask : M nat := fun w => (Ok (asked w), w <| asked := Datatypes.S (asked w) |>).
Definition when (b : bool) (m : M unit) : M unit := if b then m else ret tt.
Definition some_or {A} (o : option A) (e : exn) : M A := match o with Some a => ret a | None => throw e end.
End World.
Arguments world S O : clear implicits.
Arguments M S O A : clear implicits.

Notation "x <~ m ;; k" := (bind m (fun x => k)) (at level 100, m at next level, right associativity) : record_scope.
Notation "m ;~ k" := (bind m (fun _ => k)) (at level 100, right associativity) : record_scope.

(** ** The logic *)

Create HintDb steps.

Section Logic.
Context {S O : Type}.
Abbreviation world := (world S O).
Abbreviation M := (M S O).

(** A relation of worlds that a sequence of calls composes; the flag says whether
    the call returned, so a relation may promise less of one that raised. *)
Class Flow (R : bool -> world -> world -> Prop) := {
  flow_refl b w : R b w w;
  flow_trans b w w' w'' : R true w w' -> R b w' w'' -> R b w w'';
  flow_weak w w' : R true w w' -> R false w w';
}.

Definition steps {A} (R : bool -> world -> world -> Prop) (m : M A) : Prop := forall w, R (is_ok (m w).1) w (m w).2.

Lemma bind_cases {A B} (m : M A) (k : A -> M B) w :
  (exists a, (m w).1 = Ok a /\ bind m k w = k a (m w).2) \/ (exists e, (m w).1 = Err e /\ bind m k w = (Err e, (m w).2)).
Proof. unfold bind. destruct (m w) as [[a|e] w']; eauto. Qed.

Lemma bind_ok {A B} (m : M A) (k : A -> M B) w b w' :
  bind m k w = (Ok b, w') -> exists a w1, m w = (Ok a, w1) /\ k a w1 = (Ok b, w').
Proof. unfold bind. destruct (m w) as [[a|e] w1]; [eauto|done]. Qed.

(** Weakest preconditions, for the proofs that need the value a call returned. *)
Definition wp {A} (m : M A) (Q : result A -> world -> Prop) (w : world) : Prop := Q (m w).1 (m w).2.

Lemma wp_ret {A} (a : A) Q w : Q (Ok a) w -> wp (ret a) Q w.
Proof. done. Qed.
Lemma wp_get {A} (k : S -> M A) Q w : wp (k (obj w)) Q w -> wp (bind get k) Q w.
Proof. done. Qed.
Lemma wp_upd {A} f (k : unit -> M A) Q w : wp (k tt) Q (w <| obj := f (obj w) |>) -> wp (bind (upd f) k) Q w.
Proof. done. Qed.
Lemma wp_say {A} o (k : unit -> M A) Q w : wp (k tt) Q (w <| out := (obj w, o) :: out w |>) -> wp (bind (say o) k) Q w.
Proof. done. Qed.
Lemma wp_lift {A B} (r : result A) (k : A -> M B) Q w :
  (forall a, r = Ok a -> wp (k a) Q w) -> (forall e, r = Err e -> Q (Err e) w) -> wp (bind (lift r) k) Q w.
Proof. intros H1 H2. destruct r; [by apply H1|by apply H2]. Qed.
Lemma wp_bind {A B} (m : M A) (k : A -> M B) Q w :
  wp m (fun r w' => match r with Ok a => wp (k a) Q w' | Err e => Q (Err e) w' end) w -> wp (bind m k) Q w.
Proof. unfold wp, bind. by destruct (m w) as [[a|e] w']. Qed.
Lemma wp_mono {A} (m : M A) (P Q : result A -> world -> Prop) w : (forall r w', P r w' -> Q r w') -> wp m P w -> wp m Q w.
Proof. intros H. apply H. Qed.
(** A call of which only the relation matters. *)
Lemma wp_steps {A B} R (m : M A) (k : A -> M B) Q w :
  steps R m -> (forall a w', m w = (Ok a, w') -> R true w w' -> wp (k a) Q w') ->
  (forall e w', R false w w' -> Q (Err e) w') -> wp (bind m k) Q w.
Proof.
  intros Hm H1 H2. apply wp_bind. specialize (Hm w). unfold wp. destruct (m w) as [[a|e] w']; [by apply H1|by apply H2].
Qed.

Section Flow.
Context (R : bool -> world -> world -> Prop) `{!Flow R}.

Lemma steps_ret {A} (a : A) : steps R (ret a).
Proof. intros w. apply flow_refl. Qed.
Lemma steps_throw {A} e : steps R (throw (A:=A) e).
Proof. intros w. apply flow_refl. Qed.
Lemma steps_lift {A} (r : result A) : steps R (lift r).
Proof. intros w. apply flow_refl. Qed.
Lemma steps_get : steps R get.
Proof. intros w. apply flow_refl. Qed.
Lemma steps_some_or {A} (o : option A) e : steps R (some_or o e).
Proof. intros w. destruct o; apply flow_refl. Qed.

Lemma steps_bind {A B} (m : M A) (k : A -> M B) :
  steps R m -> (forall a, steps R (k a)) -> steps R (bind m k).
Proof.
  intros Hm Hk w. specialize (Hm w).
  destruct (bind_cases m k w) as [(a & Ha & ->)|(e & He & ->)].
  - rewrite Ha in Hm. eapply flow_trans; [exact Hm|apply Hk].
  - by rewrite He in Hm.
Qed.

(** The body of a [try] must keep the promise even where it raises. *)
Lemma steps_catch {A} c (m : M A) h :
  (forall w, R true w (m w).2) -> (forall e, steps R (h e)) -> steps R (catch c m h).
Proof.
  intros Hm Hh w. specialize (Hm w). unfold catch. destruct (m w) as [[a|e] w']; [done|].
  destruct (c e); [eapply flow_trans; [exact Hm|apply Hh]|by apply flow_weak].
Qed.

Lemma steps_finally {A} (m : M A) f :
  (forall w, R true w (m w).2) -> steps R f -> steps R (finally m f).
Proof.
  intros Hm Hf w. specialize (Hm w). unfold finally. destruct (m w) as [r w1]. simpl in Hm. specialize (Hf w1).
  destruct (f w1) as [[[]|e] w2]; simpl in *; [destruct r; simpl; [|apply flow_weak]|]; by eapply flow_trans.
Qed.

Lemma steps_when b (m : M unit) : steps R m -> steps R (when b m).
Proof. destruct b; [done|]. intros _. apply steps_ret. Qed.

(** The promise at one world, when it depends on the object. *)
Definition flows {A} (m : M A) (w : world) : Prop := R (is_ok (m w).1) w (m w).2.
Lemma flows_steps {A} (m : M A) w : steps R m -> flows m w.
Proof. intros H. apply H. Qed.
Lemma flows_bind {A B} (m : M A) (k : A -> M B) w :
  flows m w -> (forall x w', m w = (Ok x, w') -> flows (k x) w') -> flows (bind m k) w.
Proof.
  unfold flows, bind. intros Hm Hk. destruct (m w) as [[x|e] w'] eqn:E; simpl in *; [|done].
  eapply flow_trans; [exact Hm|by apply Hk].
Qed.
End Flow.

(** A preorder, as a relation that does not look at the flag. *)
#[global] Instance flow_preorder (R : world -> world -> Prop) : PreOrder R -> Flow (fun _ => R).
Proof. intros HR. split; [intros; reflexivity|intros; by etrans|done]. Qed.
End Logic.

#[export] Hint Resolve steps_ret steps_throw steps_lift steps_get steps_some_or : steps.

(** An attribute a computation does not assign. *)
Definition kept {S O A} (f : S -> A) (_ : bool) (w w' : world S O) : Prop := f (obj w') = f (obj w).
#[export] Instance kept_flow {S O A} (f : S -> A) : Flow (kept (O:=O) f).
Proof. split; unfold kept; congruence. Qed.
Lemma kept_eq {S O A B} (f : S -> A) (m : M S O B) w r w' : steps (kept f) m -> m w = (r, w') -> f (obj w') = f (obj w).
Proof. intros H E. specialize (H w). by rewrite E in H. Qed.
#[export] Hint Extern 1 (steps (kept _) (upd _)) => intros ?; exact eq_refl : steps.
#[export] Hint Extern 1 (steps (kept _) (say _)) => intros ?; exact eq_refl : steps.
#[export] Hint Extern 1 (steps (kept _) ask) => intros ?; exact eq_refl : steps.

(** What is said extends what was said before. *)
Definition grown {S O} (_ : bool) (w w' : world S O) : Prop := exists new, out w' = new ++ out w.
#[export] Instance grown_flow {S O} : Flow (grown (S:=S) (O:=O)).
Proof.
  split; [by exists []| |done]. intros b w w' w'' (n1 & O1) (n2 & O2). exists (n2 ++ n1). by rewrite O2, O1, app_assoc.
Qed.
Lemma grown_upd {S O} f : steps (grown (S:=S) (O:=O)) (upd f).
Proof. intros w. by exists []. Qed.
Lemma grown_ask {S O} : steps (grown (S:=S) (O:=O)) ask.
Proof. intros w. by exists []. Qed.
Lemma grown_say {S O} o : steps (grown (S:=S) (O:=O)) (say o).
Proof. intros w. by exists [(obj w, o)]. Qed.
#[export] Hint Resolve grown_upd grown_ask grown_say : steps.

(** Every output satisfies [P]. *)
Definition says {S O} (P : S * O -> Prop) (_ : bool) (w w' : world S O) : Prop :=
  exists new, out w' = new ++ out w /\ Forall P new.
#[export] Instance says_flow {S O} (P : S * O -> Prop) : Flow (says P).
Proof.
  split; [by exists []| |done]. intros b w w' w'' (n1 & O1 & F1) (n2 & O2 & F2). exists (n2 ++ n1).
  split; [by rewrite O2, O1, app_assoc|by apply Forall_app].
Qed.
Lemma says_upd {S O} (P : S * O -> Prop) f : steps (says P) (upd f).
Proof. intros w. by exists []. Qed.
Lemma says_ask {S O} (P : S * O -> Prop) : steps (says P) ask.
Proof. intros w. by exists []. Qed.
Lemma says_say {S O} (P : S * O -> Prop) o : (forall s, P (s, o)) -> steps (says P) (say o).
Proof. intros H w. exists [(obj w, o)]. split; [done|by constructor]. Qed.
#[export] Hint Resolve says_upd says_ask : steps.

(** An invariant that a computation preserves, whether it returns or raises. *)
Definition saves {S O} (I : world S O -> Prop) (_ : bool) (w w' : world S O) : Prop := I w -> I w'.
#[export] Instance saves_flow {S O} (I : world S O -> Prop) : Flow (saves I).
Proof. split; unfold saves; auto. Qed.
Lemma saves_upd {S O} (I : world S O -> Prop) f : (forall w, I w -> I (w <| obj := f (obj w) |>)) -> steps (saves I) (upd f).
Proof. intros H w Hw. by apply H. Qed.
Lemma saves_say {S O} (I : world S O -> Prop) o : (forall w, I w -> I (w <| out := (obj w, o) :: out w |>)) -> steps (saves I) (say o).
Proof. intros H w Hw. by apply H. Qed.

(** The relations that do not look at the flag go through a handler as they are. *)
Lemma steps_try {S O A} (R : world S O -> world S O -> Prop) c (m : M S O A) h :
  Flow (fun _ => R) -> steps (fun _ => R) m -> (forall e, steps (fun _ => R) (h e)) -> steps (fun _ => R) (catch c m h).
Proof. intros HF Hm Hh. apply steps_catch; [exact HF|exact Hm|exact Hh]. Qed.
Lemma steps_ensure {S O A} (R : world S O -> world S O -> Prop) (m : M S O A) f :
  Flow (fun _ => R) -> steps (fun _ => R) m -> steps (fun _ => R) f -> steps (fun _ => R) (finally m f).
Proof. intros HF Hm Hf. apply steps_finally; [exact HF|exact Hm|exact Hf]. Qed.
(** An invariant goes through a handler. *)
Lemma saves_catch {S O A} (I : world S O -> Prop) c (m : M S O A) h :
  steps (saves I) m -> (forall e, steps (saves I) (h e)) -> steps (saves I) (catch c m h).
Proof. intros Hm Hh. apply (steps_catch (saves I)); [exact Hm|exact Hh]. Qed.

Lemma says_catch {S O A} (P : S * O -> Prop) c (m : M S O A) h :
  steps (says P) m -> (forall e, steps (says P) (h e)) -> steps (says P) (catch c m h).
Proof. intros Hm Hh. apply (steps_catch (says P)); [exact Hm|exact Hh]. Qed.

(** Walks a computation: sequences, branches and matches, then the lemmas known
    for the pieces. *)
Ltac steps :=
  repeat first
    [ progress intros
    | solve [eauto 3 with steps typeclass_instances nocore]
    | apply steps_bind; [typeclasses eauto|..]
    | apply steps_when; [typeclasses eauto|..]
    | match goal with
      | |- steps _ (if ?b then _ else _) => destruct b eqn:?
      | |- steps _ (match ?x with _ => _ end) => destruct x eqn:?
      end
    | progress cbv zeta ].
