(* ===== verification/Executor.v ===== *)
(** Servo commands and the released reference: [control/trajectory_executor.py]
    and [control/reference.py].

    The rigid-body models are outside ([Dynamics]: gravity, inverse dynamics,
    payload gravity and frame poses, each of which may raise), and so are the
    matrix product, the vector norm and the arc cosine of numpy.  A model has an
    identity, since the executor compares the installed one with the one it was
    built with. *)
From Stdlib Require Import SpecFloat PrimFloat FloatOps.
From S2P Require Import Prelude Floats Motion Policy Effects.

Record Dynamics := {
  dyn_id : nat;
  dyn_joints : list string;
  gravity : vec -> result vec;
  rnea : vec -> vec -> vec -> result vec;
  payload_gravity : vec -> float -> string -> option vec -> result vec;
  frame_pose : option (vec -> string -> result mat);   (** absent from a body-list model *)
}.

(** [gain_error]: why a control law is refused. *)
Definition gain_error (kp kd : vec) : option string :=
  if negb (length kp =? length kd) then Some "kp shape != kd shape"%string
  else if negb (all_finite kp && all_finite kd) then Some "gains must be finite"%string
  else if existsb (fun x => x <f f0) kp || existsb (fun x => x <f f0) kd then Some "gains must be nonnegative"%string
  else if existsb (fun p => (p.1 >f f0) && (p.2 <=f f0)) (zip kp kd) then Some "stiffness with zero damping"%string
  else None.

Record t := {
  joints : list string;
  dyn : Dynamics;
  rigid : Dynamics;
  kp : vec;
  kd : vec;
  max_tau : vec;
  payload_frame : string;
  payload : float * option vec;
  gravity_comp : bool;
  done_pos_tol : float;
  done_vel_tol : float;
  done_pose_tol : option (float * float);
}.
#[export] Instance eta_t : Eta t := fun e => {|
  joints := joints e; dyn := dyn e; rigid := rigid e; kp := kp e; kd := kd e; max_tau := max_tau e;
  payload_frame := payload_frame e; payload := payload e; gravity_comp := gravity_comp e;
  done_pos_tol := done_pos_tol e; done_vel_tol := done_vel_tol e; done_pose_tol := done_pose_tol e |}.

Definition n_joints (e : t) : nat := length (joints e).

Definition c0_02 : float := Eval vm_compute in Prim2SF 0.02%float.
(** [np.radians(5.0)] *)
Definition radians5 : float := Eval vm_compute in Prim2SF 0.08726646259971647%float.
Definition has_frame (frame : string) (d : Dynamics) : bool :=
  negb (bool_decide (frame = ""%string)) && match frame_pose d with Some _ => true | None => false end.

Definition new (joints : list string) (d : Dynamics) (kp kd max_torque : vec) (pos_tol vel_tol : float)
    (gravity_comp : bool) (frame : string) (pose_tol : option (float * float)) : result t :=
  let n := length joints in
  raise_if negb (length kp =? n) || negb (length kd =? n) of ValueError "kp_default, kd_default must have shape (n,)" ;;
  raise_if match gain_error kp kd with Some _ => true | None => false end of ValueError "gains" ;;
  max_torque <-- validate_torque_limits max_torque (Some n) ;;
  let tol := match pose_tol with
             | None => if has_frame frame d then Some (c0_02, radians5) else None
             | Some p => Some p
             end in
  _ <-- match tol with
        | None => Ok tt
        | Some (m, r) =>
            raise_if negb (isfinite m && (m >f f0) && isfinite r && (r >f f0))
              of ValueError "done_pose_tol must be (metres, radians), finite and positive" ;;
            raise_if negb (has_frame frame d)
              of ValueError "done_pose_tol needs a URDF model and its ee frame (payload_frame)" ;;
            match frame_pose d with Some fk => _ <-- fk (replicate n f0) frame ;; Ok tt | None => Ok tt end
        end ;;
  Ok {| joints := joints; dyn := d; rigid := d; kp := kp; kd := kd; max_tau := max_torque; payload_frame := frame;
        payload := (f0, None); gravity_comp := gravity_comp; done_pos_tol := pos_tol; done_vel_tol := vel_tol;
        done_pose_tol := tol |}.

Definition payload_tau (e : t) (q : vec) : result vec :=
  let '(mass, com) := payload e in
  if mass <=f f0 then Ok (replicate (n_joints e) f0) else payload_gravity (dyn e) q mass (payload_frame e) com.

(** [np.clip(tau, -max_tau, max_tau)] *)
Definition clip_torque (e : t) (tau : vec) : result vec := bcast (fun x m => clip x (fopp m) m) tau (max_tau e).

(** The feed-forward sum after its model term, in the source's order. *)
Definition feed_forward (e : t) (model q bias : vec) : result vec :=
  p <-- payload_tau e q ;; a <-- bcast fadd model p ;; b <-- bcast fadd a bias ;;
  c <-- (if gravity_comp e then g <-- gravity (rigid e) q ;; bcast fsub b g else Ok b) ;;
  clip_torque e c.

Definition hold_command (e : t) (state : JointState) (anchor : option vec) (bias : vec) : result JointServoCommand :=
  let q := js_position state in
  g <-- gravity (rigid e) q ;;
  tau <-- feed_forward e g q bias ;;
  Ok {| q_des := default q anchor; qd_des := map (fun _ => f0) q; tau_ff := tau; cmd_kp := kp e; cmd_kd := kd e |}.

Definition step (e : t) (p : TrajectoryPoint) (state : JointState) (bias : vec) : result JointServoCommand :=
  tau <-- rnea (rigid e) (js_position state) (pt_velocity p) (pt_acceleration p) ;;
  tau <-- feed_forward e tau (js_position state) bias ;;
  Ok {| q_des := pt_position p; qd_des := pt_velocity p; tau_ff := tau; cmd_kp := kp e; cmd_kd := kd e |}.

Definition set_payload (e : t) (mass : float) (com : option vec) : result t :=
  raise_if negb (isfinite mass) of ValueError "payload mass must be finite" ;;
  let mass := py_max f0 mass in
  raise_if (mass >f f0) && negb (dyn_id (rigid e) =? dyn_id (dyn e))
    of ValueError "a load model is installed: its bodies carry the load, not a payload" ;;
  raise_if (mass >f f0) && bool_decide (payload_frame e = ""%string)
    of ValueError "positive payload requires a construction-owned payload_frame" ;;
  raise_if (mass >f f0) && match com with Some c => negb (length c =? 3) || negb (all_finite c) | None => false end
    of ValueError "payload CoM must have shape (3,) and be finite" ;;
  Ok (e <| payload := (mass, if mass >f f0 then com else None) |>).

Definition set_dynamics (e : t) (d : Dynamics) : result t :=
  raise_if negb (bool_decide (dyn_joints d = joints e)) of ValueError "load model joints" ;;
  raise_if (payload e).1 >f f0 of ValueError "clear the payload before installing a load model" ;;
  Ok (e <| rigid := d |>).

Definition set_gains (e : t) (kp' kd' : option vec) : result t :=
  raise_if match gain_error (default (kp e) kp') (default (kd e) kd') with Some _ => true | None => false end
    of ValueError "gains" ;;
  raise_if match kp' with Some v => negb (length v =? length (kp e)) | None => false end of ValueError "kp shape" ;;
  raise_if match kd' with Some v => negb (length v =? length (kd e)) | None => false end of ValueError "kd shape" ;;
  Ok (e <| kp := default (kp e) kp' |> <| kd := default (kd e) kd' |>).

(** [np.max(np.abs(v)) <= tol] *)
Definition within_tol (v : vec) (tol : float) : result bool := m <-- vec_max (np_abs v) ;; Ok (m <=f tol).

Definition at_goal (e : t) (goal : vec) (state : JointState) : result bool :=
  d <-- bcast fsub (js_position state) goal ;;
  pos <-- within_tol d (done_pos_tol e) ;;
  vel <-- within_tol (js_velocity state) (done_vel_tol e) ;;
  Ok (pos && vel).

Section Hand.
(** [a.T @ b], [np.linalg.norm], [np.arccos] *)
Context (product_t : mat -> mat -> mat) (norm : vec -> float) (arccos : float -> float).

Definition rotation (m : mat) : mat := map (take 3) (take 3 m).
Definition translation (m : mat) : vec := map (fun i => m3 m i 3) [0; 1; 2].
Definition trace (m : mat) : float := m3 m 0 0 +f m3 m 1 1 +f m3 m 2 2.

Definition hand_error (e : t) (goal q : vec) : result (float * float) :=
  match frame_pose (dyn e) with
  | None => Err (TypeError "the model has no frame_pose")
  | Some fk =>
      a <-- fk q (payload_frame e) ;; b <-- fk goal (payload_frame e) ;;
      let cos := (trace (product_t (rotation a) (rotation b)) -f f1) /f f2 in
      Ok (norm (zip_with fsub (translation a) (translation b)), arccos (clip cos (fopp f1) f1))
  end.

Definition hand_at_goal (e : t) (goal : vec) (state : JointState) : result bool :=
  match done_pose_tol e with
  | None => Err (ValueError "this executor has no done_pose_tol")
  | Some (m, r) =>
      speed <-- vec_max (np_abs (js_velocity state)) ;;
      if speed >f done_vel_tol e then Ok false
      else h <-- hand_error e goal (js_position state) ;; Ok ((h.1 <=f m) && (h.2 <=f r))
  end.
End Hand.

(** ** The released reference *)

Module Reference.

(** [native]: a sample source is bound; its samples are given by the caller. *)
Record t := {
  trajectory : JointTrajectory;
  t_start : option float;
  native : bool;
  terminal : bool;
}.

Definition new (tr : JointTrajectory) (start : option float) (native terminal : bool) : result t :=
  raise_if match start with None => negb native | Some _ => native end
    of ValueError "reference needs exactly one local clock or selected sample source" ;;
  Ok {| trajectory := tr; t_start := start; native := native; terminal := terminal |}.

Definition duration (r : t) : float := duration_sec (trajectory r).

(** [elapsed] and [sample], given the source's sample when there is one. *)
Definition elapsed (r : t) (selected : option TrajectoryPoint) (now : float) : float :=
  match selected with Some p => pt_time p | None => now -f default fnan (t_start r) end.
Definition sample (r : t) (selected : option TrajectoryPoint) (now : float) : result TrajectoryPoint :=
  match selected with Some p => Ok p | None => sample_at (trajectory r) (elapsed r None now) end.
Definition end_phase (r : t) : float := last_time (trajectory r).
Definition end_ (r : t) : result TrajectoryPoint := sample_at (trajectory r) (end_phase r).
End Reference.

(** ** Properties *)

(** A law the executor may hold: matching finite nonnegative gain vectors, and
    no spring without damping. *)
Record damped (kp kd : vec) : Prop := {
  damped_shape : length kp = length kd;
  damped_finite : all_finite kp = true /\ all_finite kd = true;
  damped_nonneg : Forall (fun x => fltb x f0 = false) kp /\ Forall (fun x => fltb x f0 = false) kd;
  damped_spring i k d : kp !! i = Some k -> kd !! i = Some d -> fltb f0 k = true -> fltb f0 d = true;
}.

Lemma gain_error_None kp kd : gain_error kp kd = None <-> damped kp kd.
Proof.
  unfold gain_error. split.
  - intros H. destruct (length kp =? length kd) eqn:El; [|done]. simpl in H.
    destruct (all_finite kp && all_finite kd) eqn:Ef; [|done]. simpl in H.
    destruct (existsb _ kp || existsb _ kd) eqn:En; [done|]. destruct (existsb _ (zip kp kd)) eqn:Es; [done|].
    breflect. rewrite !existsb_false_Forall in *. split; [done|done|done|].
    intros i k d Hk Hd Hpos.
    assert (zip kp kd !! i = Some (k, d)) as Hi by (by rewrite lookup_zip_with, Hk, Hd).
    apply (Forall_lookup_1 _ _ _ _ Es) in Hi. simpl in Hi. rewrite Hpos in Hi. simpl in Hi.
    apply fleb_false; [|done|done]. eapply finite_not_nan, (all_finite_lookup kd); done.
  - intros [Hl [Hf1 Hf2] [Hn1 Hn2] Hs]. apply Nat.eqb_eq in Hl. rewrite Hl, Hf1, Hf2. simpl.
    apply existsb_false_Forall in Hn1, Hn2. rewrite Hn1, Hn2. simpl.
    destruct (existsb _ (zip kp kd)) eqn:Es; [|done]. exfalso.
    apply existsb_exists in Es as ([k d] & Hin & Hb). simpl in Hb. apply andb_true_iff in Hb as [Hb1 Hb2].
    apply list_elem_of_In, list_elem_of_lookup in Hin as [i Hi]. rewrite lookup_zip_with in Hi.
    destruct (kp !! i) as [k'|] eqn:Ek; [|done]. simpl in Hi. destruct (kd !! i) as [d'|] eqn:Ed; [|done].
    simpl in Hi. injection Hi as -> ->. specialize (Hs i k d Ek Ed Hb1). apply fltb_not_fleb in Hs. congruence.
Qed.

(** Changes made to a built executor; a refused one raises before it writes. *)
Inductive change := SetGains (kp kd : option vec) | SetPayload (mass : float) (com : option vec) | SetDynamics (d : Dynamics).
Definition apply (e : t) (c : change) : t :=
  let r := match c with
           | SetGains p d => set_gains e p d
           | SetPayload m com => set_payload e m com
           | SetDynamics d => set_dynamics e d
           end in
  match r with Ok e' => e' | Err _ => e end.

Record executor_ok (e : t) : Prop := {
  ok_law : damped (kp e) (kd e);
  ok_width : length (kp e) = n_joints e;
  ok_torque : Forall (fun m => fltb f0 m = true) (max_tau e);
}.

Lemma new_ok js d p v tq pt vt g fr tol e : new js d p v tq pt vt g fr tol = Ok e -> executor_ok e.
Proof.
  unfold new. intros H. pass_guard H Es. destruct (gain_error p v) eqn:Eg; [done|].
  apply rbind_ok in H as (lim & Hlim & H). apply rbind_ok in H as (? & _ & H). injection H as <-.
  apply validate_torque_limits_ok in Hlim as (-> & _ & Hpos). apply gain_error_None in Eg.
  apply orb_false_iff in Es as [Es _]. apply negb_false_iff, Nat.eqb_eq in Es. by split.
Qed.

Lemma set_gains_ok e p d e' : executor_ok e -> set_gains e p d = Ok e' ->
  executor_ok e' /\ e' = e <| kp := default (kp e) p |> <| kd := default (kd e) d |>.
Proof.
  intros [H1 H2 H3] H. unfold set_gains in H. destruct (gain_error _ _) eqn:Eg; [done|].
  pass_guard H Ep. pass_guard H Ed. injection H as <-. apply gain_error_None in Eg. split; [|done].
  split; simpl; [done| |done]. destruct p as [p|]; [|done]. apply negb_false_iff, Nat.eqb_eq in Ep.
  simpl. unfold n_joints in *. simpl. congruence.
Qed.

Lemma apply_ok e c : executor_ok e -> executor_ok (apply e c).
Proof.
  intros Hok. destruct c as [p d|m com|d]; unfold apply.
  - destruct (set_gains e p d) eqn:E; [|done]. by eapply set_gains_ok in E as [].
  - destruct (set_payload e m com) eqn:E; [|done]. unfold set_payload in E. inv_chain E. injection E as <-.
    by destruct Hok.
  - destruct (set_dynamics e d) eqn:E; [|done]. unfold set_dynamics in E. inv_chain E. injection E as <-.
    by destruct Hok.
Qed.

Lemma bcast_shape {A} (f : float -> float -> A) a b l j x m :
  bcast f a b = Ok l -> l !! j = Some x -> b !! j = Some m -> exists y, x = f y m.
Proof.
  unfold bcast. intros H Hx Hm. destruct (length a =? length b).
  { injection H as <-. rewrite lookup_zip_with, Hm in Hx. destruct (a !! j); [|done]. simpl in Hx. simplify_eq. eauto. }
  destruct a as [|y [|y' a]].
  - destruct b as [|m' [|]]; try discriminate H. injection H as <-. done.
  - assert (l = map (f y) b) as -> by (destruct b as [|? [|]]; by injection H).
    apply list_lookup_fmap_Some_1 in Hx as (z & -> & Hz). simplify_eq. eauto.
  - destruct b as [|m' [|]]; try discriminate H. injection H as <-.
    change (map (fun x => f x m') (y :: y' :: a) !! j = Some x) in Hx.
    apply list_lookup_fmap_Some_1 in Hx as (z & -> & Hz). destruct j; simplify_eq/=; eauto.
Qed.

(** Every entry within its torque limit, or NaN. *)
Definition torque_within (e : t) (tau : vec) : Prop :=
  forall j x m, tau !! j = Some x -> max_tau e !! j = Some m -> within (fopp m) x m.

Lemma fopp_le m : fltb f0 m = true -> fleb (fopp m) m = true.
Proof. destruct m as [[]|[]| |[]]; done. Qed.

Lemma feed_forward_within e model q bias tau :
  executor_ok e -> feed_forward e model q bias = Ok tau -> torque_within e tau.
Proof.
  intros Hok H j x m Hx Hm. unfold feed_forward in H.
  apply rbind_ok in H as (? & _ & H). apply rbind_ok in H as (? & _ & H). apply rbind_ok in H as (? & _ & H).
  apply rbind_ok in H as (c & _ & H). unfold clip_torque in H.
  destruct (bcast_shape _ _ _ _ _ _ _ H Hx Hm) as [y ->]. apply clip_within, fopp_le.
  eapply (Forall_lookup_1 (fun m => fltb f0 m = true)); [apply (ok_torque e Hok)|exact Hm].
Qed.

(** Every command an executor makes, after any changes of gains, payload or
    load model (refused ones included): its gains are the executor's, finite,
    nonnegative and damped, so a joint that is sprung always has damping; each
    feed-forward torque is inside the torque limit of its joint, or NaN (which
    the command admission refuses); a hold asks for no velocity, at the given
    anchor or at the measured position. *)
Theorem commands_lawful js d p v tq pt vt g fr tol e0 changes state bias c :
  new js d p v tq pt vt g fr tol = Ok e0 ->
  let e := run_steps apply e0 changes in
  ((exists anchor, hold_command e state anchor bias = Ok c) \/ (exists q, step e q state bias = Ok c)) ->
  damped (cmd_kp c) (cmd_kd c) /\ torque_within e (tau_ff c) /\
  (forall anchor, hold_command e state anchor bias = Ok c ->
     q_des c = default (js_position state) anchor /\ Forall (eq f0) (qd_des c)).
Proof.
  intros Hnew e Hc.
  assert (executor_ok e) as Hok by (apply run_steps_inv; [by intros; apply apply_ok|by eapply new_ok]).
  split; [|split].
  - destruct Hc as [[a H]|[a H]]; unfold hold_command, step in H.
    1: apply rbind_ok in H as (? & _ & H).
    2: apply rbind_ok in H as (? & _ & H).
    all: apply rbind_ok in H as (? & _ & H); injection H as <-; apply Hok.
  - destruct Hc as [[a H]|[a H]]; unfold hold_command, step in H; apply rbind_ok in H as (m & _ & H);
      apply rbind_ok in H as (tau & Ht & H); injection H as <-; by eapply feed_forward_within.
  - intros anchor H. unfold hold_command in H. apply rbind_ok in H as (? & _ & H).
    apply rbind_ok in H as (? & _ & H). injection H as <-. split; [done|]. simpl. apply Forall_map, Forall_true. done.
Qed.

(** A one-joint arm of gravity torque 1. *)
Definition pendulum : Dynamics := {|
  dyn_id := 0; dyn_joints := ["j1"%string]; gravity := fun _ => Ok [f1]; rnea := fun _ _ _ => Ok [f1];
  payload_gravity := fun _ _ _ _ => Ok [f1]; frame_pose := None |}.
Definition executor0 : t := {|
  joints := ["j1"%string]; dyn := pendulum; rigid := pendulum; kp := [f1]; kd := [f1]; max_tau := [f2];
  payload_frame := ""; payload := (f0, None); gravity_comp := false; done_pos_tol := f1; done_vel_tol := f1;
  done_pose_tol := None |}.

Example commands_lawful_witness :
  exists c, hold_command executor0 {| js_position := [f0]; js_velocity := [f0] |} None [f0] = Ok c /\
    damped (cmd_kp c) (cmd_kd c) /\ qd_des c = [f0].
Proof.
  eexists. split; [vm_compute; reflexivity|]. split; [|reflexivity].
  eapply (commands_lawful ["j1"%string] pendulum [f1] [f1] [f2] f1 f1 false "" None executor0 []
    {| js_position := [f0]; js_velocity := [f0] |} [f0]); [reflexivity|].
  left. exists None. vm_compute. reflexivity.
Defined.
