(* ===== verification/Controller.v ===== *)
(** The arm controller ([control/arm_controller.py]): it executes a named plan,
    holds its anchor when it has none, and reports what happened.

    Every method of the class is a computation on the state record [ctl] and the
    outputs (motor commands, arm messages, controller events, and the line that
    announces a release); the rest of the log text is left out.  The executor,
    settling clocks, jog, ramp, integral and policy are the objects of the other
    files.  The clocks and the selected native sample are answered by the
    environment, a question at a time, so nothing is assumed about them.  A
    message is its decoded body; a value that JSON cannot give the type of a
    field is outside the model.  A reason keeps the fixed part of the source's
    formatted text. *)
From Stdlib Require Import SpecFloat PrimFloat FloatOps.
From S2P Require Import Prelude Floats Motion Servo Policy Effects Executor.

(** ** Messages ([contracts/motion.py], [contracts/motor.py]) *)

Record completion_rule := { vel_tol : float; goal_q : option vec; residual_max : option float }.

Record plan_msg := {
  plan_id : string;
  phase : string;
  gated : bool;
  body : Policy.Plan;
  completion : option completion_rule;
  token : option string;
}.

(** [unpack_plan]: the row counts, [np.asarray] of ragged rows, and the Cartesian values. *)
Definition unpack_plan (m : plan_msg) : result plan_msg :=
  let b := body m in
  raise_if negb (length (p_positions b) =? length (p_times b)) || negb (length (p_velocities b) =? length (p_times b))
    of ValueError "unpack_plan: rows" ;;
  raise_if negb (rectangular (p_positions b)) || negb (rectangular (p_velocities b))
           || match p_poses b with Some r => negb (rectangular r) | None => false end
    of ValueError "setting an array element with a sequence" ;;
  _ <-- match p_cartesian b with Some c => cartesian_values c | None => Ok [] end ;;
  Ok m.

Record control_msg := {
  c_arm : option bool;
  c_payload : option (float * option vec);
  c_execute : option string;
  c_gains : option (option vec * option vec);
  c_pose_hold : option pose_hold_spec;
  c_cancel : bool;
  c_cancel_plan_id : option string;
  c_hold : bool;
  c_stop : option string;
  c_reason : option string;
}.

(** An update that says nothing. *)
Definition no_control : control_msg := {|
  c_arm := None; c_payload := None; c_execute := None; c_gains := None; c_pose_hold := None; c_cancel := false;
  c_cancel_plan_id := None; c_hold := false; c_stop := None; c_reason := None |}.
#[export] Instance eta_control : Eta control_msg := fun f => {|
  c_arm := c_arm f; c_payload := c_payload f; c_execute := c_execute f; c_gains := c_gains f; c_pose_hold := c_pose_hold f;
  c_cancel := c_cancel f; c_cancel_plan_id := c_cancel_plan_id f; c_hold := c_hold f; c_stop := c_stop f;
  c_reason := c_reason f |}.

Record health_msg := {
  h_state_fresh : bool;
  h_any_fault : bool;
  h_latched_fault : bool;
  h_holding : bool;
  h_holding_q : option vec;
  h_supports_pose_hold : bool;
  h_armed : bool;
}.

(** [unpack_motor_state]: eight values per motor; position and velocity are the first two. *)
Definition unpack_motor_state (flat : vec) (n : nat) : result JointState :=
  raise_if negb (length flat =? n * 8) of ValueError "unpack_motor_state" ;;
  Ok {| js_position := map (fun i => fget flat (8 * i)) (seq 0 n);
        js_velocity := map (fun i => fget flat (8 * i + 1)) (seq 0 n) |}.

Record RuntimeState := {
  rt_session_id : string; rt_model_token : option string; rt_n_arm : nat; rt_armed : bool; rt_ready : bool;
  rt_executing : bool; rt_stopped : bool; rt_frozen : bool; rt_plan_id : string }.
(** [_runtime_state_body]; the types of the other fields hold by construction. *)
Definition runtime_state_body (r : RuntimeState) : result RuntimeState :=
  raise_if bool_decide (rt_session_id r = ""%string) of ValueError "runtime_state requires a controller session" ;;
  raise_if rt_n_arm r =? 0 of ValueError "runtime_state requires a positive joint count" ;;
  Ok r.

Record progress := {
  pr_state : LegSettling.verdict_state; pr_elapsed : float; pr_remaining : float; pr_joint : option nat;
  pr_error : option float; pr_pos_tol : option float; pr_speed : float; pr_vel_tol : float;
  pr_hand : option (float * float * (float * float)) }.
(** [_completion_progress] *)
Definition bad_measure (x : float) : bool := negb (isfinite x) || (x <f f0).
Definition completion_progress (p : progress) : result progress :=
  raise_if existsb bad_measure [pr_elapsed p; pr_remaining p; pr_speed p; pr_vel_tol p]
    of ValueError "invalid completion progress" ;;
  raise_if match pr_error p with Some x => bad_measure x | None => false end
           || match pr_pos_tol p with Some x => bad_measure x | None => false end
    of ValueError "invalid completion progress" ;;
  Ok p.

(** [_mode_state_body] for the executor's gains. *)
Definition mode_state_body (kp kd : vec) : result (vec * vec) :=
  raise_if (length kp =? 0) || negb (length kd =? length kp) || negb (all_finite kp && all_finite kd)
    of ValueError "mode_state requires matching finite gain arrays" ;;
  Ok (kp, kd).

(** [_controller_velocity] *)
Definition controller_velocity (q qd : vec) : result vec :=
  raise_if (length q =? 0) || negb (length qd =? length q) || negb (all_finite qd)
    of ValueError "controller event qd requires a finite velocity vector matching q" ;;
  Ok qd.

(** [pack_motor_command]: numpy's assignment of a column of [n] motors. *)
Definition column (n : nat) (v : vec) : result vec :=
  if length v =? n then Ok v
  else match v with [x] => Ok (replicate n x) | _ => Err (ValueError "could not broadcast input array") end.
Definition pack_motor_command (c : JointServoCommand) (cartesian : option (list float)) (pose : option pose_hold_spec)
    : result (list float) :=
  let n := length (q_des c) in
  cols <-- rmap (column n) [q_des c; qd_des c; tau_ff c; cmd_kp c; cmd_kd c] ;;
  let buf := concat (map (fun i => map (fun v => fget v i) cols) (seq 0 n)) in
  match pose, cartesian with
  | Some _, Some _ => Err (ValueError "pose hold and trajectory Cartesian impedance are exclusive")
  | Some p, None => v <-- pose_hold_values p ;; Ok (buf ++ v)
  | None, None => Ok buf
  | None, Some tail => raise_if negb (length tail =? 21) of ValueError "cartesian tail must be 21 floats" ;; Ok (buf ++ tail)
  end.

(** What the controller says.  A motor command is kept with the words it was
    packed from; [Executing] is the line printed at a release. *)
Inductive effect :=
  | MotorCommand (c : JointServoCommand) (cartesian : option cartesian_spec) (pose : option pose_hold_spec) (words : list float)
  | ArmMessage (armed : bool)
  | ReadyEvent (q qd : vec) (rt : RuntimeState)
  | PlanStaged (id : string) (ok : bool) (reason : string) (rt : RuntimeState)
  | LegResult (id : string) (ok : bool) (reason : string) (completion : option progress)
  | LegProgress (id : string) (completion : progress)
  | PlanCleared (id : string) (ok : bool) (reason : string) (rt : RuntimeState)
  | ModeEvent (ok : bool) (reason : string) (rt : RuntimeState) (mode : option (string * (vec * vec)))
  | FaultEvent (reason : string)
  | Executing (id : string) (start : float).

(** ** The object *)

(** What construction fixes. *)
Record Config := {
  n_arm : nat;
  model_token : option string;
  pose_provenance : string;
  state_period : option float;
  needs_health : bool;
  policy : option ExecutionPolicy;
  track_kp : vec;
  track_kd : vec;
  session_id : string;
}.

Record ctl := {
  executor : Executor.t;
  settling : LegSettling.t;
  completion_sample_at : option float;
  integral : Integral.IntegralState;
  cycle_id : Z;
  native_source : bool;
  health_at : option float;
  health_ok : bool;
  rt_holding : bool;
  observation_paused : bool;
  plant_t : float;
  jog : JogHold.t;
  jog_ramp : option JogRamp.t;
  last_state : JointState;
  last_state_at : option float;
  mode_report_at : option float;
  last_command : option JointServoCommand;
  hold_anchor : option JointServoCommand;
  arm_pose : option vec;
  arm_pose_fixed : bool;
  been : option (vec * vec);
  cartesian_now : option cartesian_spec;
  first_sample_pending : option string;
  last_law : option string;
  pose_hold : option pose_hold_spec;
  supports_pose_hold : bool;
  armed : bool;
  bridge_armed : bool;
  ready_sent : bool;
  frozen : bool;
  stopped : bool;
  stop_reason : string;
  plan : option plan_msg;
  pending_traj : option JointTrajectory;
  reference : option Reference.t;
  running : bool;
  stream_gap_limit_s : option float;
  stream_sent_at : option float;
  stream_sent_target : option vec;
}.
#[export] Instance eta_ctl : Eta ctl := fun s => {|
  executor := executor s; settling := settling s; completion_sample_at := completion_sample_at s;
  integral := integral s; cycle_id := cycle_id s; native_source := native_source s; health_at := health_at s;
  health_ok := health_ok s; rt_holding := rt_holding s; observation_paused := observation_paused s;
  plant_t := plant_t s; jog := jog s; jog_ramp := jog_ramp s; last_state := last_state s;
  last_state_at := last_state_at s; mode_report_at := mode_report_at s; last_command := last_command s;
  hold_anchor := hold_anchor s; arm_pose := arm_pose s; arm_pose_fixed := arm_pose_fixed s; been := been s;
  cartesian_now := cartesian_now s; first_sample_pending := first_sample_pending s; last_law := last_law s;
  pose_hold := pose_hold s; supports_pose_hold := supports_pose_hold s; armed := armed s;
  bridge_armed := bridge_armed s; ready_sent := ready_sent s; frozen := frozen s; stopped := stopped s;
  stop_reason := stop_reason s; plan := plan s; pending_traj := pending_traj s; reference := reference s;
  running := running s; stream_gap_limit_s := stream_gap_limit_s s; stream_sent_at := stream_sent_at s;
  stream_sent_target := stream_sent_target s |}.

Definition finite_state (a : JointState) : bool := all_finite (js_position a) && all_finite (js_velocity a).

Definition ControlM : Type -> Type := M ctl effect.

(** The environment: the clocks and the selected native sample, by the number of
    questions asked, and numpy's linear algebra. *)
Record Env := {
  clock : nat -> float;
  reference_clock : nat -> float;
  sample_source : nat -> result TrajectoryPoint;
  product_t : mat -> mat -> mat;
  norm : vec -> float;
  arccos : float -> float;
}.
(** Both are found by class resolution, so an operation is written as the source writes it. *)
Existing Class Config.
Existing Class Env.

Section Controller.
Context {cfg : Config} {env : Env}.

(** [__init__] *)
Definition ArmController_new (e : Executor.t) (jog_timeout settle_timeout settle_dwell : float) (has_reference_clock native : bool)
    (integral_state : option Integral.IntegralState) : result ctl :=
  settle <-- LegSettling.new settle_timeout settle_dwell ;;
  integral <-- match integral_state with Some i => Ok i | None => Integral.new (n_arm cfg) None None None end ;;
  raise_if negb (length (Integral.bias integral) =? n_arm cfg) of ValueError "integral state must match controller joints" ;;
  raise_if match state_period cfg with Some p => negb (isfinite p && (p >f f0)) | None => false end
    of ValueError "motor_state_period_s must be finite and positive" ;;
  raise_if has_reference_clock && is_some (state_period cfg)
    of ValueError "reference_clock cannot be combined with motor_state_period_s" ;;
  raise_if match policy cfg with Some p => negb (length (torque_limits p) =? n_arm cfg) | None => false end
    of ValueError "execution_policy torque limits must match the arm joint count" ;;
  raise_if is_some (policy cfg) && is_some (state_period cfg)
    of ValueError "deadline execution_policy requires wall time, not motor_state_period_s" ;;
  jog <-- JogHold.new jog_timeout (n_arm cfg) ;;
  ramp <-- match policy cfg with
           | Some p => match velocity_limits p, acceleration_limits p with
                       | Some v, Some a => r <-- JogRamp.new v a (position_lower p) (position_upper p) ;; Ok (Some r)
                       | _, _ => Ok None
                       end
           | None => Ok None
           end ;;
  let zero := replicate (n_arm cfg) f0 in
  Ok {| executor := e; settling := settle; completion_sample_at := None; integral := integral; cycle_id := 0%Z;
        native_source := native; health_at := None; health_ok := negb (needs_health cfg); rt_holding := false;
        observation_paused := false; plant_t := f0; jog := jog; jog_ramp := ramp;
        last_state := {| js_position := zero; js_velocity := zero |}; last_state_at := None; mode_report_at := None;
        last_command := None; hold_anchor := None; arm_pose := None; arm_pose_fixed := false; been := None;
        cartesian_now := None; first_sample_pending := None; last_law := None; pose_hold := None;
        supports_pose_hold := false; armed := false; bridge_armed := negb (needs_health cfg); ready_sent := false;
        frozen := false; stopped := false; stop_reason := ""; plan := None; pending_traj := None; reference := None;
        running := false; stream_gap_limit_s := None; stream_sent_at := None; stream_sent_target := None |}.

Definition now : ControlM float := k <~ ask ;; ret (clock env k).
(** [exec_time] *)
Definition exec_time : ControlM float :=
  match state_period cfg with
  | Some _ => s <~ get ;; ret (plant_t s)
  | None => k <~ ask ;; ret (reference_clock env k)
  end.
Definition selected (r : Reference.t) : ControlM (option TrajectoryPoint) :=
  if Reference.native r then k <~ ask ;; p <~ lift (sample_source env k) ;; ret (Some p) else ret None.
Definition ref_elapsed (r : Reference.t) (t : float) : ControlM float :=
  p <~ selected r ;; ret (Reference.elapsed r p t).
Definition ref_sample (r : Reference.t) (t : float) : ControlM TrajectoryPoint :=
  p <~ selected r ;; lift (Reference.sample r p t).

Definition id_of (p : option plan_msg) : string := match p with Some p => plan_id p | None => "" end.
Definition current_plan_id (s : ctl) : string := id_of (plan s).
Definition runtime_state (s : ctl) : RuntimeState := {|
  rt_session_id := session_id cfg; rt_model_token := model_token cfg; rt_n_arm := n_arm cfg; rt_armed := armed s;
  rt_ready := ready_sent s; rt_executing := running s; rt_stopped := stopped s; rt_frozen := frozen s;
  rt_plan_id := current_plan_id s |}.
(** [send_output("controller_event", pack_controller_event(..., runtime_state=self.runtime_state))] *)
Definition say_state (f : RuntimeState -> effect) : ControlM unit :=
  s <~ get ;; rt <~ lift (runtime_state_body (runtime_state s)) ;; say (f rt).

Definition none_error : exn := TypeError "NoneType".
Definition loaded : ControlM plan_msg := s <~ get ;; some_or (plan s) none_error.

Definition stage_ack (id : string) (ok : bool) (why : string) : ControlM unit := say_state (PlanStaged id ok why).
Definition refuse_plan (id : string) (why : string) (report : bool) : ControlM unit :=
  stage_ack id false why ;~ when report (say (LegResult id false why None)).

Definition finish_leg (ok : bool) (why : string) (completion : option progress) : ControlM unit :=
  s <~ get ;;
  upd (fun s => s <| stream_sent_at := None |> <| stream_sent_target := None |> <| reference := None |>
                  <| running := false |> <| plan := None |>) ;~
  c <~ lift match completion with Some p => c <-- completion_progress p ;; Ok (Some c) | None => Ok None end ;;
  say (LegResult (current_plan_id s) ok why c).

Definition law (s : ctl) : string := if is_some (pose_hold s) then "soft" else "joint".

Definition report_mode (ok : bool) (why : option string) (heartbeat : bool) : ControlM unit :=
  s <~ get ;;
  let reason := default (law s) why in
  match mode_state_body (kp (executor s)) (kd (executor s)), runtime_state_body (runtime_state s) with
  | Ok m, Ok rt => say (ModeEvent ok reason rt (Some (law s, m))) ;~
                   t <~ now ;; upd (fun s => s <| mode_report_at := Some t |>)
  | _, _ => if heartbeat then ret tt
            else say_state (fun rt => ModeEvent ok reason rt None) ;~
                 t <~ now ;; upd (fun s => s <| mode_report_at := Some t |>)
  end.

Definition reset_integral : ControlM unit := upd (fun s => s <| integral := Integral.reset (integral s) |>).

Definition hold_at (state : JointState) (anchor : option vec) : ControlM JointServoCommand :=
  s <~ get ;; lift (hold_command (executor s) state anchor (Integral.bias (integral s))).
(** [_static_hold] *)
Definition static_hold : ControlM JointServoCommand := s <~ get ;; hold_at (last_state s) None.

Definition c_01 : float := Eval vm_compute in Prim2SF 0.01%float.
Definition c_05 : float := Eval vm_compute in Prim2SF 0.05%float.

(** The [keep_anchor] test of [_cancel]. *)
Definition keeps_anchor (s : ctl) : result bool :=
  match last_command s with
  | Some c =>
      if is_some (plan s) && is_some (pending_traj s) && negb (running s) && negb (JogHold.active (jog s))
         && negb (is_some (pose_hold s)) && negb (is_some (cartesian_now s)) && negb (frozen s) && negb (stopped s)
         && forallb (fun x => x =f f0) (qd_des c) && all_finite (js_velocity (last_state s))
      then m <-- vec_max (np_abs (js_velocity (last_state s))) ;; Ok (m <f c_01)
      else Ok false
  | None => Ok false
  end.

Definition cancel (why : string) : ControlM unit :=
  s <~ get ;; keep <~ lift (keeps_anchor s) ;;
  when (is_some (policy cfg)) (upd (fun s => s <| cartesian_now := None |>)) ;~
  when (is_some (pose_hold s))
    (upd (fun s => s <| pose_hold := None |> <| last_command := None |>) ;~ reset_integral ;~ report_mode true None false) ;~
  when (running s) (finish_leg false why None) ;~
  upd (fun s => s <| frozen := false |> <| plan := None |> <| pending_traj := None |> <| running := false |>
                  <| reference := None |> <| jog := JogHold.clear (jog s) |>) ;~
  when (negb keep) (upd (fun s => s <| hold_anchor := None |>)).

Definition disarm_reset : ControlM unit :=
  s <~ get ;;
  when (running s) (finish_leg false "disarmed mid-leg" None) ;~
  upd (fun s => s <| plan := None |> <| cartesian_now := None |> <| pending_traj := None |> <| running := false |>
                  <| reference := None |> <| ready_sent := false |> <| bridge_armed := negb (needs_health cfg) |>
                  <| hold_anchor := None |> <| jog := JogHold.clear (jog s) |> <| last_command := None |>
                  <| pose_hold := None |>) ;~
  reset_integral.

(** The pose it rests at as it arms. *)
Definition rest_pose : ControlM (option vec) :=
  s <~ get ;;
  fresh <~ match last_state_at s, policy cfg with
           | Some at_, Some p => t <~ now ;; ret (t -f at_ <=f state_timeout_sec p)
           | _, _ => ret false
           end ;;
  ret (if fresh && all_finite (js_position (last_state s)) then Some (js_position (last_state s)) else None).

Definition set_arm (b : bool) : ControlM unit :=
  s <~ get ;;
  when (armed s && negb b) disarm_reset ;~
  when (b && negb (armed s))
    (q <~ rest_pose ;;
     upd (fun s => s <| arm_pose := q |> <| arm_pose_fixed := false |> <| been := (fun q => (q, q)) <$> q |>)) ;~
  upd (fun s => s <| armed := b |>) ;~ say (ArmMessage b).

Definition stop (why : string) : ControlM unit :=
  s <~ get ;;
  if stopped s then ret tt else
  upd (fun s => s <| stopped := true |> <| stop_reason := why |>) ;~
  when (armed s) (set_arm false) ;~
  say (FaultEvent why).

Definition fault (why : string) : ControlM unit :=
  s <~ get ;; when (running s) (finish_leg false why None) ;~ stop why.

(** [_where_been]: the rows the position envelope widens to. *)
Definition where_been (s : ctl) : option mat :=
  match arm_pose s, policy cfg with
  | Some rest, Some p =>
      if negb (armed s) then None else
      match position_lower p, position_upper p with
      | Some lo, Some hi =>
          let rows := default (rest, rest) (been s) in
          Some [map (fun j => if fget rest j <f fget lo j then fget rows.1 j else fget rest j) (seq 0 (length rest));
                map (fun j => if fget rest j >f fget hi j then fget rows.2 j else fget rest j) (seq 0 (length rest))]
      | _, _ => None
      end
  | _, _ => None
  end.

Definition envelope_band (s : ctl) : option (vec * vec) :=
  match policy cfg with Some p => envelope p (where_been s) | None => None end.

Definition valid_command (s : ctl) (p : ExecutionPolicy) (c : JointServoCommand) : result bool :=
  command_valid p c (n_arm cfg) (where_been s).

(** The second half of [_send]: the word goes out. *)
Definition transmit (c : JointServoCommand) (cartesian : bool) : ControlM unit :=
  upd (fun s => s <| last_command := Some c |>) ;~
  s <~ get ;;
  let spec := if cartesian then cartesian_now s else None in
  upd (fun s => s <| last_law := Some (if is_some spec then "cartesian_impedance"%string
                                       else if is_some (pose_hold s) then "pose_hold"%string else "joint"%string) |>) ;~
  tail <~ lift match spec with Some v => t <-- cartesian_values v ;; Ok (Some t) | None => Ok None end ;;
  words <~ lift (pack_motor_command c tail (pose_hold s)) ;;
  say (MotorCommand c spec (pose_hold s) words).

(** The tracking abort of [_send]: the leg ends and the measured pose is held. *)
Definition abort_to_hold (p : ExecutionPolicy) : ControlM (option (JointServoCommand * bool)) :=
  cancel "tracking error exceeded - holding measured pose" ;~
  upd (fun s => s <| last_command := None |>) ;~
  h <~ static_hold ;; upd (fun s => s <| hold_anchor := Some h |>) ;~
  s <~ get ;; ok <~ lift (valid_command s p h) ;;
  if negb ok then fault "invalid measured hold command" ;~ ret None else ret (Some (h, false)).

(** The checks of [_send] under a policy: the command to transmit, whether it is
    the leg's own word, or [None] after a fault. *)
Definition vet (p : ExecutionPolicy) (c : JointServoCommand) : ControlM (option (JointServoCommand * bool)) :=
  s <~ get ;;
  when (armed s && is_some (arm_pose s)) (upd (fun s => s <| arm_pose_fixed := true |>)) ;~
  s <~ get ;; ok <~ lift (valid_command s p c) ;;
  if negb ok then fault "non-finite or invalid servo command" ;~ ret None else
  trips <~ lift (if is_some (pose_hold s) then Ok false
                 else tracking_error_exceeded p c (js_position (last_state s))) ;;
  if trips then abort_to_hold p else ret (Some (c, true)).

Definition send (c : JointServoCommand) (cartesian : bool) : ControlM bool :=
  match policy cfg with
  | None => transmit c cartesian ;~ ret true
  | Some p =>
      v <~ vet p c ;;
      match v with
      | None => ret false
      | Some (c, own) => transmit c (cartesian && own) ;~ ret own
      end
  end.

(** ** Completion of a leg *)

Definition leg_done (state : JointState) : ControlM bool :=
  s <~ get ;;
  match reference s with
  | None => ret true
  | Some r =>
      match plan s ≫= completion, cartesian_now s with
      | None, Some _ => e <~ lift (Reference.end_ r) ;;
                        lift (hand_at_goal (product_t env) (norm env) (arccos env) (executor s) (pt_position e) state)
      | None, None => e <~ lift (Reference.end_ r) ;; lift (at_goal (executor s) (pt_position e) state)
      | Some rule, _ =>
          speed <~ lift (vec_max (np_abs (js_velocity state))) ;;
          if speed >f vel_tol rule then ret false else
          match goal_q rule with
          | None => ret true
          | Some g =>
              d <~ lift (bcast fsub (js_position state) g) ;; m <~ lift (vec_max (np_abs d)) ;;
              tol <~ some_or (residual_max rule) none_error ;; ret (m <=f tol)
          end
      end
  end.

(** [np.argmax]: the first NaN, else the first of the largest. *)
Fixpoint argmax_from (v : vec) (i best : nat) (x : float) : nat :=
  match v with
  | [] => best
  | y :: v => if isnan x then best
              else if isnan y || (y >f x) then argmax_from v (S i) i y else argmax_from v (S i) best x
  end.
Definition argmax (v : vec) : nat := match v with [] => 0 | x :: v => argmax_from v 1 0 x end.

(** The measurements reported while a leg settles or when it times out. *)
Definition measure (v : LegSettling.SettleVerdict) (state : JointState) (p : plan_msg) (r : Reference.t) : ControlM progress :=
  s <~ get ;;
  e <~ lift (Reference.end_ r) ;;
  let hand := negb (is_some (completion p)) && is_some (cartesian_now s) in
  let goal := match completion p with Some rule => goal_q rule | None => Some (pt_position e) end in
  let pos_tol := match completion p with Some rule => residual_max rule | None => Some (done_pos_tol (executor s)) end in
  let vtol := match completion p with Some rule => vel_tol rule | None => done_vel_tol (executor s) end in
  error <~ lift match goal with
                | Some g => if hand then Ok None else d <-- bcast fsub (js_position state) g ;; Ok (Some (np_abs d))
                | None => Ok None
                end ;;
  residual <~ lift match error with Some d => m <-- vec_max d ;; Ok (Some m) | None => Ok None end ;;
  speed <~ lift (vec_max (np_abs (js_velocity state))) ;;
  h <~ (if hand
        then g <~ some_or goal none_error ;;
             h <~ lift (hand_error (product_t env) (norm env) (arccos env) (executor s) g (js_position state)) ;;
             lim <~ some_or (done_pose_tol (executor s)) none_error ;; ret (Some (h, lim))
        else ret None) ;;
  ret {| pr_state := LegSettling.state v; pr_elapsed := LegSettling.elapsed_s v; pr_remaining := LegSettling.remaining_s v;
         pr_joint := (fun d => S (argmax d)) <$> error; pr_error := residual; pr_pos_tol := if hand then None else pos_tol;
         pr_speed := speed; pr_vel_tol := vtol; pr_hand := h |}.

(** A timed-out settle freezes at the measured pose. *)
Definition freeze_timed_out (m : progress) : ControlM unit :=
  (if is_some (pr_error m) && negb (is_some (pr_pos_tol m)) then throw none_error else ret tt) ;~   (* the text formats the limit *)
  h <~ static_hold ;;
  upd (fun s => s <| last_command := Some h |> <| hold_anchor := Some h |> <| cartesian_now := None |>
                  <| pending_traj := None |> <| frozen := true |>) ;~
  finish_leg false "Completion timeout" (Some m).

(** [!=] of two optional times. *)
Definition py_ne (a b : option float) : bool :=
  match a, b with Some x, Some y => negb (x =f y) | None, None => false | _, _ => true end.

(** The verdict of the settling clocks on this tick. *)
Definition settle_verdict (state : JointState) : ControlM (float * option LegSettling.SettleVerdict) :=
  t <~ exec_time ;;
  s <~ get ;;
  let fresh := py_ne (completion_sample_at s) (last_state_at s) in
  when fresh (upd (fun s => s <| completion_sample_at := last_state_at s |>)) ;~
  ended <~ match reference s with
           | Some r => if Reference.native r then x <~ ref_elapsed r t ;; ret (x >=f Reference.end_phase r) else ret false
           | None => ret false
           end ;;
  (* [done] is consulted only on a fresh sample past the end of the reference *)
  let asked := fresh && match LegSettling.leg_end (settling s) with Some e => negb (t <f e) | None => ended end in
  done <~ (if asked then leg_done state else ret false) ;;
  let '(st, verdict) := LegSettling.poll (settling s)
    {| LegSettling.now := t; LegSettling.fresh := fresh; LegSettling.done_ := done; LegSettling.reference_ended := ended |} in
  upd (fun s => s <| settling := st |>) ;~ ret (t, verdict).

Definition on_verdict (state : JointState) (t : float) (v : LegSettling.SettleVerdict) : ControlM bool :=
  s <~ get ;;
  match LegSettling.state v with
  | LegSettling.SETTLED =>
      p <~ loaded ;;
      (if negb (is_some (completion p)) && is_some (cartesian_now s)
       then r <~ some_or (reference s) none_error ;; e <~ lift (Reference.end_ r) ;;
            _ <~ lift (hand_error (product_t env) (norm env) (arccos env) (executor s) (pt_position e) (js_position state)) ;; ret tt
       else ret tt) ;~
      finish_leg true "" None ;~ ret true
  | st =>
      p <~ loaded ;; r <~ some_or (reference s) none_error ;;
      m <~ measure v state p r ;;
      match st with
      | LegSettling.TIMED_OUT => freeze_timed_out m ;~ ret true
      | _ =>
          s <~ get ;;
          let '(settle, due) := LegSettling.due_to_report (settling s) t in
          upd (fun s => s <| settling := settle |>) ;~
          when due (c <~ lift (completion_progress m) ;; say (LegProgress (plan_id p) c)) ;~ ret false
      end
  end.

Definition check_completion (state : JointState) : ControlM bool :=
  s <~ get ;;
  if match reference s with Some r => negb (Reference.terminal r) | None => false end then ret false else
  x <~ settle_verdict state ;;
  match x.2 with None => ret false | Some v => on_verdict state x.1 v end.

(** ** Streaming *)

Definition jog_target : ControlM (option vec * bool) :=
  t <~ now ;; s <~ get ;;
  let '(j, q) := JogHold.target (jog s) t in
  let '(j, expired) := JogHold.take_expired j in
  upd (fun s => s <| jog := j |>) ;~
  when expired (h <~ static_hold ;; upd (fun s => s <| hold_anchor := Some h |>)) ;~
  ret (q, expired).

(** [integral.update] on this cycle *)
Definition integrate (cycle : Z * float) (target measured : vec) : ControlM vec :=
  s <~ get ;;
  r <~ lift (Integral.update (integral s) cycle.1 cycle.2 target measured (kp (executor s))) ;;
  upd (fun s => s <| integral := r.1 |>) ;~ ret r.2.

Definition hold_with (state : JointState) (anchor : option vec) (bias : vec) : ControlM JointServoCommand :=
  s <~ get ;; lift (hold_command (executor s) state anchor bias).

(** [np.any(np.abs(q - anchor) > tolerance)] *)
Definition left_anchor (q anchor tolerance : vec) : result bool :=
  d <-- bcast fsub q anchor ;; l <-- bcast (fun x tol => fabs x >f tol) d tolerance ;; Ok (existsb (fun b => b) l).

Definition policy_hold (p : ExecutionPolicy) (cycle : Z * float) : ControlM JointServoCommand :=
  s <~ get ;;
  let q := js_position (last_state s) in
  tol <~ lift (relatch_tolerance p (kp (executor s))) ;;
  relatch <~ lift match hold_anchor s with None => Ok true | Some a => left_anchor q (q_des a) tol end ;;
  a <~ (if relatch then h <~ static_hold ;; upd (fun s => s <| hold_anchor := Some h |>) ;~ ret h
        else some_or (hold_anchor s) none_error) ;;
  bias <~ integrate cycle (q_des a) q ;;
  hold_with (last_state s) (Some (q_des a)) bias.

Definition legacy_hold (cycle : Z * float) (refresh : bool) : ControlM JointServoCommand :=
  s <~ get ;;
  match hold_anchor s, refresh with
  | Some a, false => ret a
  | _, _ =>
      quiet <~ lift (if refresh then Ok None else
                     match last_command s with
                     | Some c => m <-- vec_max (np_abs (qd_des c)) ;; Ok (if m <f c_05 then Some c else None)
                     | None => Ok None
                     end) ;;
      let state := match quiet with
                   | Some c => {| js_position := q_des c; js_velocity := replicate (n_arm cfg) f0 |}
                   | None => last_state s
                   end in
      bias <~ integrate cycle (js_position state) (js_position state) ;;
      h <~ hold_with state None bias ;;
      upd (fun s => s <| hold_anchor := Some h |>) ;~ ret h
  end.

(** [_anchored_hold] *)
Definition anchored_hold (cycle : Z * float) (refresh : bool) : ControlM JointServoCommand :=
  match policy cfg with Some p => policy_hold p cycle | None => legacy_hold cycle refresh end.

(** The controller may stream: it announces itself once when armed. *)
Definition become_ready (arm : JointState) : ControlM bool :=
  s <~ get ;;
  if negb (armed s) then ret false else
  if ready_sent s then ret true else
  if negb (bridge_armed s) then ret false else
  upd (fun s => s <| ready_sent := true |>) ;~
  qd <~ lift (controller_velocity (js_position arm) (js_velocity arm)) ;;
  say_state (ReadyEvent (js_position arm) qd) ;~ ret true.

(** The local deadman of a streamed leg. *)
Definition stream_gap : ControlM bool :=
  s <~ get ;;
  match stream_gap_limit_s s, stream_sent_at s with
  | Some lim, Some at_ => if running s && negb (native_source s) then t <~ now ;; ret (t -f at_ >f lim) else ret false
  | _, _ => ret false
  end.

Definition hold_after_gap (arm : JointState) : ControlM unit :=
  s <~ get ;; target <~ some_or (stream_sent_target s) none_error ;;
  cancel "PC streamed command gap exceeded RT hold margin - re-plan from measured pose" ;~
  h <~ hold_at arm (Some target) ;;
  upd (fun s => s <| hold_anchor := Some h |> <| stream_sent_at := None |> <| stream_sent_target := None |>) ;~
  _ <~ send h false ;; ret tt.

Definition next_cycle : ControlM (Z * float) :=
  upd (fun s => s <| cycle_id := (cycle_id s + 1)%Z |>) ;~
  s <~ get ;; t <~ now ;; ret (cycle_id s, t).

(** Under a policy the completion is judged before the leg is sampled. *)
Definition complete_first (arm : JointState) : ControlM unit :=
  s <~ get ;;
  match policy cfg, reference s with
  | Some _, Some r =>
      if negb (running s) then ret tt else
      p <~ loaded ;;
      goal <~ (if is_some (completion p) then ret None else e <~ lift (Reference.end_ r) ;; ret (Some (pt_position e))) ;;
      finished <~ check_completion arm ;;
      when finished
        (s <~ get ;;
         when (negb (frozen s))
           (match goal with
            | Some g => h <~ hold_at arm (Some g) ;;
                        upd (fun s => s <| hold_anchor := Some h |> <| last_command := Some h |>)
            | None => upd (fun s => s <| hold_anchor := None |> <| last_command := None |>)
            end) ;~
         upd (fun s => s <| cartesian_now := None |>))
  | _, _ => ret tt
  end.

(** The first tick at or after the anchor of a leg is logged once. *)
Definition first_sample (r : Reference.t) : ControlM unit :=
  s <~ get ;;
  when (is_some (first_sample_pending s))
    (t <~ exec_time ;; e <~ ref_elapsed r t ;;
     when (e >=f f0) (_ <~ exec_time ;; t <~ exec_time ;; _ <~ ref_elapsed r t ;;
                      upd (fun s => s <| first_sample_pending := None |>))).

Definition stream_leg (arm : JointState) (cycle : Z * float) (r : Reference.t) : ControlM unit :=
  t <~ exec_time ;; point <~ ref_sample r t ;;
  first_sample r ;~
  s <~ get ;;
  let target := if is_some (cartesian_now s) then js_position arm else pt_position point in
  bias <~ integrate cycle target (js_position arm) ;;
  s <~ get ;; c <~ lift (Executor.step (executor s) point arm bias) ;;
  upd (fun s => s <| hold_anchor := None |>) ;~
  own <~ send c true ;;
  if negb own then ret tt
  else when (negb (is_some (policy cfg))) (_ <~ check_completion arm ;; ret tt).

(** The setpoint of this tick, through the ramp when there is one. *)
Definition ramped (q : option vec) : ControlM (option vec) :=
  s <~ get ;;
  match jog_ramp s, policy cfg with
  | Some ramp, Some p =>
      match q with
      | None => upd (fun s => s <| jog_ramp := Some (JogRamp.reset ramp) |>) ;~ ret None
      | Some v =>
          if negb (all_finite v) then ret (Some v) else
          let '(ramp, v) := JogRamp.step ramp v (js_position (last_state s)) (period p) in
          upd (fun s => s <| jog_ramp := Some ramp |>) ;~ ret (Some v)
      end
  | _, _ => ret q
  end.

Definition stream_idle (arm : JointState) (cycle : Z * float) : ControlM unit :=
  je <~ jog_target ;;
  j <~ ramped je.1 ;;
  match j with
  | Some q =>
      if is_some (policy cfg) && negb (all_finite q) then fault "non-finite or invalid servo command" else
      bias <~ integrate cycle q (js_position arm) ;;
      c <~ hold_with arm (Some q) bias ;;
      upd (fun s => s <| hold_anchor := None |>) ;~ _ <~ send c false ;; ret tt
  | None => c <~ anchored_hold cycle je.2 ;; _ <~ send c false ;; ret tt
  end.

(** [_stream] *)
Definition stream : ControlM unit :=
  s <~ get ;;
  let arm := last_state s in
  go <~ become_ready arm ;;
  if negb go || negb (finite_state arm) then ret tt else
  gap <~ stream_gap ;;
  if gap then hold_after_gap arm else
  cycle <~ next_cycle ;;
  complete_first arm ;~
  s <~ get ;;
  match reference s with
  | Some r => if running s then stream_leg arm cycle r else stream_idle arm cycle
  | None => stream_idle arm cycle
  end.

(** ** Inputs *)

Definition observation_error (p : ExecutionPolicy) : ControlM (option string) :=
  t <~ now ;; s <~ get ;;
  ret (if match last_state_at s with Some at_ => t -f at_ >f state_timeout_sec p | None => true end
       then Some "motor state stale - re-plan"%string
       else if needs_health cfg && (negb (health_ok s) || match health_at s with
                                                         | Some at_ => t -f at_ >f health_timeout_sec p
                                                         | None => true
                                                         end)
       then Some "motor health stale or faulted - re-plan"%string else None).

Definition pause_observation (why : string) (preserve_rt_hold : bool) : ControlM unit :=
  s <~ get ;;
  let anchor := if preserve_rt_hold && rt_holding s && health_ok s then hold_anchor s else None in
  when (negb (observation_paused s) || is_some (plan s) || running s || JogHold.active (jog s) || is_some (pose_hold s))
    (cancel why) ;~
  upd (fun s => s <| observation_paused := true |> <| ready_sent := false |> <| last_command := None |>
                  <| hold_anchor := anchor |>).

Definition tick : ControlM unit :=
  s <~ get ;;
  match policy cfg with
  | None => ret tt
  | Some p =>
      if stopped s then ret tt else
      why <~ observation_error p ;;
      match why with
      | Some w => pause_observation w false
      | None => upd (fun s => s <| observation_paused := false |>) ;~ stream
      end
  end.

(** [release_error]: empty when the named plan may start. *)
Definition release_error (id : string) : ControlM string :=
  s <~ get ;;
  match plan s with
  | None => ret "the named plan is no longer staged"%string
  | Some m =>
      if negb (bool_decide (plan_id m = id)) then ret "the named plan is no longer staged"%string else
      if negb (armed s && ready_sent s) then ret "not armed"%string else
      match policy cfg with
      | None => ret ""%string
      | Some p =>
          why <~ observation_error p ;;
          match why with
          | Some w => ret w
          | None => q0 <~ some_or (head (p_positions (body m))) IndexError ;;
                    w <~ lift (start_error p q0 (js_position (last_state s))) ;; ret (default "" w)
          end
      end
  end.

(** [_release] *)
Definition release (id : string) (start : option float) : ControlM unit :=
  s <~ get ;;
  match plan s with
  | None => ret tt
  | Some m =>
      if negb (bool_decide (plan_id m = id)) then ret tt else
      if negb (armed s && ready_sent s) then finish_leg false "not armed" None else
      if running s then ret tt else
      why <~ match policy cfg with Some _ => release_error id | None => ret ""%string end ;;
      if negb (bool_decide (why = ""%string))
      then finish_leg false why None ;~ upd (fun s => s <| pending_traj := None |>) else
      upd (fun s => s <| jog := JogHold.clear (jog s) |>) ;~
      start <~ match start with Some x => ret x | None => exec_time end ;;
      s <~ get ;; tr <~ some_or (pending_traj s) none_error ;;
      let native := native_source s in
      r <~ lift (Reference.new tr (if native then None else Some start) native true) ;;
      upd (fun s => s <| reference := Some r |>
                      <| settling := LegSettling.begin (settling s) (if native then None else Some (start +f Reference.duration r)) |>
                      <| completion_sample_at := None |> <| stream_sent_at := None |> <| stream_sent_target := None |>
                      <| running := true |> <| first_sample_pending := Some id |>) ;~
      say (Executing id start)
  end.

Definition load_plan (m : plan_msg) : ControlM unit :=
  let b := body m in
  tr <~ lift (JointTrajectory_new (p_times b) (p_positions b) (Some (p_velocities b))) ;;
  s <~ get ;; e <~ lift (set_gains (executor s) (Some (p_kp b)) (Some (p_kd b))) ;;
  upd (fun s => s <| executor := e |> <| plan := Some m |> <| cartesian_now := p_cartesian b |>
                  <| pending_traj := Some tr |> <| running := false |>) ;~
  stage_ack (plan_id m) true "" ;~
  when (negb (gated m)) (release (plan_id m) None).

(** Why a plan is refused by the policy, then by its own law. *)
Definition policy_refusal (m : plan_msg) : ControlM (option string) :=
  s <~ get ;;
  match policy cfg with
  | None => ret None
  | Some p =>
      why <~ observation_error p ;;
      match why with
      | Some w => ret (Some w)
      | None => lift (plan_error p (body m) (js_position (last_state s)) (n_arm cfg) (where_been s))
      end
  end.
Definition law_refusal (s : ctl) (m : plan_msg) : option string :=
  match gain_error (p_kp (body m)) (p_kd (body m)) with
  | Some w => Some w
  | None => if is_some (p_cartesian (body m)) && negb (is_some (completion m)) && negb (is_some (done_pose_tol (executor s)))
            then Some "a Cartesian leg without a completion rule completes on the hand pose"%string else None
  end.

Definition on_plan (value : plan_msg) : ControlM unit :=
  match unpack_plan value with
  | Err _ => refuse_plan (plan_id value) "malformed plan" true
  | Ok m =>
      s <~ get ;;
      if is_some (pose_hold s) then refuse_plan (plan_id m) "Soft pose hold active; select Track before planning" true else
      if stopped s || frozen s
      then refuse_plan (plan_id m) (if stopped s then "controller is stopped" else "controller is frozen") false else
      if running s then refuse_plan (plan_id m) "still executing" false else
      if is_some (model_token cfg) && negb (bool_decide (token m = model_token cfg))
      then refuse_plan (plan_id m) "plan model != controller model; re-plan" true else
      why <~ policy_refusal m ;;
      match why with
      | Some w => refuse_plan (plan_id m) w true
      | None =>
          match law_refusal s m with
          | Some w => refuse_plan (plan_id m) w true
          | None => load_plan m
          end
      end
  end.

(** [validate_pose_hold] *)
Definition validate_pose_hold (spec : pose_hold_spec) : ControlM pose_hold_spec :=
  stale <~ match policy cfg with Some p => w <~ observation_error p ;; ret (is_some w) | None => ret false end ;;
  if stale then throw (ValueError "Soft needs fresh, healthy measured state") else
  spec <~ lift (v <-- pose_hold_values spec ;; unpack_pose_hold_values v) ;;
  if bool_decide (pose_provenance cfg = "calibrated"%string)
  then throw (ValueError "Soft uses the RT vendor task model; unavailable while a calibrated model bundle is active") else
  s <~ get ;;
  if negb (supports_pose_hold s && armed s && ready_sent s) || stopped s || frozen s
  then throw (ValueError "Soft needs an armed, ready, capable plant") else
  old <~ match last_state_at s with None => ret true | Some at_ => t <~ now ;; ret (t -f at_ >f f1) end ;;
  if old || negb (finite_state (last_state s)) then throw (ValueError "Soft needs fresh, finite measured state") else
  moving <~ (if running s || JogHold.active (jog s) then ret true
             else m <~ lift (vec_max (np_abs (js_velocity (last_state s)))) ;; ret (m >f c_05)) ;;
  if moving then throw (ValueError "Stop and settle before selecting Soft") else ret spec.

Definition caught (e : exn) : bool := is_ValueError e || match e with TypeError _ => true | _ => false end.
Definition exn_text (e : exn) : string :=
  match e with ValueError m | TypeError m | IllegalTransition m => m | _ => "" end.

Definition set_pose_hold (spec : pose_hold_spec) : ControlM unit :=
  checked <~ catch caught (v <~ validate_pose_hold spec ;; ret (inl v)) (fun e => ret (inr (exn_text e))) ;;
  match checked with
  | inr why => report_mode false (Some why) false
  | inl spec =>
      cancel "entering Soft" ;~
      s <~ get ;; e <~ lift (set_gains (executor s) (Some (track_kp cfg)) (Some (track_kd cfg))) ;;
      upd (fun s => s <| executor := e |> <| last_command := None |> <| cartesian_now := None |> <| pose_hold := Some spec |>) ;~
      reset_integral ;~ report_mode true None false
  end.

(** [_set_gains] *)
Definition change_gains (p d : option vec) : ControlM unit :=
  if negb (is_some p || is_some d) then ret tt else
  s <~ get ;;
  if is_some (gain_error (default (kp (executor s)) p) (default (kd (executor s)) d)) then report_mode true None false else
  when (is_some (pose_hold s)) (cancel "leaving Soft" ;~ upd (fun s => s <| last_command := None |>)) ;~
  s <~ get ;; when (running s) (cancel "gains changed mid-leg") ;~
  s <~ get ;; e <~ lift (set_gains (executor s) p d) ;;
  upd (fun s => s <| executor := e |> <| hold_anchor := None |>) ;~
  report_mode true None false.

Definition nonempty_or (o : option string) (d : string) : string :=
  match o with Some x => if bool_decide (x = ""%string) then d else x | None => d end.

Definition on_cancel (f : control_msg) : ControlM unit :=
  s <~ get ;;
  match c_cancel_plan_id f with
  | Some id =>
      let cur := current_plan_id s in
      if bool_decide (cur = ""%string) || bool_decide (id = cur)
      then cancel (nonempty_or (c_reason f) "cancelled") ;~
           say_state (PlanCleared (if bool_decide (cur = ""%string) then id else cur) true "")
      else say_state (PlanCleared id false "another plan is loaded")
  | None => cancel (nonempty_or (c_reason f) "cancelled")
  end.

Definition on_control (f : control_msg) : ControlM unit :=
  match c_arm f with Some b => set_arm b | None => ret tt end ;~
  match c_payload f with
  | Some (mass, com) => s <~ get ;; e <~ lift (set_payload (executor s) mass com) ;; upd (fun s => s <| executor := e |>)
  | None => ret tt
  end ;~
  match c_execute f with Some id => release id None | None => ret tt end ;~
  match c_gains f with Some (p, d) => change_gains p d | None => ret tt end ;~
  match c_pose_hold f with Some spec => set_pose_hold spec | None => ret tt end ;~
  when (c_cancel f) (on_cancel f) ;~
  when (c_hold f) (upd (fun s => s <| frozen := true |> <| running := false |> <| reference := None |>)) ;~
  match c_stop f with Some w => stop (nonempty_or (c_reason f) w) | None => ret tt end.

Definition jog_refusal (s : ctl) : option string :=
  if stopped s then Some "stopped"%string
  else if frozen s then Some "frozen after a failed settle (cancel/hold, or DISARM, clears it)"%string
  else if negb (armed s) then Some "not armed"%string
  else if negb (ready_sent s) then Some "no fresh measured pose since ARM"%string
  else if is_some (pose_hold s) then Some "Soft (pose hold) is selected"%string
  else if running s then Some "a plan is running"%string else None.

Definition on_jog (q : vec) : ControlM (option string) :=
  s <~ get ;;
  match jog_refusal s with
  | Some w => ret (Some w)
  | None =>
      when (negb (JogHold.active (jog s))) (upd (fun s => s <| jog_ramp := JogRamp.reset <$> jog_ramp s |>)) ;~
      t <~ now ;; s <~ get ;; j <~ lift (JogHold.set (jog s) q t) ;;
      upd (fun s => s <| jog := j |>) ;~ ret None
  end.

Definition clear_jog : ControlM unit :=
  s <~ get ;;
  when (JogHold.active (jog s))
    (upd (fun s => s <| jog := JogHold.clear (jog s) |>) ;~
     h <~ static_hold ;; upd (fun s => s <| hold_anchor := Some h |>)).

(** The RT server holds: a running leg ends, its hold target is inherited. *)
Definition adopt_rt_hold (h : health_msg) : ControlM unit :=
  s <~ get ;;
  when (running s) (cancel "RT command-staleness hold - re-plan from measured pose") ;~
  match h_holding_q h with
  | Some q => when ((length q =? n_arm cfg) && all_finite q)
                (s <~ get ;; c <~ hold_at (last_state s) (Some q) ;; upd (fun s => s <| hold_anchor := Some c |>))
  | None => ret tt
  end.

Definition on_motor_health (h : health_msg) : ControlM unit :=
  when (is_some (policy cfg))
    (t <~ now ;;
     let ok := h_state_fresh h && negb (h_any_fault h) && negb (h_latched_fault h) in
     upd (fun s => s <| health_at := Some t |> <| health_ok := ok |>) ;~
     s <~ get ;;
     when (negb (native_source s) && h_holding h && negb (rt_holding s) && ok) (adopt_rt_hold h) ;~
     upd (fun s => s <| rt_holding := h_holding h |>) ;~
     when (negb ok) (pause_observation "plant health is faulted or stale" false)) ;~
  upd (fun s => s <| supports_pose_hold := h_supports_pose_hold h |>) ;~
  s <~ get ;;
  if h_armed h && negb (bridge_armed s) && armed s then upd (fun s => s <| bridge_armed := true |>)
  else when (negb (h_armed h) && bridge_armed s && armed s && negb (stopped s)) (fault "plant reported disarmed").

(** The measured pose of a sample, and the poses since ARM. *)
Definition track_pose (arm : JointState) : ControlM unit :=
  upd (fun s => s <| last_state := arm |>) ;~
  s <~ get ;;
  when (armed s && all_finite (js_position arm))
    (when (negb (arm_pose_fixed s)) (upd (fun s => s <| arm_pose := Some (js_position arm) |>)) ;~
     upd (fun s => s <| been := Some match been s with
                                     | None => (js_position arm, js_position arm)
                                     | Some (lo, hi) => (zip_with np_min lo (js_position arm), zip_with np_max hi (js_position arm))
                                     end |>)).

Definition quarter_s : float := Eval vm_compute in Prim2SF 0.25%float.
Definition heartbeat : ControlM unit :=
  s <~ get ;;
  due <~ match mode_report_at s with
         | None => ret true
         | Some at_ => t <~ some_or (last_state_at s) none_error ;; ret (t -f at_ >=f quarter_s)
         end ;;
  when due (report_mode true None true).

(** The checks on a sample under a policy: whether it is used. *)
Definition admit_sample (p : ExecutionPolicy) (previous : option float) (arm : JointState) : ControlM bool :=
  if negb (finite_state arm)
  then upd (fun s => s <| last_state_at := None |>) ;~ pause_observation "non-finite motor state" false ;~ ret false
  else
    gap <~ match previous with Some at_ => t <~ now ;; ret (t -f at_ >f state_timeout_sec p) | None => ret false end ;;
    s <~ get ;;
    when gap (pause_observation "motor state gap - re-plan" (negb (native_source s))) ;~ ret true.

Definition on_motor_state (flat : vec) : ControlM unit :=
  s <~ get ;;
  let previous := last_state_at s in
  t <~ now ;; upd (fun s => s <| last_state_at := Some t |>) ;~
  if stopped s then ret tt else
  upd (fun s => s <| plant_t := match state_period cfg with Some p => plant_t s +f p | None => plant_t s end |>) ;~
  arm <~ lift (unpack_motor_state flat (n_arm cfg)) ;;
  use <~ match policy cfg with Some p => admit_sample p previous arm | None => ret true end ;;
  if negb use then ret tt else
  track_pose arm ;~
  when (negb (is_some (policy cfg))) stream ;~
  when (finite_state arm) heartbeat.

(** Calls of the process that hosts the controller. *)
Definition set_stream_hold_deadline (hold_ms margin_ms : float) : ControlM unit :=
  if negb (isfinite hold_ms && (hold_ms >f margin_ms) && (margin_ms >f f0))
  then throw (ValueError "RT hold_ms must exceed the streamed guard margin")
  else upd (fun s => s <| stream_gap_limit_s := Some ((hold_ms -f margin_ms) /f of_Z 1000) |>).

Definition streamed_command_sent (id : string) (q : vec) (at_ : float) : ControlM unit :=
  s <~ get ;;
  when (running s && bool_decide (current_plan_id s = id) && negb (native_source s))
    (upd (fun s => s <| stream_sent_target := Some q |> <| stream_sent_at := Some at_ |>)).

Definition select_reference_window (id : string) (tr : JointTrajectory) (terminal : bool) : ControlM unit :=
  s <~ get ;;
  match reference s with
  | Some r =>
      if negb (bool_decide (current_plan_id s = id)) || negb (Reference.native r)
      then throw (ValueError "selected native reference required") else
      r <~ lift (Reference.new tr (Reference.t_start r) true terminal) ;;
      upd (fun s => s <| reference := Some r |>)
  | None => throw (ValueError "selected native reference required")
  end.

Definition bind_reference_source (bound : bool) : ControlM unit :=
  s <~ get ;;
  if armed s || is_some (plan s) then throw (ValueError "bind reference source before ARM or plan admission")
  else upd (fun s => s <| native_source := bound |>).

(** [staged_trajectory]: a copy through the constructor. *)
Definition staged_trajectory (s : ctl) (id : string) : result JointTrajectory :=
  match pending_traj s with
  | Some tr => if negb (bool_decide (current_plan_id s = id)) || running s
               then Err (ValueError "the named trajectory is not staged and unselected")
               else JointTrajectory_new (times tr) (positions tr) (velocities tr)
  | None => Err (ValueError "the named trajectory is not staged and unselected")
  end.

(** ** The controller under any inputs *)

Inductive input :=
  | Plan (m : plan_msg) | Control (f : control_msg) | Jog (q : vec) | ClearJog | Health (h : health_msg)
  | State (flat : vec) | Tick | Release (id : string) (start : option float)
  | SelectWindow (id : string) (tr : JointTrajectory) (terminal : bool) | BindSource (bound : bool)
  | Sent (id : string) (q : vec) (at_ : float) | HoldDeadline (hold_ms margin_ms : float)
  | LoadModel (d : Dynamics).

Definition handle (i : input) : ControlM unit :=
  match i with
  | Plan m => on_plan m
  | Control f => on_control f
  | Jog q => _ <~ on_jog q ;; ret tt
  | ClearJog => clear_jog
  | Health h => on_motor_health h
  | State flat => on_motor_state flat
  | Tick => tick
  | Release id start => release id start
  | SelectWindow id tr terminal => select_reference_window id tr terminal
  | BindSource b => bind_reference_source b
  | Sent id q at_ => streamed_command_sent id q at_
  | HoldDeadline h m => set_stream_hold_deadline h m
  | LoadModel d => s <~ get ;; e <~ lift (set_dynamics (executor s) d) ;; upd (fun s => s <| executor := e |>)
  end.

(** A handler that raises leaves the assignments made before. *)
Definition react (w : world ctl effect) (i : input) : world ctl effect := (handle i w).2.
Definition start (s : ctl) : world ctl effect := {| obj := s; out := []; asked := 0 |}.

(** A controller over a constructed executor, after any inputs. *)
Definition built (s : ctl) : Prop :=
  exists js d p v tq pt vt g fr tol e jt st sd rc nat_ i,
    Executor.new js d p v tq pt vt g fr tol = Ok e /\ ArmController_new e jt st sd rc nat_ i = Ok s.
Definition reachable (w : world ctl effect) : Prop := exists s l, built s /\ w = run_steps react (start s) l.
End Controller.
