(* ===== verification/ControllerDemo.v ===== *)
(** A one-joint controller run on concrete inputs: it arms, holds, stages a gated
    plan, executes it and reports it done.  The witnesses of the controller's
    theorems use it. *)
From Stdlib Require Import SpecFloat PrimFloat FloatOps.
From S2P Require Import Prelude Floats Motion Servo Policy Effects Executor Controller.

Module Demo.
Definition sixteenth : float := Eval vm_compute in Prim2SF 0.0625%float.
#[export] Instance cfg : Config := {|
  n_arm := 1; model_token := None; pose_provenance := "nominal"; state_period := None; needs_health := true;
  policy := Some policy0; track_kp := [f1]; track_kd := [f1]; session_id := "s" |}.
#[export] Instance env : Env := {|
  clock := fun k => of_Z (Z.of_nat k) *f sixteenth; reference_clock := fun k => of_Z (Z.of_nat k) *f sixteenth;
  sample_source := fun _ => Err KeyError; product_t := fun a _ => a; norm := fun _ => f0; arccos := fun x => x |}.

Definition settle : LegSettling.t := Eval vm_compute in
  {| LegSettling.timeout_s := f4; LegSettling.dwell_s := quarter; LegSettling.leg_end := Some f0;
     LegSettling.settled_since := None; LegSettling.report_at := None |}.
Definition initial : ctl := {|
  executor := executor0; settling := settle; completion_sample_at := None;
  integral := {| Integral.ki := [f0]; Integral.i_limit := [f0]; Integral.kp_ref := None; Integral.bias := [f0];
                 Integral.time := None; Integral.cycle := None |};
  cycle_id := 0%Z; native_source := false; health_at := None; health_ok := false; rt_holding := false;
  observation_paused := false; plant_t := f0;
  jog := {| JogHold.timeout_s := f1; JogHold.n_joints := 1; JogHold.q := None; JogHold.at_ := f0; JogHold.expired := false |};
  jog_ramp := Some {| JogRamp.v_max := [f2]; JogRamp.a_max := [f12]; JogRamp.envelope := Some ([fopp f1], [f1]);
                      JogRamp.q := None; JogRamp.v := [f0] |};
  last_state := {| js_position := [f0]; js_velocity := [f0] |}; last_state_at := None; mode_report_at := None;
  last_command := None; hold_anchor := None; arm_pose := None; arm_pose_fixed := false; been := None;
  cartesian_now := None; first_sample_pending := None; last_law := None; pose_hold := None;
  supports_pose_hold := false; armed := false; bridge_armed := false; ready_sent := false; frozen := false;
  stopped := false; stop_reason := ""; plan := None; pending_traj := None; reference := None; running := false;
  stream_gap_limit_s := None; stream_sent_at := None; stream_sent_target := None |}.

Lemma initial_built : built initial.
Proof.
  exists ["j1"%string], pendulum, [f1], [f1], [f2], f1, f1, false, ""%string, None, executor0, f1, f4, quarter, false, false, None.
  split; vm_compute; reflexivity.
Qed.

Definition leg : plan_msg := {|
  plan_id := "p"; phase := "reach"; gated := true;
  body := {| p_times := [f0; f1]; p_positions := [[f0]; [quarter]]; p_velocities := [[f0]; [f0]]; p_kp := [f2]; p_kd := [f1];
             p_poses := None; p_cartesian := None |};
  completion := None; token := None |}.
Definition healthy (armed : bool) : input := Health {|
  h_state_fresh := true; h_any_fault := false; h_latched_fault := false; h_holding := false; h_holding_q := None;
  h_supports_pose_hold := false; h_armed := armed |}.
Definition at_ (q : float) : input := State [q; f0; f0; f0; f0; f0; f0; f0].

Definition arming : list input := [healthy false; at_ f0; Control (no_control <| c_arm := Some true |>); healthy true; at_ f0; Tick].
Definition executing : list input := arming ++ [Plan leg; Control (no_control <| c_execute := Some "p"%string |>)].
Definition finishing : list input :=
  executing ++ [Tick; at_ f0; healthy true; Tick; at_ quarter; healthy true; Tick; at_ quarter; healthy true; Tick;
                at_ quarter; healthy true; Tick; at_ quarter; healthy true; Tick].
Definition after (l : list input) : world ctl effect := run_steps react (start initial) l.

Lemma after_reachable l : reachable (after l).
Proof. exists initial, l. split; [apply initial_built|done]. Qed.

(** A letter per output. *)
Definition tag (e : effect) : string :=
  match e with
  | MotorCommand c _ _ _ => if forallb (fun x => x =f f0) (qd_des c) then "hold" else "move"
  | ArmMessage b => if b then "arm" else "disarm"
  | ReadyEvent _ _ _ => "ready"
  | PlanStaged _ ok why _ => if ok then "staged" else why
  | LegResult _ ok why _ => if ok then "done" else why
  | LegProgress _ _ => "settling"
  | PlanCleared _ _ _ _ => "cleared"
  | ModeEvent _ _ _ _ => "mode"
  | FaultEvent why => why
  | Executing _ _ => "executing"
  end.
Definition said (w : world ctl effect) : list string := rev (map (fun x => tag x.2) (out w)).

Example demo_run : said (after finishing) =
  ["mode"; "arm"; "ready"; "hold"; "staged"; "executing"; "move"; "mode"; "move"; "mode"; "settling"; "hold"; "mode"; "done";
   "hold"; "mode"; "hold"; "mode"; "hold"]%string.
Proof. vm_compute. reflexivity. Qed.
End Demo.
