(* ===== verification/ControllerFacts.v ===== *)
(** What the arm controller guarantees, for every configuration, environment and
    sequence of inputs.

    [good] is the invariant of the object and of everything it has said; it is
    carried through the methods by the logic of [Effects]: most of them are
    [calm] (they keep the invariant and the operating mode), [send] needs the
    mode a stream has checked ([live]). *)
From Stdlib Require Import SpecFloat PrimFloat FloatOps.
From S2P Require Import Prelude Floats Motion Servo Policy Effects Executor Controller ControllerDemo.

Abbreviation W := (world ctl effect).

Section Facts.
Context {cfg : Config} {env : Env}.

(** ** The invariant *)

Definition plan_traj (m : plan_msg) : result JointTrajectory :=
  JointTrajectory_new (p_times (body m)) (p_positions (body m)) (Some (p_velocities (body m))).

(** What a loaded plan went through. *)
Definition admitted (m : plan_msg) : Prop :=
  damped (p_kp (body m)) (p_kd (body m)) /\
  (model_token cfg = None \/ token m = model_token cfg) /\
  forall p, policy cfg = Some p -> exists measured rows, plan_error p (body m) measured (n_arm cfg) rows = Ok None.

Record Inv (s : ctl) : Prop := {
  inv_running : running s = true -> armed s = true /\ ready_sent s = true /\ is_some (plan s) = true /\ is_some (reference s) = true;
  inv_ready : ready_sent s = true -> armed s = true /\ bridge_armed s = true;
  inv_reference : is_some (reference s) = true -> running s = true;
  inv_traj r m : reference s = Some r -> Reference.native r = false -> plan s = Some m -> plan_traj m = Ok (Reference.trajectory r);
  inv_pending tr m : pending_traj s = Some tr -> plan s = Some m -> plan_traj m = Ok tr;
  inv_admitted m : plan s = Some m -> admitted m;
  inv_law : executor_ok (executor s);
}.

(** A motor command and the object that said it. *)
Definition vetted (s : ctl) (p : ExecutionPolicy) (c : JointServoCommand) : Prop :=
  valid_command s p c = Ok true /\
  (pose_hold s = None -> tracking_error_exceeded p c (js_position (last_state s)) = Ok false \/
                         (hold_anchor s = Some c /\ running s = false)).
(** The words are the command's, packed with the block of the law it goes with. *)
Definition packed (c : JointServoCommand) (spec : option cartesian_spec) (pose : option pose_hold_spec) (words : list float) : Prop :=
  exists tail, match spec with Some v => t <-- cartesian_values v ;; Ok (Some t) | None => Ok None end = Ok tail /\
    pack_motor_command c tail pose = Ok words.
Definition said_ok (x : ctl * effect) : Prop :=
  match x with
  | (s, MotorCommand c spec pose words) =>
      armed s = true /\ ready_sent s = true /\ bridge_armed s = true /\ stopped s = false /\
      (forall p, policy cfg = Some p -> vetted s p c) /\ packed c spec pose words /\ pose = pose_hold s
  | _ => True
  end.

Definition good (w : W) : Prop := Inv (obj w) /\ Forall said_ok (out w).

Definition mode (s : ctl) := (armed s, ready_sent s, bridge_armed s, stopped s).
Definition core (s : ctl) := (mode s, running s, plan s, pending_traj s, reference s, executor s).

Lemma Inv_core s s' : core s' = core s -> Inv s -> Inv s'.
Proof.
  unfold core, mode. intros [= E1 E2 E3 E4 E5 E6 E7 E8 E9] [H1 H2 H3 H4 H5 H6 H7].
  split; rewrite ?E1, ?E2, ?E3, ?E4, ?E5, ?E6, ?E7, ?E8, ?E9; auto.
Qed.

(** ** Calm computations *)

Definition calm (_ : bool) (w w' : W) : Prop := (good w -> good w') /\ mode (obj w') = mode (obj w).
#[local] Instance calm_flow : Flow calm.
Proof.
  split; unfold calm; [naive_solver| |naive_solver].
  intros b w w' w'' [H1 H2] [H3 H4]. split; [auto|congruence].
Qed.

Lemma calm_upd f : (forall s, Inv s -> Inv (f s)) -> (forall s, mode (f s) = mode s) -> steps calm (upd f).
Proof. intros H1 H2 w. split; [|apply H2]. intros [Hi Ho]. split; [by apply H1|done]. Qed.
Lemma calm_core f : (forall s, core (f s) = core s) -> steps calm (upd f).
Proof.
  intros H. apply calm_upd; intros s; [by apply Inv_core|]. specialize (H s). unfold core, mode in *. congruence.
Qed.
Lemma calm_say e : (forall s, said_ok (s, e)) -> steps calm (say e).
Proof. intros H w. split; [|done]. intros [Hi Ho]. split; [done|]. by constructor. Qed.
Lemma calm_ask : steps calm (ask (S:=ctl) (O:=effect)).
Proof. intros w. by split. Qed.

Hint Resolve calm_ask : steps.
Hint Extern 1 (steps calm (upd _)) => apply calm_core; intros; reflexivity : steps.
Hint Extern 1 (steps calm (say _)) => apply calm_say; intros; exact I : steps.

Lemma calm_now : steps calm now.
Proof. unfold now. steps. Qed.
Hint Resolve calm_now : steps.
Lemma calm_exec_time : steps calm exec_time.
Proof. unfold exec_time. steps. Qed.
Lemma calm_selected r : steps calm (selected r).
Proof. unfold selected. steps. Qed.
Hint Resolve calm_exec_time calm_selected : steps.
Lemma calm_elapsed r t : steps calm (ref_elapsed r t).
Proof. unfold ref_elapsed. steps. Qed.
Lemma calm_sample r t : steps calm (ref_sample r t).
Proof. unfold ref_sample. steps. Qed.
Lemma calm_say_state f : (forall rt s, said_ok (s, f rt)) -> steps calm (say_state f).
Proof. intros H. unfold say_state. steps. by apply calm_say. Qed.
Lemma calm_loaded : steps calm loaded.
Proof. unfold loaded. steps. Qed.
Hint Resolve calm_elapsed calm_sample calm_loaded : steps.
Hint Extern 1 (steps calm (say_state _)) => apply calm_say_state; intros; exact I : steps.
Lemma calm_stage_ack i ok why : steps calm (stage_ack i ok why).
Proof. unfold stage_ack. steps. Qed.
Hint Resolve calm_stage_ack : steps.
Lemma calm_refuse i why r : steps calm (refuse_plan i why r).
Proof. unfold refuse_plan. steps. Qed.
Lemma calm_report ok why h : steps calm (report_mode ok why h).
Proof. unfold report_mode. steps. Qed.
Lemma calm_reset : steps calm reset_integral.
Proof. unfold reset_integral. steps. Qed.
Lemma calm_hold_at st a : steps calm (hold_at st a).
Proof. unfold hold_at. steps. Qed.
Hint Resolve calm_refuse calm_report calm_reset calm_hold_at : steps.
Lemma calm_static_hold : steps calm static_hold.
Proof. unfold static_hold. steps. Qed.
Hint Resolve calm_static_hold : steps.

Lemma calm_finish ok why c : steps calm (finish_leg ok why c).
Proof.
  unfold finish_leg. steps. apply calm_upd; [|done]. intros s [H1 H2 H3 H4 H5 H6 H7]. by split.
Qed.
Hint Resolve calm_finish : steps.
Lemma calm_cancel why : steps calm (cancel why).
Proof.
  unfold cancel. steps. apply calm_upd; [|done]. intros s [H1 H2 H3 H4 H5 H6 H7]. by split.
Qed.
Hint Resolve calm_cancel : steps.

Lemma calm_leg_done st : steps calm (leg_done st).
Proof. unfold leg_done. steps. Qed.
Lemma calm_measure v st p r : steps calm (measure v st p r).
Proof. unfold measure. steps. Qed.
Hint Resolve calm_leg_done calm_measure : steps.
Lemma calm_freeze m : steps calm (freeze_timed_out m).
Proof. unfold freeze_timed_out. steps. apply calm_upd; [|done]. intros s [H1 H2 H3 H4 H5 H6 H7]. by split. Qed.
Lemma calm_verdict st : steps calm (settle_verdict st).
Proof. unfold settle_verdict. steps. Qed.
Hint Resolve calm_freeze calm_verdict : steps.
Lemma calm_on_verdict st t v : steps calm (on_verdict st t v).
Proof. unfold on_verdict. steps. Qed.
Hint Resolve calm_on_verdict : steps.
Lemma calm_check st : steps calm (check_completion st).
Proof. unfold check_completion. steps. Qed.
Hint Resolve calm_check : steps.
Lemma calm_jog_target : steps calm jog_target.
Proof. unfold jog_target. steps. Qed.
Lemma calm_integrate c t m : steps calm (integrate c t m).
Proof. unfold integrate. steps. Qed.
Lemma calm_hold_with st a b : steps calm (hold_with st a b).
Proof. unfold hold_with. steps. Qed.
Hint Resolve calm_jog_target calm_integrate calm_hold_with : steps.
Lemma calm_anchored c r : steps calm (anchored_hold c r).
Proof. unfold anchored_hold, policy_hold, legacy_hold. steps. Qed.
Lemma calm_stream_gap : steps calm stream_gap.
Proof. unfold stream_gap. steps. Qed.
Lemma calm_next_cycle : steps calm next_cycle.
Proof. unfold next_cycle. steps. Qed.
Lemma calm_complete_first arm : steps calm (complete_first arm).
Proof. unfold complete_first. steps. Qed.
Lemma calm_first_sample r : steps calm (first_sample r).
Proof. unfold first_sample. steps. Qed.
Lemma calm_ramped q : steps calm (ramped q).
Proof. unfold ramped. steps. Qed.
Hint Resolve calm_anchored calm_stream_gap calm_next_cycle calm_complete_first calm_first_sample calm_ramped : steps.

Lemma kept_now {A} (f : ctl -> A) : steps (kept f) now.
Proof. unfold now. steps. Qed.
Lemma kept_say_state {A} (f : ctl -> A) e : steps (kept f) (say_state e).
Proof. unfold say_state. steps. Qed.
Hint Resolve kept_now kept_say_state : steps.

(** ** Arming, stopping *)

(** Nothing of the last arming is left. *)
Record disarmed (s : ctl) : Prop := {
  dis_ready : ready_sent s = false;
  dis_bridge : bridge_armed s = negb (needs_health cfg);
  dis_leg : plan s = None /\ pending_traj s = None /\ reference s = None /\ running s = false /\ cartesian_now s = None;
  dis_hold : hold_anchor s = None /\ last_command s = None /\ pose_hold s = None;
  dis_jog : JogHold.active (jog s) = false;
  dis_bias : Forall (eq f0) (Integral.bias (integral s));
}.

Lemma reset_bias i : Forall (eq f0) (Integral.bias (Integral.reset i)).
Proof. apply Forall_replicate. done. Qed.

Lemma disarm_returns w : exists w', disarm_reset w = (Ok tt, w') /\ disarmed (obj w') /\ armed (obj w') = armed (obj w) /\
  stopped (obj w') = stopped (obj w).
Proof.
  unfold disarm_reset, when, finish_leg, reset_integral, bind, get, upd, say, lift, ret. simpl.
  destruct (running (obj w)); eexists; (split; [reflexivity|]); (split; [|done]); split; apply reset_bias || done.
Qed.

Lemma Inv_disarmed s : Inv s -> disarmed s -> forall b, Inv (s <| armed := b |>).
Proof.
  intros [_ _ _ _ _ _ H7] [D1 D2 (D3 & D4 & D5 & D6 & D7) _ _ _] b. split; simpl; intros; try congruence. by rewrite D5 in *.
Qed.

Lemma good_upd w f : Inv (f (obj w)) -> good w -> good ((upd f w).2).
Proof. intros Hi [_ Ho]. by split. Qed.

Lemma disarm_good w : good w -> good (disarm_reset w).2.
Proof.
  intros Hg. unfold disarm_reset.
  assert (steps calm (s <~ get ;; when (running s) (finish_leg false "disarmed mid-leg" None))) as Hc by steps.
  specialize (Hc w). unfold bind, get in Hc |- *. simpl in *.
  destruct (when (running (obj w)) _ w) as [[[]|e] w1]; simpl in Hc; destruct Hc as [Hc _]; [|by apply Hc].
  destruct (Hc Hg) as [[_ _ _ _ _ _ H7] Ho]. split; [|done]. by split.
Qed.

Definition safe (_ : bool) (w w' : W) : Prop := good w -> good w'.
#[global] Instance safe_flow : Flow safe.
Proof. split; unfold safe; auto. Qed.
Lemma calm_safe {A} (m : ControlM A) : steps calm m -> steps safe m.
Proof. intros H w. exact (proj1 (H w)). Qed.
Hint Extern 5 (steps safe _) => apply calm_safe; solve [eauto 2 with steps typeclass_instances nocore] : steps.

Lemma calm_rest_pose : steps calm rest_pose.
Proof. unfold rest_pose. steps. Qed.
Hint Resolve calm_rest_pose : steps.

Lemma safe_set_arm b : steps safe (set_arm b).
Proof.
  intros w Hg. unfold set_arm, bind at 1, get at 1. simpl.
  (* after the reset: disarmed, or nothing to reset *)
  assert (exists w1, when (armed (obj w) && negb b) disarm_reset w = (Ok tt, w1) /\ good w1 /\
    forall s', core s' = core (obj w1) -> Inv (s' <| armed := b |>)) as (w1 & E1 & G1 & H1).
  { destruct (armed (obj w) && negb b) eqn:Eb; simpl.
    - destruct (disarm_returns w) as (w1 & E & Hd & _). pose proof (disarm_good w Hg) as G. rewrite E in G. simpl in G.
      exists w1. split; [done|]. split; [done|]. intros s' Hs. eapply Inv_core; [|apply (Inv_disarmed _ (proj1 G) Hd b)].
      unfold core, mode in *. simpl. congruence.
    - exists w. split; [done|]. split; [done|]. intros s' Hs.
      pose proof (Inv_core _ _ Hs (proj1 Hg)) as [K1 K2 K3 K4 K5 K6 K7].
      assert (armed s' = armed (obj w)) as Ha by (unfold core, mode in Hs; congruence).
      destruct b; [split; simpl; auto; intros X; [destruct (K1 X) as (? & ? & ? & ?)|destruct (K2 X)]; auto|].
      rewrite andb_true_r in Eb. rewrite Ha, Eb in *.
      by split. }
  unfold bind at 1. rewrite E1. clear E1 Hg.
  set (m := when (b && negb (armed (obj w))) _).
  assert (steps calm m) as Hm by (unfold m; steps).
  assert (core (obj (m w1).2) = core (obj w1)) as Hcore.
  { unfold m, when. destruct (_ && _); [|done]. unfold rest_pose, bind, now, ask, get, ret, upd. simpl.
    destruct (last_state_at (obj w1)), (policy cfg); done. }
  specialize (Hm w1). destruct Hm as [Hm _]. specialize (Hm G1).
  unfold bind. destruct (m w1) as [[[]|e] w2]; simpl in *; [|done].
  split; simpl; [by apply H1|]. constructor; [done|apply Hm].
Qed.
Hint Resolve safe_set_arm : steps.

Lemma safe_upd f : (forall s, Inv s -> Inv (f s)) -> steps safe (upd f).
Proof. intros H w [Hi Ho]. split; [by apply H|done]. Qed.
Lemma safe_stop why : steps safe (stop why).
Proof. unfold stop. steps. apply safe_upd. intros s [H1 H2 H3 H4 H5 H6 H7]. by split. Qed.
Hint Resolve safe_stop : steps.
Lemma safe_fault why : steps safe (fault why).
Proof. unfold fault. steps. Qed.
Hint Resolve safe_fault : steps.

(** A cancel that returns leaves no leg, and nothing that could start one. *)
Record cancelled (s : ctl) : Prop := {
  can_leg : plan s = None /\ pending_traj s = None /\ reference s = None /\ running s = false;
  can_law : pose_hold s = None /\ frozen s = false;
  can_jog : JogHold.active (jog s) = false;
}.

Lemma cancel_ends why w w' : cancel why w = (Ok tt, w') -> cancelled (obj w').
Proof.
  unfold cancel. intros H.
  apply bind_ok in H as (s & w1 & E & H). injection E as <- <-.
  apply bind_ok in H as (keep & w1 & E1 & H). apply bind_ok in H as ([] & w2 & E2 & H).
  apply bind_ok in H as ([] & w3 & E3 & H). apply bind_ok in H as ([] & w4 & E4 & H).
  apply bind_ok in H as ([] & w5 & E5 & E6). injection E5 as <-.
  assert (pose_hold (obj w3) = None) as P3.
  { assert (pose_hold (obj w2) = pose_hold (obj w)) as P2.
    { injection E1 as _ <-. by eapply (kept_eq pose_hold); [|exact E2]; steps. }
    destruct (pose_hold (obj w)) as [ph|]; simpl in E3; [|by injection E3 as <-].
    apply bind_ok in E3 as ([] & v & Ev & E3). injection Ev as <-.
    assert (steps (kept pose_hold) (reset_integral ;~ report_mode true None false)) as K
      by (unfold reset_integral, report_mode; steps).
    by rewrite (kept_eq _ _ _ _ _ K E3). }
  assert (pose_hold (obj w4) = None) as P4.
  { rewrite <-P3. by eapply (kept_eq pose_hold); [|exact E4]; unfold finish_leg; steps. }
  destruct keep; injection E6 as <-; split; simpl; try done; by split.
Qed.

Lemma safe_pause why p : steps safe (pause_observation why p).
Proof.
  intros w Hg. unfold pause_observation, bind at 1, get at 1. simpl.
  set (c := _ || is_some (pose_hold (obj w))).
  assert (steps calm (when c (cancel why))) as Hc by steps. specialize (Hc w). destruct Hc as [Hc _].
  unfold bind. destruct (when c (cancel why) w) as [[[]|e] w1] eqn:E; simpl in *; [|by apply Hc].
  destruct (Hc Hg) as [Hi Ho]. split; [|done]. simpl.
  assert (running (obj w1) = false) as Hr.
  { subst c. unfold when in E. destruct (_ || is_some (pose_hold (obj w))) eqn:Ec.
    - by apply cancel_ends in E as [(_ & _ & _ & ?) _ _].
    - injection E as <-. apply orb_false_iff in Ec as [Ec _]. apply orb_false_iff in Ec as [Ec _].
      by apply orb_false_iff in Ec as [_ Ec]. }
  destruct Hi as [K1 K2 K3 K4 K5 K6 K7]. split; simpl; auto; congruence.
Qed.

(** ** Sending *)

(** The mode in which a stream sends. *)
Definition live (w : W) : Prop := good w /\ armed (obj w) = true /\ ready_sent (obj w) = true /\ stopped (obj w) = false.

Lemma live_calm b w w' : calm b w w' -> live w -> live w'.
Proof. intros [H1 H2] (G & ? & ? & ?). unfold mode in H2. injection H2 as E1 E2 E3 E4. split_and!; [auto|congruence..]. Qed.

Lemma transmit_good c b w :
  live w -> (forall p, policy cfg = Some p -> vetted (obj w) p c) -> good (transmit c b w).2.
Proof.
  intros ([Hi Ho] & Ha & Hr & Hs) Hv. destruct (inv_ready _ Hi Hr) as [_ Hb].
  unfold transmit, bind, upd, get, lift, say. simpl.
  assert (forall s', core s' = core (obj w) -> Inv s') as K by (intros; by eapply Inv_core).
  destruct (match (if b then cartesian_now (obj w) else None) with Some v => _ | None => _ end) as [tail|] eqn:Et; simpl;
    [|split; [by apply K|done]].
  destruct (pack_motor_command _ _ _) as [words|] eqn:Ep; simpl; [|split; [by apply K|done]].
  split; [by apply K|]. constructor; [|done]. split_and!; try done. by exists tail.
Qed.

(** What a check hands on. *)
Definition handed (p : ExecutionPolicy) (r : result (option (JointServoCommand * bool))) (w : W) : Prop :=
  match r with Ok (Some (c, _)) => live w /\ vetted (obj w) p c | _ => good w end.

Lemma live_upd f w : core (f (obj w)) = core (obj w) -> live w -> live (w <| obj := f (obj w) |>).
Proof.
  intros E ([Hi Ho] & ? & ? & ?). assert (Inv (f (obj w))) as Hf by (by eapply Inv_core).
  unfold core, mode in E. split_and!; simpl; [by split|congruence..].
Qed.

Lemma fault_handed p why w : good w -> wp (fault why ;~ ret None) (handed p) w.
Proof.
  intros G. apply (wp_steps safe); [steps|intros [] w' _ K; exact (K G)|intros e w' K; exact (K G)].
Qed.

Lemma static_hold_same w r w' : static_hold w = (r, w') -> w' = w.
Proof. unfold static_hold, hold_at, bind, get, lift. simpl. by destruct (hold_command _ _ _ _); intros [= _ <-]. Qed.

Lemma abort_handed p w : live w -> wp (abort_to_hold p) (handed p) w.
Proof.
  intros L. unfold abort_to_hold.
  apply (wp_steps calm); [steps| |intros e w' K; by apply K, L].
  intros [] w1 E1 K. apply cancel_ends in E1 as [(_ & _ & _ & Hr) _ _]. pose proof (live_calm _ _ _ K L) as L1.
  apply wp_upd. pose proof (live_upd (fun s => s <| last_command := None |>) w1) as L2. specialize (L2 eq_refl L1).
  set (w2 := w1 <| obj := _ |>) in *. apply wp_bind. unfold wp.
  destruct (static_hold w2) as [[h|e] w3] eqn:E3; apply static_hold_same in E3 as ->; simpl; [|apply L2].
  apply wp_upd, wp_get. pose proof (live_upd (fun s => s <| hold_anchor := Some h |>) w2) as L3. specialize (L3 eq_refl L2).
  set (w3 := w2 <| obj := _ |>) in *.
  apply wp_lift; [|intros; apply L3]. intros [|] Hv; simpl; [|apply fault_handed, L3].
  apply wp_ret. split; [done|]. split; [done|]. intros _. by right.
Qed.

Lemma vet_handed p c w : live w -> wp (vet p c) (handed p) w.
Proof.
  intros L. unfold vet. apply wp_get, (wp_steps calm); [steps| |intros e w' K; by apply K, L].
  intros [] w1 _ K. pose proof (live_calm _ _ _ K L) as L1. apply wp_get, wp_lift; [|intros; apply L1].
  intros [|] Hv; simpl; [|apply fault_handed, L1].
  apply wp_lift; [|intros; apply L1]. intros [|] Ht; [by apply abort_handed|].
  apply wp_ret. split; [done|]. split; [done|]. intros Hn. left. by rewrite Hn in Ht.
Qed.

Lemma send_good c b w : live w -> good (send c b w).2.
Proof.
  intros L. unfold send. destruct (policy cfg) as [p|] eqn:Hp.
  - enough (wp (v <~ vet p c ;; match v with None => ret false | Some (c, own) => transmit c (b && own) ;~ ret own end)
              (fun _ => good) w) as H by exact H.
    apply wp_bind. eapply wp_mono; [|by apply vet_handed]. intros [[[c' own]|]|e] w1 H1; [|done..].
    destruct H1 as [L1 V1]. pose proof (transmit_good c' (b && own) w1 L1) as G.
    rewrite Hp in G. specialize (G ltac:(intros ? [= <-]; done)).
    apply wp_bind. unfold wp. by destruct (transmit c' (b && own) w1) as [[[]|] w2].
  - pose proof (transmit_good c b w L) as G. rewrite Hp in G. specialize (G ltac:(done)).
    unfold bind. by destruct (transmit c b w) as [[[]|] w2].
Qed.

(** ** Streaming *)

Definition sends {A} (m : ControlM A) : Prop := forall w, live w -> good (m w).2.

Lemma sends_safe {A} (m : ControlM A) : steps safe m -> sends m.
Proof. intros H w [G _]. by apply H. Qed.
Lemma sends_bind {A B} (m : ControlM A) (k : A -> ControlM B) : steps calm m -> (forall a, sends (k a)) -> sends (bind m k).
Proof.
  intros Hm Hk w L. apply (wp_steps calm) with (Q := fun _ => good); [done| |].
  - intros a w' _ K. by apply Hk, (live_calm _ _ _ K).
  - intros e w' K. apply K, L.
Qed.
Lemma sends_then {A B} (m : ControlM A) (k : A -> ControlM B) : sends m -> (forall a, steps safe (k a)) -> sends (bind m k).
Proof.
  intros Hm Hk w L. specialize (Hm w L). destruct (bind_cases m k w) as [(a & _ & ->)|(e & _ & ->)]; [by apply Hk|done].
Qed.
Lemma sends_send c b : sends (send c b).
Proof. intros w. apply send_good. Qed.

Ltac sends :=
  repeat first
    [ progress intros
    | apply sends_send
    | apply sends_then; [apply sends_send|solve [steps]]
    | apply sends_safe; solve [steps]
    | apply sends_bind; [solve [steps]|]
    | match goal with
      | |- sends (if ?b then _ else _) => destruct b eqn:?
      | |- sends (match ?x with _ => _ end) => destruct x eqn:?
      end
    | progress cbv zeta ].

Lemma sends_gap arm : sends (hold_after_gap arm).
Proof. unfold hold_after_gap. sends. Qed.
Lemma sends_leg arm c r : sends (stream_leg arm c r).
Proof. unfold stream_leg. sends. Qed.
Lemma sends_idle arm c : sends (stream_idle arm c).
Proof. unfold stream_idle. sends. Qed.

Lemma ready_live arm w : good w -> stopped (obj w) = false ->
  wp (become_ready arm) (fun r w' => good w' /\ (r = Ok true -> live w')) w.
Proof.
  intros G Hs. unfold become_ready. apply wp_get.
  destruct (armed (obj w)) eqn:Ha; simpl; [|by apply wp_ret].
  destruct (ready_sent (obj w)) eqn:Hr; [by apply wp_ret|].
  destruct (bridge_armed (obj w)) eqn:Hb; simpl; [|by apply wp_ret].
  apply wp_upd. set (w1 := w <| obj := _ |>).
  assert (live w1) as L1.
  { destruct G as [[H1 H2 H3 H4 H5 H6 H7] Ho]. split_and!; simpl; [|done..]. split; [|done].
    split; simpl; auto. intros X. destruct (H1 X) as (? & ? & ?). congruence. }
  apply wp_lift; [|intros e _; split; [apply L1|done]]. intros qd _.
  apply (wp_steps calm); [steps| |intros e w' K; split; [by apply K, L1|done]].
  intros [] w2 _ K. pose proof (live_calm _ _ _ K L1) as L2. apply wp_ret. split; [apply L2|done].
Qed.

Lemma stream_good w : good w -> stopped (obj w) = false -> good (stream w).2.
Proof.
  intros G Hs. unfold stream. enough (wp stream (fun _ => good) w) by done.
  apply wp_get, wp_bind. eapply wp_mono; [|by apply ready_live]. intros [[]|e] w1 [G1 H1]; simpl; [|done..].
  specialize (H1 eq_refl). destruct (finite_state _); simpl; [|done].
  enough (forall m : ControlM unit, sends m -> wp m (fun _ => good) w1) as K.
  { apply K. apply sends_bind; [steps|]. intros []; [apply sends_gap|].
    apply sends_bind; [steps|]. intros c. apply sends_bind; [steps|]. intros _. apply sends_bind; [steps|]. intros s.
    destruct (reference s); [destruct (running s)|]; auto using sends_leg, sends_idle. }
  intros m Hm. by apply Hm.
Qed.

(** ** Inputs *)

Lemma calm_observation p : steps calm (observation_error p).
Proof. unfold observation_error. steps. Qed.
Hint Resolve calm_observation safe_pause : steps.
Lemma calm_release_error i : steps calm (release_error i).
Proof. unfold release_error. steps. Qed.
Hint Resolve calm_release_error : steps.

Lemma safe_tick : steps safe tick.
Proof.
  unfold tick. intros w G. unfold bind at 1, get at 1. destruct (policy cfg) as [p|]; [|done].
  destruct (stopped (obj w)) eqn:Hs; [done|].
  enough (wp (why <~ observation_error p ;; match why with Some w => pause_observation w false
    | None => upd (fun s => s <| observation_paused := false |>) ;~ stream end) (fun _ => good) w) by done.
  apply (wp_steps calm); [steps| |intros e w' K; by apply K].
  intros [why|] w1 _ K; [by apply (safe_pause why false), K|]. apply wp_upd.
  destruct K as [K1 K2]. apply stream_good.
  - split; simpl; [|apply K1, G]. eapply Inv_core; [|apply K1, G]. done.
  - unfold mode in K2. simpl. congruence.
Qed.

(** Computations that change nothing of the core. *)
Definition quiet (_ : bool) (w w' : W) : Prop := core (obj w') = core (obj w) /\ out w' = out w.
#[local] Instance quiet_flow : Flow quiet.
Proof. split; unfold quiet; [done|intros b w w' w'' [] []; split; congruence|done]. Qed.
Hint Extern 1 (steps quiet (upd _)) => intros ?; split; reflexivity : steps.
Hint Extern 1 (steps quiet ask) => intros ?; split; reflexivity : steps.
Lemma quiet_now : steps quiet now.
Proof. unfold now. steps. Qed.
Hint Resolve quiet_now : steps.
Lemma quiet_exec_time : steps quiet exec_time.
Proof. unfold exec_time. steps. Qed.
Lemma quiet_observation p : steps quiet (observation_error p).
Proof. unfold observation_error. steps. Qed.
Hint Resolve quiet_exec_time quiet_observation : steps.
Lemma quiet_release_error i : steps quiet (release_error i).
Proof. unfold release_error. steps. Qed.
Hint Resolve quiet_release_error : steps.
Lemma quiet_good b w w' : quiet b w w' -> good w -> good w'.
Proof. intros [H1 H2] [Hi Ho]. split; [by eapply Inv_core|by rewrite H2]. Qed.

(** The world in which a leg starts. *)
Definition start_leg (r : Reference.t) (id : string) (native : bool) (t : float) (s : ctl) : ctl :=
  s <| reference := Some r |>
    <| settling := LegSettling.begin (settling s) (if native then None else Some (t +f Reference.duration r)) |>
    <| completion_sample_at := None |> <| stream_sent_at := None |> <| stream_sent_target := None |>
    <| running := true |> <| first_sample_pending := Some id |>.

Lemma start_Inv s m tr t r id native b : Inv s -> plan s = Some m -> armed s = true -> ready_sent s = true ->
  pending_traj s = Some tr -> Reference.new tr t native b = Ok r -> Inv (start_leg r id native (default f0 t) s).
Proof.
  intros [H1 H2 H3 H4 H5 H6 H7] Hp Ha Hr Ht Hn. unfold Reference.new in Hn. pass_guard Hn E. injection Hn as <-.
  split; simpl; auto.
  - intros _. by rewrite Hp.
  - intros r' m' [= <-] _ Hp'. by apply H5.
Qed.

Lemma safe_release i t : steps safe (release i t).
Proof.
  intros w G. enough (wp (release i t) (fun _ => good) w) by done. unfold release. apply wp_get.
  destruct (plan (obj w)) as [m|] eqn:Hp; [|done]. destruct (negb (bool_decide _)); [done|].
  destruct (armed (obj w) && ready_sent (obj w)) eqn:Em; simpl; [|by apply (calm_safe _ (calm_finish false "not armed" None))].
  destruct (running (obj w)); [done|]. apply andb_true_iff in Em as [Ha Hr].
  apply (wp_steps quiet); [steps| |intros e w' K; by eapply quiet_good].
  intros why w1 _ K. pose proof (quiet_good _ _ _ K G) as G1.
  destruct (negb (bool_decide _)).
  { enough (steps safe (finish_leg false why None;~ upd (fun s => s <| pending_traj := None |>))) as F by by apply F.
    steps. apply safe_upd. intros s [H1 H2 H3 H4 H5 H6 H7]. by split. }
  destruct K as [K _].
  assert (quiet true w1 (w1 <| obj := (obj w1) <| jog := JogHold.clear (jog (obj w1)) |> |>)) as K1 by done.
  apply wp_upd. pose proof (quiet_good _ _ _ K1 G1) as G2. destruct K1 as [K1 _]. rewrite K in K1.
  set (w2 := w1 <| obj := _ |>) in *.
  apply (wp_steps quiet); [steps| |intros e w' K'; by eapply quiet_good].
  intros t0 w3 _ K3. pose proof (quiet_good _ _ _ K3 G2) as G3. destruct K3 as [K3 _]. rewrite K1 in K3.
  apply wp_get, wp_bind. unfold some_or. destruct (pending_traj (obj w3)) as [tr|] eqn:Ht; [|done].
  apply wp_ret, wp_lift; [|done]. intros r Hn. apply wp_upd.
  enough (good (w3 <| obj := start_leg r i (native_source (obj w3)) t0 (obj w3) |>)) as G4
    by (split; [apply G4|constructor; [done|apply G4]]).
  split; [|apply G3]. unfold core, mode in K3.
  assert (Inv (start_leg r i (native_source (obj w3)) (default f0 (if native_source (obj w3) then None else Some t0)) (obj w3))) as I
    by (eapply (start_Inv _ m tr); [apply G3|congruence..|exact Ht|exact Hn]).
  clear -I. destruct (native_source (obj w3)); exact I.
Qed.

Hint Resolve safe_release : steps.

Lemma load_good m w : good w -> running (obj w) = false -> admitted m -> good (load_plan m w).2.
Proof.
  intros G Hn Ha. enough (wp (load_plan m) (fun _ => good) w) by done. unfold load_plan.
  apply wp_lift; [|done]. intros tr Ht. apply wp_get, wp_lift; [|done]. intros e He. apply wp_upd.
  enough (steps safe (stage_ack (plan_id m) true "" ;~ when (negb (gated m)) (release (plan_id m) None))) as F.
  { apply F. destruct G as [[H1 H2 H3 H4 H5 H6 H7] Ho]. apply set_gains_ok in He as [He _]; [|done].
    split; [|done]. split; simpl; auto; try done; [intros X; apply H3 in X; congruence| |by intros ? ? [= <-] [= <-]|by intros ? [= <-]].
    intros r m' Hr. specialize (H3 ltac:(by rewrite Hr)). congruence. }
  steps.
Qed.

Lemma quiet_policy_refusal m : steps quiet (policy_refusal m).
Proof. unfold policy_refusal. steps. Qed.
Hint Resolve quiet_policy_refusal : steps.

(** The answer of [policy_refusal] is the policy's on the current sample. *)
Lemma policy_refusal_none m w w' p : policy_refusal m w = (Ok None, w') -> policy cfg = Some p ->
  plan_error p (body m) (js_position (last_state (obj w))) (n_arm cfg) (where_been (obj w)) = Ok None.
Proof.
  unfold policy_refusal. intros H Hp. rewrite Hp in H. apply bind_ok in H as (s & w1 & E & H). injection E as <- <-.
  apply bind_ok in H as ([why|] & w1 & _ & H); [done|]. by injection H.
Qed.

Lemma safe_plan m : steps safe (on_plan m).
Proof.
  unfold on_plan. destruct (unpack_plan m) as [m'|e] eqn:Eu; [|steps]. clear Eu m.
  intros w G. enough (wp (s <~ get ;; (if is_some (pose_hold s) then _ else _)) (fun _ => good) w) as H by exact H.
  apply wp_get. destruct (is_some _); [by apply (calm_safe _ (calm_refuse _ _ _))|].
  destruct (_ || _); [by apply (calm_safe _ (calm_refuse _ _ _))|].
  destruct (running (obj w)) eqn:Hn; [by apply (calm_safe _ (calm_refuse _ _ _))|].
  destruct (_ && _) eqn:Etok; [by apply (calm_safe _ (calm_refuse _ _ _))|].
  apply (wp_steps quiet); [steps| |intros e w' K; by eapply quiet_good].
  intros [why|] w1 E1 K; [by apply (calm_safe _ (calm_refuse _ _ _)), (quiet_good _ _ _ K)|].
  destruct (law_refusal (obj w) m') as [why|] eqn:El;
    [by apply (calm_safe _ (calm_refuse _ _ _)), (quiet_good _ _ _ K)|].
  apply load_good; [by eapply quiet_good| |].
  - destruct K as [K _]. unfold core in K. congruence.
  - unfold law_refusal in El. destruct (gain_error _ _) eqn:Eg; [done|]. apply gain_error_None in Eg.
    split; [done|]. split.
    + destruct (model_token cfg) as [t|]; [right|by left]. simpl in Etok. apply negb_false_iff in Etok. by breflect.
    + intros p Hp. do 2 eexists. by eapply policy_refusal_none.
Qed.

(** A change of the executor that it accepts. *)
Lemma safe_install {B} (r : ctl -> result Executor.t) (g : Executor.t -> ctl -> ctl) (k : ControlM B) :
  (forall s e, executor_ok (executor s) -> r s = Ok e -> executor_ok e) ->
  (forall s e, Inv s -> executor_ok e -> Inv (g e s)) -> steps safe k ->
  steps safe (s <~ get ;; e <~ lift (r s) ;; upd (g e) ;~ k).
Proof.
  intros Hr Hg Hk w G. enough (wp (s <~ get ;; e <~ lift (r s) ;; upd (g e) ;~ k) (fun _ => good) w) by done.
  apply wp_get, wp_lift; [|done]. intros e He. apply wp_upd, Hk. destruct G as [Hi Ho]. split; [|done].
  apply Hg; [done|]. eapply Hr; [apply Hi|exact He].
Qed.

Lemma set_gains_law p d s e : executor_ok (executor s) -> set_gains (executor s) p d = Ok e -> executor_ok e.
Proof. intros H He. by eapply set_gains_ok in He as [He _]. Qed.
Lemma set_payload_law m com s e : executor_ok (executor s) -> set_payload (executor s) m com = Ok e -> executor_ok e.
Proof. intros H He. pose proof (apply_ok (executor s) (SetPayload m com) H) as K. unfold apply in K. by rewrite He in K. Qed.
Lemma set_dynamics_law d s e : executor_ok (executor s) -> set_dynamics (executor s) d = Ok e -> executor_ok e.
Proof. intros H He. pose proof (apply_ok (executor s) (SetDynamics d) H) as K. unfold apply in K. by rewrite He in K. Qed.
Hint Resolve set_gains_law set_payload_law set_dynamics_law : steps.

Lemma safe_replace (r : ctl -> result Executor.t) :
  (forall s e, executor_ok (executor s) -> r s = Ok e -> executor_ok e) ->
  steps safe (s <~ get ;; e <~ lift (r s) ;; upd (fun s => s <| executor := e |>)).
Proof.
  intros Hr w G. enough (wp (s <~ get ;; e <~ lift (r s) ;; upd (fun s => s <| executor := e |>)) (fun _ => good) w) by done.
  apply wp_get, wp_lift; [|done]. intros e He. destruct G as [[] Ho]. split; [|done]. split; simpl; eauto.
Qed.

Ltac install := apply safe_install;
  [eauto with steps|let H := fresh in intros ? ? [] H; simpl; by split|].

Lemma quiet_validate spec : steps quiet (validate_pose_hold spec).
Proof. unfold validate_pose_hold. steps. Qed.
Lemma safe_quiet {A} (m : ControlM A) : steps quiet m -> steps safe m.
Proof. intros H w. exact (quiet_good _ _ _ (H w)). Qed.

Lemma safe_set_pose_hold spec : steps safe (set_pose_hold spec).
Proof.
  unfold set_pose_hold. apply steps_bind; [typeclasses eauto| |].
  - apply steps_catch; [typeclasses eauto| |steps]. apply safe_quiet. apply steps_bind; [typeclasses eauto|apply quiet_validate|steps].
  - intros [v|why]; [|steps]. apply steps_bind; [typeclasses eauto|steps|]. intros _. install. steps.
Qed.

Lemma safe_change_gains p d : steps safe (change_gains p d).
Proof.
  unfold change_gains. destruct (negb _); [steps|]. apply steps_bind; [typeclasses eauto|steps|]. intros s.
  destruct (is_some _); [steps|]. do 3 (apply steps_bind; [typeclasses eauto|steps|]; intros ?). install. steps.
Qed.

Lemma calm_on_cancel f : steps calm (on_cancel f).
Proof. unfold on_cancel. steps. Qed.
Hint Resolve calm_on_cancel safe_set_pose_hold safe_change_gains safe_plan safe_tick : steps.

Lemma safe_control f : steps safe (on_control f).
Proof.
  unfold on_control. apply steps_bind; [typeclasses eauto|steps|]. intros _.
  apply steps_bind; [typeclasses eauto| |].
  { destruct (c_payload f) as [[mass com]|]; [|steps].
    apply safe_replace. eauto with steps. }
  intros _. steps. apply safe_upd. intros s [H1 H2 H3 H4 H5 H6 H7]. by split.
Qed.

Lemma calm_jog q : steps calm (on_jog q).
Proof. unfold on_jog. steps. Qed.
Lemma calm_clear_jog : steps calm clear_jog.
Proof. unfold clear_jog. steps. Qed.
Lemma calm_adopt h : steps calm (adopt_rt_hold h).
Proof. unfold adopt_rt_hold. steps. Qed.
Lemma calm_track arm : steps calm (track_pose arm).
Proof. unfold track_pose. steps. Qed.
Lemma calm_heartbeat : steps calm heartbeat.
Proof. unfold heartbeat. steps. Qed.
Hint Resolve calm_jog calm_clear_jog calm_adopt calm_track calm_heartbeat : steps.

Lemma safe_health h : steps safe (on_motor_health h).
Proof.
  unfold on_motor_health. steps. apply safe_upd. intros s [H1 H2 H3 H4 H5 H6 H7]. split; simpl; auto.
  intros X. by destruct (H2 X).
Qed.

(** What a sample does before the stream keeps [stopped]. *)
Lemma kept_report {A} (f : ctl -> A) ok why h :
  (forall s t, f (s <| mode_report_at := t |>) = f s) -> steps (kept f) (report_mode ok why h).
Proof. intros H. unfold report_mode. steps. all: intros ?; apply H. Qed.
Lemma kept_stopped_cancel why : steps (kept stopped) (cancel why).
Proof. unfold cancel, finish_leg, reset_integral. steps. all: by apply kept_report. Qed.
Hint Resolve kept_stopped_cancel : steps.
Lemma kept_stopped_admit p prev arm : steps (kept stopped) (admit_sample p prev arm).
Proof. unfold admit_sample, pause_observation. steps. Qed.
Lemma kept_stopped_track arm : steps (kept stopped) (track_pose arm).
Proof. unfold track_pose. steps. Qed.

Lemma safe_admit p prev arm : steps safe (admit_sample p prev arm).
Proof. unfold admit_sample. steps. Qed.
Hint Resolve safe_admit kept_stopped_admit kept_stopped_track : steps.

(** Continue while good and not stopped. *)
Definition awake (w : W) : Prop := good w /\ stopped (obj w) = false.
Lemma wp_awake {A B} (m : ControlM A) (k : A -> ControlM B) w :
  awake w -> steps safe m -> steps (kept stopped) m -> (forall a w', awake w' -> good (k a w').2) -> good (bind m k w).2.
Proof.
  intros [G Hs] Hm Hk K. specialize (Hm w G). specialize (Hk w). unfold kept in Hk.
  destruct (bind_cases m k w) as [(a & _ & ->)|(e & _ & ->)]; [|done]. apply K. split; [done|congruence].
Qed.

Lemma good_calm {A} b (m : ControlM A) w w' : steps calm m -> m w = (b, w') -> good w -> good w'.
Proof. intros H E G. pose proof (proj1 (H w) G) as K. by rewrite E in K. Qed.

Lemma safe_state flat : steps safe (on_motor_state flat).
Proof.
  intros w G. enough (good (on_motor_state flat w).2) by done. unfold on_motor_state, bind at 1, get at 1.
  destruct (stopped (obj w)) eqn:Hs.
  - apply (safe_quiet (t <~ now ;; upd (fun s => s <| last_state_at := Some t |>) ;~ ret tt)); [steps|done].
  - assert (awake w) as A0 by done. set (prev := last_state_at (obj w)). clearbody prev. clear G Hs.
    do 3 (apply wp_awake; [done|steps|steps|clear dependent w; intros ? w A0]).
    apply wp_awake; [done|steps|steps|clear dependent w; intros arm w A0].
    apply wp_awake; [done|steps|steps|].
    clear dependent w. intros [] w A0; simpl; [|apply A0].
    apply wp_awake; [done|steps|steps|]. clear dependent w. intros _ w [G Hs].
    assert (good (when (negb (is_some (policy cfg))) stream w).2) as G'
      by (destruct (negb _); simpl; [by apply stream_good|done]).
    destruct (bind_cases (when (negb (is_some (policy cfg))) stream) (fun _ => when (finite_state arm) heartbeat) w)
      as [(u & _ & ->)|(e & _ & ->)]; [|done].
    assert (steps safe (when (finite_state arm) heartbeat)) as H by steps. by apply H.
Qed.
Hint Resolve safe_health safe_control safe_state : steps.

Lemma safe_window i tr terminal : steps safe (select_reference_window i tr terminal).
Proof.
  intros w G. enough (wp (select_reference_window i tr terminal) (fun _ => good) w) by done.
  unfold select_reference_window. apply wp_get. destruct (reference (obj w)) as [r|] eqn:Er; [|done].
  destruct (_ || _); [done|]. apply wp_lift; [|done]. intros r' Hr. unfold Reference.new in Hr. pass_guard Hr E. injection Hr as <-.
  destruct G as [[H1 H2 H3 H4 H5 H6 H7] Ho]. rewrite Er in *. split; [|done]. split; simpl; auto.
  by intros r' m [= <-].
Qed.
Hint Resolve safe_window : steps.

Lemma safe_handle i : steps safe (handle i).
Proof.
  destruct i; simpl; [..|apply safe_replace; eauto with steps];
    unfold streamed_command_sent, set_stream_hold_deadline, bind_reference_source; steps.
Qed.

(** ** Reachable worlds *)

Lemma built_Inv s : built s -> Inv s.
Proof.
  intros (js & d & p & v & tq & pt & vt & g & fr & tol & e & jt & st & sd & rc & nat_ & i & He & Hs).
  apply new_ok in He. unfold ArmController_new in Hs. inv_chain Hs. injection Hs as <-. by split.
Qed.

Lemma reachable_good w : reachable w -> good w.
Proof.
  intros (s & l & Hb & ->). apply run_steps_inv; [intros w i; apply (safe_handle i w)|].
  split; [by apply built_Inv|constructor].
Qed.

(** Every motor command the controller ever sends, on any sequence of
    inputs and whatever the clocks and samples were: at that moment it is armed,
    the plant has acknowledged the arming, it has announced itself ready and it
    is not stopped; under a policy the command passed the policy's last check
    against the poses the arm may be held at, and in the joint law it is within
    the tracking threshold of the measured pose or is the measured hold that
    replaced a command that was not, the leg being over. *)
Theorem commands_are_admitted w s c spec pose words :
  reachable w -> (s, MotorCommand c spec pose words) ∈ out w ->
  armed s = true /\ bridge_armed s = true /\ ready_sent s = true /\ stopped s = false /\
  forall p, policy cfg = Some p ->
    command_valid p c (n_arm cfg) (where_been s) = Ok true /\
    (pose_hold s = None -> tracking_error_exceeded p c (js_position (last_state s)) = Ok false \/
                           (hold_anchor s = Some c /\ running s = false)).
Proof.
  intros Hw Hin. destruct (reachable_good _ Hw) as [_ Ho]. rewrite Forall_forall in Ho. specialize (Ho _ Hin).
  simpl in Ho. destruct Ho as (H1 & H2 & H3 & H4 & H5 & _). by split_and!.
Qed.

(** Whenever a leg runs, the controller is armed, acknowledged and ready,
    and what it flies is the curve of the plan it loaded: a plan with a damped
    law, made for this controller's model, that the policy admitted; without a
    running leg there is no reference to fly. *)
Theorem running_leg_is_admitted w :
  reachable w ->
  (running (obj w) = true ->
     armed (obj w) = true /\ bridge_armed (obj w) = true /\ ready_sent (obj w) = true /\
     exists m r, plan (obj w) = Some m /\ reference (obj w) = Some r /\ admitted m /\
       (Reference.native r = false -> plan_traj m = Ok (Reference.trajectory r))) /\
  (running (obj w) = false -> reference (obj w) = None).
Proof.
  intros Hw. destruct (reachable_good _ Hw) as [[H1 H2 H3 H4 H5 H6 H7] _]. split.
  - intros Hr. destruct (H1 Hr) as (Ha & Hs & Hp & Hf). destruct (H2 Hs) as [_ Hb].
    destruct (plan (obj w)) as [m|] eqn:Em; [|done]. destruct (reference (obj w)) as [r|] eqn:Er; [|done].
    split_and!; try done. exists m, r. split_and!; auto.
  - intros Hr. destruct (reference (obj w)); [|done]. rewrite H3 in Hr; done.
Qed.

(** The executor of a reachable controller always holds a damped law. *)
Theorem law_stays_damped w : reachable w -> damped (kp (executor (obj w))) (kd (executor (obj w))).
Proof. intros Hw. apply (reachable_good _ Hw). Qed.
End Facts.

Import Demo.

Example commands_are_admitted_witness :
  exists s c, command_valid policy0 c (n_arm cfg) (where_been s) = Ok true /\ armed s = true.
Proof.
  destruct (out (Demo.after Demo.arming)) as [|[s e] l] eqn:E; [vm_compute in E; discriminate|].
  destruct e as [c spec pose words| | | | | | | | |]; try (vm_compute in E; discriminate).
  destruct (commands_are_admitted (Demo.after Demo.arming) s c spec pose words) as (Ha & _ & _ & _ & H);
    [apply Demo.after_reachable|rewrite E; left|].
  exists s, c. split; [exact (proj1 (H policy0 eq_refl))|exact Ha].
Defined.

Example running_leg_is_admitted_witness :
  exists m, plan (obj (Demo.after Demo.executing)) = Some m /\ admitted m.
Proof.
  destruct (running_leg_is_admitted (Demo.after Demo.executing)) as [H _]; [apply Demo.after_reachable|].
  destruct H as (_ & _ & _ & m & r & Hm & _ & Ha & _); [vm_compute; reflexivity|].
  exact (ex_intro _ m (conj Hm Ha)).
Defined.
