(* ===== verification/ControllerLegs.v ===== *)
(** The life of a leg in the arm controller: how a plan starts to run, that it is
    never swapped for another, how its end is reported, and that a stop is final.

    [life S a] relates the worlds around a computation that may start the loaded
    plan when it satisfies [S] and, when [a], reports every leg it ends; it is
    proved of every method by the logic of [Effects]. *)
From Stdlib Require Import SpecFloat PrimFloat FloatOps.
From S2P Require Import Prelude Floats Motion Servo Policy Effects Executor Controller ControllerDemo ControllerFacts.

Section Legs.
Context {cfg : Config} {env : Env}.

(** A result of the leg is among the outputs. *)
Definition answered (id : string) (new : list (ctl * effect)) : Prop :=
  exists ok why c, LegResult id ok why c ∈ map snd new.

Record life (S : plan_msg -> Prop) (a : bool) (b : bool) (w w' : W) : Prop := {
  life_plan : plan (obj w') = plan (obj w) \/ plan (obj w') = None;
  life_run : running (obj w') = true -> plan (obj w') = plan (obj w) /\
             (running (obj w) = true \/ exists m, plan (obj w) = Some m /\ S m);
  life_final : stopped (obj w) = true -> stopped (obj w') = true;
  life_out : exists new, out w' = new ++ out w /\
             (stopped (obj w) = true -> Forall (fun x => stopped x.1 = true) new) /\
             (a = true -> b = true -> running (obj w) = true -> running (obj w') = false ->
                answered (current_plan_id (obj w)) new);
}.

Section Life.
Context (S : plan_msg -> Prop) (a : bool).
Abbreviation L := (life S a).

#[local] Instance life_flow : Flow L.
Proof.
  split.
  - intros b w. split; [by left|auto|done|]. exists []. split_and!; [done|done|congruence].
  - intros b w w' w'' [P1 R1 S1 (n1 & O1 & F1 & A1)] [P2 R2 S2 (n2 & O2 & F2 & A2)]. split.
    + destruct P2 as [->| ->]; auto.
    + intros Hr. destruct (R2 Hr) as [E2 H2]. destruct H2 as [H2|(m & Hm & HS)].
      * destruct (R1 H2) as [E1 H1]. split; [congruence|done].
      * destruct P1 as [P1|P1]; [|congruence]. split; [congruence|]. right. exists m. split; [congruence|done].
    + auto.
    + exists (n2 ++ n1). split_and!.
      * by rewrite O2, O1, app_assoc.
      * intros Hs. apply Forall_app. auto.
      * intros Ha Hb Hr Hn. destruct (running (obj w')) eqn:Hr'.
        -- destruct (R1 eq_refl) as [E1 _]. destruct (A2 Ha Hb eq_refl Hn) as (ok & why & c & Hin).
           unfold current_plan_id in *. rewrite E1 in Hin. exists ok, why, c. rewrite map_app. set_solver.
        -- destruct (A1 Ha eq_refl Hr eq_refl) as (ok & why & c & Hin). exists ok, why, c. rewrite map_app. set_solver.
  - intros w w' [P R St (n & O & F & A)]. split; [done..|]. exists n. split_and!; try done.
Qed.

Lemma life_same_upd f :
  (forall s, running (f s) = running s /\ plan (f s) = plan s /\ stopped (f s) = stopped s) -> steps L (upd f).
Proof.
  intros H w. destruct (H (obj w)) as (H1 & H2 & H3). split; simpl; rewrite ?H1, ?H2, ?H3; auto.
  exists []. split_and!; [done|done|congruence].
Qed.
Lemma life_say e : steps L (say e).
Proof.
  intros w. split; simpl; auto. exists [(obj w, e)]. split_and!; [done|by constructor|congruence].
Qed.
Lemma life_ask : steps L ask.
Proof. intros w. split; simpl; auto. exists []. split_and!; [done|done|congruence]. Qed.
Hint Resolve life_ask life_say : steps.
Hint Extern 1 (steps (life _ _) (upd _)) => apply life_same_upd; intros; split_and!; reflexivity : steps.

Lemma life_now : steps L now.
Proof. unfold now. steps. Qed.
Hint Resolve life_now : steps.
Lemma life_exec_time : steps L exec_time.
Proof. unfold exec_time. steps. Qed.
Lemma life_selected r : steps L (selected r).
Proof. unfold selected. steps. Qed.
Hint Resolve life_exec_time life_selected : steps.
Lemma life_elapsed r t : steps L (ref_elapsed r t).
Proof. unfold ref_elapsed. steps. Qed.
Lemma life_sample r t : steps L (ref_sample r t).
Proof. unfold ref_sample. steps. Qed.
Lemma life_say_state f : steps L (say_state f).
Proof. unfold say_state. steps. Qed.
Lemma life_loaded : steps L loaded.
Proof. unfold loaded. steps. Qed.
Hint Resolve life_elapsed life_sample life_say_state life_loaded : steps.
Lemma life_stage_ack i ok why : steps L (stage_ack i ok why).
Proof. unfold stage_ack. steps. Qed.
Hint Resolve life_stage_ack : steps.
Lemma life_refuse i why r : steps L (refuse_plan i why r).
Proof. unfold refuse_plan. steps. Qed.
Lemma life_report ok why h : steps L (report_mode ok why h).
Proof. unfold report_mode. steps. Qed.
Lemma life_reset : steps L reset_integral.
Proof. unfold reset_integral. steps. Qed.
Lemma life_hold_at st anchor : steps L (hold_at st anchor).
Proof. unfold hold_at. steps. Qed.
Hint Resolve life_refuse life_report life_reset life_hold_at : steps.
Lemma life_static_hold : steps L static_hold.
Proof. unfold static_hold. steps. Qed.
Hint Resolve life_static_hold : steps.

(** The end of a leg. *)
Lemma life_finish ok why c : steps L (finish_leg ok why c).
Proof.
  intros w. unfold finish_leg, bind, get, upd, lift, say. simpl.
  destruct (match c with Some _ => _ | None => _ end) as [c'|e]; simpl.
  - split; simpl; auto; [done|]. eexists [_]. split_and!; [reflexivity|by constructor|].
    intros _ _ _ _. exists ok, why, c'. simpl. set_solver.
  - split; simpl; auto; [done|]. exists []. split_and!; [done|done|congruence].
Qed.
Hint Resolve life_finish : steps.

(** An assignment that ends the leg when none runs. *)
Lemma life_idle_upd f w :
  running (obj w) = false -> running (f (obj w)) = false ->
  (plan (f (obj w)) = plan (obj w) \/ plan (f (obj w)) = None) -> stopped (f (obj w)) = stopped (obj w) ->
  L true w (upd f w).2.
Proof.
  intros H1 H2 H3 H4. split; simpl; [done|congruence|congruence|]. exists []. split_and!; [done|done|congruence].
Qed.

Abbreviation lives := (flows L).
Abbreviation lives_bind := (flows_bind L).
Abbreviation lives_steps := (flows_steps L).

Lemma finish_ends ok why c w x w' : finish_leg ok why c w = (Ok x, w') -> running (obj w') = false.
Proof.
  unfold finish_leg, bind, get, upd, lift, say. simpl.
  by destruct (match c with Some _ => _ | None => _ end); intros [= <- <-].
Qed.

Lemma life_cancel why : steps L (cancel why).
Proof.
  intros w. enough (lives (cancel why) w) by done. unfold cancel.
  apply lives_bind; [apply lives_steps; steps|]. intros s w1 [= <- <-].
  apply lives_bind; [apply lives_steps; steps|]. intros keep w1 E1. injection E1 as _ <-.
  apply lives_bind; [apply lives_steps; steps|]. intros [] w1 E1.
  apply (kept_eq running) in E1; [|steps].
  apply lives_bind; [apply lives_steps; steps|]. intros [] w2 E2.
  apply (kept_eq running) in E2; [|by unfold reset_integral, report_mode; steps].
  apply lives_bind; [apply lives_steps; steps|]. intros [] w3 E3.
  assert (running (obj w3) = false) as H3.
  { destruct (running (obj w)) eqn:Hr; [by eapply finish_ends|]. injection E3 as <-. congruence. }
  apply lives_bind; [by apply (life_idle_upd _ _ H3); [|right|]|]. intros [] w4 _. apply lives_steps. steps.
Qed.
Hint Resolve life_cancel : steps.

Lemma life_disarm : steps L disarm_reset.
Proof.
  intros w. enough (lives disarm_reset w) by done. unfold disarm_reset.
  apply lives_bind; [apply lives_steps; steps|]. intros s w1 [= <- <-].
  apply lives_bind; [apply lives_steps; steps|]. intros [] w3 E3.
  assert (running (obj w3) = false) as H3.
  { destruct (running (obj w)) eqn:Hr; [by eapply finish_ends|]. by injection E3 as <-. }
  apply lives_bind; [by apply (life_idle_upd _ _ H3); [|right|]|]. intros [] w4 _. apply lives_steps. steps.
Qed.
Hint Resolve life_disarm : steps.

(** The other methods start nothing and end no leg of their own. *)
Lemma life_rest_pose : steps L rest_pose.
Proof. unfold rest_pose. steps. Qed.
Hint Resolve life_rest_pose : steps.
Lemma life_set_arm b : steps L (set_arm b).
Proof. unfold set_arm. steps. Qed.
Hint Resolve life_set_arm : steps.
Lemma life_stop why : steps L (stop why).
Proof.
  unfold stop. steps. intros w. split; simpl; auto. exists []. split_and!; [done|done|congruence].
Qed.
Hint Resolve life_stop : steps.
Lemma life_fault why : steps L (fault why).
Proof. unfold fault. steps. Qed.
Hint Resolve life_fault : steps.
Lemma life_transmit c b : steps L (transmit c b).
Proof. unfold transmit. steps. Qed.
Lemma life_abort p : steps L (abort_to_hold p).
Proof. unfold abort_to_hold. steps. Qed.
Hint Resolve life_transmit life_abort : steps.
Lemma life_vet p c : steps L (vet p c).
Proof. unfold vet. steps. Qed.
Hint Resolve life_vet : steps.
Lemma life_send c b : steps L (send c b).
Proof. unfold send. steps. Qed.
Hint Resolve life_send : steps.
Lemma life_leg_done st : steps L (leg_done st).
Proof. unfold leg_done. steps. Qed.
Lemma life_measure v st p r : steps L (measure v st p r).
Proof. unfold measure. steps. Qed.
Lemma life_freeze m : steps L (freeze_timed_out m).
Proof. unfold freeze_timed_out. steps. Qed.
Hint Resolve life_leg_done life_measure life_freeze : steps.
Lemma life_verdict st : steps L (settle_verdict st).
Proof. unfold settle_verdict. steps. Qed.
Lemma life_on_verdict st t v : steps L (on_verdict st t v).
Proof. unfold on_verdict. steps. Qed.
Hint Resolve life_verdict life_on_verdict : steps.
Lemma life_check st : steps L (check_completion st).
Proof. unfold check_completion. steps. Qed.
Hint Resolve life_check : steps.
Lemma life_jog_target : steps L jog_target.
Proof. unfold jog_target. steps. Qed.
Lemma life_integrate c t m : steps L (integrate c t m).
Proof. unfold integrate. steps. Qed.
Lemma life_hold_with st an b : steps L (hold_with st an b).
Proof. unfold hold_with. steps. Qed.
Hint Resolve life_jog_target life_integrate life_hold_with : steps.
Lemma life_anchored c r : steps L (anchored_hold c r).
Proof. unfold anchored_hold, policy_hold, legacy_hold. steps. Qed.
Lemma life_ready arm : steps L (become_ready arm).
Proof. unfold become_ready. steps. Qed.
Lemma life_gap : steps L stream_gap.
Proof. unfold stream_gap. steps. Qed.
Lemma life_after_gap arm : steps L (hold_after_gap arm).
Proof. unfold hold_after_gap. steps. Qed.
Lemma life_cycle : steps L next_cycle.
Proof. unfold next_cycle. steps. Qed.
Lemma life_complete_first arm : steps L (complete_first arm).
Proof. unfold complete_first. steps. Qed.
Lemma life_first_sample r : steps L (first_sample r).
Proof. unfold first_sample. steps. Qed.
Lemma life_ramped q : steps L (ramped q).
Proof. unfold ramped. steps. Qed.
Hint Resolve life_anchored life_ready life_gap life_after_gap life_cycle life_complete_first life_first_sample life_ramped : steps.
Lemma life_leg arm c r : steps L (stream_leg arm c r).
Proof. unfold stream_leg. steps. Qed.
Lemma life_idle arm c : steps L (stream_idle arm c).
Proof. unfold stream_idle. steps. Qed.
Hint Resolve life_leg life_idle : steps.
Lemma life_stream : steps L stream.
Proof. unfold stream. steps. Qed.
Lemma life_observation p : steps L (observation_error p).
Proof. unfold observation_error. steps. Qed.
Hint Resolve life_stream life_observation : steps.
Lemma life_pause why p : steps L (pause_observation why p).
Proof. unfold pause_observation. steps. Qed.
Lemma life_release_error i : steps L (release_error i).
Proof. unfold release_error. steps. Qed.
Hint Resolve life_pause life_release_error : steps.
Lemma life_tick : steps L tick.
Proof. unfold tick. steps. Qed.
Lemma life_validate spec : steps L (validate_pose_hold spec).
Proof. unfold validate_pose_hold. steps. Qed.
Hint Resolve life_tick life_validate : steps.
Lemma life_change_gains p d : steps L (change_gains p d).
Proof. unfold change_gains. steps. Qed.
Lemma life_on_cancel f : steps L (on_cancel f).
Proof. unfold on_cancel. steps. Qed.
Lemma life_jog q : steps L (on_jog q).
Proof. unfold on_jog. steps. Qed.
Lemma life_clear_jog : steps L clear_jog.
Proof. unfold clear_jog. steps. Qed.
Lemma life_adopt h : steps L (adopt_rt_hold h).
Proof. unfold adopt_rt_hold. steps. Qed.
Lemma life_track arm : steps L (track_pose arm).
Proof. unfold track_pose. steps. Qed.
Lemma life_heartbeat : steps L heartbeat.
Proof. unfold heartbeat. steps. Qed.
Lemma life_admit p prev arm : steps L (admit_sample p prev arm).
Proof. unfold admit_sample. steps. Qed.
Lemma life_policy_refusal m : steps L (policy_refusal m).
Proof. unfold policy_refusal. steps. Qed.
Hint Resolve life_change_gains life_on_cancel life_jog life_clear_jog life_adopt life_track life_heartbeat life_admit life_policy_refusal : steps.
Lemma life_health h : steps L (on_motor_health h).
Proof. unfold on_motor_health. steps. Qed.
Lemma life_state flat : steps L (on_motor_state flat).
Proof. unfold on_motor_state. steps. Qed.
Lemma life_window i tr terminal : steps L (select_reference_window i tr terminal).
Proof. unfold select_reference_window. steps. Qed.
Hint Resolve life_health life_state life_window : steps.

Lemma life_set_pose_hold spec : steps L (set_pose_hold spec).
Proof.
  unfold set_pose_hold. apply steps_bind; [typeclasses eauto| |intros []; steps].
  apply steps_catch; [typeclasses eauto| |steps]. intros w.
  assert (steps quiet (v <~ validate_pose_hold spec ;; ret (inl (B:=string) v))) as Q
    by (apply steps_bind; [apply quiet_flow|apply quiet_validate|intros; apply steps_ret, quiet_flow]).
  destruct (Q w) as [Hc Ho]. set (w' := (bind _ _ w).2) in *. unfold core, mode in Hc.
  assert (running (obj w') = running (obj w) /\ plan (obj w') = plan (obj w) /\ stopped (obj w') = stopped (obj w))
    as (E1 & E2 & E3) by (split_and!; congruence).
  split; rewrite ?E1, ?E2, ?E3; auto. exists []. split_and!; [done|done|congruence].
Qed.

Lemma life_release i t : (forall m, plan_id m = i -> S m) -> steps L (release i t).
Proof.
  intros HS w. enough (lives (release i t) w) by done. unfold release.
  apply lives_bind; [apply lives_steps; steps|]. intros s w1 [= <- <-].
  destruct (plan (obj w)) as [m|] eqn:Hp; [|apply lives_steps; steps].
  destruct (bool_decide (plan_id m = i)) eqn:Hi; simpl; [|apply lives_steps; steps].
  destruct (negb (armed (obj w) && _)); [apply lives_steps; steps|].
  destruct (running (obj w)); [apply lives_steps; steps|].
  apply lives_bind; [apply lives_steps; steps|]. intros why w1 E1.
  apply (kept_eq plan) in E1; [|unfold release_error, observation_error, now; steps].
  destruct (negb _); [apply lives_steps; steps|].
  apply lives_bind; [apply lives_steps; steps|]. intros [] w2 [= <-].
  apply lives_bind; [apply lives_steps; steps|]. intros t0 w2 E2.
  apply (kept_eq plan) in E2; [|unfold exec_time; steps]. simpl in E2.
  apply lives_bind; [apply lives_steps; steps|]. intros s w3 [= <- <-].
  apply lives_bind; [apply lives_steps; steps|]. intros tr w3 E3.
  assert (w3 = w2) as -> by (unfold some_or in E3; destruct (pending_traj _); by injection E3).
  apply lives_bind; [apply lives_steps; steps|]. intros r w3 E4. injection E4 as _ <-.
  apply lives_bind; [|intros; apply lives_steps; steps]. breflect.
  split; simpl; [by left| |done|].
  - intros _. split; [done|]. right. exists m. split; [congruence|by apply HS].
  - exists []. split_and!; [done|done|congruence].
Qed.

Lemma life_hold : a = false -> steps L (upd (fun s => s <| frozen := true |> <| running := false |> <| reference := None |>)).
Proof.
  intros Ha w. split; simpl; [by left|done|done|]. exists []. split_and!; [done|done|congruence].
Qed.
Hint Resolve life_set_pose_hold : steps.

Lemma life_control f : a = negb (c_hold f) -> (forall m, c_execute f = Some (plan_id m) -> S m) -> steps L (on_control f).
Proof.
  intros Ha HS. unfold on_control. apply steps_bind; [apply life_flow|steps|]. intros _.
  apply steps_bind; [apply life_flow|steps|]. intros _.
  apply steps_bind; [apply life_flow| |].
  { destruct (c_execute f) as [i|]; [|steps]. apply life_release. intros m <-. by apply HS. }
  intros _. do 3 (apply steps_bind; [apply life_flow|steps|]; intros _).
  apply steps_bind; [apply life_flow| |steps].
  destruct (c_hold f); simpl; [|steps]. by apply life_hold.
Qed.

(** Inputs that neither load nor execute a plan. *)
Lemma life_other i :
  match i with Plan _ | Control _ | Release _ _ => True | _ => steps L (handle i) end.
Proof.
  destruct i; simpl; try done; unfold bind_reference_source, streamed_command_sent, set_stream_hold_deadline; steps.
Qed.
End Life.

(** ** Plans and inputs *)

Definition starts (i : input) (w : W) (m : plan_msg) : Prop :=
  match i with
  | Plan m' => m' = m /\ gated m = false
  | Control f => plan (obj w) = Some m /\ c_execute f = Some (plan_id m)
  | Release id _ => plan (obj w) = Some m /\ id = plan_id m
  | _ => False
  end.
Definition holds (i : input) : bool := match i with Control f => c_hold f | _ => false end.

(** What an input may do to the leg. *)
Record leg_step (i : input) (b : bool) (w w' : W) : Prop := {
  step_kept : running (obj w) = true -> running (obj w') = true -> plan (obj w') = plan (obj w);
  step_start : running (obj w) = false -> running (obj w') = true -> exists m, plan (obj w') = Some m /\ starts i w m;
  step_loaded m : plan (obj w') = Some m -> plan (obj w) = Some m \/ i = Plan m;
  step_final : stopped (obj w) = true -> stopped (obj w') = true;
  step_out : exists new, out w' = new ++ out w /\
    (stopped (obj w) = true -> Forall (fun x => stopped x.1 = true) new) /\
    (b = true -> holds i = false -> running (obj w) = true -> running (obj w') = false ->
       answered (current_plan_id (obj w)) new);
}.

Lemma life_leg_step i S b w w' :
  life S (negb (holds i)) b w w' -> (forall m, plan (obj w) = Some m -> S m -> starts i w m) -> leg_step i b w w'.
Proof.
  intros [P R F (n & O & Fn & A)] HS. split.
  - intros _ Hr. by apply R.
  - intros Hn Hr. destruct (R Hr) as [E [X|(m & Hm & Hs)]]; [congruence|]. exists m. split; [congruence|auto].
  - intros m Hm. left. destruct P; congruence.
  - done.
  - exists n. split_and!; [done|done|]. intros Hb Hh. by apply A; [rewrite Hh|].
Qed.

Lemma load_leg_step m w : running (obj w) = false -> stopped (obj w) = false -> leg_step (Plan m) (is_ok (load_plan m w).1) w (load_plan m w).2.
Proof.
  intros Hr Hs. enough (wp (load_plan m) (fun r w' => leg_step (Plan m) (is_ok r) w w') w) by done. unfold load_plan.
  assert (forall e : exn, leg_step (Plan m) (is_ok (Err (A:=unit) e)) w w) as Same.
  { intros e. split; [done|congruence|auto|done|]. exists []. split_and!; [done|done|congruence]. }
  apply wp_lift; [|intros; apply Same]. intros tr _. apply wp_get, wp_lift; [|intros; apply Same]. intros e _.
  apply wp_upd. set (w1 := w <| obj := _ |>).
  set (rest := bind _ _). assert (steps (life (fun m' => gated m = false /\ plan_id m' = plan_id m) true) rest) as K.
  { unfold rest. apply steps_bind; [apply life_flow|apply life_stage_ack|]. intros _.
    destruct (gated m); [apply steps_ret, life_flow|]. apply life_release. done. }
  specialize (K w1). destruct K as [P R F (n & O & Fn & A)]. unfold wp. split.
  - congruence.
  - intros _ Hr'. destruct (R Hr') as [E [X|(m' & Hm' & Hg & _)]]; [done|]. simpl in E, Hm'. exists m. done.
  - intros m' Hm'. right. simpl in P. destruct P; congruence.
  - congruence.
  - exists n. split_and!; [done|congruence|congruence].
Qed.

Lemma plan_leg_step m w : leg_step (Plan m) (is_ok (on_plan m w).1) w (on_plan m w).2.
Proof.
  assert (forall id why r w, leg_step (Plan m) (is_ok (refuse_plan id why r w).1) w (refuse_plan id why r w).2) as Refuse.
  { intros id why r w0. eapply (life_leg_step _ (fun _ => False)); [apply life_refuse|done]. }
  unfold on_plan. destruct (unpack_plan m) as [m'|e] eqn:Eu; [|apply Refuse].
  assert (m' = m) as -> by (unfold unpack_plan in Eu; inv_chain Eu; by injection Eu).
  enough (wp (s <~ get ;; (if is_some (pose_hold s) then _ else _)) (fun r w' => leg_step (Plan m) (is_ok r) w w') w) as H by exact H.
  apply wp_get. destruct (is_some _); [apply Refuse|]. destruct (stopped (obj w) || _) eqn:Es; [apply Refuse|].
  apply orb_false_iff in Es as [Es _]. destruct (running (obj w)) eqn:Hr; [apply Refuse|]. destruct (_ && _); [apply Refuse|].
  assert (forall w1, quiet true w w1 -> forall b w2, leg_step (Plan m) b w1 w2 -> leg_step (Plan m) b w w2) as Later.
  { intros w1 [Hc Ho] b w2 [K1 K2 K3 K4 (n & O & Fn & A)]. unfold core, mode in Hc.
    assert (running (obj w1) = running (obj w) /\ plan (obj w1) = plan (obj w) /\ stopped (obj w1) = stopped (obj w))
      as (E1 & E2 & E3) by (split_and!; congruence).
    rewrite E1, E2, E3, Ho in *. split; try done. exists n. split_and!; try done. congruence. }
  apply (wp_steps quiet); [apply quiet_policy_refusal| |].
  - intros [why|] w1 _ Q; [by eapply Later, Refuse|]. destruct (law_refusal _ _); [by eapply Later, Refuse|].
    eapply Later; [done|]. destruct Q as [Q _]. unfold core, mode in Q. apply load_leg_step; congruence.
  - intros e w1 Q. eapply (Later w1 Q). split; [done|congruence|auto|done|]. exists []. split_and!; [done|done|congruence].
Qed.

Lemma handle_leg_step i w : leg_step i (is_ok (handle i w).1) w (handle i w).2.
Proof.
  pose proof (life_other (fun _ => False) true i) as K.
  destruct i as [m|f| | | | | |id t| | | | |]; [apply plan_leg_step| | | | | | | | | | | |].
  1: { apply (life_leg_step _ (fun m => c_execute f = Some (plan_id m))); [by apply life_control|by intros]. }
  6: { apply (life_leg_step _ (fun m => plan_id m = id)); [by apply life_release|by intros]. }
  all: by apply (life_leg_step _ (fun _ => False)); [apply K|].
Qed.

(** C30: a leg's whole life, from any state and for any input.  A running plan is
    never swapped.  A plan starts to run only when it was sent ungated, or was
    already loaded and the input names its id; a plan is loaded only by being
    sent.  A running leg ends only with a result under its own id among the
    outputs of that input, unless the input was a milestone hold or the handler
    raised. *)
Theorem leg_lifecycle w i :
  let w' := react w i in
  (running (obj w) = true -> running (obj w') = true -> plan (obj w') = plan (obj w)) /\
  (running (obj w) = false -> running (obj w') = true -> exists m, plan (obj w') = Some m /\ starts i w m) /\
  (forall m, plan (obj w') = Some m -> plan (obj w) = Some m \/ i = Plan m) /\
  (running (obj w) = true -> running (obj w') = false -> holds i = false -> is_ok (handle i w).1 = true ->
     exists new, out w' = new ++ out w /\ answered (current_plan_id (obj w)) new).
Proof.
  intros w'. destruct (handle_leg_step i w) as [H1 H2 H3 H4 (n & O & _ & A)]. split_and!; try done.
  intros Hr Hn Hh Hb. exists n. split; [done|by apply A].
Qed.

(** C31: a stop is final: from a stopped reachable state no sequence of inputs,
    arming included, makes the controller send another motor command or start a
    leg. *)
Theorem stop_is_final w l :
  reachable w -> stopped (obj w) = true ->
  let w' := run_steps react w l in
  stopped (obj w') = true /\
  exists new, out w' = new ++ out w /\ Forall (fun x => match x.2 with MotorCommand _ _ _ _ => False | _ => True end) new.
Proof.
  intros Hw Hs. assert (stopped (obj (run_steps react w l)) = true /\ exists new, out (run_steps react w l) = new ++ out w /\
    Forall (fun x => stopped x.1 = true) new) as (H & new & Ho & Hn).
  { clear Hw. revert w Hs. induction l as [|i l IH]; intros w Hs; [split; [done|by exists []]|].
    destruct (handle_leg_step i w) as [_ _ _ H4 (n & O & F & _)].
    destruct (IH (react w i) (H4 Hs)) as (K1 & n' & K2 & K3). split; [done|]. exists (n' ++ n). simpl. unfold run_steps in *.
    split; [rewrite K2; unfold react; by rewrite O, app_assoc|]. apply Forall_app. auto. }
  split; [done|]. exists new. split; [done|].
  assert (reachable (run_steps react w l)) as Hw'.
  { destruct Hw as (s & l0 & Hb & ->). exists s, (l0 ++ l). by rewrite run_steps_app. }
  destruct (reachable_good _ Hw') as [_ Hg]. rewrite Ho in Hg. apply Forall_app in Hg as [Hg _].
  rewrite Forall_forall in *. intros [s e] Hin. specialize (Hn _ Hin). specialize (Hg _ Hin). simpl in *.
  destruct e; try done. destruct Hg as (_ & _ & _ & Hg & _). congruence.
Qed.
End Legs.
Import Demo.

Definition staged : world ctl effect := after (arming ++ [Plan leg]).
Definition go : input := Control (no_control <| c_execute := Some "p"%string |>).
Lemma staged_idle : running (obj staged) = false.
Proof. vm_compute. reflexivity. Qed.
Lemma staged_goes : running (obj (react staged go)) = true.
Proof. vm_compute. reflexivity. Qed.
Example leg_lifecycle_witness : exists m, plan (obj (react staged go)) = Some m /\ starts go staged m.
Proof.
  exact (proj1 (proj2 (leg_lifecycle staged go)) staged_idle staged_goes).
Defined.

Definition stopping : list input := executing ++ [Control (no_control <| c_stop := Some "operator"%string |>)].
Example stop_is_final_witness :
  stopped (obj (run_steps react (after stopping) [Control (no_control <| c_arm := Some true |>); Tick])) = true.
Proof.
  refine (proj1 (stop_is_final (after stopping) _ (after_reachable stopping) _)). vm_compute. reflexivity.
Defined.

(** A milestone hold leaves its plan loaded, and an execute naming it starts it
    again while the controller is frozen. *)
Example held_plan_can_be_executed :
  let w := after (arming ++ [Plan leg; Control (no_control <| c_hold := true |>);
                             Control (no_control <| c_execute := Some "p"%string |>)]) in
  frozen (obj w) = true /\ running (obj w) = true.
Proof. vm_compute. done. Qed.
