(* ===== verification/ControllerHolds.v ===== *)
(** Where the arm controller holds and how a leg must end: a disarm forgets
    everything, a cancelled leg is held at the measured pose, and a leg past its
    settling time is over at the next tick. *)
From Stdlib Require Import SpecFloat PrimFloat FloatOps.
From S2P Require Import Prelude Floats Motion Servo Policy Effects Executor Controller ControllerDemo ControllerFacts ControllerLegs.

Section Holds.
Context {cfg : Config} {env : Env}.

(** Disarming is a lifecycle event: from any armed state the message ends
    the running leg with a result, and afterwards nothing of the last arming is
    left (plan, reference, anchor, jog, control law, integral bias, readiness,
    the plant's acknowledgement), so that arming again is arming for the first
    time. *)
Theorem disarm_forgets w :
  armed (obj w) = true ->
  exists w', on_control (no_control <| c_arm := Some false |>) w = (Ok tt, w') /\ armed (obj w') = false /\ disarmed (obj w') /\
    stopped (obj w') = stopped (obj w) /\ head (map snd (out w')) = Some (ArmMessage false) /\
    (running (obj w) = true -> exists new, out w' = new ++ out w /\ answered (current_plan_id (obj w)) new).
Proof.
  intros Ha. destruct (disarm_returns w) as (w1 & E1 & Hd & Ha1 & Hs1).
  assert (exists w', on_control (no_control <| c_arm := Some false |>) w = (Ok tt, w') /\
    w' = w1 <| obj := (obj w1) <| armed := false |> |> <| out := ((obj w1) <| armed := false |>, ArmMessage false) :: out w1 |>) as (w' & E & ->).
  { eexists. split; [|reflexivity]. unfold on_control, set_arm. simpl. unfold bind at 1, bind at 1, get at 1.
    rewrite Ha. simpl. unfold bind at 1. rewrite E1. done. }
  eexists. split; [exact E|]. split; [done|]. split; [by destruct Hd|]. split; [done|]. split; [done|]. intros Hr.
  destruct (life_disarm (fun _ => False) true w) as [_ _ _ (n & O & _ & A)]. rewrite E1 in O, A. simpl in O, A.
  exists (((obj w1) <| armed := false |>, ArmMessage false) :: n). split; [simpl; by rewrite O|].
  destruct (A eq_refl eq_refl Hr (proj1 (proj2 (proj2 (proj2 (dis_leg _ Hd)))))) as (ok & why & c & Hin).
  exists ok, why, c. simpl. set_solver.
Qed.

(** ** Cancelling *)

(** Outputs whose motor commands all ask for one pose. *)
Definition at_pose (q : vec) (_ : bool) (w w' : W) : Prop :=
  last_state (obj w') = last_state (obj w) /\
  exists new, out w' = new ++ out w /\
    Forall (fun x => match x.2 with MotorCommand c _ _ _ => q_des c = q | _ => True end) new.
#[local] Instance at_pose_flow q : Flow (at_pose q).
Proof.
  split; unfold at_pose.
  - intros b w. split; [done|]. by exists [].
  - intros b w w' w'' [E1 (n1 & O1 & F1)] [E2 (n2 & O2 & F2)]. split; [congruence|]. exists (n2 ++ n1).
    split; [by rewrite O2, O1, app_assoc|by apply Forall_app].
  - done.
Qed.
Lemma at_pose_upd q f : (forall s, last_state (f s) = last_state s) -> steps (at_pose q) (upd f).
Proof. intros H w. split; [apply H|]. by exists []. Qed.
Lemma at_pose_say q e : match e with MotorCommand c _ _ _ => q_des c = q | _ => True end -> steps (at_pose q) (say e).
Proof. intros H w. split; [done|]. exists [(obj w, e)]. split; [done|by constructor]. Qed.
Lemma at_pose_ask q : steps (at_pose q) ask.
Proof. intros w. split; [done|]. by exists []. Qed.
Hint Resolve at_pose_ask : steps.
Hint Extern 1 (steps (at_pose _) (upd _)) => apply at_pose_upd; intros; reflexivity : steps.
Hint Extern 1 (steps (at_pose _) (say _)) => apply at_pose_say; exact I : steps.

Section Pose.
Context (q : vec).
Abbreviation P := (at_pose q).
Lemma pose_now : steps P now.
Proof. unfold now. steps. Qed.
Lemma pose_say_state f : (forall rt, match f rt with MotorCommand _ _ _ _ => False | _ => True end) -> steps P (say_state f).
Proof.
  intros H. unfold say_state. steps. apply at_pose_say. specialize (H a0). by destruct (f a0).
Qed.
Hint Resolve pose_now : steps.
Hint Extern 1 (steps (at_pose _) (say_state _)) => apply pose_say_state; intros; exact I : steps.
Lemma pose_finish ok why c : steps P (finish_leg ok why c).
Proof. unfold finish_leg. steps. Qed.
Lemma pose_report ok why h : steps P (report_mode ok why h).
Proof. unfold report_mode. steps. Qed.
Hint Resolve pose_finish pose_report : steps.
Lemma pose_cancel why : steps P (cancel why).
Proof. unfold cancel, reset_integral. steps. Qed.
Lemma pose_disarm : steps P disarm_reset.
Proof. unfold disarm_reset, reset_integral. steps. Qed.
Hint Resolve pose_cancel pose_disarm : steps.
Lemma pose_set_arm b : steps P (set_arm b).
Proof. unfold set_arm, rest_pose. steps. Qed.
Hint Resolve pose_set_arm : steps.
Lemma pose_fault why : steps P (fault why).
Proof. unfold fault, stop. steps. Qed.
Hint Resolve pose_fault : steps.
Lemma pose_transmit c b : q_des c = q -> steps P (transmit c b).
Proof. intros H. unfold transmit. steps. by apply at_pose_say. Qed.
Lemma pose_pause why p : steps P (pause_observation why p).
Proof. unfold pause_observation. steps. Qed.
Lemma pose_observation p : steps P (observation_error p).
Proof. unfold observation_error. steps. Qed.
Lemma pose_ready arm : steps P (become_ready arm).
Proof. unfold become_ready. steps. Qed.
Lemma pose_gap : steps P stream_gap.
Proof. unfold stream_gap. steps. Qed.
Lemma pose_cycle : steps P next_cycle.
Proof. unfold next_cycle. steps. Qed.
Lemma pose_integrate c t m : steps P (integrate c t m).
Proof. unfold integrate. steps. Qed.
Hint Resolve pose_fault pose_pause pose_observation pose_ready pose_gap pose_cycle pose_integrate : steps.

Hint Extern 1 (steps (at_pose _) (transmit _ _)) => apply pose_transmit; assumption : steps.

Abbreviation posed := (flows P).
Abbreviation posed_bind := (flows_bind P).
Abbreviation posed_steps := (flows_steps P).
Definition rests (w : W) : Prop := js_position (last_state (obj w)) = q.

Lemma pose_rests b w w' : P b w w' -> rests w -> rests w'.
Proof. unfold rests. intros [-> _]. done. Qed.

(** A hold of the measured pose asks for it. *)
Lemma hold_asks e st anchor bias h : hold_command e st anchor bias = Ok h -> q_des h = default (js_position st) anchor.
Proof. unfold hold_command. intros H. by inv_ok H. Qed.
Lemma static_hold_pose w h w' : rests w -> static_hold w = (Ok h, w') -> q_des h = q.
Proof.
  unfold rests, static_hold, hold_at, bind, get, lift. simpl. intros <- [= E _]. by apply hold_asks in E.
Qed.
Lemma hold_with_pose st bias w h w' : hold_with st (Some q) bias w = (Ok h, w') -> q_des h = q.
Proof.
  unfold hold_with, bind, get, lift. simpl. intros [= E _]. by apply hold_asks in E.
Qed.

Lemma abort_pose p w c b w' : rests w -> abort_to_hold p w = (Ok (Some (c, b)), w') -> q_des c = q.
Proof.
  intros Hq. unfold abort_to_hold. intros H.
  apply bind_ok in H as ([] & w1 & E1 & H). pose proof (pose_cancel "tracking error exceeded - holding measured pose" w) as K.
  rewrite E1 in K. pose proof (pose_rests _ _ _ K Hq) as H1.
  apply bind_ok in H as ([] & w2 & E2 & H). injection E2 as <-.
  apply bind_ok in H as (h & w3 & E3 & H). apply static_hold_pose in E3; [|exact H1].
  apply bind_ok in H as ([] & w4 & _ & H). apply bind_ok in H as (s & w5 & _ & H). apply bind_ok in H as (ok & w6 & _ & H).
  destruct ok; simpl in H; [|apply bind_ok in H as ([] & w7 & _ & H); discriminate]. by injection H as <- _ _.
Qed.

Lemma pose_abort p : steps P (abort_to_hold p).
Proof. unfold abort_to_hold, static_hold, hold_at. steps. Qed.
Hint Resolve pose_abort : steps.
Lemma pose_vet p c : steps P (vet p c).
Proof. unfold vet. steps. Qed.

Lemma vet_pose p c w c' b w' : rests w -> q_des c = q -> vet p c w = (Ok (Some (c', b)), w') -> q_des c' = q.
Proof.
  intros Hq Hc. unfold vet. intros H. apply bind_ok in H as (s & w1 & E1 & H). injection E1 as <- <-.
  apply bind_ok in H as ([] & w1 & E1 & H).
  assert (rests w1) as H1.
  { assert (steps (kept (O:=effect) last_state) (when (armed (obj w) && is_some (arm_pose (obj w))) (upd (fun s => s <| arm_pose_fixed := true |>)))) as K
      by steps.
    unfold rests. by rewrite (kept_eq _ _ _ _ _ K E1). }
  apply bind_ok in H as (s & w2 & E2 & H). injection E2 as <- <-.
  apply bind_ok in H as (ok & w3 & E3 & H). injection E3 as _ <-.
  destruct ok; simpl in H; [|apply bind_ok in H as ([] & w7 & _ & H); discriminate].
  apply bind_ok in H as (trips & w4 & E4 & H). injection E4 as _ <-.
  destruct trips; [by eapply abort_pose|]. by injection H as <- _ _.
Qed.

(** Sent from the pose, a hold of the pose, or what replaces it, asks for it. *)
Lemma posed_send c b w : rests w -> q_des c = q -> posed (send c b) w.
Proof.
  intros Hq Hc. unfold send. destruct (policy cfg) as [p|].
  - apply posed_bind; [apply posed_steps, pose_vet|]. intros [[c' own]|] w1 E1; [|apply posed_steps; steps].
    apply (vet_pose _ _ _ _ _ _ Hq Hc) in E1. apply posed_steps. by steps.
  - apply posed_steps. by steps.
Qed.

(** No leg, no jog and no anchor. *)
Definition resting (s : ctl) :=
  (reference s, running s, hold_anchor s, (JogHold.q (jog s), JogHold.expired (jog s)), js_position (last_state s)).
Definition at_rest (w : W) : Prop := resting (obj w) = (None, false, None, (None, false), q).
Lemma at_rest_kept {A} (m : ControlM A) w r w' : steps (kept resting) m -> m w = (r, w') -> at_rest w -> at_rest w'.
Proof. unfold at_rest. intros H E <-. by eapply kept_eq. Qed.

Lemma pose_policy_hold p cycle : steps P (policy_hold p cycle).
Proof. unfold policy_hold, hold_with, static_hold, hold_at. steps. Qed.

Lemma policy_hold_pose p cycle w c w' : at_rest w -> policy_hold p cycle w = (Ok c, w') -> q_des c = q /\ rests w'.
Proof.
  intros [= Hr Hrun Ha Hj He Hq] H. split.
  2:{ pose proof (pose_policy_hold p cycle w) as K. rewrite H in K. by eapply pose_rests. }
  unfold policy_hold in H. apply bind_ok in H as (s & w1 & E1 & H). injection E1 as <- <-.
  apply bind_ok in H as (tol & w1 & E1 & H). injection E1 as _ <-. rewrite Ha in H.
  apply bind_ok in H as (r & w1 & E1 & H). injection E1 as <- <-.
  apply bind_ok in H as (a & w1 & E1 & H). apply bind_ok in E1 as (h & w2 & E2 & E3).
  apply static_hold_pose in E2; [|done]. apply bind_ok in E3 as ([] & w3 & _ & E3). injection E3 as <- _.
  apply bind_ok in H as (bias & w4 & _ & H). rewrite E2 in H. by eapply hold_with_pose.
Qed.

Lemma pose_jog_target : steps P jog_target.
Proof. unfold jog_target, static_hold, hold_at. steps. Qed.
Lemma jog_target_rest w je w' : at_rest w -> jog_target w = (Ok je, w') -> je = (None, false) /\ at_rest w'.
Proof.
  intros [= Hr Hrun Ha Hj He Hq] H. unfold jog_target in H.
  apply bind_ok in H as (t & w1 & E1 & H). injection E1 as _ <-.
  apply bind_ok in H as (s & w2 & E2 & H). injection E2 as <- <-. simpl in H.
  unfold JogHold.target, JogHold.take_expired in H. rewrite Hj in H. simpl in H. rewrite He in H. simpl in H.
  injection H as <- <-. split; [done|]. unfold at_rest, resting. simpl. by rewrite Hr, Hrun, Ha, Hj, Hq.
Qed.
Lemma kept_ramped {A} (f : ctl -> A) v : (forall s r, f (s <| jog_ramp := r |>) = f s) -> steps (kept f) (ramped v).
Proof. intros H. unfold ramped. steps; intros w; apply H. Qed.
Lemma ramped_none w r w' : ramped None w = (Ok r, w') -> r = None.
Proof.
  unfold ramped. intros H. apply bind_ok in H as (s & w1 & _ & H).
  destruct (jog_ramp s), (policy cfg); try (apply bind_ok in H as ([] & w2 & _ & H)); by injection H.
Qed.

Lemma posed_idle p arm cycle w : policy cfg = Some p -> at_rest w -> posed (stream_idle arm cycle) w.
Proof.
  intros Hp H0. unfold stream_idle.
  apply posed_bind; [apply posed_steps, pose_jog_target|]. intros je w1 E1. apply jog_target_rest in E1 as [-> H1]; [|done].
  assert (steps P (ramped None)) as K. { unfold ramped. steps. }
  apply posed_bind; [apply posed_steps, K|]. intros j w2 E2. pose proof (ramped_none _ _ _ E2) as ->.
  assert (at_rest w2) as H2 by (by eapply at_rest_kept; [apply kept_ramped|..]).
  unfold anchored_hold. rewrite Hp. simpl.
  apply posed_bind; [apply posed_steps, pose_policy_hold|]. intros c w3 E3. apply policy_hold_pose in E3 as [Hc H3]; [|done].
  apply posed_bind; [by apply posed_send|]. intros own w4 _. apply posed_steps. steps.
Qed.

Lemma posed_stream p w : policy cfg = Some p -> at_rest w -> posed stream w.
Proof.
  intros Hp H0. unfold stream. apply posed_bind; [apply posed_steps; steps|]. intros s w1 [= <- <-].
  apply posed_bind; [apply posed_steps; steps|]. intros go w1 E1.
  eapply at_rest_kept in E1; [|unfold become_ready; steps|done].
  destruct (_ || _); [apply posed_steps; steps|].
  apply posed_bind; [apply posed_steps; steps|]. intros gap w2 E2.
  assert (gap = false /\ at_rest w2) as [-> H2].
  { pose proof E1 as [= Hr Hrun _ _ _ _]. split; [|by eapply at_rest_kept in E2; [|unfold stream_gap; steps|done]].
    unfold stream_gap in E2. apply bind_ok in E2 as (s & w3 & E3 & E2). injection E3 as <- <-. rewrite Hrun in E2. simpl in E2.
    destruct (stream_gap_limit_s (obj w1)), (stream_sent_at (obj w1)); by injection E2 as <- _. }
  apply posed_bind; [apply posed_steps; steps|]. intros cycle w3 E3.
  eapply at_rest_kept in E3; [|unfold next_cycle; steps|done].
  pose proof E3 as [= Hr Hrun _ _ _ _].
  assert (complete_first (last_state (obj w)) w3 = (Ok tt, w3)) as E4
    by (unfold complete_first, bind, get; by rewrite Hp, Hr).
  apply posed_bind; [unfold flows; rewrite E4; apply (flow_refl true)|]. intros [] w4 E5. rewrite E4 in E5. injection E5 as <-.
  apply posed_bind; [apply posed_steps; steps|]. intros s w5 [= <- <-]. rewrite Hr. by eapply posed_idle.
Qed.

Lemma posed_tick p w : policy cfg = Some p -> at_rest w -> posed tick w.
Proof.
  intros Hp H0. unfold tick. apply posed_bind; [apply posed_steps; steps|]. intros s w1 [= <- <-]. rewrite Hp.
  destruct (stopped (obj w)); [apply posed_steps; steps|].
  apply posed_bind; [apply posed_steps; steps|]. intros why w2 E2.
  eapply at_rest_kept in E2; [|unfold observation_error; steps|done].
  destruct why; [apply posed_steps; steps|].
  apply posed_bind; [apply posed_steps; steps|]. intros [] w3 E3.
  eapply at_rest_kept in E3; [|steps|done]. by eapply posed_stream.
Qed.
End Pose.

(** A cancel of a running leg leaves no anchor. *)
Lemma cancel_rests why w w' : running (obj w) = true -> cancel why w = (Ok tt, w') ->
  resting (obj w') = (None, false, None, (None, false), js_position (last_state (obj w))).
Proof.
  intros Hr H. pose proof (cancel_ends _ _ _ H) as [(_ & _ & Hre & Hru) _ Hj].
  pose proof (pose_cancel [] why w) as [Hl _]. rewrite H in Hl. simpl in Hl.
  unfold cancel in H. apply bind_ok in H as (s & w1 & E & H). injection E as <- <-.
  apply bind_ok in H as (keep & w1 & E1 & H).
  assert (keep = false) as ->.
  { injection E1 as E1 _. unfold keeps_anchor in E1. rewrite Hr in E1. simpl in E1.
    rewrite !andb_false_r in E1. simpl in E1. destruct (last_command _); by injection E1 as <-. }
  apply bind_ok in H as ([] & w2 & _ & H). apply bind_ok in H as ([] & w3 & _ & H).
  apply bind_ok in H as ([] & w4 & _ & H). apply bind_ok in H as ([] & w5 & E5 & E6). injection E5 as <-.
  injection E6 as <-. simpl in *. unfold resting. simpl. by rewrite Hl.
Qed.

(** After a cancel that ends a running leg, the next policy tick holds the
    measured pose: every command it sends asks for the position of the last
    motor state, also where the tracking guard replaces a command, and whether
    the tick returns or raises. *)
Theorem cancel_holds_measured p why w w1 :
  policy cfg = Some p -> running (obj w) = true -> cancel why w = (Ok tt, w1) ->
  exists new, out (tick w1).2 = new ++ out w1 /\
    forall s c spec pose words, (s, MotorCommand c spec pose words) ∈ new -> q_des c = js_position (last_state (obj w1)).
Proof.
  intros Hp Hr H. pose proof (cancel_rests _ _ _ Hr H) as Hrest.
  assert (js_position (last_state (obj w)) = js_position (last_state (obj w1))) as Hq by (by injection Hrest).
  rewrite Hq in Hrest. destruct (posed_tick _ p w1 Hp Hrest) as [_ (new & O & F)].
  exists new. split; [exact O|]. intros s c spec pose words Hin. rewrite Forall_forall in F. exact (F _ Hin).
Qed.

(** ** Settling *)

(** What the completion check reads stays, and the clocks only go on. *)
Definition leg_of (s : ctl) := (settling s, reference s, running s, plan s, last_state s).
Definition still (_ : bool) (w w' : W) : Prop := leg_of (obj w') = leg_of (obj w) /\ asked w <= asked w'.
#[local] Instance still_flow : Flow still.
Proof. split; unfold still; [done| |done]. intros b w w1 w2 [E1 L1] [E2 L2]. split; [congruence|lia]. Qed.
Lemma still_upd f : (forall s, leg_of (f s) = leg_of s) -> steps still (upd f).
Proof. intros H w. split; [apply H|done]. Qed.
Lemma still_say e : steps still (say e).
Proof. intros w. by split. Qed.
Lemma still_ask : steps still ask.
Proof. intros w. split; [done|simpl; lia]. Qed.
Hint Resolve still_say still_ask : steps.
Hint Extern 1 (steps still (upd _)) => apply still_upd; intros; reflexivity : steps.
Lemma still_now : steps still now.
Proof. unfold now. steps. Qed.
Hint Resolve still_now : steps.
Lemma still_ready arm : steps still (become_ready arm).
Proof. unfold become_ready, say_state. steps. Qed.
Lemma still_gap : steps still stream_gap.
Proof. unfold stream_gap. steps. Qed.
Lemma still_cycle : steps still next_cycle.
Proof. unfold next_cycle. steps. Qed.
Lemma still_observation p : steps still (observation_error p).
Proof. unfold observation_error. steps. Qed.

#[local] Existing Instance life_flow.
Hint Resolve life_leg life_idle life_hold_at life_send : steps.
Hint Extern 1 (steps (life _ _) (upd _)) => apply life_same_upd; intros; split_and!; reflexivity : steps.
(** Whatever is not a release leaves a leg that is over, over. *)
Lemma over {A} (m : ControlM A) w r w' : steps (life (fun _ => False) true) m -> m w = (r, w') ->
  running (obj w) = false -> running (obj w') = false.
Proof.
  intros H E Hr. specialize (H w). rewrite E in H. destruct (running (obj w')) eqn:Hr'; [|done].
  destruct (life_run _ _ _ _ _ H Hr') as [_ [K|(m' & _ & [])]]. congruence.
Qed.

(** The leg of [w] is local, judged at its end, past its timeout on every later clock reading. *)
Record overdue (e : float) (w : W) : Prop := {
  od_end : LegSettling.leg_end (settling (obj w)) = Some e;
  od_run : running (obj w) = true;
  od_local : exists r, reference (obj w) = Some r /\ Reference.native r = false /\ Reference.terminal r = true;
  od_late : forall k, asked w <= k ->
    reference_clock env k <f e = false /\
    LegSettling.timeout_s (settling (obj w)) <=f py_max f0 (reference_clock env k -f e) = true;
}.
Lemma overdue_still {A} (m : ControlM A) e w r w' : steps still m -> m w = (r, w') -> overdue e w -> overdue e w'.
Proof.
  intros H E [H1 H2 H3 H4]. specialize (H w). rewrite E in H. destruct H as [[= E1 E2 E3 E4 E5] L].
  split; rewrite ?E1, ?E2, ?E3; try done. intros k Hk. apply H4. simpl in L. lia.
Qed.

Lemma overdue_verdict e st w t v w' : state_period cfg = None -> overdue e w -> settle_verdict st w = (Ok (t, v), w') ->
  exists x, v = Some x /\ LegSettling.finished x = true.
Proof.
  intros Hc [H1 H2 (r & Hr & Hn & _) H4] H. unfold settle_verdict in H.
  apply bind_ok in H as (t0 & w1 & E1 & H). unfold exec_time in E1. rewrite Hc in E1. injection E1 as <- <-.
  specialize (H4 (asked w) (le_n _)) as [Hn1 Hn2].
  apply bind_ok in H as (s & w2 & E2 & H). injection E2 as <- <-.
  apply bind_ok in H as ([] & w2 & E2 & H).
  apply bind_ok in H as (ended & w3 & E3 & H). apply bind_ok in H as (dn & w4 & E4 & H). simpl in H.
  match type of H with context [LegSettling.poll _ ?a] => set (arg := a) in H end.
  unfold LegSettling.poll in H. simpl in H. rewrite H1 in H.
  destruct (LegSettling.judge_finishes (settling (obj w)) e arg Hn1 Hn2) as (x & Hx & Hf & _).
  destruct (LegSettling.judge _ _ _) as [se ve] eqn:Ej. simpl in Hx. subst ve.
  apply bind_ok in H as ([] & w5 & _ & H). injection H as _ <- _. by exists x.
Qed.

Lemma finished_ends st t x w b w' : LegSettling.finished x = true -> on_verdict st t x w = (Ok b, w') -> running (obj w') = false.
Proof.
  intros Hf H. unfold on_verdict in H. apply bind_ok in H as (s & w1 & E & H). injection E as <- <-.
  unfold LegSettling.finished in Hf. destruct (LegSettling.state x); [done| |].
  - apply bind_ok in H as (m & w1 & _ & H). apply bind_ok in H as ([] & w2 & _ & H). apply bind_ok in H as ([] & w3 & E & H).
    injection H as _ <-. by eapply finish_ends.
  - apply bind_ok in H as (m & w1 & _ & H). apply bind_ok in H as (r & w2 & _ & H). apply bind_ok in H as (pr & w3 & _ & H).
    apply bind_ok in H as ([] & w4 & E & H). injection H as _ <-. unfold freeze_timed_out in E.
    apply bind_ok in E as ([] & w5 & _ & E). apply bind_ok in E as (h & w6 & _ & E). apply bind_ok in E as ([] & w7 & _ & E).
    by eapply finish_ends.
Qed.

Lemma overdue_check e st w b w' : state_period cfg = None -> overdue e w -> check_completion st w = (Ok b, w') ->
  running (obj w') = false.
Proof.
  intros Hc Ho H. pose proof Ho as [_ _ (r & Hr & _ & Ht) _].
  unfold check_completion in H. apply bind_ok in H as (s & w1 & E & H). injection E as <- <-. rewrite Hr, Ht in H. simpl in H.
  apply bind_ok in H as ([t v] & w1 & E & H). destruct (overdue_verdict _ _ _ _ _ _ Hc Ho E) as (x & -> & Hf).
  simpl in H. by eapply finished_ends.
Qed.

Lemma overdue_first p e arm w w' : policy cfg = Some p -> state_period cfg = None -> overdue e w ->
  complete_first arm w = (Ok tt, w') -> running (obj w') = false.
Proof.
  intros Hp Hc Ho H. pose proof Ho as [_ Hr (r & Hre & _) _]. unfold complete_first in H.
  apply bind_ok in H as (s & w1 & E & H). injection E as <- <-. rewrite Hp, Hre, Hr in H. simpl in H.
  apply bind_ok in H as (m & w1 & E & H).
  assert (overdue e w1) as H1 by (eapply overdue_still; [|exact E|done]; unfold loaded; steps).
  apply bind_ok in H as (goal & w2 & E2 & H).
  assert (overdue e w2) as H2 by (eapply overdue_still; [|exact E2|done]; steps).
  apply bind_ok in H as (b & w3 & E3 & H). eapply overdue_check in E3; [|done..].
  eapply over; [|exact H|exact E3]. steps.
Qed.

Lemma overdue_stream p e w w' : policy cfg = Some p -> state_period cfg = None -> overdue e w ->
  armed (obj w) = true -> ready_sent (obj w) = true -> finite_state (last_state (obj w)) = true ->
  stream w = (Ok tt, w') -> running (obj w') = false.
Proof.
  intros Hp Hc Ho Ha Hrs Hf H. unfold stream in H. apply bind_ok in H as (s & w1 & E & H). injection E as <- <-.
  apply bind_ok in H as (go & w1 & E & H). unfold become_ready in E. apply bind_ok in E as (s & w2 & E1 & E).
  injection E1 as <- <-. rewrite Ha, Hrs in E. injection E as <- <-. rewrite Hf in H. simpl in H.
  apply bind_ok in H as (gap & w1 & E & H).
  assert (overdue e w1) as H1 by (eapply overdue_still; [apply still_gap|exact E|done]).
  destruct gap.
  - unfold hold_after_gap in H. apply bind_ok in H as (s & w2 & E2 & H). injection E2 as <- <-.
    apply bind_ok in H as (tgt & w2 & E2 & H). apply bind_ok in H as ([] & w3 & E3 & H).
    apply cancel_ends in E3 as [(_ & _ & _ & E3) _ _].
    eapply over; [|exact H|exact E3]. steps.
  - apply bind_ok in H as (cycle & w2 & E2 & H).
    assert (overdue e w2) as H2 by (eapply overdue_still; [apply still_cycle|exact E2|done]).
    apply bind_ok in H as ([] & w3 & E3 & H). eapply overdue_first in E3; [|done..].
    eapply over; [|exact H|exact E3]. steps.
Qed.

(** C32: a leg cannot outlive its settling time.  Let a local leg run to its end
    [e] and every later clock reading lie past [e] by the settling timeout or more.
    Then the next policy tick that returns ends the leg, whatever the samples
    say and whether the observation is fresh or stale, and reports a result
    under its plan id: settled, timed out, or cancelled. *)
Theorem leg_ends_after_timeout p e w w' :
  reachable w -> policy cfg = Some p -> state_period cfg = None -> stopped (obj w) = false ->
  finite_state (last_state (obj w)) = true -> overdue e w ->
  tick w = (Ok tt, w') ->
  running (obj w') = false /\ exists new, out w' = new ++ out w /\ answered (current_plan_id (obj w)) new.
Proof.
  intros Hw Hp Hc Hs Hf Ho H. pose proof Ho as [_ Hr _ _].
  destruct (inv_running _ (proj1 (reachable_good _ Hw)) Hr) as (Ha & Hrs & _).
  assert (running (obj w') = false) as Hend.
  { unfold tick in H. apply bind_ok in H as (s & w1 & E & H). injection E as <- <-. rewrite Hp, Hs in H.
    apply bind_ok in H as (why & w1 & E & H). pose proof (still_observation p w) as K. rewrite E in K.
    assert (overdue e w1) as H1 by (eapply overdue_still; [apply still_observation|exact E|done]).
    destruct why as [why|].
    - unfold pause_observation in H. apply bind_ok in H as (s & w2 & E2 & H). injection E2 as <- <-.
      apply bind_ok in H as ([] & w2 & E2 & H). rewrite (od_run _ _ H1), !orb_true_r in E2. simpl in E2.
      apply cancel_ends in E2 as [(_ & _ & _ & E2) _ _]. by injection H as <-.
    - apply bind_ok in H as ([] & w2 & E2 & H). injection E2 as <-.
      assert (mode (obj w1) = mode (obj w)) as M1.
      { eapply (kept_eq mode); [|exact E]. unfold observation_error, now. steps. }
      simpl in K. destruct K as [[= K1 K2 K3 K4 K5] _]. injection M1 as M1 M2 M3 M4.
      eapply overdue_stream; [exact Hp|exact Hc| | | | |exact H]; simpl; [|by rewrite M1|by rewrite M2|by rewrite K5].
      destruct H1 as [O1 O2 O3 O4]. by split. }
  split; [done|]. pose proof (life_other (fun _ => False) true Tick w) as K. simpl in K. rewrite H in K.
  destruct K as [_ _ _ (new & O & _ & A)]. exists new. auto.
Qed.
End Holds.
Import Demo.

Definition armed_demo : world ctl effect := after arming.
Lemma armed_demo_armed : armed (obj armed_demo) = true.
Proof. vm_compute. reflexivity. Qed.
Example disarm_forgets_witness :
  exists w', on_control (no_control <| c_arm := Some false |>) armed_demo = (Ok tt, w') /\ disarmed (obj w').
Proof.
  destruct (disarm_forgets armed_demo armed_demo_armed) as (w' & H1 & _ & H2 & _).
  exact (ex_intro _ w' (conj H1 H2)).
Defined.

Definition executing_demo : world ctl effect := after executing.
Definition cancelled_demo : world ctl effect := (cancel "operator" executing_demo).2.
Lemma executing_runs : running (obj executing_demo) = true.
Proof. vm_compute. reflexivity. Qed.
Lemma cancel_returns : cancel "operator" executing_demo = (Ok tt, cancelled_demo).
Proof. vm_compute. reflexivity. Qed.
Example cancel_holds_measured_witness :
  exists new, out (tick cancelled_demo).2 = new ++ out cancelled_demo /\
    forall s c spec pose words, (s, MotorCommand c spec pose words) ∈ new ->
      q_des c = js_position (last_state (obj cancelled_demo)).
Proof.
  exact (cancel_holds_measured policy0 "operator" executing_demo cancelled_demo eq_refl executing_runs cancel_returns).
Defined.
Example cancelled_demo_holds : map (fun x => Demo.tag x.2) (take 1 (out (tick cancelled_demo).2)) = ["hold"%string].
Proof. vm_compute. reflexivity. Qed.

Definition late_from : nat := Eval vm_compute in asked executing_demo.
(** The reference clock of the demo, but a reader late in the run sees twelve seconds. *)
Definition late : Env := {|
  clock := clock env; reference_clock := fun k => if k <? late_from then reference_clock env k else f12;
  sample_source := sample_source env; product_t := product_t env; norm := norm env; arccos := arccos env |}.
Definition late_demo : world ctl effect := run_steps (react (env:=late)) (start initial) executing.
Definition late_end : float := Eval vm_compute in default f0 (LegSettling.leg_end (settling (obj late_demo))).
Lemma late_reachable : reachable (env:=late) late_demo.
Proof. exists initial, executing. split; [apply initial_built|done]. Qed.
Lemma late_overdue : overdue (env:=late) late_end late_demo.
Proof.
  assert (asked late_demo = late_from) as Ha by (vm_compute; reflexivity).
  split.
  - vm_compute. reflexivity.
  - vm_compute. reflexivity.
  - eexists. split; [|split]; vm_compute; reflexivity.
  - intros k Hk. rewrite Ha in Hk. assert (reference_clock late k = f12) as ->.
    { unfold late, reference_clock. destruct (Nat.ltb_spec k late_from) as [H|]; [lia|reflexivity]. }
    split; vm_compute; reflexivity.
Qed.
Lemma late_facts : stopped (obj late_demo) = false /\ finite_state (last_state (obj late_demo)) = true /\
  is_ok (tick (env:=late) late_demo).1 = true.
Proof. vm_compute. done. Qed.
Lemma late_ticks : tick (env:=late) late_demo = (Ok tt, (tick (env:=late) late_demo).2).
Proof. vm_compute. reflexivity. Qed.
Example leg_ends_after_timeout_witness :
  running (obj late_demo) = true /\ running (obj (tick (env:=late) late_demo).2) = false.
Proof.
  exact (conj (od_run _ _ late_overdue)
    (proj1 (leg_ends_after_timeout (env:=late) policy0 late_end late_demo _ late_reachable eq_refl eq_refl
      (proj1 late_facts) (proj1 (proj2 late_facts)) late_overdue late_ticks))).
Defined.
Example late_tick_times_out : map (fun x => Demo.tag x.2) (take 2 (out (tick (env:=late) late_demo).2)) = ["hold"; "Completion timeout"]%string.
Proof. vm_compute. reflexivity. Qed.
