(* ===== verification/Clients.v ===== *)
(** What the clients of the SDK share ([clients/common.py]): the declared meaning
    of a policy's numbers, the report of a run, and the stream session that
    splices a suffix from the supervisor's anchor.

    The robot behind the SDK (the [arm] object) is an environment: each answer
    is indexed by the questions asked so far.  The numbers drawn from the three
    counters of the module ([itertools.count]) are part of the object a client
    works on, the class [Client]. *)
From Stdlib Require Import SpecFloat PrimFloat FloatOps.
From stdpp Require Import pretty.
From S2P Require Import Prelude Floats Motion Contract Stream Effects.

(** ** The robot *)

Class Arm := {
  controller_extension : bool;
  arm_now : nat -> result Stamp;
  arm_state : nat -> result vec;
  arm_authority : nat -> result Authority;
  arm_controller_state : nat -> result string;
  arm_open_stream : nat -> result StreamView;
  arm_stream_state : nat -> result StreamView;
  arm_stream_anchor : nat -> result SpliceAnchor;
  arm_revise_stream : nat -> result RevisionStatus;
  arm_stream_revision : nat -> result RevisionStatus;
  arm_cancel : nat -> result unit;
  local_clock : nat -> float;
}.

(** What a client asks the robot to do *)
Inductive said :=
  | Opens (o : StreamOpen)
  | Revises (r : StreamRevision)
  | Cancels (execution_id reason : string).

(** [except (SupervisorError, TimeoutError, OSError)] *)
Definition infrastructure (e : exn) : bool := is_SupervisorError e || is_OSError e.
(** [str(exc)] of the exceptions whose text a report keeps *)
Definition exn_text (e : exn) : string :=
  match e with
  | ValueError m | IllegalTransition m | Refused m | SupervisorError m | TimeoutError m => m
  | _ => ""
  end.

Definition MAX_KNOTS : nat := 127.

(** ** Context and specification *)

Record StreamContext := {
  instance_id : string; joints : list string; model_token : string; scene_token : string; policy_id : string }.

Record ActionSpec := {
  as_joints : list string;
  composition : string;
  units : string;
  horizon_s : option float;
  control_profile : option string;
  offset : option vec;
  scale : option vec;
}.

Definition ActionSpec_new (s : ActionSpec) : result ActionSpec :=
  raise_if bool_decide (as_joints s = []) of ValueError "an action spec names its joints" ;;
  raise_if negb (String.eqb (composition s) "absolute" || String.eqb (composition s) "delta") of ValueError "unknown composition" ;;
  raise_if negb (String.eqb (units s) "rad" || String.eqb (units s) "normalized") of ValueError "unknown units" ;;
  raise_if match horizon_s s with Some h => negb (h >f f0) | None => false end of ValueError "horizon_s must be positive" ;;
  if String.eqb (units s) "rad" then
    raise_if is_some (offset s) || is_some (scale s) of ValueError "a rad spec has no normalization map" ;; Ok s
  else
    match offset s, scale s with
    | Some o, Some c =>
        raise_if negb (length o =? length (as_joints s)) || negb (length c =? length (as_joints s)) || negb (all_finite o && all_finite c)
          of ValueError "offset and scale must be finite, one entry per joint" ;;
        raise_if negb (forallb (fun x => x >f f0) c) of ValueError "scale must be positive for every joint" ;;
        Ok s
    | _, _ => Err (ValueError "normalized actions need both offset and scale, one entry per joint: nothing is assumed")
    end.

(** [np.asarray(values, dtype=float)] as a 2-D array of [n] columns; an empty list is 1-D. *)
Definition as_rows (n : nat) (values : mat) (why : string) : result mat :=
  raise_if negb (rectangular values) of ValueError "setting an array element with a sequence" ;;
  raise_if bool_decide (values = []) || negb (ncols values =? n) of ValueError why ;;
  Ok values.

Definition to_radians (s : ActionSpec) (values : mat) (comp : string) : result mat :=
  raise_if negb (String.eqb comp (composition s)) of ValueError "chunk composition differs from the spec" ;;
  values <-- as_rows (length (as_joints s)) values "values must be (T, joints): a shape is never broadcast" ;;
  if String.eqb (units s) "rad" then Ok values else
  let scaled := map (zip_with fmul (default [] (scale s))) values in
  Ok (if String.eqb comp "delta" then scaled else map (zip_with fadd (default [] (offset s))) scaled).

(** ** The report of a run *)

Record Report := {
  requested : list string;
  admitted : list string;
  selected : list string;
  unknown : list string;
  refused : list (string * string);
  replaced : list string;
  late : list (string * string);
  selected_revision : option Z;
  notes : list string;
  spec : option ActionSpec;
  profile_at_start : option string;
}.
#[export] Instance eta_Report : Eta Report := fun r => {|
  requested := requested r; admitted := admitted r; selected := selected r; unknown := unknown r; refused := refused r;
  replaced := replaced r; late := late r; selected_revision := selected_revision r; notes := notes r; spec := spec r;
  profile_at_start := profile_at_start r |}.
Definition Report_new : Report := {|
  requested := []; admitted := []; selected := []; unknown := []; refused := []; replaced := []; late := [];
  selected_revision := None; notes := []; spec := None; profile_at_start := None |}.

(** [if x not in l: l.append(x)] *)
Definition once (x : string) (l : list string) : list string := if bool_decide (x ∈ l) then l else l ++ [x].
Definition mark_unknown (id : string) (r : Report) : Report := r <| unknown := once id (unknown r) |>.
Definition note (text : string) (r : Report) : Report := r <| notes := notes r ++ [text] |>.
Definition note_refused (id why : string) (r : Report) : Report := r <| refused := refused r ++ [(id, why)] |>.
Definition note_late (id why : string) (r : Report) : Report := r <| late := late r ++ [(id, why)] |>.
Definition note_requested (id : string) (r : Report) : Report := r <| requested := requested r ++ [id] |>.

(** ** The status of a revision *)

Inductive kind := is_refused | is_selected | is_ended | is_admitted | is_pending.
#[export] Instance kind_eq_dec : EqDecision kind.
Proof. solve_decision. Defined.
#[export] Instance SelectionState_eq_dec : EqDecision SelectionState.
Proof. solve_decision. Defined.

Definition classify (st : RevisionStatus) : kind :=
  if bool_decide (rv_phase st = REJECTED) || bool_decide (rv_selection_state st = SEL_REFUSED) then is_refused
  else if bool_decide (rv_selection_state st = SEL_SELECTED) then is_selected
  else if terminal (rv_phase st) then is_ended
  else if negb (bool_decide (rv_phase st = REQUESTED)) then is_admitted
  else is_pending.
Definition over (k : kind) : bool := match k with is_refused | is_selected | is_ended => true | _ => false end.
Definition resolved (st : RevisionStatus) : bool := over (classify st).

(** [x or y] of texts *)
Definition or_else (x y : string) : string := if String.eqb x "" then y else x.
Definition note_outcome (id : string) (st : RevisionStatus) (r : Report) : Report * kind :=
  let k := classify st in
  let known := existsb (fun x => String.eqb x.1 id) (refused r) in
  match k with
  | is_ended => (if known then r else note_refused id ("ended without selection: " +:+ rv_reason st) r, k)
  | is_refused => (if known then r else note_refused id (or_else (rv_reason st) "revision refused") r, k)
  | is_admitted => (r <| admitted := once id (admitted r) |>, k)
  | is_selected => (r <| admitted := once id (admitted r) |> <| selected := once id (selected r) |>, k)
  | is_pending => (r, k)
  end.

(** ** The session *)

(** The next numbers of [_OPEN_SEQ], [_PROPOSAL_SEQ] and [_REQUEST_ID] *)
Record counters := { next_open : Z; next_proposal : Z; next_request : Z }.
#[export] Instance eta_counters : Eta counters := fun c => {|
  next_open := next_open c; next_proposal := next_proposal c; next_request := next_request c |}.
Definition counters0 : counters := {| next_open := 1; next_proposal := 1; next_request := 1 |}.

Class Client (S : Type) := { counted : S -> counters; count : (counters -> counters) -> S -> S }.

Record Session := { execution_id : string; closed : bool; last_error : option exn }.

Section Session.
Context {S : Type} `{!Client S} {arm : Arm}.
Definition ClientM : Type -> Type := M S said.
Definition asking {A} (f : Arm -> nat -> result A) : ClientM A := k <~ ask ;; lift (f arm k).

Definition new_request_id (prefix : string) : ClientM string :=
  s <~ get ;; upd (count (fun c => c <| next_request := (next_request c + 1)%Z |>)) ;~
  ret (prefix +:+ "." +:+ pretty (next_request (counted s))).

Definition StreamSession_new (ctx : StreamContext) (hold_s : float) : ClientM Session :=
  if hold_s <=f f0 then throw (ValueError "hold_s must be positive") else
  q <~ asking (@arm_state) ;;
  curve <~ lift (JointTrajectory_new [f0; hold_s /f of_Z 2; hold_s] [q; q; q] (Some (replicate 3 (replicate (length q) f0)))) ;;
  s <~ get ;; upd (count (fun c => c <| next_open := (next_open c + 1)%Z |>)) ;~
  let seq := next_open (counted s) in
  o <~ lift (StreamOpen_new {|
    so_request_id := "open-" +:+ pretty seq; open_seq := seq; so_instance_id := instance_id ctx; so_joint_names := joints ctx;
    so_model_token := model_token ctx; so_scene_token := scene_token ctx; stream_policy_id := policy_id ctx; initial := curve;
    so_start := ON_ADMIT; so_admit_by := None |}) ;;
  say (Opens o) ;~
  view <~ asking (@arm_open_stream) ;;
  ret {| execution_id := Contract.execution_id (sv_execution view); closed := false; last_error := None |}.

Definition view (ss : Session) : ClientM StreamView := asking (@arm_stream_state).

(** The velocities of the spliced knots: the anchor's, then central differences, at rest at the end *)
Fixpoint central (dt : float) (knots : mat) : mat :=
  match knots with
  | a :: (b :: c :: _) as rest => zip_with (fun x y => (y -f x) /f (of_Z 2 *f dt)) a c :: central dt rest
  | _ => []
  end.
Definition splice_velocities (qd : vec) (dt : float) (knots : mat) : result mat :=
  let n := ncols knots in
  v0 <-- (if length qd =? n then Ok qd
          else match qd with [x] => Ok (replicate n x) | _ => Err (ValueError "could not broadcast input array") end) ;;
  Ok (v0 :: central dt knots ++ [replicate n f0]).
Definition splice_times (cut dt : float) (k : nat) : vec := map (fun i => cut +f (dt *f of_Z (Z.of_nat i))) (seq 0 k).

(** [revise]; [q_knots] is a non-empty 2-D array. *)
Definition revise (ctx : StreamContext) (ss : Session) (rid : string) (q_knots : mat) (dt : float) : ClientM RevisionStatus :=
  if negb (rectangular q_knots) then throw (ValueError "setting an array element with a sequence") else
  if negb ((1 <=? length q_knots) && (length q_knots <=? MAX_KNOTS)) || negb (mat_finite q_knots) || negb (dt >f f0)
  then throw (ValueError "chunk needs 1..127 finite knots and dt > 0") else
  anchor <~ asking (@arm_stream_anchor) ;;
  if negb (length (sa_q anchor) =? ncols q_knots) then throw (ValueError "all the input array dimensions must match exactly") else
  let knots := sa_q anchor :: q_knots in
  vel <~ lift (splice_velocities (sa_qd anchor) dt knots) ;;
  s <~ get ;; upd (count (fun c => c <| next_proposal := (next_proposal c + 1)%Z |>)) ;~
  suffix <~ lift (JointTrajectory_new (splice_times (cut_phase anchor) dt (length knots)) knots (Some vel)) ;;
  r <~ lift (StreamRevision_new {|
    sr_request_id := rid; sr_execution_id := execution_id ss; proposal_seq := next_proposal (counted s);
    expected_revision := sa_expected_revision anchor; sr_anchor_id := anchor_id anchor; sr_scene_token := scene_token ctx;
    suffix := suffix; sr_terminal := false; sr_admit_by := None |}) ;;
  say (Revises r) ;~
  asking (@arm_revise_stream).

(** [close]: the session after it, and whether it is confirmed closed *)
Definition close_session (ss : Session) (reason : string) : ClientM (Session * bool) :=
  if closed ss then ret (ss, true) else
  say (Cancels (execution_id ss) reason) ;~
  catch infrastructure (asking (@arm_cancel) ;~ ret ({| execution_id := execution_id ss; closed := true; last_error := last_error ss |}, true))
    (fun e => ret ({| execution_id := execution_id ss; closed := false; last_error := Some e |}, false)).

(** ** What the session does *)

(** A revision that splices [ks], [dt] apart, from an anchor the supervisor gave *)
Record spliced (ss : Session) (rid : string) (ks : mat) (dt : float) (rev : StreamRevision) (anchor : SpliceAnchor) : Prop := {
  sp_anchor : exists j, arm_stream_anchor j = Ok anchor;
  sp_ids : sr_request_id rev = rid /\ sr_execution_id rev = execution_id ss /\ sr_anchor_id rev = anchor_id anchor;
  sp_expected : expected_revision rev = sa_expected_revision anchor;
  sp_rows : positions (suffix rev) = sa_q anchor :: ks;
  sp_times : times (suffix rev) = splice_times (cut_phase anchor) dt (1 + length ks);
  sp_velocities : exists vm, velocities (suffix rev) = Some vm /\ splice_velocities (sa_qd anchor) dt (sa_q anchor :: ks) = Ok vm;
  sp_curve : curve_ok (suffix rev);
  sp_knots : (1 <= length ks <= MAX_KNOTS)%nat /\ mat_finite ks = true /\ dt >f f0 = true;
}.

Abbreviation World := (world S said).
(** Only the numbers drawn have changed. *)
Definition drawn (s s' : S) : Prop := s' = s \/ exists f, s' = count f s.

Lemma revise_cases ctx ss rid ks dt (w : World) r w' : revise ctx ss rid ks dt w = (r, w') ->
  drawn (obj w) (obj w') /\
  (out w' = out w \/ exists rev anchor, out w' = (obj w', Revises rev) :: out w /\ spliced ss rid ks dt rev anchor).
Proof.
  unfold revise. destruct (rectangular ks) eqn:Er; simpl; [|intros [= _ <-]; split; by left].
  destruct (negb _ || _ || _) eqn:Eg; [intros [= _ <-]; split; by left|].
  unfold asking at 1, bind at 1, bind at 1, ask, lift at 1. destruct (arm_stream_anchor (asked w)) as [a|e] eqn:Ea; [|intros [= _ <-]; split; by left].
  destruct (_ =? _)%nat eqn:En; simpl; [|intros [= _ <-]; split; by left].
  unfold bind at 1, lift at 1. destruct (splice_velocities _ _ _) as [vm|e] eqn:Ev; [|intros [= _ <-]; split; by left].
  unfold bind at 1, get, bind at 1, upd, bind at 1, lift at 1. simpl.
  assert (D : forall f, drawn (obj w) (count f (obj w))) by (intros f; right; by exists f).
  destruct (JointTrajectory_new _ _ _) as [tr|e] eqn:Et; [|intros [= _ <-]; split; [apply D|by left]].
  unfold bind at 1, lift at 1. destruct (StreamRevision_new _) as [rev|e] eqn:Es; [|intros [= _ <-]; split; [apply D|by left]].
  unfold bind at 1, say at 1, asking, bind, ask, lift. simpl. intros [= _ <-]. simpl. split; [apply D|]. right.
  exists rev, a. split; [done|].
  apply JointTrajectory_new_id in Et as ->.
  unfold StreamRevision_new in Es. do 6 (apply rbind_ok in Es as (? & _ & Es)). apply rbind_ok in Es as (c & Hc & Es).
  match type of Es with (if ?b then _ else _) = _ => destruct b; [done|] end. apply rbind_ok in Es as (? & _ & Es). injection Es as <-. apply curve_sound in Hc as [-> Hc].
  breflect. split; simpl; eauto.
  split; [|split; [done|by destruct (_ >f _)]]. split; by apply Nat.leb_le.
Qed.

Lemma close_cases ss reason (w : World) r w' : close_session ss reason w = (r, w') ->
  obj w' = obj w /\ (out w' = out w \/ out w' = (obj w, Cancels (execution_id ss) reason) :: out w) /\
  (forall ss', r = Ok (ss', true) -> closed ss' = true) /\ (forall ss', r = Ok (ss', false) -> closed ss' = false).
Proof.
  unfold close_session. destruct (closed ss) eqn:Ec.
  { intros [= <- <-]. split_and!; [done|by left|by intros ss' [= <-]|done]. }
  unfold bind at 1, say, catch, asking, bind at 1, bind, ask, lift. simpl. destruct (arm_cancel (asked w)) as [[]|e]; simpl.
  - intros [= <- <-]. simpl. split_and!; [done|by right|by intros ss' [= <-]|done].
  - destruct (infrastructure e); intros [= <- <-]; simpl; (split_and!; [done|by right|done|]); [by intros ss' [= <-]|done].
Qed.
End Session.

(** ** The report *)

(** The facts of a report: each listed once, and in order of strength. *)
Record honest (r : Report) : Prop := {
  ho_admitted : NoDup (admitted r);
  ho_selected : NoDup (selected r);
  ho_unknown : NoDup (unknown r);
  ho_in_admitted : forall x, x ∈ selected r -> x ∈ admitted r;
  ho_in_requested : forall x, x ∈ admitted r \/ x ∈ unknown r -> x ∈ requested r;
}.

Lemma once_NoDup x l : NoDup l -> NoDup (once x l).
Proof.
  intros H. unfold once. destruct (bool_decide (x ∈ l)) eqn:E; breflect; [done|]. apply NoDup_app. split; [done|].
  split; [|apply NoDup_singleton]. intros y Hy Hx. apply list_elem_of_singleton in Hx. congruence.
Qed.
Lemma elem_of_once x y l : y ∈ once x l <-> y ∈ l \/ y = x.
Proof.
  unfold once. destruct (bool_decide (x ∈ l)) eqn:E; breflect; [|rewrite elem_of_app, list_elem_of_singleton; done].
  split; [by left|]. by intros [?| ->].
Qed.

Lemma honest_requested id r : honest r -> honest (note_requested id r).
Proof. intros []. split; simpl; auto. intros x Hx. apply elem_of_app. left. auto. Qed.
Lemma honest_unknown id r : honest r -> id ∈ requested r -> honest (mark_unknown id r).
Proof.
  intros [] H. split; simpl; auto; [by apply once_NoDup|]. intros x [Hx|Hx]; [auto|]. apply elem_of_once in Hx as [Hx| ->]; auto.
Qed.
Lemma honest_note text r : honest r -> honest (note text r).
Proof. intros []. by split. Qed.
Lemma honest_refused id why r : honest r -> honest (note_refused id why r).
Proof. intros []. by split. Qed.
Lemma honest_late id why r : honest r -> honest (note_late id why r).
Proof. intros []. by split. Qed.

Lemma honest_outcome id st r : honest r -> id ∈ requested r -> honest (note_outcome id st r).1.
Proof.
  intros H Hid. unfold note_outcome. destruct (classify st); [destruct (existsb _ _)| |destruct (existsb _ _)| |]; simpl;
    try done; try (by apply honest_refused); destruct H; (split; simpl; auto using once_NoDup).
  - intros x. rewrite !elem_of_once. naive_solver.
  - intros x. rewrite elem_of_once. naive_solver.
  - intros x Hx. rewrite elem_of_once. auto.
  - intros x. rewrite elem_of_once. naive_solver.
Qed.
Lemma outcome_requested id st r : requested (note_outcome id st r).1 = requested r.
Proof. unfold note_outcome. destruct (classify st); [destruct (existsb _ _)| |destruct (existsb _ _)| |]; done. Qed.
