(* ===== verification/Chunks.v ===== *)
(** The action-chunk policy client ([clients/chunks.py]): a policy answers a past
    observation after an unknown delay; a chunk is dropped when it is late,
    replaced when a newer one waits, and otherwise spliced from the supervisor's
    anchor, one revision at a time. *)
From Stdlib Require Import SpecFloat PrimFloat FloatOps.
From S2P Require Import Prelude Floats Motion Contract Stream Effects Clients.

Open Scope Z_scope.

Record Chunk := {
  chunk_id : string;
  c_joints : list string;
  values : mat;
  dt_s : float;
  observed_at : Stamp;
  c_generation : Z;
  mode : string;
  base_q : option vec;
  c_units : string;
}.

(** The arguments of the constructor *)
Class Config := { ctx : StreamContext; max_age_s : float; hold_s : float; run_spec : option ActionSpec }.

Record chunks := {
  serials : counters;
  generation : Z;
  session : option Session;
  report : Report;
  inflight : option (string * string * Z);
  waiting : option Chunk;
  sent_obs_ns : Z;
  cancel_pending : bool;
}.
#[export] Instance eta_chunks : Eta chunks := fun s => {|
  serials := serials s; generation := generation s; session := session s; report := report s; inflight := inflight s;
  waiting := waiting s; sent_obs_ns := sent_obs_ns s; cancel_pending := cancel_pending s |}.
#[export] Instance Client_chunks : Client chunks := {| counted := serials; count f s := s <| serials := f (serials s) |> |}.

Definition new (c : Config) : result chunks :=
  raise_if negb (max_age_s >f f0) of ValueError "max_age_s must be positive (it is the caller's deadline, there is no default)" ;;
  raise_if match run_spec with Some sp => negb (bool_decide (as_joints sp = joints ctx)) | None => false end
    of ValueError "the action spec names different joints (or another order) than the stream context" ;;
  Ok {| serials := counters0; generation := 0; session := None; report := Report_new <| spec := run_spec |>; inflight := None;
        waiting := None; sent_obs_ns := -1; cancel_pending := false |}.

Section Client.
Context {cfg : Config} {arm : Arm}.
Definition ChunkM : Type -> Type := M chunks said.
Abbreviation asking := (asking (S:=chunks)).

Definition reports (f : Report -> Report) : ChunkM unit := upd (fun s => s <| report := f (report s) |>).

(** ** Start and cancel *)

(** [_check_profile]; the read of the profile may fail, and is only noted when nothing is asserted. *)
Definition expected_profile : option string := run_spec ≫= control_profile.
Definition read_profile : ChunkM (option string) :=
  if controller_extension then
    catch infrastructure (p <~ asking (@arm_controller_state) ;; ret (Some p))
      (fun e => match expected_profile with
                | Some _ => throw (NeedsOperator "the run expects a control profile but reading the profile failed")
                | None => reports (note "control profile not recorded") ;~ ret None
                end)
  else ret None.
Definition check_profile : ChunkM (option string) :=
  profile <~ read_profile ;;
  match expected_profile with
  | None => ret profile
  | Some expected =>
      if negb controller_extension then throw (NeedsOperator "the supervisor cannot report its profile") else
      if negb (bool_decide (profile = Some expected)) then throw (NeedsOperator "another control profile is selected") else
      ret profile
  end.

Definition cancel (reason : string) : ChunkM bool :=
  upd (fun s => s <| generation := generation s + 1 |> <| inflight := None |> <| waiting := None |>) ;~
  s <~ get ;;
  x <~ match session s with
       | None => ret (None, true)
       | Some ss => r <~ close_session ss reason ;; ret (Some r.1, r.2)
       end ;;
  upd (fun s => s <| session := x.1 |>) ;~
  if x.2 then upd (fun s => s <| session := None |> <| cancel_pending := false |>) ;~ ret true
  else upd (fun s => s <| cancel_pending := true |>) ;~ reports (note "CANCEL NOT CONFIRMED; retry cancel()") ;~ ret false.

Definition start : ChunkM Z :=
  profile <~ check_profile ;;
  stopped <~ cancel "restart" ;;
  if negb stopped then throw (NeedsOperator "previous stream not confirmed cancelled; not opening a second one") else
  upd (fun s => s <| generation := generation s + 1 |>) ;~
  ss <~ StreamSession_new ctx hold_s ;;
  upd (fun s => s <| session := Some ss |>) ;~
  reports (fun r => r <| profile_at_start := profile |>) ;~
  upd (fun s => s <| inflight := None |> <| waiting := None |> <| sent_obs_ns := -1 |>) ;~
  s <~ get ;; ret (generation s).

(** ** Chunks *)

Definition n : nat := length (joints ctx).

(** [_knots] *)
Definition knots (c : Chunk) : result mat :=
  v <-- as_rows n (values c) "chunk must be (T, joints)" ;;
  raise_if negb ((1 <=? length v) && (length v <=? MAX_KNOTS))%nat of ValueError "a chunk has 1..127 knots" ;;
  v <-- match run_spec with Some sp => to_radians sp v (mode c) | None => Ok v end ;;
  if String.eqb (mode c) "delta" then
    match base_q c with
    | None => Err (ValueError "a delta chunk composes on base_q, the joint position at observation time")
    | Some base =>
        raise_if negb (length base =? n)%nat of ValueError "base_q must have one entry per joint (it is never broadcast)" ;;
        let v := map (zip_with fadd base) v in
        raise_if negb (mat_finite v) of ValueError "the composed chunk is not finite" ;;
        Ok v
    end
  else if String.eqb (mode c) "absolute" then
    raise_if negb (mat_finite v) of ValueError "the chunk is not finite" ;;
    Ok v
  else Err (ValueError "unknown composition").

(** [_check]: [None] when the chunk may be sent *)
Inductive verdict := Late (why : string) | Declined (why : string).

Definition f1e9 : float := Eval vm_compute in of_Z 1000000000.
Definition age_of (now observed : Stamp) : result float := d <-- int_to_float (ns now - ns observed) ;; Ok (d /f f1e9).
Definition too_long (sp : ActionSpec) (c : Chunk) : bool :=
  match horizon_s sp with
  | Some h => (of_Z (Z.of_nat (length (values c))) *f dt_s c) >f (h +f f1e_9)
  | None => false
  end.
Definition newest (s : chunks) : Z := Z.max (sent_obs_ns s) (match inflight s with Some (_, _, t) => t | None => -1 end).

(** The age of the observation by the supervisor's clock *)
Definition check_age (c : Chunk) : ChunkM (option verdict) :=
  catch infrastructure
    (now <~ asking (@arm_now) ;;
     if negb (bool_decide ((clock now, domain now) = (clock (observed_at c), domain (observed_at c))))
     then ret (Some (Declined "observation stamp is not on the supervisor clock")) else
     age <~ lift (age_of now (observed_at c)) ;;
     if age >f max_age_s then ret (Some (Late "the observation is past the deadline")) else
     s <~ get ;;
     if ns (observed_at c) <? newest s then ret (Some (Late "older than the observation of what was already sent")) else ret None)
    (fun e => ret (Some (Declined "cannot age the observation"))).

Definition check (c : Chunk) : ChunkM (option verdict) :=
  s <~ get ;;
  if cancel_pending s then ret (Some (Late "a cancel is outstanding (not confirmed): the stream is being stopped")) else
  if match session s with Some ss => closed ss | None => true end
  then ret (Some (Late "no open session (a late response does not restart one)")) else
  if negb (c_generation c =? generation s) then ret (Some (Late "requested before the last start/cancel")) else
  if negb (bool_decide (c_joints c = joints ctx)) then ret (Some (Declined "joint names or order differ from the stream context")) else
  if negb (isfinite (dt_s c) && (dt_s c >f f0)) then ret (Some (Declined "dt_s must be a positive finite number")) else
  if negb (String.eqb (c_units c) (match run_spec with Some sp => units sp | None => "rad" end)%string)
  then ret (Some (Declined "this run declared other units")) else
  if match run_spec with Some sp => too_long sp c | None => false end then ret (Some (Declined "chunk horizon exceeds the declared one")) else
  match knots c with
  | Err e => if is_ValueError e then ret (Some (Declined (exn_text e))) else throw e
  | Ok _ => check_age c
  end.

Definition file (v : verdict) (c : Chunk) : Report -> Report :=
  match v with Late why => note_late (chunk_id c) why | Declined why => note_refused (chunk_id c) why end.

(** [_send] *)
Definition flies (c : Chunk) (rid : string) : ChunkM unit := upd (fun s => s <| inflight := Some (chunk_id c, rid, ns (observed_at c)) |>).
Definition is_sdk_Refused (e : exn) : bool := match e with Refused _ => true | _ => false end.
Definition send (c : Chunk) : ChunkM unit :=
  rid <~ new_request_id (chunk_id c) ;;
  s <~ get ;;
  answer <~ catch (fun e => is_sdk_Refused e || is_ValueError e || infrastructure e)
    (match session s with
     | Some ss => ks <~ lift (knots c) ;; st <~ revise ctx ss rid ks (dt_s c) ;; ret (Ok st)
     | None => throw (TypeError "'NoneType' object has no attribute 'revise'")
     end)
    (fun e => ret (Err e)) ;;
  match answer with
  | Ok st =>
      s <~ get ;;
      let r := note_outcome (chunk_id c) st (note_requested (chunk_id c) (report s)) in
      upd (fun s => s <| report := r.1 |>) ;~
      if bool_decide (r.2 = is_refused) then ret tt else flies c rid
  | Err e =>
      if is_sdk_Refused e || is_ValueError e then reports (note_refused (chunk_id c) (exn_text e)) else
      reports (fun r => note "no reply to the revision; fate unknown" (mark_unknown (chunk_id c) (note_requested (chunk_id c) r))) ;~
      flies c rid
  end.

(** ** The two calls of a run *)

Definition submit (c : Chunk) : ChunkM string :=
  v <~ check c ;;
  match v with
  | Some v => reports (file v c) ;~ ret (match v with Late _ => "late" | Declined _ => "refused" end)%string
  | None =>
      s <~ get ;;
      if is_some (inflight s) then
        when (is_some (waiting s)) (reports (fun r => r <| replaced := replaced r ++ (match waiting s with Some x => [chunk_id x] | None => [] end) |>)) ;~
        upd (fun s => s <| waiting := Some c |>) ;~ ret "waiting"%string
      else send c ;~ s <~ get ;; ret (if is_some (inflight s) then "sent" else "refused")%string
  end.

(** The revision in flight: its fate, unless it is still open (true) *)
Definition resolve_inflight (ss : Session) : ChunkM bool :=
  s <~ get ;;
  match inflight s with
  | None => ret false
  | Some (id, rid, observed_ns) =>
      k <~ catch infrastructure
        (st <~ asking (@arm_stream_revision) ;;
         s <~ get ;;
         let r := note_outcome id st (report s) in upd (fun s => s <| report := r.1 |>) ;~ ret (Some r.2))
        (fun e => match e with
                  | TimeoutError _ => ret None
                  | _ => reports (fun r => mark_unknown id (note "revision status unavailable; fate unknown" r)) ;~ ret (Some is_selected)
                  end) ;;
      match k with
      | None => ret true
      | Some k =>
          if negb (over k) then ret true else
          when (bool_decide (k = is_selected)) (upd (fun s => s <| sent_obs_ns := Z.max (sent_obs_ns s) observed_ns |>)) ;~
          upd (fun s => s <| inflight := None |>) ;~ ret false
      end
  end.

Definition send_waiting : ChunkM unit :=
  s <~ get ;;
  match inflight s, waiting s with
  | None, Some c =>
      upd (fun s => s <| waiting := None |>) ;~
      v <~ check c ;;
      match v with None => send c | Some v => reports (file v c) end
  | _, _ => ret tt
  end.

Definition pump : ChunkM unit :=
  s <~ get ;;
  match session s with
  | None => ret tt
  | Some ss =>
      if closed ss then ret tt else
      v <~ catch infrastructure (v <~ view ss ;; ret (Some v)) (fun e => reports (note "stream unreadable") ;~ ret None) ;;
      match v with
      | None => ret tt
      | Some v =>
          reports (fun r => r <| selected_revision := Stream.selected_revision v |>) ;~
          if status_terminal (sv_execution v) then
            reports (note "stream ended") ;~
            upd (fun s => s <| session := Some {| execution_id := execution_id ss; closed := true; last_error := last_error ss |} |>
                            <| inflight := None |> <| waiting := None |>)
          else
            open <~ resolve_inflight ss ;;
            if open then ret tt else send_waiting
      end
  end.

(** ** Runs *)

Inductive input := Start | Cancel (reason : string) | Submit (c : Chunk) | Pump.
Definition serve (i : input) : ChunkM unit :=
  match i with
  | Start => start ;~ ret tt
  | Cancel reason => cancel reason ;~ ret tt
  | Submit c => submit c ;~ ret tt
  | Pump => pump
  end.
Definition step (w : world chunks said) (i : input) : world chunks said := (serve i w).2.
End Client.
