(* ===== verification/ChunksSafety.v ===== *)
(** What the chunk client guarantees, for every sequence of calls and every
    behaviour of the supervisor: what a chunk must satisfy to move the arm, that
    a cancel is final, and what its report may claim. *)
From Stdlib Require Import SpecFloat PrimFloat FloatOps.
From S2P Require Import Prelude Floats Motion Contract Stream Effects Clients Chunks.

Open Scope Z_scope.

Section Safety.
Context {cfg : Config} {arm : Arm}.
Abbreviation World := (world chunks said).

(** ** What a revision may be *)

(** The observation of [c] is on the supervisor's clock and not past the deadline,
    by an answer of that clock. *)
Definition fresh (c : Chunk) : Prop := exists k now age, arm_now k = Ok now /\
  (clock now, domain now) = (clock (observed_at c), domain (observed_at c)) /\ age_of now (observed_at c) = Ok age /\ (age >f max_age_s) = false.

(** Chunk [c] may be spliced by the client [s]. *)
Record sendable (s : chunks) (c : Chunk) (ss : Session) (ks : mat) : Prop := {
  se_session : session s = Some ss /\ closed ss = false;
  se_cancel : cancel_pending s = false;
  se_alone : inflight s = None;
  se_generation : c_generation c = generation s;
  se_order : sent_obs_ns s <= ns (observed_at c);
  se_joints : c_joints c = joints ctx;
  se_fresh : fresh c;
  se_knots : knots c = Ok ks;
}.

Definition justified (given : Chunk -> Prop) (x : chunks * said) : Prop :=
  match x.2 with
  | Revises rev => exists c ss rid ks anchor, given c /\ sendable x.1 c ss ks /\ spliced ss rid ks (dt_s c) rev anchor
  | _ => True
  end.

Definition Good (given : Chunk -> Prop) (w : World) : Prop :=
  Forall (justified given) (out w) /\ forall c, waiting (obj w) = Some c -> given c.

(** [check] decides without touching the client. *)
Lemma check_age_cases c (w : World) r w' : check_age c w = (r, w') ->
  obj w' = obj w /\ out w' = out w /\ (r = Ok None -> fresh c /\ newest (obj w) <= ns (observed_at c)).
Proof.
  unfold check_age, catch, asking, bind at 1, bind at 1, ask, lift at 1. destruct (arm_now (asked w)) as [now|e] eqn:En; simpl.
  2: { destruct (infrastructure e); intros [= <- <-]; split_and!; done. }
  destruct (bool_decide _) eqn:Eb; simpl; [|by intros [= <- <-]]. unfold bind at 1, lift.
  destruct (age_of now (observed_at c)) as [age|e] eqn:Ea; [|destruct (infrastructure e); intros [= <- <-]; split_and!; done].
  destruct (age >f max_age_s) eqn:Eg; [by intros [= <- <-]|]. unfold bind, get. simpl.
  destruct (_ <? _) eqn:El; intros [= <- <-]; split_and!; try done. breflect. intros _. split; [|done]. by exists (asked w), now, age.
Qed.

Lemma check_cases c (w : World) r w' : check c w = (r, w') ->
  obj w' = obj w /\ out w' = out w /\
  (r = Ok None -> inflight (obj w) = None -> exists ss ks, sendable (obj w) c ss ks).
Proof.
  unfold check, bind at 1, get. destruct (cancel_pending (obj w)) eqn:Ec; [by intros [= <- <-]|].
  destruct (session (obj w)) as [ss|] eqn:Es; [|by intros [= <- <-]]. destruct (closed ss) eqn:Ecl; [by intros [= <- <-]|].
  destruct (c_generation c =? _) eqn:Eg; simpl; [|by intros [= <- <-]].
  destruct (bool_decide (c_joints c = _)) eqn:Ej; simpl; [|by intros [= <- <-]].
  destruct (negb (_ && _)); [by intros [= <- <-]|]. destruct (negb _); [by intros [= <- <-]|].
  destruct (match run_spec with Some _ => _ | None => _ end); [by intros [= <- <-]|].
  destruct (knots c) as [ks|e] eqn:Ek; [|destruct (is_ValueError e); by intros [= <- <-]].
  intros H. apply check_age_cases in H as (H1 & H2 & H3). split_and!; [done|done|]. intros Hr Hi. apply H3 in Hr as [Hf Hn].
  unfold newest in Hn. rewrite Hi in Hn. breflect. exists ss, ks. split; auto. lia.
Qed.

(** ** What sending does *)

Lemma count_kept f (s : chunks) : session (count f s) = session s /\ cancel_pending (count f s) = cancel_pending s /\
  inflight (count f s) = inflight s /\ generation (count f s) = generation s /\ sent_obs_ns (count f s) = sent_obs_ns s /\
  waiting (count f s) = waiting s /\ report (count f s) = report s.
Proof. done. Qed.

Lemma sendable_drawn s s' c ss ks : drawn s s' -> sendable s c ss ks -> sendable s' c ss ks.
Proof. intros [->|[f ->]]; [done|]. intros []. by split. Qed.
Lemma drawn_waiting (s s' : chunks) : drawn s s' -> waiting s' = waiting s.
Proof. by intros [->|[f ->]]. Qed.

Lemma Good_upd given f : (forall s, waiting (f s) = waiting s \/ waiting (f s) = None) -> steps (saves (Good given)) (upd f).
Proof. intros H w [H1 H2]. split; [done|]. simpl. intros c Hc. destruct (H (obj w)) as [E|E]; rewrite E in Hc; [auto|done]. Qed.
Lemma Good_same given {A} (m : ChunkM A) : (forall w, obj (m w).2 = obj w /\ out (m w).2 = out w) -> steps (saves (Good given)) m.
Proof. intros H w [H1 H2]. unfold Good. destruct (H w) as [-> ->]. done. Qed.
Lemma Good_asking given {A} (f : Arm -> nat -> result A) : steps (saves (Good given)) (asking f).
Proof. apply Good_same. done. Qed.
#[local] Hint Extern 1 (steps (saves (Good _)) (upd _)) => apply Good_upd; intros; simpl; auto : steps.
#[local] Hint Extern 1 (steps (saves (Good _)) (reports _)) => apply Good_upd; intros; simpl; auto : steps.
#[local] Hint Extern 1 (steps (saves (Good _)) (asking _)) => apply Good_asking : steps.
#[local] Hint Extern 1 (steps (saves (Good _)) ask) => apply Good_same; done : steps.

Lemma new_request_id_cases p (w : World) : exists rid f, new_request_id p w = (Ok rid, w <| obj := count f (obj w) |>).
Proof. by eexists _, _. Qed.

Lemma send_chunk_good (given : Chunk -> Prop) c ss ks (w : World) : given c -> sendable (obj w) c ss ks -> Good given w -> Good given (send c w).2.
Proof.
  intros Hc Hs G. unfold send, bind at 1.
  match goal with |- context [new_request_id ?p w] => destruct (new_request_id_cases p w) as (rid & f & ->) end.
  set (w1 := w <| obj := count f (obj w) |>). assert (S1 : sendable (obj w1) c ss ks) by (by destruct Hs; split).
  assert (G1 : Good given w1) by done. clearbody w1. clear Hs G f w.
  unfold bind at 1, get at 1. destruct (se_session _ _ _ _ S1) as [Es _]. rewrite Es.
  match goal with |- Good _ (bind ?m ?k w1).2 => set (act := m); set (kont := k) end.
  assert (G2 : Good given (act w1).2).
  { unfold act, catch, bind at 1, lift. rewrite (se_knots _ _ _ _ S1). unfold bind at 1.
    destruct (revise _ _ _ _ _ w1) as [r w2] eqn:Er. apply revise_cases in Er as [D O].
    assert (G2 : Good given w2).
    { destruct G1 as [F W]. split; [|by rewrite (drawn_waiting _ _ D)]. destruct O as [->|(rev & a & -> & Hsp)]; [done|].
      constructor; [|done]. exists c, ss, rid, ks, a. split_and!; [done|by eapply sendable_drawn|exact Hsp]. }
    destruct r as [st|e]; simpl; [done|]. by destruct (_ || _). }
  unfold bind. destruct (act w1) as [[a|e] w2]; [|done]. simpl in G2. unfold kont.
  destruct a as [st|e].
  - refine (flows_steps (saves (Good given)) _ w2 _ G2). unfold flies. steps.
  - refine (flows_steps (saves (Good given)) _ w2 _ G2). unfold flies. steps.
Qed.

(** ** The calls of a run *)

(** [check] lets a chunk through: then it is sendable where it was checked. *)
Lemma check_good {A} (given : Chunk -> Prop) c (w : World) (k : option verdict -> ChunkM A) :
  Good given w -> (forall v w', Good given w' -> Good given (k (Some v) w').2) ->
  (forall w', obj w' = obj w -> Good given w' -> (inflight (obj w') = None -> exists ss ks, sendable (obj w') c ss ks) -> Good given (k None w').2) ->
  Good given (bind (check c) k w).2.
Proof.
  intros G H1 H2. unfold bind. destruct (check c w) as [[v|e] w'] eqn:E; apply check_cases in E as (Eo & O & Hs).
  - assert (G' : Good given w') by (unfold Good; by rewrite Eo, O). destruct v as [v|]; [by apply H1|]. apply H2; [done..|].
    rewrite Eo. auto.
  - unfold Good. simpl. by rewrite Eo, O.
Qed.

Lemma file_good given v c : steps (saves (Good given)) (reports (file v c)).
Proof. steps. Qed.
#[local] Hint Resolve file_good : steps.

Lemma Good_then given {A} (m : ChunkM A) w : steps (saves (Good given)) m -> Good given w -> Good given (m w).2.
Proof. intros H. apply H. Qed.

Lemma submit_good (given : Chunk -> Prop) c : given c -> steps (saves (Good given)) (submit c).
Proof.
  intros Hc w G. unfold submit. apply check_good; [done| |].
  - intros v w' G'. apply Good_then; [steps|done].
  - intros w' _ G' Hs. unfold bind at 1, get at 1. destruct (inflight (obj w')) as [i|] eqn:Ei; cbn [is_some].
    + destruct G' as [F W]. unfold bind, when, reports, upd, ret. destruct (is_some (waiting (obj w'))); (split; [exact F|by intros x [= <-]]).
    + destruct (Hs eq_refl) as (ss & ks & Hs'). pose proof (send_chunk_good given c ss ks w' Hc Hs' G') as G2.
      unfold bind. by destruct (send c w') as [[[]|e] w2].
Qed.

Lemma send_waiting_good given : steps (saves (Good given)) send_waiting.
Proof.
  intros w G. unfold send_waiting, bind at 1, get. destruct (inflight (obj w)) as [i|] eqn:Ei; [done|].
  destruct (waiting (obj w)) as [c|] eqn:Ew; [|done]. unfold bind at 1, upd at 1. destruct G as [F W]. pose proof (W c Ew) as Hc.
  match goal with |- Good _ (bind (check c) _ ?x).2 => assert (G1 : Good given x) by (by split) end.
  apply check_good; [exact G1| |].
  - intros v w' G'. apply Good_then; [steps|done].
  - intros w' Eo G' Hs. destruct Hs as (ss & ks & Hs); [by rewrite Eo|]. by apply (send_chunk_good given c ss ks).
Qed.
#[local] Hint Resolve send_waiting_good : steps.

Lemma resolve_good given ss : steps (saves (Good given)) (resolve_inflight ss).
Proof.
  unfold resolve_inflight. apply steps_bind; [apply _|steps|]. intros s. destruct (inflight s) as [[[id rid] t]|]; [|steps].
  apply steps_bind; [apply _|apply saves_catch; steps|]. steps.
Qed.
#[local] Hint Resolve resolve_good : steps.

Lemma pump_good given : steps (saves (Good given)) pump.
Proof.
  unfold pump. apply steps_bind; [apply _|steps|]. intros s. destruct (session s) as [ss|]; [|steps].
  destruct (closed ss); [steps|]. apply steps_bind; [apply _|apply saves_catch; unfold view; steps|]. steps.
Qed.

Lemma Good_said given o (w : World) : (forall s, justified given (s, o)) -> Good given w -> Good given (w <| out := (obj w, o) :: out w |>).
Proof. intros H [F W]. split; [constructor; [apply H|done]|done]. Qed.

Lemma close_good given ss reason : steps (saves (Good given)) (close_session ss reason).
Proof.
  intros w G. destruct (close_session ss reason w) as [r w'] eqn:E. apply close_cases in E as (Eo & O & _). simpl.
  destruct G as [F W]. split; [|by rewrite Eo]. destruct O as [->| ->]; [done|by constructor].
Qed.
#[local] Hint Resolve close_good : steps.
Lemma cancel_good given reason : steps (saves (Good given)) (cancel reason).
Proof. unfold cancel. steps. Qed.
#[local] Hint Resolve cancel_good : steps.

Lemma session_new_good given : steps (saves (Good given)) (StreamSession_new ctx hold_s).
Proof.
  unfold StreamSession_new. destruct (_ <=f _); [steps|]. do 4 (apply steps_bind; [apply _|steps|intros ?]).
  intros w G. unfold bind at 1, lift. destruct (StreamOpen_new _); [|done]. unfold bind at 1, say.
  refine (Good_then given _ _ _ (Good_said given _ _ _ G)); [steps|done].
Qed.
#[local] Hint Resolve session_new_good : steps.

Lemma check_profile_good given : steps (saves (Good given)) check_profile.
Proof.
  unfold check_profile, read_profile. apply steps_bind; [apply _| |steps].
  destruct controller_extension; [|steps]. apply saves_catch; steps.
Qed.
#[local] Hint Resolve check_profile_good : steps.

Lemma serve_good (given : Chunk -> Prop) i : (forall c, i = Submit c -> given c) -> steps (saves (Good given)) (serve i).
Proof.
  intros H. destruct i; simpl.
  - unfold start. steps.
  - steps.
  - apply steps_bind; [apply _|by apply submit_good, H|steps].
  - apply pump_good.
Qed.

Lemma runs_good inputs (w : World) :
  Good (fun c => Submit c ∈ inputs) w -> Good (fun c => Submit c ∈ inputs) (fold_left step inputs w).
Proof.
  assert (H : forall l w, (forall c, Submit c ∈ l -> Submit c ∈ inputs) -> Good (fun c => Submit c ∈ inputs) w ->
    Good (fun c => Submit c ∈ inputs) (fold_left step l w)); [|by apply H].
  induction l as [|i l IH]; intros w' Hl G; [done|]. apply IH; [intros c Hc; apply Hl; by right|].
  apply (serve_good _ i); [|done]. intros c ->. apply Hl. by left.
Qed.

(** C24: whatever the calls and the supervisor's answers, a revision the client
    sends splices, from an anchor the supervisor gave, the knots of a chunk that
    was submitted; at that moment the session is open with no cancel pending,
    the chunk belongs to the current generation, its observation is not past the
    deadline on the supervisor's clock and not older than what the RT selected,
    and no other revision is in flight. *)
Theorem chunks_are_never_retroactive c0 inputs s rev (Hnew : new cfg = Ok c0)
    (Hrev : (s, Revises rev) ∈ out (fold_left step inputs {| obj := c0; out := []; asked := 0%nat |})) :
  exists c ss rid ks anchor, Submit c ∈ inputs /\ sendable s c ss ks /\ spliced ss rid ks (dt_s c) rev anchor.
Proof.
  assert (G : Good (fun c => Submit c ∈ inputs) (fold_left step inputs {| obj := c0; out := []; asked := 0%nat |})).
  { apply runs_good. split; [done|]. unfold new in Hnew. inv_chain Hnew. injection Hnew as <-. done. }
  destruct G as [F _]. rewrite Forall_forall in F. exact (F _ Hrev).
Qed.

(** ** A cancel is final *)

(** Nothing is in flight, nothing waits, and nothing can be sent. *)
Definition Idle (base : list (chunks * said)) (w : World) : Prop :=
  out w = base /\ inflight (obj w) = None /\ waiting (obj w) = None /\ (cancel_pending (obj w) = true \/ session (obj w) = None).

Lemma Idle_upd base f : (forall s, inflight s = None -> inflight (f s) = None) -> (forall s, waiting s = None -> waiting (f s) = None) ->
  (forall s, cancel_pending (f s) = cancel_pending s) -> (forall s, session s = None -> session (f s) = None) -> steps (saves (Idle base)) (upd f).
Proof. intros H1 H2 H3 H4 w (H & Hi & Hw & Hc). split_and!; simpl; auto. rewrite H3. destruct Hc; auto. Qed.
Lemma Idle_same base {A} (m : ChunkM A) : (forall w, obj (m w).2 = obj w /\ out (m w).2 = out w) -> steps (saves (Idle base)) m.
Proof. intros H w. unfold saves, Idle. by destruct (H w) as [-> ->]. Qed.
#[local] Hint Extern 1 (steps (saves (Idle _)) (upd _)) => apply Idle_upd; intros; simpl; auto : steps.
#[local] Hint Extern 1 (steps (saves (Idle _)) (reports _)) => apply Idle_upd; intros; simpl; auto : steps.
#[local] Hint Extern 1 (steps (saves (Idle _)) (asking _)) => apply Idle_same; done : steps.

Lemma check_idle base c (w : World) : Idle base w -> exists why, check c w = (Ok (Some (Late why)), w).
Proof.
  intros (_ & _ & _ & H). unfold check, bind, get. destruct (cancel_pending (obj w)); [by eexists|].
  destruct H as [?| ->]; [done|]. by eexists.
Qed.

Lemma submit_idle base c : steps (saves (Idle base)) (submit c).
Proof.
  intros w I. unfold submit, bind at 1. destruct (check_idle base c w I) as [why ->].
  refine (flows_steps (saves (Idle base)) _ w _ I). steps.
Qed.

(** The same while an unconfirmed cancel keeps the session *)
Definition Held (base : list (chunks * said)) (w : World) : Prop :=
  out w = base /\ inflight (obj w) = None /\ waiting (obj w) = None /\ cancel_pending (obj w) = true.
Lemma Held_upd base f : (forall s, inflight s = None -> inflight (f s) = None) -> (forall s, waiting s = None -> waiting (f s) = None) ->
  (forall s, cancel_pending (f s) = cancel_pending s) -> steps (saves (Held base)) (upd f).
Proof. intros H1 H2 H3 w (H & Hi & Hw & Hc). split_and!; simpl; auto. by rewrite H3. Qed.
Lemma Held_asking base {A} (f : Arm -> nat -> result A) : steps (saves (Held base)) (asking f).
Proof. intros w I. exact I. Qed.
#[local] Hint Extern 1 (steps (saves (Held _)) (upd _)) => apply Held_upd; intros; simpl; auto : steps.
#[local] Hint Extern 1 (steps (saves (Held _)) (reports _)) => apply Held_upd; intros; simpl; auto : steps.
#[local] Hint Extern 1 (steps (saves (Held _)) (asking _)) => apply Held_asking : steps.

Lemma resolve_held base ss : steps (saves (Held base)) (resolve_inflight ss).
Proof. intros w I. pose proof I as (_ & Hi & _). unfold resolve_inflight, bind, get. by rewrite Hi. Qed.
Lemma send_waiting_held base : steps (saves (Held base)) send_waiting.
Proof. intros w I. pose proof I as (_ & Hi & Hw & _). unfold send_waiting, bind, get. by rewrite Hi, Hw. Qed.
#[local] Hint Resolve resolve_held send_waiting_held : steps.
Lemma pump_held base : steps (saves (Held base)) pump.
Proof.
  unfold pump. apply steps_bind; [apply _|steps|]. intros s. destruct (session s) as [ss|]; [|steps].
  destruct (closed ss); [steps|]. apply steps_bind; [apply _|apply saves_catch; unfold view; steps|]. steps.
Qed.

Lemma pump_idle base : steps (saves (Idle base)) pump.
Proof.
  intros w I. pose proof I as (H & Hi & Hw & [Hc|Hs]).
  - destruct (pump_held base w) as (? & ? & ? & ?); [done|]. split_and!; auto.
  - unfold pump, bind, get. by rewrite Hs.
Qed.

Definition is_call (i : input) : bool := match i with Submit _ | Pump => true | _ => false end.

Lemma cancel_cases reason (w w' : World) b : cancel reason w = (Ok b, w') ->
  inflight (obj w') = None /\ waiting (obj w') = None /\ (cancel_pending (obj w') = true \/ session (obj w') = None) /\
  generation (obj w') = generation (obj w) + 1.
Proof.
  unfold cancel, bind at 1, upd at 1, bind at 1, get at 1. simpl. destruct (session (obj w)) as [ss|].
  - unfold bind at 1, bind at 1. destruct (close_session ss reason _) as [[[ss' ok]|e] w1] eqn:E; [|done].
    apply close_cases in E as (Eo & _). unfold bind at 1, upd at 1, ret at 1. simpl.
    destruct ok; intros [= <- <-]; simpl; rewrite Eo; simpl; auto.
  - intros [= <- <-]. simpl. auto.
Qed.

(** Once a cancel has returned, confirmed or not, no submitted chunk and no
    pump sends anything to the robot, whatever the chunks and the answers; only
    a start can. *)
Theorem cancel_is_final reason (w w' : World) b inputs (Hcancel : cancel reason w = (Ok b, w'))
    (Hcalls : forallb is_call inputs = true) :
  out (fold_left step inputs w') = out w' /\ inflight (obj (fold_left step inputs w')) = None.
Proof.
  apply cancel_cases in Hcancel as (Hi & Hw & Hc & _). assert (I : Idle (out w') w') by by split_and!.
  revert I. generalize (out w') as base. clear Hi Hw Hc. revert w'. induction inputs as [|i inputs IH]; intros w' base I.
  - destruct I as (? & ? & _). done.
  - simpl in Hcalls. apply andb_true_iff in Hcalls as [H1 H2]. simpl. apply IH; [done|].
    destruct i as [| |c|]; try done; unfold step; simpl.
    + pose proof (submit_idle base c w' I) as I'. unfold bind. by destruct (submit c w') as [[v|e] w1].
    + by apply pump_idle.
Qed.

(** ** The report *)

(** The revision in flight was requested. *)
Definition Honest (w : World) : Prop :=
  honest (report (obj w)) /\ forall id rid t, inflight (obj w) = Some (id, rid, t) -> id ∈ requested (report (obj w)).

Lemma Honest_upd f : (forall s, honest (report s) -> honest (report (f s))) ->
  (forall s, requested (report (f s)) = requested (report s)) -> (forall s, inflight (f s) = inflight s \/ inflight (f s) = None) ->
  steps (saves Honest) (upd f).
Proof.
  intros H1 H2 H3 w [Hh Hi]. split; simpl; [auto|]. intros id rid t E. rewrite H2. destruct (H3 (obj w)) as [E'|E']; rewrite E' in E; [eauto|done].
Qed.
Lemma Honest_same {A} (m : ChunkM A) : (forall w, obj (m w).2 = obj w) -> steps (saves Honest) m.
Proof. intros H w. unfold saves, Honest. by rewrite H. Qed.
#[local] Hint Resolve honest_note honest_refused honest_late : core.
#[local] Hint Extern 1 (steps (saves Honest) (upd _)) => apply Honest_upd; intros; simpl; auto : steps.
#[local] Hint Extern 1 (steps (saves Honest) (asking _)) => apply Honest_same; done : steps.
#[local] Hint Extern 1 (steps (saves Honest) (check _)) => apply Honest_same; intros w; destruct (check _ w) eqn:E; by apply check_cases in E as [? _] : steps.

Lemma reports_honest f : (forall r, honest r -> honest (f r)) -> (forall r, requested (f r) = requested r) -> steps (saves Honest) (reports f).
Proof. intros H1 H2. unfold reports. apply Honest_upd; simpl; auto. Qed.
#[local] Hint Extern 1 (steps (saves Honest) (reports _)) => apply reports_honest; [intros; auto|done] : steps.
Lemma file_honest v c : steps (saves Honest) (reports (file v c)).
Proof. apply reports_honest; destruct v; simpl; auto. Qed.
#[local] Hint Resolve file_honest : steps.

Lemma flies_honest c rid (w : World) : honest (report (obj w)) -> chunk_id c ∈ requested (report (obj w)) -> Honest (flies c rid w).2.
Proof. intros H Hr. split; simpl; [done|]. by intros id rid' t [= <- _ _]. Qed.

Lemma requested_here id r : id ∈ requested (note_requested id r).
Proof. simpl. apply elem_of_app. right. by apply list_elem_of_singleton. Qed.

(** The revision call leaves the report alone. *)
Lemma answer_report (w : World) (m : ChunkM RevisionStatus) c a w' :
  (forall w, report (obj (m w).2) = report (obj w) /\ inflight (obj (m w).2) = inflight (obj w)) ->
  catch c (st <~ m ;; ret (Ok st)) (fun e => ret (Err e)) w = (a, w') ->
  report (obj w') = report (obj w) /\ inflight (obj w') = inflight (obj w).
Proof.
  intros H. unfold catch, bind, ret. specialize (H w). destruct (m w) as [[st|e] w1]; simpl in *; [intros [= _ <-]; done|].
  destruct (c e); intros [= _ <-]; done.
Qed.

Definition revision_of (c : Chunk) (rid : string) (s : chunks) : ChunkM RevisionStatus :=
  match session s with
  | Some ss => ks <~ lift (knots c) ;; revise ctx ss rid ks (dt_s c)
  | None => throw (TypeError "'NoneType' object has no attribute 'revise'")
  end.
Lemma revision_of_report c rid s (w : World) :
  report (obj (revision_of c rid s w).2) = report (obj w) /\ inflight (obj (revision_of c rid s w).2) = inflight (obj w).
Proof.
  unfold revision_of. destruct (session s) as [ss|]; [|done]. unfold bind, lift. destruct (knots c); [|done].
  destruct (revise _ _ _ _ _ w) as [r w'] eqn:E. apply revise_cases in E as [[D|[f D]] _]; simpl; by rewrite D.
Qed.

Lemma send_honest c : steps (saves Honest) (send c).
Proof.
  intros w [Hh Hi]. unfold send, bind at 1.
  match goal with |- context [new_request_id ?p w] => destruct (new_request_id_cases p w) as (rid & f & ->) end.
  unfold bind at 1, get at 1.
  match goal with |- Honest (bind (catch ?k ?m ?h) _ ?x).2 => set (w1 := x); assert (E : forall w, catch k m h w = catch k (st <~ revision_of c rid (obj w1) ;; ret (Ok st)) h w) end.
  { intros x. unfold revision_of, w1. simpl. destruct (session (obj w)) as [ss|]; [|done]. unfold catch, bind, lift. destruct (knots c); [|done]. by destruct (revise _ _ _ _ _ x) as [[?|?] ?]. }
  unfold bind at 1. rewrite E. destruct (catch _ _ _ w1) as [[a|e] w2] eqn:Ec; apply answer_report in Ec as [R F]; try apply revision_of_report.
  2: { unfold Honest. simpl. rewrite R, F. split; [exact Hh|exact Hi]. }
  assert (H2 : honest (report (obj w2))) by (rewrite R; exact Hh).
  assert (I2 : forall id rid t, inflight (obj w2) = Some (id, rid, t) -> id ∈ requested (report (obj w2))) by (rewrite R, F; exact Hi).
  clear Hh Hi E R F. destruct a as [st|e].
  - unfold bind at 1, get, bind at 1, upd. simpl.
    set (r := note_outcome _ _ _). assert (Hr : honest r.1) by (apply honest_outcome; [by apply honest_requested|apply requested_here]).
    assert (Hq : requested r.1 = requested (note_requested (chunk_id c) (report (obj w2)))) by apply outcome_requested.
    destruct (bool_decide _).
    + split; simpl; [done|]. intros id rid' t Hid. rewrite Hq. simpl. apply elem_of_app. left. eauto.
    + apply flies_honest; simpl; [done|]. rewrite Hq. apply requested_here.
  - destruct (_ || _).
    + apply reports_honest; [auto|done|by split].
    + unfold bind, reports, upd. apply flies_honest; simpl; [|apply requested_here].
      apply honest_note, honest_unknown; [by apply honest_requested|apply requested_here].
Qed.
#[local] Hint Resolve send_honest : steps.

Lemma resolve_honest ss : steps (saves Honest) (resolve_inflight ss).
Proof.
  intros w [Hh Hi]. unfold resolve_inflight, bind at 1, get at 1. destruct (inflight (obj w)) as [[[id rid] t]|] eqn:Ei; [|split; simpl; [done|by rewrite Ei]].
  specialize (Hi id rid t eq_refl).
  match goal with |- Honest (bind ?m ?k w).2 => set (kont := k); assert (G : Honest (m w).2 /\ forall x, steps (saves Honest) (kont x)) end.
  { split.
    - unfold catch, asking, bind, ask, lift, get, upd, ret. simpl. destruct (arm_stream_revision (asked w)) as [st|e]; simpl.
      + split; simpl; [by apply honest_outcome|]. intros id' rid' t' E. rewrite outcome_requested. rewrite Ei in E. by injection E as <- _ _.
      + destruct (infrastructure e); [|split; simpl; [done|rewrite Ei; by intros ? ? ? [= <- _ _]]].
        assert (G : forall w', obj w' = obj w -> Honest (reports (fun r => mark_unknown id (note "revision status unavailable; fate unknown" r)) w').2).
        { intros w' Ew. split; simpl; rewrite Ew; [apply honest_unknown; [by apply honest_note|done]|]. rewrite Ei. by intros ? ? ? [= <- _ _]. }
        destruct e; try (by apply G); split; simpl; [done|rewrite Ei; by intros ? ? ? [= <- _ _]].
    - intros x. unfold kont. destruct x as [k|]; [|steps]. destruct (over k); simpl; steps. }
  destruct G as [G K]. unfold bind at 1. match goal with |- context [catch ?c ?m ?h w] => destruct (catch c m h w) as [[x|e] w1] end; [|exact G].
  by apply (K x).
Qed.
#[local] Hint Resolve resolve_honest : steps.

Lemma close_honest ss reason : steps (saves Honest) (close_session ss reason).
Proof. apply Honest_same. intros w. destruct (close_session ss reason w) eqn:E. by apply close_cases in E as [? _]. Qed.
Lemma session_new_honest : steps (saves Honest) (StreamSession_new ctx hold_s).
Proof.
  unfold StreamSession_new. destruct (_ <=f _); [steps|]. do 4 (apply steps_bind; [apply _|steps|intros ?]).
  apply steps_bind; [apply _|steps|]. intros o. apply steps_bind; [apply _|apply Honest_same; done|]. steps.
Qed.
#[local] Hint Resolve close_honest session_new_honest : steps.

Lemma serve_honest i : steps (saves Honest) (serve i).
Proof.
  destruct i; simpl.
  - unfold start, check_profile, read_profile, cancel. apply steps_bind; [apply _| |steps].
    apply steps_bind; [apply _|apply steps_bind; [apply _| |steps]|].
    + destruct controller_extension; [apply saves_catch; steps|steps].
    + steps. apply Honest_upd; simpl; auto. intros s []. by split.
  - unfold cancel. steps.
  - unfold submit. steps. apply reports_honest; [|done]. intros r []. by split.
  - unfold pump, view, send_waiting. apply steps_bind; [apply _|steps|]. intros s. destruct (session s) as [ss|]; [|steps].
    destruct (closed ss); [steps|]. apply steps_bind; [apply _|apply saves_catch; steps|]. steps.
    apply reports_honest; [|done]. intros r []. by split.
Qed.

(** A report claims in order of strength, each fact once: what is listed as
    selected is listed as admitted, and that (and what was ever unknown) as
    requested. *)
Theorem report_is_honest c0 inputs (Hnew : new cfg = Ok c0) :
  honest (report (obj (fold_left step inputs {| obj := c0; out := []; asked := 0%nat |}))).
Proof.
  assert (H : forall w, Honest w -> Honest (fold_left step inputs w)).
  { clear. induction inputs as [|i l IH]; intros w G; [done|]. by apply IH, serve_honest. }
  apply H. unfold new in Hnew. inv_chain Hnew. injection Hnew as <-. split; simpl; [|done].
  split; simpl; try apply NoDup_nil_2; try done. by intros x [?|?].
Qed.
End Safety.
