(* ===== verification/ChunksDemo.v ===== *)
(** The chunk client at work: runs at which the theorems of [ChunksSafety] are
    seen to apply, and two facts about what a report leaves out. *)
From Stdlib Require Import SpecFloat PrimFloat FloatOps.
From S2P Require Import Prelude Floats Motion Contract Stream Effects Clients Chunks ChunksSafety.

Open Scope Z_scope.

Definition half : float := Eval vm_compute in Prim2SF 0.5%float.
Definition at_ns (t : Z) : Stamp := mk_Stamp t PC "boot".
Definition one_joint : StreamContext := {| instance_id := "fr3_1"; joints := ["j1"]; model_token := "m"; scene_token := "s"; policy_id := "p" |}.
#[export] Instance demo_config : Config := {| ctx := one_joint; max_age_s := f1; hold_s := f1; run_spec := None |}.

Definition running (p : Phase) : StreamView := {|
  sv_execution := {| Contract.execution_id := "e1"; es_request_id := "open-1"; es_instance_id := "fr3_1"; phase := p; reached := ∅; reason := "" |};
  sv_model_token := "m"; sv_scene_token := "s"; sv_stream_policy_id := "p"; selected_reference_id := None; Stream.selected_revision := Some 1;
  selected_phase := None; protected_until := None; selected_end_phase := None; selected_terminal := None; pending_request_id := None;
  pending_revision := None; sv_splice := None |}.
Definition the_anchor : SpliceAnchor := {|
  anchor_id := "a1"; sa_expected_revision := 1; cut_phase := f1; sa_q := [f0]; sa_qd := [f0]; issued_at := at_ns 5; expires_at := at_ns 9 |}.
Definition answer (p : Phase) (sel : SelectionState) : RevisionStatus := {|
  rv_execution_id := "e1"; rv_request_id := "c1.1"; rv_expected_revision := Some 1; rv_revision := Some 2; rv_phase := p;
  rv_selection_state := sel; rv_at := at_ns 6; rv_reason := "" |}.

(** A robot that answers everything, admits revisions and then selects them, its clock at 10 ns;
    [anchors] is what the read of the splice anchor gives. *)
Definition robot (anchors : result SpliceAnchor) : Arm := {|
  controller_extension := false; arm_now k := Ok (at_ns 10); arm_state k := Ok [f0]; arm_authority k := Err KeyError;
  arm_controller_state k := Err KeyError; arm_open_stream k := Ok (running SENT); arm_stream_state k := Ok (running SENT);
  arm_stream_anchor k := anchors; arm_revise_stream k := Ok (answer ADMITTED SEL_PENDING);
  arm_stream_revision k := Ok (answer ADMITTED SEL_SELECTED); arm_cancel k := Ok tt; local_clock k := f0 |}.
#[export] Instance willing : Arm := robot (Ok the_anchor).

Definition chunk (id : string) (gen t : Z) : Chunk := {|
  chunk_id := id; c_joints := ["j1"]; values := [[half]; [f1]]; dt_s := half; observed_at := at_ns t; c_generation := gen; mode := "absolute";
  base_q := None; c_units := "rad" |}.

Definition client : chunks := match new demo_config with Ok s => s | Err _ => {|
  serials := counters0; generation := 0; session := None; report := Report_new; inflight := None; waiting := None; sent_obs_ns := 0;
  cancel_pending := false |} end.
Abbreviation run := (fun inputs => fold_left (step (arm:=willing)) inputs {| obj := client; out := []; asked := 0%nat |}).
Definition session_run : list input := [Start; Submit (chunk "c1" 2 5); Submit (chunk "c2" 2 7); Pump; Pump; Submit (chunk "c3" 2 6)].

(** The second chunk waits for the first, is sent when that was selected, and an
    older observation than the selected one is late. *)
Example session_run_report :
  let r := report (obj (run session_run)) in
  requested r = ["c1"; "c2"] /\ selected r = ["c1"; "c2"] /\ map fst (late r) = ["c3"] /\ refused r = [].
Proof. vm_compute. auto. Qed.

Lemma chunks_are_never_retroactive_witness : exists s rev c ss rid ks anchor,
  head (out (run session_run)) = Some (s, Revises rev) /\ Submit c ∈ session_run /\ sendable s c ss ks /\ spliced ss rid ks (dt_s c) rev anchor.
Proof.
  destruct (head (out (run session_run))) as [[s [| |]]|] eqn:E; try (exfalso; revert E; vm_compute; discriminate).
  pose proof (head_Some_elem_of _ _ E) as I.
  destruct (chunks_are_never_retroactive (cfg:=demo_config) (arm:=willing) client session_run s r eq_refl I) as (c & ss & rid & ks & anchor & H1 & H2 & H3).
  exists s, r, c, ss, rid, ks, anchor. auto.
Defined.

Definition cancelled_run : list input := [Start; Submit (chunk "c1" 2 5); Submit (chunk "c2" 2 7)].
Lemma cancel_is_final_witness : exists b w', cancel "stop" (run cancelled_run) = (Ok b, w') /\
  out (fold_left step [Submit (chunk "c4" 3 9); Pump] w') = out w'.
Proof.
  destruct (cancel "stop" (run cancelled_run)) as [[b|e] w'] eqn:E.
  - exists b, w'. split; [reflexivity|]. exact (proj1 (cancel_is_final "stop" _ w' b [Submit (chunk "c4" 3 9); Pump] E eq_refl)).
  - exfalso. apply (f_equal (fun x => is_ok x.1)) in E. revert E. vm_compute. discriminate.
Defined.

Lemma report_is_honest_witness : honest (report (obj (run session_run))) /\ selected (report (obj (run session_run))) = ["c1"; "c2"].
Proof. split; [exact (report_is_honest (cfg:=demo_config) (arm:=willing) client session_run eq_refl)|vm_compute; reflexivity]. Defined.

(** ** What a report leaves out *)

(** A chunk that the client accepted as waiting and a cancel drops is in no list. *)
Example waiting_chunk_vanishes :
  let r := report (obj (run (cancelled_run ++ [Cancel "stop"; Pump]))) in
  requested r = ["c1"] /\ (refused r, replaced r, late r) = ([], [], []).
Proof. vm_compute. auto. Qed.

(** A chunk whose anchor could not be read is listed as requested; no revision was sent. *)
Example requested_without_a_request :
  let w := fold_left (step (arm:=robot (Err (TimeoutError "")))) [Start; Submit (chunk "c1" 2 5)] {| obj := client; out := []; asked := 0%nat |} in
  requested (report (obj w)) = ["c1"] /\ existsb (fun x => match x.2 with Revises _ => true | _ => false end) (out w) = false.
Proof. vm_compute. auto. Qed.
