(* ===== verification/Deadman.v ===== *)
(** Deadman teleoperation over a stream ([clients/teleop.py]): the operator's
    setpoint moves the arm only while the deadman is held and fresh, one short
    step at a time; a lost deadman cancels the stream. *)
From Stdlib Require Import SpecFloat PrimFloat FloatOps.
From S2P Require Import Prelude Floats Motion Contract Stream Effects Clients.

(** The arguments of the constructor *)
Class Config := { ctx : StreamContext; timeout : float; speed : float; min_step : float; hold_s : float }.

Record teleop := {
  serials : counters;
  session : option Session;
  last_beat : option float;
  report : Report;
  pending : option (string * string);
}.
#[export] Instance eta_teleop : Eta teleop := fun s => {|
  serials := serials s; session := session s; last_beat := last_beat s; report := report s; pending := pending s |}.
#[export] Instance Client_teleop : Client teleop := {| counted := serials; count f s := s <| serials := f (serials s) |> |}.

Definition new (c : Config) : result teleop :=
  raise_if negb ((timeout >f f0) && (speed >f f0) && (min_step >f f0))
    of ValueError "deadman_timeout_s, max_speed_rad_s and min_step_s must be positive" ;;
  raise_if min_step >f timeout of ValueError "min_step_s cannot exceed the deadman timeout (a step would outlast it)" ;;
  Ok {| serials := counters0; session := None; last_beat := None; report := Report_new; pending := None |}.

Section Teleop.
Context {cfg : Config} {arm : Arm}.
Definition TeleopM : Type -> Type := M teleop said.
Abbreviation asking := (asking (S:=teleop)).
Definition reports (f : Report -> Report) : TeleopM unit := upd (fun s => s <| report := f (report s) |>).
Definition reading : TeleopM float := k <~ ask ;; ret (local_clock k).
Definition keep (ss : Session) : TeleopM unit := upd (fun s => s <| session := Some ss |>).

Definition start : TeleopM unit :=
  s <~ get ;;
  stopped <~ match session s with
             | None => ret true
             | Some ss => x <~ close_session ss "restart" ;; keep x.1 ;~ ret x.2
             end ;;
  if negb stopped then throw (NeedsOperator "previous stream not confirmed cancelled") else
  ss <~ StreamSession_new ctx hold_s ;;
  keep ss ;~
  t <~ reading ;;
  upd (fun s => s <| last_beat := Some t |> <| pending := None |>).

Definition heartbeat : TeleopM unit := t <~ reading ;; upd (fun s => s <| last_beat := Some t |>).

Definition expired : TeleopM bool :=
  s <~ get ;;
  match session s with
  | None => ret true
  | Some _ =>
      t <~ reading ;;
      match last_beat s with
      | Some beat => ret ((t -f beat) >f timeout)
      | None => throw (TypeError "unsupported operand type(s) for -: 'float' and 'NoneType'")
      end
  end.

(** [_settle]: whether the previous revision is still unresolved *)
Definition settle (ss : Session) : TeleopM bool :=
  s <~ get ;;
  match pending s with
  | None => ret false
  | Some (id, rid) =>
      k <~ catch infrastructure
        (st <~ asking (@arm_stream_revision) ;;
         s <~ get ;;
         let r := note_outcome id st (report s) in upd (fun s => s <| report := r.1 |>) ;~ ret (Some r.2))
        (fun e => if is_OSError e then ret None
                  else reports (fun r => note "revision status unavailable; fate unknown" (mark_unknown id r)) ;~ ret (Some is_ended)) ;;
      match k with
      | None => ret true
      | Some k => if over k then upd (fun s => s <| pending := None |>) ;~ ret false else ret true
      end
  end.

(** [_stop] *)
Definition stop (ss : Session) (reason verdict : string) : TeleopM string :=
  x <~ close_session ss reason ;;
  keep x.1 ;~
  if x.2 then reports (note reason) ;~ ret verdict
  else reports (note "STOP NOT CONFIRMED; will retry") ;~ ret "stop_failed".

(** One step toward the target, shortened to one timeout of travel *)
Definition step_to (q_now q_target : vec) : result (vec * float * bool) :=
  delta <-- bcast fsub q_target q_now ;;
  travel <-- vec_max (np_abs delta) ;;
  let dt := py_max (travel /f speed) min_step in
  if dt >f timeout then
    let c := speed *f timeout /f travel in
    goal <-- bcast fadd q_now (map (fun d => d *f c) delta) ;; Ok (goal, timeout, true)
  else
    goal <-- bcast fadd q_now delta ;; Ok (goal, dt, false).

Definition is_sdk_Refused (e : exn) : bool := match e with Refused _ => true | _ => false end.

(** The revision of a command: its status, or the exception with the request id if one was drawn *)
Inductive sent := Replied (rid : string) (st : RevisionStatus) | Failed (rid : option string) (e : exn).
Definition caught (e : exn) : bool := is_sdk_Refused e || is_ValueError e || infrastructure e.
Definition propose (ss : Session) (q_target : vec) : TeleopM sent :=
  q <~ catch caught (q_now <~ asking (@arm_state) ;; x <~ lift (step_to q_now q_target) ;; ret (Ok x)) (fun e => ret (Err e)) ;;
  match q with
  | Err e => ret (Failed None e)
  | Ok (goal, dt, limited) =>
      when limited (reports (note "target limited to one deadman timeout of travel")) ;~
      rid <~ new_request_id "teleop" ;;
      catch caught (st <~ revise ctx ss rid [goal] dt ;; ret (Replied rid st)) (fun e => ret (Failed (Some rid) e))
  end.

Definition record (x : sent) : TeleopM string :=
  match x with
  | Replied rid st =>
      s <~ get ;;
      let r := note_outcome rid st (note_requested rid (report s)) in
      upd (fun s => s <| report := r.1 |>) ;~
      if bool_decide (r.2 = is_refused) then ret "refused" else
      upd (fun s => s <| pending := Some (rid, rid) |>) ;~ ret "requested"
  | Failed rid e =>
      if is_sdk_Refused e || is_ValueError e then reports (note_refused (default "teleop" rid) (exn_text e)) ;~ ret "refused" else
      match rid with
      | None => reports (note_refused "teleop" (exn_text e)) ;~ ret "refused"
      | Some rid =>
          reports (fun r => note "no reply to the revision; fate unknown" (mark_unknown rid (note_requested rid r))) ;~
          upd (fun s => s <| pending := Some (rid, rid) |>) ;~ ret "unknown"
      end
  end.

Definition command (q_target : vec) (held : bool) : TeleopM string :=
  s <~ get ;;
  match session s with
  | None => ret "expired"
  | Some ss =>
      if closed ss then ret "expired" else
      if negb held then stop ss "deadman released" "released" else
      late <~ expired ;;
      if late then stop ss "deadman heartbeat expired" "expired" else
      heartbeat ;~
      over <~ catch infrastructure (v <~ view ss ;; ret (status_terminal (sv_execution v))) (fun _ => ret false) ;;
      if over then
        keep {| execution_id := execution_id ss; closed := true; last_error := last_error ss |} ;~
        reports (note "stream ended by the supervisor") ;~ ret "expired"
      else
        busy <~ settle ss ;;
        if busy then ret "busy" else
        x <~ propose ss q_target ;; record x
  end.

Definition tick : TeleopM (option string) :=
  s <~ get ;;
  match session s with
  | None => ret None
  | Some ss =>
      if closed ss then ret None else
      late <~ expired ;;
      if late then r <~ stop ss "deadman heartbeat expired" "expired" ;; ret (Some r) else ret None
  end.

(** ** What moves the arm *)

Abbreviation World := (world teleop said).
Definition is_revision (x : teleop * said) : bool := match x.2 with Revises _ => true | _ => false end.
(** A call that asks the robot for no motion *)
Abbreviation still := (says (S:=teleop) (O:=said) (fun x => is_revision x = false)).

Lemma still_said o : (forall s, is_revision (s, o) = false) -> steps still (say o).
Proof. intros H. by apply says_say. Qed.
#[local] Hint Extern 1 (steps still (say _)) => apply still_said; done : steps.
Lemma asking_still {A} (f : Arm -> nat -> result A) : steps still (asking f).
Proof. unfold Clients.asking. steps. Qed.
#[local] Hint Resolve asking_still : steps.
Lemma close_still ss reason : steps still (close_session ss reason).
Proof.
  intros w. destruct (close_session ss reason w) as [r w'] eqn:E. apply close_cases in E as (_ & [O|O] & _); simpl; unfold says; rewrite O.
  - by exists [].
  - eexists [_]. split; [done|]. by constructor.
Qed.
#[local] Hint Resolve close_still : steps.
Lemma stop_still ss reason v : steps still (stop ss reason v).
Proof. unfold stop, keep, reports. steps. Qed.
Lemma settle_still ss : steps still (settle ss).
Proof.
  unfold settle, reports. apply steps_bind; [apply _|steps|]. intros s. destruct (pending s) as [[id rid]|]; [|steps].
  apply steps_bind; [apply _|apply says_catch; steps|]. steps.
Qed.
Lemma expired_still : steps still expired.
Proof. unfold expired, reading. steps. Qed.
Lemma record_still x : steps still (record x).
Proof. unfold record, reports. steps. Qed.
#[local] Hint Resolve stop_still settle_still expired_still record_still : steps.
Lemma tick_still : steps still tick.
Proof. unfold tick. steps. Qed.

(** What a step of at most one timeout is *)
Lemma step_to_bound q_now q_target goal dt limited : isnan timeout = false -> step_to q_now q_target = Ok (goal, dt, limited) -> (dt >f timeout) = false.
Proof.
  intros Ht. unfold step_to. destruct (bcast fsub _ _) as [delta|]; simpl; [|done]. destruct (vec_max _) as [travel|]; simpl; [|done].
  destruct (_ >f timeout) eqn:E; destruct (bcast fadd _ _); simpl; intros [= <- <- <-]; [|done].
  destruct (fltb timeout timeout) eqn:F; [|done]. exfalso. clear - F. apply fltb_spec in F as (a & b & Ha & Hb & H).
  rewrite Ha in Hb. injection Hb as <-. unfold klt in H. lia.
Qed.

(** A revision that a held, fresh deadman allows to [ss], whose last heartbeat was [beat] *)
Record allowed (ss : Session) (beat : float) (s : teleop) (rev : StreamRevision) : Prop := {
  al_fresh : exists k, ((local_clock k -f beat) >f timeout) = false;
  al_alone : pending s = None;
  al_step : exists goal dt rid anchor, (dt >f timeout) = false /\ spliced ss rid [goal] dt rev anchor;
}.
Definition lawful (ss : Session) (beat : float) (x : teleop * said) : Prop :=
  match x.2 with Revises rev => allowed ss beat x.1 rev | _ => True end.

Lemma says_weaken (P Q : teleop * said -> Prop) {A} (m : TeleopM A) : (forall x, P x -> Q x) -> steps (says P) m -> steps (says Q) m.
Proof. intros H Hm w. destruct (Hm w) as (new & E & F). exists new. split; [done|]. by eapply Forall_impl. Qed.
Lemma lawful_still ss beat {A} (m : TeleopM A) : steps still m -> steps (says (lawful ss beat)) m.
Proof. apply says_weaken. intros [s []]; simpl; unfold lawful; simpl; done. Qed.

Lemma settle_done ss (w w' : World) : settle ss w = (Ok false, w') -> pending (obj w') = None.
Proof.
  unfold settle, bind at 1, get at 1. destruct (pending (obj w)) as [[id rid]|] eqn:E; [|by intros [= <-]].
  intros H. apply bind_ok in H as (k & w1 & _ & H). destruct k as [k|]; [|done]. destruct (over k); [|done]. by injection H as <-.
Qed.

Lemma propose_lawful ss beat q (w : World) : isnan timeout = false -> (exists k, ((local_clock k -f beat) >f timeout) = false) ->
  pending (obj w) = None -> flows (says (lawful ss beat)) (propose ss q) w.
Proof.
  intros Ht Hk Hp. unfold propose. apply flows_bind; [apply _| |].
  { apply flows_steps, lawful_still, says_catch; steps. }
  intros x w1 E1.
  assert (P1 : pending (obj w1) = None /\ (forall goal dt limited, x = Ok (goal, dt, limited) -> (dt >f timeout) = false)).
  { revert E1. unfold catch, Clients.asking, bind, ask, lift, ret. simpl.
    destruct (arm_state (asked w)) as [q_now|e]; simpl; [destruct (step_to q_now q) as [[[goal dt] limited]|e] eqn:Es; simpl|];
      try (destruct (caught _)); try done; intros [= <- <-]; (split; [exact Hp|]); try done.
    intros ? ? ? [= -> -> ->]. by eapply step_to_bound. }
  destruct P1 as [P1 D]. destruct x as [[[goal dt] limited]|e]; [|apply flows_steps; steps]. specialize (D _ _ _ eq_refl).
  apply flows_bind; [apply _|apply flows_steps, lawful_still; unfold reports; steps|]. intros [] w2 E2.
  assert (P2 : pending (obj w2) = None) by (destruct limited; by injection E2 as <-).
  apply flows_bind; [apply _|apply flows_steps; unfold new_request_id; steps|]. intros rid w3 E3.
  assert (P3 : pending (obj w3) = None) by by injection E3 as _ <-.
  unfold flows, says. unfold catch, bind, ret. destruct (revise ctx ss rid [goal] dt w3) as [r w4] eqn:Er.
  apply revise_cases in Er as [Dr Or]. assert (P4 : pending (obj w4) = None) by (destruct Dr as [->|[f ->]]; exact P3).
  assert (G : exists new, out w4 = new ++ out w3 /\ Forall (lawful ss beat) new).
  { destruct Or as [->|(rev & anchor & -> & Hs)]; [by exists []|]. eexists [_]. split; [done|]. constructor; [|done].
    split; [exact Hk|exact P4|by exists goal, dt, rid, anchor]. }
  destruct r as [st|e]; simpl; [exact G|]. by destruct (caught e).
Qed.

(** A command sends at most what a held deadman allows: any revision among
    the outputs of the call was sent with the button held, to the open session,
    with a heartbeat no older than the timeout by a reading of the clock, with
    no revision unresolved, and it commits one step that lasts no longer than
    the timeout.  The periodic [tick] sends none. *)
Theorem moves_only_while_held q held (w w' : World) r (Ht : isnan timeout = false) (Hcommand : command q held w = (r, w')) :
  exists new, out w' = new ++ out w /\ forall s rev, (s, Revises rev) ∈ new ->
    held = true /\ exists ss beat, session (obj w) = Some ss /\ closed ss = false /\ last_beat (obj w) = Some beat /\ allowed ss beat s rev.
Proof.
  assert (S : (exists new, out w' = new ++ out w /\ Forall (fun x => is_revision x = false) new) ->
    exists new, out w' = new ++ out w /\ forall s rev, (s, Revises rev) ∈ new ->
      held = true /\ exists ss beat, session (obj w) = Some ss /\ closed ss = false /\ last_beat (obj w) = Some beat /\ allowed ss beat s rev).
  { intros (new & O & F). exists new. split; [done|]. intros s rev Hin. rewrite Forall_forall in F. by specialize (F _ Hin). }
  unfold command, bind at 1, get at 1 in Hcommand. destruct (session (obj w)) as [ss|] eqn:Es; [|injection Hcommand as _ <-; apply S; by exists []].
  destruct (closed ss) eqn:Ec; [injection Hcommand as _ <-; apply S; by exists []|].
  destruct held; simpl in Hcommand.
  2: { apply S. pose proof (stop_still ss "deadman released" "released" w) as H. by rewrite Hcommand in H. }
  unfold bind at 1, expired, bind at 1, get in Hcommand. rewrite Es in Hcommand. unfold reading, bind at 1, bind at 1, ask, ret in Hcommand. simpl in Hcommand.
  destruct (last_beat (obj w)) as [beat|] eqn:Eb; [|injection Hcommand as _ <-; apply S; by exists []].
  destruct (_ >f timeout) eqn:El.
  { apply S. match type of Hcommand with stop _ _ _ ?x = _ => pose proof (stop_still ss "deadman heartbeat expired" "expired" x) as H end.
    by rewrite Hcommand in H. }
  match type of Hcommand with ?m ?x = _ => assert (F : flows (says (lawful ss beat)) m x) end.
  - apply flows_bind; [apply _|apply flows_steps, lawful_still; unfold heartbeat, reading; steps|]. intros [] w1 _.
    apply flows_bind; [apply _|apply flows_steps, lawful_still, says_catch; unfold view; steps|]. intros over w2 _.
    destruct over; [apply flows_steps, lawful_still; unfold keep, reports; steps|].
    apply flows_bind; [apply _|apply flows_steps, lawful_still; steps|]. intros busy w3 E3.
    destruct busy; [apply flows_steps; steps|]. apply settle_done in E3.
    apply flows_bind; [apply _|apply propose_lawful; [done|by eexists|done]|]. intros x w4 _. apply flows_steps, lawful_still. steps.
  - unfold flows in F. rewrite Hcommand in F. destruct F as (new & O & F). exists new. split; [exact O|].
    intros s rev Hin. split; [done|]. exists ss, beat. rewrite Forall_forall in F. specialize (F _ Hin). done.
Qed.

(** A lost deadman stops the stream: when the button is up, or the heartbeat
    is past the timeout at every reading, the call asks for the cancel of the
    stream and for no motion; it reports [stop_failed] exactly when the session
    stays open (to be retried), and otherwise the session is closed. *)
Theorem lost_deadman_stops q held (w w' : World) r ss beat
    (Hopen : session (obj w) = Some ss /\ closed ss = false) (Hbeat : last_beat (obj w) = Some beat)
    (Hlost : held = false \/ forall k, ((local_clock k -f beat) >f timeout) = true) (Hcommand : command q held w = (Ok r, w')) :
  (exists s reason, out w' = (s, Cancels (execution_id ss) reason) :: out w) /\
  exists ss', session (obj w') = Some ss' /\ (closed ss' = false <-> r = "stop_failed"%string).
Proof.
  destruct Hopen as [Es Ec]. unfold command, bind at 1, get at 1 in Hcommand. rewrite Es, Ec in Hcommand.
  assert (St : forall reason v w1, out w1 = out w -> v <> "stop_failed"%string -> stop ss reason v w1 = (Ok r, w') ->
    (exists s reason, out w' = (s, Cancels (execution_id ss) reason) :: out w) /\
    exists ss', session (obj w') = Some ss' /\ (closed ss' = false <-> r = "stop_failed"%string)).
  { intros reason v w1 O1 Nv H. unfold stop in H. apply bind_ok in H as ([ss' b] & w2 & E & H).
    assert (O2 : out w2 = (obj w1, Cancels (execution_id ss) reason) :: out w1).
    { revert E. unfold close_session. rewrite Ec. unfold bind at 1, say, catch, Clients.asking, bind, ask, lift, ret. simpl.
      destruct (arm_cancel _); simpl; [by intros [= _ _ <-]|]. destruct (infrastructure e); [by intros [= _ _ <-]|done]. }
    apply close_cases in E as (_ & _ & Ht & Hf). unfold bind, keep, reports, upd, ret in H. simpl in H.
    destruct b; injection H as <- <-; simpl; rewrite O2, O1; (split; [by eexists _, _|]); exists ss'; (split; [done|]).
    - rewrite (Ht ss' eq_refl). by split.
    - rewrite (Hf ss' eq_refl). by split. }
  destruct held; simpl in Hcommand; [|by apply (St "deadman released"%string "released"%string w)].
  destruct Hlost as [?|Hl]; [done|]. unfold bind at 1, expired, bind at 1, get in Hcommand. rewrite Es, Hbeat in Hcommand.
  unfold reading, bind at 1, bind at 1, ask, ret in Hcommand. simpl in Hcommand. rewrite Hl in Hcommand. eapply (St _ _ _); [| |exact Hcommand]; done.
Qed.
End Teleop.

(** ** A held button, and a lost one *)

Module DeadmanDemo.
Definition half : float := Eval vm_compute in Prim2SF 0.5%float.
Definition quarter : float := Eval vm_compute in Prim2SF 0.25%float.
#[export] Instance demo_config : Config := {|
  ctx := {| instance_id := "fr3_1"; joints := ["j1"]; model_token := "m"; scene_token := "s"; policy_id := "p" |};
  timeout := half; speed := f1; min_step := quarter; hold_s := f1 |}.
Definition at_ns (t : Z) : Stamp := mk_Stamp t PC "boot".
Definition running : StreamView := {|
  sv_execution := {| Contract.execution_id := "e1"; es_request_id := "open-1"; es_instance_id := "fr3_1"; phase := SENT; reached := ∅; reason := "" |};
  sv_model_token := "m"; sv_scene_token := "s"; sv_stream_policy_id := "p"; selected_reference_id := None; Stream.selected_revision := None;
  selected_phase := None; protected_until := None; selected_end_phase := None; selected_terminal := None; pending_request_id := None;
  pending_revision := None; sv_splice := None |}.
Definition status (sel : SelectionState) : RevisionStatus := {|
  rv_execution_id := "e1"; rv_request_id := "teleop.1"; rv_expected_revision := Some 1%Z; rv_revision := Some 2%Z; rv_phase := ADMITTED;
  rv_selection_state := sel; rv_at := at_ns 6; rv_reason := "" |}.
(** A willing robot; the clock stands until question [late], then is a second further. *)
Definition robot (late : nat) : Arm := {|
  controller_extension := false; arm_now k := Ok (at_ns 10); arm_state k := Ok [f0]; arm_authority k := Err KeyError;
  arm_controller_state k := Err KeyError; arm_open_stream k := Ok running; arm_stream_state k := Ok running;
  arm_stream_anchor k := Ok {| anchor_id := "a1"; sa_expected_revision := 1; cut_phase := f1; sa_q := [f0]; sa_qd := [f0];
                               issued_at := at_ns 5; expires_at := at_ns 9 |};
  arm_revise_stream k := Ok (status SEL_PENDING); arm_stream_revision k := Ok (status SEL_SELECTED); arm_cancel k := Ok tt;
  local_clock k := if (k <? late)%nat then f0 else f1 |}.
Definition operator : teleop := {| serials := counters0; session := None; last_beat := None; report := Report_new; pending := None |}.
Abbreviation started a := (start (arm:=a) {| obj := operator; out := []; asked := 0%nat |}).2.

Example new_operator : new demo_config = Ok operator.
Proof. reflexivity. Qed.

(** A target one radian away is shortened to half a second of travel. *)
Lemma moves_only_while_held_witness : exists w' s rev,
  command (arm:=robot 99) [f1] true (started (robot 99)) = (Ok "requested"%string, w') /\ head (out w') = Some (s, Revises rev) /\
  positions (suffix rev) = [[f0]; [half]] /\
  exists ss beat, session (obj (started (robot 99))) = Some ss /\ last_beat (obj (started (robot 99))) = Some beat /\
    allowed (arm:=robot 99) ss beat s rev.
Proof.
  destruct (command (arm:=robot 99) [f1] true (started (robot 99))) as [r w'] eqn:E.
  assert (X : match (command (arm:=robot 99) [f1] true (started (robot 99))) with
    | (Ok v, w1) => match head (out w1) with Some (_, Revises rev) => v = "requested"%string /\ positions (suffix rev) = [[f0]; [half]] | _ => False end
    | _ => False end) by (vm_compute; auto).
  rewrite E in X. destruct r as [v|e]; [|destruct X]. destruct (head (out w')) as [[s []]|] eqn:Eh; try destruct X as [].
  exists w', s, r. subst v. split; [reflexivity|]. split; [exact Eh|]. split; [assumption|].
  destruct (moves_only_while_held (cfg:=demo_config) (arm:=robot 99) [f1] true _ w' _ eq_refl E) as (new & O & H).
  rewrite O in Eh. destruct new as [|x new].
  - exfalso. revert Eh. vm_compute. discriminate.
  - simpl in Eh. injection Eh as ->. destruct (H s r) as [_ (ss & beat & H1 & _ & H2 & H3)]; [by left|]. exists ss, beat. auto.
Defined.

Lemma lost_deadman_stops_witness : exists w' r ss',
  command (arm:=robot 99) [f1] false (started (robot 99)) = (Ok r, w') /\ r = "released"%string /\
  session (obj w') = Some ss' /\ (closed ss' = false <-> r = "stop_failed"%string).
Proof.
  destruct (command (arm:=robot 99) [f1] false (started (robot 99))) as [[r|e] w'] eqn:E.
  - assert (S : session (obj (started (robot 99))) = Some {| execution_id := "e1"; closed := false; last_error := None |}) by (vm_compute; reflexivity).
    assert (B : last_beat (obj (started (robot 99))) = Some f0) by (vm_compute; reflexivity).
    destruct (lost_deadman_stops (cfg:=demo_config) (arm:=robot 99) [f1] false (started (robot 99)) w' r {| execution_id := "e1"; closed := false; last_error := None |} f0
      (conj S eq_refl) B (or_introl eq_refl) E) as [_ (ss' & H1 & H2)].
    exists w', r, ss'. split; [reflexivity|]. split; [|auto]. apply (f_equal fst) in E. revert E. vm_compute. congruence.
  - exfalso. apply (f_equal (fun x => is_ok x.1)) in E. revert E. vm_compute. discriminate.
Defined.
End DeadmanDemo.
