(* ===== verification/StepWindow.v ===== *)
(** The step-window client ([clients/rl.py]) and the reviewed-trajectory client
    ([clients/planner.py]): a step proposes one target, waits out its window and
    reports what the RT did with it. *)
From Stdlib Require Import SpecFloat PrimFloat FloatOps.
From S2P Require Import Prelude Floats Motion Contract Stream Effects Clients.

(** The arguments of the constructor, and what the caller's callbacks and clock
    answer: [rounds] is how often the clock lets the loop of a step go round. *)
Class Config := { ctx : StreamContext; hold_s : float; intervenes : nat -> bool; rounds : nat -> nat }.

Record window := { serials : counters; session : option Session; report : Report; rid_ : option string; sent_ : bool }.
#[export] Instance eta_window : Eta window := fun s => {|
  serials := serials s; session := session s; report := report s; rid_ := rid_ s; sent_ := sent_ s |}.
#[export] Instance Client_window : Client window := {| counted := serials; count f s := s <| serials := f (serials s) |> |}.
Definition new : window := {| serials := counters0; session := None; report := Report_new; rid_ := None; sent_ := false |}.

Inductive outcome := Completed | Intervention | Refused_ | NotSelected | Expired_ | Faulted_ | Unknown_.
#[export] Instance outcome_eq_dec : EqDecision outcome.
Proof. solve_decision. Defined.

Record StepResult := {
  elapsed_s : float; sr_outcome : outcome; terminated : bool; truncated : bool; sr_selected : option Z; sr_reason : string }.

Section Window.
Context {cfg : Config} {arm : Arm}.
Definition WindowM : Type -> Type := M window said.
Abbreviation asking := (asking (S:=window)).
Definition reports (f : Report -> Report) : WindowM unit := upd (fun s => s <| report := f (report s) |>).
Definition reading : WindowM float := k <~ ask ;; ret (local_clock k).
Definition keep (ss : Session) : WindowM unit := upd (fun s => s <| session := Some ss |>).
Definition shut (ss : Session) : Session := {| execution_id := execution_id ss; closed := true; last_error := last_error ss |}.

Definition reset : WindowM Report :=
  a <~ asking (@arm_authority) ;;
  if negb (bool_decide (lifecycle a = ARMED)) || is_some (fault a) then throw (NeedsOperator "re-arm/recovery is an operator action") else
  s <~ get ;;
  stopped <~ match session s with
             | None => ret true
             | Some ss => x <~ close_session ss "episode reset" ;; keep x.1 ;~ ret x.2
             end ;;
  if negb stopped then throw (NeedsOperator "previous episode stream not confirmed cancelled") else
  ss <~ StreamSession_new ctx hold_s ;;
  keep ss ;~ s <~ get ;; ret (report s).

Definition result_of (began : float) (o : outcome) (reason : string) (selected : option Z) : WindowM StepResult :=
  t <~ reading ;;
  ret {| elapsed_s := t -f began; sr_outcome := o; terminated := false;
         truncated := negb (bool_decide (o = Completed) || bool_decide (o = Intervention)); sr_selected := selected; sr_reason := reason |}.

(** [note_outcome] on the client's report *)
Definition noting (rid : string) (st : RevisionStatus) : WindowM kind :=
  s <~ get ;; let r := note_outcome rid st (report s) in upd (fun s => s <| report := r.1 |>) ;~ ret r.2.

Definition ending (p : Phase) : outcome := if bool_decide (p = FAULTED) then Faulted_ else Expired_.

(** The loop of the window: an outcome with its reason, or [None] when the window is over *)
Fixpoint watch (n : nat) (ss : Session) (rid : string) (st : RevisionStatus) (k : kind) : WindowM (option (outcome * string)) :=
  match n with
  | O => ret None
  | S n =>
      match k with
      | is_refused => ret (Some (Refused_, rv_reason st))
      | is_ended => ret (Some (NotSelected, rv_reason st))
      | _ =>
          i <~ ask ;;
          if intervenes i then ret (Some (Intervention, ""%string)) else
          v <~ view ss ;;
          if status_terminal (sv_execution v) then
            keep (shut ss) ;~ ret (Some (ending (phase (sv_execution v)), Contract.reason (sv_execution v)))
          else
            x <~ catch infrastructure (st <~ asking (@arm_stream_revision) ;; k <~ noting rid st ;; ret (st, k)) (fun _ => ret (st, k)) ;;
            watch n ss rid x.1 x.2
      end
  end.

(** The last look, when the window is over *)
Definition verdict_of (rid : string) : WindowM (outcome * string) :=
  st <~ asking (@arm_stream_revision) ;;
  k <~ noting rid st ;;
  ret (match k with is_selected => Completed | is_refused => Refused_ | _ => NotSelected end, rv_reason st).

Definition is_sdk_Refused (e : exn) : bool := match e with Refused _ => true | _ => false end.

(** [_step] *)
Definition step_inner (ss : Session) (q_target : vec) (window_s : float) : WindowM StepResult :=
  rid <~ new_request_id "step" ;;
  upd (fun s => s <| rid_ := Some rid |>) ;~
  began <~ reading ;;
  v <~ view ss ;;
  if status_terminal (sv_execution v) then
    keep (shut ss) ;~ result_of began (ending (phase (sv_execution v))) (Contract.reason (sv_execution v)) None
  else
    upd (fun s => s <| sent_ := true |>) ;~
    answer <~ catch is_sdk_Refused (st <~ revise ctx ss rid [q_target] window_s ;; ret (Ok st)) (fun e => ret (Err e)) ;;
    match answer with
    | Err e =>
        upd (fun s => s <| sent_ := false |>) ;~ reports (note_refused rid (exn_text e)) ;~ result_of began Refused_ (exn_text e) None
    | Ok st =>
        reports (note_requested rid) ;~
        k <~ noting rid st ;;
        n <~ ask ;;
        o <~ watch (rounds n) ss rid st k ;;
        o <~ match o with Some o => ret o | None => verdict_of rid end ;;
        s <~ get ;;
        selected <~ match session s with
                    | Some ss => if closed ss then ret None else v <~ view ss ;; ret (Stream.selected_revision v)
                    | None => ret None
                    end ;;
        result_of began o.1 o.2 selected
    end.

Definition step (q_target : vec) (window_s : float) : WindowM StepResult :=
  s <~ get ;;
  match session s with
  | None => throw (NeedsOperator "no open episode stream: call reset()")
  | Some ss =>
      if closed ss then throw (NeedsOperator "no open episode stream: call reset()") else
      began <~ reading ;;
      upd (fun s => s <| rid_ := None |> <| sent_ := false |>) ;~
      catch infrastructure (step_inner ss q_target window_s)
        (fun e =>
           reports (note "step aborted") ;~
           s <~ get ;;
           if sent_ s then reports (mark_unknown (default "" (rid_ s))) ;~ result_of began Unknown_ "" None
           else result_of began Refused_ "" None)
  end.

(** ** What a result means *)

Abbreviation World := (world window said).

(** The supervisor said of the revision [rid] that the RT selected it. *)
Definition told_selected : Prop := exists j st, arm_stream_revision j = Ok st /\ classify st = is_selected.

(** Which claims an outcome makes of the report *)
Definition claims (rid : string) (w' : World) (o : outcome) : Prop :=
  match o with
  | Completed => told_selected /\ rid ∈ selected (report (obj w'))
  | Unknown_ => rid ∈ unknown (report (obj w'))
  | _ => True
  end.

Lemma noting_cases rid st (w w' : World) k : noting rid st w = (Ok k, w') ->
  k = classify st /\ (k = is_selected -> rid ∈ selected (report (obj w'))) /\ session (obj w') = session (obj w) /\ out w' = out w /\ rid_ (obj w') = rid_ (obj w).
Proof.
  unfold noting, bind, get, upd, ret. intros [= <- <-]. simpl. split_and!; try done.
  - unfold note_outcome. destruct (classify st); [destruct (existsb _ _)| |destruct (existsb _ _)| |]; done.
  - unfold note_outcome. destruct (classify st); [destruct (existsb _ _)| |destruct (existsb _ _)| |]; simpl; try done.
    intros _. apply elem_of_once. by right.
Qed.

Lemma verdict_cases rid (w w' : World) o : verdict_of rid w = (Ok o, w') -> claims rid w' o.1.
Proof.
  unfold verdict_of, Clients.asking. intros H. apply bind_ok in H as (st & w1 & E & H). apply bind_ok in H as (k & w2 & E2 & H).
  apply noting_cases in E2 as (-> & Hs & _). injection H as <- <-. simpl. destruct (classify st) eqn:Ek; simpl; try done.
  split; [|auto]. apply bind_ok in E as (j & w3 & Ej & E). injection Ej as <- <-. unfold lift in E. injection E as E _. by exists (asked w), st.
Qed.

Lemma watch_cases n ss rid st k (w w' : World) o : watch n ss rid st k w = (Ok (Some o), w') -> o.1 <> Completed /\ o.1 <> Unknown_.
Proof.
  revert st k w. induction n as [|n IH]; intros st k w; simpl; [done|].
  assert (G : (i <~ ask ;;
          if intervenes i then ret (Some (Intervention, ""%string)) else
          v <~ view ss ;;
          if status_terminal (sv_execution v) then
            keep (shut ss) ;~ ret (Some (ending (phase (sv_execution v)), Contract.reason (sv_execution v)))
          else
            x <~ catch infrastructure (st <~ asking (@arm_stream_revision) ;; k <~ noting rid st ;; ret (st, k)) (fun _ => ret (st, k)) ;;
            watch n ss rid x.1 x.2) w = (Ok (Some o), w') -> o.1 <> Completed /\ o.1 <> Unknown_).
  { intros H. apply bind_ok in H as (i & w1 & _ & H). destruct (intervenes i); [by injection H as <- _|].
    apply bind_ok in H as (v & w2 & _ & H). destruct (status_terminal _).
    - apply bind_ok in H as (? & w3 & _ & H). injection H as <- _. simpl. unfold ending. by destruct (bool_decide _).
    - apply bind_ok in H as (x & w3 & _ & H). by apply IH in H. }
  destruct k; try exact G; by intros [= <- _].
Qed.

Lemma result_cases began o reason sel (w w' : World) res : result_of began o reason sel w = (Ok res, w') ->
  obj w' = obj w /\ out w' = out w /\ sr_outcome res = o /\ terminated res = false /\
  (truncated res = true <-> o <> Completed /\ o <> Intervention).
Proof.
  unfold result_of, reading, bind, ask, ret. intros [= <- <-]. simpl. split_and!; try done. destruct o; simpl; naive_solver.
Qed.

Lemma bind_cases_eq {A B} (m : WindowM A) (k : A -> WindowM B) w r w' : bind m k w = (r, w') ->
  (exists a w1, m w = (Ok a, w1) /\ k a w1 = (r, w')) \/ (exists e, m w = (Err e, w') /\ r = Err e).
Proof. unfold bind. destruct (m w) as [[a|e] w1]; [eauto|]. intros [= <- <-]. eauto. Qed.

(** The request id of the step is kept, and the report by what only asks. *)
Abbreviation keeps_rid := (steps (kept (O:=said) rid_)).
Lemma asking_kept {A B} (g : window -> B) (f : Arm -> nat -> result A) : steps (kept g) (asking f).
Proof. unfold Clients.asking. steps. Qed.
#[local] Hint Resolve asking_kept : steps.
Lemma revise_rid ss rid ks dt : keeps_rid (revise ctx ss rid ks dt).
Proof.
  intros w. destruct (revise ctx ss rid ks dt w) as [r w'] eqn:E. apply revise_cases in E as [[D|[f D]] _]; unfold kept; simpl; by rewrite D.
Qed.
Lemma noting_rid rid st : keeps_rid (noting rid st).
Proof. unfold noting. steps. Qed.
#[local] Hint Resolve revise_rid noting_rid : steps.
Lemma kept_catch {A B} (g : window -> B) c (m : WindowM A) h :
  steps (kept g) m -> (forall e, steps (kept g) (h e)) -> steps (kept g) (catch c m h).
Proof. intros Hm Hh. apply (steps_catch (kept g)); [exact Hm|exact Hh]. Qed.
Lemma watch_rid n ss rid st k : keeps_rid (watch n ss rid st k).
Proof.
  revert st k. induction n as [|n IH]; intros st k; simpl; [steps|].
  assert (H : keeps_rid (x <~ catch infrastructure (st <~ asking (@arm_stream_revision) ;; k <~ noting rid st ;; ret (st, k)) (fun _ => ret (st, k)) ;;
            watch n ss rid x.1 x.2)).
  { apply steps_bind; [apply _|apply kept_catch; steps|intros; apply IH]. }
  unfold view, keep. steps. all: apply kept_catch; steps.
Qed.
Lemma verdict_rid rid : keeps_rid (verdict_of rid).
Proof. unfold verdict_of. steps. Qed.
#[local] Hint Resolve watch_rid verdict_rid : steps.

Lemma inner_cases ss q_target window_s (w w' : World) res : step_inner ss q_target window_s w = (Ok res, w') ->
  terminated res = false /\ (truncated res = true <-> sr_outcome res <> Completed /\ sr_outcome res <> Intervention) /\
  sr_outcome res <> Unknown_ /\ exists rid, rid_ (obj w') = Some rid /\ claims rid w' (sr_outcome res).
Proof.
  unfold step_inner. intros H. apply bind_ok in H as (rid & w1 & _ & H). apply bind_ok in H as ([] & w2 & E2 & H).
  assert (R2 : rid_ (obj w2) = Some rid) by by injection E2 as <-.
  apply bind_ok in H as (began & w3 & E3 & H). assert (R3 : rid_ (obj w3) = Some rid) by by injection E3 as _ <-.
  apply bind_ok in H as (v & w4 & E4 & H). assert (R4 : rid_ (obj w4) = Some rid) by (rewrite <- R3; eapply kept_eq, E4; unfold view; steps).
  destruct (status_terminal _).
  { apply bind_ok in H as ([] & w5 & E5 & H). assert (R5 : rid_ (obj w5) = Some rid) by by injection E5 as <-.
    apply result_cases in H as (Eo & _ & Ho & Ht & Htr). rewrite Ho in *. unfold ending in *. destruct (bool_decide _); (split_and!; [done|done|done|exists rid; split; [congruence|exact I]]). }
  apply bind_ok in H as ([] & w5 & E5 & H). assert (R5 : rid_ (obj w5) = Some rid) by by injection E5 as <-.
  apply bind_ok in H as (answer & w6 & E6 & H).
  assert (R6 : rid_ (obj w6) = Some rid) by (rewrite <- R5; eapply kept_eq, E6; apply kept_catch; steps).
  destruct answer as [st|e].
  2: { apply bind_ok in H as ([] & w7 & E7 & H). apply bind_ok in H as ([] & w8 & E8 & H). injection E7 as <-. injection E8 as <-.
       apply result_cases in H as (Eo & _ & Ho & Ht & Htr). rewrite Ho in *. split_and!; [done|done|done|]. exists rid. split; [rewrite Eo; exact R6|exact I]. }
  apply bind_ok in H as ([] & w7 & E7 & H). assert (R7 : rid_ (obj w7) = Some rid) by by injection E7 as <-.
  apply bind_ok in H as (k & w8 & E8 & H). apply noting_cases in E8 as (_ & _ & _ & _ & R8). rewrite R7 in R8.
  apply bind_ok in H as (n & w9 & E9 & H). injection E9 as <- <-.
  apply bind_ok in H as (o & w10 & E10 & H). assert (R10 : rid_ (obj w10) = Some rid) by (pose proof (kept_eq rid_ _ _ _ _ (watch_rid _ _ _ _ _) E10) as K; simpl in K; congruence).
  apply bind_ok in H as (o' & w11 & E11 & H).
  assert (C : claims rid w11 o'.1 /\ o'.1 <> Unknown_ /\ rid_ (obj w11) = Some rid).
  { destruct o as [o|].
    - injection E11 as <- <-. apply watch_cases in E10 as [N1 N2]. split_and!; [by destruct o.1|done|done].
    - split_and!; [by eapply verdict_cases| |pose proof (kept_eq rid_ _ _ _ _ (verdict_rid _) E11); congruence].
      unfold verdict_of in E11. apply bind_ok in E11 as (st' & ? & _ & E11). apply bind_ok in E11 as (k' & ? & _ & E11).
      injection E11 as <- _. by destruct k'. }
  destruct C as (C & N & R11). apply bind_ok in H as (s & w12 & E12 & H). injection E12 as <- <-.
  apply bind_ok in H as (sel & w13 & E13 & H).
  assert (K : obj w13 = obj w11).
  { destruct (session (obj w11)) as [ss'|]; [|by injection E13 as _ <-]. destruct (closed ss'); [by injection E13 as _ <-|].
    apply bind_ok in E13 as (v' & w14 & Ev & E13). injection E13 as _ <-.
    unfold view, Clients.asking, bind, ask, lift in Ev. by injection Ev as _ <-. }
  apply result_cases in H as (Eo & _ & Ho & Ht & Htr). rewrite Ho. split_and!; [done|exact Htr|done|]. exists rid.
  rewrite Eo, K. split; [done|]. unfold claims in *. by rewrite Eo, K.
Qed.

(** What the result of a step means.  It is never the end of the task;
    completed means that the supervisor reported the revision selected by the
    RT, and the report lists it; unknown is listed as unknown, since motion may
    have happened; only completed and intervention are not truncations. *)
Theorem step_result_is_honest q_target window_s (w w' : World) res (Hstep : step q_target window_s w = (Ok res, w')) :
  terminated res = false /\ (truncated res = true <-> sr_outcome res <> Completed /\ sr_outcome res <> Intervention) /\
  (sr_outcome res = Completed -> told_selected /\ exists rid, rid_ (obj w') = Some rid /\ rid ∈ selected (report (obj w'))) /\
  (sr_outcome res = Unknown_ -> default "" (rid_ (obj w')) ∈ unknown (report (obj w'))).
Proof.
  unfold step, bind at 1, get at 1 in Hstep. destruct (session (obj w)) as [ss|]; [|done]. destruct (closed ss); [done|].
  apply bind_ok in Hstep as (began & w1 & _ & H). apply bind_ok in H as ([] & w2 & _ & H).
  unfold catch in H. destruct (step_inner ss q_target window_s w2) as [[r|e] w3] eqn:E.
  - injection H as <- <-. apply inner_cases in E as (H1 & H2 & H3 & rid & H4 & H5).
    split_and!; [done|done| |done]. intros Eo. rewrite Eo in H5. destruct H5. split; [done|]. by exists rid.
  - destruct (infrastructure e); [|done]. apply bind_ok in H as ([] & w4 & _ & H). apply bind_ok in H as (s & w5 & E5 & H).
    injection E5 as <- <-. destruct (sent_ (obj w4)).
    + apply bind_ok in H as ([] & w6 & E6 & H). injection E6 as <-. apply result_cases in H as (Eo & _ & Ho & Ht & Htr).
      rewrite Ho in *. split_and!; [done|done|done|]. intros _. rewrite Eo. simpl. apply elem_of_once. by right.
    + apply result_cases in H as (Eo & _ & Ho & Ht & Htr). rewrite Ho in *. split_and!; done.
Qed.

(** ** The reviewed trajectory *)

(** [run_reviewed]; what the robot answers to [execute], [release], [wait] and [status] are arguments. *)
Record review_answers := {
  a_execute : result ExecutionStatus; a_release : result ExecutionStatus; a_wait : result ExecutionStatus; a_status : result ExecutionStatus }.
Definition run_reviewed (a : review_answers) (request : TrajectoryRequest) : result (Report * ExecutionStatus) :=
  let id := request_id request in
  status <-- a_execute a ;;
  if bool_decide (phase status = REJECTED) then Ok (note_refused id (Contract.reason status) Report_new, status) else
  let r := (note_requested id Report_new) <| admitted := [id] |> in
  status <-- (if match start request with ON_RELEASE => true | ON_ADMIT => false end && bool_decide (phase status = ADMITTED) then a_release a else Ok status) ;;
  match a_wait a with
  | Ok status => Ok (r, status)
  | Err (TimeoutError m) => status <-- a_status a ;; Ok (note m r, status)
  | Err e => Err e
  end.
End Window.


(** ** A step on a willing robot *)

Module StepDemo.
#[export] Instance demo_config : Config := {|
  ctx := {| instance_id := "fr3_1"; joints := ["j1"]; model_token := "m"; scene_token := "s"; policy_id := "p" |};
  hold_s := f1; intervenes k := false; rounds k := 1 |}.
Definition at_ns (t : Z) : Stamp := mk_Stamp t PC "boot".
Definition running : StreamView := {|
  sv_execution := {| Contract.execution_id := "e1"; es_request_id := "open-1"; es_instance_id := "fr3_1"; phase := SENT; reached := ∅; reason := "" |};
  sv_model_token := "m"; sv_scene_token := "s"; sv_stream_policy_id := "p"; selected_reference_id := None; Stream.selected_revision := Some 2%Z;
  selected_phase := None; protected_until := None; selected_end_phase := None; selected_terminal := None; pending_request_id := None;
  pending_revision := None; sv_splice := None |}.
Definition status (sel : SelectionState) : RevisionStatus := {|
  rv_execution_id := "e1"; rv_request_id := "step.1"; rv_expected_revision := Some 1%Z; rv_revision := Some 2%Z; rv_phase := ADMITTED;
  rv_selection_state := sel; rv_at := at_ns 6; rv_reason := "" |}.
#[export] Instance willing : Arm := {|
  controller_extension := false; arm_now k := Ok (at_ns 10); arm_state k := Ok [f0];
  arm_authority k := Ok {| lifecycle := ARMED; Contract.session := None; arm_epoch := 1; stop_epoch := 0; fault := None; holding := None |};
  arm_controller_state k := Err KeyError; arm_open_stream k := Ok running; arm_stream_state k := Ok running;
  arm_stream_anchor k := Ok {| anchor_id := "a1"; sa_expected_revision := 1; cut_phase := f1; sa_q := [f0]; sa_qd := [f0];
                               issued_at := at_ns 5; expires_at := at_ns 9 |};
  arm_revise_stream k := Ok (status SEL_PENDING); arm_stream_revision k := Ok (status SEL_SELECTED); arm_cancel k := Ok tt;
  local_clock k := f0 |}.
Abbreviation episode := (reset {| obj := new; out := []; asked := 0%nat |}).2.

Lemma step_result_is_honest_witness : exists res w', step [f1] f1 episode = (Ok res, w') /\ sr_outcome res = Completed /\
  exists rid, rid_ (obj w') = Some rid /\ rid ∈ selected (report (obj w')).
Proof.
  destruct (step [f1] f1 episode) as [[res|e] w'] eqn:E.
  - exists res, w'. split; [reflexivity|]. assert (O : sr_outcome res = Completed).
    { assert (X : match (step [f1] f1 episode).1 with Ok r => sr_outcome r | Err _ => Unknown_ end = Completed) by (vm_compute; reflexivity).
      by rewrite E in X. }
    split; [exact O|]. destruct (step_result_is_honest [f1] f1 episode w' res E) as (_ & _ & H & _). exact (proj2 (H O)).
  - exfalso. apply (f_equal (fun x => is_ok x.1)) in E. revert E. vm_compute. discriminate.
Defined.
End StepDemo.
