(* ===== verification/Wire.v ===== *)
(** Fixed little-endian layouts, as Python's [struct] packs them with a ["<"]
    format: unsigned and signed integers of 1, 2, 4 or 8 bytes, binary64 numbers
    and byte strings of a fixed width (padded with zeros, truncated when longer).

    A byte is a [Z] in 0..255.  [pack] refuses an integer out of its field's
    range and [unpack] a buffer of another size, both with [struct.error]. *)
From Stdlib Require Import SpecFloat.
From S2P Require Import Prelude Floats.

Abbreviation bytes := (list Z).

(** ** Little-endian integers *)

Fixpoint le (w : nat) (n : Z) : bytes :=
  match w with O => [] | S w => (n mod 256)%Z :: le w (n / 256) end.
Fixpoint le_val (bs : bytes) : Z :=
  match bs with [] => 0%Z | b :: bs => (b + 256 * le_val bs)%Z end.

Lemma le_length w n : length (le w n) = w.
Proof. revert n. induction w as [|w IH]; intros n; simpl; [done|]. by rewrite IH. Qed.

Lemma le_val_le w n : (0 <= n < 256 ^ Z.of_nat w)%Z -> le_val (le w n) = n.
Proof.
  revert n. induction w as [|w IH]; intros n Hn.
  - simpl in *. lia.
  - rewrite Nat2Z.inj_succ, Z.pow_succ_r in Hn by lia. cbn [le le_val].
    rewrite IH; [pose proof (Z.div_mod n 256); lia|].
    split; [apply Z.div_pos; lia|apply Z.div_lt_upper_bound; lia].
Qed.

Definition is_byte (b : Z) : bool := ((0 <=? b) && (b <? 256))%Z.

Lemma le_val_range bs :
  forallb is_byte bs = true -> (0 <= le_val bs < 256 ^ Z.of_nat (length bs))%Z.
Proof.
  induction bs as [|b bs IH]; [simpl; lia|]. cbn [forallb length le_val].
  intros [Hb Hbs]%andb_true_iff. specialize (IH Hbs).
  unfold is_byte in Hb. breflect. rewrite Nat2Z.inj_succ, Z.pow_succ_r by lia. lia.
Qed.

Lemma le_le_val bs : forallb is_byte bs = true -> le (length bs) (le_val bs) = bs.
Proof.
  induction bs as [|b bs IH]; simpl; [done|]. intros [Hb Hbs]%andb_true_iff. unfold is_byte in Hb. breflect.
  rewrite (Z.mul_comm 256), Z.mod_add, Z.div_add, Z.mod_small, Z.div_small, Z.add_0_l by lia. by rewrite IH.
Qed.

(** ** The bits of a binary64 *)

Definition sign_bit (s : bool) : Z := if s then 2 ^ 63 else 0.

Definition float_bits (x : float) : Z :=
  match x with
  | S754_zero s => sign_bit s
  | S754_infinity s => sign_bit s + 2047 * 2 ^ 52
  | S754_nan => 4095 * 2 ^ 51
  | S754_finite s m e =>
      if Zpos m <? 2 ^ 52 then sign_bit s + Zpos m
      else sign_bit s + (e + 1075) * 2 ^ 52 + (Zpos m - 2 ^ 52)
  end%Z.

Definition bits_float (b : Z) : float :=
  let s := (2 ^ 63 <=? b)%Z in
  let r := (b mod 2 ^ 63)%Z in
  let ex := (r / 2 ^ 52)%Z in
  let man := (r mod 2 ^ 52)%Z in
  if (ex =? 0)%Z then match man with Zpos p => S754_finite s p (-1074) | _ => S754_zero s end
  else if (ex =? 2047)%Z then match man with 0%Z => S754_infinity s | _ => S754_nan end
  else match (man + 2 ^ 52)%Z with Zpos p => S754_finite s p (ex - 1075) | _ => S754_nan end.

Lemma bits_split s ex man :
  (0 <= ex < 2048 -> 0 <= man < 2 ^ 52 ->
   let b := sign_bit s + ex * 2 ^ 52 + man in
   (2 ^ 63 <=? b) = s /\ (b mod 2 ^ 63) / 2 ^ 52 = ex /\ (b mod 2 ^ 63) mod 2 ^ 52 = man /\ 0 <= b < 2 ^ 64)%Z.
Proof.
  intros He Hm b.
  assert (b mod 2 ^ 63 = ex * 2 ^ 52 + man)%Z as Hr.
  { symmetry. apply (Z.mod_unique _ _ (if s then 1 else 0)); unfold b, sign_bit; destruct s; lia. }
  rewrite Hr. split; [unfold b, sign_bit; destruct s; [apply Z.leb_le|apply Z.leb_gt]; lia|].
  rewrite Z.div_add_l, (Z.add_comm _ man), Z.mod_add, Z.mod_small, Z.div_small by lia.
  split; [lia|]. split; [done|]. unfold b, sign_bit; destruct s; lia.
Qed.

Lemma bounded_exponent m e : bounded fprec femax m e = true -> (e <= 971)%Z.
Proof. unfold bounded, fprec, femax. intros H. breflect. lia. Qed.

Lemma bits_float_bits x : valid x = true -> bits_float (float_bits x) = x /\ (0 <= float_bits x < 2 ^ 64)%Z.
Proof.
  destruct x as [s|s| |s m e]; intros Hv; [by destruct s..|done|].
  unfold valid, valid_binary in Hv. pose proof (bounded_exponent m e Hv) as He.
  apply valid_digits in Hv as (Hd & Hlo & Hc). pose proof (digits2_pos_bound m) as [B1 B2].
  assert (Zpos m < 2 ^ 53)%Z as Hm.
  { eapply Z.lt_le_trans; [exact B2|]. apply Z.pow_le_mono_r; lia. }
  unfold float_bits. destruct (Z.ltb_spec (Zpos m) (2 ^ 52)) as [Hs|Hs].
  - assert (e = -1074)%Z as ->.
    { destruct (Z.eq_dec e (-1074)%Z); [done|]. rewrite Hc in B1 by lia. simpl in B1. lia. }
    destruct (bits_split s 0 (Zpos m)) as (E1 & E2 & E3 & E4); [lia..|].
    replace (sign_bit s + Zpos m)%Z with (sign_bit s + 0 * 2 ^ 52 + Zpos m)%Z by lia.
    split; [|done]. unfold bits_float. by rewrite E1, E2, E3.
  - destruct (bits_split s (e + 1075) (Zpos m - 2 ^ 52)) as (E1 & E2 & E3 & E4); [lia..|].
    split; [|done]. unfold bits_float. rewrite E1, E2, E3.
    destruct (Z.eqb_spec (e + 1075) 0); [lia|]. destruct (Z.eqb_spec (e + 1075) 2047); [lia|].
    replace (Zpos m - 2 ^ 52 + 2 ^ 52)%Z with (Zpos m) by lia. f_equal. lia.
Qed.

(** ** Formats *)

(** [B] is [U 1], [H] is [U 2], [I] is [U 4], [Q] is [U 8], [b], [h] and [i] are
    [N 1], [N 2] and [N 4], [d] is [D], [ns] is [S_ n]. *)
Inductive fld := U (w : nat) | N (w : nat) | D | S_ (n : nat).
Inductive val := VI (n : Z) | VF (x : float) | VB (b : bytes).

Definition fsize (f : fld) : nat := match f with U w | N w => w | D => 8 | S_ n => n end.
Definition calcsize (fmt : list fld) : nat := sum_list_with fsize fmt.

Definition ljust (n : nat) (b : bytes) : bytes := b ++ replicate (n - length b) 0%Z.

Definition pack1 (f : fld) (v : val) : result bytes :=
  match f, v with
  | U w, VI n => raise_if negb ((0 <=? n) && (n <? 256 ^ Z.of_nat w))%Z of StructError ;; Ok (le w n)
  | N w, VI n => raise_if negb ((- 2 ^ (8 * Z.of_nat w - 1) <=? n) && (n <? 2 ^ (8 * Z.of_nat w - 1)))%Z of StructError ;;
                 Ok (le w (n mod 256 ^ Z.of_nat w))
  | D, VF x => Ok (le 8 (float_bits x))
  | S_ n, VB b => Ok (ljust n (take n b))
  | _, _ => Err StructError
  end.

Fixpoint pack (fmt : list fld) (vs : list val) : result bytes :=
  match fmt, vs with
  | [], [] => Ok []
  | f :: fmt, v :: vs => a <-- pack1 f v ;; b <-- pack fmt vs ;; Ok (a ++ b)
  | _, _ => Err StructError
  end.

(** Two's complement. *)
Definition signed (w : nat) (n : Z) : Z := if (n <? 2 ^ (8 * Z.of_nat w - 1))%Z then n else (n - 256 ^ Z.of_nat w)%Z.

Lemma signed_mod w n : (0 < w)%nat -> (- 2 ^ (8 * Z.of_nat w - 1) <= n < 2 ^ (8 * Z.of_nat w - 1))%Z ->
  signed w (n mod 256 ^ Z.of_nat w) = n /\ (0 <= n mod 256 ^ Z.of_nat w < 256 ^ Z.of_nat w)%Z.
Proof.
  intros Hw Hn.
  assert (256 ^ Z.of_nat w = 2 * 2 ^ (8 * Z.of_nat w - 1))%Z as E.
  { rewrite <-Z.pow_succ_r by lia. replace (Z.succ (8 * Z.of_nat w - 1)) with (8 * Z.of_nat w)%Z by lia. by rewrite Z.pow_mul_r by lia. }
  split; [|apply Z.mod_pos_bound; lia]. unfold signed.
  destruct (Z.ltb_spec n 0).
  - assert (n mod 256 ^ Z.of_nat w = n + 256 ^ Z.of_nat w)%Z as ->.
    { symmetry. apply (Z.mod_unique _ _ (-1)); lia. }
    destruct (Z.ltb_spec (n + 256 ^ Z.of_nat w) (2 ^ (8 * Z.of_nat w - 1))); lia.
  - rewrite Z.mod_small by lia. destruct (Z.ltb_spec n (2 ^ (8 * Z.of_nat w - 1))); lia.
Qed.

Definition unpack1 (f : fld) (bs : bytes) : val :=
  match f with U _ => VI (le_val bs) | N w => VI (signed w (le_val bs)) | D => VF (bits_float (le_val bs)) | S_ _ => VB bs end.
Fixpoint read (fmt : list fld) (bs : bytes) : list val :=
  match fmt with
  | [] => []
  | f :: fmt => unpack1 f (take (fsize f) bs) :: read fmt (drop (fsize f) bs)
  end.

Definition unpack (fmt : list fld) (bs : bytes) : result (list val) :=
  raise_if negb (length bs =? calcsize fmt) of StructError ;; Ok (read fmt bs).

(** [struct.unpack_from(fmt, body)] on a buffer at least that long. *)
Definition unpack_from (fmt : list fld) (bs : bytes) : result (list val) :=
  raise_if length bs <? calcsize fmt of StructError ;; Ok (read fmt bs).

(** ** Round trip *)

(** What a field reads back as: a byte string comes back at its width. *)
Definition canon (f : fld) (v : val) : val :=
  match f, v with S_ n, VB b => VB (ljust n (take n b)) | _, _ => v end.
Definition val_ok (v : val) : Prop := match v with VF x => valid x = true | _ => True end.

Lemma ljust_length n b : length b <= n -> length (ljust n b) = n.
Proof. intros. unfold ljust. rewrite length_app, length_replicate. lia. Qed.

Lemma pack1_ok f v b : pack1 f v = Ok b -> val_ok v -> length b = fsize f /\ unpack1 f b = canon f v.
Proof.
  destruct f as [w|w| |n], v as [k|x|s]; cbn [pack1 unpack1 canon fsize val_ok]; try done.
  - intros H _. pass_guard H E. injection H as <-. breflect. rewrite le_length. split; [done|].
    f_equal. apply le_val_le. lia.
  - intros H _. pass_guard H E. injection H as <-. breflect. rewrite le_length. split; [done|].
    f_equal. destruct w as [|w]; [simpl in *; lia|].
    destruct (signed_mod (S w) k) as [H1 H2]; [lia..|]. rewrite le_val_le by done. exact H1.
  - intros H Hv. assert (b = le 8 (float_bits x)) as -> by congruence.
    destruct (bits_float_bits x Hv) as [H1 H2]. split; [done|].
    rewrite (le_val_le 8); [by rewrite H1|exact H2].
  - intros [= <-] _. split; [|done]. apply ljust_length. rewrite length_take. lia.
Qed.

Lemma pack_ok fmt vs bs rest :
  pack fmt vs = Ok bs -> Forall val_ok vs ->
  length bs = calcsize fmt /\ read fmt (bs ++ rest) = zip_with canon fmt vs.
Proof.
  revert vs bs. induction fmt as [|f fmt IH]; intros [|v vs] bs H Hv; simpl in *; try done.
  { by injection H as <-. }
  apply rbind_ok in H as (a & Ha & H). apply rbind_ok in H as (b & Hb & H). injection H as <-.
  inversion Hv as [|? ? H1 H2]; subst. destruct (pack1_ok _ _ _ Ha H1) as [La Ea].
  destruct (IH _ _ Hb H2) as [Lb Eb]. rewrite length_app, La, Lb. split; [done|].
  rewrite <-app_assoc, take_app_length', drop_app_length' by done. by rewrite Ea, Eb.
Qed.

Lemma unpack_pack fmt vs bs :
  pack fmt vs = Ok bs -> Forall val_ok vs -> unpack fmt bs = Ok (zip_with canon fmt vs).
Proof.
  intros H Hv. destruct (pack_ok _ _ _ [] H Hv) as [Hl Hr]. unfold unpack. rewrite Hl, Nat.eqb_refl.
  rewrite app_nil_r in Hr. by rewrite Hr.
Qed.

Lemma unpack_from_pack fmt vs bs rest :
  pack fmt vs = Ok bs -> Forall val_ok vs -> unpack_from fmt (bs ++ rest) = Ok (zip_with canon fmt vs).
Proof.
  intros H Hv. destruct (pack_ok _ _ _ rest H Hv) as [Hl Hr]. unfold unpack_from.
  assert (length (bs ++ rest) <? calcsize fmt = false) as -> by (apply Nat.ltb_ge; rewrite length_app; lia).
  by rewrite Hr.
Qed.

Lemma pack_app fmt1 fmt2 vs1 vs2 :
  length fmt1 = length vs1 ->
  pack (fmt1 ++ fmt2) (vs1 ++ vs2) = (a <-- pack fmt1 vs1 ;; b <-- pack fmt2 vs2 ;; Ok (a ++ b)).
Proof.
  revert vs1. induction fmt1 as [|f fmt1 IH]; intros [|v vs1] Hl; simpl in *; try done.
  - by destruct (pack fmt2 vs2).
  - rewrite IH by lia. destruct (pack1 f v); simpl; [|done]. destruct (pack fmt1 vs1); simpl; [|done].
    destruct (pack fmt2 vs2); simpl; [|done]. by rewrite app_assoc.
Qed.

(** The doubles of a read. *)
Definition vfloat (v : val) : float := match v with VF x => x | _ => fnan end.
Definition floats (vs : list val) : vec := map vfloat vs.

Lemma floats_canon n xs : length xs = n -> floats (zip_with canon (replicate n D) (map VF xs)) = xs.
Proof. revert n. induction xs as [|x xs IH]; intros [|n] H; simpl in *; try done. f_equal. apply IH. lia. Qed.

Lemma zip_with_canon_app f1 f2 v1 v2 :
  length f1 = length v1 -> zip_with canon (f1 ++ f2) (v1 ++ v2) = zip_with canon f1 v1 ++ zip_with canon f2 v2.
Proof. apply zip_with_app. Qed.

Lemma pack_le_bytes w n : forallb is_byte (le w n) = true.
Proof.
  revert n. induction w as [|w IH]; intros n; simpl; [done|]. rewrite IH, andb_true_r. unfold is_byte.
  pose proof (Z.mod_pos_bound n 256). apply andb_true_iff. split; [apply Z.leb_le|apply Z.ltb_lt]; lia.
Qed.
