(* ===== verification/RtProtocol.v ===== *)
(** The wire protocol between the control PC and the real-time machine
    ([plants/remote_rt/protocol.py]): hashes and identities, the joint command
    with its optional tails, the state packet, control frames, mode selection
    and the negotiated reference extension.

    Bytes are [Z] in 0..255.  A Python [str] that crosses the wire is its UTF-8
    bytes, so [encode] and [decode] are identities here (a body that is not
    UTF-8, which the source decodes with replacement characters, is kept as it
    is).  A mapping of named fields is a record or a constructor. *)
From Stdlib Require Import SpecFloat.
From S2P Require Import Prelude Floats Motion Wire.

Open Scope Z_scope.

Definition MAGIC_CMD : Z := 0x444D4341.
Definition MAGIC_STATE : Z := 0x41545341.
Definition MAGIC_CTL : Z := 0x4C544341.
Definition MAGIC_OBS : Z := 0x53424F41.
Definition VERSION : Z := 5.
Definition POSE_HOLD_VERSION : Z := 6.
Definition CARTESIAN_VERSION : Z := 8.
Definition MAX_JOINTS : nat := 16.
Definition ID_CHARS : nat := 32.

Definition FLAG_ARMED : Z := 1.
Definition FLAG_FAULTED : Z := 2.
Definition FLAG_HOLDING : Z := 4.
Definition FLAG_WRENCH_VALID : Z := 8.
Definition FLAG_CLAIMED : Z := 16.
Definition FLAG_MODE_STREAMED : Z := 32.
Definition FLAG_MODE_REFERENCE : Z := 64.
Definition ONLINE_MASK_SHIFT : Z := 16.
Definition ONLINE_MASK_BITS : Z := Z.shiftl 0xFFFF 16.
Definition FAULT_CMD_LOST : Z := 1.
Definition FAULT_CTL_LOST : Z := 2.
Definition FAULT_PLANT : Z := 3.
Definition MODE_UNSELECTED : Z := 0.
Definition MODE_STREAMED : Z := 1.
Definition MODE_REFERENCE : Z := 2.

Definition CTL_HELLO : Z := 1.
Definition CTL_ARM : Z := 2.
Definition CTL_DISARM : Z := 3.
Definition CTL_PING : Z := 4.
Definition CTL_PONG : Z := 5.
Definition CTL_STATUS : Z := 6.
Definition CTL_FAULT : Z := 7.
Definition CTL_SET_ACTIVE : Z := 8.
Definition CTL_IDENTITY : Z := 9.
Definition CTL_CLAIM : Z := 10.
Definition CAP_POSE_HOLD : Z := 1.
Definition CAP_REFERENCE_HORIZON : Z := 8.
Definition CAP_MODE_SELECT : Z := 16.
Definition CAP_CARTESIAN_TRAJECTORY : Z := 32.

Definition H_ : fld := U 2.
Definition I_ : fld := U 4.
Definition Q_ : fld := U 8.
Definition doubles (n : nat) : list fld := replicate n D.

Definition CMD_HEAD : list fld := [I_; H_; H_; I_; I_; Q_; Q_].
Definition CMD_FMT : list fld := CMD_HEAD ++ doubles 80.
Definition STATE_HEAD : list fld := [I_; H_; H_; I_; I_; Q_; I_; I_; Q_; Q_; I_; I_].
Definition STATE_FMT : list fld := STATE_HEAD ++ doubles 104.
Definition CTL_FMT : list fld := [I_; H_; H_; I_; I_; Q_; S_ 104].
Definition IDENTITY_FMT : list fld := [S_ 32; S_ 32; Q_; Q_; Q_; I_; I_; S_ 8].
Definition OBS_FMT : list fld := [I_; H_; H_; I_; I_].
Definition CMD_SIZE : nat := calcsize CMD_FMT.
Definition STATE_SIZE : nat := calcsize STATE_FMT.
Definition CTL_SIZE : nat := calcsize CTL_FMT.

(** ** Hashes and identities *)

Definition FNV_OFFSET : Z := 0xCBF29CE484222325.
Definition FNV_PRIME : Z := 0x100000001B3.
Definition M32 : Z := 0xFFFFFFFF.
Definition M64 : Z := 0xFFFFFFFFFFFFFFFF.

Definition fnv1a64 (data : bytes) (h : Z) : Z :=
  fold_left (fun h b => Z.land (Z.lxor h b * FNV_PRIME) M64) data h.

(** [sep.join(names)] *)
Fixpoint join (sep : bytes) (l : list bytes) : bytes :=
  match l with [] => [] | [a] => a | a :: l => a ++ sep ++ join sep l end.

Definition joint_order_hash (joint_names : list bytes) : Z := fnv1a64 (join [10] joint_names) FNV_OFFSET.

Definition id_bytes (text : bytes) : result bytes :=
  raise_if (ID_CHARS <=? length text)%nat of ValueError "id must be shorter than 32 bytes" ;;
  Ok (ljust ID_CHARS text).

Definition id_byte (c : Z) : bool :=
  ((48 <=? c) && (c <=? 57)) || ((65 <=? c) && (c <=? 90)) || ((97 <=? c) && (c <=? 122))
  || (c =? 95) || (c =? 46) || (c =? 45).
Definition valid_id (text : bytes) : bool :=
  ((1 <=? length text) && (length text <? ID_CHARS))%nat && forallb id_byte text.

Definition identity_hash (instance_id : bytes) (joint_hash : Z) : result Z :=
  packed <-- pack [Q_] [VI joint_hash] ;;
  id <-- id_bytes instance_id ;;
  Ok (fnv1a64 packed (fnv1a64 id FNV_OFFSET)).

Definition with_online_mask (flags mask : Z) : result Z :=
  raise_if negb ((0 <=? mask) && (mask <=? 0xFFFF)) of ValueError "online mask must fit 16 slots" ;;
  Ok (Z.lor (Z.land flags (Z.lnot ONLINE_MASK_BITS)) (Z.shiftl mask ONLINE_MASK_SHIFT)).
Definition online_mask (flags : Z) : Z := Z.shiftr (Z.land flags ONLINE_MASK_BITS) ONLINE_MASK_SHIFT.

(** ** Commands *)

Definition padded (values : vec) : result vec :=
  raise_if (MAX_JOINTS <? length values)%nat of ValueError "at most 16 joints" ;;
  Ok (values ++ replicate (MAX_JOINTS - length values)%nat f0).

Record command := {
  c_n : Z; c_seq : Z; c_t_mono_ns : Z; c_q_des : vec; c_qd_des : vec; c_tau_ff : vec; c_kp : vec; c_kd : vec;
  c_session_id : Z; c_arm_epoch : Z; c_pose_hold : option pose_hold_spec; c_cartesian : option cartesian_spec;
}.
Definition c_arrays (c : command) : list vec := [c_q_des c; c_qd_des c; c_tau_ff c; c_kp c; c_kd c].
Definition c_tail (c : command) : result (bytes * Z) :=
  match c_cartesian c, c_pose_hold c with
  | Some s, _ => vs <-- cartesian_values s ;; t <-- pack (doubles 21) (map VF vs) ;; Ok (t, CARTESIAN_VERSION)
  | None, Some s => vs <-- pose_hold_values s ;; t <-- pack (doubles 15) (map VF vs) ;; Ok (t, POSE_HOLD_VERSION)
  | None, None => Ok ([], VERSION)
  end.

Definition pack_command (c : command) : result bytes :=
  raise_if negb ((1 <=? c_n c) && (c_n c <=? 16)) of ValueError "command n must be an integer in 1..16" ;;
  raise_if existsb (fun a => negb (Z.of_nat (length a) =? c_n c) || negb (all_finite a)) (c_arrays c)
    of ValueError "command arrays must be finite and length n" ;;
  raise_if existsb (existsb (fun v => v <f f0)) [c_kp c; c_kd c] of ValueError "command gains must be nonnegative" ;;
  raise_if match c_pose_hold c, c_cartesian c with Some _, Some _ => true | _, _ => false end
    of ValueError "a command carries a pose-hold tail or a cartesian tail, not both" ;;
  tail <-- c_tail c ;;
  arrays <-- rmap padded (c_arrays c) ;;
  head <-- pack CMD_FMT ([VI MAGIC_CMD; VI tail.2; VI (c_n c); VI (Z.land (c_seq c) M32); VI (Z.land (c_arm_epoch c) M32);
                          VI (c_t_mono_ns c); VI (Z.land (c_session_id c) M64)] ++ map VF (concat arrays)) ;;
  Ok (head ++ tail.1).

(** ** State packets *)

Record State := {
  s_n : Z; state_seq : Z; last_cmd_seq : Z; s_t_mono_ns : Z; flags : Z; fault_code : Z; s_session_id : Z;
  s_identity_hash : Z; s_arm_epoch : Z; stop_epoch : Z;
  s_q : vec; s_dq : vec; s_tau : vec; s_tau_cmd : vec; s_q_cmd : vec; s_qd_cmd : vec; s_wrench : vec;
}.

Definition flag (fs f : Z) : bool := negb (Z.land fs f =? 0).
Definition armed (s : State) : bool := flag (flags s) FLAG_ARMED.
Definition faulted (s : State) : bool := flag (flags s) FLAG_FAULTED.
Definition holding (s : State) : bool := flag (flags s) FLAG_HOLDING.
Definition wrench_valid (s : State) : bool := flag (flags s) FLAG_WRENCH_VALID.
Definition selected_mode (s : State) : Z :=
  if flag (flags s) FLAG_MODE_REFERENCE then MODE_REFERENCE
  else if flag (flags s) FLAG_MODE_STREAMED then MODE_STREAMED else MODE_UNSELECTED.

(** [d[k * 16 : k * 16 + n]] *)
Definition joint_slice (d : vec) (k n : nat) : vec := take n (drop (k * 16) d).

Definition unpack_state (data : bytes) : result State :=
  raise_if negb (length data =? STATE_SIZE)%nat of ValueError "state packet must be 888 bytes" ;;
  vals <-- unpack STATE_FMT data ;;
  match take 12 vals with
  | [VI magic; VI version; VI n; VI sq; VI cmd; VI t; VI fl; VI fc; VI sid; VI ih; VI ae; VI se] =>
      raise_if negb (magic =? MAGIC_STATE) || negb (version =? VERSION) of ValueError "bad state packet" ;;
      raise_if negb ((1 <=? n) && (n <=? 16)) of ValueError "invalid state joint count" ;;
      let d := floats (drop 12 vals) in
      let k := Z.to_nat n in
      Ok {| s_n := n; state_seq := sq; last_cmd_seq := cmd; s_t_mono_ns := t; flags := fl; fault_code := fc;
            s_session_id := sid; s_identity_hash := ih; s_arm_epoch := ae; stop_epoch := se;
            s_q := joint_slice d 0 k; s_dq := joint_slice d 1 k; s_tau := joint_slice d 2 k;
            s_tau_cmd := joint_slice d 3 k; s_q_cmd := joint_slice d 4 k; s_qd_cmd := joint_slice d 5 k;
            s_wrench := joint_slice d 6 6 |}
  | _ => Err StructError
  end.

(** ** Control frames *)

Record Control := {
  ctl_type : Z; ctl_seq : Z; ctl_arg : Z; ctl_t : Z; ctl_text : bytes; ctl_raw : bytes }.

(** [b.split(b"\0", 1)[0]] *)
Fixpoint until_nul (b : bytes) : bytes :=
  match b with [] => [] | c :: b => if c =? 0 then [] else c :: until_nul b end.

Definition pack_control (ctype seq arg t : Z) (body : bytes) : result bytes :=
  pack CTL_FMT [VI MAGIC_CTL; VI VERSION; VI ctype; VI seq; VI arg; VI t; VB body].

Definition unpack_control (data : bytes) : result Control :=
  raise_if negb (length data =? CTL_SIZE)%nat of ValueError "control packet must be 128 bytes" ;;
  vals <-- unpack CTL_FMT data ;;
  match vals with
  | [VI magic; VI version; VI ct; VI seq; VI arg; VI t; VB text] =>
      raise_if negb (magic =? MAGIC_CTL) || negb (version =? VERSION) of ValueError "bad control packet" ;;
      Ok {| ctl_type := ct; ctl_seq := seq; ctl_arg := arg; ctl_t := t; ctl_text := until_nul text; ctl_raw := text |}
  | _ => Err StructError
  end.

Record Identity := {
  id_instance : bytes; id_model : bytes; id_session : Z; id_joint_order_hash : Z; id_identity_hash : Z;
  id_capabilities : Z; id_n : Z }.

Definition pack_identity (i : Identity) : result bytes :=
  inst <-- id_bytes (id_instance i) ;;
  model <-- id_bytes (id_model i) ;;
  pack IDENTITY_FMT [VB inst; VB model; VI (id_session i); VI (id_joint_order_hash i); VI (id_identity_hash i);
                     VI (id_capabilities i); VI (id_n i); VB (replicate 8 0)].

Definition unpack_identity (body : bytes) : result Identity :=
  vals <-- unpack IDENTITY_FMT (take 104 body) ;;
  match vals with
  | [VB inst; VB model; VI session; VI jh; VI ih; VI caps; VI n; VB _] =>
      Ok {| id_instance := until_nul inst; id_model := until_nul model; id_session := session;
            id_joint_order_hash := jh; id_identity_hash := ih; id_capabilities := caps; id_n := n |}
  | _ => Err StructError
  end.

Definition pack_observe (lease_ms : Z) : result bytes :=
  raise_if negb ((100 <=? lease_ms) && (lease_ms <=? 5000)) of ValueError "observer lease must be 100..5000 ms" ;;
  pack OBS_FMT [VI MAGIC_OBS; VI VERSION; VI 0; VI lease_ms; VI 0].

(** ** Mode selection *)

Definition CTL_MODE_SELECT : Z := 12.
Definition CTL_MODE_STATUS : Z := 13.
Definition MODE_SELECT_FMT : list fld := [Q_; Q_; Q_; I_; H_; H_; S_ 32; I_; S_ 36].
Definition MODE_STATUS_FMT : list fld := [Q_; Q_; Q_; I_; I_; H_; H_; I_; S_ 64].

Definition any_byte (b : bytes) : bool := existsb (fun c => negb (c =? 0)) b.
Definition nz (n : Z) : bool := negb (n =? 0).
Definition is_mode (m : Z) : bool := (m =? MODE_STREAMED) || (m =? MODE_REFERENCE).

Record mode_select := {
  ms_session_id : Z; ms_generation : Z; ms_expected_predecessor : Z; ms_arm_epoch : Z; ms_desired_mode : Z;
  ms_model_digest : bytes; ms_seq : Z }.

Definition pack_mode_select (m : mode_select) (t : Z) : result bytes :=
  raise_if negb (is_mode (ms_desired_mode m)) of ValueError "desired_mode must be MODE_STREAMED or MODE_REFERENCE" ;;
  raise_if negb ((length (ms_model_digest m) =? 0)%nat || (length (ms_model_digest m) =? 32)%nat)
    of ValueError "model_digest must be empty or 32 bytes" ;;
  let digest := ljust 32 (ms_model_digest m) in
  raise_if (ms_desired_mode m =? MODE_REFERENCE) && negb (any_byte digest)
    of ValueError "MODE_REFERENCE requires a model_digest" ;;
  raise_if (ms_desired_mode m =? MODE_STREAMED) && any_byte digest
    of ValueError "MODE_STREAMED must not carry a model_digest" ;;
  raise_if negb (nz (ms_session_id m) && nz (ms_generation m) && nz (ms_arm_epoch m))
    of ValueError "session_id, generation and arm_epoch must be nonzero" ;;
  raise_if negb (ms_generation m =? ms_expected_predecessor m + 1)
    of ValueError "generation must equal expected_predecessor + 1" ;;
  body <-- pack MODE_SELECT_FMT [VI (ms_session_id m); VI (ms_generation m); VI (ms_expected_predecessor m);
             VI (ms_arm_epoch m); VI (ms_desired_mode m); VI 0; VB digest; VI 0; VB (replicate 36 0)] ;;
  pack CTL_FMT [VI MAGIC_CTL; VI VERSION; VI CTL_MODE_SELECT; VI (ms_seq m); VI 0; VI t; VB body].

Definition unpack_mode_select (data : bytes) : result mode_select :=
  raise_if negb (length data =? CTL_SIZE)%nat of ValueError "mode select must contain 128 bytes" ;;
  vals <-- unpack CTL_FMT data ;;
  match vals with
  | [VI magic; VI version; VI op; VI seq; VI arg; VI _; VB body] =>
      raise_if negb (magic =? MAGIC_CTL) || negb (version =? VERSION) || nz arg || negb (op =? CTL_MODE_SELECT)
        of ValueError "malformed mode select header" ;;
      p <-- unpack MODE_SELECT_FMT body ;;
      match p with
      | [VI sid; VI gen; VI pred; VI epoch; VI mode; VI r0; VB digest; VI rf; VB reserved] =>
          raise_if nz r0 || nz rf || any_byte reserved of ValueError "mode select reserved bytes must be zero" ;;
          raise_if negb (nz sid && nz gen && nz epoch) of ValueError "mode select identities must be nonzero" ;;
          raise_if negb (gen =? pred + 1) of ValueError "mode select generation must be predecessor + 1" ;;
          raise_if negb (is_mode mode) of ValueError "unknown desired mode" ;;
          raise_if negb (Bool.eqb (mode =? MODE_REFERENCE) (any_byte digest))
            of ValueError "model_digest must be present iff MODE_REFERENCE" ;;
          Ok {| ms_session_id := sid; ms_generation := gen; ms_expected_predecessor := pred; ms_arm_epoch := epoch;
                ms_desired_mode := mode; ms_model_digest := digest; ms_seq := seq |}
      | _ => Err StructError
      end
  | _ => Err StructError
  end.

Record mode_status := {
  mt_session_id : Z; mt_generation : Z; mt_predecessor : Z; mt_arm_epoch : Z; mt_result : Z;
  mt_selected_mode : Z; mt_requested_mode : Z; mt_detail : Z; mt_seq : Z }.

Definition pack_mode_status (m : mode_status) (t : Z) : result bytes :=
  body <-- pack MODE_STATUS_FMT [VI (mt_session_id m); VI (mt_generation m); VI (mt_predecessor m); VI (mt_arm_epoch m);
             VI (mt_result m); VI (mt_selected_mode m); VI (mt_requested_mode m); VI (mt_detail m); VB (replicate 64 0)] ;;
  pack CTL_FMT [VI MAGIC_CTL; VI VERSION; VI CTL_MODE_STATUS; VI (mt_seq m); VI 0; VI t; VB body].

Definition unpack_mode_status (data : bytes) : result mode_status :=
  raise_if negb (length data =? CTL_SIZE)%nat of ValueError "mode status must contain 128 bytes" ;;
  vals <-- unpack CTL_FMT data ;;
  match vals with
  | [VI magic; VI version; VI op; VI seq; VI arg; VI _; VB body] =>
      raise_if negb (magic =? MAGIC_CTL) || negb (version =? VERSION) || nz arg || negb (op =? CTL_MODE_STATUS)
        of ValueError "malformed mode status header" ;;
      p <-- unpack MODE_STATUS_FMT body ;;
      match p with
      | [VI sid; VI gen; VI pred; VI epoch; VI res; VI sel; VI req; VI detail; VB reserved] =>
          raise_if any_byte reserved of ValueError "mode status reserved bytes must be zero" ;;
          raise_if negb ((0 <=? res) && (res <=? 7)) of ValueError "unknown mode select result" ;;
          raise_if negb (is_mode req) of ValueError "unknown requested mode" ;;
          raise_if negb ((sel =? MODE_UNSELECTED) || is_mode sel) of ValueError "unknown selected mode" ;;
          Ok {| mt_session_id := sid; mt_generation := gen; mt_predecessor := pred; mt_arm_epoch := epoch;
                mt_result := res; mt_selected_mode := sel; mt_requested_mode := req; mt_detail := detail; mt_seq := seq |}
      | _ => Err StructError
      end
  | _ => Err StructError
  end.

(** ** The negotiated reference extension *)

Definition REFERENCE_VERSION : Z := 7.
Definition MAX_REFERENCE_KNOTS : Z := 128.
Definition MAX_REFERENCE_BYTES : Z := 33792.
Definition CTL_REFERENCE_MODE : Z := 11.
Definition CTL_REFERENCE_BEGIN : Z := 32.
Definition CTL_REFERENCE_CHUNK : Z := 33.
Definition CTL_REFERENCE_SEAL : Z := 34.
Definition CTL_REFERENCE_COMMIT : Z := 35.
Definition CTL_REFERENCE_ABORT : Z := 36.
Definition CTL_CANCEL_REFERENCE : Z := 37.
Definition CTL_REFERENCE_STATUS : Z := 38.
Definition CTL_GROUP_JOIN : Z := 39.
Definition CTL_GROUP_COMMIT : Z := 40.
Definition CTL_GROUP_CANCEL : Z := 41.
Definition CTL_GROUP_STATUS : Z := 42.
Definition REFERENCE_CANCELLED : Z := 4.
Definition REFERENCE_CHUNK_BYTES : nat := 88.
Definition REFERENCE_HERMITE : Z := 1.
Definition REFERENCE_TERMINAL : Z := 2.
Definition MODE_SEL_OK : Z := 0.
Definition REF_OK : Z := 0.
Definition REF_NOT_ADMITTED : Z := 9.
Definition REF_GROUP_PEER : Z := 11.
Definition GS_DONE : Z := 7.
Definition GROUP_MAX_BUDGET_NS : Z := 10000000000.
Definition PEER_STALE : Z := 4.

(** The named fields of each opcode, in layout order. *)
Inductive ref_body :=
  | RefMode (session_id joint_order_hash : Z) (model_digest : bytes) (enable : Z)
  | RefBegin (session_id upload_id reference_id joint_order_hash : Z) (model_digest : bytes)
      (arm_epoch expected_revision revision byte_count knots n flags : Z)
  | RefChunk (upload_id offset len reserved : Z) (data : bytes)
  | RefSeal (upload_id : Z) (sha256 : bytes)
  | RefCommit (session_id upload_id reference_id arm_epoch expected_revision revision reserved0 : Z)
      (protected_until latest_phase : float) (selection_budget_ns : Z)
  | RefAbort (session_id id arm_epoch revision : Z)
  | RefCancel (session_id id arm_epoch revision : Z)
  | RefStatus (upload_id reference_id revision res operation reserved0 : Z)
  | GroupJoin (session_id group_id arm_epoch member_index member_count reserved0 : Z)
  | GroupCancel (session_id group_id arm_epoch member_index member_count reserved0 : Z)
  | GroupCommit (session_id group_id upload_id reference_id budget_ns arm_epoch member_index : Z)
  | GroupStatus (group_id deadline_ns selected_ns res operation state peer_verdict reserved0 : Z).

Definition op_of (b : ref_body) : Z :=
  match b with
  | RefMode _ _ _ _ => CTL_REFERENCE_MODE
  | RefBegin _ _ _ _ _ _ _ _ _ _ _ _ => CTL_REFERENCE_BEGIN
  | RefChunk _ _ _ _ _ => CTL_REFERENCE_CHUNK
  | RefSeal _ _ => CTL_REFERENCE_SEAL
  | RefCommit _ _ _ _ _ _ _ _ _ _ => CTL_REFERENCE_COMMIT
  | RefAbort _ _ _ _ => CTL_REFERENCE_ABORT
  | RefCancel _ _ _ _ => CTL_CANCEL_REFERENCE
  | RefStatus _ _ _ _ _ _ => CTL_REFERENCE_STATUS
  | GroupJoin _ _ _ _ _ _ => CTL_GROUP_JOIN
  | GroupCancel _ _ _ _ _ _ => CTL_GROUP_CANCEL
  | GroupCommit _ _ _ _ _ _ _ => CTL_GROUP_COMMIT
  | GroupStatus _ _ _ _ _ _ _ _ => CTL_GROUP_STATUS
  end.

(** [_REFERENCE_LAYOUTS]: the fields' formats and the trailing reserved bytes. *)
Definition layout (op : Z) : option (list fld * nat) :=
  if op =? CTL_REFERENCE_MODE then Some ([Q_; Q_; S_ 32; I_], 52)%nat
  else if op =? CTL_REFERENCE_BEGIN then Some ([Q_; Q_; Q_; Q_; S_ 32; I_; I_; I_; I_; H_; H_; I_], 16)%nat
  else if op =? CTL_REFERENCE_CHUNK then Some ([Q_; I_; H_; H_; S_ 88], 0)%nat
  else if op =? CTL_REFERENCE_SEAL then Some ([Q_; S_ 32], 64)%nat
  else if op =? CTL_REFERENCE_COMMIT then Some ([Q_; Q_; Q_; I_; I_; I_; I_; D; D; Q_], 40)%nat
  else if op =? CTL_REFERENCE_ABORT then Some ([Q_; Q_; I_; I_], 80)%nat
  else if op =? CTL_CANCEL_REFERENCE then Some ([Q_; Q_; I_; I_], 80)%nat
  else if op =? CTL_REFERENCE_STATUS then Some ([Q_; Q_; I_; I_; I_; I_], 72)%nat
  else if op =? CTL_GROUP_JOIN then Some ([Q_; Q_; I_; I_; I_; I_], 72)%nat
  else if op =? CTL_GROUP_CANCEL then Some ([Q_; Q_; I_; I_; I_; I_], 72)%nat
  else if op =? CTL_GROUP_COMMIT then Some ([Q_; Q_; Q_; Q_; Q_; I_; I_], 56)%nat
  else if op =? CTL_GROUP_STATUS then Some ([Q_; Q_; Q_; I_; I_; I_; I_; I_], 60)%nat
  else None.

(** [(fields[k] for k in names)] *)
Definition body_vals (b : ref_body) : list val :=
  match b with
  | RefMode a b d e => [VI a; VI b; VB d; VI e]
  | RefBegin a b c d g e er r bc k n f => [VI a; VI b; VI c; VI d; VB g; VI e; VI er; VI r; VI bc; VI k; VI n; VI f]
  | RefChunk a o l r d => [VI a; VI o; VI l; VI r; VB d]
  | RefSeal a s => [VI a; VB s]
  | RefCommit a b c e er r z p l s => [VI a; VI b; VI c; VI e; VI er; VI r; VI z; VF p; VF l; VI s]
  | RefAbort a b c d | RefCancel a b c d => [VI a; VI b; VI c; VI d]
  | RefStatus a b c d e f | GroupJoin a b c d e f | GroupCancel a b c d e f => [VI a; VI b; VI c; VI d; VI e; VI f]
  | GroupCommit a b c d e f g => [VI a; VI b; VI c; VI d; VI e; VI f; VI g]
  | GroupStatus a b c d e f g h => [VI a; VI b; VI c; VI d; VI e; VI f; VI g; VI h]
  end.

(** [dict(zip(names, vals))] *)
Definition body_of (op : Z) (vs : list val) : option ref_body :=
  match vs with
  | [VI a; VI b; VB d; VI e] => if op =? CTL_REFERENCE_MODE then Some (RefMode a b d e) else None
  | [VI a; VI b; VI c; VI d; VB g; VI e; VI er; VI r; VI bc; VI k; VI n; VI f] =>
      if op =? CTL_REFERENCE_BEGIN then Some (RefBegin a b c d g e er r bc k n f) else None
  | [VI a; VI o; VI l; VI r; VB d] => if op =? CTL_REFERENCE_CHUNK then Some (RefChunk a o l r d) else None
  | [VI a; VB s] => if op =? CTL_REFERENCE_SEAL then Some (RefSeal a s) else None
  | [VI a; VI b; VI c; VI e; VI er; VI r; VI z; VF p; VF l; VI s] =>
      if op =? CTL_REFERENCE_COMMIT then Some (RefCommit a b c e er r z p l s) else None
  | [VI a; VI b; VI c; VI d] =>
      if op =? CTL_REFERENCE_ABORT then Some (RefAbort a b c d)
      else if op =? CTL_CANCEL_REFERENCE then Some (RefCancel a b c d) else None
  | [VI a; VI b; VI c; VI d; VI e; VI f] =>
      if op =? CTL_REFERENCE_STATUS then Some (RefStatus a b c d e f)
      else if op =? CTL_GROUP_JOIN then Some (GroupJoin a b c d e f)
      else if op =? CTL_GROUP_CANCEL then Some (GroupCancel a b c d e f) else None
  | [VI a; VI b; VI c; VI d; VI e; VI f; VI g] =>
      if op =? CTL_GROUP_COMMIT then Some (GroupCommit a b c d e f g) else None
  | [VI a; VI b; VI c; VI d; VI e; VI f; VI g; VI h] =>
      if op =? CTL_GROUP_STATUS then Some (GroupStatus a b c d e f g h) else None
  | _ => None
  end.

(** [0 < revision == expected + 1 <= 0xFFFFFFFF] *)
Definition next_revision (expected r : Z) : bool := (0 <? r) && (r =? expected + 1) && (expected + 1 <=? M32).

Definition group_member_ok (sid gid epoch i count z : Z) : bool :=
  nz sid && nz gid && nz epoch && (2 <=? count) && (count <=? 4) && (i <? count) && negb (nz z).

Definition validate_reference_body (b : ref_body) : bool :=
  match b with
  | RefMode sid _ digest enable => nz sid && (enable =? 1) && any_byte digest
  | RefBegin sid up rid _ digest epoch er r bc knots n fl =>
      nz sid && nz up && nz rid && nz epoch && next_revision er r &&
      (2 <=? knots) && (knots <=? MAX_REFERENCE_KNOTS) && (1 <=? n) && (n <=? 16) &&
      (Z.land fl (Z.lnot 3) =? 0) &&
      (bc =? knots * (8 + 8 * n * (if flag fl 1 then 2 else 1))) && any_byte digest
  | RefChunk up off len z data =>
      nz up && negb (nz z) && (1 <=? len) && (len <=? 88) && (off <=? MAX_REFERENCE_BYTES - len) &&
      negb (any_byte (drop (Z.to_nat len) data))
  | RefSeal up _ => nz up
  | RefCommit sid up rid epoch er r z cut latest budget =>
      nz sid && nz up && nz rid && nz epoch && next_revision er r && negb (nz z) &&
      isfinite cut && isfinite latest && (cut >=f f0) && (latest >=f f0) &&
      (if nz er then (f0 <f latest) && (latest <=f cut) && negb (nz budget)
       else (latest =f cut) && (cut =f f0))
  | RefAbort sid id epoch r => nz sid && nz id && nz epoch && (r =? 0)
  | RefCancel sid id epoch r => nz sid && nz id && nz epoch && (0 <? r)
  | RefStatus _ _ _ res op z =>
      (0 <=? res) && (res <=? REF_NOT_ADMITTED) && negb (nz z) &&
      (CTL_REFERENCE_BEGIN <=? op) && (op <=? CTL_CANCEL_REFERENCE)
  | GroupJoin sid gid epoch i count z | GroupCancel sid gid epoch i count z => group_member_ok sid gid epoch i count z
  | GroupCommit sid gid up rid budget epoch i =>
      nz sid && nz gid && nz up && nz rid && nz epoch && nz budget && (budget <=? GROUP_MAX_BUDGET_NS) && (i <? 4)
  | GroupStatus gid _ _ res op st peer z =>
      nz gid && (0 <=? res) && (res <=? REF_GROUP_PEER) &&
      ((op =? 0) || ((CTL_GROUP_JOIN <=? op) && (op <=? CTL_GROUP_CANCEL))) &&
      (st <=? GS_DONE) && (peer <=? PEER_STALE) && negb (nz z)
  end.

Definition digest_ok (b : ref_body) : bool :=
  match b with
  | RefMode _ _ d _ | RefBegin _ _ _ _ d _ _ _ _ _ _ _ | RefSeal _ d => (length d =? 32)%nat
  | _ => true
  end.

(** The dict handed to the packer: a chunk's data grows to its 88-byte field. *)
Definition widen (b : ref_body) : result ref_body :=
  match b with
  | RefChunk up off len z data =>
      raise_if negb (Z.of_nat (length data) =? len) of ValueError "chunk length does not match data" ;;
      Ok (RefChunk up off len z (ljust 88 data))
  | _ => Ok b
  end.
Definition narrow (b : ref_body) : ref_body :=
  match b with
  | RefChunk up off len z data => RefChunk up off len z (take (Z.to_nat len) data)
  | _ => b
  end.

Definition version_of (op : Z) : Z := if op =? CTL_REFERENCE_MODE then VERSION else REFERENCE_VERSION.

Definition pack_reference_control (b : ref_body) (seq t : Z) (negotiated : bool) : result bytes :=
  match layout (op_of b) with
  | None => Err (ValueError "unknown reference opcode")
  | Some (fmt, padding) =>
      raise_if negb (op_of b =? CTL_REFERENCE_MODE) && negb negotiated
        of ValueError "reference capability has not been negotiated" ;;
      raise_if negb (digest_ok b) of ValueError "digest must contain exactly 32 bytes" ;;
      w <-- widen b ;;
      raise_if negb (validate_reference_body w) of ValueError "malformed reference control body" ;;
      packed <-- pack fmt (body_vals w) ;;
      let body := packed ++ replicate padding 0 in
      pack CTL_FMT [VI MAGIC_CTL; VI (version_of (op_of b)); VI (op_of b); VI seq; VI 0; VI t; VB body]
  end.

Definition unpack_reference_control (data : bytes) (negotiated : bool) : result (Z * Z * ref_body) :=
  raise_if negb (length data =? CTL_SIZE)%nat of ValueError "reference control must contain 128 bytes" ;;
  vals <-- unpack CTL_FMT data ;;
  match vals with
  | [VI magic; VI version; VI op; VI seq; VI arg; VI _; VB body] =>
      raise_if negb (magic =? MAGIC_CTL) || negb (version =? version_of op) || nz arg
        of ValueError "unnegotiated or malformed reference control header" ;;
      match layout op with
      | None => Err (ValueError "unnegotiated or malformed reference control header")
      | Some (fmt, padding) =>
          raise_if negb (op =? CTL_REFERENCE_MODE) && negb negotiated
            of ValueError "unnegotiated or malformed reference control header" ;;
          raise_if any_byte (drop (104 - padding) body) of ValueError "reference reserved bytes must be zero" ;;
          p <-- unpack_from fmt body ;;
          match body_of op p with
          | None => Err StructError
          | Some b =>
              raise_if negb (validate_reference_body b) of ValueError "malformed reference control body" ;;
              Ok (op, seq, narrow b)
          end
      end
  | _ => Err StructError
  end.

(** *** Reference commands and states *)

Definition REFERENCE_CMD_HEAD : list fld := [I_; H_; H_; I_; I_; Q_; Q_; Q_; I_; I_; D; I_; I_].
Definition REFERENCE_CMD_FMT : list fld := REFERENCE_CMD_HEAD ++ doubles 48.
Definition REFERENCE_TAIL_HEAD : list fld := [Q_; I_; I_; D; D; I_; I_].
Definition REFERENCE_STATE_TAIL_FMT : list fld := REFERENCE_TAIL_HEAD ++ doubles 48.
Definition REFERENCE_CMD_SIZE : nat := calcsize REFERENCE_CMD_FMT.
Definition REFERENCE_STATE_SIZE : nat := (STATE_SIZE + calcsize REFERENCE_STATE_TAIL_FMT)%nat.

Record ref_command := {
  r_n : Z; r_seq : Z; r_arm_epoch : Z; r_t_mono_ns : Z; r_session_id : Z; r_reference_id : Z; r_revision : Z;
  r_age_us : Z; r_phase : float; r_valid_for_us : Z; r_phase_window_us : Z; r_tau_ff : vec; r_kp : vec; r_kd : vec }.

Definition unpack_reference_command (data : bytes) (negotiated : bool) : result ref_command :=
  raise_if negb negotiated || negb (length data =? REFERENCE_CMD_SIZE)%nat
    of ValueError "unnegotiated or wrong-size reference command" ;;
  v <-- unpack REFERENCE_CMD_FMT data ;;
  match take 13 v with
  | [VI magic; VI version; VI n; VI seq; VI epoch; VI t; VI sid; VI rid; VI rev; VI age; VF phase; VI valid_for; VI window] =>
      raise_if negb (magic =? MAGIC_CMD) || negb (version =? REFERENCE_VERSION) || negb ((1 <=? n) && (n <=? 16))
               || negb (nz epoch && nz sid && nz rid && nz rev && nz valid_for && nz window)
               || negb (isfinite phase) || (phase <f f0) || (valid_for <? age)
        of ValueError "invalid reference command binding/freshness" ;;
      let d := floats (drop 13 v) in
      let k := Z.to_nat n in
      let arrays := [joint_slice d 0 16; joint_slice d 1 16; joint_slice d 2 16] in
      raise_if existsb (fun a => negb (all_finite a)) arrays
               || existsb (existsb (fun x => x <f f0)) [joint_slice d 1 16; joint_slice d 2 16]
               || existsb (fun a => existsb (fun x => negb (x =f f0)) (drop k a)) arrays
        of ValueError "invalid reference command arrays/padding" ;;
      Ok {| r_n := n; r_seq := seq; r_arm_epoch := epoch; r_t_mono_ns := t; r_session_id := sid; r_reference_id := rid;
            r_revision := rev; r_age_us := age; r_phase := phase; r_valid_for_us := valid_for;
            r_phase_window_us := window; r_tau_ff := joint_slice d 0 k; r_kp := joint_slice d 1 k; r_kd := joint_slice d 2 k |}
  | _ => Err StructError
  end.

Definition pack_reference_command (c : ref_command) (negotiated : bool) : result bytes :=
  raise_if existsb (fun a => negb (Z.of_nat (length a) =? r_n c)) [r_tau_ff c; r_kp c; r_kd c]
    of ValueError "reference command arrays must have length n" ;;
  arrays <-- rmap padded [r_tau_ff c; r_kp c; r_kd c] ;;
  data <-- pack REFERENCE_CMD_FMT ([VI MAGIC_CMD; VI REFERENCE_VERSION; VI (r_n c); VI (r_seq c); VI (r_arm_epoch c);
             VI (r_t_mono_ns c); VI (r_session_id c); VI (r_reference_id c); VI (r_revision c); VI (r_age_us c);
             VF (r_phase c); VI (r_valid_for_us c); VI (r_phase_window_us c)] ++ map VF (concat arrays)) ;;
  _ <-- unpack_reference_command data negotiated ;;
  Ok data.

Record ref_state := {
  t_reference_id : Z; t_revision : Z; t_status : Z; t_phase : float; t_envelope_phase : float;
  t_envelope_age_us : Z; t_envelope_seq : Z; t_q_ref : vec; t_qd_ref : vec; t_qdd_ref : vec }.

(** A received state, with its reference record when the mode is negotiated. *)
Record rt_state := { rt : State; rt_reference : option ref_state }.

Definition unpack_reference_state (data : bytes) (negotiated : bool) : result (State * ref_state) :=
  raise_if negb negotiated || negb (length data =? REFERENCE_STATE_SIZE)%nat
    of ValueError "unnegotiated or wrong-size reference state" ;;
  let base := take STATE_SIZE data in
  raise_if negb (le_val (take 2 (drop 4 base)) =? REFERENCE_VERSION) of ValueError "wrong reference state version" ;;
  let base := take 4 base ++ le 2 VERSION ++ drop 6 base in
  raise_if any_byte (drop (STATE_SIZE - 16) base) of ValueError "reference state reserved bytes must be zero" ;;
  state <-- unpack_state base ;;
  v <-- unpack_from REFERENCE_STATE_TAIL_FMT (drop STATE_SIZE data) ;;
  match take 7 v with
  | [VI rid; VI rev; VI status; VF phase; VF env; VI age; VI sq] =>
      raise_if (REFERENCE_CANCELLED <? status) || existsb (fun x => negb (isfinite x) || (x <f f0)) [phase; env]
        of ValueError "invalid reference state status/phase" ;;
      let d := floats (drop 7 v) in
      let k := Z.to_nat (s_n state) in
      let arrays := [joint_slice d 0 16; joint_slice d 1 16; joint_slice d 2 16] in
      raise_if existsb (fun a => negb (all_finite a)) arrays
               || existsb (fun a => existsb (fun x => negb (x =f f0)) (drop k a)) arrays
        of ValueError "invalid reference state values/padding" ;;
      Ok (state, {| t_reference_id := rid; t_revision := rev; t_status := status; t_phase := phase;
            t_envelope_phase := env; t_envelope_age_us := age; t_envelope_seq := sq;
            t_q_ref := joint_slice d 0 k; t_qd_ref := joint_slice d 1 k; t_qdd_ref := joint_slice d 2 k |})
  | _ => Err StructError
  end.

(** ** Lemmas *)

Lemma ljust_exact n b : length b = n -> ljust n (take n b) = b.
Proof. intros <-. unfold ljust. by rewrite firstn_all, Nat.sub_diag, app_nil_r. Qed.

Lemma any_byte_zeros k : any_byte (replicate k 0) = false.
Proof. induction k as [|k IH]; [done|]. simpl. exact IH. Qed.

Lemma any_byte_ljust n b : any_byte (ljust n b) = any_byte b.
Proof.
  unfold ljust, any_byte. rewrite existsb_app. fold (any_byte (replicate (n - length b) 0)).
  by rewrite any_byte_zeros, orb_false_r.
Qed.

(** The control frame carries any 104-byte body unchanged. *)
Lemma ctl_frame version op seq arg t body bs :
  length body = 104%nat ->
  pack CTL_FMT [VI MAGIC_CTL; VI version; VI op; VI seq; VI arg; VI t; VB body] = Ok bs ->
  length bs = CTL_SIZE /\
  unpack CTL_FMT bs = Ok [VI MAGIC_CTL; VI version; VI op; VI seq; VI arg; VI t; VB body].
Proof.
  intros Hl H. assert (Forall val_ok [VI MAGIC_CTL; VI version; VI op; VI seq; VI arg; VI t; VB body]) as Hv
    by (repeat constructor).
  destruct (pack_ok _ _ _ [] H Hv) as [Hlen _]. split; [exact Hlen|].
  rewrite (unpack_pack _ _ _ H Hv). cbn [zip_with CTL_FMT canon]. by rewrite (ljust_exact 104).
Qed.

Lemma layout_size op fmt padding : layout op = Some (fmt, padding) -> (calcsize fmt + padding = 104)%nat.
Proof.
  unfold layout. intros H.
  repeat match type of H with (if ?c then _ else _) = _ => destruct c; [injection H as <- <-; reflexivity|] end.
  done.
Qed.

(** Byte strings at the width of their field. *)
Definition exact_bytes (b : ref_body) : Prop :=
  match b with
  | RefMode _ _ d _ | RefBegin _ _ _ _ d _ _ _ _ _ _ _ | RefSeal _ d => length d = 32%nat
  | RefChunk _ _ _ _ d => length d = 88%nat
  | _ => True
  end.

Lemma body_of_canon b fmt padding :
  layout (op_of b) = Some (fmt, padding) -> exact_bytes b ->
  body_of (op_of b) (zip_with canon fmt (body_vals b)) = Some b.
Proof.
  destruct b; cbn [op_of exact_bytes]; intros [= <- <-] Hd;
    cbn [zip_with body_vals canon Q_ I_ H_]; rewrite ?(ljust_exact _ _ Hd); reflexivity.
Qed.

Lemma widen_exact b w :
  digest_ok b = true -> widen b = Ok w -> validate_reference_body w = true ->
  exact_bytes w /\ op_of w = op_of b /\ narrow w = b.
Proof.
  destruct b; simpl; intros Hd H Hv; try (injection H as <-; simpl in *; by repeat split; try apply Nat.eqb_eq).
  pass_guard H E. injection H as <-. simpl in *. breflect.
  assert (len <= 88) by lia. assert (length data <= 88)%nat by lia.
  split; [by apply ljust_length|]. split; [done|]. f_equal. unfold ljust.
  rewrite take_app_le, firstn_all2 by lia. done.
Qed.

Lemma body_vals_ok b w : widen b = Ok w -> Forall val_ok (body_vals b) -> Forall val_ok (body_vals w).
Proof.
  destruct b; simpl; intros H Hv; try (by injection H as <-).
  pass_guard H E. injection H as <-. repeat constructor.
Qed.

(** ** Properties *)

(** C40: a reference control frame that the packer emits is read back by the
    unpacker as the same opcode, sequence number and fields, for every one of
    the twelve opcodes (the packer and the unpacker agree on layout, reserved
    bytes, version and validation, and a chunk keeps its data's length). *)
Theorem reference_control_roundtrip b seq t negotiated bs :
  Forall val_ok (body_vals b) ->
  pack_reference_control b seq t negotiated = Ok bs ->
  length bs = CTL_SIZE /\ unpack_reference_control bs negotiated = Ok (op_of b, seq, b).
Proof.
  intros Hvals H. unfold pack_reference_control in H.
  destruct (layout (op_of b)) as [[fmt padding]|] eqn:El; [|done].
  pass_guard H En. pass_guard H Ed. apply negb_false_iff in Ed.
  apply rbind_ok in H as (w & Hw & H). pass_guard H Ev. apply negb_false_iff in Ev.
  apply rbind_ok in H as (packed & Hp & H). cbv zeta in H.
  destruct (widen_exact b w Ed Hw Ev) as (Hx & Ho & Hn).
  pose proof (body_vals_ok b w Hw Hvals) as Hok.
  pose proof (layout_size _ _ _ El) as Hs. destruct (pack_ok _ _ _ [] Hp Hok) as [Hlen _].
  assert (length (packed ++ replicate padding 0) = 104%nat) as Hb by (rewrite length_app, length_replicate; lia).
  destruct (ctl_frame _ _ _ _ _ _ _ Hb H) as [Hl Hu].
  split; [done|]. unfold unpack_reference_control. rewrite Hl, Nat.eqb_refl. cbn [negb].
  rewrite Hu. cbn [rbind]. rewrite !Z.eqb_refl. cbn [negb orb nz Z.eqb]. rewrite El, En.
  replace (104 - padding)%nat with (length packed) by lia.
  rewrite drop_app_length, any_byte_zeros. rewrite (unpack_from_pack _ _ _ _ Hp Hok). cbn [rbind].
  rewrite <-Ho in El |- *. rewrite (body_of_canon w fmt padding El Hx), Ev. cbn [negb]. by rewrite Hn.
Qed.

Example reference_control_roundtrip_witness :
  exists bs, pack_reference_control (RefChunk 1 0 2 0 [7; 9]) 3 4 true = Ok bs /\
    unpack_reference_control bs true = Ok (CTL_REFERENCE_CHUNK, 3, RefChunk 1 0 2 0 [7; 9]).
Proof.
  destruct (pack_reference_control (RefChunk 1 0 2 0 [7; 9]) 3 4 true) as [bs|] eqn:E; [|vm_compute in E; discriminate].
  exists bs. split; [reflexivity|].
  apply (reference_control_roundtrip (RefChunk 1 0 2 0 [7; 9]) 3 4 true bs); [repeat constructor|exact E].
Defined.

(** *** Joint arrays *)

Lemma slice_concat arrays k a n :
  Forall (fun a => length a = 16%nat) arrays -> arrays !! k = Some a -> (n <= 16)%nat ->
  joint_slice (concat arrays) k n = take n a.
Proof.
  intros Hall. revert k. induction Hall as [|b arrays Hb Hall IH]; intros k Hk Hn; [done|].
  unfold joint_slice. destruct k as [|k]; simpl in Hk.
  - injection Hk as ->. cbn [concat]. rewrite Nat.mul_0_l, drop_0. apply take_app_le. lia.
  - cbn [concat]. replace (S k * 16)%nat with (length b + k * 16)%nat by lia.
    rewrite <-drop_drop, drop_app_length. by apply IH.
Qed.

Lemma padded_ok v w : padded v = Ok w ->
  length w = 16%nat /\ (length v <= 16)%nat /\ take (length v) w = v /\
  drop (length v) w = replicate (16 - length v) f0.
Proof.
  unfold padded. intros H. pass_guard H E. injection H as <-. apply Nat.ltb_ge in E.
  rewrite length_app, length_replicate, take_app_length, drop_app_length. unfold MAX_JOINTS in *. split; [lia|]. done.
Qed.

Lemma padded_arrays l arrays : rmap padded l = Ok arrays -> Forall (fun a => length a = 16%nat) arrays.
Proof.
  intros H%rmap_ok_Forall2. induction H as [|v w l ws Hp _ IH]; constructor; [|done]. by apply padded_ok in Hp as [? _].
Qed.

Lemma padded_valid l arrays :
  rmap padded l = Ok arrays -> Forall (Forall (fun x => valid x = true)) l ->
  Forall val_ok (map VF (concat arrays)).
Proof.
  intros H%rmap_ok_Forall2 Hl. apply Forall_map. induction H as [|v w l ws Hp _ IH]; [constructor|].
  inversion Hl as [|? ? H1 H2]; subst. simpl. apply Forall_app. split; [|by apply IH].
  unfold padded in Hp. pass_guard Hp E. injection Hp as <-. apply Forall_app. split; [exact H1|].
  by apply Forall_replicate.
Qed.

Lemma concat_length16 arrays : Forall (fun a : vec => length a = 16%nat) arrays ->
  length (concat arrays) = (length arrays * 16)%nat.
Proof. induction 1 as [|a l Ha _ IH]; simpl; [done|]. rewrite length_app, Ha, IH. lia. Qed.

(** What a packed array reads back as: the caller's values, then zeros. *)
Lemma packed_array l arrays k v :
  rmap padded l = Ok arrays -> l !! k = Some v ->
  joint_slice (concat arrays) k (length v) = v /\
  drop (length v) (joint_slice (concat arrays) k 16) = replicate (16 - length v) f0.
Proof.
  intros H Hk. pose proof (padded_arrays _ _ H) as H16. apply rmap_ok_Forall2 in H.
  destruct (Forall2_lookup_l _ _ _ _ _ H Hk) as (w & Hw & Hp). apply padded_ok in Hp as (Hl & Hv & Ht & Hd).
  rewrite !(slice_concat arrays k w) by (done || lia). rewrite (take_ge w 16) by lia. done.
Qed.

Lemma header_vals head hv vs :
  length head = length hv -> take (length hv) (zip_with canon (head ++ doubles (length vs)) (hv ++ map VF vs)) = zip_with canon head hv /\
  floats (drop (length hv) (zip_with canon (head ++ doubles (length vs)) (hv ++ map VF vs))) = vs.
Proof.
  intros Hl. rewrite zip_with_canon_app by done.
  assert (length (zip_with canon head hv) = length hv) as Hz by (rewrite length_zip_with; lia).
  rewrite take_app_length', drop_app_length' by done. split; [done|]. by apply floats_canon.
Qed.

(** *** Commands *)

Definition tail_size (c : command) : nat :=
  match c_cartesian c, c_pose_hold c with Some _, _ => 168 | None, Some _ => 120 | _, _ => 0 end%nat.
Definition command_version (c : command) : Z :=
  match c_cartesian c, c_pose_hold c with
  | Some _, _ => CARTESIAN_VERSION | None, Some _ => POSE_HOLD_VERSION | _, _ => VERSION end.

Lemma pack_doubles_length n vs bs : pack (doubles n) (map VF vs) = Ok bs -> length bs = (n * 8)%nat.
Proof.
  unfold doubles. revert vs bs. induction n as [|n IH]; intros [|v vs] bs H; try discriminate H; [by injection H as <-|].
  cbn [replicate map pack] in H. apply rbind_ok in H as (a & Ha & H). apply rbind_ok in H as (b & Hb & H).
  injection H as <-. cbn [pack1] in Ha. assert (a = le 8 (float_bits v)) as -> by congruence.
  rewrite length_app, le_length, (IH _ _ Hb). lia.
Qed.

Lemma c_tail_ok c t : c_tail c = Ok t -> length t.1 = tail_size c /\ t.2 = command_version c.
Proof.
  unfold c_tail, tail_size, command_version. intros H. destruct (c_cartesian c) as [s|], (c_pose_hold c) as [s'|];
    try (apply rbind_ok in H as (vs & _ & H); apply rbind_ok in H as (b & Hb & H); apply pack_doubles_length in Hb);
    injection H as <-; done.
Qed.

(** A joint command is 672 bytes plus the tail its version announces, and
    its base layout reads back exactly: the magic, the version, the joint
    count, the sequence number and ARM generation modulo 2^32, the session
    modulo 2^64 and the five joint arrays bit for bit, every slot past the
    joint count zero. *)
Theorem pack_command_layout c bs :
  pack_command c = Ok bs -> Forall (Forall (fun x => valid x = true)) (c_arrays c) ->
  length bs = (CMD_SIZE + tail_size c)%nat /\
  exists d, unpack CMD_FMT (take CMD_SIZE bs) =
      Ok (map VI [MAGIC_CMD; command_version c; c_n c; Z.land (c_seq c) M32; Z.land (c_arm_epoch c) M32;
                  c_t_mono_ns c; Z.land (c_session_id c) M64] ++ map VF d) /\
    forall k v, c_arrays c !! k = Some v -> length v = Z.to_nat (c_n c) /\
      joint_slice d k (length v) = v /\ drop (length v) (joint_slice d k 16) = replicate (16 - length v) f0.
Proof.
  unfold pack_command. intros H Hvalid. pass_guard H En. pass_guard H Ea. pass_guard H Eg. pass_guard H Eb.
  apply rbind_ok in H as (tail & Ht & H). apply rbind_ok in H as (arrays & Harr & H).
  apply rbind_ok in H as (head & Hh & H). injection H as <-. destruct (c_tail_ok _ _ Ht) as [Htl Htv].
  assert (length (concat arrays) = 80%nat) as H80.
  { rewrite concat_length16 by (by eapply padded_arrays). by rewrite (rmap_ok_length _ _ _ Harr). }
  match type of Hh with pack _ ?vs = _ => assert (Forall val_ok vs) as Hv end.
  { apply Forall_app. split; [repeat constructor|]. by eapply padded_valid. }
  destruct (pack_ok _ _ _ [] Hh Hv) as [Hl _]. fold CMD_SIZE in Hl.
  split; [rewrite length_app; lia|]. exists (concat arrays). split.
  - rewrite take_app_length' by done. rewrite (unpack_pack _ _ _ Hh Hv). f_equal.
    unfold CMD_FMT. rewrite zip_with_canon_app by done. rewrite Htv. f_equal.
    rewrite <-H80. clear. induction (concat arrays) as [|x l IH]; simpl; [done|]. by f_equal.
  - intros k v Hk. split; [|by eapply packed_array].
    apply existsb_false_Forall in Ea. apply (Forall_lookup_1 _ _ _ _ Ea) in Hk. simpl in Hk. breflect. lia.
Qed.

Definition command1 : command := {|
  c_n := 2; c_seq := 2 ^ 32 + 5; c_t_mono_ns := 9; c_q_des := [f1; f0]; c_qd_des := [f0; f0]; c_tau_ff := [f0; f1];
  c_kp := [f1; f1]; c_kd := [f1; f1]; c_session_id := 77; c_arm_epoch := 3; c_pose_hold := None; c_cartesian := None |}.
Example pack_command_layout_witness : exists bs, pack_command command1 = Ok bs /\ length bs = 672%nat.
Proof.
  destruct (pack_command command1) as [bs|] eqn:E; [|vm_compute in E; discriminate].
  exists bs. split; [reflexivity|]. apply (pack_command_layout command1 bs E). repeat constructor.
Defined.

(** A reference command that the packer emits is accepted by the unpacker
    and read back field for field: what the PC validates is what the wire
    carries. *)
Theorem reference_command_roundtrip c negotiated bs :
  Forall (Forall (fun x => valid x = true)) [r_tau_ff c; r_kp c; r_kd c] -> valid (r_phase c) = true ->
  pack_reference_command c negotiated = Ok bs ->
  length bs = REFERENCE_CMD_SIZE /\ unpack_reference_command bs negotiated = Ok c.
Proof.
  unfold pack_reference_command. intros Hvalid Hphase H. pass_guard H Ea.
  apply rbind_ok in H as (arrays & Harr & H). apply rbind_ok in H as (data & Hd & H).
  apply rbind_ok in H as (c' & Hc & H). injection H as <-.
  assert (length (concat arrays) = 48%nat) as H48.
  { rewrite concat_length16 by (by eapply padded_arrays). by rewrite (rmap_ok_length _ _ _ Harr). }
  match type of Hd with pack _ ?vs = _ => assert (Forall val_ok vs) as Hv end.
  { apply Forall_app. split; [by repeat constructor|]. by eapply padded_valid. }
  destruct (pack_ok _ _ _ [] Hd Hv) as [Hl _]. split; [exact Hl|]. rewrite Hc. f_equal.
  unfold unpack_reference_command in Hc. pass_guard Hc E0.
  rewrite (unpack_pack _ _ _ Hd Hv) in Hc. cbn [rbind] in Hc.
  set (hv := [VI MAGIC_CMD; VI REFERENCE_VERSION; VI (r_n c); VI (r_seq c); VI (r_arm_epoch c);
             VI (r_t_mono_ns c); VI (r_session_id c); VI (r_reference_id c); VI (r_revision c); VI (r_age_us c);
             VF (r_phase c); VI (r_valid_for_us c); VI (r_phase_window_us c)]) in *.
  destruct (header_vals REFERENCE_CMD_HEAD hv (concat arrays) eq_refl) as [Hh Hf].
  unfold REFERENCE_CMD_FMT in Hc. rewrite H48 in Hh, Hf. change (length hv) with 13%nat in Hh, Hf.
  rewrite Hh, Hf in Hc. cbn [zip_with REFERENCE_CMD_HEAD canon I_ H_ Q_ hv] in Hc.
  pass_guard Hc E1. pass_guard Hc E2. injection Hc as <-.
  apply existsb_false_Forall in Ea. rewrite !Forall_cons in Ea. destruct Ea as (A1 & A2 & A3 & _).
  apply negb_false_iff, Z.eqb_eq in A1, A2, A3.
  assert (forall k v, [r_tau_ff c; r_kp c; r_kd c] !! k = Some v -> Z.of_nat (length v) = r_n c ->
            joint_slice (concat arrays) k (Z.to_nat (r_n c)) = v) as Hs.
  { intros k v Hk <-. rewrite Nat2Z.id. apply (packed_array _ _ _ _ Harr Hk). }
  rewrite (Hs 0%nat (r_tau_ff c)), (Hs 1%nat (r_kp c)), (Hs 2%nat (r_kd c)) by done. by destruct c.
Qed.

Definition ref_command0 : ref_command := {|
  r_n := 1; r_seq := 4; r_arm_epoch := 2; r_t_mono_ns := 10; r_session_id := 5; r_reference_id := 6; r_revision := 1;
  r_age_us := 3; r_phase := f1; r_valid_for_us := 100; r_phase_window_us := 50; r_tau_ff := [f1]; r_kp := [f1]; r_kd := [f0] |}.
Example reference_command_roundtrip_witness :
  exists bs, pack_reference_command ref_command0 true = Ok bs /\ unpack_reference_command bs true = Ok ref_command0.
Proof.
  destruct (pack_reference_command ref_command0 true) as [bs|] eqn:E; [|vm_compute in E; discriminate].
  exists bs. split; [reflexivity|].
  apply (reference_command_roundtrip ref_command0 true bs); [repeat constructor|reflexivity|exact E].
Defined.

(** *** Identities *)

Lemma until_nul_ljust n b : forallb nz b = true -> (length b < n)%nat -> until_nul (ljust n b) = b.
Proof.
  unfold ljust. intros Hb Hn. assert (exists k, n - length b = S k)%nat as [k ->] by (exists (n - length b - 1)%nat; lia).
  clear Hn. induction b as [|c b IH]; simpl in *; [done|]. apply andb_true_iff in Hb as [Hc Hb]. unfold nz in Hc.
  apply negb_true_iff in Hc. rewrite Hc. f_equal. by apply IH.
Qed.

(** The identity a server announces, or a client claims, inside a control
    frame is recovered exactly by the peer when its ids have no NUL byte (as
    every id that [valid_id] admits). *)
Theorem identity_frame_roundtrip i ctype seq arg t body bs :
  forallb nz (id_instance i) = true -> forallb nz (id_model i) = true ->
  pack_identity i = Ok body -> pack_control ctype seq arg t body = Ok bs ->
  exists ctl, unpack_control bs = Ok ctl /\ ctl_type ctl = ctype /\ ctl_seq ctl = seq /\ ctl_arg ctl = arg /\
    ctl_t ctl = t /\ unpack_identity (ctl_raw ctl) = Ok i.
Proof.
  unfold pack_identity. intros Hi Hm H Hb. apply rbind_ok in H as (inst & Hin & H).
  apply rbind_ok in H as (model & Hmo & H). unfold id_bytes in Hin, Hmo.
  pass_guard Hin E1. pass_guard Hmo E2. injection Hin as <-. injection Hmo as <-.
  apply Nat.leb_gt in E1, E2. unfold ID_CHARS in *.
  match type of H with pack _ ?vs = _ => assert (Forall val_ok vs) as Hv by (repeat constructor) end.
  destruct (pack_ok _ _ _ [] H Hv) as [Hl _]. change (calcsize IDENTITY_FMT) with 104%nat in Hl.
  destruct (ctl_frame _ _ _ _ _ _ _ Hl Hb) as [Hlb Hu].
  unfold unpack_control. rewrite Hlb, Nat.eqb_refl, Hu. cbn [negb rbind]. rewrite !Z.eqb_refl. cbn [negb orb].
  eexists. split; [reflexivity|]. do 4 (split; [reflexivity|]). cbn [ctl_raw]. unfold unpack_identity.
  rewrite (take_ge body 104) by lia. rewrite (unpack_pack _ _ _ H Hv). cbn [rbind zip_with IDENTITY_FMT canon I_ Q_].
  rewrite !(ljust_exact 32) by (apply ljust_length; lia). rewrite !until_nul_ljust by done. by destruct i.
Qed.

Definition identity1 : Identity := {|
  id_instance := [102; 114; 51]; id_model := [109]; id_session := 7; id_joint_order_hash := 8; id_identity_hash := 9;
  id_capabilities := 3; id_n := 7 |}.
Example identity_frame_roundtrip_witness :
  exists body bs ctl, pack_identity identity1 = Ok body /\ pack_control 9 0 7 1 body = Ok bs /\
    unpack_control bs = Ok ctl /\ unpack_identity (ctl_raw ctl) = Ok identity1.
Proof.
  destruct (pack_identity identity1) as [body|] eqn:E1; [|vm_compute in E1; discriminate].
  destruct (pack_control 9 0 7 1 body) as [bs|] eqn:E2;
    [|vm_compute in E1; injection E1 as <-; vm_compute in E2; discriminate].
  destruct (identity_frame_roundtrip identity1 9 0 7 1 body bs eq_refl eq_refl E1 E2) as (ctl & H & _ & _ & _ & _ & H').
  exists body, bs, ctl. auto.
Defined.

(** *** Mode selection *)

(** A mode selection that the packer emits is accepted by the unpacker with
    the same session, generation, predecessor, ARM epoch, mode and digest (the
    empty digest of a streamed selection reads as 32 zero bytes); and whatever
    bytes the unpacker accepts carry a nonzero binding whose generation follows
    its predecessor, and a digest exactly when the reference mode is asked for. *)
Theorem mode_select_roundtrip :
  (forall m t bs, pack_mode_select m t = Ok bs ->
     unpack_mode_select bs = Ok {| ms_session_id := ms_session_id m; ms_generation := ms_generation m;
       ms_expected_predecessor := ms_expected_predecessor m; ms_arm_epoch := ms_arm_epoch m;
       ms_desired_mode := ms_desired_mode m; ms_model_digest := ljust 32 (ms_model_digest m); ms_seq := ms_seq m |}) /\
  (forall data m, unpack_mode_select data = Ok m ->
     ms_session_id m <> 0 /\ ms_arm_epoch m <> 0 /\ ms_generation m = ms_expected_predecessor m + 1 /\
     (ms_desired_mode m = MODE_STREAMED \/ ms_desired_mode m = MODE_REFERENCE) /\
     (ms_desired_mode m = MODE_REFERENCE <-> any_byte (ms_model_digest m) = true)).
Proof.
  split.
  - unfold pack_mode_select. intros m t bs H. pass_guard H Em. pass_guard H Ed. pass_guard H Er. pass_guard H Es.
    pass_guard H En. pass_guard H Eg. apply rbind_ok in H as (body & Hb & H).
    match type of Hb with pack _ ?vs = _ => assert (Forall val_ok vs) as Hv by (repeat constructor) end.
    destruct (pack_ok _ _ _ [] Hb Hv) as [Hl _]. change (calcsize MODE_SELECT_FMT) with 104%nat in Hl.
    destruct (ctl_frame _ _ _ _ _ _ _ Hl H) as [Hlb Hu].
    unfold unpack_mode_select. rewrite Hlb, Nat.eqb_refl, Hu. cbn [negb rbind]. rewrite !Z.eqb_refl.
    cbn [negb orb nz Z.eqb]. rewrite (unpack_pack _ _ _ Hb Hv). cbn [rbind zip_with MODE_SELECT_FMT canon I_ Q_ H_].
    assert (length (ljust 32 (ms_model_digest m)) = 32%nat) as H32.
    { apply ljust_length. apply negb_false_iff, orb_true_iff in Ed as [Ed|Ed]; apply Nat.eqb_eq in Ed; lia. }
    rewrite (ljust_exact 32 (ljust 32 _)) by exact H32. rewrite En, Eg, Em.
    assert (Bool.eqb (ms_desired_mode m =? MODE_REFERENCE) (any_byte (ljust 32 (ms_model_digest m))) = true) as ->; [|done].
    unfold is_mode in Em. apply negb_false_iff in Em.
    destruct (ms_desired_mode m =? MODE_REFERENCE) eqn:E1; simpl in *; [by destruct (any_byte _)|].
    rewrite orb_false_r in Em. rewrite Em in Es. simpl in Es. by rewrite Es.
  - unfold unpack_mode_select. intros data m H. inv_chain H. injection H as <-. simpl. unfold nz, is_mode in *.
    breflect. split; [done|]. split; [done|]. split; [done|].
    match goal with H : _ || _ = true |- _ => apply orb_true_iff in H as Hm end. rewrite !Z.eqb_eq in Hm.
    split; [tauto|]. match goal with H : Bool.eqb _ _ = true |- _ => apply Bool.eqb_prop in H as <- end.
    by rewrite Z.eqb_eq.
Qed.

(** *** Online mask *)

(** The online mask and the low flag bits share a word without disturbing
    each other: storing a mask reads back that mask and keeps every flag below
    bit 16. *)
Theorem online_mask_roundtrip fl mask w :
  with_online_mask fl mask = Ok w ->
  online_mask w = mask /\ (forall i, 0 <= i < 16 -> Z.testbit w i = Z.testbit fl i).
Proof.
  unfold with_online_mask, online_mask, ONLINE_MASK_BITS, ONLINE_MASK_SHIFT. intros H. pass_guard H E. injection H as <-.
  breflect. assert (forall i, 16 <= i -> Z.testbit mask i = false) as Hm.
  { intros i Hi. rewrite <-(Z.mod_small mask (2 ^ 16)) by lia. apply Z.mod_pow2_bits_high. lia. }
  assert (forall i, Z.testbit 0xFFFF i = ((0 <=? i) && (i <? 16))) as Hf.
  { intros i. change 0xFFFF with (Z.ones 16). destruct (Z.leb_spec 0 i); simpl.
    - destruct (Z.ltb_spec i 16); [by rewrite Z.ones_spec_low by lia|by rewrite Z.ones_spec_high by lia].
    - by rewrite Z.testbit_neg_r. }
  split.
  - apply Z.bits_inj'. intros i Hi. rewrite Z.shiftr_spec, Z.land_spec, Z.lor_spec, Z.land_spec, Z.lnot_spec by lia.
    rewrite !Z.shiftl_spec by lia. replace (i + 16 - 16) with i by lia. rewrite Hf.
    destruct (Z.ltb_spec i 16).
    + rewrite (proj2 (Z.leb_le 0 i)) by lia. simpl. by rewrite andb_false_r, andb_true_r.
    + rewrite Hm by lia. rewrite !andb_false_r. done.
  - intros i Hi. rewrite Z.lor_spec, Z.land_spec, Z.lnot_spec, !Z.shiftl_spec by lia.
    rewrite !(Z.testbit_neg_r _ (i - 16)) by lia. by rewrite orb_false_r, andb_true_r.
Qed.

Example online_mask_roundtrip_witness : online_mask 0x50001 = 5.
Proof. apply (online_mask_roundtrip FLAG_ARMED 5). reflexivity. Defined.
