(* ===== verification/Observation.v ===== *)
(** RT state packets as execution-contract values
    ([plants/remote_rt/observation.py]): the observation and the authority a
    packet shows, and the tracker of the commands the real-time backend has
    accepted (the APPLIED rule). *)
From Stdlib Require Import SpecFloat Ascii.
From stdpp Require Import pretty.
From S2P Require Import Prelude Floats Motion Wire RtProtocol Contract.

Open Scope Z_scope.

(** [str.encode()] of a contract string. *)
Definition encode (s : string) : bytes := map (fun c => Z.of_N (N_of_ascii c)) (String.list_ascii_of_string s).

Definition FAULT_CODE (code : Z) : string :=
  if code =? FAULT_CMD_LOST then "cmd_lost"
  else if code =? FAULT_CTL_LOST then "ctl_lost"
  else if code =? FAULT_PLANT then "plant"
  else ("code_" +:+ pretty code)%string.

Definition identity_hash_of (identity : RobotIdentity) : result Z :=
  raise_if negb (valid_id (encode (instance_id identity))) of ValueError "instance_id is not a valid RT id" ;;
  identity_hash (encode (instance_id identity)) (joint_order_hash (map encode (joint_names identity))).

Definition writing (s : State) : bool :=
  RtProtocol.armed s && (negb (RtProtocol.faulted s) || RtProtocol.holding s).

(** An observation without values. *)
Definition no_values (iid : string) (v : Validity) (reason : string) : RobotState := {|
  rs_instance_id := iid; rs_validity := v; rs_reason := reason; rs_q := None; rs_dq := None; rs_tau := None;
  rs_selected_q := None; rs_selected_qd := None; rs_output_tau := None; rs_wrench := None; rs_source := None;
  rs_received := None; rs_state_seq := None; rs_last_command_seq := None |}.

Definition opt_if {A} (b : bool) (x : A) : option A := if b then Some x else None.

(** The body of the [try]: the valid observation of a packet. *)
Definition observe (iid : string) (s : State) (received_ns : Z) (pc_domain rt_domain : string) : result RobotState :=
  source <-- Stamp_new (s_t_mono_ns s) RT_HOST rt_domain ;;
  received <-- Stamp_new received_ns PC pc_domain ;;
  RobotState_new {|
    rs_instance_id := iid; rs_validity := VALID; rs_reason := ""; rs_q := Some (s_q s); rs_dq := Some (s_dq s);
    rs_tau := Some (s_tau s); rs_selected_q := opt_if (writing s) (s_q_cmd s);
    rs_selected_qd := opt_if (writing s) (s_qd_cmd s); rs_output_tau := opt_if (writing s) (s_tau_cmd s);
    rs_wrench := opt_if (wrench_valid s) (s_wrench s); rs_source := Some source; rs_received := Some received;
    rs_state_seq := Some (state_seq s); rs_last_command_seq := Some (last_cmd_seq s) |}.

Definition robot_state (state : option State) (identity : RobotIdentity) (received_ns now_ns : Z) (max_age_s : float)
    (pc_domain rt_domain : string) : result RobotState :=
  let iid := instance_id identity in
  match state with
  | None => RobotState_new (no_values iid MISSING "no state received")
  | Some s =>
      h <-- identity_hash_of identity ;;
      if negb (s_identity_hash s =? h) || negb (s_n s =? Z.of_nat (identity_n identity))
      then RobotState_new (no_values iid INVALID "state is from another instance or joint order")
      else
        d <-- int_to_float (now_ns - received_ns) ;;
        if (d *f f1e_9) >f max_age_s then RobotState_new (no_values iid STALE "last state too old")
        else
          match observe iid s received_ns pc_domain rt_domain with
          | Ok r => Ok r
          | Err (ValueError msg) => RobotState_new (no_values iid INVALID msg)
          | Err e => Err e
          end
  end.

(** [f"{n:016x}"] *)
Definition hex_digit (n : Z) : ascii := ascii_of_N (Z.to_N (if n <? 10 then 48 + n else 87 + n)).
Fixpoint hex_digits (k : nat) (n : Z) : string :=
  match k with O => "" | S k => hex_digits k (n / 16) +:+ String (hex_digit (n mod 16)) "" end.
Definition hex16 (n : Z) : string := hex_digits 16 n.

Definition mk_authority (l : Lifecycle) (session : option string) (arm stop : Z) (f : option Fault) (h : bool) : Authority :=
  {| lifecycle := l; session := session; arm_epoch := arm; stop_epoch := stop; fault := f; holding := Some h |}.

Definition authority (s : State) (claimed_session : option Z) (fault_text : string) : result Authority :=
  let session := if s_session_id s =? 0 then None else Some (hex16 (s_session_id s)) in
  let holding := RtProtocol.holding s in
  if RtProtocol.faulted s then
    Authority_new (mk_authority L_FAULTED session (s_arm_epoch s) (RtProtocol.stop_epoch s)
      (Some {| fault_code := FAULT_CODE (RtProtocol.fault_code s); fault_text := fault_text; fault_source := "rt";
               fault_arm_epoch := if s_arm_epoch s =? 0 then None else Some (s_arm_epoch s) |}) holding)
  else if RtProtocol.armed s then
    Authority_new (mk_authority ARMED session (s_arm_epoch s) (RtProtocol.stop_epoch s) None holding)
  else if bool_decide (claimed_session = Some (s_session_id s)) then
    Authority_new (mk_authority CLAIMED session 0 (RtProtocol.stop_epoch s) None false)
  else if is_some session then
    Authority_new (mk_authority CONNECTED session 0 (RtProtocol.stop_epoch s) None false)
  else Authority_new (mk_authority OBSERVING None 0 (RtProtocol.stop_epoch s) None false).

(** ** The APPLIED rule *)

(** 32-bit serial comparison. *)
Definition newer (a b : Z) : bool :=
  let d := Z.land (a - b) M32 in (0 <? d) && (d <? 0x80000000).

(** The client's 32-bit generation comparison, [value >= target] with wraparound. *)
Definition epoch_reached (value target : Z) : bool := Z.land (value - target) 0xFFFFFFFF <? 0x80000000.

Record AppliedTracker := {
  epoch : option Z;
  last_ : option Z;
  candidate : option Z;
  confirmed_ : option Z;
  closed : bool;
  faulted_ : bool;
}.
Definition AppliedTracker_new : AppliedTracker :=
  {| epoch := None; last_ := None; candidate := None; confirmed_ := None; closed := false; faulted_ := false |}.

(** The state of [feed] after the generation test: the second half. *)
Definition feed_in (t : AppliedTracker) (s : State) : AppliedTracker :=
  if match last_ t with Some l => negb (newer (state_seq s) l) | None => false end then t
  else
    let f := faulted_ t || RtProtocol.faulted s in
    if closed t then
      {| epoch := epoch t; last_ := Some (state_seq s); candidate := candidate t; confirmed_ := confirmed_ t;
         closed := true; faulted_ := f |}
    else if negb (RtProtocol.armed s) || RtProtocol.faulted s then
      {| epoch := epoch t; last_ := Some (state_seq s); candidate := None; confirmed_ := confirmed_ t;
         closed := true; faulted_ := f |}
    else
      {| epoch := epoch t; last_ := Some (state_seq s); candidate := Some (last_cmd_seq s);
         confirmed_ := match candidate t with Some c => Some c | None => confirmed_ t end;
         closed := false; faulted_ := f |}.

Definition feed (t : AppliedTracker) (s : State) : AppliedTracker :=
  let fresh := {| epoch := Some (s_arm_epoch s); last_ := None; candidate := None; confirmed_ := None;
                  closed := false; faulted_ := false |} in
  match epoch t with
  | None => feed_in fresh s
  | Some e => if newer (s_arm_epoch s) e then feed_in fresh s
              else if negb (s_arm_epoch s =? e) then t else feed_in t s
  end.

Definition disarm_sent (t : AppliedTracker) : AppliedTracker :=
  {| epoch := epoch t; last_ := last_ t; candidate := None; confirmed_ := confirmed_ t; closed := true;
     faulted_ := faulted_ t |}.

Definition confirmed (t : AppliedTracker) (e : Z) : option Z :=
  if bool_decide (epoch t = Some e) then confirmed_ t else None.
Definition fault_seen (t : AppliedTracker) (e : Z) : bool := faulted_ t && bool_decide (epoch t = Some e).

(** ** Lemmas *)

Inductive event := Fed (s : State) | Disarm.
Definition track (t : AppliedTracker) (e : event) : AppliedTracker :=
  match e with Fed s => feed t s | Disarm => disarm_sent t end.

(** A state that can be evidence in generation [e]. *)
Definition evidence (e : Z) (s : State) : Prop :=
  s_arm_epoch s = e /\ RtProtocol.armed s = true /\ RtProtocol.faulted s = false.

Definition no_disarm (l : list event) : Prop := Forall (fun ev => ev <> Disarm) l.

(** The latest events first: the candidate's state, with no DISARM since. *)
Definition candidate_from (past : list event) (t : AppliedTracker) (c : Z) : Prop :=
  exists l1 s1 l2 e, past = l1 ++ Fed s1 :: l2 /\ epoch t = Some e /\ evidence e s1 /\ last_cmd_seq s1 = c /\
    last_ t = Some (state_seq s1) /\ no_disarm l1.
Definition confirmed_from (past : list event) (t : AppliedTracker) (c : Z) : Prop :=
  exists l0 s2 l1 s1 l2 e, past = l0 ++ Fed s2 :: l1 ++ Fed s1 :: l2 /\ epoch t = Some e /\
    evidence e s1 /\ evidence e s2 /\ last_cmd_seq s1 = c /\ newer (state_seq s2) (state_seq s1) = true /\ no_disarm l1.

Record tracker_inv (past : list event) (t : AppliedTracker) : Prop := {
  inv_candidate c : candidate t = Some c -> candidate_from past t c;
  inv_confirmed c : confirmed_ t = Some c -> confirmed_from past t c;
  inv_closed : closed t = true -> candidate t = None;
}.

Lemma confirmed_skip past t t' ev c :
  epoch t' = epoch t -> confirmed_from past t c -> confirmed_from (ev :: past) t' c.
Proof.
  intros He (l0 & s2 & l1 & s1 & l2 & e & -> & H0 & H). exists (ev :: l0), s2, l1, s1, l2, e. by rewrite He.
Qed.

Lemma tracker_skip past t ev : ev <> Disarm -> tracker_inv past t -> tracker_inv (ev :: past) t.
Proof.
  intros Hev [H1 H2 H3]. split; [intros c Hc..|done].
  - destruct (H1 c Hc) as (l1 & s1 & l2 & e & -> & ? & ? & ? & ? & ?). exists (ev :: l1), s1, l2, e.
    do 5 (split; [done|]). by constructor.
  - by eapply confirmed_skip; [|apply H2].
Qed.

Lemma feed_in_inv past t s e :
  epoch t = Some e -> s_arm_epoch s = e -> tracker_inv past t -> tracker_inv (Fed s :: past) (feed_in t s).
Proof.
  intros He Hs Hinv. unfold feed_in. destruct Hinv as [H1 H2 H3].
  destruct (match last_ t with Some l => _ | None => false end) eqn:Elast; [by apply tracker_skip|].
  destruct (closed t) eqn:Ecl; [|destruct (negb (RtProtocol.armed s) || RtProtocol.faulted s) eqn:Eb].
  - split; simpl; [by rewrite H3|intros c Hc; by eapply confirmed_skip; [|apply H2]|auto].
  - split; simpl; [done|intros c Hc; by eapply confirmed_skip; [|apply H2]|done].
  - apply orb_false_iff in Eb as [Ea Ef]. apply negb_false_iff in Ea.
    assert (evidence e s) as Hev by done.
    split; simpl; [intros c [= <-]|intros c Hc|done].
    + exists [], s, past, e. do 5 (split; [done|]). constructor.
    + destruct (candidate t) as [k|] eqn:Ek; [|by eapply confirmed_skip; [|apply H2]]. injection Hc as ->.
      destruct (H1 c eq_refl) as (l1 & s1 & l2 & e' & -> & He' & Hev1 & Hc1 & Hl & Hno).
      rewrite He in He'. injection He' as <-. rewrite Hl in Elast. apply negb_false_iff in Elast.
      by exists [], s, l1, s1, l2, e.
Qed.

Lemma track_inv past t ev : tracker_inv past t -> tracker_inv (ev :: past) (track t ev).
Proof.
  intros Hinv. destruct ev as [s|]; simpl.
  - unfold feed. set (fresh := {| epoch := _ |}).
    assert (tracker_inv (Fed s :: past) (feed_in fresh s)) as Hf by (by eapply feed_in_inv).
    destruct (epoch t) as [e|] eqn:He; [|done]. destruct (newer (s_arm_epoch s) e); [done|].
    destruct (s_arm_epoch s =? e) eqn:Ee; simpl; [|by apply tracker_skip].
    apply Z.eqb_eq in Ee. by eapply feed_in_inv.
  - destruct Hinv as [H1 H2 H3]. split; simpl; [done| |done].
    intros c Hc. by eapply confirmed_skip; [|apply H2].
Qed.

(** ** Properties *)

(** After any sequence of received states and sent DISARMs, a command seq is
    reported APPLIED in a generation only if an ARMED, fault-free state of that
    generation carried it and a state received later, serially newer and also
    ARMED and fault-free in the same generation, followed before any DISARM:
    duplicates, reordered and stale packets are never evidence. *)
Theorem applied_needs_two_states events e c :
  confirmed (fold_right (fun ev t => track t ev) AppliedTracker_new events) e = Some c ->
  exists l0 s2 l1 s1 l2, events = l0 ++ Fed s2 :: l1 ++ Fed s1 :: l2 /\
    evidence e s1 /\ evidence e s2 /\ last_cmd_seq s1 = c /\
    newer (state_seq s2) (state_seq s1) = true /\ no_disarm l1.
Proof.
  assert (tracker_inv events (fold_right (fun ev t => track t ev) AppliedTracker_new events)) as Hinv
    by (induction events as [|ev past IH]; simpl; [done|by apply track_inv]).
  unfold confirmed. destruct (bool_decide _) eqn:Ee; [|done]. apply bool_decide_eq_true in Ee. intros Hc.
  destruct (inv_confirmed _ _ Hinv c Hc) as (l0 & s2 & l1 & s1 & l2 & e' & Hp & He' & H).
  rewrite Ee in He'. injection He' as <-. by exists l0, s2, l1, s1, l2.
Qed.

Definition packet (seq cmd fl ep : Z) : State := {|
  s_n := 1; state_seq := seq; last_cmd_seq := cmd; s_t_mono_ns := 0; flags := fl; RtProtocol.fault_code := 0;
  s_session_id := 1; s_identity_hash := 0; s_arm_epoch := ep; RtProtocol.stop_epoch := 0;
  s_q := [f0]; s_dq := [f0]; s_tau := [f0]; s_tau_cmd := [f0]; s_q_cmd := [f0]; s_qd_cmd := [f0]; s_wrench := [] |}.

Example applied_needs_two_states_witness :
  exists s1, evidence 7 s1 /\ last_cmd_seq s1 = 5.
Proof.
  destruct (applied_needs_two_states [Fed (packet 11 6 1 7); Fed (packet 10 4 1 7); Fed (packet 10 5 1 7)] 7 5)
    as (l0 & s2 & l1 & s1 & l2 & _ & H1 & _ & H2 & _); [reflexivity|]. by exists s1.
Defined.

(** A FAULTED or disarmed state closes its generation, and so does a DISARM
    this session sends: no event of the same or an older generation ever
    changes what the generation confirmed. *)
Theorem closed_generation_confirms_nothing t e events :
  epoch t = Some e -> closed t = true -> candidate t = None ->
  Forall (fun ev => match ev with Fed s => newer (s_arm_epoch s) e = false | Disarm => True end) events ->
  confirmed (fold_left track events t) e = confirmed t e.
Proof.
  intros He Hc Hn Hall. revert t He Hc Hn. induction Hall as [|ev events Hev _ IH]; intros t He Hc Hn; [done|].
  simpl. assert (epoch (track t ev) = Some e /\ closed (track t ev) = true /\ candidate (track t ev) = None /\
                 confirmed_ (track t ev) = confirmed_ t) as (E1 & E2 & E3 & E4).
  { destruct ev as [s|]; simpl; [|done]. unfold feed. rewrite He, Hev. destruct (s_arm_epoch s =? e); simpl; [|done].
    unfold feed_in. destruct (match last_ t with Some l => _ | None => false end); [done|]. rewrite Hc. simpl.
    by rewrite Hn. }
  rewrite (IH (track t ev)) by done. unfold confirmed. by rewrite E1, He, E4.
Qed.

Example closed_generation_confirms_nothing_witness :
  let t := feed (feed AppliedTracker_new (packet 1 5 1 7)) (packet 2 6 3 7) in
  confirmed (fold_left track [Fed (packet 3 6 1 7); Fed (packet 4 6 1 7)] t) 7 = confirmed t 7.
Proof.
  apply (closed_generation_confirms_nothing (feed (feed AppliedTracker_new (packet 1 5 1 7)) (packet 2 6 3 7)) 7
    [Fed (packet 3 6 1 7); Fed (packet 4 6 1 7)]); [reflexivity..|]. repeat constructor.
Defined.

(** *** Observations *)

Lemma fnv1a64_range data h : 0 <= h < 2 ^ 64 -> 0 <= fnv1a64 data h < 2 ^ 64.
Proof.
  unfold fnv1a64. revert h. induction data as [|b data IH]; intros h Hh; simpl; [done|]. apply IH.
  change M64 with (Z.ones 64). rewrite Z.land_ones by lia. apply Z.mod_pos_bound. lia.
Qed.

Lemma identity_hash_total identity :
  valid_id (encode (instance_id identity)) = true -> exists h, identity_hash_of identity = Ok h.
Proof.
  intros Hv. unfold identity_hash_of, identity_hash. rewrite Hv. cbn [negb].
  assert (0 <= joint_order_hash (map encode (joint_names identity)) < 2 ^ 64) as Hj
    by (apply fnv1a64_range; unfold FNV_OFFSET; lia).
  set (jh := joint_order_hash _) in *. clearbody jh.
  assert (pack [Q_] [VI jh] = Ok (le 8 jh ++ [])) as ->.
  { cbn [pack pack1 Q_]. assert ((0 <=? jh) && (jh <? 256 ^ Z.of_nat 8) = true) as ->; [|done].
    apply andb_true_iff. rewrite Z.leb_le, Z.ltb_lt. simpl. lia. }
  cbn [rbind]. unfold valid_id in Hv. apply andb_true_iff in Hv as [Hv _]. apply andb_true_iff in Hv as [_ Hv].
  unfold id_bytes. apply Nat.ltb_lt in Hv. rewrite (proj2 (Nat.leb_gt _ _)) by lia. cbn [rbind]. eauto.
Qed.

Lemma no_values_ok iid v reason : v <> VALID -> reason <> "" -> RobotState_new (no_values iid v reason) = Ok (no_values iid v reason).
Proof. intros Hv Hr. unfold RobotState_new, no_values. simpl. rewrite !bool_decide_false by done. done. Qed.

Lemma observe_cases iid s rcv pc rt :
  (exists r, observe iid s rcv pc rt = Ok r) \/ (exists m, observe iid s rcv pc rt = Err (ValueError m) /\ m <> "").
Proof.
  unfold observe, Stamp_new. destruct (s_t_mono_ns s <? 0); [by right; eexists|]. simpl.
  destruct (rcv <? 0); [by right; eexists|]. simpl. unfold RobotState_new. simpl.
  unfold vector.
  repeat (match goal with |- context [match ?x with _ => _ end] => destruct x; simpl end;
    first [by right; eexists | by left; eexists | idtac]).
Qed.

(** An RT packet becomes an observation for every valid RT identity and
    64-bit clock difference (the mapping never raises); the result is
    well-formed, and it is VALID, with the packet's own joint values, only for
    a packet of this instance and joint order that is not older than the
    freshness bound on the PC clock.  The selected reference and the output
    torque are reported exactly when the servo was writing, the wrench exactly
    when the packet marks it valid. *)
Theorem robot_state_faithful st identity rcv now max_age pc rt :
  valid_id (encode (instance_id identity)) = true -> Z.abs (now - rcv) < 2 ^ 64 ->
  exists r, robot_state st identity rcv now max_age pc rt = Ok r /\ observation_wf r /\
    (rs_validity r = VALID -> exists s, st = Some s /\ identity_hash_of identity = Ok (s_identity_hash s) /\
       s_n s = Z.of_nat (identity_n identity) /\ fltb max_age (of_Z (now - rcv) *f f1e_9) = false /\
       rs_q r = Some (s_q s) /\ rs_dq r = Some (s_dq s) /\ rs_last_command_seq r = Some (last_cmd_seq s) /\
       rs_selected_q r = opt_if (writing s) (s_q_cmd s) /\ rs_output_tau r = opt_if (writing s) (s_tau_cmd s) /\
       rs_wrench r = opt_if (wrench_valid s) (s_wrench s)).
Proof.
  intros Hid Hage. unfold robot_state.
  assert (forall iid v reason, v <> VALID -> reason <> "" -> exists r, RobotState_new (no_values iid v reason) = Ok r /\
    observation_wf r /\ (rs_validity r = VALID -> False)) as Hnone.
  { intros iid v reason Hv Hr. eexists. split; [by apply no_values_ok|]. split; [|done].
    destruct (RobotState_new_spec (no_values iid v reason)) as [_ H].
    by apply (H (no_values iid v reason)), no_values_ok. }
  destruct st as [s|]; [|destruct (Hnone (instance_id identity) MISSING "no state received") as (r & ? & ? & ?);
    [done..|]; exists r; naive_solver].
  destruct (identity_hash_total identity Hid) as [h Hh]. rewrite Hh. cbn [rbind].
  destruct (s_identity_hash s =? h) eqn:E1;
    [|destruct (Hnone (instance_id identity) INVALID "state is from another instance or joint order") as (r & ? & ? & ?);
      [done..|]; exists r; naive_solver].
  destruct (s_n s =? Z.of_nat (identity_n identity)) eqn:E2;
    [|destruct (Hnone (instance_id identity) INVALID "state is from another instance or joint order") as (r & ? & ? & ?);
      [done..|]; exists r; naive_solver].
  cbn [negb orb]. rewrite int_to_float_ok by done. cbn [rbind]. apply Z.eqb_eq in E1, E2.
  destruct (fltb max_age _) eqn:E3;
    [destruct (Hnone (instance_id identity) STALE "last state too old") as (r & ? & ? & ?); [done..|]; exists r; naive_solver|].
  destruct (observe_cases (instance_id identity) s rcv pc rt) as [[r Hr]|(m & -> & Hm)];
    [|destruct (Hnone (instance_id identity) INVALID m) as (r & ? & ? & ?); [done..|]; exists r; naive_solver].
  rewrite Hr. exists r. split; [done|]. unfold observe in Hr.
  apply rbind_ok in Hr as (src & Hs & Hr). apply rbind_ok in Hr as (rc & Hrc & Hr).
  apply RobotState_new_spec in Hr as [-> Hwf]. split; [done|]. intros _. exists s. simpl. by subst h.
Qed.

Definition fr3 : RobotIdentity := {| instance_id := "fr3"; joint_names := ["j1"]; backend := "fake"; model_id := "m" |}.
Example robot_state_faithful_witness :
  exists r, robot_state (Some (packet 1 2 1 3)) fr3 0 10 f1 "pc" "rt" = Ok r /\ observation_wf r.
Proof.
  destruct (robot_state_faithful (Some (packet 1 2 1 3)) fr3 0 10 f1 "pc" "rt") as (r & H1 & H2 & _);
    [vm_compute; reflexivity..|]. exact (ex_intro _ r (conj H1 H2)).
Defined.
