(* ===== verification/Link.v ===== *)
(** The client of the real-time machine ([plants/remote_rt/client.py]): one
    session of [RtBackend] with its admission, arming, command and reference
    calls, and its two receiving threads.

    A call is a computation on the object; what it hands to the sockets, and the
    control frames it takes from them, are its outputs.  The other threads of
    the process act where a call waits or enters a socket ([pause]): the
    receiver takes a datagram ([Rx]), the control listener takes bytes ([Ctl]) or
    ends on a socket error, another thread streams a command, arms, stops, closes, or runs its own
    exchange while this call does not hold the upload lock.  A loop that waits
    for a deadline runs the number of polls the clock grants it, so a reply may
    come at any poll or never.  Prints and the trace callback are left out; text
    is ASCII.  [hashlib.sha256] and the readers of number text are parameters. *)
From Stdlib Require Import SpecFloat PrimFloat FloatOps.
From stdpp Require Import pretty.
From S2P Require Import Prelude Floats Motion Wire RtProtocol Observation Effects.

Open Scope Z_scope.

(** ** Text *)

(** [sep] as a byte: [text.split(sep)]. *)
Fixpoint split_on (sep : Z) (b : bytes) : list bytes :=
  match b with
  | [] => [[]]
  | c :: b =>
      if c =? sep then [] :: split_on sep b
      else match split_on sep b with w :: ws => (c :: w) :: ws | [] => [[c]] end
  end.
(** [text.split("=", 1)] of a word that has one. *)
Fixpoint split_eq (b : bytes) : option (bytes * bytes) :=
  match b with
  | [] => None
  | c :: b => if c =? 61 then Some ([], b) else (fun p => (c :: p.1, p.2)) <$> split_eq b
  end.
Definition is_space (c : Z) : bool := ((9 <=? c) && (c <=? 13)) || ((28 <=? c) && (c <=? 32)).
(** [text.split()] *)
Fixpoint words (b : bytes) (word : bytes) : list bytes :=
  match b with
  | [] => match word with [] => [] | _ => [word] end
  | c :: b => if is_space c then match word with [] => words b [] | _ => word :: words b [] end else words b (word ++ [c])
  end.
(** [dict(...).get(key)]: the last binding of a key counts. *)
Definition flag_text (key : string) (flags : list (bytes * bytes)) : option bytes := dget (encode key) (rev flags).

Definition is_hex (c : Z) : bool := ((48 <=? c) && (c <=? 57)) || ((97 <=? c) && (c <=? 102)).
(** The keyed clock of the RT host, after the constant ['mono']. *)
Definition parse_clock_domain (token : bytes) : option (bytes * bytes) :=
  match split_on 58 token with
  | [host; boot] =>
      if forallb (fun v => (length v =? 12)%nat && forallb is_hex v) [host; boot] then Some (host, boot) else None
  | _ => None
  end.

(** A [deque(maxlen=k)] *)
Definition push {A} (k : nat) (l : list A) (x : A) : list A := drop (length l + 1 - k) (l ++ [x]).

(** [a or b] of texts *)
Definition or_text (a b : bytes) : bytes := match a with [] => b | _ => a end.

(** ** The object *)

Record RtConfig := { instance_id : bytes; task_model : bytes; max_fault_ms : float; state_timeout_s : float }.

Record link := {
  joint_names : list bytes;
  backend_name : bytes;
  clock_domain : option (bytes * bytes);
  group_committing : bool;
  group_capable : bool;
  group_events : list (ref_body * float);
  tcp : option nat;
  connections : nat;
  udp : bool;
  stop : bool;
  ctl_running : bool;
  ctl_buf : bytes;
  state : option rt_state;
  state_history : list (rt_state * float);
  state_rx_t : float;
  status_q : list Control;
  latched_fault : bytes;
  cmd_seq : Z;
  last_send_t : float;
  last_send_err : float;
  link_rx_t : float;
  active_mask : Z;
  hold_ms : option float;
  rt_setup : bytes;
  supports_pose_hold : bool;
  supports_cartesian : bool;
  identity : option Identity;
  session_id : Z;
  arm_epoch : Z;
  expected_identity : Z;
  stream_fault : bytes;
  reference_mode : bool;
  reference_model : bytes;
  reference_seq : Z;
  upload_id : Z;
  upload_lock : bool;
  upload_cancel : bool;
  reference_wait_seq : option Z;
  reference_reply : option ref_body;
  mode_q : list mode_status;
  mode_generation : Z;
}.
#[export] Instance eta_link : Eta link := fun s => {|
  joint_names := joint_names s; backend_name := backend_name s; clock_domain := clock_domain s;
  group_committing := group_committing s; group_capable := group_capable s; group_events := group_events s; tcp := tcp s;
  connections := connections s; udp := udp s; stop := stop s; ctl_running := ctl_running s; ctl_buf := ctl_buf s;
  state := state s; state_history := state_history s; state_rx_t := state_rx_t s; status_q := status_q s;
  latched_fault := latched_fault s; cmd_seq := cmd_seq s; last_send_t := last_send_t s; last_send_err := last_send_err s;
  link_rx_t := link_rx_t s; active_mask := active_mask s; hold_ms := hold_ms s; rt_setup := rt_setup s;
  supports_pose_hold := supports_pose_hold s; supports_cartesian := supports_cartesian s; identity := identity s;
  session_id := session_id s; arm_epoch := arm_epoch s; expected_identity := expected_identity s;
  stream_fault := stream_fault s; reference_mode := reference_mode s; reference_model := reference_model s;
  reference_seq := reference_seq s; upload_id := upload_id s; upload_lock := upload_lock s; upload_cancel := upload_cancel s;
  reference_wait_seq := reference_wait_seq s; reference_reply := reference_reply s; mode_q := mode_q s;
  mode_generation := mode_generation s |}.

(** [__init__] *)
Definition RtBackend_new (names : list bytes) : link := {|
  joint_names := names; backend_name := []; clock_domain := None; group_committing := false; group_capable := false;
  group_events := []; tcp := None; connections := 0%nat; udp := false; stop := false; ctl_running := false; ctl_buf := [];
  state := None; state_history := []; state_rx_t := f0; status_q := []; latched_fault := []; cmd_seq := 0; last_send_t := f0;
  last_send_err := f0; link_rx_t := f0; active_mask := 0; hold_ms := None; rt_setup := []; supports_pose_hold := false;
  supports_cartesian := false; identity := None; session_id := 0; arm_epoch := 0; expected_identity := 0; stream_fault := [];
  reference_mode := false; reference_model := []; reference_seq := 0; upload_id := 0; upload_lock := false;
  upload_cancel := false; reference_wait_seq := None; reference_reply := None; mode_q := []; mode_generation := 0 |}.

Definition n (s : link) : nat := length (joint_names s).

(** ** The outside *)

(** The joint command of a client; a Cartesian spec that is not a mapping is refused as one of another frame. *)
Inductive cartesian_arg := CartSpec (spec : cartesian_spec) | CartOther.
Record joint_command := {
  jc_position : vec; jc_velocity : option vec; jc_torque : option vec; jc_kp : option vec; jc_kd : option vec;
  jc_pose_hold : option pose_hold_spec; jc_cartesian : option cartesian_arg }.

Record envelope := {
  e_torque : vec; e_kp : vec; e_kd : vec; e_reference : Z; e_revision : Z; e_phase : float; e_sample_received_at : float;
  e_valid_for_s : float; e_phase_window_s : float; e_session : option Z; e_epoch : option Z }.

(** What another thread does: one turn of a receiving loop, or the effect of its call on the shared attributes. *)
Inductive act :=
  | Rx (data : bytes)
  | Ctl (data : bytes)
  | CtlFails
  | Applies (c : joint_command)
  | Envelopes (e : envelope)
  | Interrupts
  | Arms (epoch : Z)
  | Stops
  | Closes
  | Exchanges (frames uploads : nat) (clears : bool).

(** The answers of [recv] on the control socket. *)
Inductive received := Timeout | Broken | Data (b : bytes).

(** The output of a call: the caller or the listener hands a frame to a control
    connection, a datagram goes to the RT host, a whole control frame has arrived. *)
Inductive thread := Caller | Listener.
Inductive said :=
  | Frame (who : thread) (connection : nat) (packet : bytes)
  | Datagram (packet : bytes)
  | Heard (frame : bytes).

Record Env := {
  monotonic : nat -> float;
  monotonic_ns : nat -> Z;
  elsewhere : nat -> list act;
  polls : nat -> nat;
  sends : nat -> bool;
  connects : nat -> bool;
  reads : nat -> received;
  locked : nat -> bool;
  sha256 : bytes -> bytes;
  py_float : bytes -> result float;
  py_int0 : bytes -> result Z;
}.
Existing Class Env.
Existing Class RtConfig.

Definition none_error : exn := TypeError "NoneType".
Definition mib : float := Eval vm_compute in Prim2SF 1e6%float.

Section Link.
Context {cfg : RtConfig} {env : Env}.
Definition LinkM : Type -> Type := M link said.
Definition asking {A} (f : Env -> nat -> A) : LinkM A := k <~ ask ;; ret (f env k).

(** ** Sending *)

(** [_send_command_packet] *)
Definition send_command_packet (pkt : bytes) : LinkM (option Z) :=
  s <~ get ;;
  if negb (udp s) then ret None else
  now <~ asking monotonic ;;
  upd (fun s => s <| last_send_t := now |>) ;~
  sent <~ asking sends ;;
  if sent then say (Datagram pkt) ;~ s <~ get ;; ret (Some (cmd_seq s))
  else when (now -f last_send_err s >f f1) (upd (fun s => s <| last_send_err := now |>)) ;~ ret None.

Definition next_seq (s : link) : Z := Z.land (cmd_seq s + 1) 0xFFFFFFFF.

(** [_send_command_raw] *)
Definition send_command_raw (q qd tau kp kd : vec) (hold : option pose_hold_spec) (cart : option cartesian_spec) : LinkM (option Z) :=
  upd (fun s => s <| cmd_seq := next_seq s |>) ;~
  t <~ asking monotonic_ns ;;
  s <~ get ;;
  pkt <~ lift (pack_command {|
    c_n := Z.of_nat (n s); c_seq := cmd_seq s; c_t_mono_ns := t; c_session_id := session_id s; c_arm_epoch := arm_epoch s;
    c_q_des := take (n s) q; c_qd_des := take (n s) qd; c_tau_ff := take (n s) tau; c_kp := take (n s) kp; c_kd := take (n s) kd;
    c_pose_hold := hold; c_cartesian := cart |}) ;;
  send_command_packet pkt.

Definition zeros (s : link) : vec := replicate (n s) f0.

Definition cart_spec (c : joint_command) : option cartesian_spec :=
  match jc_cartesian c with Some (CartSpec x) => Some x | _ => None end.

(** [apply_command] *)
Definition apply_command (c : joint_command) : LinkM (option Z) :=
  s <~ get ;;
  if is_some (jc_cartesian c) && negb (supports_cartesian s)
  then throw (RtLinkError "RT backend does not advertise the v8 Cartesian law (CAP_CARTESIAN_TRAJECTORY)") else
  if match jc_cartesian c with Some (CartSpec x) => negb (bool_decide (cs_frame x = "base")) | Some CartOther => true | None => false end
  then throw (RtLinkError "a cartesian command must be a base-frame spec (frame: base, task_R, kc, dc)") else
  if is_some (jc_pose_hold c) && is_some (jc_cartesian c)
  then throw (RtLinkError "a command carries a pose-hold tail or a cartesian tail, not both") else
  if is_some (jc_pose_hold c) && negb (supports_pose_hold s)
  then throw (RtLinkError "RT backend does not advertise pose_hold") else
  if negb (udp s) then ret None else
  let or_zeros o := default (zeros s) o in
  send_command_raw (jc_position c) (or_zeros (jc_velocity c)) (or_zeros (jc_torque c)) (or_zeros (jc_kp c)) (or_zeros (jc_kd c))
    (jc_pose_hold c) (cart_spec c).

(** [_reference_scope]: the arguments default to the current session and epoch. *)
Definition reference_scope (session epoch : option Z) : LinkM (Z * Z) :=
  s <~ get ;;
  let sess := default (session_id s) session in
  let ep := default (arm_epoch s) epoch in
  if negb (reference_mode s) || negb (nz ep) || negb (sess =? session_id s) || negb (ep =? arm_epoch s)
  then throw (RtLinkError "reference session/ARM epoch is no longer current") else ret (sess, ep).

(** [apply_reference_envelope] *)
Definition apply_reference_envelope (e : envelope) : LinkM (option Z) :=
  scope <~ reference_scope (e_session e) (e_epoch e) ;;
  upd (fun s => s <| cmd_seq := next_seq s |>) ;~
  now <~ asking monotonic ;;
  age <~ lift (py_int ((now -f e_sample_received_at e) *f mib)) ;;
  let age := Z.max 0 age in
  valid_for <~ lift (py_int (e_valid_for_s e *f mib)) ;;
  if age >? valid_for then ret None else
  t <~ asking monotonic_ns ;;
  window <~ lift (py_int (e_phase_window_s e *f mib)) ;;
  s <~ get ;;
  pkt <~ lift (pack_reference_command {|
    r_n := Z.of_nat (n s); r_seq := cmd_seq s; r_arm_epoch := scope.2; r_t_mono_ns := t; r_session_id := scope.1;
    r_reference_id := e_reference e; r_revision := e_revision e; r_age_us := age; r_phase := e_phase e;
    r_valid_for_us := valid_for; r_phase_window_us := window; r_tau_ff := e_torque e; r_kp := e_kp e; r_kd := e_kd e |}
    (reference_mode s)) ;;
  send_command_packet pkt.

(** ** The receiving threads *)

(** A datagram of [_rx_loop], with its reference record when it carries one *)
Definition read_state (negotiated : bool) (data : bytes) : result rt_state :=
  if negotiated && (length data =? REFERENCE_STATE_SIZE)%nat
  then p <-- unpack_reference_state data true ;; Ok {| rt := p.1; rt_reference := Some p.2 |}
  else p <-- unpack_state data ;; Ok {| rt := p; rt_reference := None |}.

(** One turn of [_rx_loop]; a closed socket ends it. *)
Definition take_state (data : bytes) : LinkM unit :=
  s <~ get ;;
  if negb (udp s) then ret tt else
  match read_state (reference_mode s) data with
  | Err e => if is_ValueError e then ret tt else throw e
  | Ok p =>
      if negb (s_identity_hash (rt p) =? expected_identity s) || negb (s_n (rt p) =? Z.of_nat (n s))
      then upd (fun s => s <| stream_fault := encode "rt state stream identity mismatch" |>)
      else
        now <~ asking monotonic ;;
        upd (fun s => s <| link_rx_t := now |>) ;~
        when (match state s with None => true | Some old => negb (state_seq (rt p) =? state_seq (rt old)) end)
          (upd (fun s => s <| state_rx_t := now |> <| state_history := push 32 (state_history s) (p, now) |>)) ;~
        upd (fun s => s <| state := Some p |>)
  end.

(** [sock.sendall] under the send lock; a caller may wait for either. *)
Definition on_connection (sock : option nat) : LinkM nat :=
  s <~ get ;; match sock with Some c => ret c | None => some_or (tcp s) none_error end.
(** [_send_frame], after the wait for the lock *)
Definition hand_over (who : thread) (pkt : bytes) (sock : option nat) : LinkM unit :=
  c <~ on_connection sock ;;
  say (Frame who c pkt) ;~
  sent <~ asking sends ;;
  if sent then ret tt else throw (RtLinkError "control link down").

(** The packet of [_send_control] *)
Definition control_packet (ctype arg : Z) (text : bytes) : LinkM bytes :=
  when ((ctype =? CTL_DISARM) || (ctype =? CTL_ARM)) (upd (fun s => s <| upload_cancel := true |>)) ;~
  t <~ asking monotonic_ns ;; lift (pack_control ctype 0 arg t text).

Definition session_closed : LinkM unit :=
  upd (fun s => s <| latched_fault := or_text (latched_fault s) (encode "rt control session closed") |> <| ctl_running := false |>).

(** [reply['operation']] and [reply['result']] of a status body *)
Definition reply_operation (b : ref_body) : Z :=
  match b with RefStatus _ _ _ _ op _ | GroupStatus _ _ _ _ op _ _ _ => op | _ => 0 end.
Definition reply_result (b : ref_body) : Z :=
  match b with RefStatus _ _ _ r _ _ | GroupStatus _ _ _ r _ _ _ _ => r | _ => 0 end.

(** A frame of the negotiated extension in [_ctl_loop] *)
Definition take_reference (op seq : Z) (r : ref_body) : LinkM unit :=
  if (op =? CTL_REFERENCE_STATUS) || ((op =? CTL_GROUP_STATUS) && nz (reply_operation r)) then
    s <~ get ;; when (bool_decide (reference_wait_seq s = Some seq)) (upd (fun s => s <| reference_reply := Some r |>))
  else if op =? CTL_GROUP_STATUS then
    now <~ asking monotonic ;; upd (fun s => s <| group_events := push 16 (group_events s) (r, now) |>)
  else ret tt.

Definition fault_text (m : Control) : bytes := encode ("rt fault " +:+ pretty (ctl_arg m) +:+ ": ")%string ++ ctl_text m.

(** Any other frame in [_ctl_loop] *)
Definition take_control (frame : bytes) : LinkM unit :=
  match unpack_control frame with
  | Err e => if is_ValueError e then ret tt else throw e
  | Ok m =>
      if ctl_type m =? CTL_FAULT then upd (fun s => s <| latched_fault := fault_text m |>)
      else if ctl_type m =? CTL_STATUS then upd (fun s => s <| status_q := status_q s ++ [m] |>)
      else if ctl_type m =? CTL_MODE_STATUS then
        match unpack_mode_status frame with
        | Ok r => upd (fun s => s <| mode_q := mode_q s ++ [r] |>)
        | Err e => if is_ValueError e then ret tt else throw e
        end
      else if ctl_type m =? CTL_PING then
        catch is_RtLinkError (pkt <~ control_packet CTL_PONG 0 [] ;; hand_over Listener pkt None) (fun _ => session_closed)
      else ret tt
  end.

Definition take_frame (frame : bytes) : LinkM unit :=
  say (Heard frame) ;~
  s <~ get ;;
  if reference_mode s then
    match unpack_reference_control frame true with
    | Ok (op, seq, r) => take_reference op seq r
    | Err e => if is_ValueError e then take_control frame else throw e
    end
  else take_control frame.

(** One [recv] in [_ctl_loop]; an empty read is the end of the session. *)
Definition take_chunk (data : bytes) : LinkM unit :=
  s <~ get ;;
  if negb (ctl_running s) then ret tt else
  let chunk := take (CTL_SIZE - length (ctl_buf s)) data in
  match chunk with
  | [] => session_closed
  | _ =>
      let buf := ctl_buf s ++ chunk in
      if (length buf <? CTL_SIZE)%nat then upd (fun s => s <| ctl_buf := buf |>)
      else upd (fun s => s <| ctl_buf := [] |>) ;~ take_frame (take CTL_SIZE buf)
  end.

(** ** Other threads *)

Definition perform (a : act) : LinkM unit :=
  match a with
  | Rx data => take_state data
  | Ctl data => take_chunk data
  | CtlFails => upd (fun s => s <| ctl_running := false |>)
  | Applies c => apply_command c ;~ ret tt
  | Envelopes e => apply_reference_envelope e ;~ ret tt
  | Interrupts => upd (fun s => s <| upload_cancel := true |>)
  | Arms ep => upd (fun s => s <| latched_fault := [] |> <| upload_cancel := true |> <| status_q := [] |> <| arm_epoch := ep |>
                           <| mode_generation := 0 |>)
  | Stops => upd (fun s => s <| upload_cancel := true |> <| status_q := [] |> <| arm_epoch := 0 |> <| mode_generation := 0 |>)
  | Closes => upd (fun s => s <| stop := true |> <| ctl_running := false |> <| udp := false |> <| tcp := None |>)
  | Exchanges frames uploads clears =>
      s <~ get ;;
      when (negb (upload_lock s))
        (upd (fun s => s <| reference_seq := reference_seq s + Z.of_nat frames |> <| upload_id := upload_id s + Z.of_nat uploads |>
                         <| upload_cancel := upload_cancel s && negb clears |>
                         <| reference_wait_seq := None |> <| reference_reply := None |>))
  end.
(** An exception ends its own thread. *)
Definition act_out (a : act) : LinkM unit := catch (fun _ => true) (perform a) (fun _ => ret tt).

Fixpoint act_all (l : list act) : LinkM unit :=
  match l with [] => ret tt | a :: l => act_out a ;~ act_all l end.
Definition pause : LinkM unit := l <~ asking elsewhere ;; act_all l.

(** ** Control frames *)

Definition send_frame (pkt : bytes) (sock : option nat) : LinkM unit := pause ;~ hand_over Caller pkt sock.
Definition send_control (ctype arg : Z) (text : bytes) : LinkM unit :=
  pkt <~ control_packet ctype arg text ;; send_frame pkt None.

(** [status_q.get(timeout)]: whatever arrives meanwhile, the oldest entry comes first. *)
Definition status_get (late : string) : LinkM Control :=
  pause ;~ s <~ get ;;
  match status_q s with
  | m :: rest => upd (fun s => s <| status_q := rest |>) ;~ ret m
  | [] => throw (RtLinkError late)
  end.
Definition drain_status : LinkM unit := upd (fun s => s <| status_q := [] |>).

(** [_control_roundtrip] *)
Definition control_roundtrip (ctype arg : Z) : LinkM Control :=
  drain_status ;~ send_control ctype arg [] ;~ status_get "no STATUS ack from server".

(** [_recv_control]: what the handshake reads before the threads run. *)
Fixpoint recv_loop (k : nat) (buf : bytes) : LinkM (option bytes) :=
  if (CTL_SIZE <=? length buf)%nat then ret (Some buf) else
  match k with
  | O => ret (Some buf)
  | S k =>
      s <~ get ;; _ <~ some_or (tcp s) none_error ;;
      r <~ asking reads ;;
      match r with
      | Timeout => recv_loop k buf
      | Broken => throw OSError
      | Data d => match take (CTL_SIZE - length buf) d with [] => ret None | chunk => recv_loop k (buf ++ chunk) end
      end
  end.
Definition recv_control : LinkM (option Control) :=
  k <~ asking polls ;; r <~ recv_loop k [] ;;
  match r with
  | None => ret None
  | Some buf => if (length buf =? CTL_SIZE)%nat then say (Heard buf) ;~ m <~ lift (unpack_control buf) ;; ret (Some m) else ret None
  end.

(** [_await_control]: answers PINGs, returns the first wanted frame. *)
Fixpoint await_loop (k : nat) (wanted : Z) : LinkM (option Control) :=
  match k with
  | O => ret None
  | S k =>
      r <~ recv_control ;;
      match r with
      | None => ret None
      | Some m =>
          if ctl_type m =? CTL_PING then send_control CTL_PONG 0 [] ;~ await_loop k wanted
          else if ctl_type m =? wanted then ret (Some m) else await_loop k wanted
      end
  end.
Definition await_control (wanted : Z) : LinkM (option Control) := k <~ asking polls ;; await_loop k wanted.

(** ** Admission *)

(** [float(flags.get("fault_ms", 0) or 0)] *)
Definition fault_ms_of (flags : list (bytes * bytes)) : result float :=
  match flag_text "fault_ms" flags with Some [] | None => Ok f0 | Some t => py_float env t end.

Definition read_hello (m : Control) : LinkM unit :=
  s <~ get ;;
  if negb (ctl_arg m =? Z.of_nat (n s)) then throw (RtLinkError "server drives another number of joints") else
  let parts := words (ctl_text m) [] in
  let flags := omap split_eq (drop 1 parts) in
  upd (fun s => s <| backend_name := default (ctl_text m) (head parts) |>) ;~
  hold <~ match flag_text "hold_ms" flags with Some t => x <~ lift (py_float env t) ;; ret (Some x) | None => ret None end ;;
  upd (fun s => s <| hold_ms := hold |>) ;~
  (if match hold with Some x => negb (isfinite x) || (x <=f f0) | None => false end
   then throw (RtLinkError "server advertised an invalid hold_ms") else ret tt) ;~
  upd (fun s => s <| supports_pose_hold := bool_decide (flag_text "pose_hold" flags = Some (encode "6")) |>) ;~
  mask <~ match flag_text "active" flags with Some t => lift (py_int0 env t) | None => ret (Z.shiftl 1 (Z.of_nat (n s)) - 1) end ;;
  upd (fun s => s <| active_mask := mask |> <| rt_setup := default (encode "unknown") (flag_text "rt" flags) |>
                  <| clock_domain := parse_clock_domain (default [] (flag_text "clk" flags)) |>
                  <| group_capable := bool_decide (flag_text "g" flags = Some (encode "1")) |>) ;~
  fault_ms <~ lift (fault_ms_of flags) ;;
  if (max_fault_ms cfg >f f0) && (fault_ms >f max_fault_ms cfg) then throw (RtLinkError "server --fault-ms exceeds rt.max_fault_ms")
  else ret tt.

Definition problem (found : bool) (what : string) : list string := if found then [what] else [].
(** The problems of an identity; hashing the id it carries can itself fail. *)
Definition identity_problems (s : link) (want_hash : Z) (i : Identity) : result (list string) :=
  h <-- identity_hash (id_instance i) (id_joint_order_hash i) ;;
  Ok (problem (negb (bool_decide (id_instance i = instance_id cfg))) "server is another instance"
      ++ problem (negb (id_n i =? Z.of_nat (n s))) "server drives another number of joints"
      ++ problem (negb (id_joint_order_hash i =? want_hash)) "server's provisioned joint order differs"
      ++ problem (negb (id_identity_hash i =? h)) "server identity hash is inconsistent"
      ++ problem (negb (bool_decide (task_model cfg = [])) && negb (bool_decide (id_model i = task_model cfg))) "server task model differs").

(** [_admit] *)
Definition admit_ : LinkM unit :=
  s <~ get ;;
  if negb (valid_id (instance_id cfg)) then throw (RtLinkError "rt.instance_id is not a provisioned instance id") else
  hello <~ await_control CTL_HELLO ;;
  hello <~ some_or hello (RtLinkError "no HELLO from server (protocol/version mismatch?)") ;;
  read_hello hello ;~
  frame <~ await_control CTL_IDENTITY ;;
  frame <~ some_or frame (RtLinkError "no IDENTITY from server") ;;
  ident <~ lift (unpack_identity (ctl_raw frame)) ;;
  let want_hash := joint_order_hash (joint_names s) in
  problems <~ lift (identity_problems s want_hash ident) ;;
  match problems with
  | _ :: _ => throw (RtLinkError "RT identity refused")
  | [] =>
      h <~ lift (identity_hash (instance_id cfg) want_hash) ;;
      claim <~ lift (pack_identity {|
        id_instance := instance_id cfg; id_model := task_model cfg; id_session := id_session ident; id_joint_order_hash := want_hash;
        id_identity_hash := h; id_capabilities := 0; id_n := Z.of_nat (n s) |}) ;;
      send_control CTL_CLAIM 0 claim ;~
      status <~ await_control CTL_STATUS ;;
      if match status with Some m => negb (flag (ctl_arg m) FLAG_CLAIMED) | None => true end
      then throw (RtLinkError "RT claim refused") else
      upd (fun s => s <| identity := Some ident |> <| session_id := id_session ident |>
                      <| expected_identity := id_identity_hash ident |>
                      <| supports_pose_hold := flag (id_capabilities ident) CAP_POSE_HOLD |>
                      <| supports_cartesian := flag (id_capabilities ident) CAP_CARTESIAN_TRAJECTORY |>)
  end.

Definition mismatch : exn := RtLinkError "RT protocol mismatch".

Definition open : LinkM unit :=
  upd (fun s => s <| reference_mode := false |> <| reference_model := [] |> <| reference_seq := 0 |> <| upload_id := 0 |>
                  <| mode_generation := 0 |> <| upload_cancel := true |>) ;~
  up <~ asking connects ;;
  if negb up then throw (RtLinkError "cannot reach arm_rt_server") else
  upd (fun s => s <| tcp := Some (connections s) |> <| connections := S (connections s) |>) ;~
  catch (fun e => is_RtLinkError e || is_ValueError e) admit_
    (fun e => upd (fun s => s <| tcp := None |>) ;~ throw (if is_ValueError e then mismatch else e)) ;~
  upd (fun s => s <| udp := true |> <| stop := false |> <| ctl_running := true |> <| ctl_buf := [] |>) ;~
  s <~ get ;;
  send_command_raw (zeros s) (zeros s) (zeros s) (zeros s) (zeros s) None None ;~ ret tt.

(** ** Arming and stopping *)

Definition latest_state : LinkM (option rt_state * float) := s <~ get ;; ret (state s, state_rx_t s).

Fixpoint wait_state (k : nat) : LinkM (option rt_state) :=
  p <~ latest_state ;;
  match p.1, k with
  | None, S k => pause ;~ wait_state k
  | st, _ => ret st
  end.

(** [_seed_command_seq] *)
Definition seed_command_seq : LinkM unit :=
  k <~ asking polls ;; st <~ wait_state k ;;
  st <~ some_or st (RtLinkError "no state from server; refusing to arm without the state stream") ;;
  s <~ get ;;
  when (negb (epoch_reached (cmd_seq s) (last_cmd_seq (rt st)))) (upd (fun s => s <| cmd_seq := last_cmd_seq (rt st) |>)).

Definition enable_all : LinkM unit :=
  upd (fun s => s <| latched_fault := [] |>) ;~
  seed_command_seq ;~
  status <~ control_roundtrip CTL_ARM 0 ;;
  if flag (ctl_arg status) FLAG_FAULTED || negb (flag (ctl_arg status) FLAG_ARMED) then throw (RtLinkError "arm refused") else
  if ctl_seq status =? 0 then throw (RtLinkError "arm ack carries no ARM epoch (pre-v5 server?)") else
  upd (fun s => s <| arm_epoch := ctl_seq status |> <| mode_generation := 0 |>).

(** The state shows the drop that [stop_generation] asked for. *)
Definition drop_shown (acked : float) (stop_generation : Z) (p : option rt_state * float) : bool :=
  match p.1 with
  | Some st => (p.2 >f acked) && negb (armed (rt st)) && epoch_reached (stop_epoch (rt st)) stop_generation
  | None => false
  end.
Fixpoint wait_drop (k : nat) (acked : float) (stop_generation : Z) : LinkM bool :=
  match k with
  | O => ret false
  | S k =>
      p <~ latest_state ;;
      if drop_shown acked stop_generation p then upd (fun s => s <| latched_fault := [] |>) ;~ ret true
      else pause ;~ wait_drop k acked stop_generation
  end.

Definition safe_stop : LinkM bool :=
  s <~ get ;;
  if negb (is_some (tcp s)) then ret true else
  status <~ catch is_RtLinkError (m <~ control_roundtrip CTL_DISARM 0 ;; ret (Some m)) (fun _ => ret None) ;;
  match status with
  | None => ret false
  | Some status =>
      acked <~ asking monotonic ;;
      upd (fun s => s <| arm_epoch := 0 |> <| mode_generation := 0 |>) ;~
      if flag (ctl_arg status) FLAG_ARMED then ret false else
      k <~ asking polls ;; wait_drop k acked (ctl_seq status)
  end.

Definition set_active_mask (mask : Z) : LinkM unit :=
  s <~ get ;;
  let configured := Z.shiftl 1 (Z.of_nat (n s)) - 1 in
  if (mask <? 0) || nz (Z.land mask (Z.lnot configured)) then throw (ValueError "active mask must fit the configured slots") else
  p <~ latest_state ;;
  if match p.1 with Some st => armed (rt st) && nz (Z.land (active_mask s) (Z.lnot mask)) | None => false end
  then throw (RuntimeError "cannot remove an active slot while armed") else
  status <~ control_roundtrip CTL_SET_ACTIVE mask ;;
  if negb (ctl_arg status =? mask) then throw (RtLinkError "active mask refused") else
  upd (fun s => s <| active_mask := mask |>).

Definition close : LinkM unit :=
  catch (fun _ => true) (safe_stop ;~ ret tt) (fun _ => ret tt) ;~
  upd (fun s => s <| stop := true |> <| ctl_running := false |> <| udp := false |> <| tcp := None |>).

(** ** Feedback *)

(** [recent_states] *)
Definition recent_states : LinkM (list (rt_state * float)) := s <~ get ;; ret (state_history s).

Record motor_values := {
  v_position : vec; v_velocity : vec; v_position_cmd : vec; v_velocity_cmd : vec; v_torque_cmd : vec; v_kp : vec; v_kd : vec;
  v_torque : vec }.
(** [motor_state] of the given state, or of the latest one *)
Definition motor_state (given : option rt_state) : LinkM motor_values :=
  s <~ get ;;
  let z := zeros s in
  ret match (match given with Some st => Some st | None => state s end) with
      | None => {| v_position := z; v_velocity := z; v_position_cmd := z; v_velocity_cmd := z; v_torque_cmd := z; v_kp := z;
                   v_kd := z; v_torque := z |}
      | Some st => {| v_position := s_q (rt st); v_velocity := s_dq (rt st); v_position_cmd := s_q_cmd (rt st);
                      v_velocity_cmd := s_qd_cmd (rt st); v_torque_cmd := s_tau_cmd (rt st); v_kp := z; v_kd := z;
                      v_torque := s_tau (rt st) |}
      end.

Record health := {
  h_armed : bool; h_state_fresh : bool; h_latched_fault : bytes; h_any_fault : bool; h_holding : bool; h_holding_q : option vec;
  h_state_age_s : float; h_last_cmd_seq : Z; h_sent_cmd_seq : Z; h_online_mask : Z; h_active_mask : Z; h_session_id : Z;
  h_arm_epoch : Z; h_stop_epoch : Z; h_state_seq : Z; h_state_t_mono_ns : Z }.

Definition age_of (now at_ : float) : float := if at_ >f f0 then now -f at_ else finf.
Definition stale_text (now : float) (s : link) : bytes :=
  if (age_of now (state_rx_t s) >f state_timeout_s cfg) && (state_rx_t s >f f0)
  then if age_of now (link_rx_t s) <=f state_timeout_s cfg then encode "rt servo frozen" else encode "rt state stream stale"
  else [].

Definition motor_health : LinkM health :=
  s <~ get ;; now <~ asking monotonic ;;
  let age := age_of now (state_rx_t s) in
  let fault := or_text (latched_fault s) (or_text (stream_fault s) (stale_text now s)) in
  let of_state {A} (f : State -> A) (d : A) := match state s with Some st => f (rt st) | None => d end in
  ret {| h_armed := of_state armed false; h_state_fresh := negb (age >f state_timeout_s cfg); h_latched_fault := fault;
         h_any_fault := negb (bool_decide (fault = [])) || of_state faulted false; h_holding := of_state holding false;
         h_holding_q := of_state (fun st => if holding st then Some (s_q_cmd st) else None) None;
         h_state_age_s := if state_rx_t s >f f0 then age else fopp f1;
         h_last_cmd_seq := of_state last_cmd_seq 0; h_sent_cmd_seq := cmd_seq s;
         h_online_mask := of_state (fun st => online_mask (flags st)) 0; h_active_mask := active_mask s;
         h_session_id := session_id s; h_arm_epoch := arm_epoch s; h_stop_epoch := of_state stop_epoch 0;
         h_state_seq := of_state state_seq 0; h_state_t_mono_ns := of_state s_t_mono_ns 0 |}.
End Link.
