(* ===== verification/LinkReference.v ===== *)
(** The client's calls of the negotiated reference extension
    ([plants/remote_rt/client.py]): the opt-in, mode selection, the one exchange
    every reference operation goes through, and the operations themselves. *)
From Stdlib Require Import SpecFloat.
From S2P Require Import Prelude Floats Motion Wire RtProtocol Observation Effects Link.

Open Scope Z_scope.

Section LinkReference.
Context {cfg : RtConfig} {env : Env}.

Definition link_error {A} (why : string) : LinkM A := throw (RtLinkError why).

(** ** The opt-in and the mode *)

Definition negotiate_reference (model_token : bytes) : LinkM bool :=
  s <~ get ;;
  match identity s with
  | None => ret false
  | Some ident =>
      if negb (flag (id_capabilities ident) CAP_REFERENCE_HORIZON) then ret false else
      if bool_decide (model_token = []) then throw (ValueError "native reference requires the bound execution model token") else
      let digest := sha256 env model_token in
      if reference_mode s then
        if negb (bool_decide (digest = reference_model s)) then link_error "reconnect to change reference model binding" else ret true
      else
        packet <~ lift (pack_reference_control (RefMode (session_id s) (id_joint_order_hash ident) digest 1) 0 0 false) ;;
        drain_status ;~
        send_frame packet None ;~
        status <~ status_get "no reference mode acknowledgement" ;;
        if negb (bool_decide (ctl_text status = encode "reference mode accepted")) then link_error "reference mode refused" else
        upd (fun s => s <| reference_model := digest |> <| reference_mode := true |>) ;~ ret true
  end.

(** [_mode_q.get(timeout)] *)
Definition mode_get : LinkM mode_status :=
  pause ;~ s <~ get ;;
  match mode_q s with
  | m :: rest => upd (fun s => s <| mode_q := rest |>) ;~ ret m
  | [] => link_error "no mode select acknowledgement"
  end.

(** The digest of the guards of [select_mode] *)
Definition mode_digest (s : link) (ident : Identity) (desired : Z) (model_token : option bytes) : result bytes :=
  if desired =? MODE_REFERENCE then
    raise_if negb (flag (id_capabilities ident) CAP_MODE_SELECT) of RtLinkError "server does not offer mode selection" ;;
    raise_if negb (reference_mode s) of RtLinkError "MODE_REFERENCE requires the disarmed opt-in" ;;
    match model_token with
    | Some (c :: t) => Ok (sha256 env (c :: t))
    | _ => Err (RtLinkError "MODE_REFERENCE requires the bound model token")
    end
  else raise_if negb (desired =? MODE_STREAMED) of ValueError "desired_mode must be MODE_STREAMED or MODE_REFERENCE" ;; Ok [].

Definition select_mode (desired : Z) (model_token : option bytes) : LinkM mode_status :=
  s <~ get ;;
  ident <~ some_or (identity s) (RtLinkError "no identity: connect and claim first") ;;
  if negb (nz (arm_epoch s)) then link_error "mode selection is armed-only" else
  digest <~ lift (mode_digest s ident desired model_token) ;;
  let predecessor := mode_generation s in
  let generation := predecessor + 1 in
  packet <~ lift (pack_mode_select {|
    ms_session_id := session_id s; ms_generation := generation; ms_expected_predecessor := predecessor;
    ms_arm_epoch := arm_epoch s; ms_desired_mode := desired; ms_model_digest := digest; ms_seq := 0 |} 0) ;;
  upd (fun s => s <| mode_q := [] |>) ;~
  send_frame packet None ;~
  reply <~ mode_get ;;
  when ((mt_generation reply =? generation) && (mt_result reply =? MODE_SEL_OK)) (upd (fun s => s <| mode_generation := generation |>)) ;~
  ret reply.

(** ** One exchange *)

(** The named integers of a reply, for the exception that carries it. *)
Definition reply_fields (b : ref_body) : list (string * Z) :=
  match b with
  | RefStatus up rid rev res op z =>
      [("upload_id", up); ("reference_id", rid); ("revision", rev); ("result", res); ("operation", op); ("reserved0", z)]
  | GroupStatus gid deadline sel res op st peer z =>
      [("group_id", gid); ("deadline_ns", deadline); ("selected_ns", sel); ("result", res); ("operation", op); ("state", st);
       ("peer_verdict", peer); ("reserved0", z)]
  | _ => []
  end%string.

Definition interrupted (s : link) : bool := upload_cancel s || stop s.
Definition by_lifecycle : exn := RtLinkError "reference upload interrupted by lifecycle".

(** The wait for the reply; each poll another thread may bring it. *)
Fixpoint await_reply (k : nat) : LinkM (option ref_body) :=
  s <~ get ;;
  match reference_reply s, k with
  | Some r, _ => ret (Some r)
  | None, k =>
      if interrupted s then throw by_lifecycle else
      match k with O => ret None | S k => pause ;~ await_reply k end
  end.

Definition check_scope (scope : option (Z * Z)) : LinkM unit :=
  match scope with Some (sess, ep) => reference_scope (Some sess) (Some ep) ;~ ret tt | None => ret tt end.

(** One turn of the retry loop *)
Definition attempt (first : bool) (operation : Z) (packet : bytes) (scope : option (Z * Z)) (sock : option nat) : LinkM (option ref_body) :=
  s <~ get ;;
  if interrupted s then
    throw (if first && (operation =? CTL_REFERENCE_COMMIT)
           then ReferenceCancelledBeforeDispatch "COMMIT cancelled before dispatch" else by_lifecycle)
  else
    check_scope scope ;~
    send_frame packet sock ;~
    k <~ asking polls ;; await_reply k.

Definition settle (operation : Z) (r : ref_body) : LinkM ref_body :=
  if negb (reply_operation r =? operation) || negb (reply_result r =? REF_OK)
  then throw (ReferenceRefused operation (reply_result r) (reply_fields r)) else ret r.

Definition close_exchange : LinkM unit := upd (fun s => s <| reference_wait_seq := None |> <| reference_reply := None |>).

(** [_reference_exchange] of the operation of [body]: one exact retry. *)
Definition reference_exchange (body : ref_body) (scope : option (Z * Z)) (sock : option nat) : LinkM ref_body :=
  let operation := op_of body in
  check_scope scope ;~
  s <~ get ;;
  let connection := match sock with Some c => Some c | None => tcp s end in
  upd (fun s => s <| reference_seq := reference_seq s + 1 |>) ;~
  s <~ get ;;
  let seq := reference_seq s in
  if seq >? 0xFFFFFFFF then link_error "reference request sequence exhausted; reconnect" else
  t <~ asking monotonic_ns ;;
  packet <~ lift (pack_reference_control body seq t (reference_mode s)) ;;
  upd (fun s => s <| reference_wait_seq := Some seq |> <| reference_reply := None |>) ;~
  finally
    (r <~ attempt true operation packet scope connection ;;
     match r with
     | Some r => settle operation r
     | None =>
         r <~ attempt false operation packet scope connection ;;
         match r with
         | Some r => settle operation r
         | None => link_error "no reference acknowledgement after exact retry"
         end
     end)
    close_exchange.

(** ** Upload *)

(** [np.diff(times) > 0] *)
Fixpoint increasing (times : vec) : bool :=
  match times with a :: (b :: _) as rest => ((b -f a) >f f0) && increasing rest | _ => true end.
Definition shaped (k m : nat) (rows : mat) : bool := (length rows =? k)%nat && forallb (fun r => (length r =? m)%nat) rows.

(** The rows [time, q, velocity] after the checks of [upload_reference] *)
Definition reference_rows (m : nat) (tr : JointTrajectory) : result mat :=
  let k := length (times tr) in
  raise_if negb ((2 <=? k)%nat && (Z.of_nat k <=? MAX_REFERENCE_KNOTS)) || negb (shaped k m (positions tr))
    of ValueError "reference requires 2..128 knots and the configured joint count" ;;
  raise_if match velocities tr with Some v => negb (shaped k m v) | None => false end of ValueError "reference velocity shape mismatch" ;;
  let rows := zip_with (fun t q => t :: q) (times tr) (positions tr) in
  let rows := match velocities tr with Some v => zip_with app rows v | None => rows end in
  raise_if negb (forallb all_finite rows) || (match times tr with t :: _ => t <f f0 | [] => false end) || negb (increasing (times tr))
    of ValueError "reference needs finite values and increasing nonnegative times" ;;
  Ok rows.

(** [rows.astype('<f8').tobytes()] *)
Definition float_bytes (x : float) : bytes := le 8 (float_bits x).
Definition rows_bytes (rows : mat) : bytes := concat (map float_bytes (concat rows)).

(** The offsets [range(0, len(body), 88)] with their slices *)
Definition chunk_at (body : bytes) (i : nat) : Z * bytes :=
  (Z.of_nat (i * REFERENCE_CHUNK_BYTES), take REFERENCE_CHUNK_BYTES (drop (i * REFERENCE_CHUNK_BYTES) body)).
Definition chunks (body : bytes) : list (Z * bytes) :=
  map (chunk_at body) (seq 0 ((length body + (REFERENCE_CHUNK_BYTES - 1)) / REFERENCE_CHUNK_BYTES)).
Definition chunk_body (upload : Z) (c : Z * bytes) : ref_body := RefChunk upload c.1 (Z.of_nat (length c.2)) 0 c.2.

Fixpoint exchange_all (l : list ref_body) (scope : option (Z * Z)) (sock : option nat) : LinkM unit :=
  match l with [] => ret tt | b :: l => reference_exchange b scope sock ;~ exchange_all l scope sock end.

Definition holding_lock {A} (m : LinkM A) : LinkM A :=
  upd (fun s => s <| upload_lock := true |>) ;~ finally m (upd (fun s => s <| upload_lock := false |>)).

Record upload_args := {
  u_reference : Z; u_revision : Z; u_expected : Z; u_terminal : bool; u_session : option Z; u_epoch : option Z }.

(** What an upload sends after its checks, in order *)
Definition upload_bodies (a : upload_args) (scope : Z * Z) (joint_hash : Z) (model : bytes) (m k : nat) (hermite : bool)
    (upload : Z) (body : bytes) : list ref_body :=
  RefBegin scope.1 upload (u_reference a) joint_hash model scope.2 (u_expected a) (u_revision a) (Z.of_nat (length body))
      (Z.of_nat k) (Z.of_nat m)
      (Z.lor (if hermite then REFERENCE_HERMITE else 0) (if u_terminal a then REFERENCE_TERMINAL else 0))
  :: map (chunk_body upload) (chunks body)
  ++ [RefSeal upload (sha256 env body)].

Definition upload_reference (tr : JointTrajectory) (a : upload_args) : LinkM Z :=
  scope <~ reference_scope (u_session a) (u_epoch a) ;;
  s <~ get ;;
  let connection := tcp s in
  taken <~ asking locked ;;
  if taken then link_error "one reference upload is already in progress" else
  holding_lock (
    upd (fun s => s <| upload_cancel := false |>) ;~
    rows <~ lift (reference_rows (n s) tr) ;;
    upd (fun s => s <| upload_id := upload_id s + 1 |>) ;~
    s <~ get ;;
    ident <~ some_or (identity s) none_error ;;
    exchange_all (upload_bodies a scope (id_joint_order_hash ident) (reference_model s) (n s) (length (times tr))
                    (is_some (velocities tr)) (upload_id s) (rows_bytes rows)) (Some scope) connection ;~
    ret (upload_id s)).

(** ** The other operations *)

(** [with self._upload_lock:] waits for the other holder. *)
Definition with_lock {A} (m : LinkM A) : LinkM A := pause ;~ holding_lock m.
Definition clear_cancel : LinkM unit := upd (fun s => s <| upload_cancel := false |>).
Definition set_cancel : LinkM unit := upd (fun s => s <| upload_cancel := true |>).

Record commit_args := {
  k_reference : Z; k_revision : Z; k_expected : Z; k_protected_until : float; k_latest_phase : float;
  k_session : option Z; k_epoch : option Z; k_budget_ns : Z }.

Definition commit_reference (upload : Z) (a : commit_args) : LinkM ref_body :=
  scope <~ reference_scope (k_session a) (k_epoch a) ;;
  with_lock (reference_exchange
    (RefCommit scope.1 upload (k_reference a) scope.2 (k_expected a) (k_revision a) 0 (k_protected_until a) (k_latest_phase a) (k_budget_ns a))
    (Some scope) None).

Definition need_group : LinkM unit :=
  s <~ get ;; if negb (group_capable s) then link_error "server was not started with a group record" else ret tt.

Definition group_join (group member count : Z) (session epoch : option Z) : LinkM ref_body :=
  need_group ;~
  scope <~ reference_scope session epoch ;;
  with_lock (clear_cancel ;~ reference_exchange (GroupJoin scope.1 group scope.2 member count 0) (Some scope) None).

Definition group_commit (upload reference group member budget_ns : Z) (session epoch : option Z) : LinkM ref_body :=
  need_group ;~
  scope <~ reference_scope session epoch ;;
  upd (fun s => s <| group_committing := true |>) ;~
  finally
    (with_lock (reference_exchange (GroupCommit scope.1 group upload reference budget_ns scope.2 member) (Some scope) None))
    (upd (fun s => s <| group_committing := false |>)).

(** Interrupts only a COMMIT_GROUP wait: never another upload or the member's own hold. *)
Definition group_cancel (group member count : Z) (session epoch : option Z) : LinkM ref_body :=
  need_group ;~
  scope <~ reference_scope session epoch ;;
  s <~ get ;;
  when (group_committing s) set_cancel ;~
  with_lock (clear_cancel ;~ reference_exchange (GroupCancel scope.1 group scope.2 member count 0) (Some scope) None).

Definition cancel_reference (reference revision : Z) (session epoch : option Z) : LinkM unit :=
  scope <~ reference_scope session epoch ;;
  set_cancel ;~
  with_lock (clear_cancel ;~ reference_exchange (RefCancel scope.1 reference scope.2 revision) (Some scope) None ;~ ret tt).

Definition interrupt_reference_upload : LinkM unit := set_cancel.

Definition abort_reference_upload (upload session epoch : option Z) : LinkM unit :=
  scope <~ reference_scope session epoch ;;
  set_cancel ;~
  with_lock (
    clear_cancel ;~
    s <~ get ;;
    let candidate := default (upload_id s) upload in
    if negb (nz candidate) then ret tt
    else reference_exchange (RefAbort scope.1 candidate scope.2 0) (Some scope) None ;~ ret tt).

(** ** A run: calls and the other threads' turns, in any order *)

Inductive input :=
  | Open
  | Enable
  | SafeStop
  | SetActive (mask : Z)
  | Close
  | Apply (c : joint_command)
  | Envelope (e : envelope)
  | Negotiate (model_token : bytes)
  | Select (desired : Z) (model_token : option bytes)
  | UploadReference (tr : JointTrajectory) (a : upload_args)
  | CommitReference (upload : Z) (a : commit_args)
  | GroupJoins (group member count : Z)
  | GroupCommits (upload reference group member budget_ns : Z)
  | GroupCancels (group member count : Z)
  | CancelReference (reference revision : Z)
  | AbortUpload (upload : option Z)
  | Interrupt
  | Elsewhere (a : act).

Definition serve (i : input) : LinkM unit :=
  match i with
  | Open => open
  | Enable => enable_all
  | SafeStop => safe_stop ;~ ret tt
  | SetActive mask => set_active_mask mask
  | Close => close
  | Apply c => apply_command c ;~ ret tt
  | Envelope e => apply_reference_envelope e ;~ ret tt
  | Negotiate t => negotiate_reference t ;~ ret tt
  | Select d t => select_mode d t ;~ ret tt
  | UploadReference tr a => upload_reference tr a ;~ ret tt
  | CommitReference u a => commit_reference u a ;~ ret tt
  | GroupJoins g m c => group_join g m c None None ;~ ret tt
  | GroupCommits u r g m b => group_commit u r g m b None None ;~ ret tt
  | GroupCancels g m c => group_cancel g m c None None ;~ ret tt
  | CancelReference r v => cancel_reference r v None None
  | AbortUpload u => abort_reference_upload u None None
  | Interrupt => interrupt_reference_upload
  | Elsewhere a => act_out a
  end.
(** An exception goes back to the caller, the object stays as it left it. *)
Definition step (w : world link said) (i : input) : world link said := (serve i w).2.
Definition start (names : list bytes) : world link said := {| obj := RtBackend_new names; out := []; asked := 0%nat |}.

End LinkReference.
