(* ===== verification/LinkFacts.v ===== *)
(** What the RT client guarantees: its exchanges are answered, its uploads are
    whole, an arming stands above the server's last command, a stop sent a DISARM
    and is confirmed by a later state, and only the claimed arm's states are ever shown. *)
From Stdlib Require Import SpecFloat.
From S2P Require Import Prelude Floats Motion Wire RtProtocol Observation Effects Link LinkReference.

Open Scope Z_scope.

Abbreviation record := (link * said)%type.

(** The frames a call handed to a connection, in order. *)
Definition caller_frame (x : record) : option bytes := match x.2 with Frame Caller _ p => Some p | _ => None end.
Definition sent (l : list record) : list bytes := omap caller_frame (rev l).
Definition not_mine (x : record) : Prop := caller_frame x = None.
Definition heard (l : list record) (frame : bytes) : Prop := exists s, (s, Heard frame) ∈ l.

(** A reply to request [q], among what was heard. *)
Definition replied (l : list record) (q : Z) (r : ref_body) : Prop :=
  exists frame op, heard l frame /\ unpack_reference_control frame true = Ok (op, q, r).
(** A control frame of type [ty], among what was heard. *)
Definition acked_by (l : list record) (ty : Z) (m : Control) : Prop :=
  exists frame, heard l frame /\ unpack_control frame = Ok m /\ ctl_type m = ty.

(** One exchange in an output: the request went out once or twice, the same
    bytes both times, and a reply to it that accepts the operation was heard. *)
Definition exchanged (b : ref_body) (l : list record) (r : ref_body) : Prop :=
  exists q t packet k, pack_reference_control b q t true = Ok packet /\ sent l = replicate (S k) packet /\ (k <= 1)%nat /\
    replied l q r /\ reply_operation r = op_of b /\ reply_result r = REF_OK.

Lemma sent_app l l' : sent (l ++ l') = sent l' ++ sent l.
Proof. unfold sent. by rewrite rev_app_distr, omap_app. Qed.
Lemma sent_quiet l : Forall not_mine l -> sent l = [].
Proof.
  induction 1 as [|x l Hx _ IH]; [done|]. change (x :: l) with ([x] ++ l). rewrite sent_app, IH.
  unfold sent. simpl. by rewrite Hx.
Qed.
Lemma heard_app_l l l' f : heard l f -> heard (l ++ l') f.
Proof. intros [s H]. exists s. apply elem_of_app. by left. Qed.
Lemma heard_app_r l l' f : heard l' f -> heard (l ++ l') f.
Proof. intros [s H]. exists s. apply elem_of_app. by right. Qed.
Lemma replied_mono l l' q r : (forall f, heard l f -> heard l' f) -> replied l q r -> replied l' q r.
Proof. intros H (f & op & Hf & E). exists f, op. auto. Qed.
Lemma acked_mono l l' ty m : (forall f, heard l f -> heard l' f) -> acked_by l ty m -> acked_by l' ty m.
Proof. intros H (f & Hf & E). exists f. auto. Qed.

Section Facts.
Context {cfg : RtConfig} {env : Env}.

(** ** Walking the calls *)

Lemma act_all_steps (R : bool -> world link said -> world link said -> Prop) `{!Flow R} :
  (forall a, steps R (act_out a)) -> forall l, steps R (act_all l).
Proof. intros H l. induction l as [|a l IH]; simpl; [by apply steps_ret|apply steps_bind; auto]. Qed.

(** ** What other threads do to a call *)

Definition datagram_free (x : record) : Prop := match x.2 with Datagram _ => False | _ => True end.

(** A state that the receiver lets through: of the claimed arm. *)
Definition ours (s : link) (p : rt_state) : Prop := s_identity_hash (rt p) = expected_identity s /\ s_n (rt p) = Z.of_nat (n s).

(** What a step of another thread leaves of the world before, when the frames
    [F] were already there to be read. *)
Record aside (F : bytes -> Prop) (w w' : world link said) : Prop := {
  as_out : exists new, out w' = new ++ out w /\ Forall not_mine new /\ (udp (obj w) = false -> Forall datagram_free new) /\
    (forall m, m ∈ status_q (obj w') -> m ∈ status_q (obj w) \/
       exists frame, (F frame \/ heard new frame) /\ unpack_control frame = Ok m /\ ctl_type m = CTL_STATUS) /\
    (upload_lock (obj w) = true -> reference_reply (obj w') = reference_reply (obj w) \/
       exists q r frame op, reference_reply (obj w') = Some r /\ reference_wait_seq (obj w) = Some q /\
         (F frame \/ heard new frame) /\ unpack_reference_control frame true = Ok (op, q, r));
  as_wait : upload_lock (obj w) = true -> reference_wait_seq (obj w') = reference_wait_seq (obj w);
  as_lock : upload_lock (obj w') = upload_lock (obj w);
  as_names : joint_names (obj w') = joint_names (obj w);
  as_identity : identity (obj w') = identity (obj w);
  as_session : session_id (obj w') = session_id (obj w);
  as_expected : expected_identity (obj w') = expected_identity (obj w);
  as_mode : reference_mode (obj w') = reference_mode (obj w);
  as_tcp : is_some (tcp (obj w')) = true -> tcp (obj w') = tcp (obj w);
  as_udp : udp (obj w') = true -> udp (obj w) = true;
  as_state : state (obj w') = state (obj w) \/ exists p, state (obj w') = Some p /\ udp (obj w) = true /\ ours (obj w) p;
  as_history : forall x, x ∈ state_history (obj w') -> x ∈ state_history (obj w) \/ (udp (obj w) = true /\ ours (obj w) x.1);
}.

#[export] Instance aside_preorder F : PreOrder (aside F).
Proof.
  split.
  - intros w. split; auto. exists []. repeat split; auto.
  - intros w w' w'' [(n1 & O1 & Q1 & D1 & S1 & R1)] [(n2 & O2 & Q2 & D2 & S2 & R2)]. split; try congruence; auto.
    + exists (n2 ++ n1). rewrite O2, O1, app_assoc. split; [done|]. split; [by apply Forall_app|]. repeat split.
      * intros Hu. apply Forall_app. split; [apply D2|auto]. destruct (udp (obj w')) eqn:E; [|done]. by rewrite as_udp0 in Hu.
      * intros m [Hm|(f & Hf & E)]%S2; [apply S1 in Hm as [Hm|(f & Hf & E)]; [by left|]|]; right; exists f; (split; [|done]);
          destruct Hf; auto; right; [by apply heard_app_r|by apply heard_app_l].
      * intros Hl. assert (Hl' : upload_lock (obj w') = true) by congruence.
        destruct (R2 Hl') as [E2|(q & r & f & op & E2 & W2 & Hf & U2)].
        -- destruct (R1 Hl) as [E1|(q & r & f & op & E1 & W1 & Hf & U1)]; [left; congruence|right].
           exists q, r, f, op. rewrite E2. repeat split; [done|done| |done]. destruct Hf; auto. right. by apply heard_app_r.
        -- right. exists q, r, f, op. rewrite <- as_wait0 by done. repeat split; [done|done| |done]. destruct Hf; auto. right. by apply heard_app_l.
    + intros Hl. rewrite as_wait1, as_wait0; congruence.
    + intros Ht. pose proof (as_tcp1 Ht) as E. rewrite E in Ht. rewrite E. auto.
    + destruct as_state1 as [E|(p & E & Hu & Ho)].
      * rewrite E. destruct as_state0 as [?|?]; auto.
      * right. exists p. split; [done|]. split; [auto|]. unfold ours, n in *. by rewrite as_expected0, as_names0 in Ho.
    + intros x Hx. destruct (as_history1 x Hx) as [Hx'|[Hu Ho]]; [auto|]. right. split; [auto|].
      unfold ours, n in *. by rewrite as_expected0, as_names0 in Ho.
Qed.
#[export] Instance aside_flow F : Flow (fun _ => aside F).
Proof. apply flow_preorder, _. Qed.

(** An assignment to attributes of which the theorems ask nothing. *)
Ltac aside_upd :=
  intros w; split; simpl; auto; exists []; simpl; repeat split; auto.
#[local] Hint Extern 1 (steps (fun _ => aside _) ask) => aside_upd : steps.
#[local] Hint Extern 2 (steps (fun _ => aside _) (upd _)) => solve [aside_upd] : steps.

Lemma aside_mono (F G : bytes -> Prop) w w' : (forall f, F f -> G f) -> aside F w w' -> aside G w w'.
Proof.
  intros H [(new & O & Q & D & S & R)]. split; auto. exists new. repeat split; auto.
  - intros m Hm. destruct (S m Hm) as [?|(f & [Hf|Hf] & E)]; [by left|right; exists f; auto..].
  - intros Hl. destruct (R Hl) as [?|(q & r & f & op & E1 & E2 & [Hf|Hf] & E3)]; [by left|right; exists q, r, f, op; repeat split; auto..].
Qed.

Abbreviation asides F := (steps (fun _ => aside F)).

Lemma aside_say F o : (forall s, not_mine (s, o)) -> (forall s, datagram_free (s, o)) -> asides F (say o).
Proof.
  intros H D w. split; simpl; auto. exists [(obj w, o)]. repeat split; auto.
Qed.

(** The object is read, then the call goes on from the same world. *)
Lemma steps_obj {A} (R : bool -> world link said -> world link said -> Prop) (k : link -> LinkM A) :
  (forall w, flows R (k (obj w)) w) -> steps R (bind get k).
Proof. intros H w. apply H. Qed.

Lemma send_command_aside F pkt : asides F (send_command_packet pkt).
Proof.
  apply steps_obj. intros w. unfold flows. destruct (udp (obj w)) eqn:Hu; [|reflexivity].
  unfold asking, bind, ask, ret, upd, say, get, when; simpl. destruct (sends env _); simpl; [|destruct (f1 <f _); simpl].
  - split; simpl; auto. eexists [_]. split; [reflexivity|]. split; [by repeat constructor|]. split; [congruence|]. auto.
  - split; simpl; auto. exists []. repeat split; auto.
  - split; simpl; auto. exists []. repeat split; auto.
Qed.
#[local] Hint Resolve send_command_aside : steps.

Lemma send_command_raw_aside F q qd tau kp kd h c : asides F (send_command_raw q qd tau kp kd h c).
Proof. unfold send_command_raw, asking. steps. Qed.
#[local] Hint Resolve send_command_raw_aside : steps.
Lemma apply_command_aside F c : asides F (apply_command c).
Proof. unfold apply_command. steps. Qed.
Lemma reference_scope_aside F a b : asides F (reference_scope a b).
Proof. unfold reference_scope. steps. Qed.
#[local] Hint Resolve apply_command_aside reference_scope_aside : steps.
Lemma envelope_aside F e : asides F (apply_reference_envelope e).
Proof. unfold apply_reference_envelope, asking. steps. Qed.

Lemma take_state_aside F data : asides F (take_state data).
Proof.
  apply steps_obj. intros w. unfold flows. destruct (udp (obj w)) eqn:Hu; [|reflexivity]. simpl.
  destruct (read_state _ data) as [p|e] eqn:E; [|by destruct (is_ValueError e)].
  destruct (_ || _) eqn:G; [split; simpl; auto; exists []; repeat split; auto|]. breflect.
  unfold asking, bind, ask, ret, upd, get, when; simpl. destruct (match state _ with None => _ | Some _ => _ end); simpl.
  - split; simpl; auto; [exists []; repeat split; auto|by right; exists p|].
    intros x Hx. unfold push in Hx. apply (subseteq_drop _ _) in Hx. apply elem_of_app in Hx as [?| ->%list_elem_of_singleton]; [by left|by right].
  - split; simpl; auto; [exists []; repeat split; auto|by right; exists p].
Qed.

Lemma hand_over_aside F pkt sock : asides F (hand_over Listener pkt sock).
Proof. unfold hand_over, on_connection, asking. steps. all: apply aside_say; done. Qed.
Lemma control_packet_aside F ty arg body : asides F (control_packet ty arg body).
Proof. unfold control_packet, asking. steps. Qed.
Lemma session_closed_aside F : asides F session_closed.
Proof. unfold session_closed. steps. Qed.
#[local] Hint Resolve envelope_aside take_state_aside hand_over_aside control_packet_aside session_closed_aside : steps.

Lemma take_reference_aside (F : bytes -> Prop) frame op q r :
  F frame -> unpack_reference_control frame true = Ok (op, q, r) -> asides F (take_reference op q r).
Proof.
  intros HF E. unfold take_reference, asking. destruct (_ || _).
  - apply steps_obj. intros w. unfold flows. case_bool_decide as Hq; simpl; [|reflexivity].
    split; simpl; auto. exists []. repeat split; auto. intros _. right. exists q, r, frame, op. auto.
  - steps.
Qed.

Lemma take_control_aside (F : bytes -> Prop) frame : F frame -> asides F (take_control frame).
Proof.
  intros HF. unfold take_control. destruct (unpack_control frame) as [m|e] eqn:E; [|steps].
  destruct (ctl_type m =? CTL_FAULT); [steps|]. destruct (ctl_type m =? CTL_STATUS) eqn:Es.
  - intros w. breflect. split; simpl; auto. exists []. repeat split; auto.
    intros x [?| ->%list_elem_of_singleton]%elem_of_app; eauto 8.
  - destruct (ctl_type m =? CTL_MODE_STATUS); [steps|]. destruct (ctl_type m =? CTL_PING); [|steps].
    apply steps_try; steps.
Qed.

(** What follows from a frame that has just been heard *)
Lemma aside_heard (F : bytes -> Prop) frame {A} (m : LinkM A) : asides (eq frame) m -> asides F (say (Heard frame) ;~ m).
Proof.
  intros H w. specialize (H (w <| out := (obj w, Heard frame) :: out w |>)).
  change (aside F w (m (w <| out := (obj w, Heard frame) :: out w |>)).2).
  destruct H as [(new & O & Q & D & S & R)]. simpl in *. split; auto.
  assert (Hh : forall f, frame = f \/ heard new f -> heard (new ++ [(obj w, Heard frame)]) f).
  { intros f [<-|Hf]; [apply heard_app_r|by apply heard_app_l]. exists (obj w). by apply list_elem_of_singleton. }
  exists (new ++ [(obj w, Heard frame)]). rewrite O, <- app_assoc. split; [done|]. split; [by apply Forall_app; repeat constructor|].
  split; [by intros Hu; apply Forall_app; repeat constructor; auto|]. split.
  - intros m' Hm. destruct (S m' Hm) as [?|(f & Hf & E)]; [by left|right; exists f; auto].
  - intros Hl. destruct (R Hl) as [?|(q & r & f & op & E1 & E2 & Hf & E3)]; [by left|right; exists q, r, f, op; repeat split; auto].
Qed.

Lemma take_frame_aside F frame : asides F (take_frame frame).
Proof.
  apply aside_heard. apply steps_obj. intros w. unfold flows.
  destruct (reference_mode (obj w)); [|by apply take_control_aside].
  destruct (unpack_reference_control frame true) as [[[op q] r]|e] eqn:E.
  - by eapply take_reference_aside.
  - destruct (is_ValueError e); [by apply take_control_aside|reflexivity].
Qed.
#[local] Hint Resolve take_frame_aside : steps.

Lemma take_chunk_aside F data : asides F (take_chunk data).
Proof. unfold take_chunk. steps. Qed.
#[local] Hint Resolve take_chunk_aside : steps.

Lemma act_aside F a : asides F (act_out a).
Proof.
  apply steps_try; [apply _| |steps]. destruct a; simpl; try solve [steps].
  - intros w. split; simpl; auto; try done. exists []. repeat split; auto. intros x Hx. by apply not_elem_of_nil in Hx.
  - intros w. split; simpl; auto; try done. exists []. repeat split; auto. intros x Hx. by apply not_elem_of_nil in Hx.
  - intros w. split; simpl; auto; try done. exists []. repeat split; auto.
  - apply steps_obj. intros w. unfold flows. destruct (upload_lock (obj w)) eqn:Hl; [reflexivity|].
    split; simpl; auto; try congruence. exists []. repeat split; auto. congruence.
Qed.

Lemma pause_aside F : asides F pause.
Proof. unfold pause, asking. steps. apply act_all_steps; [apply _|apply act_aside]. Qed.

(** ** One exchange *)

Lemma act_all_ok l w : exists w', act_all l w = (Ok tt, w').
Proof.
  revert w. induction l as [|a l IH]; intros w; simpl; [by eexists|]. unfold bind, act_out, catch.
  destruct (perform a w) as [[[]|e] w1]; simpl; apply IH.
Qed.
Lemma pause_ok w : exists w', pause w = (Ok tt, w') /\ aside (fun _ => False) w w'.
Proof.
  destruct (act_all_ok (elsewhere env (asked w)) (w <| asked := S (asked w) |>)) as [w' E]. exists w'.
  assert (E' : pause w = (Ok tt, w')) by exact E. split; [done|]. pose proof (pause_aside (fun _ => False) w) as H. by rewrite E' in H.
Qed.

Definition quiet : world link said -> world link said -> Prop := aside (fun _ => False).

Lemma quiet_asked w k : quiet w (w <| asked := k |>).
Proof. split; simpl; auto. exists []. repeat split; auto. Qed.

Lemma await_reply_cases k w o w' : await_reply k w = (o, w') ->
  quiet w w' /\ (forall r, o = Ok (Some r) -> reference_reply (obj w') = Some r) /\ (forall e, o = Err e -> e = by_lifecycle).
Proof.
  revert w. induction k as [|k IH]; intros w; simpl; unfold bind at 1, get; simpl;
    (destruct (reference_reply (obj w)) eqn:Er; [intros [= <- <-]; split_and!; [reflexivity|naive_solver|done]|]);
    (destruct (interrupted (obj w)); [intros [= <- <-]; split_and!; [reflexivity|done|naive_solver]|]).
  - intros [= <- <-]. split_and!; [reflexivity|done..].
  - unfold bind. destruct (pause_ok w) as (w1 & E & Ha). rewrite E. intros H. destruct (IH _ H) as (H1 & H2). split; [by etrans|done].
Qed.

Definition undispatched (e : exn) : bool := match e with ReferenceCancelledBeforeDispatch _ => true | _ => false end.

(** The frame of a call, handed over between two stretches of waiting *)
Definition dispatches (packet : bytes) (w w' : world link said) : Prop :=
  exists w1 c, quiet w w1 /\ quiet (w1 <| out := (obj w1, Frame Caller c packet) :: out w1 |>) w'.

Lemma check_scope_same scope w : exists o, check_scope scope w = (o, w) /\ (forall e, o = Err e -> undispatched e = false) /\
  (forall x, scope = Some x -> o = Ok tt -> reference_mode (obj w) = true).
Proof.
  destruct scope as [[sess ep]|]; [|by eexists]. unfold check_scope, reference_scope, bind, get. simpl.
  destruct (reference_mode (obj w)); simpl; [|eexists; repeat split; naive_solver].
  destruct (_ || _); eexists; repeat split; naive_solver.
Qed.

Lemma on_connection_same sock w : exists o, on_connection sock w = (o, w) /\ (forall e, o = Err e -> undispatched e = false).
Proof.
  unfold on_connection, bind, get. destruct sock; [by eexists|]. unfold some_or. destruct (tcp (obj w)); simpl; eexists; (split; [done|]); naive_solver.
Qed.

Lemma attempt_cases first op packet scope sock w o w' : attempt first op packet scope sock w = (o, w') ->
  (exists e, o = Err e /\ quiet w w' /\ (undispatched e = true -> first = true)) \/
  (dispatches packet w w' /\ (forall r, o = Ok (Some r) -> reference_reply (obj w') = Some r) /\ (forall e, o = Err e -> undispatched e = false)).
Proof.
  unfold attempt, bind at 1, get. destruct (interrupted (obj w)).
  { intros [= <- <-]. left. eexists. split; [done|]. split; [reflexivity|]. by destruct first. }
  unfold bind at 1. destruct (check_scope_same scope w) as (oc & -> & Hc & _). destruct oc as [[]|e].
  2:{ intros [= <- <-]. left. exists e. rewrite (Hc e) by done. by split_and!; [|reflexivity|]. }
  unfold send_frame, bind at 1, bind at 1. destruct (pause_ok w) as (w1 & -> & Ha).
  unfold hand_over, bind at 1, bind at 1. destruct (on_connection_same sock w1) as (oc & -> & Hoc).
  destruct oc as [c|e]; [|intros [= <- <-]; left; exists e; rewrite (Hoc e) by done; by split_and!].
  unfold bind at 1, say, asking, bind at 1, bind at 1, ask. simpl. set (w2 := w1 <| out := (obj w1, Frame Caller c packet) :: out w1 |>).
  assert (H3 : quiet w2 (w2 <| asked := S (asked w1) |>)) by apply quiet_asked.
  destruct (sends env (asked w1)); simpl.
  - unfold bind, ask. simpl. intros H. apply await_reply_cases in H as (Hq & Hr & He). right. split; [|split; [done|]].
    + exists w1, c. split; [done|]. etrans; [exact H3|]. etrans; [apply quiet_asked|exact Hq].
    + intros e ->. by rewrite (He e).
  - intros [= <- <-]. right. split; [by exists w1, c|]. split; [done|]. by intros e [= <-].
Qed.

(** The output of a call between two worlds, while it waits for the reply to [q] *)
Definition awaiting (q : Z) (w : world link said) : Prop := upload_lock (obj w) = true /\ reference_wait_seq (obj w) = Some q.
Definition between (q : Z) (frames : list bytes) (w w' : world link said) : Prop :=
  awaiting q w /\ awaiting q w' /\ exists new, out w' = new ++ out w /\ sent new = frames /\
    forall r, reference_reply (obj w') = Some r -> reference_reply (obj w) = Some r \/ replied new q r.

Lemma between_quiet q w w' : awaiting q w -> quiet w w' -> between q [] w w'.
Proof.
  intros [Hl Hw] [(new & O & Q & D & S & R)]. repeat split; [done|done|congruence|by rewrite as_wait0|].
  exists new. split; [done|]. split; [by apply sent_quiet|]. intros r Hr.
  destruct (R Hl) as [E|(q' & r' & f & op & E & Eq & [[]|Hf] & U)]; [left; congruence|right].
  rewrite E in Hr. injection Hr as <-. rewrite Hw in Eq. injection Eq as <-. by exists f, op.
Qed.
Lemma between_trans q l l' w w' w'' : between q l w w' -> between q l' w' w'' -> between q (l ++ l') w w''.
Proof.
  intros (A & _ & n1 & O1 & S1 & R1) (_ & B & n2 & O2 & S2 & R2). split; [done|]. split; [done|].
  exists (n2 ++ n1). rewrite O2, O1, app_assoc. split; [done|]. split; [by rewrite sent_app, S1, S2|].
  intros r [Hr|Hr]%R2.
  - destruct (R1 _ Hr) as [?|Hr']; [by left|right]. eapply replied_mono; [|exact Hr']. apply heard_app_r.
  - right. eapply replied_mono; [|exact Hr]. apply heard_app_l.
Qed.
Lemma between_dispatch q packet w w' : awaiting q w -> dispatches packet w w' -> between q [packet] w w'.
Proof.
  intros A (w1 & c & H1 & H2). pose proof (between_quiet q _ _ A H1) as B1. assert (A1 : awaiting q w1) by apply B1.
  set (w2 := w1 <| out := (obj w1, Frame Caller c packet) :: out w1 |>) in H2.
  assert (B2 : between q [packet] w1 w2).
  { split; [done|]. split; [done|]. exists [(obj w1, Frame Caller c packet)]. repeat split. auto. }
  exact (between_trans _ _ _ _ _ _ (between_trans _ _ _ _ _ _ B1 B2) (between_quiet q _ _ (proj1 (proj2 B2)) H2)).
Qed.

(** The retry loop: what it sent, and the reply it settled on *)
Definition retry_loop (op : Z) (packet : bytes) (scope : option (Z * Z)) (sock : option nat) : LinkM ref_body :=
  r <~ attempt true op packet scope sock ;;
  match r with
  | Some r => settle op r
  | None =>
      r <~ attempt false op packet scope sock ;;
      match r with Some r => settle op r | None => link_error "no reference acknowledgement after exact retry" end
  end.

Lemma settle_cases op r w : settle op r w = (if negb (reply_operation r =? op) || negb (reply_result r =? REF_OK)
  then Err (ReferenceRefused op (reply_result r) (reply_fields r)) else Ok r, w).
Proof. unfold settle. by destruct (_ || _). Qed.

Lemma retry_loop_cases q op packet scope sock w o w' :
  awaiting q w -> retry_loop op packet scope sock w = (o, w') ->
  exists k, (k <= 2)%nat /\ between q (replicate k packet) w w' /\
    match o with
    | Ok r => (1 <= k)%nat /\ reference_reply (obj w') = Some r /\ reply_operation r = op /\ reply_result r = REF_OK
    | Err e => undispatched e = true -> k = 0%nat
    end.
Proof.
  assert (Hs : forall r w0 o w', settle op r w0 = (o, w') -> reference_reply (obj w0) = Some r ->
    w' = w0 /\ match o with Ok r' => r' = r /\ reply_operation r = op /\ reply_result r = REF_OK | Err e => undispatched e = false end).
  { intros r w0 o0 w0' H Hr. rewrite settle_cases in H. destruct (_ || _) eqn:E; injection H as <- <-; [done|]. by breflect. }
  intros A. unfold retry_loop, bind at 1. destruct (attempt true op packet scope sock w) as [o1 w1] eqn:E1.
  apply attempt_cases in E1 as [(e & -> & Hq & _)|(Hd & Hr & He)].
  { intros [= <- <-]. exists 0%nat. split; [lia|]. split; [by apply between_quiet|done]. }
  pose proof (between_dispatch q _ _ _ A Hd) as B1. destruct o1 as [[r|]|e].
  - intros H. apply Hs in H as (-> & H); [|by apply Hr]. exists 1%nat. split; [lia|]. split; [exact B1|].
    destruct o as [r'|e]; [|by rewrite H]. destruct H as (-> & ? & ?). split_and!; auto with lia.
  - unfold bind. destruct (attempt false op packet scope sock w1) as [o2 w2] eqn:E2.
    assert (A1 : awaiting q w1) by apply B1. apply attempt_cases in E2 as [(e & -> & Hq & Hf)|(Hd2 & Hr2 & He2)].
    + intros [= <- <-]. exists 1%nat. split; [lia|]. split.
      * exact (between_trans _ _ _ _ _ _ B1 (between_quiet q _ _ A1 Hq)).
      * intros Hu. by apply Hf in Hu.
    + pose proof (between_trans _ _ _ _ _ _ B1 (between_dispatch q _ _ _ A1 Hd2)) as B2. intros H. exists 2%nat. split; [lia|].
      destruct o2 as [[r|]|e].
      * apply Hs in H as (-> & H); [|by apply Hr2]. split; [exact B2|].
        destruct o as [r'|e]; [|by rewrite H]. destruct H as (-> & ? & ?). split_and!; auto with lia.
      * injection H as <- <-. by split.
      * injection H as <- <-. split; [exact B2|]. rewrite (He2 e) by done. done.
  - intros [= <- <-]. exists 1%nat. split; [lia|]. split; [exact B1|]. by rewrite (He e).
Qed.

Lemma none_sent (P : Prop) : exists packet k, sent [] = replicate k packet /\ (k <= 2)%nat /\ (P -> k = 0%nat).
Proof. exists [], 0%nat. split_and!; auto. Qed.

(** One exchange under the upload lock: at most two copies of one frame leave; a
    result rests on a reply; the local proof of no dispatch is one. *)
Lemma exchange_cases body scope sock w o w' :
  upload_lock (obj w) = true -> reference_exchange body (Some scope) sock w = (o, w') ->
  upload_lock (obj w') = true /\ exists new, out w' = new ++ out w /\
    match o with
    | Ok r => exchanged body new r
    | Err e => exists packet k, sent new = replicate k packet /\ (k <= 2)%nat /\ (undispatched e = true -> k = 0%nat)
    end.
Proof.
  intros Hl. unfold reference_exchange, bind at 1. destruct (check_scope_same (Some scope) w) as (oc & -> & Hc & Hm).
  destruct oc as [[]|e]; [|intros [= <- <-]; split; [done|]; exists []; split; [done|]; apply none_sent].
  specialize (Hm scope eq_refl eq_refl).
  unfold bind at 1, get, bind at 1, upd, bind at 1. simpl.
  destruct (_ >? _) eqn:Eseq; simpl.
  { intros [= <- <-]. split; [done|]. exists []. split; [done|]. apply none_sent. }
  unfold asking, bind at 1, bind at 1, ask, ret, bind at 1, lift. simpl. rewrite Hm.
  destruct (pack_reference_control body _ _ true) as [packet|e] eqn:Ep; simpl.
  2:{ intros [= <- <-]. split; [done|]. exists []. split; [done|]. apply none_sent. }
  unfold bind at 1, finally. simpl. fold (retry_loop (op_of body) packet (Some scope) (match sock with Some c => Some c | None => tcp (obj w) end)).
  match goal with |- context [retry_loop _ _ _ _ ?x] => set (w1 := x) end.
  destruct (retry_loop _ _ _ _ w1) as [o1 w2] eqn:El. intros [= <- <-].
  apply (retry_loop_cases (reference_seq (obj w) + 1)) in El as (k & Hk & (_ & [Hl2 _] & new & O & S & R) & Ho); [|by split].
  split; [done|]. exists new. split; [done|]. destruct o1 as [r|e]; [|by exists packet, k].
  destruct Ho as (Hk1 & Hr & Hop & Hres). exists (reference_seq (obj w) + 1), (monotonic_ns env (asked w)), packet, (k - 1)%nat.
  split; [done|]. rewrite S. split; [f_equal; lia|]. split; [lia|]. split; [|done].
  by destruct (R r Hr) as [?|].
Qed.

(** ** Sequences under the lock *)

Lemma exchanged_quiet b l l1 l2 r : Forall not_mine l1 -> Forall not_mine l2 -> exchanged b l r -> exchanged b (l1 ++ l ++ l2) r.
Proof.
  intros Q1 Q2 (q & t & packet & k & Hp & S & Hk & Hr & H). exists q, t, packet, k. rewrite !sent_app, S, !sent_quiet by done.
  split_and!; [done|by rewrite app_nil_r|done| |apply H..]. eapply replied_mono; [|exact Hr]. intros f Hf. by apply heard_app_r, heard_app_l.
Qed.

Lemma exchange_all_cases bodies scope sock w w' :
  upload_lock (obj w) = true -> exchange_all bodies (Some scope) sock w = (Ok tt, w') ->
  exists phases, out w' = concat (rev phases) ++ out w /\ Forall2 (fun b l => exists r, exchanged b l r) bodies phases.
Proof.
  revert w. induction bodies as [|b bodies IH]; intros w Hl; simpl; [intros [= <-]; by exists []|].
  unfold bind. destruct (reference_exchange b (Some scope) sock w) as [[r|e] w1] eqn:E; [|done]. intros H.
  apply exchange_cases in E as (Hl1 & new & O & Hx); [|done]. apply IH in H as (phases & O' & HF); [|done].
  exists (new :: phases). simpl. rewrite concat_app. simpl. rewrite app_nil_r, O', O, app_assoc. split; [done|]. constructor; eauto.
Qed.

(** [finally] with a release that does not raise *)
Lemma finally_upd {A} (m : LinkM A) f w o w' : finally m (upd f) w = (o, w') ->
  exists w1, m w = (o, w1) /\ w' = w1 <| obj := f (obj w1) |>.
Proof. unfold finally, upd. destruct (m w) as [r w1]. intros [= <- <-]. by exists w1. Qed.

Lemma holding_lock_cases {A} (m : LinkM A) w o w' : holding_lock m w = (o, w') ->
  exists w1, m (w <| obj := (obj w) <| upload_lock := true |> |>) = (o, w1) /\ out w' = out w1.
Proof. unfold holding_lock, bind, upd at 1. intros H. apply finally_upd in H as (w1 & E & ->). by exists w1. Qed.

(** An exchange behind the blocking lock *)
Lemma with_lock_cases {A} (m : LinkM A) w o w' : with_lock m w = (o, w') ->
  exists l w1 w2, out w1 = l ++ out w /\ Forall not_mine l /\ upload_lock (obj w1) = true /\ m w1 = (o, w2) /\ out w' = out w2.
Proof.
  unfold with_lock, bind. destruct (pause_ok w) as (wp & -> & [(l & O & Q & _)]). intros H.
  apply holding_lock_cases in H as (w2 & E & O2). by exists l, (wp <| obj := (obj wp) <| upload_lock := true |> |>), w2.
Qed.

(** ** Control round trips *)

Lemma quiet_out w w' : quiet w w' -> exists new, out w' = new ++ out w /\ Forall not_mine new.
Proof. intros [(new & O & Q & _)]. by exists new. Qed.

(** The acknowledgements of the queue were all heard since the world [base]. *)
Definition fresh_acks (base : list record) (w : world link said) : Prop :=
  exists new, out w = new ++ base /\ forall m, m ∈ status_q (obj w) -> acked_by new CTL_STATUS m.
Lemma fresh_acks_quiet base w w' : quiet w w' -> fresh_acks base w -> fresh_acks base w'.
Proof.
  intros [(n1 & O1 & _ & _ & S1 & _)] (n0 & O0 & S0). exists (n1 ++ n0). rewrite O1, O0, app_assoc. split; [done|].
  intros m [Hm|(f & [[]|Hf] & U & T)]%S1.
  - eapply acked_mono; [|by apply S0]. apply heard_app_r.
  - exists f. split; [by apply heard_app_l|done].
Qed.

Lemma control_roundtrip_cases ty arg w m w' : control_roundtrip ty arg w = (Ok m, w') ->
  exists new packet t, out w' = new ++ out w /\ sent new = [packet] /\ pack_control ty 0 arg t [] = Ok packet /\ acked_by new CTL_STATUS m.
Proof.
  unfold control_roundtrip, drain_status, bind at 1, upd at 1.
  assert (F0 : fresh_acks (out w) (w <| obj := (obj w) <| status_q := [] |> |>)).
  { exists []. split; [done|]. intros x Hx. by apply not_elem_of_nil in Hx. }
  set (w0 := w <| obj := _ |>) in *. change (out w) with (out w0) in *. clearbody w0. clear w.
  unfold bind at 1, send_control, bind at 1.
  destruct (control_packet ty arg [] w0) as [[packet|e] w1] eqn:E1; [|done].
  assert (exists t, pack_control ty 0 arg t [] = Ok packet /\ out w1 = out w0 /\ status_q (obj w1) = status_q (obj w0)) as (t & Hp & O1 & S1).
  { unfold control_packet, when, asking, bind, ask, upd, ret, lift in E1. destruct (_ || _); injection E1 as E1 <-; eauto. }
  unfold send_frame, bind at 1. destruct (pause_ok w1) as (w2 & -> & Q2).
  assert (F2 : fresh_acks (out w0) w2).
  { eapply fresh_acks_quiet; [exact Q2|]. destruct F0 as (n0 & O & S). exists n0. by rewrite O1, S1. }
  unfold hand_over, bind at 1. destruct (on_connection_same None w2) as (oc & -> & _). destruct oc as [c|e]; [|done].
  unfold bind at 1, say, asking, bind at 1, bind at 1, ask. simpl. destruct (sends env (asked w2)); [|done]. simpl.
  match goal with |- context [status_get _ ?x] => set (w3 := x) end.
  apply quiet_out in Q2 as (n2 & O2 & Q2).
  assert (F3 : fresh_acks (out w0) w3).
  { destruct F2 as (n0 & O & S). exists ((obj w2, Frame Caller c packet) :: n0). subst w3. simpl. rewrite O. split; [done|].
    intros x Hx. eapply acked_mono; [|by apply S]. apply (heard_app_r [_]). }
  unfold status_get, bind. destruct (pause_ok w3) as (w4 & -> & Q4). pose proof (fresh_acks_quiet _ _ _ Q4 F3) as (n4 & O4 & S4).
  unfold get. apply quiet_out in Q4 as (n4' & O4' & Q4). destruct (status_q (obj w4)) as [|x rest] eqn:Eq; [done|].
  unfold upd, ret. intros [= <- <-]. exists n4, packet, t. split; [exact O4|]. split; [|split; [done|apply S4; by left]].
  assert (n4 = n4' ++ (obj w2, Frame Caller c packet) :: n2) as ->.
  { apply (app_inv_tail (out w0)). rewrite <- O4, O4'. subst w3. simpl. by rewrite O2, O1, <- app_assoc. }
  change (_ :: n2) with ([(obj w2, Frame Caller c packet)] ++ n2). by rewrite !sent_app, (sent_quiet n2), (sent_quiet n4') by done.
Qed.

(** What the handshake returned, it heard. *)
Lemma recv_loop_out k buf w o w' : recv_loop k buf w = (o, w') -> out w' = out w.
Proof.
  revert buf w. induction k as [|k IH]; intros buf w; cbn [recv_loop]; (destruct (CTL_SIZE <=? length buf)%nat; [by intros [= <- <-]|]).
  - by intros [= <- <-].
  - unfold asking, bind, get, some_or, ask, ret, throw. destruct (tcp (obj w)); [|by intros [= <- <-]].
    destruct (reads env (asked w)) as [| |d]; [by intros H; apply IH in H|by intros [= <- <-]|].
    destruct (take _ d); [by intros [= <- <-]|by intros H; apply IH in H].
Qed.

Lemma recv_control_out w m w' : recv_control w = (Ok (Some m), w') ->
  exists frame, out w' = (obj w', Heard frame) :: out w /\ unpack_control frame = Ok m.
Proof.
  unfold recv_control, asking, bind, ask, ret, say, lift. destruct (recv_loop _ _ _) as [[[buf|]|e] w1] eqn:E; [|done..].
  apply recv_loop_out in E. simpl in E. destruct (_ =? _)%nat; [|done]. destruct (unpack_control buf) as [x|e] eqn:U; [|done].
  intros [= <- <-]. exists buf. simpl. by rewrite E.
Qed.

(** ** Growing outputs *)

Lemma grown_pause : steps grown pause.
Proof. intros w. destruct (pause_ok w) as (w' & E & H). rewrite E. apply quiet_out in H as (l & O & _). by exists l. Qed.
#[local] Hint Resolve grown_pause : steps.
Lemma grown_send_control ty arg body : steps grown (send_control ty arg body).
Proof. unfold send_control, control_packet, send_frame, hand_over, on_connection, asking. steps. Qed.
Lemma grown_recv_control : steps grown recv_control.
Proof.
  unfold recv_control, asking. apply steps_bind; [apply _|steps|]. intros k. apply steps_bind; [apply _| |intros r; steps].
  intros w. destruct (recv_loop k [] w) as [o w'] eqn:E. apply recv_loop_out in E. by exists [].
Qed.
#[local] Hint Resolve grown_send_control grown_recv_control : steps.

(** The frame the handshake waited for *)
Lemma await_loop_heard ty k w m w' : await_loop k ty w = (Ok (Some m), w') ->
  exists new, out w' = new ++ out w /\ acked_by new ty m.
Proof.
  revert w. induction k as [|k IH]; intros w; simpl; [done|]. unfold bind.
  destruct (recv_control w) as [[[x|]|e] w1] eqn:E; [|done..].
  apply recv_control_out in E as (frame & O & U). destruct (ctl_type x =? CTL_PING).
  - pose proof (grown_send_control CTL_PONG 0 [] w1) as (l & O1). destruct (send_control CTL_PONG 0 [] w1) as [[[]|e] w2]; [|done].
    intros H. apply IH in H as (new & O2 & H). exists (new ++ l ++ [(obj w1, Heard frame)]). simpl in O1.
    rewrite O2, O1, O, <- !app_assoc. split; [done|]. eapply acked_mono; [|exact H]. apply heard_app_l.
  - destruct (ctl_type x =? ty) eqn:Et.
    + intros [= <- <-]. exists [(obj w1, Heard frame)]. split; [done|]. breflect. exists frame. split; [|done].
      exists (obj w1). by apply list_elem_of_singleton.
    + intros H. apply IH in H as (new & O2 & H). exists (new ++ [(obj w1, Heard frame)]). rewrite O2, O, <- app_assoc.
      split; [done|]. eapply acked_mono; [|exact H]. apply heard_app_l.
Qed.
Lemma await_control_heard ty w m w' : await_control ty w = (Ok (Some m), w') -> exists new, out w' = new ++ out w /\ acked_by new ty m.
Proof. intros H. by apply await_loop_heard in H. Qed.
End Facts.

#[export] Hint Resolve grown_pause grown_send_control grown_recv_control : steps.
