(* ===== verification/LinkSafety.v ===== *)
(** What the RT client guarantees, from the pieces of [LinkFacts]: answered
    exchanges, whole uploads, an arming above the server's last command, a
    confirmed stop, an admission that binds the arm, and the states it shows. *)
From Stdlib Require Import SpecFloat.
From S2P Require Import Prelude Floats Motion Wire RtProtocol Observation Effects Link LinkReference LinkFacts.

Open Scope Z_scope.

(** ** Chunks *)

Lemma chunks_concat_from body i k : (length body <= (i + k) * REFERENCE_CHUNK_BYTES)%nat ->
  concat (map snd (map (chunk_at body) (seq i k))) = drop (i * REFERENCE_CHUNK_BYTES) body.
Proof.
  revert i. induction k as [|k IH]; intros i Hk; cbn [seq map concat snd chunk_at].
  - rewrite drop_ge; [done|lia].
  - rewrite IH by lia. replace (S i * REFERENCE_CHUNK_BYTES)%nat with (i * REFERENCE_CHUNK_BYTES + REFERENCE_CHUNK_BYTES)%nat by lia.
    rewrite <- drop_drop. apply take_drop.
Qed.

(** The chunks are the body, in order. *)
Lemma chunks_concat body : concat (map snd (chunks body)) = body.
Proof.
  unfold chunks. rewrite chunks_concat_from; [done|]. unfold REFERENCE_CHUNK_BYTES.
  pose proof (Nat.div_mod_eq (length body + 87) 88). pose proof (Nat.mod_upper_bound (length body + 87) 88). simpl (88 - 1)%nat. lia.
Qed.

Section Safety.
Context {cfg : RtConfig} {env : Env}.
Abbreviation World := (world link said).
#[local] Arguments exchange_all : simpl never.
#[local] Arguments upload_bodies : simpl never.

(** ** References *)

Lemma reference_scope_cases a b (w : World) o w' : reference_scope a b w = (o, w') ->
  w' = w /\ match o with
    | Ok scope => scope = (session_id (obj w), arm_epoch (obj w)) /\ arm_epoch (obj w) <> 0 /\ reference_mode (obj w) = true
    | Err e => undispatched e = false
    end.
Proof.
  unfold reference_scope, bind, get. destruct (reference_mode (obj w)) eqn:Hm; simpl; [|by intros [= <- <-]].
  destruct (_ || _) eqn:E; intros [= <- <-]; [done|]. unfold nz in E. breflect. split_and!; congruence.
Qed.

(** A COMMIT returns a reply only when one was heard, under this request's
    own number, that accepts the COMMIT; the request went out once, or twice as
    the same bytes, for the session and epoch of the call.  When the call says
    that it was cancelled before dispatch, it handed no frame to the server; on
    any other failure at most two copies of one frame have left. *)
Theorem commit_is_answered upload a (w : World) o w' : commit_reference upload a w = (o, w') ->
  exists new, out w' = new ++ out w /\
    match o with
    | Ok r => exchanged (RefCommit (session_id (obj w)) upload (k_reference a) (arm_epoch (obj w)) (k_expected a) (k_revision a) 0
                           (k_protected_until a) (k_latest_phase a) (k_budget_ns a)) new r
    | Err (ReferenceCancelledBeforeDispatch _) => sent new = []
    | Err _ => exists packet k, sent new = replicate k packet /\ (k <= 2)%nat
    end.
Proof.
  unfold commit_reference, bind at 1. destruct (reference_scope _ _ w) as [os w0] eqn:Es.
  apply reference_scope_cases in Es as [-> Hs]. destruct os as [scope|e].
  - destruct Hs as (-> & _). intros H. apply with_lock_cases in H as (l & w1 & w2 & O1 & Q & Hl & E & O2).
    apply exchange_cases in E as (_ & new & O & Hx); [|done]. exists (new ++ l). rewrite O2, O, O1, app_assoc. split; [done|].
    destruct o as [r|e]; [by apply (exchanged_quiet _ _ [])|]. destruct Hx as (packet & k & S & Hk & Hu).
    assert (S' : sent (new ++ l) = replicate k packet) by by rewrite sent_app, (sent_quiet l), S.
    destruct e; try (exists packet, k; split; [exact S'|exact Hk]). by rewrite S', (Hu eq_refl).
  - intros [= <- <-]. exists []. split; [done|]. destruct e; try done; exists [], 0%nat; by split; [|lia].
Qed.

(** C20: an upload that returns has sent the whole reference: a BEGIN with its
    size, the chunks of its bytes in order (together exactly the rows of the
    trajectory, which passed the checks), and the seal of their digest, each
    accepted by the server before the next was produced, and nothing else. *)
Theorem upload_is_whole tr a (w : World) u w' : upload_reference tr a w = (Ok u, w') ->
  exists rows ident phases,
    reference_rows (n (obj w)) tr = Ok rows /\ identity (obj w) = Some ident /\ out w' = concat (rev phases) ++ out w /\
    Forall2 (fun b l => exists r, exchanged b l r)
      (upload_bodies a (session_id (obj w), arm_epoch (obj w)) (id_joint_order_hash ident) (reference_model (obj w)) (n (obj w))
         (length (times tr)) (is_some (velocities tr)) u (rows_bytes rows)) phases /\
    concat (map snd (chunks (rows_bytes rows))) = rows_bytes rows.
Proof.
  unfold upload_reference, bind at 1. destruct (reference_scope _ _ w) as [os w0] eqn:Es.
  apply reference_scope_cases in Es as [-> Hs]. destruct os as [scope|e]; [|done]. destruct Hs as (-> & Hep & Hm).
  unfold bind at 1, get, asking, bind at 1, bind at 1, ask, ret. destruct (locked env (asked w)); [done|].
  intros H. apply holding_lock_cases in H as (w1 & H & O1). unfold bind at 1, upd, bind at 1, lift in H. simpl in H.
  revert H. destruct (reference_rows (n (obj w)) tr) as [rows|e] eqn:Er; [|done].
  unfold bind at 1, bind at 1, get, bind at 1, some_or. simpl. destruct (identity (obj w)) as [ident|] eqn:Ei; [|done]. simpl.
  unfold bind, ret. match goal with |- context [exchange_all ?b ?s ?c ?x] => destruct (exchange_all b s c x) as [[[]|e] w2] eqn:Ex end; [|done].
  intros [= <- <-]. apply exchange_all_cases in Ex as (phases & O & HF); [|done].
  exists rows, ident, phases. rewrite O1. split_and!; [done|done|exact O|exact HF|apply chunks_concat].
Qed.

(** ** Arming and stopping *)

Lemma wait_state_cases k (w : World) st w' : wait_state k w = (Ok (Some st), w') -> quiet w w' /\ state (obj w') = Some st.
Proof.
  revert w. induction k as [|k IH]; intros w; cbn [wait_state]; unfold bind at 1, latest_state, bind at 1, get, ret; simpl;
    destruct (state (obj w)) as [p|] eqn:E; try done; try (intros [= -> <-]; by split; [reflexivity|]).
  unfold bind. destruct (pause_ok w) as (w1 & -> & Q). intros H. apply IH in H as [H1 H2]. split; [by etrans|done].
Qed.

Lemma epoch_reached_refl x : epoch_reached x x = true.
Proof. unfold epoch_reached. by rewrite Z.sub_diag. Qed.

Lemma seed_cases (w w' : World) : seed_command_seq w = (Ok tt, w') ->
  quiet w w' /\ exists st, state (obj w') = Some st /\ epoch_reached (cmd_seq (obj w')) (last_cmd_seq (rt st)) = true.
Proof.
  unfold seed_command_seq, asking, bind at 1, bind at 1, ask, ret, bind at 1. simpl.
  destruct (wait_state _ _) as [[[st|]|e] w1] eqn:E; [|done..]. apply wait_state_cases in E as [Q Hs].
  assert (Q' : quiet w w1) by (etrans; [apply quiet_asked|exact Q]).
  unfold bind at 1, some_or, bind, get, ret, when. destruct (epoch_reached (cmd_seq (obj w1)) (last_cmd_seq (rt st))) eqn:Ee; simpl.
  - intros [= <-]. split; [done|]. by exists st.
  - unfold upd. intros [= <-]. split; [etrans; [exact Q'|split; simpl; auto; exists []; split_and!; auto]|]. exists st. split; [done|]. apply epoch_reached_refl.
Qed.

(** Arming numbers its commands from the server's: before the ARM frame
    leaves, the command counter has reached the last command of a state the
    client holds; the epoch it takes is that of a STATUS heard in answer, not
    zero, whose flags show ARMED and no fault. *)
Theorem armed_above_the_server (w w' : World) : enable_all w = (Ok tt, w') ->
  exists w1 early st new packet t ack,
    out w1 = early ++ out w /\ sent early = [] /\
    state (obj w1) = Some st /\ epoch_reached (cmd_seq (obj w1)) (last_cmd_seq (rt st)) = true /\
    out w' = new ++ out w1 /\ sent new = [packet] /\ pack_control CTL_ARM 0 0 t [] = Ok packet /\
    acked_by new CTL_STATUS ack /\ flag (ctl_arg ack) FLAG_ARMED = true /\ flag (ctl_arg ack) FLAG_FAULTED = false /\
    arm_epoch (obj w') = ctl_seq ack /\ arm_epoch (obj w') <> 0.
Proof.
  unfold enable_all, bind at 1, upd at 1. set (w0 := w <| obj := _ |>).
  unfold bind at 1. destruct (seed_command_seq w0) as [[[]|e] w1] eqn:E1; [|done].
  apply seed_cases in E1 as [Q (st & Hs & Hc)]. apply quiet_out in Q as (early & O1 & Q).
  unfold bind at 1. destruct (control_roundtrip CTL_ARM 0 w1) as [[ack|e] w2] eqn:E2; [|done].
  apply control_roundtrip_cases in E2 as (new & packet & t & O2 & S2 & P2 & A2).
  destruct (_ || _) eqn:Ef; [done|]. destruct (ctl_seq ack =? 0) eqn:Ez; [done|]. unfold upd. intros [= <-].
  breflect. exists w1, early, st, new, packet, t, ack. split_and!; try done. by apply sent_quiet.
Qed.

(** The latest state of a wait that ended well *)
Lemma wait_drop_cases k acked g (w w' : World) : wait_drop k acked g w = (Ok true, w') ->
  exists w1, quiet w w1 /\ drop_shown acked g (state (obj w1), state_rx_t (obj w1)) = true /\
    w' = w1 <| obj := (obj w1) <| latched_fault := [] |> |>.
Proof.
  revert w. induction k as [|k IH]; intros w; cbn [wait_drop]; [done|]. unfold bind at 1, latest_state, bind at 1, get, ret at 1.
  destruct (drop_shown _ _ _) eqn:E.
  - unfold bind, upd, ret. intros [= <-]. exists w. by split; [reflexivity|].
  - unfold bind. destruct (pause_ok w) as (w1 & -> & Q). intros H. apply IH in H as (w2 & Q2 & H). exists w2. split; [by etrans|done].
Qed.

(** C21: a stop reports success only when there is no session, or when exactly
    one control frame, a DISARM, was sent, a STATUS heard since the queue of
    acknowledgements was emptied for it shows no ARMED, and the state now held
    was received after the clock was read on that answer (the first question the
    call asks once the round trip is over), shows no ARMED either and a stop
    generation that covers the one acknowledged. *)
Theorem stop_is_confirmed (w w' : World) : safe_stop w = (Ok true, w') ->
  tcp (obj w) = None \/
  exists w1 new packet t ack later st,
    control_roundtrip CTL_DISARM 0 w = (Ok ack, w1) /\
    out w1 = new ++ out w /\ sent new = [packet] /\ pack_control CTL_DISARM 0 0 t [] = Ok packet /\
    acked_by new CTL_STATUS ack /\ flag (ctl_arg ack) FLAG_ARMED = false /\
    out w' = later ++ out w1 /\ sent later = [] /\
    state (obj w') = Some st /\ armed (rt st) = false /\ epoch_reached (stop_epoch (rt st)) (ctl_seq ack) = true /\
    (state_rx_t (obj w') >f monotonic env (asked w1)) = true /\ latched_fault (obj w') = [].
Proof.
  unfold safe_stop, bind at 1, get. destruct (tcp (obj w)) eqn:Ht; [|by left]. simpl. unfold bind at 1, catch, bind at 1, ret at 1.
  destruct (control_roundtrip CTL_DISARM 0 w) as [[ack|e] w1] eqn:E1; [|by destruct (is_RtLinkError e)].
  pose proof E1 as (new & packet & t & O1 & S1 & P1 & A1)%control_roundtrip_cases.
  unfold asking, bind at 1, bind at 1, ask, ret at 1, bind at 1, upd at 1. destruct (flag _ _) eqn:Ef; [done|].
  unfold bind, ret. simpl. intros H. apply wait_drop_cases in H as (w2 & Q & Hd & ->). right.
  apply quiet_out in Q as (l & O2 & Ql). simpl in O2. unfold drop_shown in Hd. simpl in *.
  destruct (state (obj w2)) as [st|] eqn:Es; [|done]. breflect. exists w1, new, packet, t, ack, l, st.
  split_and!; try done. by apply sent_quiet.
Qed.

(** ** Admission *)

(** What an admitted identity has in common with the configuration *)
Definition admitted_as (names : list bytes) (i : Identity) : Prop :=
  id_instance i = instance_id cfg /\ id_n i = Z.of_nat (length names) /\ id_joint_order_hash i = joint_order_hash names /\
  identity_hash (instance_id cfg) (joint_order_hash names) = Ok (id_identity_hash i) /\
  (task_model cfg <> [] -> id_model i = task_model cfg).

Lemma problem_none b what : problem b what = [] -> b = false.
Proof. by destruct b. Qed.

Lemma no_problems s i : identity_problems s (joint_order_hash (joint_names s)) i = Ok [] -> admitted_as (joint_names s) i.
Proof.
  unfold identity_problems. destruct (identity_hash _ _) as [h|e] eqn:Eh; simpl; [|done]. intros [= H].
  apply app_nil in H as [H1%problem_none H]. apply app_nil in H as [H2%problem_none H]. apply app_nil in H as [H3%problem_none H].
  apply app_nil in H as [H4%problem_none H5%problem_none]. breflect. unfold n in *. split_and!; try done; [congruence|].
  intros Ht. apply andb_false_iff in H5 as [H5|H5]; breflect; done.
Qed.

(** The parts of an admission that succeeds *)
Lemma admit_cases (w w' : World) : admit_ w = (Ok tt, w') ->
  exists new ident frame status,
    out w' = new ++ out w /\ acked_by new CTL_IDENTITY frame /\ unpack_identity (ctl_raw frame) = Ok ident /\
    admitted_as (joint_names (obj w)) ident /\ acked_by new CTL_STATUS status /\ flag (ctl_arg status) FLAG_CLAIMED = true /\
    identity (obj w') = Some ident /\ session_id (obj w') = id_session ident /\ expected_identity (obj w') = id_identity_hash ident.
Proof.
  unfold admit_, bind at 1, get. destruct (negb _); [done|].
  unfold bind at 1. destruct (await_control CTL_HELLO w) as [[[hello|]|e] w1] eqn:E1; [|done..].
  apply await_control_heard in E1 as (n1 & O1 & _). unfold bind at 1, some_or, ret at 1.
  unfold bind at 1. destruct (read_hello hello w1) as [[[]|e] w2] eqn:E2; [|done].
  unfold bind at 1. destruct (await_control CTL_IDENTITY w2) as [[[frame|]|e] w3] eqn:E3; [|done..].
  apply await_control_heard in E3 as (n3 & O3 & A3). unfold bind at 1, ret at 1.
  unfold bind at 1, lift. destruct (unpack_identity (ctl_raw frame)) as [ident|e] eqn:Ei; [|done].
  unfold bind at 1. destruct (identity_problems _ _ ident) as [[|p l]|e] eqn:Ep; [|done..].
  unfold bind at 1. destruct (identity_hash _ _) as [h|e] eqn:Eh; [|done].
  unfold bind at 1. destruct (pack_identity _) as [claim|e] eqn:Ec; [|done].
  unfold bind at 1. destruct (send_control CTL_CLAIM 0 claim w3) as [[[]|e] w4] eqn:E4; [|done].
  unfold bind at 1. destruct (await_control CTL_STATUS w4) as [[[status|]|e] w5] eqn:E5; [|done..].
  apply await_control_heard in E5 as (n5 & O5 & A5). destruct (negb _) eqn:Ef; [done|].
  unfold upd. intros [= <-]. breflect.
  assert (exists n2, out w2 = n2 ++ out w1) as (n2 & O2).
  { assert (G : steps grown (read_hello hello)) by (unfold read_hello; steps). specialize (G w1). by rewrite E2 in G. }
  assert (exists n4, out w4 = n4 ++ out w3) as (n4 & O4).
  { pose proof (grown_send_control CTL_CLAIM 0 claim w3) as G. by rewrite E4 in G. }
  exists (n5 ++ n4 ++ n3 ++ n2 ++ n1), ident, frame, status. simpl. rewrite O5, O4, O3, O2, O1, <- !app_assoc.
  split_and!; try done; [|by apply no_problems|].
  - eapply acked_mono; [|exact A3]. intros f Hf. by apply heard_app_r, heard_app_r, heard_app_l.
  - eapply acked_mono; [|exact A5]. intros f Hf. by apply heard_app_l.
Qed.

(** The first datagram of a session only teaches the address. *)
Lemma send_command_raw_binding q qd tau kp kd h c (w : World) o w' : send_command_raw q qd tau kp kd h c w = (o, w') ->
  identity (obj w') = identity (obj w) /\ session_id (obj w') = session_id (obj w) /\
  expected_identity (obj w') = expected_identity (obj w) /\ grown true w w'.
Proof.
  intros H. pose proof (send_command_raw_aside (fun _ => False) q qd tau kp kd h c w) as A. rewrite H in A.
  pose proof (quiet_out _ _ A) as (l & O & _). destruct A. split_and!; auto. by exists l.
Qed.

Lemma catch_admit (w w' : World) c h : catch c admit_ (fun e => upd h ;~ throw (if is_ValueError e then mismatch else e)) w = (Ok tt, w') ->
  admit_ w = (Ok tt, w').
Proof. unfold catch. destruct (admit_ w) as [[[]|e] w1]; [done|]. by destruct (c e). Qed.

(** A link that opens is bound to the configured arm: the identity it keeps
    was heard in an IDENTITY frame of this handshake, names the configured
    instance, joint count, joint order and task model, and carries the hash of
    that instance and order, which every later state must repeat; a STATUS heard
    in the handshake grants the claim. *)
Theorem open_binds_the_arm (w w' : World) : open w = (Ok tt, w') ->
  exists new ident frame status,
    out w' = new ++ out w /\ acked_by new CTL_IDENTITY frame /\ unpack_identity (ctl_raw frame) = Ok ident /\
    admitted_as (joint_names (obj w)) ident /\ acked_by new CTL_STATUS status /\ flag (ctl_arg status) FLAG_CLAIMED = true /\
    identity (obj w') = Some ident /\ session_id (obj w') = id_session ident /\ expected_identity (obj w') = id_identity_hash ident.
Proof.
  intros H. unfold open in H. apply bind_ok in H as ([] & w0 & [= <-] & H).
  apply bind_ok in H as (up & w1 & H1 & H). apply bind_ok in H1 as (k & w1' & [= <- <-] & [= <- <-]).
  destruct (negb _); [done|]. apply bind_ok in H as ([] & w2 & [= <-] & H).
  apply bind_ok in H as ([] & w3 & E & H). apply catch_admit in E.
  apply admit_cases in E as (n1 & ident & frame & status & O1 & A1 & Hi & Ha & A2 & Hf & I1 & I2 & I3).
  apply bind_ok in H as ([] & w4 & [= <-] & H). apply bind_ok in H as (s & w5 & [= <- <-] & H).
  apply bind_ok in H as (seq & w6 & E2 & [= <-]).
  apply send_command_raw_binding in E2 as (J1 & J2 & J3 & (n2 & O2)). cbn [out obj] in *.
  exists (n2 ++ n1), ident, frame, status. rewrite O2, O1, <- app_assoc. split_and!; try done.
  - eapply acked_mono; [|exact A1]. intros f Hf'. by apply heard_app_r.
  - eapply acked_mono; [|exact A2]. intros f Hf'. by apply heard_app_r.
  - rewrite J1. exact I1.
  - rewrite J2. exact I2.
  - rewrite J3. exact I3.
Qed.

(** *** A server that is refused *)

(** Since the output [base], nothing has been sent on the datagram socket, which is closed. *)
Definition unarmed (base : list record) (w : World) : Prop :=
  udp (obj w) = false /\ exists new, out w = new ++ base /\ Forall datagram_free new.

Lemma unarmed_aside base (w w' : World) : quiet w w' -> unarmed base w -> unarmed base w'.
Proof.
  intros [(l & O & _ & D & _)] (Hu & new & O' & F). split; [destruct (udp (obj w')) eqn:E; [by rewrite as_udp in Hu|done]|].
  exists (l ++ new). rewrite O, O', app_assoc. split; [done|]. apply Forall_app. auto.
Qed.
Lemma unarmed_upd base f : (forall s, udp (f s) = udp s) -> steps (saves (unarmed base)) (upd f).
Proof. intros H w (Hu & new & O & F). split; [by simpl; rewrite H|by exists new]. Qed.
Lemma unarmed_say base o : (forall s, datagram_free (s, o)) -> steps (saves (unarmed base)) (say o).
Proof. intros H w (Hu & new & O & F). split; [done|]. exists ((obj w, o) :: new). simpl. rewrite O. split; [done|]. by constructor. Qed.
Lemma unarmed_ask base : steps (saves (unarmed base)) ask.
Proof. intros w H. exact H. Qed.
Lemma unarmed_pause base : steps (saves (unarmed base)) pause.
Proof. intros w H. destruct (pause_ok w) as (w' & -> & Q). by eapply unarmed_aside. Qed.
#[local] Hint Resolve unarmed_ask unarmed_pause : steps.
#[local] Hint Extern 1 (steps (saves (unarmed _)) (upd _)) => apply unarmed_upd; intros; reflexivity : steps.
#[local] Hint Extern 1 (steps (saves (unarmed _)) (say _)) => apply unarmed_say; intros; exact I : steps.

Lemma unarmed_send_control base ty arg body : steps (saves (unarmed base)) (send_control ty arg body).
Proof. unfold send_control, control_packet, send_frame, hand_over, on_connection, asking. steps. Qed.
Lemma unarmed_recv_loop base k buf : steps (saves (unarmed base)) (recv_loop k buf).
Proof. revert buf. induction k as [|k IH]; intros buf; cbn [recv_loop]; unfold asking; steps; apply IH. Qed.
#[local] Hint Resolve unarmed_send_control unarmed_recv_loop : steps.
Lemma unarmed_recv_control base : steps (saves (unarmed base)) recv_control.
Proof. unfold recv_control, asking. steps. Qed.
#[local] Hint Resolve unarmed_recv_control : steps.
Lemma unarmed_await base ty : steps (saves (unarmed base)) (await_control ty).
Proof.
  unfold await_control, asking. steps. match goal with |- steps _ (await_loop ?k _) => induction k as [|k IH] end; simpl; steps.
Qed.
#[local] Hint Resolve unarmed_await : steps.
Lemma unarmed_admit base : steps (saves (unarmed base)) admit_.
Proof. unfold admit_, read_hello. steps. Qed.

(** A server that is not admitted hears no command: an [open] that raises
    has put nothing on the datagram socket. *)
Theorem refused_server_hears_no_command (w : World) e w' : udp (obj w) = false -> open w = (Err e, w') ->
  exists new, out w' = new ++ out w /\ Forall datagram_free new.
Proof.
  intros Hu. unfold open, bind at 1, upd at 1, asking, bind at 1, bind at 1, ask, ret at 1.
  destruct (negb _); [intros [= <- <-]; by exists []|].
  unfold bind at 1, upd at 1, bind at 1, catch. simpl.
  match goal with |- context [admit_ ?x] => set (w0 := x) end. pose proof (unarmed_admit (out w) w0) as HA.
  destruct (admit_ w0) as [[[]|e0] w1] eqn:E; simpl in HA.
  - destruct HA as (_ & new & O & F); [by split; [|exists []]|].
    unfold bind at 1, upd at 1, bind at 1, get, bind. unfold send_command_raw, bind at 1, upd at 1, asking, bind at 1, bind at 1, ask, ret, bind at 1, get, bind at 1, lift. simpl.
    destruct (pack_command _) as [pkt|e1] eqn:Ep; [|intros [= <- <-]; simpl; by exists new].
    unfold send_command_packet, bind, get, asking, ask, upd, ret, say, when. simpl. destruct (sends _ _); [done|]. by destruct (f1 <f _).
  - destruct HA as (_ & new & O & F); [by split; [|exists []]|].
    destruct (_ || _); [|intros [= <- <-]; by exists new]. unfold bind, upd, throw. intros [= <- <-]. by exists new.
Qed.

(** ** The states shown *)

(** The hash every state of the claimed arm carries *)
Definition claimed (names : list bytes) (h : Z) : Prop := identity_hash (instance_id cfg) (joint_order_hash names) = Ok h.
Definition of_the_arm (names : list bytes) (p : rt_state) : Prop :=
  claimed names (s_identity_hash (rt p)) /\ s_n (rt p) = Z.of_nat (length names).

Definition shows_arm (names : list bytes) (w : World) : Prop :=
  joint_names (obj w) = names /\ (udp (obj w) = true -> claimed names (expected_identity (obj w))) /\
  (forall p, state (obj w) = Some p -> of_the_arm names p) /\ (forall x, x ∈ state_history (obj w) -> of_the_arm names x.1).

Lemma shows_aside names (w w' : World) : quiet w w' -> shows_arm names w -> shows_arm names w'.
Proof.
  intros [] (Hn & Hu & Hs & Hh). assert (Ho : forall p, udp (obj w) = true -> ours (obj w) p -> of_the_arm names p).
  { intros p Hud [E1 E2]. unfold of_the_arm, n in *. rewrite E1, E2, Hn. auto. }
  split_and!; [congruence|intros H; rewrite as_expected; auto| |].
  - intros p Hp. destruct as_state as [E|(p' & E & Hud & Hp')]; [apply Hs; congruence|]. rewrite E in Hp. injection Hp as <-. auto.
  - intros x Hx. destruct (as_history x Hx) as [?|[? ?]]; auto.
Qed.

Lemma shows_upd names f :
  (forall s, joint_names (f s) = joint_names s) -> (forall s, udp (f s) = udp s) -> (forall s, expected_identity (f s) = expected_identity s) ->
  (forall s, state (f s) = state s) -> (forall s, state_history (f s) = state_history s) -> steps (saves (shows_arm names)) (upd f).
Proof. intros H1 H2 H3 H4 H5 w (Hn & Hu & Hs & Hh). unfold shows_arm. simpl. by rewrite H1, H2, H3, H4, H5. Qed.
Lemma shows_same names {A} (m : LinkM A) : (forall w, obj (m w).2 = obj w) -> steps (saves (shows_arm names)) m.
Proof. intros H w. unfold saves, shows_arm. by rewrite H. Qed.
Lemma shows_pause names : steps (saves (shows_arm names)) pause.
Proof. intros w H. destruct (pause_ok w) as (w' & -> & Q). by eapply shows_aside. Qed.
#[local] Hint Extern 1 (steps (saves (shows_arm _)) (upd _)) => apply shows_upd; intros; reflexivity : steps.
#[local] Hint Extern 1 (steps (saves (shows_arm _)) (say _)) => apply shows_same; intros; reflexivity : steps.
#[local] Hint Extern 1 (steps (saves (shows_arm _)) ask) => apply shows_same; intros; reflexivity : steps.
#[local] Hint Resolve shows_pause : steps.

Lemma shows_quiet names {A} (m : LinkM A) : steps (fun _ => aside (fun _ => False)) m -> steps (saves (shows_arm names)) m.
Proof. intros H w Hw. apply (shows_aside names w); [apply H|exact Hw]. Qed.
Lemma shows_catch names {A} c (m : LinkM A) h :
  steps (saves (shows_arm names)) m -> (forall e, steps (saves (shows_arm names)) (h e)) -> steps (saves (shows_arm names)) (catch c m h).
Proof. intros Hm Hh. apply steps_catch; [apply _|exact Hm|exact Hh]. Qed.
Lemma shows_finally names {A} (m : LinkM A) f :
  steps (saves (shows_arm names)) m -> steps (saves (shows_arm names)) f -> steps (saves (shows_arm names)) (finally m f).
Proof. intros Hm Hf. apply steps_finally; [apply _|exact Hm|exact Hf]. Qed.
#[local] Hint Extern 2 (steps (saves (shows_arm _)) (send_command_raw _ _ _ _ _ _ _)) => apply shows_quiet, send_command_raw_aside : steps.
#[local] Hint Extern 2 (steps (saves (shows_arm _)) (apply_command _)) => apply shows_quiet, apply_command_aside : steps.
#[local] Hint Extern 2 (steps (saves (shows_arm _)) (apply_reference_envelope _)) => apply shows_quiet, envelope_aside : steps.
#[local] Hint Extern 2 (steps (saves (shows_arm _)) (reference_scope _ _)) => apply shows_quiet, reference_scope_aside : steps.
#[local] Hint Extern 2 (steps (saves (shows_arm _)) (act_out _)) => apply shows_quiet, act_aside : steps.

Lemma shows_send_frame names pkt sock : steps (saves (shows_arm names)) (send_frame pkt sock).
Proof. unfold send_frame, hand_over, on_connection, asking. steps. Qed.
#[local] Hint Resolve shows_send_frame : steps.
Lemma shows_send_control names ty arg body : steps (saves (shows_arm names)) (send_control ty arg body).
Proof. unfold send_control, control_packet, asking. steps. Qed.
#[local] Hint Resolve shows_send_control : steps.
Lemma shows_roundtrip names ty arg : steps (saves (shows_arm names)) (control_roundtrip ty arg).
Proof. unfold control_roundtrip, drain_status, status_get. steps. Qed.
Lemma shows_recv_loop names k buf : steps (saves (shows_arm names)) (recv_loop k buf).
Proof. revert buf. induction k as [|k IH]; intros buf; cbn [recv_loop]; unfold asking; steps; apply IH. Qed.
#[local] Hint Resolve shows_roundtrip shows_recv_loop : steps.
Lemma shows_await names ty : steps (saves (shows_arm names)) (await_control ty).
Proof.
  unfold await_control, asking. steps. match goal with |- steps _ (await_loop ?k _) => induction k as [|k IH] end; simpl; unfold recv_control, asking; steps.
Qed.
#[local] Hint Resolve shows_await : steps.
Lemma shows_read_hello names m : steps (saves (shows_arm names)) (read_hello m).
Proof. unfold read_hello. steps. Qed.
#[local] Hint Resolve shows_read_hello : steps.

(** The object a call reads satisfies the invariant. *)
Lemma shows_get names {A} (k : link -> LinkM A) :
  (forall s, joint_names s = names -> steps (saves (shows_arm names)) (k s)) -> steps (saves (shows_arm names)) (bind get k).
Proof. intros H w Hw. apply (H (obj w)); [apply Hw|exact Hw]. Qed.
Lemma steps_lift_eq (R : bool -> World -> World -> Prop) `{!Flow R} {A B} (r : result A) (k : A -> LinkM B) :
  (forall a, r = Ok a -> steps R (k a)) -> steps R (bind (lift r) k).
Proof. intros H w. destruct r as [a|e]; [by apply H|apply flow_refl]. Qed.

(** [admit_] leaves the identity that the hash of the configuration asks for. *)
Lemma shows_admit names (w : World) o w' : shows_arm names w -> admit_ w = (o, w') ->
  shows_arm names w' /\ (o = Ok tt -> claimed names (expected_identity (obj w'))).
Proof.
  intros Hw E. split.
  - assert (G : steps (saves (shows_arm names)) admit_).
    { unfold admit_. apply shows_get. intros s Hs. destruct (negb _); [steps|].
      do 6 (apply steps_bind; [apply _|solve [steps]|intros ?]). apply steps_lift_eq; [apply _|]. intros [|? ?] Hp; [|steps].
      rewrite Hs in Hp. rewrite <- Hs in Hp. apply no_problems in Hp.
      do 3 (apply steps_bind; [apply _|solve [steps]|intros ?]). apply steps_bind; [apply _|solve [steps]|intros status].
      destruct (match status with Some _ => _ | None => _ end); [steps|].
      intros w1 (Hn & Hu & H1 & H2). split; [done|]. split; [|done]. intros _. rewrite <- Hs. apply Hp. }
    specialize (G w Hw). by rewrite E in G.
  - intros ->. apply admit_cases in E as (_ & ident & _ & _ & _ & _ & _ & Ha & _ & _ & _ & _ & ->). destruct Hw as (<- & _). apply Ha.
Qed.

Lemma shows_open names : steps (saves (shows_arm names)) open.
Proof.
  unfold open, asking. do 2 (apply steps_bind; [apply _|solve [steps]|intros ?]). destruct (negb _); [steps|].
  apply steps_bind; [apply _|solve [steps]|intros _]. intros w Hw. unfold bind at 1.
  assert (G : shows_arm names (catch (fun e => is_RtLinkError e || is_ValueError e) admit_
      (fun e => upd (fun s => s <| tcp := None |>) ;~ throw (if is_ValueError e then mismatch else e)) w).2 /\
    forall w1, catch (fun e => is_RtLinkError e || is_ValueError e) admit_
      (fun e => upd (fun s => s <| tcp := None |>) ;~ throw (if is_ValueError e then mismatch else e)) w = (Ok tt, w1) ->
      claimed names (expected_identity (obj w1))).
  { split.
    - revert Hw. apply shows_catch; [|intros; steps]. intros w0 H0. destruct (admit_ w0) as [o w1] eqn:E.
      by apply (shows_admit _ _ _ _ H0) in E as [].
    - intros w1 E. apply catch_admit in E. apply (shows_admit _ _ _ _ Hw) in E as [_ E]. auto. }
  destruct (catch _ _ _ w) as [[[]|e] w1]; simpl in G; [|apply G]. destruct G as [G1 G2]. specialize (G2 w1 eq_refl).
  assert (Gup : shows_arm names (w1 <| obj := (obj w1) <| udp := true |> <| stop := false |> <| ctl_running := true |> <| ctl_buf := [] |> |>)).
  { destruct G1 as (Hn & _ & Hs & Hh). by split_and!. }
  assert (Gs : steps (saves (shows_arm names)) (s <~ get ;;
    send_command_raw (zeros s) (zeros s) (zeros s) (zeros s) (zeros s) None None ;~ ret tt)) by steps.
  exact (Gs _ Gup).
Qed.

#[local] Hint Extern 3 (steps (saves (shows_arm _)) (finally _ _)) => apply shows_finally; steps : steps.
#[local] Hint Extern 3 (steps (saves (shows_arm _)) (catch _ _ _)) => apply shows_catch; steps : steps.
Lemma shows_wait_state names k : steps (saves (shows_arm names)) (wait_state k).
Proof. induction k as [|k IH]; cbn [wait_state]; unfold latest_state; steps. Qed.
Lemma shows_wait_drop names k acked g : steps (saves (shows_arm names)) (wait_drop k acked g).
Proof. induction k as [|k IH]; cbn [wait_drop]; unfold latest_state; steps. Qed.
#[local] Hint Resolve shows_open shows_wait_state shows_wait_drop : steps.
Lemma shows_enable names : steps (saves (shows_arm names)) enable_all.
Proof. unfold enable_all, seed_command_seq, asking. steps. Qed.
Lemma shows_safe_stop names : steps (saves (shows_arm names)) safe_stop.
Proof. unfold safe_stop, asking. steps. Qed.
#[local] Hint Resolve shows_enable shows_safe_stop : steps.
Lemma shows_close names : steps (saves (shows_arm names)) close.
Proof.
  unfold close. apply steps_bind; [apply _|apply shows_catch; steps|]. intros _ w (Hn & Hu & Hs & Hh). by split_and!.
Qed.
Lemma shows_set_active names mask : steps (saves (shows_arm names)) (set_active_mask mask).
Proof. unfold set_active_mask, latest_state. steps. Qed.
Lemma shows_negotiate names t : steps (saves (shows_arm names)) (negotiate_reference t).
Proof. unfold negotiate_reference, drain_status, status_get, link_error. steps. Qed.
Lemma shows_select names d t : steps (saves (shows_arm names)) (select_mode d t).
Proof. unfold select_mode, mode_get, link_error. steps. Qed.

Lemma shows_await_reply names k : steps (saves (shows_arm names)) (await_reply k).
Proof. induction k as [|k IH]; cbn [await_reply]; steps. Qed.
#[local] Hint Resolve shows_await_reply : steps.
Lemma shows_check_scope names scope : steps (saves (shows_arm names)) (check_scope scope).
Proof. unfold check_scope. steps. Qed.
#[local] Hint Resolve shows_check_scope : steps.
Lemma shows_attempt names f op p scope sock : steps (saves (shows_arm names)) (attempt f op p scope sock).
Proof. unfold attempt, asking. steps. Qed.
#[local] Hint Resolve shows_attempt : steps.
Lemma shows_exchange names b scope sock : steps (saves (shows_arm names)) (reference_exchange b scope sock).
Proof. unfold reference_exchange, asking, link_error. unfold settle, close_exchange; steps. Qed.
#[local] Hint Resolve shows_exchange : steps.
Lemma shows_exchange_all names l scope sock : steps (saves (shows_arm names)) (exchange_all l scope sock).
Proof. induction l as [|b l IH]; cbn [exchange_all]; steps. Qed.
#[local] Hint Resolve shows_exchange_all : steps.
Lemma shows_holding names {A} (m : LinkM A) : steps (saves (shows_arm names)) m -> steps (saves (shows_arm names)) (holding_lock m).
Proof. intros H. unfold holding_lock. apply steps_bind; [apply _|steps|]. intros _. apply shows_finally; steps. Qed.
Lemma shows_lock names {A} (m : LinkM A) : steps (saves (shows_arm names)) m -> steps (saves (shows_arm names)) (with_lock m).
Proof. intros H. unfold with_lock. apply steps_bind; [apply _|steps|]. intros _. by apply shows_holding. Qed.
#[local] Hint Extern 3 (steps (saves (shows_arm _)) (with_lock _)) => apply shows_lock; steps : steps.
#[local] Hint Extern 3 (steps (saves (shows_arm _)) (holding_lock _)) => apply shows_holding; steps : steps.

#[local] Hint Resolve shows_close shows_set_active shows_negotiate shows_select : steps.

Lemma shows_serve names i : steps (saves (shows_arm names)) (serve i).
Proof.
  destruct i; cbn [serve]; try solve [steps].
  all: unfold upload_reference, commit_reference, group_join, group_commit, group_cancel, cancel_reference,
    abort_reference_upload, interrupt_reference_upload, need_group, clear_cancel, set_cancel, link_error, asking; steps.
Qed.

(** Whatever the calls, the threads and the server do, the latest state and
    the recent ones the client shows carry the identity hash of the configured
    instance and joint order and the configured joint count: a state of another
    arm never reaches the graph. *)
Theorem only_the_claimed_arm_is_shown names inputs p :
  let s := obj (run_steps step (start names) inputs) in
  (state s = Some p \/ exists at_, (p, at_) ∈ state_history s) -> of_the_arm names p.
Proof.
  intros s. assert (H : shows_arm names (run_steps step (start names) inputs)).
  { apply run_steps_inv; [intros w i; apply shows_serve|]. split_and!; try done. intros x Hx. by apply not_elem_of_nil in Hx. }
  destruct H as (_ & _ & Hs & Hh). intros [Hp|[t Hp]]; [by apply Hs|by apply (Hh (p, t))].
Qed.

(** ** Commands *)

Lemma next_seq_mod (s : link) : next_seq s = (cmd_seq s + 1) mod 2 ^ 32.
Proof. unfold next_seq. change 0xFFFFFFFF with (Z.ones 32). by rewrite Z.land_ones. Qed.

(** A joint command that leaves carries the next sequence number, modulo
    2^32, and the current session and ARM epoch; the number it returns is the one
    on the wire.  When nothing left, no datagram did. *)
Theorem command_is_numbered c (w w' : World) r : apply_command c w = (Ok r, w') ->
  match r with
  | Some q => q = (cmd_seq (obj w) + 1) mod 2 ^ 32 /\ cmd_seq (obj w') = q /\ exists x pkt s,
      out w' = (s, Datagram pkt) :: out w /\ pack_command x = Ok pkt /\ c_seq x = q /\ c_n x = Z.of_nat (n (obj w)) /\
      c_session_id x = session_id (obj w) /\ c_arm_epoch x = arm_epoch (obj w) /\ c_q_des x = take (n (obj w)) (jc_position c)
  | None => out w' = out w
  end.
Proof.
  unfold apply_command, bind at 1, get. do 4 (destruct (_ : bool); [done|]). destruct (negb (udp (obj w))) eqn:Hu; [by intros [= <- <-]|].
  intros H. unfold send_command_raw in H. apply bind_ok in H as ([] & w1 & [= <-] & H).
  apply bind_ok in H as (t & w2 & H2 & H). apply bind_ok in H2 as (k & w2' & [= <- <-] & [= <- <-]).
  apply bind_ok in H as (s & w3 & [= <- <-] & H). apply bind_ok in H as (pkt & w4 & H4 & H). unfold lift in H4.
  destruct (pack_command _) as [pkt'|e] eqn:Ep; [|done]. injection H4 as -> <-.
  unfold send_command_packet in H. apply bind_ok in H as (s & w5 & [= <- <-] & H). cbn [udp obj] in H. rewrite Hu in H.
  apply bind_ok in H as (now & w6 & H6 & H). apply bind_ok in H6 as (k6 & w6' & [= <- <-] & [= <- <-]).
  apply bind_ok in H as ([] & w7 & [= <-] & H). apply bind_ok in H as (b & w8 & H8 & H).
  apply bind_ok in H8 as (k8 & w8' & [= <- <-] & [= <- <-]). destruct (sends env _).
  - apply bind_ok in H as ([] & w9 & [= <-] & H). apply bind_ok in H as (s & w10 & [= <- <-] & [= <- <-]).
    cbn [cmd_seq obj out]. split; [apply next_seq_mod|]. split; [done|]. eexists _, pkt, _. split; [reflexivity|].
    split; [exact Ep|]. done.
  - apply bind_ok in H as ([] & w9 & H9 & [= <- <-]). unfold when in H9. by destruct (f1 <f _); injection H9 as <-.
Qed.
End Safety.
