(* ===== verification/LinkDemo.v ===== *)
(** Runs of the RT client against scripted servers: the inputs at which the
    theorems of [LinkSafety] are seen to apply. *)
From Stdlib Require Import SpecFloat.
From S2P Require Import Prelude Floats Motion Wire RtProtocol Observation Effects Link LinkReference LinkFacts LinkSafety.

Open Scope Z_scope.

Definition bytes_of (r : result bytes) : bytes := match r with Ok b => b | Err _ => [] end.
Definition hash_of (r : result Z) : Z := match r with Ok h => h | Err _ => 0 end.

#[export] Instance fr3 : RtConfig := {| instance_id := encode "fr3_1"; task_model := []; max_fault_ms := f0; state_timeout_s := f1 |}.
Definition joints : list bytes := [encode "j1"].
Definition the_hash : Z := Eval vm_compute in hash_of (identity_hash (encode "fr3_1") (joint_order_hash joints)).

(** ** What the server says *)

Definition control (ty seq arg : Z) (text : bytes) : bytes := bytes_of (pack_control ty seq arg 0 text).
Definition status (seq arg : Z) : bytes := control CTL_STATUS seq arg [].
Definition identity_frame : bytes := control CTL_IDENTITY 0 0 (bytes_of (pack_identity {|
  id_instance := encode "fr3_1"; id_model := []; id_session := 9; id_joint_order_hash := joint_order_hash joints;
  id_identity_hash := the_hash; id_capabilities := 24; id_n := 1 |})).
(** The acceptance of request [seq] *)
Definition accepts (op seq : Z) : bytes := bytes_of (pack_reference_control (RefStatus 1 4 1 REF_OK op 0) seq 0 true).
Definition packet (seq cmd fl stop_epoch : Z) : bytes := bytes_of (pack STATE_FMT
  (map VI [MAGIC_STATE; VERSION; 1; seq; cmd; 0; fl; 0; 9; the_hash; 0; stop_epoch] ++ map VF (replicate 104 f0))).

(** A process whose other threads do [acts k] at question [k], over sockets that work. *)
Definition server (acts : nat -> list act) (handshake : nat -> received) : Env := {|
  monotonic := fun k => of_Z (Z.of_nat k); monotonic_ns := Z.of_nat; elsewhere := acts; polls := fun _ => 3%nat;
  sends := fun _ => true; connects := fun _ => true; reads := handshake; locked := fun _ => false;
  sha256 := fun _ => replicate 32 7; py_float := fun _ => Ok f0; py_int0 := fun _ => Ok 0 |}.

Definition at_ (s : link) : world link said := {| obj := s; out := []; asked := 0%nat |}.

(** A link in session 9, armed at epoch 7, with the reference mode negotiated. *)
Definition session : link := (RtBackend_new joints)
  <| tcp := Some 0%nat |> <| udp := true |> <| ctl_running := true |> <| expected_identity := the_hash |> <| session_id := 9 |>
  <| identity := Some {| id_instance := encode "fr3_1"; id_model := []; id_session := 9; id_joint_order_hash := joint_order_hash joints;
                         id_identity_hash := the_hash; id_capabilities := 24; id_n := 1 |} |>.
Definition armed_session : link := session
  <| arm_epoch := 7 |> <| reference_mode := true |> <| reference_model := replicate 32 7 |>.

Definition first_commit : commit_args := {|
  k_reference := 4; k_revision := 1; k_expected := 0; k_protected_until := f0; k_latest_phase := f0; k_session := None;
  k_epoch := None; k_budget_ns := 0 |}.
Definition committing : Env := server (fun _ => [Ctl (accepts CTL_REFERENCE_COMMIT 1)]) (fun _ => Timeout).

Lemma commit_is_answered_witness :
  exists r w', commit_reference (env:=committing) 1 first_commit (at_ armed_session) = (Ok r, w') /\
    exists new, out w' = new ++ [] /\ exchanged (RefCommit 9 1 4 7 0 1 0 f0 f0 0) new r.
Proof.
  destruct (commit_reference (env:=committing) 1 first_commit (at_ armed_session)) as [[r|e] w'] eqn:E.
  - exists r, w'. split; [done|]. exact (commit_is_answered (env:=committing) _ _ _ _ _ E).
  - exfalso. revert E. vm_compute. discriminate.
Defined.

Definition segment : JointTrajectory := {| times := [f0; f1]; positions := [[f0]; [f1]]; velocities := None |}.
Definition first_upload : upload_args := {|
  u_reference := 4; u_revision := 1; u_expected := 0; u_terminal := true; u_session := None; u_epoch := None |}.
Definition uploading : Env := server
  (fun _ => [Ctl (accepts CTL_REFERENCE_BEGIN 1); Ctl (accepts CTL_REFERENCE_CHUNK 2); Ctl (accepts CTL_REFERENCE_SEAL 3)]) (fun _ => Timeout).

Lemma upload_is_whole_witness :
  exists w', upload_reference (env:=uploading) segment first_upload (at_ armed_session) = (Ok 1, w') /\
    exists rows ident phases, reference_rows 1 segment = Ok rows /\ identity armed_session = Some ident /\
      out w' = concat (rev phases) ++ [] /\
      Forall2 (fun b l => exists r, exchanged b l r)
        (upload_bodies (env:=uploading) first_upload (9, 7) (id_joint_order_hash ident) (replicate 32 7) 1 2 false 1 (rows_bytes rows)) phases /\
      concat (map snd (chunks (rows_bytes rows))) = rows_bytes rows.
Proof.
  destruct (upload_reference (env:=uploading) segment first_upload (at_ armed_session)) as [[u|e] w'] eqn:E.
  - assert (u = 1) as -> by (revert E; vm_compute; intros [= <- _]; reflexivity).
    exists w'. split; [done|]. exact (upload_is_whole (env:=uploading) _ _ _ _ _ E).
  - exfalso. revert E. vm_compute. discriminate.
Defined.

Definition granting : Env := server (fun _ => [Ctl (status 7 FLAG_ARMED)]) (fun _ => Timeout).
Definition watched : link := session <| state := Some {| rt := {|
  s_n := 1; state_seq := 3; last_cmd_seq := 41; s_t_mono_ns := 0; flags := 0; fault_code := 0; s_session_id := 9;
  s_identity_hash := the_hash; s_arm_epoch := 0; stop_epoch := 0; s_q := [f0]; s_dq := [f0]; s_tau := [f0]; s_tau_cmd := [f0];
  s_q_cmd := [f0]; s_qd_cmd := [f0]; s_wrench := replicate 6 f0 |}; rt_reference := None |} |>.

Lemma armed_above_the_server_witness :
  exists w', enable_all (env:=granting) (at_ watched) = (Ok tt, w') /\ cmd_seq (obj w') = 41 /\
    exists w1 early st new packet t ack,
      out w1 = early ++ [] /\ sent early = [] /\
      state (obj w1) = Some st /\ epoch_reached (cmd_seq (obj w1)) (last_cmd_seq (rt st)) = true /\
      out w' = new ++ out w1 /\ sent new = [packet] /\ pack_control CTL_ARM 0 0 t [] = Ok packet /\
      acked_by new CTL_STATUS ack /\ flag (ctl_arg ack) FLAG_ARMED = true /\ flag (ctl_arg ack) FLAG_FAULTED = false /\
      arm_epoch (obj w') = ctl_seq ack /\ arm_epoch (obj w') <> 0.
Proof.
  destruct (enable_all (env:=granting) (at_ watched)) as [[[]|e] w'] eqn:E.
  - exists w'. split; [done|]. split; [revert E; vm_compute; intros [= <-]; reflexivity|].
    exact (armed_above_the_server (env:=granting) _ _ E).
  - exfalso. revert E. vm_compute. discriminate.
Defined.

(** The state after the answer has a new sequence number at every question. *)
Definition stopping : Env := server (fun k => [Ctl (status 5 0); Rx (packet (Z.of_nat k) 0 0 5)]) (fun _ => Timeout).

Lemma stop_is_confirmed_witness :
  exists w', safe_stop (env:=stopping) (at_ armed_session) = (Ok true, w') /\
    exists w1 new packet t ack later st,
      control_roundtrip (env:=stopping) CTL_DISARM 0 (at_ armed_session) = (Ok ack, w1) /\
      out w1 = new ++ [] /\ sent new = [packet] /\ pack_control CTL_DISARM 0 0 t [] = Ok packet /\
      acked_by new CTL_STATUS ack /\ flag (ctl_arg ack) FLAG_ARMED = false /\
      out w' = later ++ out w1 /\ sent later = [] /\
      state (obj w') = Some st /\ armed (rt st) = false /\ epoch_reached (stop_epoch (rt st)) (ctl_seq ack) = true /\
      (state_rx_t (obj w') >f monotonic stopping (asked w1)) = true /\ latched_fault (obj w') = [].
Proof.
  destruct (safe_stop (env:=stopping) (at_ armed_session)) as [[b|e] w'] eqn:E.
  - assert (b = true) as -> by (revert E; vm_compute; intros [= <- _]; reflexivity).
    exists w'. split; [done|]. destruct (stop_is_confirmed (env:=stopping) _ _ E) as [H|H]; [discriminate H|exact H].
  - exfalso. revert E. vm_compute. discriminate.
Defined.

(** ** A whole session *)

(** A handshake that starts at question 0; the second session starts at question [again]. *)
Definition greeting (k : nat) : received :=
  if (k <? 4)%nat then Data (control CTL_HELLO 0 1 (encode "fake"))
  else if (k <? 7)%nat then Data identity_frame else Data (status 0 FLAG_CLAIMED).
Definition again : nat := 22.
Definition serving : Env := server (fun _ => [Ctl (status 7 FLAG_ARMED)])
  (fun k => if (k <? again)%nat then greeting k else greeting (k - again)).
Definition first_session : list input := [Open; Elsewhere (Rx (packet 1 41 0 0)); Close].
Abbreviation after l := (run_steps (step (env:=serving)) (start joints) l).

Lemma open_binds_the_arm_witness :
  exists w', open (env:=serving) (start joints) = (Ok tt, w') /\
    exists new ident frame status,
      out w' = new ++ [] /\ acked_by new CTL_IDENTITY frame /\ unpack_identity (ctl_raw frame) = Ok ident /\
      admitted_as joints ident /\ acked_by new CTL_STATUS status /\ flag (ctl_arg status) FLAG_CLAIMED = true /\
      identity (obj w') = Some ident /\ session_id (obj w') = id_session ident /\ expected_identity (obj w') = id_identity_hash ident.
Proof.
  destruct (open (env:=serving) (start joints)) as [[[]|e] w'] eqn:E.
  - exists w'. split; [done|]. exact (open_binds_the_arm (env:=serving) _ _ E).
  - exfalso. revert E. vm_compute. discriminate.
Defined.

(** A server of three joints is refused after its HELLO. *)
Definition wrong : Env := server (fun _ => []) (fun _ => Data (control CTL_HELLO 0 3 (encode "fake"))).
Lemma refused_server_hears_no_command_witness :
  exists e w', open (env:=wrong) (start joints) = (Err e, w') /\ exists new, out w' = new ++ [] /\ Forall datagram_free new.
Proof.
  destruct (open (env:=wrong) (start joints)) as [[[]|e] w'] eqn:E.
  - exfalso. revert E. vm_compute. discriminate.
  - exists e, w'. split; [done|]. exact (refused_server_hears_no_command (env:=wrong) (start joints) e w' eq_refl E).
Defined.

Lemma only_the_claimed_arm_is_shown_witness :
  exists p, state (obj (after first_session)) = Some p /\ of_the_arm joints p.
Proof.
  destruct (state (obj (after first_session))) as [p|] eqn:E.
  - exists p. split; [done|]. apply (only_the_claimed_arm_is_shown (env:=serving) joints first_session p). by left.
  - exfalso. revert E. vm_compute. discriminate.
Defined.

Definition to_home : joint_command := {|
  jc_position := [f1]; jc_velocity := None; jc_torque := None; jc_kp := None; jc_kd := None; jc_pose_hold := None; jc_cartesian := None |}.
Lemma command_is_numbered_witness :
  exists w', apply_command (env:=serving) to_home (at_ armed_session) = (Ok (Some 1), w') /\
    (1 = (0 + 1) mod 2 ^ 32 /\ cmd_seq (obj w') = 1 /\ exists x pkt s,
      out w' = [(s, Datagram pkt)] /\ pack_command x = Ok pkt /\ c_seq x = 1 /\ c_n x = 1 /\
      c_session_id x = 9 /\ c_arm_epoch x = 7 /\ c_q_des x = [f1]).
Proof.
  destruct (apply_command (env:=serving) to_home (at_ armed_session)) as [[r|e] w'] eqn:E.
  - assert (r = Some 1) as -> by (revert E; vm_compute; intros [= <- _]; reflexivity).
    exists w'. split; [done|]. exact (command_is_numbered (env:=serving) _ _ _ _ E).
  - exfalso. revert E. vm_compute. discriminate.
Defined.

Definition carries_state (a : act) : bool := match a with Rx _ => true | _ => false end.

(** A link that is closed and opened again keeps the state of its former
    session: it arms in the new one without any state from it, and numbers its
    commands from the old packet, although arming is meant to be refused without
    the state stream. *)
Theorem reopened_arms_on_an_old_state :
  (forall k, forallb (fun a => negb (carries_state a)) (elsewhere serving k) = true) /\
  connections (obj (after (first_session ++ [Open; Enable]))) = 2%nat /\
  arm_epoch (obj (after (first_session ++ [Open]))) = 0 /\
  arm_epoch (obj (after (first_session ++ [Open; Enable]))) = 7 /\
  cmd_seq (obj (after (first_session ++ [Open; Enable]))) = 41 /\
  state (obj (after (first_session ++ [Open; Enable]))) = state (obj (after first_session)).
Proof. split; [done|]. by vm_compute. Qed.

(** A connection reset in the handshake is an [OSError], which [open] does not
    turn into an [RtLinkError]; the dead socket stays in place. *)
Definition resetting : Env := server (fun _ => []) (fun _ => Broken).
Example reset_in_the_handshake_escapes :
  (open (env:=resetting) (start joints)).1 = Err OSError /\ tcp (obj (open (env:=resetting) (start joints)).2) = Some 0%nat.
Proof. by vm_compute. Qed.
