(* ===== verification/SimLink.v ===== *)
(** The simulated plant behind the supervisor's link surface
    ([plants/sim_link.py]): the authority, the command deadman and the fault latch
    of the RT server over a physics plant, as one object that client threads and
    the servo thread share.

    A cycle of the servo thread is two steps: under the lock it chooses the
    command and takes the snapshot of the authority ([tick_begin]), then the plant
    steps, without the lock, and the sample is published ([tick_end]); arming,
    stopping and commands of other threads fall between any two steps.  What the
    plant answers is an input of [tick_end].  The hand's device, a shared world's
    pauses and printing are left out. *)
From Stdlib Require Import SpecFloat PrimFloat FloatOps.
From S2P Require Import Prelude Floats Motion Wire RtProtocol Effects.

Open Scope Z_scope.

(** ** Configuration *)

Record Servo := {
  state_hz : float; hold_ms : float; fault_ms : float; hold_kp : float; hold_kd : float; observe : option (float * float) }.

Definition hz_max : float := Eval vm_compute in Prim2SF 1000%float.
Definition e3 : float := Eval vm_compute in Prim2SF 1e3%float.
Definition OBSERVE_RING_MAX_S : float := Eval vm_compute in Prim2SF 10.0%float.
Definition OBSERVE_LIMIT_MAX : Z := 64.

(** [np.ceil] of a positive quotient, as an [int] *)
Definition ceil_int (x : float) : result Z := t <-- py_int x ;; Ok (if of_Z t <f x then t + 1 else t).

(** The checks of [__init__] *)
Definition Servo_new (s : Servo) : result Servo :=
  raise_if negb (all_finite [state_hz s; hold_ms s; fault_ms s; hold_kp s; hold_kd s]) of ValueError "sim_servo values must be finite" ;;
  raise_if negb ((f1 <=f state_hz s) && (state_hz s <=f hz_max)) of ValueError "sim_servo.state_hz must be 1..1000 (the RT server's range)" ;;
  raise_if negb ((f0 <f hold_ms s) && (hold_ms s <f fault_ms s)) of ValueError "sim_servo: 0 < hold_ms < fault_ms is required" ;;
  raise_if (hold_kp s <f f0) || (hold_kd s <f f0) of ValueError "sim_servo: hold_kp and hold_kd must not be negative" ;;
  raise_if match observe s with
           | Some (rate, ring) =>
               negb (all_finite [rate; ring] && (f0 <f rate) && (rate <=f state_hz s) && (f0 <f ring) && (ring <=f OBSERVE_RING_MAX_S))
           | None => false
           end of ValueError "sim_observe: rate_hz and ring_s out of range" ;;
  Ok s.

(** ** The object *)

(** The command handed to the plant *)
Record sim_command := { p_position : vec; p_velocity : vec; p_torque : vec; p_kp : vec; p_kd : vec; p_cartesian : option cartesian_spec }.

(** The authority a cycle runs under; [sn_gen] tells whether it still is the current one. *)
Record snapshot := {
  sn_armed : bool; sn_fault : Z; sn_holding : bool; sn_arm_epoch : Z; sn_stop_epoch : Z; sn_last_cmd_seq : Z; sn_gen : Z * Z }.

Record sim := {
  thread : bool;
  stop : bool;
  session_id : Z;
  identity : option Identity;
  state : option State;
  state_rx_t : float;
  history : list (State * float);
  cmd : option sim_command;
  cmd_t : float;
  cmd_seq : Z;
  last_cmd_seq_ : Z;
  armed_ : bool;
  arm_epoch : Z;
  epochs : Z;
  stop_epoch_ : Z;
  arm_t : float;
  hold_q : option vec;
  in_hold : bool;
  plant_ok : bool;
  tick_snap : option snapshot;
  pub_stop_epoch : Z;
  cmd_gains : option (vec * vec);
  fault_code_ : Z;
  latched_fault : string;
  state_seq_ : Z;
  stepping : option (float * sim_command * snapshot);
}.
#[export] Instance eta_sim : Eta sim := fun s => {|
  thread := thread s; stop := stop s; session_id := session_id s; identity := identity s; state := state s; state_rx_t := state_rx_t s;
  history := history s; cmd := cmd s; cmd_t := cmd_t s; cmd_seq := cmd_seq s; last_cmd_seq_ := last_cmd_seq_ s;
  armed_ := armed_ s; arm_epoch := arm_epoch s; epochs := epochs s; stop_epoch_ := stop_epoch_ s; arm_t := arm_t s;
  hold_q := hold_q s; in_hold := in_hold s; plant_ok := plant_ok s; tick_snap := tick_snap s;
  pub_stop_epoch := pub_stop_epoch s; cmd_gains := cmd_gains s; fault_code_ := fault_code_ s; latched_fault := latched_fault s;
  state_seq_ := state_seq_ s; stepping := stepping s |}.

Definition SimLink_new : sim := {|
  thread := false; stop := false; session_id := 0; identity := None; state := None; state_rx_t := f0; history := []; cmd := None; cmd_t := f0;
  cmd_seq := 0; last_cmd_seq_ := 0; armed_ := false; arm_epoch := 0; epochs := 0; stop_epoch_ := 0; arm_t := f0; hold_q := None;
  in_hold := false; plant_ok := true; tick_snap := None; pub_stop_epoch := 0; cmd_gains := None; fault_code_ := 0;
  latched_fault := ""; state_seq_ := 0; stepping := None |}.

(** A client's command; an absent array is zeros. *)
Record client_command := {
  cc_position : option vec; cc_velocity : option vec; cc_torque : option vec; cc_kp : option vec; cc_kd : option vec;
  cc_pose_hold : bool; cc_cartesian : option cartesian_spec }.

(** What the plant measured after its step *)
Record motor := { m_position : vec; m_velocity : vec }.

(** The outputs: the epochs and stops handed out, the commands accepted, what
    each cycle gave the plant, and the samples with what their cycle gave it. *)
Inductive said :=
  | ArmedUnder (epoch : Z)
  | StopAsked (stop : Z)
  | Accepted (c : sim_command) (seq epoch : Z) (t : float)
  | Stepped (now : float) (c : sim_command) (sn : snapshot)
  | Published (p : State) (given : option sim_command).

Inductive act :=
  | Arms
  | Stops
  | Applies (c : client_command)
  | Begins (now : float)
  | Ends (r : option motor).

Record Env := {
  monotonic : nat -> float;
  monotonic_ns : nat -> Z;
  elsewhere : nat -> list act;
  polls : nat -> nat;
  random_session : nat -> Z;
}.
Existing Class Env.

(** The arm this link simulates *)
Record Arm := { servo : Servo; joint_names : list bytes; instance_id : bytes; task_model : bytes; state_timeout_s : float; runs_cartesian : bool; at_load : motor }.
Existing Class Arm.

Section SimLink.
Context {arm : Arm} {env : Env}.
Definition SimM : Type -> Type := M sim said.
Definition asking {A} (f : Env -> nat -> A) : SimM A := k <~ ask ;; ret (f env k).

Definition n : nat := length (joint_names arm).
Definition zeros : vec := replicate n f0.

Definition measured (s : sim) : vec := match state s with Some st => s_q st | None => zeros end.

(** ** Publishing *)

Definition vec2 (f : float -> float -> float) (a b : vec) : SimM vec := lift (bcast f a b).
(** [tau_ff + kp * (q_cmd - q) + kd * (qd_cmd - dq)]: the PD word the plant was given *)
Definition servo_torque (c : option sim_command) (q dq : vec) : SimM vec :=
  let or_zeros f := match c with Some c => f c | None => zeros end in
  e <~ vec2 fsub (match c with Some c => p_position c | None => q end) q ;;
  ke <~ vec2 fmul (or_zeros p_kp) e ;;
  d <~ vec2 fsub (or_zeros p_velocity) dq ;;
  kd <~ vec2 fmul (or_zeros p_kd) d ;;
  t <~ vec2 fadd (or_zeros p_torque) ke ;;
  vec2 fadd t kd.

Definition sample_flags (sn : snapshot) : Z :=
  Z.lor (Z.lor (if sn_armed sn then FLAG_ARMED else 0) (if nz (sn_fault sn) then FLAG_FAULTED else 0))
        (if sn_holding sn then FLAG_HOLDING else 0).

Definition push {A} (k : nat) (l : list A) (x : A) : list A := drop (length l + 1 - k) (l ++ [x]).

(** [_publish] *)
Definition publish (now : float) (m : motor) (c : option sim_command) (sn : snapshot) : SimM unit :=
  upd (fun s => s <| state_seq_ := state_seq_ s + 1 |>) ;~
  tau <~ servo_torque c (m_position m) (m_velocity m) ;;
  t <~ asking monotonic_ns ;;
  s <~ get ;;
  let st := {| s_n := Z.of_nat n; state_seq := state_seq_ s; last_cmd_seq := sn_last_cmd_seq sn; s_t_mono_ns := t;
               flags := sample_flags sn; fault_code := sn_fault sn; s_session_id := session_id s;
               s_identity_hash := match identity s with Some i => id_identity_hash i | None => 0 end; s_arm_epoch := sn_arm_epoch sn;
               stop_epoch := sn_stop_epoch sn; s_q := m_position m; s_dq := m_velocity m; s_tau := tau; s_tau_cmd := tau;
               s_q_cmd := match c with Some c => p_position c | None => m_position m end;
               s_qd_cmd := match c with Some c => p_velocity c | None => zeros end; s_wrench := replicate 6 f0 |} in
  upd (fun s => s <| state := Some st |> <| state_rx_t := now |> <| history := push 32 (history s) (st, now) |>) ;~
  say (Published st c).

(** ** The servo thread *)

Definition snap_of (s : sim) (holding : bool) : snapshot := {|
  sn_armed := armed_ s; sn_fault := fault_code_ s; sn_holding := holding; sn_arm_epoch := arm_epoch s;
  sn_stop_epoch := pub_stop_epoch s; sn_last_cmd_seq := last_cmd_seq_ s; sn_gen := (arm_epoch s, stop_epoch_ s) |}.

Definition released (s : sim) : sim_command := {|
  p_position := measured s; p_velocity := zeros; p_torque := zeros; p_kp := zeros; p_kd := zeros; p_cartesian := None |}.
Definition hold_command (q : vec) (gains : vec * vec) : sim_command := {|
  p_position := q; p_velocity := zeros; p_torque := zeros; p_kp := gains.1; p_kd := gains.2; p_cartesian := None |}.
Definition own_gains : vec * vec := (replicate n (hold_kp (servo arm)), replicate n (hold_kd (servo arm))).
Definition hold_gains (s : sim) : vec * vec := default own_gains (cmd_gains s).

Definition silent (s : sim) (now : float) : float := now -f py_max (cmd_t s) (arm_t s).
Definition fault_s : float := fault_ms (servo arm) /f e3.

(** The hold of an armed servo; entering it takes the pose the arm is in. *)
Definition hold_here (s : sim) (now : float) : sim * sim_command :=
  let s := if in_hold s then s else s <| hold_q := Some (measured s) |> <| cmd := None |> <| in_hold := true |> in
  let c := hold_command (default [] (hold_q s)) (hold_gains s) in
  (if (silent s now >=f fault_s) && negb (nz (fault_code_ s))
   then s <| fault_code_ := FAULT_CMD_LOST |> <| latched_fault := "command stream lost" |> else s, c).

(** The command of a cycle, and whether it is a hold. *)
Definition choose (s : sim) (now : float) : sim * sim_command * bool :=
  if armed_ s && negb (plant_ok s) then (s, released s, false)
  else if armed_ s then
    match cmd s with
    | Some c =>
        if negb (nz (fault_code_ s)) && ((silent s now *f e3) <=f hold_ms (servo arm)) then (s <| in_hold := false |>, c, false)
        else (hold_here s now, true)
    | None => (hold_here s now, true)
    end
  else (s, released s, false).

(** [_tick] up to the step of the plant *)
Definition tick_begin (now : float) : SimM unit :=
  s <~ get ;;
  if negb (thread s) || stop s || is_some (stepping s) then ret tt else
  let '(s', c, holding) := choose (s <| tick_snap := None |>) now in
  let s' := if armed_ s' then s' else s' <| pub_stop_epoch := stop_epoch_ s' |> in
  let sn := snap_of s' holding in
  upd (fun _ => s' <| tick_snap := Some sn |> <| stepping := Some (now, c, sn) |>) ;~
  say (Stepped now c sn).

(** [_plant_failed]: the failing cycle publishes its own sample. *)
Definition plant_failed (now : float) : SimM unit :=
  s <~ get ;;
  let sn := default (snap_of s false) (tick_snap s) in
  when (bool_decide (sn_gen sn = (arm_epoch s, stop_epoch_ s)))
    (upd (fun s => s <| plant_ok := false |> <| cmd := None |>) ;~
     when (negb (nz (fault_code_ s))) (upd (fun s => s <| fault_code_ := FAULT_PLANT |> <| latched_fault := "sim plant failed" |>))) ;~
  s <~ get ;;
  let m := match state s with Some st => {| m_position := s_q st; m_velocity := s_dq st |} | None => {| m_position := zeros; m_velocity := zeros |} end in
  publish now m None {| sn_armed := sn_armed sn; sn_fault := if nz (fault_code_ s) then fault_code_ s else FAULT_PLANT; sn_holding := false;
    sn_arm_epoch := sn_arm_epoch sn; sn_stop_epoch := sn_stop_epoch sn; sn_last_cmd_seq := sn_last_cmd_seq sn; sn_gen := sn_gen sn |}.

(** The step of the plant is over: it measured, or it raised. *)
Definition tick_end (r : option motor) : SimM unit :=
  s <~ get ;;
  match stepping s with
  | None => ret tt
  | Some (began, c, sn) =>
      upd (fun s => s <| stepping := None |>) ;~
      match r with
      | Some m => catch (fun _ => true) (now <~ asking monotonic ;; publish now m (Some c) sn) (fun _ => plant_failed began)
      | None => plant_failed began
      end
  end.

(** ** Authority *)

(** [enable_all] under the lock: the new epoch, or [None] when already armed. *)
Definition arm_request : SimM (option Z) :=
  s <~ get ;;
  if nz (fault_code_ s) then throw (RtLinkError "arm refused: latched fault") else
  if armed_ s then ret None else
  t <~ asking monotonic ;;
  upd (fun s => s <| hold_q := Some (measured s) |> <| cmd := None |> <| cmd_t := f0 |> <| in_hold := false |> <| cmd_gains := None |>
                  <| plant_ok := true |> <| epochs := epochs s + 1 |> <| arm_epoch := epochs s + 1 |> <| armed_ := true |> <| arm_t := t |>) ;~
  say (ArmedUnder (epochs s + 1)) ;~
  ret (Some (epochs s + 1)).

(** [safe_stop] under the lock: the stop it asks for. *)
Definition stop_request : SimM Z :=
  upd (fun s => s <| armed_ := false |> <| fault_code_ := 0 |> <| latched_fault := "" |> <| cmd := None |> <| hold_q := None |>
                  <| in_hold := false |> <| cmd_gains := None |> <| stop_epoch_ := stop_epoch_ s + 1 |>) ;~
  s <~ get ;; say (StopAsked (stop_epoch_ s)) ;~ ret (stop_epoch_ s).

(** [apply_command] *)
Definition client_array (o : option vec) : vec := take n (default zeros o).
Definition checked_spec (c : client_command) : result (option cartesian_spec) :=
  match cc_cartesian c with
  | None => Ok None
  | Some spec =>
      raise_if negb (runs_cartesian arm) of RtLinkError "this simulated plant does not run the Cartesian law (no EE chain of its own)" ;;
      v <-- cartesian_values spec ;;
      Ok (Some {| cs_frame := "base"; cs_task_R := [take 3 v; take 3 (drop 3 v); take 3 (drop 6 v)]; cs_kc := take 6 (drop 9 v); cs_dc := take 6 (drop 15 v) |})
  end.
Definition apply_command (c : client_command) : SimM Z :=
  if cc_pose_hold c then throw (RtLinkError "the simulated link does not run pose hold") else
  spec <~ lift (checked_spec c) ;;
  let x := {| p_position := client_array (cc_position c); p_velocity := client_array (cc_velocity c);
              p_torque := client_array (cc_torque c); p_kp := client_array (cc_kp c); p_kd := client_array (cc_kd c); p_cartesian := spec |} in
  upd (fun s => s <| cmd_seq := Z.land (cmd_seq s + 1) 0xFFFFFFFF |>) ;~
  s <~ get ;;
  when (armed_ s && negb (nz (fault_code_ s)))
    (t <~ asking monotonic ;;
     upd (fun s => s <| cmd := Some x |> <| cmd_t := t |> <| cmd_gains := Some (p_kp x, p_kd x) |> <| last_cmd_seq_ := cmd_seq s |>) ;~
     say (Accepted x (cmd_seq s) (arm_epoch s) t)) ;~
  s <~ get ;; ret (cmd_seq s).

(** ** Other threads, and the waits *)

Definition perform (a : act) : SimM unit :=
  match a with
  | Arms => arm_request ;~ ret tt
  | Stops => stop_request ;~ ret tt
  | Applies c => apply_command c ;~ ret tt
  | Begins now => tick_begin now
  | Ends r => tick_end r
  end.
Definition act_out (a : act) : SimM unit := catch (fun _ => true) (perform a) (fun _ => ret tt).
Fixpoint act_all (l : list act) : SimM unit :=
  match l with [] => ret tt | a :: l => act_out a ;~ act_all l end.
Definition pause : SimM unit := l <~ asking elsewhere ;; act_all l.

(** [_await_state]: the sample is produced by the servo thread meanwhile. *)
Fixpoint await_loop (k : nat) (pred : State -> bool) : SimM bool :=
  match k with
  | O => ret false
  | S k =>
      s <~ get ;;
      if match state s with Some st => pred st | None => false end then ret true else pause ;~ await_loop k pred
  end.
Definition await_state (pred : State -> bool) : SimM bool := k <~ asking polls ;; await_loop k pred.

Definition armed_under (epoch : Z) (st : State) : bool := armed st && (s_arm_epoch st =? epoch).
Definition stopped_by (stop : Z) (st : State) : bool := negb (armed st) && (stop <=? stop_epoch st).

Definition enable_all : SimM unit :=
  e <~ arm_request ;;
  match e with
  | None => ret tt
  | Some epoch => shown <~ await_state (armed_under epoch) ;; if shown then ret tt else throw (RtLinkError "arm not reflected in the state stream")
  end.

Definition safe_stop : SimM bool :=
  stop <~ stop_request ;;
  s <~ get ;;
  if negb (thread s) then ret true else await_state (stopped_by stop).

Definition open : SimM unit :=
  sid <~ asking random_session ;;
  h <~ lift (identity_hash (instance_id arm) (joint_order_hash (joint_names arm))) ;;
  upd (fun s => s <| session_id := Z.lor sid 1 |> <| identity := Some {|
    id_instance := instance_id arm; id_model := task_model arm; id_session := Z.lor sid 1;
    id_joint_order_hash := joint_order_hash (joint_names arm); id_identity_hash := h;
    id_capabilities := if runs_cartesian arm then CAP_CARTESIAN_TRAJECTORY else 0; id_n := Z.of_nat n |} |> <| stop := false |>) ;~
  now <~ asking monotonic ;;
  s <~ get ;;
  publish now (at_load arm) None (snap_of s false) ;~
  upd (fun s => s <| thread := true |>).

(** [close]; [join] waits for the step in flight, and a thread that is still in it stays. *)
Fixpoint join (k : nat) : SimM unit :=
  match k with
  | O => ret tt
  | S k => s <~ get ;; if is_some (stepping s) then pause ;~ join k else ret tt
  end.
Definition close : SimM unit :=
  catch (fun _ => true) (safe_stop ;~ ret tt) (fun _ => ret tt) ;~
  upd (fun s => s <| stop := true |>) ;~
  k <~ asking polls ;; join k ;~
  s <~ get ;;
  when (negb (is_some (stepping s))) (upd (fun s => s <| thread := false |>)).

(** ** What the supervisor reads *)

Definition latest_state : SimM (option State * float) := s <~ get ;; ret (state s, state_rx_t s).
Definition recent_states : SimM (list (State * float)) := s <~ get ;; ret (history s).

Record motor_values := {
  v_position : vec; v_velocity : vec; v_position_cmd : vec; v_velocity_cmd : vec; v_torque_cmd : vec; v_kp : vec; v_kd : vec;
  v_torque : vec }.
Definition motor_state (given : option State) : SimM motor_values :=
  s <~ get ;;
  ret match (match given with Some st => Some st | None => state s end) with
      | None => {| v_position := zeros; v_velocity := zeros; v_position_cmd := zeros; v_velocity_cmd := zeros; v_torque_cmd := zeros;
                   v_kp := zeros; v_kd := zeros; v_torque := zeros |}
      | Some st => {| v_position := s_q st; v_velocity := s_dq st; v_position_cmd := s_q_cmd st; v_velocity_cmd := s_qd_cmd st;
                      v_torque_cmd := s_tau_cmd st; v_kp := zeros; v_kd := zeros; v_torque := s_tau st |}
      end.

Record health := {
  h_armed : bool; h_state_fresh : bool; h_latched_fault : string; h_any_fault : bool; h_holding : bool; h_holding_q : option vec;
  h_state_age_s : float; h_last_cmd_seq : Z; h_sent_cmd_seq : Z; h_online_mask : Z; h_active_mask : Z; h_session_id : Z;
  h_arm_epoch : Z; h_stop_epoch : Z; h_state_seq : Z; h_state_t_mono_ns : Z }.
Definition motor_health : SimM health :=
  s <~ get ;; now <~ asking monotonic ;;
  let received := state_rx_t s >f f0 in
  let age := if received then py_max f0 (now -f state_rx_t s -f f0) else finf in
  let stale := age >f state_timeout_s arm in
  let fault := if String.eqb (latched_fault s) "" then (if stale && received then "sim state stream stale" else "")%string else latched_fault s in
  let of_state {A} (f : State -> A) (d : A) := match state s with Some st => f st | None => d end in
  ret {| h_armed := of_state armed false; h_state_fresh := negb stale; h_latched_fault := fault;
         h_any_fault := negb (String.eqb fault "") || of_state faulted false; h_holding := of_state holding false;
         h_holding_q := of_state (fun st => if holding st then Some (s_q_cmd st) else None) None;
         h_state_age_s := if received then age else fopp f1; h_last_cmd_seq := of_state last_cmd_seq 0; h_sent_cmd_seq := cmd_seq s;
         h_online_mask := of_state (fun st => online_mask (flags st)) 0; h_active_mask := Z.shiftl 1 (Z.of_nat n) - 1;
         h_session_id := session_id s; h_arm_epoch := if armed_ s then arm_epoch s else 0; h_stop_epoch := of_state stop_epoch 0;
         h_state_seq := of_state state_seq 0; h_state_t_mono_ns := of_state s_t_mono_ns 0 |}.

(** [negotiate_reference]: there is no native reference here. *)
Definition negotiate_reference (model_token : bytes) : bool := false.

(** ** Runs *)

(** A link is opened anew only when its servo thread has ended. *)
Inductive input := Open | Enable | SafeStop | Close | Turn (a : act).
Definition serve (i : input) : SimM unit :=
  match i with
  | Open => s <~ get ;; if thread s then ret tt else open
  | Enable => enable_all
  | SafeStop => safe_stop ;~ ret tt
  | Close => close
  | Turn a => act_out a
  end.
Definition step (w : world sim said) (i : input) : world sim said := (serve i w).2.
Definition start : world sim said := {| obj := SimLink_new; out := []; asked := 0%nat |}.
End SimLink.
