(* ===== verification/SimLinkSafety.v ===== *)
(** What the simulated link guarantees its supervisor, over every interleaving of
    client calls and servo cycles: what the plant is driven with, which epochs an
    ARM takes, what a confirmed stop means, and how long a fault stands. *)
From Stdlib Require Import SpecFloat.
From S2P Require Import Prelude Floats Motion Wire RtProtocol Effects SimLink.

Open Scope Z_scope.

Abbreviation record := (sim * said)%type.

(** [P] of every record and the records before it (the log is latest first) *)
Definition logged (P : record -> list record -> Prop) (l : list record) : Prop :=
  forall after x before, l = after ++ x :: before -> P x before.

Lemma logged_nil P : logged P [].
Proof. intros [|] ? ? [=]. Qed.
Lemma logged_cons P x l : P x l -> logged P l -> logged P (x :: l).
Proof. intros Hx Hl [|y after] z before [= -> E]; [by subst|by apply (Hl after)]. Qed.
Lemma logged_elem P l x : logged P l -> x ∈ l -> exists before, P x before /\ (forall y, y ∈ before -> y ∈ l).
Proof.
  intros H (after & before & ->)%list_elem_of_split. exists before. split; [by apply (H after)|]. set_solver.
Qed.

Definition arm_of (x : record) : option Z := match x.2 with ArmedUnder e => Some e | _ => None end.
Definition arms (l : list record) : list Z := omap arm_of l.
Definition accepted (l : list record) (c : sim_command) (seq epoch : Z) (t : float) : Prop := exists s, (s, Accepted c seq epoch t) ∈ l.
Definition stepped (l : list record) (c : sim_command) (sn : snapshot) : Prop := exists s now, (s, Stepped now c sn) ∈ l.

Lemma accepted_mono l x c seq epoch t : accepted l c seq epoch t -> accepted (x :: l) c seq epoch t.
Proof. intros [s H]. exists s. by right. Qed.
Lemma stepped_mono l x c sn : stepped l c sn -> stepped (x :: l) c sn.
Proof. intros (s & now & H). exists s, now. by right. Qed.
#[local] Hint Resolve accepted_mono stepped_mono : core.

(** A sample shows the authority of a snapshot. *)
Definition shows (p : State) (sn : snapshot) : Prop :=
  flags p = sample_flags sn /\ fault_code p = sn_fault sn /\ s_arm_epoch p = sn_arm_epoch sn /\ stop_epoch p = sn_stop_epoch sn /\
  last_cmd_seq p = sn_last_cmd_seq sn.

Lemma shows_armed p sn : shows p sn -> armed p = sn_armed sn.
Proof. intros (H & _). unfold armed. rewrite H. unfold sample_flags. by destruct (sn_armed sn), (nz (sn_fault sn)), (sn_holding sn). Qed.

(** Where nothing is said and no epoch, cycle or stop changes hands *)
Ltac inv_same I := destruct I; split; simpl in *; auto; try done.

Section Safety.
Context {arm : Arm} {env : Env}.
Abbreviation World := (world sim said).

Definition zero_gain (c : sim_command) : Prop := p_velocity c = zeros /\ p_torque c = zeros /\ p_kp c = zeros /\ p_kd c = zeros.

(** What a cycle may drive the plant with, given what was accepted before it *)
Inductive driven (l : list record) (armed_at now : float) (c : sim_command) (sn : snapshot) : Prop :=
  | Released : sn_armed sn = false -> sn_holding sn = false -> zero_gain c -> driven l armed_at now c sn
  | Failed : sn_armed sn = true -> sn_fault sn <> 0 -> sn_holding sn = false -> zero_gain c -> driven l armed_at now c sn
  | Holds q gains : sn_armed sn = true -> sn_holding sn = true -> c = hold_command q gains ->
      gains = own_gains \/ (exists x t, accepted l x (sn_last_cmd_seq sn) (sn_arm_epoch sn) t /\ gains = (p_kp x, p_kd x)) ->
      driven l armed_at now c sn
  | Live t : sn_armed sn = true -> sn_fault sn = 0 -> sn_holding sn = false ->
      accepted l c (sn_last_cmd_seq sn) (sn_arm_epoch sn) t -> ((now -f py_max t armed_at) *f e3) <=f hold_ms (servo arm) = true ->
      driven l armed_at now c sn.

(** A stop epoch that samples show is that of a cycle that released the plant. *)
Definition released_by (l : list record) (k : Z) : Prop :=
  k = 0 \/ exists c sn, stepped l c sn /\ sn_armed sn = false /\ zero_gain c /\ sn_stop_epoch sn = k.

(** A record is justified by those before it. *)
Definition justified (x : record) (l : list record) : Prop :=
  match x.2 with
  | ArmedUnder e => 1 <= e /\ forall e', e' ∈ arms l -> e' < e
  | StopAsked k => forall c sn, stepped l c sn -> sn_stop_epoch sn < k
  | Accepted c seq epoch t => epoch ∈ arms l
  | Stepped now c sn => driven l (arm_t x.1) now c sn /\ (sn_armed sn = true -> sn_arm_epoch sn ∈ arms l)
  | Published p given =>
      (forall c, given = Some c -> exists sn, stepped l c sn /\ shows p sn) /\
      (thread x.1 = true -> armed p = true -> exists c sn, stepped l c sn /\ sn_armed sn = true /\ s_arm_epoch p = sn_arm_epoch sn) /\
      released_by l (stop_epoch p)
  end.

(** ** The invariant *)

(** For an epoch of interest, or 0 for none: see [i_shown]. *)
Record Invariant (watched : Z) (w : World) : Prop := {
  i_log : logged justified (out w);
  i_arms : forall e, e ∈ arms (out w) -> e <= epochs (obj w);
  i_epochs : 0 <= epochs (obj w);
  i_epoch : armed_ (obj w) = true -> arm_epoch (obj w) ∈ arms (out w);
  i_cmd : forall c, cmd (obj w) = Some c -> accepted (out w) c (last_cmd_seq_ (obj w)) (arm_epoch (obj w)) (cmd_t (obj w));
  i_gains : forall g, cmd_gains (obj w) = Some g ->
    exists x t, accepted (out w) x (last_cmd_seq_ (obj w)) (arm_epoch (obj w)) t /\ g = (p_kp x, p_kd x);
  i_plant : armed_ (obj w) = true -> plant_ok (obj w) = false -> fault_code_ (obj w) <> 0;
  i_pub : 0 <= pub_stop_epoch (obj w) <= stop_epoch_ (obj w);
  i_released : released_by (out w) (pub_stop_epoch (obj w));
  i_stops : forall c sn, stepped (out w) c sn -> sn_stop_epoch sn <= pub_stop_epoch (obj w) /\ released_by (out w) (sn_stop_epoch sn);
  i_current : arm_epoch (obj w) <= epochs (obj w);
  i_known : forall c sn, stepped (out w) c sn -> sn_arm_epoch sn <= epochs (obj w);
  i_state : forall st, state (obj w) = Some st -> released_by (out w) (stop_epoch st) /\ s_arm_epoch st <= epochs (obj w);
  i_shown : 0 < watched -> forall st, state (obj w) = Some st -> armed st = true -> s_arm_epoch st = watched ->
    exists c sn, stepped (out w) c sn /\ sn_armed sn = true /\ sn_arm_epoch sn = watched;
  i_step : forall now c sn, stepping (obj w) = Some (now, c, sn) -> stepped (out w) c sn /\ tick_snap (obj w) = Some sn;
}.

Lemma released_mono x l k : released_by l k -> released_by (x :: l) k.
Proof. intros [?|(c & sn & H & ?)]; [by left|]. right. exists c, sn. eauto. Qed.
#[local] Hint Resolve released_mono : core.

Lemma accepted_other l x o c seq epoch t :
  accepted ((x, o) :: l) c seq epoch t -> (forall c seq epoch t, o <> Accepted c seq epoch t) -> accepted l c seq epoch t.
Proof. intros [s [[= _ <-]|H]%elem_of_cons] N; [by destruct (N c seq epoch t)|by exists s]. Qed.
Lemma stepped_other l x o c sn : stepped ((x, o) :: l) c sn -> (forall now c sn, o <> Stepped now c sn) -> stepped l c sn.
Proof. intros (s & now & [[= _ <-]|H]%elem_of_cons) N; [by destruct (N now c sn)|by exists s, now]. Qed.

(** A record that is no epoch and no cycle leaves the rest of the invariant. *)
Context {watched : Z}.
Abbreviation Inv := (Invariant watched).

(** The clauses that a record which is no cycle leaves as they are *)
Ltac no_cycle :=
  match goal with
  | H : forall c sn, stepped ?l c sn -> _ /\ _ |- forall c sn, stepped (_ :: ?l) c sn -> _ /\ _ =>
      let c1 := fresh in let sn1 := fresh in intros c1 sn1 Hc; apply stepped_other in Hc; [|done]; destruct (H c1 sn1 Hc); split; [lia|auto]
  | H : forall c sn, stepped ?l c sn -> _ <= _ |- forall c sn, stepped (_ :: ?l) c sn -> _ <= _ =>
      let c1 := fresh in let sn1 := fresh in intros c1 sn1 Hc; apply stepped_other in Hc; [|done]; specialize (H c1 sn1 Hc); lia
  | H : forall st, _ = Some st -> _ /\ _ |- forall st, _ = Some st -> released_by _ _ /\ _ =>
      intros st Hst; destruct (H st Hst); split; [auto|lia]
  | H : 0 < _ -> forall st, _ |- 0 < _ -> forall st, _ =>
      intros Hw st H1 H2 H3; destruct (H Hw st H1 H2 H3) as (c1 & sn1 & ? & ?); exists c1, sn1; auto
  | H : forall now c sn, _ = Some (now, c, sn) -> _ |- forall now c sn, _ = Some (now, c, sn) -> _ =>
      let c1 := fresh in intros ? c1 ? Hn; destruct (H _ _ _ Hn); auto
  end.

Lemma Inv_say w o : Inv w -> justified (obj w, o) (out w) ->
  (forall e, o <> ArmedUnder e) -> (forall now c sn, o <> Stepped now c sn) -> Inv (w <| out := (obj w, o) :: out w |>).
Proof.
  intros [] J NA NS.
  assert (A : arms ((obj w, o) :: out w) = arms (out w)) by (unfold arms; simpl; destruct o; try done; by destruct (NA epoch)).
  split; cbn [out obj setter eta_world]; rewrite ?A; auto.
  - by apply logged_cons.
  - intros g Hg. destruct (i_gains0 g Hg) as (x & t & H & E). exists x, t. auto.
  - no_cycle.
  - no_cycle.
  - no_cycle.
  - no_cycle.
  - no_cycle.
Qed.

Lemma servo_torque_pure c q dq (w : World) r w' : servo_torque c q dq w = (r, w') -> w' = w.
Proof. unfold servo_torque, vec2, bind, lift. repeat (destruct (bcast _ _ _); [|by intros [= _ <-]]). by intros [= _ <-]. Qed.

Lemma publish_raises now m c sn (w : World) e w' : publish now m c sn w = (Err e, w') -> out w' = out w /\ tick_snap (obj w') = tick_snap (obj w).
Proof.
  unfold publish, bind at 1, upd at 1, bind at 1. destruct (servo_torque c _ _ _) as [[tau|x] w2] eqn:Et; [done|].
  apply servo_torque_pure in Et as ->. by intros [= _ <-].
Qed.

Lemma publish_inv now m c sn w : Inv w ->
  (forall x, c = Some x -> stepped (out w) x sn) ->
  (thread (obj w) = true \/ 0 < watched -> sn_armed sn = true ->
     exists x sn', stepped (out w) x sn' /\ sn_armed sn' = true /\ sn_arm_epoch sn = sn_arm_epoch sn') ->
  released_by (out w) (sn_stop_epoch sn) -> sn_arm_epoch sn <= epochs (obj w) -> Inv (publish now m c sn w).2.
Proof.
  intros I Hc Ha Hs He. unfold publish, bind at 1, upd at 1, bind at 1. set (w1 := w <| obj := _ |>).
  assert (I1 : Inv w1) by (destruct I; split; auto).
  destruct (servo_torque c _ _ w1) as [r w2] eqn:Et.
  apply servo_torque_pure in Et as ->. destruct r as [tau|e]; [|done]. unfold asking, bind, ask, ret, get, upd, say. simpl.
  match goal with |- Inv {| obj := ?o; out := (_, ?s) :: _; asked := ?k |} => apply (Inv_say {| obj := o; out := out w; asked := k |} s) end.
  3, 4: done.
  1: { destruct I. split; simpl; auto.
    - intros st [= <-]. done.
    - intros Hw st [= <-]. intros Hp Hn. simpl in Hn. destruct Ha as (x & sn' & H1 & H2 & H3); [auto| |exists x, sn'; split_and!; [done|done|congruence]].
      rewrite <- Hp. symmetry. by apply (shows_armed _ sn). }
  unfold justified. simpl. repeat split.
  - intros x ->. exists sn. split; [by apply Hc|done].
  - intros Ht Hp. destruct (Ha (or_introl Ht)) as (x & sn' & H1 & H2 & H3); [|by exists x, sn'].
    rewrite <- Hp. symmetry. by apply (shows_armed _ sn).
  - done.
Qed.
(** ** The operations keep it *)


Lemma arm_request_inv : steps (saves Inv) arm_request.
Proof.
  intros w I. unfold arm_request, bind at 1, get. destruct (nz _) eqn:Ef; [done|]. destruct (armed_ (obj w)) eqn:Ea; [done|].
  unfold asking, bind, ask, ret, upd, say. simpl. unfold nz in Ef. breflect. destruct I. split; simpl.
  - apply logged_cons; [|done]. unfold justified. simpl. split; [lia|]. intros e' H. specialize (i_arms0 e' H). lia.
  - intros e [->|H]%elem_of_cons; [lia|]. specialize (i_arms0 e H). lia.
  - lia.
  - intros _. by left.
  - done.
  - done.
  - done.
  - done.
  - by apply released_mono.
  - no_cycle.
  - lia.
  - no_cycle.
  - no_cycle.
  - no_cycle.
  - no_cycle.
Qed.

Lemma stop_request_inv : steps (saves Inv) stop_request.
Proof.
  intros w I. unfold stop_request, bind, upd, get, say, ret. simpl.
  match goal with |- Inv {| obj := ?o; out := (_, ?s) :: _; asked := ?k |} => apply (Inv_say {| obj := o; out := out w; asked := k |} s) end.
  - destruct I. split; simpl; try done. lia.
  - unfold justified. simpl. intros c sn H. destruct (i_stops _ _ I c sn H) as [? _]. pose proof (i_pub _ _ I). lia.
  - done.
  - done.
Qed.

Lemma apply_command_inv c : steps (saves Inv) (apply_command c).
Proof.
  intros w I. unfold apply_command. destruct (cc_pose_hold c); [done|].
  unfold bind at 1, lift. destruct (checked_spec c) as [spec|e]; [|done].
  unfold bind at 1, upd, bind at 1, get. set (w1 := w <| obj := _ |>).
  assert (I1 : Inv w1) by inv_same I. clearbody w1. clear I w. rename I1 into I, w1 into w.
  unfold when. destruct (armed_ (obj w)) eqn:Ea; simpl; [|done]. destruct (nz _) eqn:Ef; simpl; [done|].
  unfold asking, bind, ask, ret, upd, say. simpl. unfold nz in Ef. breflect.
  set (x := {| p_position := _ |}). set (t := monotonic env _).
  assert (A : forall l s, accepted ((s, Accepted x (cmd_seq (obj w)) (arm_epoch (obj w)) t) :: l) x (cmd_seq (obj w)) (arm_epoch (obj w)) t)
    by (intros l s; exists s; by left).
  destruct I. split; simpl.
  - apply logged_cons; [|done]. by apply i_epoch0.
  - done.
  - done.
  - done.
  - intros y [= <-]. apply A.
  - intros g [= <-]. exists x, t. split; [apply A|done].
  - done.
  - done.
  - by apply released_mono.
  - no_cycle.
  - done.
  - no_cycle.
  - no_cycle.
  - no_cycle.
  - no_cycle.
Qed.

(** What choosing a command leaves of the object *)
Record chosen (s s' : sim) : Prop := {
  ch_thread : thread s' = thread s;
  ch_state : state s' = state s;
  ch_armed : armed_ s' = armed_ s;
  ch_epoch : arm_epoch s' = arm_epoch s;
  ch_epochs : epochs s' = epochs s;
  ch_seq : last_cmd_seq_ s' = last_cmd_seq_ s;
  ch_time : cmd_t s' = cmd_t s;
  ch_arm : arm_t s' = arm_t s;
  ch_gains : cmd_gains s' = cmd_gains s;
  ch_plant : plant_ok s' = plant_ok s;
  ch_stop : stop_epoch_ s' = stop_epoch_ s;
  ch_pub : pub_stop_epoch s' = pub_stop_epoch s;
  ch_cmd : cmd s' = cmd s \/ cmd s' = None;
  ch_fault : fault_code_ s' = fault_code_ s \/ fault_code_ s = 0 /\ fault_code_ s' = FAULT_CMD_LOST;
}.

Lemma chosen_refl s : chosen s s.
Proof. by split; auto. Qed.

Lemma hold_here_cases s now s' c : hold_here s now = (s', c) -> chosen s s' /\ exists q, c = hold_command q (hold_gains s).
Proof.
  unfold hold_here. intros [= <- <-]. split.
  - destruct (in_hold s); simpl; (destruct (_ && _) eqn:E; [|by split; simpl; auto]); apply andb_true_iff in E as [_ E];
      unfold nz in E; breflect; split; simpl in *; auto.
  - destruct (in_hold s); simpl; eauto.
Qed.

Lemma choose_cases s now s' c holding : choose s now = (s', c, holding) -> chosen s s' /\
  ((armed_ s = false \/ (armed_ s = true /\ plant_ok s = false)) /\ c = released s /\ holding = false \/
   armed_ s = true /\ plant_ok s = true /\ cmd s = Some c /\ fault_code_ s = 0 /\ fault_code_ s' = 0 /\ ((silent s now *f e3) <=f hold_ms (servo arm)) = true /\ holding = false \/
   armed_ s = true /\ plant_ok s = true /\ (exists q, c = hold_command q (hold_gains s)) /\ holding = true).
Proof.
  unfold choose. destruct (armed_ s) eqn:Ea; simpl.
  2: { intros [= <- <- <-]. split; [apply chosen_refl|auto 10]. }
  destruct (plant_ok s) eqn:Ep; simpl.
  2: { intros [= <- <- <-]. split; [apply chosen_refl|auto 10]. }
  assert (H : forall p, (p, true) = (s', c, holding) -> hold_here s now = p ->
    chosen s s' /\ (exists q, c = hold_command q (hold_gains s)) /\ holding = true).
  { intros p [= -> ->] E. apply hold_here_cases in E as [H1 H2]. auto. }
  destruct (cmd s) as [x|] eqn:Ec; [|intros E; destruct (H _ E eq_refl) as (? & ? & ?); split; [done|auto 10]].
  destruct (_ && _) eqn:E1; [|intros E; destruct (H _ E eq_refl) as (? & ? & ?); split; [done|auto 10]].
  apply andb_true_iff in E1 as [Hf Hs]. unfold nz in Hf. breflect.
  intros [= <- <- <-]. split; [split; simpl; auto|]. right. left. by rewrite Hf.
Qed.

(** A cycle's record: justified by the log it is added to. *)
Lemma driven_choose (w : World) now s' c holding k : Inv w ->
  choose ((obj w) <| tick_snap := None |>) now = (s', c, holding) ->
  driven (out w) (arm_t s') now c (snap_of (s' <| pub_stop_epoch := k |>) holding).
Proof.
  intros [] E. apply choose_cases in E as [[] H]. unfold snap_of. simpl in *.
  assert (Z : zero_gain (released ((obj w) <| tick_snap := None |>))) by done.
  destruct H as [([Ha|[Ha Hp]] & -> & ->)|[(Ha & Hp & Hc & Hf & Hf' & Hs & ->)|(Ha & Hp & (q & ->) & ->)]].
  - apply Released; simpl; [congruence|done|done].
  - apply Failed; simpl; [congruence| |done|done]. specialize (i_plant0 Ha Hp). destruct ch_fault0 as [-> |[? ->]]; [done|].
    by intros [=].
  - eapply Live; simpl; [congruence|done|done| |].
    + rewrite ch_seq0, ch_epoch0. by apply i_cmd0.
    + rewrite ch_arm0. exact Hs.
  - eapply Holds; simpl; [congruence|done|done|]. unfold hold_gains. simpl. destruct (cmd_gains (obj w)) as [g|] eqn:Eg; [right|by left].
    rewrite ch_seq0, ch_epoch0. by apply i_gains0.
Qed.

Lemma tick_begin_inv now : steps (saves Inv) (tick_begin now).
Proof.
  intros w I. unfold tick_begin, bind at 1, get. destruct (_ || _) eqn:Eg; [done|].
  destruct (choose _ now) as [[s' c] holding] eqn:Ec.
  set (k := if armed_ s' then pub_stop_epoch s' else stop_epoch_ s').
  replace (if armed_ s' then s' else _) with (s' <| pub_stop_epoch := k |>) by (unfold k; destruct (armed_ s') eqn:Ea; [by destruct s'|done]).
  pose proof (driven_choose w now s' c holding k I Ec) as D. apply choose_cases in Ec as [[] H]. simpl in *.
  set (sn := snap_of _ holding) in *.
  unfold bind, upd, say. simpl. destruct I.
  assert (R : released_by ((s' <| pub_stop_epoch := k |> <| tick_snap := Some sn |> <| stepping := Some (now, c, sn) |>, Stepped now c sn) :: out w) k).
  { unfold k. destruct (armed_ s') eqn:Ea; [apply released_mono; by rewrite ch_pub0|]. right. exists c, sn.
    split; [eexists _, _; by left|]. split; [done|]. split; [|done].
    destruct H as [(_ & -> & _)|[(Ha & _)|(Ha & _)]]; [done|congruence|congruence]. }
  assert (K : pub_stop_epoch (obj w) <= k <= stop_epoch_ (obj w)).
  { unfold k. destruct (armed_ s'); rewrite ?ch_pub0, ?ch_stop0; lia. }
  split; simpl.
  - apply logged_cons; [|done]. unfold justified. simpl. split; [exact D|]. intros Ha. rewrite ch_epoch0. apply i_epoch0. congruence.
  - by rewrite ch_epochs0.
  - by rewrite ch_epochs0.
  - rewrite ch_armed0, ch_epoch0. done.
  - intros x Hx. apply accepted_mono. rewrite ch_seq0, ch_epoch0, ch_time0. apply i_cmd0. destruct ch_cmd0; congruence.
  - intros g Hg. rewrite ch_gains0 in Hg. destruct (i_gains0 g Hg) as (x & t & Hx & E). exists x, t. rewrite ch_seq0, ch_epoch0. auto.
  - rewrite ch_armed0, ch_plant0. intros Ha Hp. specialize (i_plant0 Ha Hp). destruct ch_fault0 as [-> |[? ->]]; [done|by intros [=]].
  - rewrite ch_stop0. lia.
  - done.
  - intros x sx (s & t & [[= -> -> -> ->]|Hx]%elem_of_cons); [split; [reflexivity|exact R]|].
    destruct (i_stops0 x sx) as [? ?]; [by exists s, t|]. split; [lia|by apply released_mono].
  - by rewrite ch_epoch0, ch_epochs0.
  - intros x sx (s & t & [[= -> -> -> ->]|Hx]%elem_of_cons); rewrite ch_epochs0; [subst sn; simpl; by rewrite ch_epoch0|].
    apply (i_known0 x). by exists s, t.
  - rewrite ch_epochs0, ch_state0. no_cycle.
  - rewrite ch_state0. no_cycle.
  - intros t x sx [= <- <- <-]. split; [by eexists _, _; left|done].
Qed.

Lemma plant_failed_inv now (w : World) sn c : Inv w -> stepped (out w) c sn -> tick_snap (obj w) = Some sn -> Inv (plant_failed now w).2.
Proof.
  intros I Hs Ht. unfold plant_failed, bind at 1, get at 1. rewrite Ht. simpl.
  unfold bind at 1. set (m := when _ _).
  assert (Hm : exists w1, m w = (Ok tt, w1) /\ Inv w1 /\ out w1 = out w).
  { unfold m, when, bind, upd. destruct (bool_decide _); [|by exists w].
    simpl. destruct (nz _) eqn:Ef; simpl; eexists; (split; [reflexivity|]); (split; [|done]); unfold nz in Ef; breflect;
      inv_same I; try done; intros _ _; by intros [=]. }
  destruct Hm as (w1 & -> & I1 & O1). unfold bind at 1, get.
  apply publish_inv; [done|done| | |].
  - simpl. intros _ Ha. rewrite O1. exists c, sn. auto.
  - simpl. rewrite O1. by apply (i_stops _ _ I c sn).
  - simpl. apply (i_known _ _ I1 c). by rewrite O1.
Qed.

Lemma tick_end_inv r : steps (saves Inv) (tick_end r).
Proof.
  intros w I. unfold tick_end, bind at 1, get at 1. destruct (stepping (obj w)) as [[[began c] sn]|] eqn:Es; [|done].
  destruct (i_step _ _ I _ _ _ Es) as [Hs Ht].
  unfold bind at 1, upd at 1. set (w1 := w <| obj := _ |>). assert (I1 : Inv w1) by inv_same I.
  assert (F : forall w2, Inv w2 -> out w2 = out w -> tick_snap (obj w2) = Some sn -> Inv (plant_failed began w2).2).
  { intros w2 I2 O2 T2. apply (plant_failed_inv began w2 sn c I2); [by rewrite O2|done]. }
  destruct r as [m|]; [|by apply F].
  unfold catch, asking, bind at 1, bind at 1, ask, ret. simpl.
  set (w2 := {| obj := _ |}). set (now := monotonic env _).
  assert (I2 : Inv w2) by inv_same I.
  assert (P : Inv (publish now m (Some c) sn w2).2).
  { apply publish_inv; [done| | | |].
    - by intros x [= <-].
    - intros _ Ha. exists c, sn. auto.
    - by apply (i_stops _ _ I c sn).
    - by apply (i_known _ _ I c sn). }
  destruct (publish now m (Some c) sn w2) as [[[]|e] w3] eqn:E; [done|]. apply publish_raises in E as [O3 T3].
  by apply F; [|rewrite O3|rewrite T3].
Qed.

(** ** Calls and runs *)

#[local] Hint Resolve arm_request_inv stop_request_inv apply_command_inv tick_begin_inv tick_end_inv : steps.
#[local] Hint Extern 1 (steps (saves Inv) ask) => intros ? I; inv_same I : steps.

Lemma act_out_inv a : steps (saves Inv) (act_out a).
Proof. apply saves_catch; [|steps]. destruct a; simpl; steps. Qed.
#[local] Hint Resolve act_out_inv : steps.
Lemma act_all_inv l : steps (saves Inv) (act_all l).
Proof. induction l; simpl; steps. Qed.
#[local] Hint Resolve act_all_inv : steps.
Lemma pause_inv : steps (saves Inv) pause.
Proof. unfold pause, asking. steps. Qed.
#[local] Hint Resolve pause_inv : steps.
Lemma await_inv pred : steps (saves Inv) (await_state pred).
Proof.
  unfold await_state, asking. apply steps_bind; [apply _|steps|]. intros k. induction k; simpl; steps.
Qed.
#[local] Hint Resolve await_inv : steps.
Lemma enable_all_inv : steps (saves Inv) enable_all.
Proof. unfold enable_all. steps. Qed.
Lemma safe_stop_inv : steps (saves Inv) safe_stop.
Proof. unfold safe_stop. steps. Qed.
#[local] Hint Resolve enable_all_inv safe_stop_inv : steps.
Lemma join_inv k : steps (saves Inv) (join k).
Proof. induction k; simpl; steps. Qed.
#[local] Hint Resolve join_inv : steps.
#[local] Hint Extern 3 (steps (saves Inv) (upd _)) => intros ? I; inv_same I : steps.
Lemma close_inv : steps (saves Inv) close.
Proof. unfold close, asking. apply steps_bind; [apply _|apply saves_catch; steps|]. steps. Qed.
End Safety.

Section Runs.
Context {arm : Arm} {env : Env}.
Abbreviation World := (world sim said).
#[local] Hint Resolve act_out_inv enable_all_inv safe_stop_inv close_inv : steps.

Lemma open_inv (w : World) : Invariant 0 w -> thread (obj w) = false -> Invariant 0 (open w).2.
Proof.
  intros I Ht. unfold open, asking, bind at 1, bind at 1, ask, ret. simpl.
  unfold bind at 1, lift. destruct (identity_hash _ _) as [h|e]; [|inv_same I].
  unfold bind at 1, upd at 1, bind at 1, bind at 1, ask, ret, bind at 1, get, bind at 1. simpl.
  match goal with |- context [publish ?t _ None _ ?x] => set (w1 := x); set (now := t) end.
  match goal with |- context [publish _ _ _ ?x _] => set (sn := x) end.
  assert (I1 : Invariant 0 w1) by inv_same I.
  assert (I2 : Invariant 0 (publish now (at_load arm) None sn w1).2).
  { apply publish_inv; [done|done| | |].
    - simpl. rewrite Ht. intros [?|?]; [done|lia].
    - apply (i_released _ _ I1).
    - apply (i_current _ _ I1). }
  destruct (publish _ _ _ _ _) as [[[]|e] w2]; [|done]. inv_same I2.
Qed.

Lemma serve_inv i : steps (saves (Invariant 0)) (serve i).
Proof.
  destruct i; simpl; try solve [steps].
  intros w I. unfold bind, get. destruct (thread (obj w)) eqn:Et; [done|]. by apply open_inv.
Qed.

Lemma start_inv : Invariant 0 start.
Proof.
  split; simpl; try done; try (by left); try (intros ? H; by apply elem_of_nil in H).
  - apply logged_nil.
  - intros ? ? (? & ? & H). by apply elem_of_nil in H.
  - intros ? ? (? & ? & H). by apply elem_of_nil in H.
Qed.

(** The worlds that inputs lead to *)
Definition reached (w : World) : Prop := exists inputs, w = fold_left step inputs start.
Lemma reached_inv w : reached w -> Invariant 0 w.
Proof.
  intros [inputs ->]. cut (forall w, Invariant 0 w -> Invariant 0 (fold_left step inputs w)); [intros H; apply H, start_inv|].
  induction inputs as [|i inputs IH]; intros w I; [done|]. by apply IH, serve_inv.
Qed.

(** C22: whatever threads do, a cycle drives the plant with one of four things:
    disarmed, a zero-gain word; armed with a plant that failed, the same under
    a latched fault; in a hold, zero velocity and torque with the hold gains or
    those of the last command accepted in this epoch; and otherwise the last
    command accepted, in this very epoch and no longer ago than [hold_ms], with
    no fault.  The epoch it runs in is one an ARM handed out. *)
Theorem plant_gets_live_commands (w : World) after s now c sn before :
  reached w -> out w = after ++ (s, Stepped now c sn) :: before ->
  driven before (arm_t s) now c sn /\ (sn_armed sn = true -> sn_arm_epoch sn ∈ arms before).
Proof. intros H%reached_inv E. exact (i_log _ _ H after _ before E). Qed.

(** An ARM never reuses an epoch: each is above all those before it, a
    command is accepted only under one of them, and what a sample shows is the
    authority of the cycle that produced it. *)
Theorem arm_epochs_never_return (w : World) after x before :
  reached w -> out w = after ++ x :: before ->
  match x.2 with
  | ArmedUnder e => 1 <= e /\ forall e', e' ∈ arms before -> e' < e
  | Accepted _ _ e _ => e ∈ arms before
  | Published p (Some c) => exists sn, stepped before c sn /\ shows p sn
  | _ => True
  end.
Proof.
  intros H%reached_inv E. pose proof (i_log _ _ H after x before E) as J. unfold justified in J.
  destruct (x.2) as [| | | |p [c|]]; try done. destruct J as [J _]. by apply J.
Qed.
(** ** Confirmations *)

Abbreviation grown := (says (S:=sim) (O:=said) (fun _ => True)).
#[local] Hint Extern 1 (steps grown (say _)) => apply says_say; done : steps.

Lemma vec2_grown f a b : steps grown (vec2 f a b).
Proof. unfold vec2. steps. Qed.
#[local] Hint Resolve vec2_grown : steps.
Lemma publish_grown now m c sn : steps grown (publish now m c sn).
Proof. unfold publish, servo_torque, asking. steps. Qed.
#[local] Hint Resolve publish_grown : steps.
Lemma plant_failed_grown now : steps grown (plant_failed now).
Proof. unfold plant_failed. steps. Qed.
#[local] Hint Resolve plant_failed_grown : steps.
Lemma act_grown a : steps grown (act_out a).
Proof.
  apply says_catch; [|steps].
  destruct a; simpl; unfold arm_request, stop_request, apply_command, tick_begin, tick_end, asking; steps.
  apply says_catch; steps.
Qed.
#[local] Hint Resolve act_grown : steps.
Lemma pause_grown : steps grown pause.
Proof. unfold pause, asking. apply steps_bind; [apply _|steps|]. intros l. induction l; simpl; steps. Qed.
#[local] Hint Resolve pause_grown : steps.
Lemma await_grown pred : steps grown (await_state pred).
Proof. unfold await_state, asking. apply steps_bind; [apply _|steps|]. intros k. induction k; simpl; steps. Qed.

Lemma await_cases pred (w w' : World) : await_state pred w = (Ok true, w') -> exists st, state (obj w') = Some st /\ pred st = true.
Proof.
  unfold await_state, asking. intros H. apply bind_ok in H as (k & w1 & _ & H). revert w1 H.
  induction k as [|k IH]; intros w1; simpl; [done|]. unfold bind at 1, get. destruct (state (obj w1)) as [st|] eqn:Es.
  - destruct (pred st) eqn:Ep; [intros [= <-]; by exists st|]. intros H. apply bind_ok in H as (? & w2 & _ & H). by apply (IH w2).
  - intros H. apply bind_ok in H as (? & w2 & _ & H). by apply (IH w2).
Qed.
Lemma stop_request_cases (w : World) : exists w1, stop_request w = (Ok (stop_epoch_ (obj w) + 1), w1) /\
  out w1 = [(obj w1, StopAsked (stop_epoch_ (obj w) + 1))] ++ out w /\ thread (obj w1) = thread (obj w).
Proof. eexists. split; [reflexivity|done]. Qed.
Lemma arm_request_cases (w : World) r w1 : armed_ (obj w) = false -> arm_request w = (Ok r, w1) ->
  r = Some (epochs (obj w) + 1) /\ out w1 = [(obj w1, ArmedUnder (epochs (obj w) + 1))] ++ out w /\ state (obj w1) = state (obj w).
Proof.
  intros Ha. unfold arm_request, bind at 1, get. rewrite Ha. destruct (nz _); [done|].
  unfold asking, bind, ask, ret, upd, say. by intros [= <- <-].
Qed.

Lemma await_confirms watched pred (w w' : World) : Invariant watched w -> await_state pred w = (Ok true, w') ->
  Invariant watched w' /\ (exists new, out w' = new ++ out w) /\ exists st, state (obj w') = Some st /\ pred st = true.
Proof.
  intros I H. pose proof (await_inv pred w I) as I2. destruct (await_grown pred w) as (new & O2 & _). rewrite H in I2, O2.
  split; [exact I2|]. split; [by exists new|]. by apply (await_cases pred w).
Qed.
#[local] Opaque await_state stop_request arm_request.
Lemma safe_stop_cases (w w' : World) : thread (obj w) = true -> safe_stop w = (Ok true, w') ->
  exists w1, stop_request w = (Ok (stop_epoch_ (obj w) + 1), w1) /\
    out w1 = [(obj w1, StopAsked (stop_epoch_ (obj w) + 1))] ++ out w /\ await_state (stopped_by (stop_epoch_ (obj w) + 1)) w1 = (Ok true, w').
Proof.
  intros Ht H. unfold safe_stop in H. destruct (stop_request_cases w) as (w1 & E & O1 & T1). rewrite Ht in T1.
  apply bind_ok in H as (k & w1' & E' & H). rewrite E in E'. injection E' as <- <-.
  apply bind_ok in H as (s & w2 & E' & H). unfold get in E'. injection E' as <- <-. rewrite T1 in H. by exists w1.
Qed.


Lemma stepped_app l l' c sn : stepped (l ++ l') c sn -> stepped l c sn \/ stepped l' c sn.
Proof. intros (s & now & [H|H]%elem_of_app); [left|right]; by exists s, now. Qed.

(** A stop that reports success was carried out: since the call, a cycle ran
    disarmed with a zero-gain word under a stop that is not an earlier one. *)
Theorem disarm_is_confirmed (w w' : World) : reached w -> thread (obj w) = true -> safe_stop w = (Ok true, w') ->
  exists new c sn, out w' = new ++ out w /\ stepped new c sn /\ sn_armed sn = false /\ zero_gain c /\ stop_epoch_ (obj w) < sn_stop_epoch sn.
Proof.
  intros I%reached_inv Ht H. apply safe_stop_cases in H as (w1 & E & O1 & H); [|done].
  pose proof (stop_request_inv w I) as I1. rewrite E in I1.
  apply (await_confirms 0) in H as (I2 & [new O2] & st & Hs & Hp); [|exact I1]. unfold stopped_by in Hp. breflect. pose proof (i_pub _ _ I) as Hpub.
  destruct (i_state _ _ I2 st Hs) as [[?|(c & sn & Hc & Ha & Hz & He)] _]; [lia|].
  assert (O : out w' = (new ++ [(obj w1, StopAsked (stop_epoch_ (obj w) + 1))]) ++ out w) by by rewrite O2, O1, <- app_assoc.
  exists (new ++ [(obj w1, StopAsked (stop_epoch_ (obj w) + 1))]), c, sn. split_and!; try done; [|lia].
  rewrite O in Hc. apply stepped_app in Hc as [?|Hc]; [done|]. destruct (i_stops _ _ I c sn Hc). lia.
Qed.

(** An ARM that returns took effect: since the call, a cycle ran armed under
    the epoch this very call handed out. *)
Theorem arm_is_confirmed (w w' : World) : reached w -> armed_ (obj w) = false -> enable_all w = (Ok tt, w') ->
  exists new c sn, out w' = new ++ out w /\ stepped new c sn /\ sn_armed sn = true /\ sn_arm_epoch sn = epochs (obj w) + 1.
Proof.
  intros I%reached_inv Ha H. unfold enable_all in H. pose proof (arm_request_inv w I) as I1.
  apply bind_ok in H as (r & w1 & E & H). rewrite E in I1. apply arm_request_cases in E as (-> & O1 & S1); [|done].
  apply bind_ok in H as (shown & w2 & H & E). destruct shown; [|done]. injection E as ->.
  set (e := epochs (obj w) + 1) in *.
  assert (I1' : Invariant e w1).
  { destruct I1. split; auto. intros _ st Hst _ He. rewrite S1 in Hst. destruct (i_state _ _ I st Hst). lia. }
  apply (await_confirms e) in H as (I2 & [new O2] & st & Hs & Hp); [|exact I1'].
  unfold armed_under in Hp. breflect.
  pose proof (i_epochs _ _ I) as Hepochs.
  destruct (i_shown _ _ I2 ltac:(lia) st Hs) as (c & sn & Hc & Hsn & He); [done..|].
  assert (O : out w' = (new ++ [(obj w1, ArmedUnder e)]) ++ out w) by by rewrite O2, O1, <- app_assoc.
  exists (new ++ [(obj w1, ArmedUnder e)]), c, sn. split_and!; try done.
  rewrite O in Hc. apply stepped_app in Hc as [?|Hc]; [done|]. pose proof (i_known _ _ I c sn Hc). lia.
Qed.

(** ** Faults *)

#[local] Transparent await_state stop_request arm_request.

(** What acts other than a stop may record on a link with fault [f] *)
Definition calm (f : Z) (x : record) : Prop :=
  match x.2 with
  | ArmedUnder _ | Accepted _ _ _ _ | StopAsked _ => False
  | Stepped _ c sn => sn_fault sn = f /\ p_velocity c = zeros /\ p_torque c = zeros
  | Published _ _ => True
  end.

(** The fault of [base] stands, and nothing was armed or accepted since. *)
Record stands (base w : World) : Prop := {
  st_fault : fault_code_ (obj w) = fault_code_ (obj base);
  st_epoch : arm_epoch (obj w) = arm_epoch (obj base);
  st_epochs : epochs (obj w) = epochs (obj base);
  st_seq : last_cmd_seq_ (obj w) = last_cmd_seq_ (obj base);
  st_out : exists new, out w = new ++ out base /\ Forall (calm (fault_code_ (obj base))) new;
}.

Lemma stands_refl w : stands w w.
Proof. split; auto. by exists []. Qed.
Lemma stands_upd base f : (forall s, fault_code_ (f s) = fault_code_ s) -> (forall s, arm_epoch (f s) = arm_epoch s) ->
  (forall s, epochs (f s) = epochs s) -> (forall s, last_cmd_seq_ (f s) = last_cmd_seq_ s) -> steps (saves (stands base)) (upd f).
Proof. intros H1 H2 H3 H4 w []. split; simpl; rewrite ?H1, ?H2, ?H3, ?H4; auto. Qed.
Lemma stands_say base o : (forall s, calm (fault_code_ (obj base)) (s, o)) -> steps (saves (stands base)) (say o).
Proof. intros H w []. split; simpl; auto. destruct st_out0 as (new & E & F). exists ((obj w, o) :: new). simpl. rewrite E. split; [done|by constructor]. Qed.
#[local] Hint Extern 1 (steps (saves (stands _)) (upd _)) => apply stands_upd; intros; reflexivity : steps.
#[local] Hint Extern 1 (steps (saves (stands _)) (say (Published _ _))) => apply stands_say; intros; exact I : steps.
#[local] Hint Extern 1 (steps (saves (stands _)) ask) => intros ? []; by split : steps.

Lemma publish_stands base now m c sn : steps (saves (stands base)) (publish now m c sn).
Proof. unfold publish, servo_torque, vec2, asking. steps. Qed.
#[local] Hint Resolve publish_stands : steps.

Section Stands.
Context {base : World} (Hf : fault_code_ (obj base) <> 0).
Abbreviation standing := (steps (saves (stands base))).

Lemma stands_faulted w : stands base w -> nz (fault_code_ (obj w)) = true.
Proof. intros []. unfold nz. rewrite st_fault0. by apply negb_true_iff, Z.eqb_neq. Qed.

Lemma plant_failed_stands now : standing (plant_failed now).
Proof using Hf.
  intros w S. unfold plant_failed, bind at 1, get at 1. rewrite (stands_faulted w S). simpl.
  refine (flows_steps (saves (stands base)) _ w _ S). steps.
Qed.

Lemma tick_begin_stands now : standing (tick_begin now).
Proof using Hf.
  intros w S. unfold tick_begin, bind at 1, get. destruct (_ || _); [done|].
  destruct (choose _ now) as [[s' c] holding] eqn:Ec. apply choose_cases in Ec as [[] H]. simpl in *. destruct S.
  assert (F : fault_code_ s' = fault_code_ (obj base)) by (destruct ch_fault0 as [->|[? _]]; congruence).
  unfold bind, upd, say. simpl. destruct st_out0 as (new & E & A).
  split; simpl; try (destruct (armed_ s'); simpl; congruence).
  eexists ((_, _) :: new). rewrite E. split; [reflexivity|]. constructor; [|done]. unfold calm. simpl.
  split; [by destruct (armed_ s')|]. destruct H as [(_ & -> & _)|[(_ & _ & _ & H & _)|(_ & _ & (q & ->) & _)]]; [done|congruence|done].
Qed.
#[local] Hint Resolve plant_failed_stands tick_begin_stands : steps.

Lemma tick_end_stands r : standing (tick_end r).
Proof using Hf. unfold tick_end, asking. steps. apply saves_catch; steps. Qed.

Lemma arm_request_stands : standing arm_request.
Proof using Hf. intros w S. unfold arm_request, bind, get. by rewrite (stands_faulted w S). Qed.

Lemma apply_command_stands c : standing (apply_command c).
Proof using Hf.
  unfold apply_command. destruct (cc_pose_hold c); [steps|]. apply steps_bind; [apply _|steps|]. intros spec.
  apply steps_bind; [apply _|steps|]. intros [] w S. unfold bind at 1, get at 1. rewrite (stands_faulted w S), andb_false_r. done.
Qed.
#[local] Hint Resolve tick_end_stands arm_request_stands apply_command_stands : steps.

Lemma act_stands a : a <> Stops -> standing (act_out a).
Proof using Hf. intros N. apply saves_catch; [|steps]. destruct a; simpl; [steps|done|steps..]. Qed.
Lemma act_all_stands l : Stops ∉ l -> standing (act_all l).
Proof using Hf.
  induction l as [|a l IH]; intros N; simpl; [steps|]. apply steps_bind; [apply _|apply act_stands|intros _; apply IH]; set_solver.
Qed.
End Stands.

(** A latched fault stands until a stop: whatever commands, arming calls and
    cycles come meanwhile, the fault and its epoch stay, no command is accepted,
    no epoch handed out, and every cycle drives the plant with zero velocity
    and torque and shows the fault; arming is refused, and a stop clears it. *)
Theorem fault_stands_until_stop (l : list act) (w : World) : fault_code_ (obj w) <> 0 -> Stops ∉ l ->
  let w' := (act_all l w).2 in
  stands w w' /\ (arm_request w').1 = Err (RtLinkError "arm refused: latched fault") /\ fault_code_ (obj (stop_request w').2) = 0.
Proof.
  intros Hf N w'. assert (S : stands w w') by (apply act_all_stands; [done|done|apply stands_refl]).
  split; [done|]. split; [|done]. unfold arm_request, bind, get. by rewrite (stands_faulted Hf w' S).
Qed.
End Runs.
