(* ===== verification/SimLinkDemo.v ===== *)
(** The simulated link of one joint on a run: it is opened, armed, sent a command,
    left silent until its deadman holds and then faults, and stopped. *)
From Stdlib Require Import SpecFloat PrimFloat FloatOps.
From S2P Require Import Prelude Floats Motion Wire RtProtocol Effects SimLink SimLinkSafety.

Open Scope Z_scope.

Definition half : float := Eval vm_compute in Prim2SF 0.5%float.
Definition ten : float := Eval vm_compute in Prim2SF 10%float.
Definition hundred : float := Eval vm_compute in Prim2SF 100%float.
(** [t] milliseconds *)
Definition ms (t : Z) : float := of_Z t /f e3.

Definition demo_servo : Servo := {|
  state_hz := hundred; hold_ms := ten; fault_ms := hundred; hold_kp := ten; hold_kd := f1; observe := None |}.
Example demo_servo_ok : Servo_new demo_servo = Ok demo_servo.
Proof. reflexivity. Qed.

Definition demo_motor : motor := {| m_position := [half]; m_velocity := [f0] |}.
Definition demo_arm : Arm := {|
  servo := demo_servo; joint_names := [[97]]; instance_id := [97]; task_model := [97]; state_timeout_s := f1; runs_cartesian := false;
  at_load := demo_motor |}.
Definition cycle (t : Z) : list act := [Begins (ms t); Ends (Some demo_motor)].
(** The clock the calls read stands at one second; a cycle of the servo thread runs in every pause. *)
Definition demo_env : Env := {|
  monotonic k := ms 1000; monotonic_ns k := Z.of_nat k; elsewhere k := cycle 1001; polls k := 3%nat; random_session k := 6 |}.

Definition demo_command : client_command := {|
  cc_position := Some [f1]; cc_velocity := None; cc_torque := None; cc_kp := Some [ten]; cc_kd := Some [f1]; cc_pose_hold := false;
  cc_cartesian := None |}.

Abbreviation run := (fold_left (step (arm:=demo_arm) (env:=demo_env))).
Abbreviation idle := (run [Open] start).
Abbreviation armed_link := (run [Open; Enable] start).
Abbreviation driven_link := (run [Open; Enable; Turn (Applies demo_command); Turn (Begins (ms 1005)); Turn (Ends (Some demo_motor))] start).
Abbreviation faulted_link := (run ([Open; Enable; Turn (Applies demo_command)] ++ map Turn (cycle 1005 ++ cycle 1050 ++ cycle 1200)) start).
Abbreviation stopped_link := (run ([Open; Enable; Turn (Applies demo_command)] ++ map Turn (cycle 1005 ++ cycle 1050 ++ cycle 1200) ++ [SafeStop]) start).


(** The kinds of the records, with the fault of a cycle and the flags of a sample *)
Definition tag (x : record) : string * Z :=
  match x.2 with
  | ArmedUnder e => ("arm", e) | StopAsked k => ("stop", k) | Accepted _ q _ _ => ("accept", q)
  | Stepped _ c sn => ((if sn_holding sn then "hold" else if sn_armed sn then "drive" else "release")%string, sn_fault sn)
  | Published p _ => ("sample", flags p)
  end.

(** The whole life: the ARM holds, the command drives, silence holds and then
    faults (still holding), the stop releases; the samples show it. *)
Example stopped_link_log : rev (map tag (out stopped_link)) =
  [("sample", 0); ("arm", 1); ("hold", 0); ("sample", 5); ("accept", 1); ("drive", 0); ("sample", 1); ("hold", 0); ("sample", 5);
   ("hold", 1); ("sample", 7); ("stop", 1); ("release", 0); ("sample", 0)].
Proof. vm_compute. reflexivity. Qed.

Lemma demo_reached inputs : reached (arm:=demo_arm) (env:=demo_env) (run inputs start).
Proof. by exists inputs. Qed.

Definition drives (x : option record) : bool :=
  match x with Some (_, Stepped _ _ sn) => sn_armed sn && negb (sn_holding sn) && (sn_fault sn =? 0) | _ => false end.

Lemma plant_gets_live_commands_witness :
  exists s now c sn, out driven_link !! 1%nat = Some (s, Stepped now c sn) /\ sn_holding sn = false /\
    driven (arm:=demo_arm) (drop 2 (out driven_link)) (arm_t s) now c sn.
Proof.
  assert (D : drives (out driven_link !! 1%nat) = true) by (vm_compute; reflexivity).
  destruct (out driven_link !! 1%nat) as [[s []]|] eqn:E; try discriminate D.
  exists s, now, c, sn. split; [reflexivity|]. split.
  - apply andb_true_iff in D as [[_ D]%andb_true_iff _]. by apply negb_true_iff.
  - eapply (plant_gets_live_commands driven_link (take 1 (out driven_link)) s now c sn (drop 2 (out driven_link)));
      [exact (demo_reached _)|]. symmetry. exact (take_drop_middle _ _ _ E).
Defined.

Lemma arm_epochs_never_return_witness :
  exists x, out armed_link !! 2%nat = Some x /\ x.2 = ArmedUnder 1 /\ forall e', e' ∈ arms (drop 3 (out armed_link)) -> e' < 1.
Proof.
  destruct (out armed_link !! 2%nat) as [x|] eqn:E.
  - exists x. split; [reflexivity|]. assert (X : x.2 = ArmedUnder 1).
    { assert (H : option_map snd (out armed_link !! 2%nat) = Some (ArmedUnder 1)) by (vm_compute; reflexivity). rewrite E in H. by injection H. }
    split; [exact X|].
    pose proof (arm_epochs_never_return armed_link (take 2 (out armed_link)) x (drop 3 (out armed_link)) (demo_reached _)
      (eq_sym (take_drop_middle _ _ _ E))) as H. rewrite X in H. apply H.
  - exfalso. revert E. vm_compute. discriminate.
Defined.

Lemma disarm_is_confirmed_witness : exists w', safe_stop (arm:=demo_arm) (env:=demo_env) armed_link = (Ok true, w') /\
  exists new c sn, out w' = new ++ out armed_link /\ stepped new c sn /\ sn_armed sn = false /\ zero_gain (arm:=demo_arm) c.
Proof.
  destruct (safe_stop (arm:=demo_arm) (env:=demo_env) armed_link) as [[[|]|e] w'] eqn:E.
  - exists w'. split; [reflexivity|].
    destruct (disarm_is_confirmed armed_link w' (demo_reached _) eq_refl E) as (new & c & sn & H1 & H2 & H3 & H4 & _).
    exists new, c, sn. auto.
  - exfalso. apply (f_equal fst) in E. revert E. vm_compute. discriminate.
  - exfalso. apply (f_equal fst) in E. revert E. vm_compute. discriminate.
Defined.

Lemma arm_is_confirmed_witness : exists w', enable_all (arm:=demo_arm) (env:=demo_env) idle = (Ok tt, w') /\
  exists new c sn, out w' = new ++ out idle /\ stepped new c sn /\ sn_armed sn = true /\ sn_arm_epoch sn = 1.
Proof.
  destruct (enable_all (arm:=demo_arm) (env:=demo_env) idle) as [[[]|e] w'] eqn:E.
  - exists w'. split; [reflexivity|]. exact (arm_is_confirmed idle w' (demo_reached _) eq_refl E).
  - exfalso. apply (f_equal fst) in E. revert E. vm_compute. discriminate.
Defined.

(** More commands and cycles on the faulted link *)
Definition more : list act := [Applies demo_command; Arms] ++ cycle 1300.
Lemma more_runs : Stops ∉ more.
Proof. unfold more, cycle. set_solver. Qed.
Lemma fault_stands_until_stop_witness :
  fault_code_ (obj faulted_link) = FAULT_CMD_LOST /\
  stands (arm:=demo_arm) faulted_link (act_all (arm:=demo_arm) (env:=demo_env) more faulted_link).2 /\
  (arm_request (arm:=demo_arm) (env:=demo_env) (act_all (arm:=demo_arm) (env:=demo_env) more faulted_link).2).1 = Err (RtLinkError "arm refused: latched fault").
Proof.
  assert (F : fault_code_ (obj faulted_link) = FAULT_CMD_LOST) by (vm_compute; reflexivity).
  split; [exact F|].
  assert (N : fault_code_ (obj faulted_link) <> 0) by (intros N; pose proof (eq_trans (eq_sym F) N) as X; discriminate X).
  pose proof (fault_stands_until_stop (arm:=demo_arm) (env:=demo_env) more faulted_link N more_runs) as (H1 & H2 & _).
  split; [exact H1|exact H2].
Defined.
