(* ===== verification/SimObserve.v ===== *)
(** The observation ring of the simulated link ([plants/sim_link.py], observe/1):
    one observation every few ticks into a bounded ring that the tick never waits
    on, and readers that follow it by a cursor.  What an observation holds is a
    parameter. *)
From Stdlib Require Import SpecFloat.
From S2P Require Import Prelude Floats SimLink.

Open Scope Z_scope.

Section Observe.
Context {W : Type}.

Record ring := {
  obs_every : Z;
  rate_hz : float;
  capacity : nat;
  obs_tick : Z;
  obs : list (Z * W);
  obs_seq : Z;
  obs_errors : Z;
}.

(** The part of [__init__] for [sim_observe], whose checks are in [Servo_new] *)
Definition ring_new (hz rate ring_s : float) : result ring :=
  every <-- ceil_int (hz /f rate) ;;
  let rate_hz := hz /f of_Z every in
  size <-- ceil_int (ring_s *f rate_hz) ;;
  Ok {| obs_every := every; rate_hz := rate_hz; capacity := Z.to_nat (Z.max 1 size); obs_tick := 0; obs := []; obs_seq := 0; obs_errors := 0 |}.

(** [_observe]; [None] is a plant whose [observe] raised. *)
Definition observe (r : ring) (world : option W) : ring :=
  let tick := obs_tick r + 1 in
  let counted := {| obs_every := obs_every r; rate_hz := rate_hz r; capacity := capacity r; obs_tick := tick; obs := obs r;
                    obs_seq := obs_seq r; obs_errors := obs_errors r |} in
  if negb (tick mod obs_every r =? 0) then counted else
  match world with
  | Some w => {| obs_every := obs_every r; rate_hz := rate_hz r; capacity := capacity r; obs_tick := tick;
                 obs := push (capacity r) (obs r) (obs_seq r + 1, w); obs_seq := obs_seq r + 1; obs_errors := obs_errors r |}
  | None => {| obs_every := obs_every r; rate_hz := rate_hz r; capacity := capacity r; obs_tick := tick; obs := obs r;
               obs_seq := obs_seq r; obs_errors := obs_errors r + 1 |}
  end.

Record batch := { samples : list (Z * W); latest_seq : Z; dropped : Z }.

(** [observations] *)
Definition observations (r : ring) (after limit : Z) : batch :=
  let limit := Z.min (Z.max 1 limit) OBSERVE_LIMIT_MAX in
  let caught_up := match last (obs r) with None => true | Some x => x.1 <=? after end in
  let start := if caught_up then 0 else match obs r with x :: _ => Z.max 0 (after - x.1 + 1) | [] => 0 end in
  let taken := if caught_up then [] else take (Z.to_nat limit) (drop (Z.to_nat start) (obs r)) in
  {| samples := taken;
     latest_seq := match last taken with Some x => x.1 | None => Z.min (Z.max after 0) (obs_seq r) end;
     dropped := match taken with x :: _ => if 0 <? after then Z.max 0 (x.1 - after - 1) else 0 | [] => 0 end |}.

(** ** The sequences in the ring are consecutive, up to the newest *)

Record ring_ok (r : ring) : Prop := {
  ok_seqs : forall i x, obs r !! i = Some x -> x.1 = obs_seq r - Z.of_nat (length (obs r)) + 1 + Z.of_nat i;
  ok_size : (length (obs r) <= capacity r)%nat;
  ok_count : Z.of_nat (length (obs r)) <= obs_seq r;
  ok_newest : obs r = [] -> obs_seq r = 0;
  ok_capacity : (1 <= capacity r)%nat;
}.

Lemma ring_new_ok hz rate ring_s r : ring_new hz rate ring_s = Ok r -> ring_ok r.
Proof.
  unfold ring_new. destruct (ceil_int _) as [e|]; simpl; [|done]. destruct (ceil_int _) as [z|]; simpl; [|done].
  intros [= <-]. split; simpl; [done|lia|lia|done|lia].
Qed.

Lemma ring_observe_ok r w : ring_ok r -> ring_ok (observe r w).
Proof.
  intros [Hs Hz Hc Hn Hp]. unfold observe. destruct (negb _); [by split|]. destruct w as [w|]; [|by split].
  unfold push. split; simpl; [| | | |done]; rewrite ?length_drop, ?length_app; simpl; [|lia..|].
  2: { intros E. apply (f_equal length) in E. rewrite length_drop, length_app in E. simpl in E. lia. }
  intros i x. rewrite lookup_drop. intros [H|[H1 H2]]%lookup_app_Some.
  - rewrite (Hs _ _ H). lia.
  - apply list_lookup_singleton_Some in H2 as [H2 <-]. simpl. lia.
Qed.

Lemma observations_spec r after limit : ring_ok r -> 0 < after ->
  let b := observations r after limit in
  Z.of_nat (length (samples b)) <= OBSERVE_LIMIT_MAX /\
  (forall i x, samples b !! i = Some x -> x ∈ obs r /\ x.1 = after + dropped b + 1 + Z.of_nat i) /\
  0 <= dropped b /\
  (after <= obs_seq r -> latest_seq b = after + dropped b + Z.of_nat (length (samples b))) /\
  (obs_seq r < after -> samples b = [] /\ latest_seq b = obs_seq r) /\
  (after < obs_seq r -> samples b <> []).
Proof.
  intros [Hs Hz Hc Hn Hp] Ha b. unfold b, observations.
  set (lim := Z.to_nat (Z.min (Z.max 1 limit) OBSERVE_LIMIT_MAX)).
  assert (L : (1 <= lim)%nat /\ Z.of_nat lim <= OBSERVE_LIMIT_MAX) by (unfold lim, OBSERVE_LIMIT_MAX; lia). clearbody lim.
  assert (C : match last (obs r) with None => true | Some x => x.1 <=? after end = (obs_seq r <=? after)).
  { rewrite last_lookup. destruct (obs r !! pred _) as [x|] eqn:E.
    - apply lookup_lt_Some in E as E'. rewrite (Hs _ _ E). f_equal. lia.
    - apply lookup_ge_None in E. rewrite Hn; [lia|]. destruct (obs r); [done|simpl in E; lia]. }
  rewrite C. cbn [samples latest_seq dropped]. destruct (obs_seq r <=? after) eqn:Ec; breflect.
  { simpl. unfold OBSERVE_LIMIT_MAX. split_and!; try lia; try done. intros ?. split; [done|lia]. }
  destruct (obs r) as [|f l] eqn:El; [specialize (Hn eq_refl); lia|]. rewrite <- El in Hs, Hz, Hc, Hn |- *.
  assert (F : f.1 = obs_seq r - Z.of_nat (length (obs r)) + 1) by (rewrite (Hs 0%nat f); [lia|by rewrite El]).
  set (start := Z.to_nat (Z.max 0 (after - f.1 + 1))).
  assert (S0 : Z.of_nat start = Z.max 0 (after - f.1 + 1)) by (unfold start; lia). clearbody start.
  assert (S : (start < length (obs r))%nat) by (assert (1 <= length (obs r))%nat by (rewrite El; simpl; lia); lia).
  set (t := take lim (drop start (obs r))).
  assert (T : length t = Nat.min lim (length (obs r) - start)) by (unfold t; by rewrite length_take, length_drop).
  assert (I : forall i x, t !! i = Some x -> x ∈ obs r /\ x.1 = f.1 + Z.of_nat start + Z.of_nat i).
  { unfold t. intros i x H. apply lookup_take_Some in H as [H _]. rewrite lookup_drop in H. split; [by eapply list_elem_of_lookup_2|].
    rewrite (Hs _ _ H). lia. }
  assert (Z : exists x, t !! pred (length t) = Some x) by (apply lookup_lt_is_Some; lia). destruct Z as [z Z].
  rewrite last_lookup, Z. destruct (I _ _ Z) as [_ Hz1]. clearbody t. destruct t as [|x t'] eqn:Et; [simpl in T; lia|].
  destruct (I 0%nat x) as [_ Hx]; [done|]. replace (0 <? after) with true by lia.
  assert (D : Z.max 0 (x.1 - after - 1) = f.1 + Z.of_nat start - after - 1) by lia. rewrite D.
  split_and!; try lia.
  - intros i y H. destruct (I i y H). split; [done|lia].
  - done.
Qed.

(** A reader that follows the ring loses nothing silently: a read from a
    cursor [after] the ring has reached returns consecutive observations, the
    first [dropped] past the cursor, at most [OBSERVE_LIMIT_MAX] of them, and
    its next cursor is exactly the old one plus what was dropped and what was
    returned; a cursor beyond the newest falls back to it. *)
Theorem reader_loses_nothing_silently hz rate ring_s r0 (worlds : list (option W)) after limit : ring_new hz rate ring_s = Ok r0 -> 0 < after ->
  let r := fold_left observe worlds r0 in
  let b := observations r after limit in
  Z.of_nat (length (samples b)) <= OBSERVE_LIMIT_MAX /\
  (forall i x, samples b !! i = Some x -> x ∈ obs r /\ x.1 = after + dropped b + 1 + Z.of_nat i) /\
  0 <= dropped b /\
  (after <= obs_seq r -> latest_seq b = after + dropped b + Z.of_nat (length (samples b))) /\
  (obs_seq r < after -> samples b = [] /\ latest_seq b = obs_seq r) /\
  (after < obs_seq r -> samples b <> []).
Proof.
  intros H0 Ha r b. assert (R : ring_ok r).
  { unfold r. clear b r. apply ring_new_ok in H0. revert r0 H0. induction worlds as [|w l IH]; intros r0 H0; [done|]. by apply IH, ring_observe_ok. }
  clearbody r. apply (observations_spec r after limit R Ha).
Qed.
End Observe.

(** Five ticks at two per observation: two observations, and a reader at 1. *)
Definition demo_worlds : list (option Z) := [Some 10; Some 20; Some 30; Some 40; Some 50].
Definition hz200 : float := Eval vm_compute in of_Z 200.
Definition hz100 : float := Eval vm_compute in of_Z 100.

Lemma reader_loses_nothing_silently_witness : exists r0,
  ring_new (W:=Z) hz200 hz100 f1 = Ok r0 /\ capacity r0 = 100%nat /\
  let b := observations (fold_left observe demo_worlds r0) 1 64 in
  samples b = [(2, 40)] /\ dropped b = 0 /\ latest_seq b = 1 + dropped b + Z.of_nat (length (samples b)).
Proof.
  eexists. split; [vm_compute; reflexivity|]. split; [vm_compute; reflexivity|]. intros b.
  split; [vm_compute; reflexivity|]. split; [vm_compute; reflexivity|].
  destruct (reader_loses_nothing_silently hz200 hz100 f1 _ demo_worlds 1 64 ltac:(vm_compute; reflexivity) eq_refl) as (_ & _ & _ & H & _).
  apply H. vm_compute. discriminate.
Defined.
