(* ===== verification/Horizon.v ===== *)
(** The reference horizon ([plants/remote_rt/reference.py]): one worker thread
    that uploads, commits, aborts and retires references on the RT link, the main
    thread that stages and observes them, and the sender thread of the
    fixed-rate envelopes.

    Each thread's steps are inputs, interleaved in any order: a call of the main
    thread, the worker taking a job or receiving the link's answer, the sender
    reading the decision or sending it.  The guards of a call and the call itself
    are one step, of the worker ([dispatch]) and of the sender ([sender_sends]);
    in the source the main thread may act between them.  A job is the data its closure captured;
    a cancel event is a number, since a closure keeps the event it captured.  What
    the link is asked, and what it answers to a job, are the outputs.  The
    timeline, latency and scheduler diagnostics and the log are left out. *)
From Stdlib Require Import SpecFloat PrimFloat FloatOps.
From S2P Require Import Prelude Floats Motion RtProtocol Effects.

Definition SELECTION_UNRESOLVED_S : float := Eval vm_compute in Prim2SF 0.25%float.
Definition VALID_FOR_S : float := Eval vm_compute in Prim2SF 0.1%float.
Definition MAX_KNOTS : nat := Z.to_nat MAX_REFERENCE_KNOTS.

Definition REFERENCE_RUNNING : Z := 1.
Definition REFERENCE_END : Z := 2.
Definition REFERENCE_UNDERFLOW : Z := 3.
Definition REF_REVISION : Z := 4.
Definition REF_LATE : Z := 7.
Definition REF_RETIRED : Z := 8.

(** ** Link calls and their answers *)

Definition reply : Type := list (string * Z).
Definition has_key (k : string) (r : reply) : bool := existsb (fun x => bool_decide (x.1 = k)) r.

(** [ReferenceRefused], [ReferenceCancelledBeforeDispatch] and [_NotDispatched] are [RtLinkError]s. *)
Inductive failure :=
  | Refused (code : Z) (r : reply)
  | BeforeDispatch (why : string)
  | NotDispatched (why : string)
  | LinkFailed (why : string)
  | Raised (why : string).
Definition is_link (f : failure) : bool := match f with Raised _ => false | _ => true end.
Definition failure_text (f : failure) : string :=
  match f with
  | Refused _ _ => "reference operation refused"
  | BeforeDispatch w | NotDispatched w | LinkFailed w | Raised w => w
  end.

Inductive outcome := Uploaded (upload : Z) | Replied (r : reply) | Done | Failed (f : failure).

Inductive call :=
  | LUpload (window : JointTrajectory) (id revision expected : Z) (terminal : bool) (session epoch : Z)
  | LCommit (upload id revision expected : Z) (protected_until latest_phase : float) (session epoch budget : Z)
  | LGroupCommit (upload id : Z) (group member budget : Z)
  | LAbort (session epoch : Z)
  | LCancel (id revision session epoch : Z).

(** What the closures of the worker captured. *)
Record upload_job := {
  uj_event : option nat; uj_window : JointTrajectory; uj_id : Z; uj_revision : Z; uj_expected : Z; uj_terminal : bool;
  uj_session : Z; uj_epoch : Z }.
(** The closure of [_stage_window] reads [self.terminal] when it runs. *)
Definition upload_call (now_terminal : bool) (u : upload_job) : call :=
  LUpload (uj_window u) (uj_id u) (uj_revision u) (uj_expected u)
    (match uj_event u with Some _ => now_terminal && uj_terminal u | None => uj_terminal u end) (uj_session u) (uj_epoch u).
Record commit_job := {
  cj_event : nat; cj_upload : Z; cj_id : Z; cj_revision : Z; cj_cut : float; cj_latest : float;
  cj_deadline : option Z; cj_group : option (Z * Z * Z); cj_observed : option float; cj_session : Z; cj_epoch : Z }.
Record retire_job := {
  rj_id : Z; rj_revision : Z; rj_selected : Z; rj_unselected : bool; rj_session : Z; rj_epoch : Z }.
Inductive job :=
  | Upload (u : upload_job)
  | Commit (c : commit_job)
  | Abort (session epoch : Z)
  | Retire (r : retire_job).

(** The job under way and the call it waits for. *)
Inductive waiting := OnCall | RetireAborting | RetireCancelling | RetireLast.

Inductive kind := KStage | KCommit | KAbort.

Record dyn_command := { torque : vec; d_kp : vec; d_kd : vec }.
Record decision := { d_command : dyn_command; d_id : Z; d_revision : Z; d_phase : float; d_sampled : float }.

Inductive effect :=
  | Called (c : call)
  | Answered (c : call) (o : outcome)
  | Interrupted
  | Envelope (d : decision) (session epoch : Z).

Inductive selection := not_requested | pending | selected_ | refused | unresolved.
#[export] Instance selection_eq_dec : EqDecision selection.
Proof. solve_decision. Defined.

Record group_answer := { ga_group : Z; ga_key : option string; ga_failed : bool; ga_code : option Z; ga_reply : reply }.

(** ** The object *)

Record horizon := {
  worker : list (nat * job);
  under_way : option (nat * job * call * waiting);
  finished : list (nat * outcome);
  next_ticket : nat;
  shut : bool;
  events_set : list nat;
  next_event : nat;
  job_ : option (kind * nat);
  cancel_job : option nat;
  interrupt : nat;
  envelope_decision : option decision;
  envelope_last : option (Z * option Z);
  sender_read : option decision;
  next_id : Z;
  id : Z;
  key : option string;
  trajectory : option JointTrajectory;
  window : nat * nat;
  revision_ : Z;
  upload : Z;
  cut : float;
  stage_ready : bool;
  selection_requested : bool;
  selection_deadline_ns : option Z;
  commit_undispatched : bool;
  dropped : list (string * string);
  cancel_key : option string;
  error : string;
  point : option TrajectoryPoint;
  feedback : option ref_state;
  observed : option ref_state;
  observed_point : option TrajectoryPoint;
  received_at : float;
  session : Z;
  epoch : Z;
  stream : bool;
  terminal : bool;
  protected_until : float;
  candidate_selection : selection;
  pending_since : option float;
  candidate_error : string;
  candidate_result : option Z;
  candidate_curve : option JointTrajectory;
  candidate_terminal : bool;
  latest_phase : float;
  selection_rx : option float;
  first_tracking_at : option float;
  group : option (Z * Z * Z);
  group_reply : option group_answer;
  group_used : option (Z * Z * Z);
}.
#[export] Instance eta_horizon : Eta horizon := fun s => {|
  worker := worker s; under_way := under_way s; finished := finished s; next_ticket := next_ticket s; shut := shut s;
  events_set := events_set s; next_event := next_event s; job_ := job_ s; cancel_job := cancel_job s;
  interrupt := interrupt s; envelope_decision := envelope_decision s; envelope_last := envelope_last s;
  sender_read := sender_read s; next_id := next_id s; id := id s; key := key s; trajectory := trajectory s;
  window := window s; revision_ := revision_ s; upload := upload s; cut := cut s; stage_ready := stage_ready s;
  selection_requested := selection_requested s; selection_deadline_ns := selection_deadline_ns s;
  commit_undispatched := commit_undispatched s; dropped := dropped s; cancel_key := cancel_key s; error := error s;
  point := point s; feedback := feedback s; observed := observed s; observed_point := observed_point s;
  received_at := received_at s; session := session s; epoch := epoch s; stream := stream s; terminal := terminal s;
  protected_until := protected_until s; candidate_selection := candidate_selection s; pending_since := pending_since s;
  candidate_error := candidate_error s; candidate_result := candidate_result s; candidate_curve := candidate_curve s;
  candidate_terminal := candidate_terminal s; latest_phase := latest_phase s; selection_rx := selection_rx s;
  first_tracking_at := first_tracking_at s; group := group s;
  group_reply := group_reply s; group_used := group_used s |}.

(** [__init__]; event 0 is the first [threading.Event]. *)
Definition ReferenceHorizon_new : horizon := {|
  worker := []; under_way := None; finished := []; next_ticket := 0%nat; shut := false; events_set := []; next_event := 1%nat;
  job_ := None; cancel_job := None; interrupt := 0%nat; envelope_decision := None; envelope_last := None; sender_read := None;
  next_id := 0; id := 0; key := None; trajectory := None; window := (0, 0)%nat; revision_ := 0; upload := 0; cut := f0;
  stage_ready := false; selection_requested := false; selection_deadline_ns := None; commit_undispatched := false;
  dropped := []; cancel_key := None; error := ""; point := None; feedback := None; observed := None;
  observed_point := None; received_at := f0; session := 0; epoch := 0; stream := false; terminal := true;
  protected_until := f0; candidate_selection := not_requested; pending_since := None; candidate_error := "";
  candidate_result := None; candidate_curve := None; candidate_terminal := true; latest_phase := f0;
  selection_rx := None; first_tracking_at := None; group := None; group_reply := None; group_used := None |}.

(** The link and the clocks, by the number of questions asked. *)
Record Env := {
  monotonic : nat -> float;
  monotonic_ns : nat -> Z;
  link_session : nat -> Z;
  link_epoch : nat -> Z;
  latest_state : nat -> option rt_state;
  send_envelope : nat -> result (option Z);
}.
Existing Class Env.

Section Horizon.
Context {env : Env}.
Definition HorizonM : Type -> Type := M horizon effect.

Definition asking {A} (f : Env -> nat -> A) : HorizonM A := k <~ ask ;; ret (f env k).
Definition is_set (s : horizon) (e : nat) : bool := bool_decide (e ∈ events_set s).
Definition interrupted (s : horizon) : bool := is_set s (interrupt s).
Definition no_error (s : horizon) : bool := bool_decide (error s = ""%string).

(** [selected], [revision], [ready], [busy] *)
Definition runs (r : ref_state) : bool := (t_status r =? REFERENCE_RUNNING) || (t_status r =? REFERENCE_END).
Definition selected (s : horizon) : bool := match feedback s with Some r => runs r | None => false end.
Definition revision (s : horizon) : Z := match feedback s with Some r => t_revision r | None => 0 end.
Definition ready (s : horizon) : bool := stage_ready s && negb (is_some (cancel_job s)).
Definition busy (s : horizon) : bool :=
  is_some (job_ s) || is_some (cancel_job s) || stage_ready s ||
  if stream s then bool_decide (candidate_selection s = pending)
  else selection_requested s && negb (is_some (feedback s)) && negb (interrupted s) && no_error s.

(** [self._worker.submit] *)
Definition submit (j : job) : HorizonM nat :=
  s <~ get ;;
  if shut s then throw (RuntimeError "cannot schedule new futures after shutdown") else
  upd (fun s => s <| worker := worker s ++ [(next_ticket s, j)] |> <| next_ticket := S (next_ticket s) |>) ;~
  ret (next_ticket s).

(** ** The worker thread *)

Definition finish (t : nat) (o : outcome) : HorizonM unit :=
  upd (fun s => s <| under_way := None |> <| finished := (t, o) :: finished s |>).
Definition call_link (t : nat) (j : job) (c : call) (w : waiting) : HorizonM unit :=
  upd (fun s => s <| under_way := Some (t, j, c, w) |>) ;~ say (Called c).

(** [commit] up to its call, with the deadline arithmetic of [dispatch]. *)
Definition dispatch (j : commit_job) : HorizonM (failure + call) :=
  s <~ get ;;
  if is_set s (cj_event j) then ret (inl (BeforeDispatch "reference selection cancelled")) else
  budget <~ match cj_deadline j with Some d => ns <~ asking monotonic_ns ;; ret (d - ns) | None => ret 0 end ;;
  if is_some (cj_deadline j) && (budget <=? 0) then ret (inl (NotDispatched "selection deadline expired before COMMIT")) else
  let at_revision := (1 <? cj_revision j) && is_some (cj_deadline j) in
  match at_revision, cj_observed j with
  | true, None => ret (inl (NotDispatched "no selected phase for revision deadline"))
  | _, _ =>
      let phase_deadline := if at_revision then py_min (cj_latest j) (default f0 (cj_observed j) +f of_Z budget /f e9) else cj_latest j in
      let budget := if at_revision then 0 else budget in
      ret (inr match cj_group j with
               | Some (g, member, b) => LGroupCommit (cj_upload j) (cj_id j) g member b
               | None => LCommit (cj_upload j) (cj_id j) (cj_revision j) (cj_revision j - 1) (cj_cut j) phase_deadline
                           (cj_session j) (cj_epoch j) budget
               end)
  end.

(** An exception of the commit job. *)
Definition commit_failed (f : failure) : HorizonM outcome :=
  match f with
  | BeforeDispatch _ => upd (fun s => s <| commit_undispatched := true |>)
  | _ => ret tt
  end ;~ ret (Failed f).

Definition retire_call (r : retire_job) (rev : Z) : call := LCancel (rj_id r) rev (rj_session r) (rj_epoch r).

(** The worker takes the next job, up to its first call of the link. *)
Definition work : HorizonM unit :=
  s <~ get ;;
  match under_way s, worker s with
  | None, (t, j) :: rest =>
      upd (fun s => s <| worker := rest |>) ;~
      match j with
      | Upload u =>
          if match uj_event u with Some e => is_set s e | None => false end
          then finish t (Failed (LinkFailed "reference transfer cancelled")) else call_link t j (upload_call (terminal s) u) OnCall
      | Abort sess ep => call_link t j (LAbort sess ep) OnCall
      | Commit cj =>
          d <~ dispatch cj ;;
          match d with
          | inl f => o <~ commit_failed f ;; finish t o
          | inr c => call_link t j c OnCall
          end
      | Retire r =>
          if rj_unselected r || commit_undispatched s
          then call_link t j (LAbort (rj_session r) (rj_epoch r)) RetireAborting
          else call_link t j (retire_call r (rj_revision r)) RetireCancelling
      end
  | _, _ => ret tt
  end.

(** The link answers the call under way. *)
Definition code_of (o : outcome) : option Z := match o with Failed (Refused c _) => Some c | _ => None end.
Definition failed (o : outcome) : bool := match o with Failed _ => true | _ => false end.
Definition one_of (cs : list Z) (o : outcome) : bool :=
  match code_of o with Some c => existsb (Z.eqb c) cs | None => false end.
Definition done_or (o : outcome) : outcome := if failed o then o else Done.

Definition link_answers (o : outcome) : HorizonM unit :=
  s <~ get ;;
  match under_way s with
  | None => ret tt
  | Some (t, j, c, w) =>
      say (Answered c o) ;~
      match j, w with
      | Retire r, RetireAborting =>
          if failed o && negb (one_of [REF_RETIRED] o) then finish t o
          else if negb (rj_unselected r) && negb (rj_selected r =? 0)
          then call_link t j (retire_call r (rj_selected r)) RetireLast
          else finish t Done
      | Retire r, RetireCancelling =>
          if negb (failed o) then finish t Done
          else if negb (one_of [REF_REVISION] o) then finish t o
          else if negb (rj_selected r =? 0) && negb (rj_selected r =? rj_revision r)
          then call_link t j (retire_call r (rj_selected r)) OnCall
          else finish t Done
      | Retire r, RetireLast => finish t (if one_of [REF_REVISION; REF_RETIRED] o then Done else done_or o)
      | Retire r, OnCall => finish t (done_or o)
      | Commit _, _ => o <~ match o with Failed f => commit_failed f | _ => ret o end ;; finish t o
      | _, _ => finish t o
      end
  end.

(** ** The main thread *)

(** Python's [l[a:b]] on a list. *)
Definition slice {A} (a b : nat) (l : list A) : list A := take (b - a) (drop a l).
Definition window_of (tr : JointTrajectory) (first end_ : nat) : result JointTrajectory :=
  match velocities tr with
  | Some v => JointTrajectory_new (slice first end_ (times tr)) (slice first end_ (positions tr)) (Some (slice first end_ v))
  | None => Err (TypeError "'NoneType' object is not subscriptable")
  end.
Definition none_error : exn := TypeError "NoneType".

Definition stage_window (first : nat) : HorizonM unit :=
  s <~ get ;; tr <~ some_or (trajectory s) none_error ;;
  let len := length (times tr) in
  let end_ := Nat.min (first + MAX_KNOTS) len in
  c <~ (if revision_ s =? 0 then ret f0 else some_or (times tr !! ((window s).2 - 2)%nat) IndexError) ;;
  w <~ lift (window_of tr first end_) ;;
  let r := revision_ s + 1 in
  upd (fun s => s <| window := (first, end_) |> <| revision_ := r |> <| cut := c |> <| stage_ready := false |>) ;~
  t <~ submit (Upload {| uj_event := Some (interrupt s); uj_window := w; uj_id := id s; uj_revision := r; uj_expected := r - 1;
                         uj_terminal := (end_ =? len)%nat; uj_session := session s; uj_epoch := epoch s |}) ;;
  upd (fun s => s <| job_ := Some (KStage, t) |>).

Definition stage (k : option string) (tr : JointTrajectory) (deadline : option Z) (strm term : bool) : HorizonM Z :=
  s <~ get ;;
  if busy s then throw (RtLinkError "reference transfer already pending") else
  t0 <~ some_or (head (times tr)) IndexError ;;
  if negb (t0 =f f0) || negb (is_some (velocities tr))
  then throw (ValueError "native execution requires zero-origin Hermite knots") else
  upd (fun s => s <| next_id := next_id s + 1 |> <| stream := strm |> <| terminal := term |> <| protected_until := f0 |>
                  <| candidate_selection := not_requested |> <| candidate_error := "" |> <| candidate_result := None |>
                  <| candidate_curve := None |> <| latest_phase := f0 |>
                  <| id := next_id s + 1 |> <| key := k |>) ;~
  copy <~ lift (JointTrajectory_new (times tr) (positions tr) (velocities tr)) ;;
  upd (fun s => s <| trajectory := Some copy |> <| selection_requested := false |> <| selection_deadline_ns := deadline |>) ;~
  sess <~ asking link_session ;; upd (fun s => s <| session := sess |>) ;~
  ep <~ asking link_epoch ;;
  upd (fun s => s <| epoch := ep |> <| interrupt := next_event s |> <| next_event := S (next_event s) |> <| error := "" |>
                  <| point := None |> <| feedback := None |> <| group_reply := None |> <| group_used := None |>
                  <| selection_rx := None |> <| first_tracking_at := None |> <| window := (0, 0)%nat |> <| revision_ := 0 |>) ;~
  stage_window 0 ;~
  s <~ get ;; ret (id s).

(** [np.array_equal] of two rows *)
Definition array_equal (a b : vec) : bool := (length a =? length b)%nat && forallb (fun x => x.1 =f x.2) (zip a b).
Definition equal_rows (m m' : mat) (i j : nat) : result bool :=
  match m !! i, m' !! j with Some a, Some b => Ok (array_equal a b) | _, _ => Err IndexError end.
(** [np.flatnonzero(times == t)] *)
Definition knots_at (ts : vec) (t : float) : list nat :=
  List.filter (fun i => match ts !! i with Some x => x =f t | None => false end) (seq 0 (length ts)).
Definition vstack (a b : mat) : result mat :=
  raise_if negb (ncols a =? ncols b)%nat of ValueError "all the input array dimensions must match exactly" ;; Ok (a ++ b).

(** [splice]: the curve of the selected prefix and the suffix *)
Definition splice_curve (old suffix : JointTrajectory) (phase t_cut protected : float) : result JointTrajectory :=
  match velocities old, velocities suffix, knots_at (times old) t_cut with
  | Some ov, Some sv, [last] =>
      raise_if t_cut <f protected of ValueError "cut is not an eligible selected knot" ;;
      raise_if negb (match head (times suffix) with Some t => t =f t_cut | None => false end)
        of ValueError "suffix must preserve exact cut time/q/qd" ;;
      same_q <-- equal_rows (positions suffix) (positions old) 0 last ;;
      raise_if negb same_q of ValueError "suffix must preserve exact cut time/q/qd" ;;
      same_v <-- equal_rows sv ov 0 last ;;
      raise_if negb same_v of ValueError "suffix must preserve exact cut time/q/qd" ;;
      let first := (searchsorted_right (times old) phase - 1)%nat in
      raise_if (last <=? first)%nat of ValueError "splice missed its whole-segment prefix" ;;
      ps <-- vstack (slice first (last + 1) (positions old)) (drop 1 (positions suffix)) ;;
      vs <-- vstack (slice first (last + 1) ov) (drop 1 sv) ;;
      curve <-- JointTrajectory_new (slice first (last + 1) (times old) ++ drop 1 (times suffix)) ps (Some vs) ;;
      raise_if (MAX_KNOTS <? length (times curve))%nat of ValueError "combined reference exceeds 128 knots" ;;
      Ok curve
  | Some _, Some _, _ => Err (ValueError "cut is not an eligible selected knot")
  | _, _, _ => Err none_error
  end.
Definition splice (suffix : JointTrajectory) (t_cut : float) (expected : Z) : HorizonM JointTrajectory :=
  s <~ get ;;
  if negb (stream s) || negb (selected s) || negb (expected =? revision s)
  then throw (ValueError "splice requires the selected stream revision") else
  old <~ some_or (trajectory s) none_error ;; at_ <~ some_or (point s) none_error ;;
  lift (splice_curve old suffix (pt_time at_) t_cut (protected_until s)).

Definition stage_suffix (curve : JointTrajectory) (t_cut : float) (expected : Z) (term : bool) (latest : float) (deadline : option Z)
    : HorizonM unit :=
  s <~ get ;;
  if busy s || negb (stream s) || negb (selected s) || terminal s
  then throw (RtLinkError "stream candidate slot is unavailable") else
  if negb (expected =? revision s) then throw (ValueError "selected revision changed before upload") else
  upd (fun s => s <| candidate_curve := Some curve |> <| candidate_terminal := term |> <| revision_ := expected + 1 |>
                  <| cut := t_cut |> <| latest_phase := latest |> <| selection_deadline_ns := deadline |>
                  <| candidate_selection := not_requested |> <| candidate_error := "" |> <| candidate_result := None |>) ;~
  t <~ submit (Upload {| uj_event := None; uj_window := curve; uj_id := id s; uj_revision := expected + 1; uj_expected := expected;
                         uj_terminal := term; uj_session := session s; uj_epoch := epoch s |}) ;;
  upd (fun s => s <| job_ := Some (KStage, t) |>).

Definition abort_candidate : HorizonM unit :=
  s <~ get ;;
  if bool_decide (candidate_selection s = pending)
  then throw (RtLinkError "selection pending; reconcile RT feedback before abort") else
  say Interrupted ;~
  t <~ submit (Abort (session s) (epoch s)) ;;
  upd (fun s => s <| job_ := Some (KAbort, t) |> <| stage_ready := false |> <| candidate_curve := None |>).

Definition approve : HorizonM unit :=
  s <~ get ;;
  if negb (ready s) then throw (RtLinkError "reference candidate is not admitted") else
  upd (fun s => s <| group := None |> <| group_reply := None |> <| group_used := group s |>
                  <| stage_ready := false |> <| selection_requested := true |> <| commit_undispatched := false |>
                  <| candidate_selection := pending |>) ;~
  t <~ asking monotonic ;; upd (fun s => s <| pending_since := Some t |>) ;~
  t <~ submit (Commit {|
    cj_event := interrupt s; cj_upload := upload s; cj_id := id s; cj_revision := revision_ s; cj_cut := cut s;
    cj_latest := if stream s then latest_phase s else cut s;
    cj_deadline := if (revision_ s =? 1) || stream s then selection_deadline_ns s else None;
    cj_group := group s; cj_observed := pt_time <$> point s; cj_session := session s; cj_epoch := epoch s |}) ;;
  upd (fun s => s <| job_ := Some (KCommit, t) |>).

(** [_record_drop], [_note_drop] *)
Definition confirmed (k : string) (l : list (string * string)) : bool :=
  existsb (fun x => bool_decide (x.1 = k) && negb (bool_decide (x.2 = "unconfirmed"%string))) l.
Definition record_drop (k : option string) (how : string) (l : list (string * string)) : list (string * string) :=
  match k with
  | None => l
  | Some k => if bool_decide (how = "unconfirmed"%string) && confirmed k l then l
              else let l := dput k how l in drop (length l - 16) l
  end.
Definition note_drop (how : string) : HorizonM unit :=
  upd (fun s => if revision_ s =? 1 then s <| dropped := record_drop (key s) how (dropped s) |> else s).

(** The answer of the job that [poll] finds done. *)
Definition job_failed (k : kind) (f : failure) : HorizonM unit :=
  let committing := match k with KCommit => true | _ => false end in
  s <~ get ;;
  when (stream s)
    (upd (fun s => s <| candidate_error := failure_text f |>) ;~
     match k, f with
     | KCommit, Refused c _ => upd (fun s => s <| candidate_selection := refused |> <| candidate_result := Some c |>) ;~ note_drop "refused"
     | KCommit, NotDispatched _ => upd (fun s => s <| candidate_selection := refused |> <| candidate_result := Some REF_LATE |>) ;~
                                   note_drop "refused"
     | KCommit, BeforeDispatch _ => upd (fun s => s <| candidate_selection := not_requested |>) ;~ note_drop "undispatched"
     | KStage, _ => upd (fun s => s <| candidate_selection := not_requested |>)
     | _, _ => ret tt
     end) ;~
  when (committing && match f with Refused _ _ => true | _ => false end && (revision_ s =? 1))
    (upd (fun s => s <| selection_requested := false |>)) ;~
  match committing, group_used s with
  | true, Some (g, _, _) =>
      upd (fun s => s <| group_reply := Some {| ga_group := g; ga_key := key s; ga_failed := true;
                          ga_code := match f with Refused c _ => Some c | _ => None end;
                          ga_reply := match f with Refused _ r => r | _ => [] end |} |>)
  | _, _ => ret tt
  end ;~
  when (negb (interrupted s) && negb (stream s)) (upd (fun s => s <| error := failure_text f |>)).
Definition job_done (k : kind) (o : outcome) : HorizonM unit :=
  s <~ get ;;
  match k, o with
  | KStage, Uploaded u => when (negb (interrupted s)) (upd (fun s => s <| upload := u |> <| stage_ready := true |>))
  | KCommit, Replied r =>
      match group_used s with
      | Some (g, _, _) => when (has_key "selected_ns" r)
          (upd (fun s => s <| group_reply := Some {| ga_group := g; ga_key := key s; ga_failed := false; ga_code := None; ga_reply := r |} |>))
      | None => ret tt
      end
  | _, _ => ret tt
  end.
Definition result_of (s : horizon) (t : nat) : option outcome := snd <$> List.find (fun x => (x.1 =? t)%nat) (finished s).
Definition collect_job : HorizonM unit :=
  s <~ get ;;
  match job_ s with
  | Some (k, t) =>
      match result_of s t with
      | Some o => upd (fun s => s <| job_ := None |>) ;~ match o with Failed f => job_failed k f | _ => job_done k o end
      | None => ret tt
      end
  | None => ret tt
  end.
(** Only an [RtLinkError] of the retirement is caught. *)
Definition collect_cancel : HorizonM unit :=
  s <~ get ;;
  match cancel_job s ≫= result_of s with
  | Some (Failed f) =>
      if negb (is_link f) then throw (RuntimeError (failure_text f)) else
      upd (fun s => s <| error := failure_text f |> <| dropped := record_drop (cancel_key s) "unconfirmed" (dropped s) |>
                      <| cancel_job := None |> <| stage_ready := false |>)
  | Some _ =>
      upd (fun s => s <| dropped := record_drop (cancel_key s) "ack" (dropped s) |>
                      <| candidate_selection := if bool_decide (candidate_selection s = pending) then not_requested else candidate_selection s |>
                      <| cancel_job := None |> <| stage_ready := false |>)
  | None => ret tt
  end.

(** What the received state says of this reference. *)
Definition bound_ref (s : horizon) (st : option rt_state) : option ref_state :=
  st ≫= fun st => if (s_session_id (rt st) =? session s) && (s_arm_epoch (rt st) =? epoch s) then rt_reference st else None.
Definition ref_point (r : ref_state) : TrajectoryPoint := {|
  pt_time := t_phase r; pt_position := t_q_ref r; pt_velocity := t_qd_ref r; pt_acceleration := t_qdd_ref r |}.
Definition observe (st : option rt_state) (received : float) : HorizonM (option ref_state) :=
  s <~ get ;;
  let bound := bound_ref s st in
  let seen := r ← bound; if runs r then Some (ref_point r) else None in
  let valid := r ← bound; if t_reference_id r =? id s then Some r else None in
  upd (fun s => s <| observed := bound |> <| observed_point := seen |> <| feedback := valid |>
                  <| point := if is_some valid then seen else None |> <| received_at := received |>) ;~
  upd (fun s => s <| selection_rx := if is_some valid && selected s && negb (is_some (selection_rx s)) then Some received
                                     else selection_rx s |>) ;~
  ret valid.

(** The reconciliation of the candidate with what the RT runs, and the terminal statuses. *)
Definition reconcile (r : ref_state) : HorizonM unit :=
  s <~ get ;;
  when (stream s && (t_revision r =? revision_ s) && (runs r || (t_status r =? REFERENCE_UNDERFLOW)))
    (upd (fun s => s <| candidate_selection := selected_ |>) ;~
     match candidate_curve s with
     | Some c => upd (fun s => s <| trajectory := Some c |> <| candidate_curve := None |> <| terminal := candidate_terminal s |>
                                 <| protected_until := cut s |>)
     | None => ret tt
     end) ;~
  when (t_status r =? REFERENCE_UNDERFLOW) (upd (fun s => s <| error := "REFERENCE_UNDERFLOW" |>)) ;~
  s <~ get ;;
  when ((t_status r =? REFERENCE_CANCELLED) && negb (interrupted s) && no_error s)
    (upd (fun s => s <| error := "REFERENCE_EXPIRED" |>)).

Definition reconcile_if (valid : option ref_state) : HorizonM unit :=
  match valid with Some r => reconcile r | None => ret tt end.

Definition unresolved_error : exn := RtLinkError "selection unresolved".
(** RT evidence recorded in this poll wins over an unresolved selection. *)
Definition evidence (s : horizon) : bool :=
  bool_decide (error s = "REFERENCE_UNDERFLOW"%string) || bool_decide (error s = "REFERENCE_EXPIRED"%string).
Definition check_unresolved : HorizonM unit :=
  s <~ get ;;
  match pending_since s with
  | Some since =>
      if stream s && bool_decide (candidate_selection s = pending) && negb (evidence s)
      then t <~ asking monotonic ;;
           if t -f since >f SELECTION_UNRESOLVED_S
           then upd (fun s => s <| candidate_selection := unresolved |> <| candidate_error := "selection unresolved" |>) ;~
                throw unresolved_error
           else ret tt
      else ret tt
  | None => ret tt
  end.

(** The next window of an admitted plan, once the running one is half played. *)
Definition refill (r : ref_state) : HorizonM unit :=
  s <~ get ;; tr <~ some_or (trajectory s) none_error ;;
  let '(first, end_) := window s in
  if (end_ <? length (times tr))%nat then
    mid <~ some_or (times tr !! (first + (end_ - first) / 2)%nat) IndexError ;;
    if t_phase r >=f mid then
      let start := (Z.of_nat (searchsorted_right (times tr) (t_phase r)) - 1)%Z in
      if Z.of_nat end_ - 2 <=? start then upd (fun s => s <| error := "reference refill missed protected prefix" |>)
      else stage_window (Z.to_nat (Z.max (Z.of_nat first) start))
    else ret tt
  else ret tt.
Definition continue_plan (valid : option ref_state) : HorizonM unit :=
  s <~ get ;;
  match valid with
  | Some r =>
      if stream s || interrupted s || negb (no_error s) || negb (selected s) then ret tt
      else if ready s && (1 <? revision_ s) then approve
      else if negb (busy s) && (t_revision r =? revision_ s) then refill r else ret tt
  | None => ret tt
  end.

Definition poll (st : option rt_state) (received : float) : HorizonM unit :=
  collect_job ;~ collect_cancel ;~
  valid <~ observe st received ;;
  reconcile_if valid ;~ check_unresolved ;~ continue_plan valid.

(** The event is set, the upload interrupted, and the one worker told to retire. *)
Definition cancel : HorizonM unit :=
  s <~ get ;;
  if (id s =? 0) || interrupted s then ret tt else
  upd (fun s => s <| events_set := interrupt s :: events_set s |>) ;~
  say Interrupted ;~
  upd (fun s => s <| stage_ready := false |> <| cancel_key := key s |>) ;~
  t <~ submit (Retire {| rj_id := id s; rj_revision := revision_ s; rj_selected := revision s;
                         rj_unselected := negb (selection_requested s); rj_session := session s; rj_epoch := epoch s |}) ;;
  upd (fun s => s <| cancel_job := Some t |>).

Definition publish (d : decision) (tracking : bool) : HorizonM unit :=
  upd (fun s => s <| envelope_decision := Some d |>) ;~
  s <~ get ;;
  when (tracking && (d_id d =? id s) && is_some (selection_rx s) && negb (is_some (first_tracking_at s)))
    (t <~ asking monotonic ;; upd (fun s => s <| first_tracking_at := Some t |>)).
Definition unpublish : HorizonM unit := upd (fun s => s <| envelope_decision := None |>).
Definition last_seq (s : horizon) : option Z :=
  match envelope_last s, envelope_decision s with
  | Some (rid, seq), Some d => if rid =? d_id d then seq else None
  | _, _ => None
  end.

(** [close]: jobs not started are cancelled. *)
Definition close : HorizonM unit :=
  upd (fun s => s <| events_set := interrupt s :: events_set s |> <| envelope_decision := None |>) ;~
  say Interrupted ;~
  upd (fun s => s <| shut := true |> <| worker := [] |>
                  <| finished := map (fun j => (j.1, Failed (Raised "CancelledError"))) (worker s) ++ finished s |>).

(** ** The sender thread *)

Definition sender_reads : HorizonM unit := upd (fun s => s <| sender_read := envelope_decision s |>).
(** The guards of [_send_envelope] on the received state. *)
Definition admits (s : horizon) (d : decision) (st : option rt_state) : bool :=
  match st with
  | Some st =>
      match rt_reference st with
      | Some r =>
          armed (rt st) && (s_session_id (rt st) =? session s) && (s_arm_epoch (rt st) =? epoch s) &&
          (t_reference_id r =? d_id d) && runs r &&
          negb ((interrupted s || negb (no_error s)) && ((d_id d =? id s) || negb (t_status r =? REFERENCE_END)))
      | None => false
      end
  | None => false
  end.
(** [_send_envelope] after the decision was read *)
Definition sender_sends : HorizonM unit :=
  s <~ get ;;
  match sender_read s with
  | None => ret tt
  | Some d =>
      upd (fun s => s <| sender_read := None |>) ;~
      t <~ asking monotonic ;;
      if t -f d_sampled d >f VALID_FOR_S then ret tt else
      sess <~ asking link_session ;;
      if negb (sess =? session s) then ret tt else
      st <~ asking latest_state ;;
      if negb (admits s d st) then ret tt else
      say (Envelope d (session s) (epoch s)) ;~
      seq <~ asking send_envelope ;;
      match seq with
      | Ok seq => upd (fun s => s <| envelope_last := Some (d_id d, seq) |>)
      | Err _ => ret tt
      end
  end.

(** ** The horizon under any interleaving *)

Inductive input :=
  | Stage (k : option string) (tr : JointTrajectory) (deadline : option Z) (strm term : bool)
  | StageSuffix (curve : JointTrajectory) (t_cut : float) (expected : Z) (term : bool) (latest : float) (deadline : option Z)
  | AbortCandidate | Approve | SetGroup (g : option (Z * Z * Z)) | TakeDrop (k : string) | ClearError
  | Poll (st : option rt_state) (received : float)
  | Cancel | Close | Publish (d : decision) (tracking : bool) | Unpublish
  | Work | Answer (o : outcome) | SenderReads | SenderSends.

Definition handle (i : input) : HorizonM unit :=
  match i with
  | Stage k tr d strm term => _ <~ stage k tr d strm term ;; ret tt
  | StageSuffix c t e term l d => stage_suffix c t e term l d
  | AbortCandidate => abort_candidate
  | Approve => approve
  | SetGroup g => upd (fun s => s <| group := g |>)
  | TakeDrop k => upd (fun s => s <| dropped := ddel k (dropped s) |>)
  | ClearError => upd (fun s => s <| error := "" |>)
  | Poll st t => poll st t
  | Cancel => cancel
  | Close => close
  | Publish d tracking => publish d tracking
  | Unpublish => unpublish
  | Work => work
  | Answer o => link_answers o
  | SenderReads => sender_reads
  | SenderSends => sender_sends
  end.
Definition react (w : world horizon effect) (i : input) : world horizon effect := (handle i w).2.
Definition start : world horizon effect := {| obj := ReferenceHorizon_new; out := []; asked := 0 |}.
End Horizon.
