(* ===== verification/HorizonFacts.v ===== *)
(** What the reference horizon guarantees under any interleaving of its three
    threads and any behaviour of the RT link: the splice keeps the reference in
    flight and goes on with the suffix, an envelope is fresh, a commit is of an acknowledged and uncancelled
    upload, and a pending candidate is reported in time. *)
From Stdlib Require Import SpecFloat PrimFloat FloatOps.
From S2P Require Import Prelude Floats Motion RtProtocol Effects Horizon.

(** ** Splicing *)

Section Splice.

Lemma searchsorted_at ts t k tl tu :
  increasing ts -> all_finite ts = true -> isnan t = false -> ts !! k = Some tl -> ts !! S k = Some tu ->
  fleb tl t = true -> fltb t tu = true -> searchsorted_right ts t = S k.
Proof.
  intros Hi Hf Hn Hl Hu H1 H2. destruct (searchsorted_split ts t Hi Hf Hn) as [S1 S2].
  destruct (decide (k < searchsorted_right ts t)%nat).
  - destruct (decide (S k < searchsorted_right ts t)%nat) as [H|H]; [|lia].
    specialize (S1 _ _ Hu H). rewrite (fltb_not_fleb _ _ H2) in S1. done.
  - specialize (S2 k tl Hl ltac:(lia)). rewrite (fltb_not_fleb _ _ S2) in H1. done.
Qed.

Lemma length_slice {A} (l : list A) a b : (b <= length l)%nat -> length (slice a b l) = (b - a)%nat.
Proof. intros H. unfold slice. rewrite length_take, length_drop. lia. Qed.
Lemma slice_app_lookup {A} (l r : list A) a b i :
  (b < length l)%nat -> (a + i <= b)%nat -> (slice a (b + 1) l ++ r) !! i = l !! (a + i)%nat.
Proof.
  intros Hb Hi. rewrite lookup_app_l by (rewrite length_slice; lia). unfold slice.
  rewrite lookup_take, decide_True by lia. apply lookup_drop.
Qed.

Lemma first_time_lookup tr t : times tr !! 0%nat = Some t -> first_time tr = t.
Proof. unfold first_time. rewrite <-head_lookup. by intros ->. Qed.
Lemma knots_at_spec ts c l : knots_at ts c = [l] -> exists x, ts !! l = Some x /\ feqb x c = true.
Proof.
  unfold knots_at. intros H. assert (In l (List.filter (fun i => match ts !! i with Some x => x =f c | None => false end) (seq 0 (length ts)))) as Hl.
  { rewrite H. by left. }
  apply filter_In in Hl as [_ Hl]. destruct (ts !! l) as [x|]; [by exists x|done].
Qed.

(** The old curve's knots are found in the spliced one. *)
Record spliced (old curve : JointTrajectory) (first last : nat) : Prop := {
  sp_last : (last < length (times old))%nat;
  sp_times i : (first + i <= last)%nat -> times curve !! i = times old !! (first + i)%nat;
  sp_rows i : (first + i <= last)%nat -> positions curve !! i = positions old !! (first + i)%nat;
  sp_velocities : exists ov cv, velocities old = Some ov /\ velocities curve = Some cv /\
    forall i, (first + i <= last)%nat -> cv !! i = ov !! (first + i)%nat;
}.

(** What a splice joins: the protected prefix of the selected curve, up to the
    knot at the cut, and the suffix's rows behind its first, which repeats that
    knot exactly. *)
Definition same_row (a b : vec) : Prop := Forall2 (fun x y => x =f y = true) a b.
Definition repeats (m m' : mat) (i j : nat) : Prop := exists a b, m !! i = Some a /\ m' !! j = Some b /\ same_row a b.
Record joined (old suffix curve : JointTrajectory) (ov sv cv : mat) (first last : nat) (c : float) : Prop := {
  jn_old : velocities old = Some ov;
  jn_suffix : velocities suffix = Some sv;
  jn_curve : velocities curve = Some cv;
  jn_cut : exists x, times old !! last = Some x /\ x =f c = true;
  jn_time : exists t, times suffix !! 0%nat = Some t /\ t =f c = true;
  jn_q : repeats (positions suffix) (positions old) 0 last;
  jn_qd : repeats sv ov 0 last;
  jn_times : times curve = slice first (last + 1) (times old) ++ drop 1 (times suffix);
  jn_positions : positions curve = slice first (last + 1) (positions old) ++ drop 1 (positions suffix);
  jn_velocities : cv = slice first (last + 1) ov ++ drop 1 sv;
}.

Lemma equal_rows_repeats m m' i j : equal_rows m m' i j = Ok true -> repeats m m' i j.
Proof.
  unfold equal_rows. destruct (m !! i) as [a|] eqn:E1; [|done]. destruct (m' !! j) as [b|] eqn:E2; [|done]. intros [= H].
  exists a, b. split; [done|split; [done|]]. unfold array_equal in H. apply andb_true_iff in H as [Hl H]. apply Nat.eqb_eq in Hl.
  apply Forall2_same_length_lookup. split; [done|]. intros k x y Hx Hy. apply forallb_Forall in H.
  assert (zip a b !! k = Some (x, y)) as Hz by by rewrite lookup_zip_with, Hx, Hy.
  apply (Forall_lookup_1 _ _ _ _ H Hz).
Qed.

Lemma splice_joined old suffix phase c prot curve :
  splice_curve old suffix phase c prot = Ok curve ->
  exists ov sv cv last, let first := (searchsorted_right (times old) phase - 1)%nat in
    joined old suffix curve ov sv cv first last c /\ (first < last)%nat /\ c <f prot = false /\
    (length (times curve) <= MAX_KNOTS)%nat /\ JointTrajectory_new (times curve) (positions curve) (velocities curve) = Ok curve.
Proof.
  intros H. unfold splice_curve in H. set (first := (searchsorted_right (times old) phase - 1)%nat) in *.
  destruct (velocities old) as [ov|] eqn:Ho; [|done]. destruct (velocities suffix) as [sv|] eqn:Hs; [|done].
  destruct (knots_at (times old) c) as [|last [|]] eqn:Hk; try done. apply knots_at_spec in Hk.
  pass_guard H E1. pass_guard H E2.
  apply rbind_ok in H as (sq & Hq & H). pass_guard H E3. apply rbind_ok in H as (sw & Hw & H). pass_guard H E4.
  pass_guard H E5. apply rbind_ok in H as (ps & Hps & H). apply rbind_ok in H as (vs & Hvs & H).
  apply rbind_ok in H as (cv & Hcv & H). pass_guard H E6. injection H as <-.
  assert (times cv = slice first (last + 1) (times old) ++ drop 1 (times suffix) /\ positions cv = ps /\ velocities cv = Some vs)
    as (Ht & Hp & Hv).
  { clear -Hcv. unfold JointTrajectory_new in Hcv. by inv_ok Hcv. }
  unfold vstack in Hps, Hvs. pass_guard Hps E7. injection Hps as <-. pass_guard Hvs E8. injection Hvs as <-.
  apply Nat.leb_gt in E5. apply Nat.ltb_ge in E6. breflect. subst sq sw.
  exists ov, sv, (slice first (last + 1) ov ++ drop 1 sv), last. split_and!; try done; [|by rewrite Ht, Hp, Hv].
  split; try done; [|by apply equal_rows_repeats..].
  rewrite head_lookup in E2. destruct (times suffix !! 0%nat) as [t|]; [|done]. by exists t.
Qed.

Lemma joined_spliced old suffix curve ov sv cv first last c :
  traj_ok old -> joined old suffix curve ov sv cv first last c -> spliced old curve first last.
Proof.
  intros Hok J. destruct (jn_cut _ _ _ _ _ _ _ _ _ J) as (x & Hx & _). apply lookup_lt_Some in Hx.
  destruct J as [Ho _ Hc _ _ _ _ Ht Hp Hv]. split; [done|..].
  - intros i Hi. rewrite Ht. by apply slice_app_lookup.
  - intros i Hi. rewrite Hp. apply slice_app_lookup; [|done]. by rewrite (to_rows _ Hok).
  - exists ov, cv. split_and!; [done..|]. intros i Hi. rewrite Hv. apply slice_app_lookup; [|done]. by rewrite (to_vrows _ Hok _ Ho).
Qed.

(** Sampled between the observed phase and the cut, both curves agree. *)
Lemma spliced_samples old curve phase last x t :
  traj_ok old -> increasing (times old) -> all_finite (times old) = true -> isnan phase = false ->
  traj_ok curve -> increasing (times curve) -> all_finite (times curve) = true ->
  spliced old curve (searchsorted_right (times old) phase - 1) last ->
  (searchsorted_right (times old) phase - 1 < last)%nat ->
  times old !! last = Some x -> fltb phase t = true -> fltb t x = true ->
  sample_at curve t = sample_at old t.
Proof.
  intros Ok1 I1 F1 Hp Ok2 I2 F2 [Hlast Hts Hps (ov & cv & Hov & Hcv & Hvs)] Hlt Hx Hpt Htx.
  set (first := (searchsorted_right (times old) phase - 1)%nat) in *.
  destruct (searchsorted_split _ _ I1 F1 Hp) as [S1 _].
  destruct (lookup_lt_is_Some_2 (times old) first) as [y Hy]; [lia|].
  pose proof (proj2 (fltb_nan _ _ Hpt)) as Hn.
  assert (first <> 0%nat -> fltb y t = true) as Hyt.
  { intros H0. eapply fleb_fltb_trans; [|exact Hpt]. eapply S1; [exact Hy|]. unfold first in *. lia. }
  assert (times curve !! 0%nat = Some y) as Hc0 by (rewrite Hts, Nat.add_0_r by lia; done).
  pose proof (first_time_lookup _ _ Hc0) as Hfc.
  assert (fleb (last_time old) t = false) as Hl1.
  { apply fltb_not_fleb. eapply fltb_fleb_trans; [exact Htx|]. unfold last_time. rewrite last_lookup.
    destruct (lookup_lt_is_Some_2 (times old) (pred (length (times old)))) as [z Hz]; [lia|]. rewrite Hz. simpl.
    eapply (increasing_le (times old)); [done|done| |exact Hx|exact Hz]. lia. }
  unfold sample_at. destruct (fleb t (first_time old)) eqn:H0.
  - (* before the first knot *)
    destruct (lookup_lt_is_Some_2 (times old) 0%nat) as [z Hz]; [lia|]. rewrite (first_time_lookup _ _ Hz) in H0.
    assert (first = 0%nat) as E0.
    { destruct (decide (first = 0%nat)) as [|Hne]; [done|]. specialize (Hyt Hne).
      assert (fleb z y = true) as Hzy by (eapply (increasing_le (times old)); [done|done| |exact Hz|exact Hy]; lia).
      pose proof (fltb_not_fleb _ _ (fleb_fltb_trans _ _ _ Hzy Hyt)). congruence. }
    rewrite E0 in Hy, Hts, Hps, Hvs. assert (y = z) as -> by congruence. rewrite Hfc, H0. cbn iota. f_equal. unfold Motion.point, num_joints, ncols.
    rewrite (Hts 0%nat), (Hps 0%nat), Hcv, Hov, (Hvs 0%nat) by lia.
    assert (head (positions curve) = head (positions old)) as Eh by (rewrite !head_lookup; apply Hps; lia).
    simpl. destruct (positions curve), (positions old); by simplify_eq/=.
  - (* inside *)
    rewrite Hl1. destruct (segment_found old t Ok1 I1 F1 Hn H0 Hl1) as (tl & tu & Hs & Hk & Htl & Htu & H1 & H2).
    set (k := (searchsorted_right (times old) t - 1)%nat) in *.
    assert (first <= k)%nat as Hfk.
    { destruct (decide (first <= k)%nat) as [|Hne]; [done|]. specialize (Hyt ltac:(lia)).
      assert (fleb tu y = true) as Huy by (eapply (increasing_le (times old)); [done|done| |exact Htu|exact Hy]; lia).
      pose proof (fltb_not_fleb _ _ (fltb_trans _ _ _ (fltb_fleb_trans _ _ _ H2 Huy) Hyt)) as C.
      rewrite fleb_refl in C; done. }
    assert (k < last)%nat as Hkl.
    { destruct (decide (k < last)%nat) as [|Hne]; [done|].
      assert (fleb x tl = true) as Hxl by (eapply (increasing_le (times old)); [done|done| |exact Hx|exact Htl]; lia).
      pose proof (fleb_trans _ _ _ Hxl H1). pose proof (fltb_not_fleb _ _ Htx). congruence. }
    assert (times curve !! (k - first)%nat = Some tl) as Ctl by (rewrite Hts by lia; by replace (first + (k - first))%nat with k by lia).
    assert (times curve !! S (k - first) = Some tu) as Ctu
      by (rewrite Hts by lia; by replace (first + S (k - first))%nat with (S k) by lia).
    assert (fleb t (first_time curve) = false) as Hb.
    { rewrite Hfc. destruct (decide (first = 0%nat)) as [E|Hne]; [|by apply fltb_not_fleb, Hyt].
      rewrite E in Hy. by rewrite (first_time_lookup _ _ Hy) in H0. }
    assert (fleb (last_time curve) t = false) as Hl2.
    { apply fltb_not_fleb. eapply fltb_fleb_trans; [exact H2|]. unfold last_time. rewrite last_lookup.
      destruct (lookup_lt_is_Some_2 (times curve) (pred (length (times curve)))) as [z Hz].
      { pose proof (to_knots _ Ok2). lia. }
      rewrite Hz. simpl. apply lookup_lt_Some in Ctu as Hlen. eapply (increasing_le (times curve)); [done|done| |exact Ctu|exact Hz]. lia. }
    rewrite Hb, Hl2, (searchsorted_at _ _ _ _ _ I2 F2 Hn Ctl Ctu H1 H2), Hs.
    replace (S (k - first) - 1)%nat with (k - first)%nat by lia. replace (S k - 1)%nat with k by lia.
    rewrite Ctu, Ctl, Htu, Htl, Hcv, Hov. unfold row_pair.
    rewrite !Hps, !Hvs by lia. replace (first + (k - first))%nat with k by lia. by replace (first + S (k - first))%nat with (S k) by lia.
Qed.

Lemma forallb_slice {A} (f : A -> bool) l a b : forallb f l = true -> forallb f (slice a b l) = true.
Proof. rewrite !forallb_Forall. intros H. by apply Forall_take, Forall_drop. Qed.
Lemma forallb_drop {A} (f : A -> bool) l a : forallb f l = true -> forallb f (drop a l) = true.
Proof. rewrite !forallb_Forall. apply Forall_drop. Qed.

(** C35: a splice changes nothing of the reference in flight: at every time after
    the observed phase and before the cut the spliced curve and the selected
    one give the same point, bit for bit.  The cut is a knot of the selected
    curve behind its observed segment and at or after the protected prefix, and
    the suffix starts with that very knot, its time, its positions and its
    velocities equal to the selected curve's.  The result is a well-formed
    trajectory of at most 128 knots whose times, positions and velocities are
    the selected curve's from the observed segment to the cut, followed by the
    suffix's behind its first row. *)
Theorem splice_keeps_reference old suffix phase c prot curve :
  traj_ok old -> increasing (times old) -> all_finite (times old ++ times suffix) = true ->
  forallb valid (times old ++ times suffix) = true -> isnan phase = false ->
  splice_curve old suffix phase c prot = Ok curve ->
  (forall t, phase <f t = true -> t <f c = true -> sample_at curve t = sample_at old t) /\
  traj_ok curve /\ (length (times curve) <= MAX_KNOTS)%nat /\ c <f prot = false /\
  exists ov sv cv last, let first := (searchsorted_right (times old) phase - 1)%nat in
    (first < last)%nat /\ joined old suffix curve ov sv cv first last c.
Proof.
  intros Hok Hi Hf Hv Hp H. destruct (splice_joined _ _ _ _ _ _ H) as (ov & sv & cv & last & J & Hlt & Hc & Hlen & Hnew).
  pose proof (joined_spliced _ _ _ _ _ _ _ _ _ Hok J) as Hs. pose proof (jn_times _ _ _ _ _ _ _ _ _ J) as Ht.
  destruct (jn_cut _ _ _ _ _ _ _ _ _ J) as (x & Hx & Hxc).
  unfold all_finite in Hf. rewrite forallb_app in Hf, Hv. apply andb_true_iff in Hf as [F1 F2], Hv as [V1 V2].
  assert (all_finite (times curve) = true) as Fc.
  { unfold all_finite. rewrite Ht, forallb_app, forallb_slice, forallb_drop by done. done. }
  assert (forallb valid (times curve) = true) as Vc by (rewrite Ht, forallb_app, forallb_slice, forallb_drop; done).
  pose proof (JointTrajectory_new_ok _ _ _ _ Hnew) as Okc. pose proof (JointTrajectory_new_increasing _ _ _ _ Hnew Fc Vc) as Ic.
  split_and!; [|done..|by exists ov, sv, cv, last].
  intros t H1 H2. eapply spliced_samples; try done.
  eapply fltb_fleb_trans; [exact H2|]. by apply feqb_fleb in Hxc as [_ ?].
Qed.
End Splice.

Module SpliceDemo.
Definition half : float := Eval vm_compute in Prim2SF 0.5%float.
Definition old : JointTrajectory := {|
  times := [f0; f1; f2; f3]; positions := [[f0]; [f1]; [f2]; [f3]]; velocities := Some [[f0]; [f1]; [f1]; [f0]] |}.
Definition suffix : JointTrajectory := {|
  times := [f2; f4]; positions := [[f2]; [f0]]; velocities := Some [[f1]; [f0]] |}.
Definition curve : JointTrajectory := {|
  times := [f0; f1; f2; f4]; positions := [[f0]; [f1]; [f2]; [f0]]; velocities := Some [[f0]; [f1]; [f1]; [f0]] |}.
Lemma spliced_curve : splice_curve old suffix half f2 f0 = Ok curve.
Proof. vm_compute. reflexivity. Qed.
Lemma old_new : JointTrajectory_new (times old) (positions old) (velocities old) = Ok old.
Proof. vm_compute. reflexivity. Qed.
Lemma old_increasing : increasing (times old).
Proof. by apply (JointTrajectory_new_increasing _ _ _ _ old_new). Qed.
Lemma splice_keeps_reference_witness : sample_at curve f1 = sample_at old f1 /\
  exists ov sv cv last, (0 < last)%nat /\ joined old suffix curve ov sv cv 0 last f2.
Proof.
  assert (H := splice_keeps_reference old suffix half f2 f0 curve (JointTrajectory_new_ok _ _ _ _ old_new) old_increasing
    ltac:(vm_compute; reflexivity) ltac:(vm_compute; reflexivity) ltac:(reflexivity) spliced_curve).
  split; [apply (proj1 H); vm_compute; reflexivity|].
  exact (proj2 (proj2 (proj2 (proj2 H)))).
Defined.
End SpliceDemo.
