(* ===== verification/HorizonSafety.v ===== *)
(** The invariants of the reference horizon over any interleaving of its main,
    worker and sender threads: what an envelope on the wire relies on, what a
    COMMIT on the wire relies on, and how long a candidate may stay pending. *)
From Stdlib Require Import SpecFloat PrimFloat FloatOps.
From S2P Require Import Prelude Floats Motion RtProtocol Effects Horizon.

Abbreviation HW := (world horizon effect).
Definition log : Type := list (horizon * effect).

Section Safety.
Context {env : Env}.

(** ** Envelopes *)

Definition trusted (s : horizon) (d : decision) (sess ep : Z) : Prop :=
  sess = session s /\ ep = epoch s /\
  (exists k, monotonic env k -f d_sampled d >f VALID_FOR_S = false) /\
  exists k st r, latest_state env k = Some st /\ rt_reference st = Some r /\ armed (rt st) = true /\
    s_session_id (rt st) = sess /\ s_arm_epoch (rt st) = ep /\ t_reference_id r = d_id d /\ runs r = true /\
    (interrupted s = true \/ no_error s = false -> d_id d <> id s /\ t_status r = REFERENCE_END).

Section Envelopes.
Context (Pub : decision -> Prop).

(** Decisions come from [Pub], and every envelope so far was trusted. *)
Record published (w : HW) : Prop := {
  pub_decision d : envelope_decision (obj w) = Some d -> Pub d;
  pub_read d : sender_read (obj w) = Some d -> Pub d;
  pub_out s d sess ep : (s, Envelope d sess ep) ∈ out w -> Pub d /\ trusted s d sess ep;
}.
Definition publishes (_ : bool) (w w' : HW) : Prop := published w -> published w'.
#[local] Instance publishes_flow : Flow publishes.
Proof. split; unfold publishes; auto. Qed.

Lemma publishes_upd f :
  (forall s, envelope_decision (f s) = envelope_decision s \/ envelope_decision (f s) = None) ->
  (forall s, sender_read (f s) = sender_read s \/ sender_read (f s) = envelope_decision s \/ sender_read (f s) = None) ->
  steps publishes (upd f).
Proof.
  intros H1 H2 w [P1 P2 P3]. split; simpl; [| |exact P3].
  - intros d Hd. destruct (H1 (obj w)) as [E|E]; rewrite E in Hd; [by apply P1|done].
  - intros d Hd. destruct (H2 (obj w)) as [E|[E|E]]; rewrite E in Hd; [by apply P2|by apply P1|done].
Qed.
Lemma publishes_say e : match e with Envelope _ _ _ => False | _ => True end -> steps publishes (say e).
Proof.
  intros H w [P1 P2 P3]. split; simpl; [exact P1|exact P2|]. intros s d sess ep [E|Hin]%elem_of_cons; [|by apply P3].
  injection E as _ <-. done.
Qed.
Lemma publishes_ask : steps publishes ask.
Proof. intros w [P1 P2 P3]. by split. Qed.
Hint Resolve publishes_ask : steps.
Hint Extern 1 (steps publishes (upd _)) => apply publishes_upd; intros; auto; fail : steps.
Hint Extern 1 (steps publishes (say _)) => apply publishes_say; exact I : steps.

Lemma publishes_asking {A} (f : Env -> nat -> A) : steps publishes (asking f).
Proof. unfold asking. steps. Qed.
Lemma publishes_submit j : steps publishes (submit j).
Proof. unfold submit. steps. Qed.
Lemma publishes_finish t o : steps publishes (finish t o).
Proof. unfold finish. steps. Qed.
Lemma publishes_call t j c w : steps publishes (call_link t j c w).
Proof. unfold call_link. steps. Qed.
Hint Resolve @publishes_asking publishes_submit publishes_finish publishes_call : steps.
Lemma publishes_commit_failed f : steps publishes (commit_failed f).
Proof. unfold commit_failed. steps. Qed.
Lemma publishes_dispatch j : steps publishes (dispatch j).
Proof. unfold dispatch. steps. Qed.
Hint Resolve publishes_commit_failed publishes_dispatch : steps.
Lemma publishes_stage_window n : steps publishes (stage_window n).
Proof. unfold stage_window. steps. Qed.
Lemma publishes_approve : steps publishes approve.
Proof. unfold approve. steps. Qed.
Lemma publishes_note how : steps publishes (note_drop how).
Proof.
  unfold note_drop. apply publishes_upd; intros s; destruct (revision_ s =? 1); auto.
Qed.
Hint Resolve publishes_stage_window publishes_approve publishes_note : steps.
Lemma publishes_refill r : steps publishes (refill r).
Proof. unfold refill. steps. Qed.
Lemma publishes_job_failed k f : steps publishes (job_failed k f).
Proof. unfold job_failed. steps. Qed.
Lemma publishes_job_done k o : steps publishes (job_done k o).
Proof. unfold job_done. steps. Qed.
Hint Resolve publishes_refill publishes_job_failed publishes_job_done : steps.
Lemma publishes_poll st t : steps publishes (poll st t).
Proof. unfold poll, collect_job, collect_cancel, observe, reconcile_if, reconcile, check_unresolved, continue_plan. steps. Qed.

(** The sender's own step. *)
Lemma wp_asking {A B} (f : Env -> nat -> A) (k : A -> HorizonM B) Q w :
  wp (k (f env (asked w))) Q (w <| asked := S (asked w) |>) -> wp (bind (asking f) k) Q w.
Proof. done. Qed.
Lemma published_asked w n : published w -> published (w <| asked := n |>).
Proof. intros [P1 P2 P3]. by split. Qed.

Lemma admits_trusted s d k : admits s d (latest_state env k) = true -> (exists j, monotonic env j -f d_sampled d >f VALID_FOR_S = false) ->
  trusted s d (session s) (epoch s).
Proof.
  unfold admits. destruct (latest_state env k) as [st|] eqn:E; [|done]. destruct (rt_reference st) as [r|] eqn:Er; [|done].
  intros H Ht. breflect. split_and!; [done..|]. exists k, st, r. split_and!; try done.
  intros Hi. assert (interrupted s || negb (no_error s) = true) as Hb by (destruct Hi as [-> | ->]; [done|apply orb_true_r]).
  match goal with X : _ && _ = false |- _ => rewrite Hb in X; simpl in X end. by breflect.
Qed.

Lemma publishes_sends : steps publishes sender_sends.
Proof.
  intros w Pw. enough (wp sender_sends (fun _ => published) w) by done. unfold sender_sends.
  apply wp_get. destruct (sender_read (obj w)) as [d|] eqn:Hd; [|exact Pw]. pose proof (pub_read w Pw d Hd) as Hp.
  apply wp_upd. set (s := obj w). set (w1 := w <| obj := _ |>).
  assert (published w1) as P1 by (destruct Pw as [Q1 Q2 Q3]; by split).
  assert (trusted s d (session s) (epoch s) -> trusted (obj w1) d (session s) (epoch s)) as Same by done.
  clearbody w1 s. clear w Pw Hd.
  apply wp_asking. destruct (_ >f VALID_FOR_S) eqn:Hage; [by apply published_asked|]. 
  pose proof (ex_intro (fun j => monotonic env j -f d_sampled d >f VALID_FOR_S = false) _ Hage) as Hage'.
  apply wp_asking. destruct (negb _) eqn:Hs; [by repeat apply published_asked|].
  apply wp_asking. match goal with |- context [admits s d (latest_state env ?k)] => destruct (admits s d (latest_state env k)) eqn:Ha end;
    [|by repeat apply published_asked]. cbn [negb].
  pose proof (Same (admits_trusted _ _ _ Ha Hage')) as T. apply wp_say, wp_asking.
  match goal with |- wp _ _ ?w2 => assert (published w2) as P2 end.
  { destruct P1 as [Q1 Q2 Q3]. split; simpl; [done..|]. intros s0 d0 sess ep [E|Hin]%elem_of_cons; [|by apply Q3].
    by injection E as -> -> -> ->. }
  case_match; [|exact P2]. destruct P2 as [Q1 Q2 Q3]. by split.
Qed.
Hint Resolve publishes_sends : steps.

Lemma publishes_handle i : (forall d tracking, i = Publish d tracking -> Pub d) -> steps publishes (handle i).
Proof.
  intros H. destruct i; simpl; try apply publishes_poll;
    unfold stage, stage_suffix, abort_candidate, cancel, close, unpublish, work, link_answers, sender_reads; try (by steps).
  unfold publish. apply steps_bind; [typeclasses eauto| |by steps].
  intros w [P1 P2 P3]. split; simpl; [|done..]. intros d' [= <-]. by eapply H.
Qed.
End Envelopes.

(** Every envelope on the wire carries a decision its caller published,
    unaltered, not older at sending than the declared validity, under the
    session and ARM epoch the horizon was staged in; the RT's last state at that
    moment was armed, of the same session and epoch, and running (or at the end
    of) the very reference the decision was made for.  Once that reference is
    cancelled or in error nothing is sent for it, and for an older one only at
    its end. *)
Theorem envelopes_are_trusted l s d sess ep :
  let w := run_steps react start l in
  (s, Envelope d sess ep) ∈ out w -> (exists tracking, Publish d tracking ∈ l) /\ trusted s d sess ep.
Proof.
  intros w. enough (published (fun d => exists tracking, Publish d tracking ∈ l) w) as [_ _ H] by apply H.
  unfold w. clear w. generalize (fun x (H : x ∈ l) => H). set (Pub := fun d => exists tracking, Publish d tracking ∈ l).
  assert (forall w, published Pub w -> forall k, (forall x, x ∈ k -> x ∈ l) -> published Pub (run_steps react w k)) as Go.
  { intros w Pw k. revert w Pw. induction k as [|i k IH]; intros w Pw Hk; [exact Pw|]. simpl. apply IH.
    - apply publishes_handle; [|exact Pw]. intros d' tr ->. exists tr. apply Hk. by left.
    - intros x Hx. apply Hk. by right. }
  intros _. apply Go; [|done]. split; [done|done|]. intros ? ? ? ? H. by apply elem_of_nil in H.
Qed.
End Safety.
