(* ===== verification/HorizonCommits.v ===== *)
(** What stands behind every COMMIT on the wire, of one reference or of a group's:
    an upload of that very revision acknowledged by the link before, and a job
    that was not cancelled. *)
From Stdlib Require Import SpecFloat PrimFloat FloatOps.
From S2P Require Import Prelude Floats Motion RtProtocol Effects Horizon HorizonSafety.

Section Commits.
Context {env : Env}.

(** The link acknowledged [upload] as revision [rev] of reference [i]. *)
Definition acked (l : log) (i rev up sess ep : Z) : Prop :=
  exists s win ex term, (s, Answered (LUpload win i rev ex term sess ep) (Uploaded up)) ∈ l.
(** An upload of the revision the horizon is staging. *)
Definition current (s : horizon) (u : upload_job) : Prop :=
  uj_id u = id s /\ uj_revision u = revision_ s /\ uj_session u = session s /\ uj_epoch u = epoch s.
Definition backed (s : horizon) (l : log) (j : commit_job) : Prop :=
  acked l (cj_id j) (cj_revision j) (cj_upload j) (cj_session j) (cj_epoch j) /\
  (cj_id j <= id s) /\ (cj_id j = id s -> (cj_event j, cj_session j, cj_epoch j) = (interrupt s, session s, epoch s)).

(** The commit job whose call is on its way: its own cancel event is not set, the
    link acknowledged its upload before, and, while its reference is the current
    one, the reference is not cancelled and its session and ARM epoch are the
    job's. *)
Definition clear (s : horizon) (before : log) (c : call) (cj : commit_job) : Prop :=
  (exists t, under_way s = Some (t, Commit cj, c, OnCall)) /\ is_set s (cj_event cj) = false /\
  acked before (cj_id cj) (cj_revision cj) (cj_upload cj) (cj_session cj) (cj_epoch cj) /\
  (cj_id cj = id s -> interrupted s = false /\ cj_session cj = session s /\ cj_epoch cj = epoch s).
(** The call says what the job captured. *)
Definition says (c : call) (cj : commit_job) : Prop :=
  match c, cj_group cj with
  | LCommit up i rev ex keep _ sess ep _, None =>
      up = cj_upload cj /\ i = cj_id cj /\ rev = cj_revision cj /\ ex = rev - 1 /\ keep = cj_cut cj /\ sess = cj_session cj /\ ep = cj_epoch cj
  | LGroupCommit up i g m b, Some x => up = cj_upload cj /\ i = cj_id cj /\ x = (g, m, b)
  | _, _ => False
  end.
Definition is_commit (c : call) : bool := match c with LCommit _ _ _ _ _ _ _ _ _ | LGroupCommit _ _ _ _ _ => true | _ => false end.

Definition log_entry (x : horizon * effect) (before : log) : Prop :=
  match x with
  | (s, Called c) => is_commit c = true -> exists cj, clear s before c cj /\ says c cj
  | _ => True
  end.
Fixpoint log_ok (l : log) : Prop := match l with [] => True | x :: l => log_entry x l /\ log_ok l end.

Record commits_ok (s : horizon) (l : log) : Prop := {
  co_log : log_ok l;
  co_id : id s = next_id s;
  co_fresh : Forall (fun x => (x.1 < next_ticket s)%nat) (worker s) /\
             Forall (fun x => (x.1 < next_ticket s)%nat) (finished s) /\
             match under_way s with Some (t, _, _, _) => (t < next_ticket s)%nat | None => True end;
  co_job k t : job_ s = Some (k, t) -> (t < next_ticket s)%nat;
  co_ready : stage_ready s = true -> acked l (id s) (revision_ s) (upload s) (session s) (epoch s);
  co_worker t : job_ s = Some (KStage, t) -> forall j, (t, j) ∈ worker s -> exists u, j = Upload u /\ current s u;
  co_call t : job_ s = Some (KStage, t) -> forall j c wt, under_way s = Some (t, j, c, wt) -> exists u, j = Upload u /\ current s u;
  co_done t : job_ s = Some (KStage, t) -> forall up, (t, Uploaded up) ∈ finished s -> acked l (id s) (revision_ s) up (session s) (epoch s);
  co_upload t j c wt : under_way s = Some (t, j, c, wt) -> match j with Upload u => exists b, c = upload_call b u | _ => True end;
  co_commit t j : (t, Commit j) ∈ worker s -> backed s l j;
}.
Definition CI (w : HW) : Prop := commits_ok (obj w) (out w).
Definition commits (_ : bool) (w w' : HW) : Prop := CI w -> CI w'.
#[local] Instance commits_flow : Flow commits.
Proof. split; unfold commits; auto. Qed.

(** An assignment that only forgets what was staged. *)
Definition base (s : horizon) :=
  (worker s, under_way s, finished s, next_ticket s, (interrupt s, next_id s, id s), (revision_ s, session s, epoch s)).
Definition forgets (s s' : horizon) : Prop :=
  base s' = base s /\ (stage_ready s' = true -> stage_ready s = true /\ upload s' = upload s) /\
  match job_ s' with
  | None => True
  | Some (KStage, t) => job_ s = Some (KStage, t)
  | Some (_, t) => (t < next_ticket s)%nat
  end.
Lemma CI_forgets s s' l : forgets s s' -> commits_ok s l -> commits_ok s' l.
Proof.
  intros ([= E1 E2 E3 E4 E5 E6 E7 E8 E9 E10] & Hr & Hj) [H1 H2 H3 HJ H4 H5 H6 H7 H8 H9]. unfold current, backed in *.
  assert (forall t, job_ s' = Some (KStage, t) -> job_ s = Some (KStage, t)) as Hk by (intros t Ht; by rewrite Ht in Hj).
  split; unfold current, backed; rewrite ?E1, ?E2, ?E3, ?E4, ?E5, ?E6, ?E7, ?E8, ?E9, ?E10; eauto.
  - intros k t Ht. rewrite Ht in Hj. destruct k; [by apply (HJ KStage)|done..].
  - intros Hs. destruct (Hr Hs) as [Hs' ->]. auto.
Qed.
Lemma commits_upd f :
  (forall s, base (f s) = base s /\ (stage_ready (f s) = true -> stage_ready s = true /\ upload (f s) = upload s) /\
             (job_ (f s) = job_ s \/ job_ (f s) = None)) -> steps commits (upd f).
Proof.
  intros H w Hw. destruct (H (obj w)) as (H1 & H2 & H3). eapply CI_forgets; [|exact Hw]. split; [done|]. split; [done|]. simpl.
  destruct H3 as [-> | ->]; [|done]. destruct (job_ (obj w)) as [[k t]|] eqn:E; [|done].
  pose proof (co_job _ _ Hw k t E). by destruct k.
Qed.
Lemma commits_ask : steps commits ask.
Proof. intros w H. exact H. Qed.

(** More can be said, but nothing is unsaid. *)
Lemma acked_more x l i rev up sess ep : acked l i rev up sess ep -> acked (x :: l) i rev up sess ep.
Proof. intros (s & win & ex & term & H). exists s, win, ex, term. by right. Qed.
Lemma CI_say x s l : log_entry x l -> commits_ok s l -> commits_ok s (x :: l).
Proof.
  intros Hx [H1 H2 H3 HJ H4 H5 H6 H7 H8 H9]. split; try done.
  - intros H. by apply acked_more, H4.
  - intros t Ht up Hin. apply acked_more. by eapply H7.
  - intros t j Hin. destruct (H9 t j Hin) as [Ha Hb]. split; [by apply acked_more|done].
Qed.
Lemma commits_say e : (forall s l, log_entry (s, e) l) -> steps commits (say e).
Proof. intros H w Hw. by apply CI_say. Qed.
Hint Resolve commits_ask : steps.
Hint Extern 1 (steps commits (upd _)) => apply commits_upd; intros; split_and!; [reflexivity|first [done|by auto]|by auto] : steps.
Hint Extern 1 (steps commits (say _)) => apply commits_say; intros; exact I : steps.

Lemma commits_asking {A} (f : Env -> nat -> A) : steps commits (asking f).
Proof. unfold asking. steps. Qed.
Hint Resolve @commits_asking : steps.

(** *** Submitting *)

Lemma elem_of_snoc {A} (x y : A) l : x ∈ l ++ [y] -> x ∈ l \/ x = y.
Proof. rewrite elem_of_app, list_elem_of_singleton. done. Qed.

(** What a job must bring. *)
Definition submittable (w : HW) (j : job) : Prop :=
  match j with Commit cj => backed (obj w) (out w) cj | _ => True end.
Lemma submit_ok j w t w' : submit j w = (Ok t, w') -> CI w -> submittable w j ->
  CI w' /\ t = next_ticket (obj w) /\
  obj w' = (obj w) <| worker := worker (obj w) ++ [(t, j)] |> <| next_ticket := S t |> /\ out w' = out w.
Proof.
  unfold submit, bind, get, upd, ret, throw. destruct (shut (obj w)); [done|]. intros [= <- <-] [H1 H2 [F1 [F2 F3]] HJ H4 H5 H6 H7 H8 H9] Hj.
  split; [|done]. split; simpl; try done.
  - split_and!.
    + apply Forall_app. split; [|by constructor; simpl; [lia|]]. eapply Forall_impl; [exact F1|]. simpl. lia.
    + eapply Forall_impl; [exact F2|]. simpl. lia.
    + destruct (under_way (obj w)) as [[[[]]]|]; [lia|done].
  - intros k t Ht. specialize (HJ k t Ht). lia.
  - intros t Ht j' [Hin|E]%elem_of_snoc; [by eapply H5|]. injection E as -> ->. specialize (HJ _ _ Ht). lia.
  - intros t j' [Hin|E]%elem_of_snoc; [by eapply H9|]. by injection E as -> <-.
Qed.

Lemma submit_steps (j : job) : match j with Commit _ => False | _ => True end -> steps commits (submit j).
Proof.
  intros Hj w Hw. destruct (submit j w) as [[t|e] w'] eqn:E.
  - destruct (submit_ok _ _ _ _ E Hw) as [H _]; [by destruct j|exact H].
  - unfold submit, bind, get, throw, upd, ret in E. destruct (shut (obj w)); simplify_eq/=; done.
Qed.

Hint Extern 1 (steps commits (submit _)) => apply submit_steps; exact I : steps.

(** [self._job = ("stage", submit(upload))] from an idle horizon. *)
Lemma submit_stage u w : CI w -> job_ (obj w) = None -> current (obj w) u ->
  wp (bind (submit (Upload u)) (fun t => upd (fun s => s <| job_ := Some (KStage, t) |>))) (fun _ => CI) w.
Proof.
  intros Hw Hi Hc. apply wp_bind. unfold wp. destruct (submit _ w) as [[t|ex] w'] eqn:E; simpl.
  2: { pose proof (submit_steps (Upload u) I w Hw) as K. by rewrite E in K. }
  destruct (submit_ok _ _ _ _ E Hw I) as (Hw' & -> & Ho & Hout). destruct Hw as [_ _ (F1 & F2 & F3) _ _ _ _ _ _ _].
  destruct Hw' as [H1 H2 H3 HJ H4 H5 H6 H7 H8 H9]. rewrite Ho in *. simpl in *.
  split; simpl; try done.
  - intros k t [= _ <-]. lia.
  - intros t [= <-] j [Hin|Eq]%elem_of_snoc.
    + rewrite Forall_forall in F1. specialize (F1 _ Hin). simpl in F1. lia.
    + injection Eq as ->. by exists u.
  - intros t [= <-] j c' wt Hu. rewrite Hu in F3. lia.
  - intros t [= <-] up Hin. rewrite Forall_forall in F2. specialize (F2 _ Hin). simpl in F2. lia.
Qed.

(** [self._job = (kind, submit(job))] for another kind. *)
Lemma submit_other k j w : CI w -> submittable w j -> k <> KStage ->
  wp (bind (submit j) (fun t => upd (fun s => s <| job_ := Some (k, t) |>))) (fun _ => CI) w.
Proof.
  intros Hw Hj Hk. apply wp_bind. unfold wp. destruct (submit _ w) as [[t|ex] w'] eqn:E; simpl.
  2: { unfold submit, bind, get, throw, upd, ret in E. destruct (shut (obj w)); by simplify_eq/=. }
  destruct (submit_ok _ _ _ _ E Hw Hj) as (Hw' & -> & Ho & Hout).
  eapply CI_forgets; [|exact Hw']. split; [done|]. split; [done|]. simpl. rewrite Ho. simpl. destruct k; [done|lia..].
Qed.

(** *** Staging *)

Definition idle (s : horizon) : Prop := job_ s = None /\ stage_ready s = false.
(** From idle to idle the identity may change. *)
Lemma CI_idle s s' l : idle s -> idle s' ->
  (worker s', under_way s', finished s', next_ticket s') = (worker s, under_way s, finished s, next_ticket s) ->
  id s' = next_id s' -> (forall t j, (t, Commit j) ∈ worker s -> cj_id j <= id s' /\ (cj_id j = id s' -> (cj_event j, cj_session j, cj_epoch j) = (interrupt s', session s', epoch s'))) ->
  commits_ok s l -> commits_ok s' l.
Proof.
  intros [I1 I2] [J1 J2] [= E1 E2 E3 E4] Hid Hc [H1 H2 H3 HJ H4 H5 H6 H7 H8 H9].
  split; rewrite ?E1, ?E2, ?E3, ?E4; try congruence; [done..|].
  intros t j Hin. destruct (H9 t j Hin) as [Ha _]. split; [exact Ha|by eapply Hc].
Qed.

Lemma stage_window_ok n w : CI w -> idle (obj w) -> wp (stage_window n) (fun _ => CI) w.
Proof.
  intros Hw Hi. unfold stage_window. apply wp_get, (wp_steps commits); [steps| |by auto].
  intros tr w1 E1 _. assert (w1 = w) as -> by (unfold some_or in E1; destruct (trajectory _); by injection E1).
  apply (wp_steps commits); [steps| |by auto]. intros c w1 E2 _.
  assert (w1 = w) as -> by (destruct (_ =? 0); unfold some_or, ret in E2; [|destruct (_ !! _)]; by injection E2).
  apply wp_lift; [|by auto]. intros win _. apply wp_upd.
  match goal with |- wp _ _ ?w1 => assert (CI w1) as H1 end.
  { eapply (CI_idle (obj w)); [exact Hi|by destruct Hi|done| |  |exact Hw]; simpl.
    - apply Hw.
    - intros t j Hin. apply (co_commit _ _ Hw t j Hin). }
  apply submit_stage; [exact H1|by destruct Hi|]. done.
Qed.

Lemma not_busy s : busy s = false -> idle s /\ cancel_job s = None.
Proof.
  unfold busy, idle, is_some. intros H. breflect. split; [|by destruct (cancel_job s)]. split; [by destruct (job_ s)|done].
Qed.

(** While a reference is being staged its number is newer than every job's. *)
Definition renewed (w : HW) : Prop :=
  CI w /\ idle (obj w) /\ forall t j, (t, Commit j) ∈ worker (obj w) -> cj_id j < id (obj w).
Definition renewing (_ : bool) (w w' : HW) : Prop := renewed w -> renewed w'.
#[local] Instance renewing_flow : Flow renewing.
Proof. split; unfold renewing; auto. Qed.
Lemma renewing_upd f :
  (forall s, (worker (f s), under_way (f s), finished (f s), next_ticket (f s), id (f s), next_id (f s), job_ (f s), stage_ready (f s))
     = (worker s, under_way s, finished s, next_ticket s, id s, next_id s, job_ s, stage_ready s)) -> steps renewing (upd f).
Proof.
  intros H w (Hw & Hi & Hf). specialize (H (obj w)). injection H as E1 E2 E3 E4 E5 E6 E7 E8.
  assert (idle (f (obj w))) as Hi' by (destruct Hi; split; congruence).
  split; [|split; [exact Hi'|]]; simpl.
  - eapply CI_idle; [exact Hi|exact Hi'|simpl; congruence| | |exact Hw]; simpl.
    + rewrite E5, E6. apply Hw.
    + intros t j Hin. specialize (Hf t j Hin). rewrite E5. lia.
  - rewrite E1, E5. exact Hf.
Qed.
Lemma renewing_ask : steps renewing ask.
Proof. by intros w H. Qed.
Hint Resolve renewing_ask : steps.
Hint Extern 1 (steps renewing (upd _)) => apply renewing_upd; intros; reflexivity : steps.
Lemma renewing_asking {A} (f : Env -> nat -> A) : steps renewing (asking f).
Proof. unfold asking. steps. Qed.
Hint Resolve @renewing_asking : steps.

Lemma stage_ok k tr d strm term : steps commits (stage k tr d strm term).
Proof.
  intros w Hw. enough (wp (stage k tr d strm term) (fun _ => CI) w) by done. unfold stage. apply wp_get.
  destruct (busy (obj w)) eqn:Hb; [exact Hw|]. apply not_busy in Hb as [Hi _].
  apply (wp_steps commits); [steps| |by auto]. intros t0 w1 E _.
  assert (w1 = w) as -> by (unfold some_or in E; destruct (head _); by injection E).
  destruct (_ || _); [exact Hw|]. apply wp_upd.
  match goal with |- wp _ _ ?w1 => assert (renewed w1) as H1 end.
  { split; [|split; [by destruct Hi|]]; simpl.
    - eapply (CI_idle (obj w)); [exact Hi|by destruct Hi|done|done| |exact Hw]. simpl.
      intros t j Hin. destruct (co_commit _ _ Hw t j Hin) as (_ & H & _). rewrite (co_id _ _ Hw) in H. lia.
    - intros t j Hin. destruct (co_commit _ _ Hw t j Hin) as (_ & H & _). rewrite (co_id _ _ Hw) in H. lia. }
  match goal with |- wp _ _ ?w1 => generalize dependent w1 end. clear w Hw Hi E. intros w H1.
  apply (wp_steps renewing); [steps| |intros e w' K; by apply K]. intros copy w2 _ K2.
  apply (wp_steps renewing); [steps| |intros e w' K; by apply K, K2]. intros _ w3 _ K3.
  apply (wp_steps renewing); [steps| |intros e w' K; by apply K, K3, K2]. intros sess w4 _ K4.
  apply (wp_steps renewing); [steps| |intros e w' K; by apply K, K4, K3, K2]. intros _ w5 _ K5.
  apply (wp_steps renewing); [steps| |intros e w' K; by apply K, K5, K4, K3, K2]. intros ep w6 _ K6.
  apply (wp_steps renewing); [steps| |intros e w' K; by apply K, K6, K5, K4, K3, K2]. intros _ w7 _ K7.
  destruct (K7 (K6 (K5 (K4 (K3 (K2 H1)))))) as (C7 & I7 & _).
  apply wp_bind. eapply wp_mono; [|by apply stage_window_ok]. intros [u|e] w8 C8; exact C8.
Qed.

Lemma stage_suffix_ok c tc ex term lat d : steps commits (stage_suffix c tc ex term lat d).
Proof.
  intros w Hw. enough (wp (stage_suffix c tc ex term lat d) (fun _ => CI) w) by done. unfold stage_suffix. apply wp_get.
  destruct (_ || _ || _ || _) eqn:Hb; [exact Hw|]. breflect.
  match goal with H : busy _ = false |- _ => apply not_busy in H as [Hi _] end.
  destruct (negb _); [exact Hw|]. apply wp_upd.
  match goal with |- wp _ _ ?w1 => assert (CI w1) as C1 end.
  { eapply (CI_idle (obj w)); [exact Hi|by destruct Hi|done|apply Hw| |exact Hw]. intros t j Hin. apply (co_commit _ _ Hw t j Hin). }
  apply submit_stage; [exact C1|by destruct Hi|]. by repeat eexists.
Qed.

Lemma approve_ok : steps commits approve.
Proof.
  intros w Hw. enough (wp approve (fun _ => CI) w) by done. unfold approve. apply wp_get.
  destruct (negb (ready (obj w))) eqn:Hr; [exact Hw|]. unfold ready in Hr. breflect.
  match goal with H : stage_ready _ = true |- _ => pose proof (co_ready _ _ Hw H) as Hack end.
  apply wp_upd. apply wp_asking, wp_upd.
  match goal with |- wp _ _ ?w1 => assert (CI w1) as C1 end.
  { eapply CI_forgets; [|exact Hw]. split; [done|]. split; [done|]. simpl.
    destruct (job_ (obj w)) as [[k t]|] eqn:E; [|done]. pose proof (co_job _ _ Hw k t E). by destruct k. }
  apply submit_other; [exact C1| |done]. split; [exact Hack|]. simpl. by split.
Qed.
Hint Resolve approve_ok : steps.

Lemma abort_ok : steps commits abort_candidate.
Proof.
  intros w Hw. enough (wp abort_candidate (fun _ => CI) w) by done. unfold abort_candidate. apply wp_get.
  destruct (bool_decide _); [exact Hw|]. apply wp_say.
  match goal with |- wp _ _ ?w1 => assert (CI w1) as C1 by (by apply CI_say) end.
  apply wp_bind. unfold wp. destruct (submit _ _) as [[t|e] w2] eqn:E; simpl.
  2: { pose proof (submit_steps (Abort (session (obj w)) (epoch (obj w))) I _ C1) as K. by rewrite E in K. }
  destruct (submit_ok _ _ _ _ E C1 I) as (H2 & -> & Ho & _).
  eapply CI_forgets; [|exact H2]. split; [done|]. split; [done|]. simpl. rewrite Ho. simpl. lia.
Qed.

Lemma cancel_ok : steps commits cancel.
Proof.
  unfold cancel. steps.
Qed.

Lemma close_ok : steps commits close.
Proof.
  unfold close. steps. intros w [H1 H2 (F1 & F2 & F3) HJ H4 H5 H6 H7 H8 H9]. split; simpl; try done.
  - split_and!; [done| |exact F3]. apply Forall_app. split; [|exact F2]. by apply Forall_map.
  - intros t Ht j Hin. by apply elem_of_nil in Hin.
  - intros t Ht up [Hin|Hin]%elem_of_app; [|by eapply H7]. by apply list_elem_of_fmap in Hin as (x & Hx & _).
  - intros t j Hin. by apply elem_of_nil in Hin.
Qed.

(** *** The worker *)

Lemma dispatch_asks cj w r w' : dispatch cj w = (r, w') -> obj w' = obj w /\ out w' = out w /\
  match r with
  | Ok (inr c) => is_set (obj w) (cj_event cj) = false /\ says c cj
  | Err _ => False
  | Ok (inl _) => True
  end.
Proof.
  unfold dispatch, asking, bind, get, ask, ret, says. destruct (is_set (obj w) (cj_event cj)) eqn:He; [by intros [= <- <-]|].
  destruct (cj_deadline cj) as [dl|]; destruct (cj_group cj) as [[[g m] b]|]; destruct (cj_observed cj); simpl;
    repeat case_match; intros [= <- <-]; simplify_eq; split_and!; try done.
Qed.

(** Taking a job and answering it: what the worker holds stays backed. *)
Lemma CI_popped w t j rest : CI w -> under_way (obj w) = None -> worker (obj w) = (t, j) :: rest ->
  CI (w <| obj := (obj w) <| worker := rest |> |>).
Proof.
  intros [H1 H2 (F1 & F2 & F3) HJ H4 H5 H6 H7 H8 H9] Hu Hw. rewrite Hw in *. split; simpl; try done.
  - split_and!; [by apply Forall_cons in F1 as [_ ?]|done|done].
  - intros t' Ht j' Hin. eapply H5; [done|]. by right.
  - intros t' j' Hin. apply (H9 t'). by right.
Qed.

Lemma finish_ok t o w : CI w -> (t < next_ticket (obj w))%nat ->
  (forall u, o = Uploaded u -> job_ (obj w) = Some (KStage, t) ->
     acked (out w) (id (obj w)) (revision_ (obj w)) u (session (obj w)) (epoch (obj w))) ->
  CI (finish t o w).2.
Proof.
  intros [H1 H2 (F1 & F2 & F3) HJ H4 H5 H6 H7 H8 H9] Ht Hu. split; simpl; try done.
  - split_and!; [done|by constructor|done].
  - intros t' Ht' up [E|Hin]%elem_of_cons; [|by eapply H7]. injection E as -> <-. by apply Hu.
Qed.
Lemma call_link_ok t j c wt w : CI w -> (t < next_ticket (obj w))%nat ->
  (job_ (obj w) = Some (KStage, t) -> exists u, j = Upload u /\ current (obj w) u) ->
  match j with Upload u => exists b, c = upload_call b u | _ => True end ->
  log_entry ((obj w) <| under_way := Some (t, j, c, wt) |>, Called c) (out w) ->
  CI (call_link t j c wt w).2.
Proof.
  intros [H1 H2 (F1 & F2 & F3) HJ H4 H5 H6 H7 H8 H9] Ht Hj Hc Hlog. apply CI_say; [exact Hlog|]. split; simpl; try done.
  - intros t' Ht' j' c' wt' E. injection E as -> <- <- <-. by apply Hj.
  - intros t' j' c' wt' E. by injection E as _ <- <- _.
Qed.

Lemma commit_failed_steps f : steps (kept (O:=effect) (fun s => (base s, job_ s, upload s, stage_ready s))) (commit_failed f).
Proof. unfold commit_failed. steps. Qed.

Lemma commit_failed_returns f w : exists w', commit_failed f w = (Ok (Failed f), w') /\ (CI w -> CI w') /\ obj w' = (obj w) <| commit_undispatched := commit_undispatched (obj w') |>.
Proof.
  assert (obj w = (obj w) <| commit_undispatched := commit_undispatched (obj w) |>) as E by (by destruct w as [[]]).
  unfold commit_failed. destruct f; eexists; (split; [reflexivity|]); (split; [|first [exact E|reflexivity]]); try done.
  apply (commits_upd (fun s => s <| commit_undispatched := true |>)). intros s. split_and!; [done|done|by left].
Qed.

Lemma work_ok : steps commits work.
Proof.
  intros w Hw. enough (wp work (fun _ => CI) w) by done. unfold work. apply wp_get.
  destruct (under_way (obj w)) as [u|] eqn:Hu; [by destruct u|]. destruct (worker (obj w)) as [|[t j] rest] eqn:Hk; [exact Hw|].
  apply wp_upd. pose proof (CI_popped _ _ _ _ Hw Hu Hk) as H1.
  assert (t < next_ticket (obj w))%nat as Ht.
  { pose proof (proj1 (co_fresh _ _ Hw)) as F. rewrite Hk in F. by apply Forall_cons in F as [? _]. }
  assert (job_ (obj w) = Some (KStage, t) -> exists u, j = Upload u /\ current (obj w) u) as Hj.
  { intros E. apply (co_worker _ _ Hw t E). rewrite Hk. by left. }
  assert (match j with Commit cj => backed (obj w) (out w) cj | _ => True end) as Hb.
  { destruct j; try done. apply (co_commit _ _ Hw t). rewrite Hk. by left. }
  change (is_set (obj w)) with (is_set (obj (w <| obj := (obj w) <| worker := rest |> |>))).
  set (w1 := w <| obj := _ |>) in *. destruct j as [u|cj|sess ep|r].
  - destruct (match uj_event u with Some _ => _ | None => _ end).
    + by apply finish_ok.
    + apply call_link_ok; try done. by eexists.
  - destruct (dispatch cj w1) as [[d|ex] w2] eqn:E; pose proof (dispatch_asks _ _ _ _ E) as (Ho & Hout & Hd).
    2: done.
    apply wp_bind. unfold wp at 1. rewrite E. simpl.
    assert (CI w2) as H2 by (unfold CI; by rewrite Ho, Hout).
    destruct d as [f|c].
    + apply wp_bind. destruct (commit_failed_returns f w2) as (w3 & Ec & K & Eo). unfold wp at 1. rewrite Ec. simpl.
      apply finish_ok; [by apply K| |done]. rewrite Eo. simpl. by rewrite Ho.
    + apply call_link_ok; [exact H2|by rewrite Ho| |done|].
      * rewrite Ho. intros X. by destruct (Hj X) as (? & ? & _).
      * destruct Hb as (Ha & _ & Hev), Hd as [Hs Hsays]. intros _. exists cj. split; [|exact Hsays]. rewrite Hout. unfold clear. simpl.
        split_and!; [by exists t|by rewrite Ho|exact Ha|]. intros Hi. rewrite Ho in Hi. injection (Hev Hi) as E1 E2 E3.
        rewrite Ho. unfold interrupted. simpl. rewrite <- E1. done.
  - by apply call_link_ok.
  - destruct (_ || _); by apply call_link_ok.
Qed.

Lemma link_answers_ok o : steps commits (link_answers o).
Proof.
  intros w Hw. enough (wp (link_answers o) (fun _ => CI) w) by done. unfold link_answers. apply wp_get.
  destruct (under_way (obj w)) as [[[[t j] c] wt]|] eqn:Hu; [|exact Hw]. apply wp_say.
  pose proof (CI_say (obj w, Answered c o) _ _ I Hw) as H1. change (CI (w <| out := (obj w, Answered c o) :: out w |>)) in H1.
  pose proof (proj2 (proj2 (co_fresh _ _ Hw))) as Ht. rewrite Hu in Ht.
  assert (job_ (obj w) = Some (KStage, t) -> exists u, j = Upload u /\ current (obj w) u) as Hj.
  { intros E. by eapply (co_call _ _ Hw t E). }
  pose proof (co_upload _ _ Hw _ _ _ _ Hu) as Hc.
  set (w1 := w <| out := _ |>) in *.
  assert (forall o', (forall u, j <> Upload u) -> CI (finish t o' w1).2) as Fin.
  { intros o' Hn. apply finish_ok; [done|done|]. intros u _ E. destruct (Hj E) as (u' & -> & _). by destruct (Hn u'). }
  assert (forall c' wt', (forall u, j <> Upload u) -> match c' with LCancel _ _ _ _ => True | _ => False end ->
            CI (call_link t j c' wt' w1).2) as Call.
  { intros c' wt' Hn Hc'. apply call_link_ok; [done|done|exact Hj|by destruct j; [destruct (Hn u)|..]|by destruct c']. }
  destruct j as [u|cj|sess ep|r].
  - apply finish_ok; try done. intros up -> E. destruct (Hj E) as (u' & [= <-] & E1 & E2 & E3 & E4). destruct Hc as [b ->].
    eexists (obj w), (uj_window u), (uj_expected u), _. apply elem_of_cons. left. unfold upload_call.
    rewrite E1, E2, E3, E4. reflexivity.
  - apply wp_bind. destruct o as [u'|r| |f]; try (by apply Fin).
    destruct (commit_failed_returns f w1) as (w3 & Ec & K & Eo). unfold wp at 1. rewrite Ec.
    apply finish_ok; [by apply K|simpl; by rewrite Eo|done].
  - by apply Fin.
  - destruct wt; repeat case_match; try (by apply Fin); by apply Call.
Qed.

Lemma collect_job_ok : steps commits collect_job.
Proof.
  intros w Hw. enough (wp collect_job (fun _ => CI) w) by done. unfold collect_job. apply wp_get.
  destruct (job_ (obj w)) as [[k t]|] eqn:Hj; [|exact Hw]. destruct (result_of (obj w) t) as [o|] eqn:Ho; [|exact Hw].
  assert (k = KStage -> forall up, o = Uploaded up -> acked (out w) (id (obj w)) (revision_ (obj w)) up (session (obj w)) (epoch (obj w))) as Hup.
  { intros -> up ->. apply (co_done _ _ Hw t Hj). unfold result_of in Ho. destruct (List.find _ _) as [[t' o']|] eqn:Ef; [|done].
    apply List.find_some in Ef as [Hin Heq]. simpl in *. injection Ho as ->. apply Nat.eqb_eq in Heq as ->. by apply list_elem_of_In. }
  apply wp_upd. set (w1 := w <| obj := _ |>).
  assert (CI w1) as H1.
  { eapply CI_forgets; [|exact Hw]. by split_and!. }
  destruct o as [up|r| |f].
  4: { unfold wp. assert (steps commits (job_failed k f)) as K; [|by apply K].
       unfold job_failed, note_drop. steps; apply commits_upd; intros s; destruct (revision_ s =? 1); split_and!; auto. }
  2-3: (assert (forall o, steps commits (match o with Uploaded _ => ret tt | _ => job_done k o end)) as K by
       (intros []; unfold job_done; steps)).
  2: by apply (K (Replied r)). 2: by apply (K Done).
  unfold job_done. apply wp_get. destruct k; try exact H1. destruct (negb _); [|exact H1]. specialize (Hup eq_refl up eq_refl).
  destruct H1 as [A1 A2 A3 AJ A4 A5 A6 A7 A8 A9]. split; simpl; done.
Qed.

Lemma continue_ok r : steps commits (continue_plan r).
Proof.
  intros w Hw. enough (wp (continue_plan r) (fun _ => CI) w) by done. unfold continue_plan. apply wp_get.
  destruct r as [r|]; [|exact Hw]. destruct (_ || _ || _ || _); [exact Hw|]. destruct (_ && _); [by apply approve_ok|].
  destruct (negb (busy (obj w))) eqn:Hb; [|exact Hw]. simpl. destruct (_ =? _); [|exact Hw].
  apply negb_true_iff, not_busy in Hb as [Hi _]. unfold refill. apply wp_get.
  apply (wp_steps commits); [steps| |by auto]. intros tr w1 E _.
  assert (w1 = w) as -> by (unfold some_or in E; destruct (trajectory _); by injection E).
  destruct (window (obj w)) as [first end_]. destruct (_ <? _)%nat; [|exact Hw].
  apply (wp_steps commits); [steps| |by auto]. intros mid w1 E2 _.
  assert (w1 = w) as -> by (unfold some_or in E2; destruct (_ !! _); by injection E2).
  destruct (_ >=f _); [|exact Hw]. destruct (_ <=? _); [|by apply stage_window_ok].
  assert (forall e, steps commits (upd (fun s => s <| error := e |>))) as K by (intros e; steps). by apply K.
Qed.
Lemma collect_cancel_ok : steps commits collect_cancel.
Proof. unfold collect_cancel. steps. Qed.
Lemma observe_ok st t : steps commits (observe st t).
Proof. unfold observe. steps. Qed.
Lemma reconcile_ok r : steps commits (reconcile_if r).
Proof. unfold reconcile_if, reconcile. steps. Qed.
Lemma unresolved_ok : steps commits check_unresolved.
Proof. unfold check_unresolved. steps. Qed.
Hint Resolve continue_ok collect_job_ok collect_cancel_ok observe_ok reconcile_ok unresolved_ok : steps.
Lemma poll_ok st t : steps commits (poll st t).
Proof. unfold poll. steps. Qed.

Lemma handle_ok i : steps commits (handle i).
Proof.
  destruct i; simpl; first
    [ apply stage_suffix_ok | apply abort_ok | apply approve_ok | apply poll_ok | apply cancel_ok | apply close_ok
    | apply work_ok | apply link_answers_ok | apply steps_bind; [apply _|apply stage_ok|intros; by steps]
    | unfold publish, unpublish, sender_reads, sender_sends; by steps ].
Qed.

Lemma log_ok_at l1 x l2 : log_ok (l1 ++ x :: l2) -> log_entry x l2.
Proof. induction l1 as [|y l1 IH]; intros [H1 H2]; [exact H1|by apply IH]. Qed.

(** C33: nothing is selected blindly.  Whenever the worker sends a COMMIT, alone or
    for a group, under any interleaving of the threads and any answers of the
    link, it sends it for a commit job whose own cancel event is not set, and
    the link had acknowledged before, under the job's session and ARM epoch, the
    upload of the job's revision with the upload number of the COMMIT.  A COMMIT of
    its own carries the job's reference, revision, kept prefix, session and epoch
    and expects the revision before it; a group's carries the reference and the
    group the job captured, and neither session nor epoch.  While the
    reference is still the current one, it has not been cancelled and the job's
    session and epoch are its own. *)
Theorem commits_are_acknowledged l after before s c :
  out (run_steps react start l) = after ++ (s, Called c) :: before -> is_commit c = true ->
  exists cj, clear s before c cj /\ says c cj.
Proof.
  intros H. assert (CI (run_steps react start l)) as C.
  { apply (run_steps_inv react CI); [intros w j Hw; by apply handle_ok|]. split; simpl; try done.
    all: intros t j Hin; by apply elem_of_nil in Hin. }
  pose proof (co_log _ _ C) as L. rewrite H in L. by apply log_ok_at in L.
Qed.
End Commits.
