(* ===== verification/HorizonPending.v ===== *)
(** A stream candidate does not stay pending: the poll that finds it pending too
    long reports it.  And the demo run of the horizon, which witnesses its
    theorems. *)
From Stdlib Require Import SpecFloat PrimFloat FloatOps.
From S2P Require Import Prelude Floats Motion RtProtocol Effects Horizon HorizonSafety HorizonCommits.

Section Pending.
Context {env : Env}.

(** ** Computations that never raise *)

Definition returns {A} (m : HorizonM A) : Prop := forall w, exists a w', m w = (Ok a, w').
Lemma returns_ret {A} (a : A) : returns (ret a).
Proof. intros w. by exists a, w. Qed.
Lemma returns_upd f : returns (upd f).
Proof. intros w. by eexists _, _. Qed.
Lemma returns_say e : returns (say e).
Proof. intros w. by eexists _, _. Qed.
Lemma returns_bind {A B} (m : HorizonM A) (k : A -> HorizonM B) : returns m -> (forall a, returns (k a)) -> returns (bind m k).
Proof. intros Hm Hk w. destruct (Hm w) as (a & w1 & E). unfold bind. rewrite E. apply Hk. Qed.
Lemma returns_get {B} (k : horizon -> HorizonM B) : (forall s, returns (k s)) -> returns (bind get k).
Proof. intros Hk w. apply Hk. Qed.

Ltac returns := repeat first
  [ progress intros | apply returns_ret | apply returns_upd | apply returns_say | apply returns_get | apply returns_bind
  | match goal with
    | |- returns (when ?b _) => destruct b; simpl
    | |- returns (if ?b then _ else _) => destruct b
    | |- returns (match ?x with _ => _ end) => destruct x
    end ].

Lemma collect_job_returns : returns collect_job.
Proof. unfold collect_job, job_failed, job_done, note_drop. returns. Qed.
Lemma observe_returns st t : returns (observe st t).
Proof. unfold observe. returns. Qed.
Lemma reconcile_returns r : returns (reconcile_if r).
Proof. unfold reconcile_if, reconcile. returns. Qed.

(** The retirement, when it is done, ended on the link. *)
Definition retired_on_link (s : horizon) : Prop :=
  forall t f, cancel_job s = Some t -> (t, Failed f) ∈ finished s -> is_link f = true.
Lemma collect_cancel_returns w : retired_on_link (obj w) -> exists w', collect_cancel w = (Ok tt, w').
Proof.
  intros H. unfold collect_cancel, bind, get. destruct (cancel_job (obj w)) as [t|] eqn:Hc; simpl; [|by eexists].
  unfold result_of. destruct (List.find _ _) as [[t' o]|] eqn:Ef; simpl; [|by eexists].
  apply List.find_some in Ef as [Hin Heq]. simpl in Heq. apply Nat.eqb_eq in Heq as ->.
  destruct o as [| | |f]; try by eexists. apply list_elem_of_In in Hin. rewrite (H t f Hc Hin). by eexists.
Qed.

(** Polling asks, and a continuation keeps the kind of reference. *)
Definition asks (_ : bool) (w w' : HW) : Prop := (asked w <= asked w')%nat.
#[local] Instance asks_flow : Flow asks.
Proof. split; unfold asks; lia. Qed.
Lemma asks_upd f : steps asks (upd f).
Proof. intros w. apply le_n. Qed.
Lemma asks_say e : steps asks (say e).
Proof. intros w. apply le_n. Qed.
Lemma asks_ask : steps asks ask.
Proof. intros w. unfold asks. simpl. lia. Qed.
Hint Resolve asks_upd asks_say asks_ask : steps.
Lemma collect_asks : steps asks (collect_job ;~ collect_cancel).
Proof. unfold collect_job, collect_cancel, job_failed, job_done, note_drop. steps. Qed.
Lemma observe_asks st t valid : steps asks (observe st t ;~ reconcile_if valid).
Proof. unfold observe, reconcile_if, reconcile. steps. Qed.
Lemma kept_asking {A B} (f : horizon -> B) (g : Env -> nat -> A) : steps (kept f) (asking g).
Proof. unfold asking. steps. Qed.
Hint Resolve @kept_asking : steps.
Lemma continue_keeps valid : steps (kept (O:=effect) stream) (continue_plan valid).
Proof. unfold continue_plan, approve, refill, stage_window, submit. steps. Qed.
Lemma collect_keeps : steps (kept (O:=effect) (fun s => (cancel_job s, finished s))) collect_job.
Proof.
  unfold collect_job, job_failed, job_done, note_drop. steps; intros w; unfold kept; simpl; by destruct (revision_ (obj w) =? 1).
Qed.
Lemma continue_stream valid w : stream (obj w) = true -> continue_plan valid w = (Ok tt, w).
Proof. unfold continue_plan, bind, get. intros H. destruct valid; [|done]. by rewrite H. Qed.

(** C34: a selection does not stay unknown.  After any poll of a stream whose
    retirement, if one is over, ended on the link: a candidate is still pending
    only where the RT's own evidence already reports the reference, or where
    the clock read in this very poll was within the bound of its COMMIT; and a
    poll that raises SelectionUnresolved has freed the slot. *)
Theorem pending_is_bounded st t w r w' :
  retired_on_link (obj w) -> poll st t w = (r, w') -> stream (obj w') = true ->
  (candidate_selection (obj w') = pending -> forall since, pending_since (obj w') = Some since ->
     evidence (obj w') = true \/
     exists k, (asked w <= k < asked w')%nat /\ monotonic env k -f since >f SELECTION_UNRESOLVED_S = false) /\
  (r = Ok tt \/ (r = Err unresolved_error /\ candidate_selection (obj w') = unresolved)).
Proof.
  intros Hret H Hs. unfold poll in H.
  assert (exists w1, (collect_job ;~ collect_cancel) w = (Ok tt, w1)) as (w1 & E1).
  { destruct (collect_job_returns w) as ([] & w0 & E0). unfold bind. rewrite E0. apply collect_cancel_returns.
    pose proof (kept_eq _ _ _ _ _ collect_keeps E0) as [= K1 K2]. unfold retired_on_link. by rewrite K1, K2. }
  pose proof (collect_asks w) as A1. rewrite E1 in A1. simpl in A1. unfold asks in A1.
  assert (bind collect_job (fun _ => bind collect_cancel (fun _ =>
     valid <~ observe st t ;; reconcile_if valid ;~ check_unresolved ;~ continue_plan valid)) w
    = (valid <~ observe st t ;; reconcile_if valid ;~ check_unresolved ;~ continue_plan valid) w1) as E1'.
  { unfold bind in *. destruct (collect_job w) as [[[]|] w0]; [|done]. by rewrite E1. }
  rewrite E1' in H. clear E1'. destruct (observe_returns st t w1) as (valid & w2 & E2).
  destruct (reconcile_returns valid w2) as ([] & w3 & E3).
  assert (asked w1 <= asked w3)%nat as A2.
  { pose proof (observe_asks st t valid w1) as A2. unfold bind in A2. rewrite E2 in A2. by rewrite E3 in A2. }
  unfold bind at 1 in H. rewrite E2 in H. unfold bind at 1 in H. rewrite E3 in H.
  assert (forall w4, stream (obj w4) = stream (obj w3) -> continue_plan valid w4 = (r, w') -> w' = w4 /\ r = Ok tt) as Fin.
  { intros w4 K4 E4. destruct (stream (obj w4)) eqn:Es; [rewrite (continue_stream _ _ Es) in E4; by injection E4|].
    pose proof (kept_eq _ _ _ _ _ (continue_keeps valid) E4). congruence. }
  unfold check_unresolved in H. unfold bind at 1, bind at 1, get at 1 in H.
  destruct (pending_since (obj w3)) as [since|] eqn:Hp.
  2: { destruct (Fin w3 eq_refl H) as [-> ->]. split; [|by left]. intros _ since Hc. congruence. }
  destruct (stream (obj w3) && bool_decide (candidate_selection (obj w3) = pending) && negb (evidence (obj w3))) eqn:Hb.
  - unfold asking, bind, ask, ret in H. destruct (_ >f SELECTION_UNRESOLVED_S) eqn:Hlate; simpl in H.
    + injection H as <- <-. simpl. split; [done|by right].
    + pose proof (Fin {| obj := obj w3; out := out w3; asked := S (asked w3) |}) as Fin'.
      destruct (Fin' eq_refl H) as [-> ->]. split; [|by left]. intros _ since' Hs'. right. exists (asked w3). simpl in *. split; [lia|].
      assert (since' = since) as -> by congruence. done.
  - destruct (Fin w3 eq_refl H) as [-> ->]. split; [|by left]. intros Hsel since' _. left.
    rewrite Hs, (bool_decide_eq_true_2 _ Hsel) in Hb. simpl in Hb. by apply negb_false_iff in Hb.
Qed.
End Pending.

(** ** The demo: a stream is staged, committed, observed and driven *)

Module HorizonDemo.
Definition rt_packet : State := {|
  s_n := 1; state_seq := 1; last_cmd_seq := 0; s_t_mono_ns := 0; flags := FLAG_ARMED; fault_code := 0; s_session_id := 5;
  s_identity_hash := 0; s_arm_epoch := 2; stop_epoch := 0; s_q := [f0]; s_dq := [f0]; s_tau := [f0]; s_tau_cmd := [f0];
  s_q_cmd := [f0]; s_qd_cmd := [f0]; s_wrench := [] |}.
Definition running_ref : ref_state := {|
  t_reference_id := 1; t_revision := 1; t_status := REFERENCE_RUNNING; t_phase := f0; t_envelope_phase := f0;
  t_envelope_age_us := 0; t_envelope_seq := 0; t_q_ref := [f0]; t_qd_ref := [f0]; t_qdd_ref := [f0] |}.
Definition silent : option rt_state := Some {| rt := rt_packet; rt_reference := None |}.
Definition running : option rt_state := Some {| rt := rt_packet; rt_reference := Some running_ref |}.
#[export] Instance env : Env := {|
  monotonic := fun _ => f0; monotonic_ns := fun _ => 0; link_session := fun _ => 5; link_epoch := fun _ => 2;
  latest_state := fun _ => running; send_envelope := fun _ => Ok (Some 1) |}.
Definition plan : JointTrajectory := {| times := [f0; f1]; positions := [[f0]; [f1]]; velocities := Some [[f0]; [f0]] |}.
Definition drive : decision := {|
  d_command := {| torque := [f0]; d_kp := [f1]; d_kd := [f1] |}; d_id := 1; d_revision := 1; d_phase := f0; d_sampled := f0 |}.
Definition committing : list input := [Stage (Some "x"%string) plan None true true; Work; Answer (Uploaded 7); Poll silent f0; Approve; Work].
Definition driving : list input := committing ++ [Answer (Replied []); Poll running f0; Publish drive true; SenderReads; SenderSends].
Abbreviation after l := (run_steps react start l).

(** The same reference as member 1 of group 3 *)
Definition grouping : list input := [Stage (Some "x"%string) plan None true true; Work; Answer (Uploaded 7); Poll silent f0;
  SetGroup (Some (3, 1, 9)); Approve; Work].
Definition commit_call : call := LCommit 7 1 1 0 f0 f0 5 2 0.
Definition group_call : call := LGroupCommit 7 1 3 1 9.
Lemma demo_commit : exists s before, out (after committing) = [] ++ (s, Called commit_call) :: before.
Proof. eexists _, _. vm_compute. reflexivity. Qed.
Lemma demo_group : exists s before, out (after grouping) = [] ++ (s, Called group_call) :: before.
Proof. eexists _, _. vm_compute. reflexivity. Qed.
Lemma commits_are_acknowledged_witness :
  (exists s before cj, clear s before commit_call cj /\ says commit_call cj) /\
  (exists s before cj, clear s before group_call cj /\ says group_call cj).
Proof.
  destruct demo_commit as (s & before & H), demo_group as (s' & before' & H'). split.
  - exists s, before. exact (commits_are_acknowledged committing [] before s commit_call H eq_refl).
  - exists s', before'. exact (commits_are_acknowledged grouping [] before' s' group_call H' eq_refl).
Defined.

Lemma demo_envelope : exists s, (s, Envelope drive 5 2) ∈ out (after driving).
Proof. eexists. vm_compute. apply list_elem_of_here. Qed.
Example envelopes_are_trusted_witness : exists s, trusted s drive 5 2.
Proof.
  destruct demo_envelope as (s & H). exact (ex_intro _ s (proj2 (envelopes_are_trusted driving s drive 5 2 H))).
Defined.

Definition polled : HW := (poll silent f0 (after committing)).2.
Lemma committing_retired : retired_on_link (obj (after committing)).
Proof. intros t f H. vm_compute in H. discriminate. Qed.
Lemma committing_polls : poll silent f0 (after committing) = (Ok tt, polled).
Proof. vm_compute. reflexivity. Qed.
Lemma polled_streams : stream (obj polled) = true.
Proof. vm_compute. reflexivity. Qed.
Lemma polled_pending : candidate_selection (obj polled) = pending.
Proof. vm_compute. reflexivity. Qed.
Lemma polled_since : pending_since (obj polled) = Some f0.
Proof. vm_compute. reflexivity. Qed.
Example pending_is_bounded_witness : evidence (obj polled) = true \/
  exists k, (asked (after committing) <= k < asked polled)%nat /\ monotonic env k -f f0 >f SELECTION_UNRESOLVED_S = false.
Proof.
  exact (proj1 (pending_is_bounded silent f0 (after committing) (Ok tt) polled committing_retired committing_polls polled_streams)
    polled_pending f0 polled_since).
Defined.
End HorizonDemo.
