(* ===== verification/Runtime.v ===== *)
(** One robot behind the headless supervisor ([supervisor/runtime.py]): the arm
    controller of [Controller], the reference horizon of [Horizon] when the RT
    plays the reference, and the execution ledger that turns controller events and
    RT evidence into the receipts of [Contract].

    Every operation runs on the loop thread, so the runtime is one computation
    after another on the record [runtime]; an input is an operation a client
    queued, a tick, the end of a session, or a step of another thread (the
    authority worker, the stream admission worker, the threads of the horizon).
    The controller and the horizon are the objects of their own files, run in
    place; what the controller says to its node is queued, and its arm messages
    become authority requests when its call ends.  The link, the clocks, the
    random part of an execution id and the trusted stream admission are answered
    by the environment, a question at a time.  Executions and attempts are kept in
    the order of the source's dictionaries and named by their keys.

    The trace, the fault record, printed lines and the hosted scene are left
    out. *)
From stdpp Require Import pretty.
From Stdlib Require Import SpecFloat PrimFloat FloatOps.
From S2P Require Import Prelude Floats Motion Contract Stream RtProtocol Observation Servo Policy Effects Executor Controller Horizon.

Definition RETAINED : nat := 512.
(** [GROUP_MIN_LEAD_MS / 1e3] and [GROUP_BUDGET_S] of multi_arm/group.py *)
Definition min_lead : float := Eval vm_compute in Prim2SF 0.01%float.
Definition max_lead : float := Eval vm_compute in Prim2SF 0.15%float.
Definition f2 : float := Eval vm_compute in Prim2SF 2%float.

(** ** Executions, attempts, streams *)

#[export] Instance eta_revision : Eta RevisionStatus := fun v => {|
  rv_execution_id := rv_execution_id v; rv_request_id := rv_request_id v; rv_expected_revision := rv_expected_revision v;
  rv_revision := rv_revision v; rv_phase := rv_phase v; rv_selection_state := rv_selection_state v; rv_at := rv_at v;
  rv_reason := rv_reason v |}.

(** A stream request: an opening or a revision. *)
Inductive intent := Opening (o : StreamOpen) | Revising (r : StreamRevision).
Definition intent_id (i : intent) : string := match i with Opening o => so_request_id o | Revising r => sr_request_id r end.
Definition intent_admit_by (i : intent) : option Stamp := match i with Opening o => so_admit_by o | Revising r => sr_admit_by r end.
Definition opens (i : intent) : bool := match i with Opening _ => true | Revising _ => false end.

Record attempt := {
  a_request : intent;
  a_status : RevisionStatus;
  a_curve : JointTrajectory;
  a_facts : StreamFacts;
  a_deadline_ns : Z;
  a_cut : float;
  a_terminal : bool;
  a_sent_seq : option Z;
  a_upload_started : bool;
}.
#[export] Instance eta_attempt : Eta attempt := fun a => {|
  a_request := a_request a; a_status := a_status a; a_curve := a_curve a; a_facts := a_facts a; a_deadline_ns := a_deadline_ns a;
  a_cut := a_cut a; a_terminal := a_terminal a; a_sent_seq := a_sent_seq a; a_upload_started := a_upload_started a |}.

Record stream := {
  s_owner : string;
  s_opened : StreamOpen;
  s_facts : StreamFacts;
  s_epoch : option string * Z * Z;
  s_gains : vec * vec;
  s_payload_revision : Z;
  s_anchor : option SpliceAnchor;
  s_pending : option string;
  s_selected : option string;
}.
#[export] Instance eta_stream : Eta stream := fun s => {|
  s_owner := s_owner s; s_opened := s_opened s; s_facts := s_facts s; s_epoch := s_epoch s; s_gains := s_gains s;
  s_payload_revision := s_payload_revision s; s_anchor := s_anchor s; s_pending := s_pending s; s_selected := s_selected s |}.

Record execution := {
  x_request : TrajectoryRequest;
  x_stream : option stream;
  x_payload_revision : Z;
  x_status : ExecutionStatus;
  x_receipts : list Receipt;
  x_first_seq : option Z;
  x_epoch : Z;
  x_cancel_reason : option string;
  x_drop : option (string * Z * Z * Z);
  x_completed_at : option float;
}.
#[export] Instance eta_execution : Eta execution := fun x => {|
  x_request := x_request x; x_stream := x_stream x; x_payload_revision := x_payload_revision x; x_status := x_status x;
  x_receipts := x_receipts x; x_first_seq := x_first_seq x; x_epoch := x_epoch x; x_cancel_reason := x_cancel_reason x;
  x_drop := x_drop x; x_completed_at := x_completed_at x |}.
Definition x_phase (x : execution) : Phase := Contract.phase (x_status x).
Definition ended (x : execution) : bool := status_terminal (x_status x).

(** A future of the authority worker. *)
Inductive rpc_state := Queued | Running | Finished (r : result bool) | Cancelled.
Record rpc_job := { j_armed : bool; j_gen : Z; j_state : rpc_state }.
#[export] Instance eta_rpc_job : Eta rpc_job := fun j => {| j_armed := j_armed j; j_gen := j_gen j; j_state := j_state j |}.
Definition rpc_done (j : rpc_job) : bool := match j_state j with Finished _ | Cancelled => true | _ => false end.

(** The admission worker's job: what its closure captured, then its answer. *)
Record stream_job := {
  sj_execution : string; sj_request : string; sj_reason : string; sj_curve : JointTrajectory; sj_facts : StreamFacts;
  sj_answer : option (result string) }.
#[export] Instance eta_stream_job : Eta stream_job := fun j => {|
  sj_execution := sj_execution j; sj_request := sj_request j; sj_reason := sj_reason j; sj_curve := sj_curve j;
  sj_facts := sj_facts j; sj_answer := sj_answer j |}.

(** A resolved preset of the deployment ([control/presets.py]). *)
Record preset := { p_law : string; preset_kp : vec; preset_kd : vec; preset_hold : option pose_hold_spec }.

(** What the runtime reads of the link's health report. *)
Record health := {
  hl_armed : bool; hl_fresh : bool; hl_latched : string; hl_any_fault : bool; hl_holding : bool; hl_holding_q : option vec;
  hl_pose_hold : bool; hl_arm_epoch : Z }.

(** A motor command as [unpack_motor_command] reads it; [tail] is the Cartesian or pose-hold block. *)
Record command := { m_position : vec; m_velocity : vec; m_torque : vec; m_kp : vec; m_kd : vec; m_tail : list float }.
Definition unpack_motor_command (words : list float) (n : nat) : result command :=
  let len := length words in
  raise_if negb ((len =? n * 5) || (len =? n * 5 + 21) || (len =? n * 5 + 15))%nat of ValueError "unpack_motor_command" ;;
  let tail := drop (n * 5) words in
  _ <-- (if (length tail =? 15)%nat then s <-- unpack_pose_hold_values tail ;; Ok (Some s) else Ok None) ;;
  let column j := map (fun i => fget words (i * 5 + j)) (seq 0 n) in
  Ok {| m_position := column 0%nat; m_velocity := column 1%nat; m_torque := column 2%nat; m_kp := column 3%nat; m_kd := column 4%nat;
        m_tail := tail |}.

(** What the outside sees: words on the wire, queued authority work, and the two
    decisions that let motion begin (a plan released, a reference committed).  A
    release is kept with the number of questions the supervisor had put to its
    clocks, its link and its other neighbours by then. *)
Inductive effect :=
  | Applied (c : command)
  | Rpc (armed : bool) (gen : Z)
  | Releasing (eid : string) (questions : nat)
  | Committing (key : option string)
  | Recorded (r : Receipt).

(** ** The object *)

(** What construction and [start] fix. *)
Record Config := {
  instance_id_ : string;
  joints : list string;
  domain_ : string;
  applied_grace_s : float;
  ack_timeout_s : float;
  period : float;
  identity : RobotIdentity;
  capabilities : Capabilities;
  profile_gains : vec * vec;
  presets : list (string * preset);
  group_capable : bool;
  trusted_admission : bool;
  fresh_controller : ctl;
}.

Record runtime := {
  controller : world ctl Controller.effect;
  node_sent : list Controller.effect;
  native : option (world horizon Horizon.effect);
  native_pending : option string;
  native_epoch : Z;
  native_failed : bool;
  group_ : option (Z * Z * Z * Z);
  group_release : list (string * (Z * Z * Z));
  group_reports : list (string * (group_answer * Z));
  group_cancelling : float;
  group_hold_grace : float;
  payload_ : PayloadState;
  soft_ids : Z;
  selected_soft : option string;
  mode_feedback : string * (vec * vec);
  executions : list (string * execution);
  by_request : gmap string string;
  ids : Z;
  owner : option string;
  closed_sessions : list string;
  tracker : AppliedTracker;
  fed_rx : float;
  seen_seq : option Z;
  rpc_pending : list rpc_job;
  authority_gen : Z;
  authority_done : Z;
  authority_failed : Z * string;
  authority_fault : string;
  state_ : RobotState;
  authority_ : Authority;
  stream_job_ : option stream_job;
  stream_marks : list (string * (Z * Z));
  stream_attempts : list (string * string * attempt);
  load_revision : Z;
}.
#[export] Instance eta_runtime : Eta runtime := fun s => {|
  controller := controller s; node_sent := node_sent s; native := native s; native_pending := native_pending s;
  native_epoch := native_epoch s; native_failed := native_failed s; group_ := group_ s; group_release := group_release s;
  group_reports := group_reports s; group_cancelling := group_cancelling s; group_hold_grace := group_hold_grace s;
  payload_ := payload_ s; soft_ids := soft_ids s; selected_soft := selected_soft s; mode_feedback := mode_feedback s;
  executions := executions s; by_request := by_request s; ids := ids s; owner := owner s; closed_sessions := closed_sessions s;
  tracker := tracker s; fed_rx := fed_rx s; seen_seq := seen_seq s; rpc_pending := rpc_pending s;
  authority_gen := authority_gen s; authority_done := authority_done s; authority_failed := authority_failed s;
  authority_fault := authority_fault s; state_ := state_ s; authority_ := authority_ s; stream_job_ := stream_job_ s;
  stream_marks := stream_marks s; stream_attempts := stream_attempts s; load_revision := load_revision s |}.

Record Env := {
  monotonic : nat -> float;
  monotonic_ns : nat -> Z;
  uuid : nat -> string;
  motor_health : nat -> health;
  latest_state : nat -> option rt_state * float;
  recent_states : nat -> list (rt_state * float);
  motor_state : rt_state -> vec;
  link_session : nat -> Z;
  apply_command : nat -> result (option Z);
  snapshot : nat -> result StreamFacts;
  stream_check : JointTrajectory -> StreamFacts -> result string;
  control_env : Controller.Env;
}.
Existing Class Config.
Existing Class Env.

Section Runtime.
Context {cfg : Config} {ccfg : Controller.Config} {env : Env} {henv : Horizon.Env}.

Definition RuntimeM : Type -> Type := M runtime effect.
Definition asking {A} (f : Env -> nat -> A) : RuntimeM A := k <~ ask ;; ret (f env k).
Definition refuse {A} (why : string) : RuntimeM A := throw (Prelude.Refused why).

(** ** The objects it owns *)

(** A call of the native reference, [none_error] where there is none. *)
Definition in_native {A} (m : HorizonM A) : RuntimeM A := fun w =>
  match native (obj w) with
  | Some h => let '(r, h') := m h in (r, w <| obj := (obj w) <| native := Some h' |> |>)
  | None => (Err none_error, w)
  end.
Definition ref (s : runtime) : option horizon := obj <$> native s.
Definition native_key (s : runtime) : option string := h ← ref s; Horizon.key h.
Definition plays (s : runtime) (eid : string) : bool := bool_decide (native_key s = Some eid).
Definition requested (s : runtime) : bool := match ref s with Some h => selection_requested h | None => false end.
Definition native_busy (s : runtime) : bool := match ref s with Some h => busy h | None => false end.

(** [_request_authority] *)
Definition cancel_queued (l : list rpc_job) : list rpc_job :=
  map (fun j => if j_armed j && match j_state j with Queued => true | _ => false end then j <| j_state := Cancelled |> else j) l.
Definition request_authority (armed : bool) : RuntimeM unit :=
  let go :=
    s <~ get ;; let gen := (authority_gen s + 1)%Z in
    upd (fun s => s <| authority_gen := gen |> <| rpc_pending := rpc_pending s ++ [{| j_armed := armed; j_gen := gen; j_state := Queued |}] |>) ;~
    say (Rpc armed gen) in
  if armed then go else
  upd (fun s => s <| native_pending := None |>) ;~
  s <~ get ;; when (is_some (native s)) (in_native Horizon.cancel) ;~
  upd (fun s => s <| tracker := disarm_sent (tracker s) |>) ;~
  s <~ get ;;
  if existsb (fun j => negb (j_armed j) && negb (rpc_done j)) (rpc_pending s) then ret tt else
  upd (fun s => s <| rpc_pending := cancel_queued (rpc_pending s) |>) ;~ go.

(** The controller's environment: [lambda: self._native.point] where there is a native reference. *)
Definition source_env (s : runtime) : Controller.Env :=
  let e := control_env env in
  match ref s with
  | Some h => {| clock := clock e; reference_clock := reference_clock e;
                 sample_source := fun _ => match Horizon.point h with Some p => Ok p | None => Err none_error end;
                 product_t := product_t e; norm := norm e; arccos := arccos e |}
  | None => e
  end.
Definition is_arm (e : Controller.effect) : bool := match e with ArmMessage _ => true | _ => false end.
Fixpoint forward_arms (l : list Controller.effect) : RuntimeM unit :=
  match l with
  | [] => ret tt
  | ArmMessage b :: l => request_authority b ;~ forward_arms l
  | _ :: l => forward_arms l
  end.
(** What a call said: the outputs of [new] that [old] had not. *)
Definition said_since (old new : world ctl Controller.effect) : list Controller.effect :=
  rev (map snd (take (length (out new) - length (out old)) (out new))).
(** A call of the controller: its outputs are queued, its arm messages become requests. *)
Definition in_controller {A} (m : Controller.Env -> ControlM A) : RuntimeM A :=
  s <~ get ;;
  let '(r, c) := m (source_env s) (controller s) in
  let new := said_since (controller s) c in
  upd (fun s => s <| controller := c |> <| node_sent := node_sent s ++ List.filter (fun e => negb (is_arm e)) new |>) ;~
  forward_arms new ;~ lift r.
Definition ctl_of (s : runtime) : ctl := obj (controller s).
Definition control (f : control_msg) : RuntimeM unit := in_controller (fun _ => Controller.on_control f).
Definition plan_loaded (s : runtime) (eid : string) : bool := bool_decide (Controller.current_plan_id (ctl_of s) = eid).
Definition controller_clock : RuntimeM float := in_controller (fun _ => Controller.now).

(** The published observation and authority ([_publish]). *)
Definition plain_authority (l : Lifecycle) : Authority :=
  {| lifecycle := l; Contract.session := None; Contract.arm_epoch := 0; Contract.stop_epoch := 0; Contract.fault := None; Contract.holding := None |}.
Definition publish : RuntimeM unit :=
  st <~ asking latest_state ;; h <~ asking motor_health ;; now <~ asking monotonic ;;
  rt_identity <~ lift (RobotIdentity_new (instance_id_ cfg) (joints cfg) "rt" "") ;;
  rx_ns <~ lift (py_int (st.2 *f e9)) ;; now_ns <~ lift (py_int (now *f e9)) ;;
  observed <~ lift (robot_state (rt <$> st.1) rt_identity rx_ns now_ns (applied_grace_s cfg) (domain_ cfg) ("rt:" +:+ instance_id_ cfg)) ;;
  upd (fun s => s <| state_ := observed |>) ;~
  match st.1 with
  | None => upd (fun s => s <| authority_ := plain_authority DISCONNECTED |>)
  | Some packet =>
      if negb (hl_fresh h) then upd (fun s => s <| authority_ := plain_authority DISCONNECTED |>) else
      sess <~ asking link_session ;;
      a <~ lift (authority (rt packet) (Some sess) (hl_latched h)) ;;
      s <~ get ;;
      a <~ match lifecycle a with
           | CLAIMED => match owner s with
                        | None => lift (Authority_new {| lifecycle := CONNECTED; Contract.session := Contract.session a;
                                    Contract.arm_epoch := Contract.arm_epoch a; Contract.stop_epoch := Contract.stop_epoch a;
                                    Contract.fault := Contract.fault a; Contract.holding := Contract.holding a |})
                        | Some _ => ret a
                        end
           | CONNECTED => ret (plain_authority DISCONNECTED)
           | _ => ret a
           end ;;
      upd (fun s => s <| authority_ := a |>)
  end.

Definition now : RuntimeM Stamp := n <~ asking monotonic_ns ;; lift (Stamp_new n PC (domain_ cfg)).

(** ** The ledger *)

Definition find_ex (s : runtime) (eid : string) : option execution := dget eid (executions s).
(** An execution the caller holds. *)
Definition the_ex (eid : string) : RuntimeM execution := s <~ get ;; some_or (find_ex s eid) KeyError.
Definition upd_ex (eid : string) (f : execution -> execution) : RuntimeM unit :=
  upd (fun s => s <| executions := dupd eid f (executions s) |>).
Definition upd_stream (eid : string) (f : stream -> stream) : RuntimeM unit :=
  upd_ex eid (fun x => x <| x_stream := f <$> x_stream x |>).
Definition find_attempt (s : runtime) (k : string * string) : option attempt := dget k (stream_attempts s).
Definition upd_attempt (k : string * string) (f : attempt -> attempt) : RuntimeM unit :=
  upd (fun s => s <| stream_attempts := dupd k f (stream_attempts s) |>).

(** [for ex in list(self._executions.values())] *)
Fixpoint each {A} (f : A -> RuntimeM unit) (l : list A) : RuntimeM unit :=
  match l with [] => ret tt | x :: l => f x ;~ each f l end.
Definition each_execution (f : string -> RuntimeM unit) : RuntimeM unit := s <~ get ;; each f (map fst (executions s)).

Definition current (s : runtime) : option (string * execution) := last (List.filter (fun x => negb (ended x.2)) (executions s)).

Definition evidence_of (l : list (string * evidence_value)) : gmap string evidence_value := list_to_map (rev l).
Definition receipt (eid : string) (ph : Phase) (why : string) (ev : list (string * evidence_value)) : RuntimeM unit :=
  x <~ the_ex eid ;;
  at_ <~ now ;;
  let ev := match ph with ADMITTED => ev ++ [("payload_revision"%string, EvInt (x_payload_revision x))] | _ => ev end in
  r <~ lift (Receipt_new {| rc_execution_id := execution_id (x_status x); rc_request_id := es_request_id (x_status x);
                            rc_instance_id := instance_id_ cfg; rc_phase := ph; rc_at := at_; rc_reason := why;
                            rc_evidence := evidence_of ev |}) ;;
  st <~ lift (apply_receipt (x_status x) r) ;;
  upd_ex eid (fun x => x <| x_status := st |> <| x_receipts := x_receipts x ++ [r] |>
                         <| x_drop := if Contract.terminal ph then None else x_drop x |>) ;~
  say (Recorded r).

(** [_owns] and [_get] *)
Definition owns (session : string) : RuntimeM unit :=
  s <~ get ;;
  if bool_decide (session ∈ closed_sessions s) then refuse "this client session is closed" else
  if negb (bool_decide (owner s = Some session))
  then refuse (if is_some (owner s) then "owned by another client" else "claim first") else ret tt.
Definition get_ex (eid : string) : RuntimeM execution :=
  s <~ get ;; match find_ex s eid with Some x => ret x | None => refuse "unknown execution" end.

(** [_retire_native] *)
Definition retire_native (eid : string) : RuntimeM unit :=
  upd (fun s => s <| native_pending := if bool_decide (native_pending s = Some eid) then None else native_pending s |>) ;~
  s <~ get ;; when (plays s eid) (in_native Horizon.cancel).

(** ** Forwarding the controller's outputs *)

Definition link_apply (c : command) : RuntimeM (option Z) := say (Applied c) ;~ r <~ asking apply_command ;; lift r.
Definition executing (s : runtime) : bool := Controller.running (ctl_of s).
Definition decide_command (c : command) (r : ref_state) (phase sampled : float) : decision := {|
  d_command := {| torque := m_torque c; d_kp := m_kp c; d_kd := m_kd c |}; d_id := t_reference_id r; d_revision := t_revision r;
  d_phase := phase; d_sampled := sampled |}.
Definition has_status (code : Z) (r : option ref_state) : bool := match r with Some r => t_status r =? code | None => false end.

(** The tail of [_send_command]: no path tracks the selected reference, so a measured hold is staged. *)
Definition stage_hold (c : command) (r : option ref_state) : RuntimeM (option Z) :=
  in_native unpublish ;~
  s <~ get ;;
  wait <~ (if native_failed s || is_some (native_pending s) || executing s || native_busy s then ret true
           else t <~ asking monotonic ;; ret (t <f group_cancelling s)) ;;
  if wait then ret None else
  if has_status REFERENCE_UNDERFLOW r then upd (fun s => s <| native_failed := true |>) ;~ ret None else
  if has_status REFERENCE_RUNNING r then in_native Horizon.cancel ;~ ret None else
  let q := m_position c in
  let zero := replicate (length q) f0 in
  hold <~ lift (JointTrajectory_new [f0; period cfg] [q; q] (Some [zero; zero])) ;;
  _ <~ in_native (Horizon.stage None hold None false true) ;; ret None.

Definition send_command (c : command) : RuntimeM (option Z) :=
  s <~ get ;;
  match ref s with
  | None => link_apply c
  | Some h =>
      st <~ asking latest_state ;;
      match st.1 with
      | None => in_native unpublish ;~ ret None
      | Some p =>
          if negb (RtProtocol.armed (rt p)) then in_native unpublish ;~ ret None else
          let same := (s_session_id (rt p) =? Horizon.session h) && (s_arm_epoch (rt p) =? Horizon.epoch h) in
          let r := if same then observed h else None in
          let at_ := if same then observed_point h else None in
          if has_status REFERENCE_END r && match r with Some r => negb (t_reference_id r =? Horizon.id h) | None => false end
          then ret None else
          if match rt_reference p with Some r => t_reference_id r =? 0 | None => true end
          then in_native unpublish ;~ link_apply c else
          match r, at_ with
          | Some r', Some at_ =>
              if array_equal (m_position c) (pt_position at_) && array_equal (m_velocity c) (pt_velocity at_)
              then in_native (Horizon.publish (decide_command c r' (pt_time at_) (received_at h)) true) ;~
                   s <~ get ;; ret (ref s ≫= last_seq)
              else stage_hold c r
          | _, _ => stage_hold c r
          end
      end
  end.

(** The commands of the queue, in order; the sequence numbers that were sent. *)
Fixpoint send_all (sent_for : option string) (l : list Controller.effect) : RuntimeM (list Z) :=
  match l with
  | [] => ret []
  | MotorCommand _ _ _ words :: l =>
      c <~ lift (unpack_motor_command words (n_arm ccfg)) ;;
      seq <~ send_command c ;;
      match seq, sent_for with
      | Some _, Some eid =>
          s <~ get ;;
          when (negb (is_some (native s)))
            (in_controller (fun _ => t <~ Controller.now ;; streamed_command_sent eid (m_position c) t))
      | _, _ => ret tt
      end ;~
      rest <~ send_all sent_for l ;; ret (match seq with Some n => n :: rest | None => rest end)
  | _ :: l => send_all sent_for l
  end.

(** ** Events and evidence *)

Definition event_plan (e : Controller.effect) : string :=
  match e with
  | PlanStaged id _ _ _ | Controller.LegResult id _ _ _ | LegProgress id _ | PlanCleared id _ _ _ => id
  | _ => ""
  end.
Definition admitted (x : execution) : bool := bool_decide (x_phase x = ADMITTED).
Definition on_event (e : Controller.effect) : RuntimeM unit :=
  match e with ModeEvent true _ _ (Some m) => upd (fun s => s <| mode_feedback := m |>) | _ => ret tt end ;~
  let eid := event_plan e in
  s <~ get ;;
  match find_ex s eid with
  | None => ret tt
  | Some x =>
      if ended x then ret tt else
      match e with
      | PlanStaged _ ok why _ =>
          if negb ok then receipt eid REJECTED (nonempty_or (Some why) "controller refused") [] else
          receipt eid ADMITTED "" [] ;~
          if is_some (x_stream x) then ret tt else
          s <~ get ;;
          match supersedes (x_request x) with
          | Some o =>
              match find_ex s o with
              | Some old => when (negb (ended old))
                  (retire_native o ;~
                   receipt o SUPERSEDED ("superseded by " +:+ eid) [("superseded_by"%string, EvStr eid)])
              | None => ret tt
              end
          | None => ret tt
          end
      | Controller.LegResult _ ok why _ =>
          if ok then t <~ asking monotonic ;; upd_ex eid (fun x => x <| x_completed_at := Some t |>)
          else if is_some (x_drop x) then ret tt
          else match x_cancel_reason x with
               | Some w => receipt eid CANCELLED w []
               | None => if admitted x then receipt eid REJECTED (nonempty_or (Some why) "refused at selection") []
                         else receipt eid FAULTED (nonempty_or (Some why) "controller ended the leg") []
               end
      | _ => ret tt
      end
  end.

(** [_reconcile]: executions the controller no longer holds, with no event to say why. *)
Definition stream_applied (s : runtime) (st : stream) : bool :=
  match s_selected st with
  | Some rid => match find_attempt s (s_owner st, rid) with
                | Some a => a_terminal a && bool_decide (rv_phase (a_status a) = APPLIED)
                | None => false
                end
  | None => false
  end.
Definition reconcile_one (t : float) (loaded : string) (eid : string) : RuntimeM unit :=
  x <~ the_ex eid ;;
  if ended x then ret tt else
  match x_completed_at x with
  | Some at_ =>
      s <~ get ;;
      if bool_decide (x_phase x = APPLIED) && match x_stream x with Some st => stream_applied s st | None => true end
      then receipt eid COMPLETED "" []
      else when (t -f at_ >f applied_grace_s cfg)
             (receipt eid FAULTED "completed on feedback without plant acceptance evidence" [])
  | None =>
      if bool_decide (x_phase x = REQUESTED) || bool_decide (loaded = eid) || is_some (x_drop x) then ret tt else
      match x_cancel_reason x with
      | Some w => receipt eid CANCELLED w []
      | None => if admitted x then receipt eid CANCELLED "discarded by the controller (disarm, fault or stale observation)" []
                else receipt eid FAULTED "the controller dropped the running execution" []
      end
  end.
Definition reconcile : RuntimeM unit :=
  t <~ asking monotonic ;; s <~ get ;;
  each_execution (reconcile_one t (Controller.current_plan_id (ctl_of s))).

Definition set_attempt (k : string * string) (f : RevisionStatus -> RevisionStatus) : RuntimeM unit :=
  at_ <~ now ;; upd_attempt k (fun a => a <| a_status := (f (a_status a)) <| rv_at := at_ |> |>).
Definition attempt_phase (a : attempt) : Phase := rv_phase (a_status a).

(** The stream's own evidence of the command just sent. *)
Definition mark_sent (eid : string) (seq : Z) : RuntimeM unit :=
  s <~ get ;;
  match find_ex s eid ≫= x_stream with
  | Some st =>
      match s_selected st with
      | Some rid =>
          let k := (s_owner st, rid) in
          match find_attempt s k with
          | Some a => when (bool_decide (attempt_phase a = SELECTED))
              (upd_attempt k (fun a => a <| a_sent_seq := Some seq |>) ;~ set_attempt k (fun v => v <| rv_phase := SENT |>))
          | None => ret tt
          end
      | None => ret tt
      end
  | None => ret tt
  end.
Definition sent_first (eid : string) (seq : Z) : RuntimeM unit :=
  s <~ get ;;
  match find_ex s eid with
  | Some x => when (bool_decide (x_phase x = SELECTED) && negb (is_some (x_first_seq x)))
      (h <~ asking motor_health ;;
       upd_ex eid (fun x => x <| x_first_seq := Some seq |> <| x_epoch := hl_arm_epoch h |>) ;~
       receipt eid SENT "" [("command_seq"%string, EvInt seq); ("arm_epoch"%string, EvInt (hl_arm_epoch h))])
  | None => ret tt
  end.

(** [_pump_controller] *)
Definition pump_controller (sent_for : option string) (settle : bool) : RuntimeM unit :=
  s <~ get ;; let queue := node_sent s in
  sent <~ send_all sent_for queue ;;
  upd (fun s => s <| node_sent := [] |>) ;~
  each on_event queue ;~
  s <~ get ;;
  (let eid := Controller.current_plan_id (ctl_of s) in
   match find_ex s eid with
   | Some x => when (executing s && admitted x && negb (is_some (native s)))
       (receipt eid SELECTED "" [("arm_epoch"%string, EvInt (Contract.arm_epoch (authority_ s)))])
   | None => ret tt
   end) ;~
  match sent_for, sent with
  | Some eid, seq :: _ => sent_first eid seq ;~ mark_sent eid seq
  | _, _ => ret tt
  end ;~
  when settle reconcile.

Definition cancel_update (why : string) (eid : string) : control_msg :=
  no_control <| c_cancel := true |> <| c_reason := Some why |> <| c_cancel_plan_id := Some eid |>.
Definition drop_staged (eid : string) (why : string) : RuntimeM unit :=
  retire_native eid ;~
  s <~ get ;;
  when (plan_loaded s eid) (control (cancel_update why eid) ;~ pump_controller None false).

Definition settle_stream_attempts (eid : string) (why : string) : RuntimeM unit :=
  s <~ get ;;
  match find_ex s eid ≫= x_stream with
  | None => throw none_error
  | Some st =>
      each (fun k => s <~ get ;;
        match find_attempt s k with
        | Some a => when (bool_decide (k.1 = s_owner st) && bool_decide (rv_execution_id (a_status a) = eid))
            (set_attempt k (fun v => v <| rv_phase := if bool_decide (rv_phase v = REQUESTED) then REJECTED else CANCELLED |>
                                       <| rv_reason := why |>))
        | None => ret tt
        end) (map fst (stream_attempts s))
  end.

(** A cancel of an execution the RT may hold waits for the RT's confirmation. *)
Definition drop_of (s : runtime) (why : string) : option (string * Z * Z * Z) :=
  h ← ref s; Some (why, Horizon.id h, Horizon.session h, Horizon.epoch h).
Definition cancel_execution (eid : string) (why : string) : RuntimeM unit :=
  x <~ the_ex eid ;;
  if is_some (x_drop x) then ret tt else
  upd_ex eid (fun x => x <| x_cancel_reason := Some why |> <| x_completed_at := None |>) ;~
  s <~ get ;;
  (if is_some (x_stream x) then
     upd_stream eid (fun st => st <| s_anchor := None |>) ;~
     (if bool_decide (x_phase x = REQUESTED) then receipt eid REJECTED why [] ;~ settle_stream_attempts eid why
      else if ended x then ret tt
      else if plays s eid && requested s then upd_ex eid (fun x => x <| x_drop := drop_of s why |>)
      else receipt eid CANCELLED why [] ;~ settle_stream_attempts eid why) ;~
     upd_stream eid (fun st => st <| s_pending := None |>)
   else when (negb (ended x) && negb (bool_decide (x_phase x = REQUESTED)) && plays s eid && requested s)
          (upd_ex eid (fun x => x <| x_drop := drop_of s why |>))) ;~
  retire_native eid ;~
  s <~ get ;;
  when (plan_loaded s eid) (control (cancel_update why eid)) ;~
  pump_controller None true.

(** [_expire]: whether the execution's deadline passed before its selection. *)
Definition expire (eid : string) : RuntimeM bool :=
  x <~ the_ex eid ;; s <~ get ;;
  if is_some (x_stream x) || negb (admitted x) || (plays s eid && requested s) then ret false else
  t <~ now ;; late <~ lift (expired (x_request x) t) ;;
  if late then receipt eid EXPIRED "admit_by passed before selection" [] ;~ drop_staged eid "expired" ;~ ret true else ret false.

Definition refusal_text (r : refusal) : string :=
  match r with
  | RefInstance _ _ => "request is for another instance" | RefJointOrder => "joint order differs"
  | RefContractVersion _ _ => "contract version differs" | RefProfile _ => "profile is not offered"
  | RefModel _ _ => "planned against another model" | RefAdmitClock _ _ => "admit_by is on another clock"
  | RefAdmitPassed => "admit_by has passed" | RefNotOwned _ => "the robot is not owned" | RefNotArmed _ => "the robot is not ARMED"
  | RefNotPending _ => "supersedes names no pending execution" | RefNotReplaceable _ _ => "cannot be superseded"
  | RefNameIt _ => "name it in supersedes to replace it" | RefCancelFirst _ _ => "cancel it first"
  end.
(** A refusal, the empty string where there is none. *)
Definition text_of (r : option refusal) : string := match r with Some r => refusal_text r | None => "" end.
Definition blank (s : string) : bool := bool_decide (s = ""%string).
(** [a or b] *)
Definition or_else (a : string) (b : RuntimeM string) : RuntimeM string := if blank a then b else ret a.

(** The controller is told to fly the plan. *)
Definition releasing (eid : string) : RuntimeM unit := fun w => say (Releasing eid (asked w)) w.
Definition reject_staged (eid : string) (why : string) : RuntimeM unit := receipt eid REJECTED why [] ;~ drop_staged eid why.

(** [_select]: expiry, then ARM, then the controller's own release checks. *)
Definition select (eid : string) (start_at : option Stamp) : RuntimeM unit :=
  gone <~ expire eid ;;
  if gone then ret tt else
  s <~ get ;;
  match selection_refusal (authority_ s) with
  | Some r => reject_staged eid (refusal_text r)
  | None =>
      if is_some (native s) then
        if bool_decide (native_pending s = Some eid) then ret tt else
        why <~ in_controller (fun _ => Controller.release_error eid) ;;
        if negb (blank why) then reject_staged eid why else upd (fun s => s <| native_pending := Some eid |>)
      else
        releasing eid ;~
        match start_at with
        | None => control (no_control <| c_execute := Some eid |>)
        | Some st =>
            t <~ in_controller (fun _ => Controller.exec_time) ;; n <~ asking monotonic_ns ;;
            in_controller (fun _ => Controller.release eid (Some (t +f of_Z (ns st - n) /f e9)))
        end ;~
        pump_controller None true
  end.
End Runtime.
