(* ===== verification/RuntimeClients.v ===== *)
(** The operations a client session queues on the supervisor's loop
    ([supervisor/runtime.py]): ownership, authority, executions, group members,
    presets, payload and setpoints. *)
From stdpp Require Import pretty.
From Stdlib Require Import SpecFloat PrimFloat FloatOps.
From S2P Require Import Prelude Floats Motion Contract Stream RtProtocol Observation Servo Policy Effects Executor Controller Horizon Runtime.

Section Runtime.
Context {cfg : Config} {ccfg : Controller.Config} {env : Env} {henv : Horizon.Env}.

(** ** Client operations *)

Definition claim (session : string) : RuntimeM unit :=
  s <~ get ;;
  if bool_decide (session ∈ closed_sessions s) then refuse "this client session is closed" else
  if is_some (owner s) && negb (bool_decide (owner s = Some session)) then refuse "already owned by another client" else
  upd (fun s => s <| owner := Some session |>) ;~ publish.

(** [_abandon]: cancel what lives, forget the setpoint and the owner; stay armed. *)
Definition abandon (why : string) : RuntimeM unit :=
  each_execution (fun eid =>
    x <~ the_ex eid ;; when (negb (ended x) && negb (is_some (x_completed_at x))) (cancel_execution eid why)) ;~
  in_controller (fun _ => Controller.clear_jog) ;~
  upd (fun s => s <| owner := None |>) ;~ publish.
Definition unclaim (session : string) : RuntimeM unit := owns session ;~ abandon "owner released the robot".
Definition owner_lost (session : string) : RuntimeM unit :=
  s <~ get ;;
  when (bool_decide (owner s = Some session)) (abandon "owner disconnected") ;~
  upd (fun s => s <| closed_sessions := List.filter (fun x => negb (bool_decide (x = session))) (closed_sessions s) |>
                  <| stream_marks := ddel session (stream_marks s) |>).
(** [close_session], before its [_owner_lost] runs on the loop. *)
Definition close_session (session : string) : RuntimeM unit :=
  upd (fun s => s <| closed_sessions := session :: closed_sessions s |>).

Definition arm (session : string) : RuntimeM Z :=
  owns session ;~
  s <~ get ;;
  if existsb (fun j => negb (j_armed j)) (rpc_pending s)
  then refuse "a DISARM is still being confirmed; ARM after it completes" else
  when (negb (Controller.armed (ctl_of s))) (control (no_control <| c_arm := Some true |>) ;~ pump_controller None true) ;~
  s <~ get ;; ret (authority_gen s).

(** Live executions; a planned one whose completion was seen is left to its evidence. *)
Definition cancel_live (why : string) : RuntimeM unit :=
  each_execution (fun eid =>
    x <~ the_ex eid ;;
    when (negb (ended x) && (is_some (x_stream x) || negb (is_some (x_completed_at x)))) (cancel_execution eid why)).
Definition disarm (session : string) : RuntimeM Z :=
  owns session ;~ cancel_live "disarmed" ;~
  control (no_control <| c_cancel := true |> <| c_arm := Some false |> <| c_reason := Some "disarm"%string |>) ;~
  pump_controller None true ;~
  s <~ get ;; ret (authority_gen s).

Definition hold (session why : string) : RuntimeM unit :=
  owns session ;~ cancel_live why ;~
  control (no_control <| c_cancel := true |> <| c_reason := Some why |>) ;~ pump_controller None true.

(** [codec.encode(a) == codec.encode(b)]: the same request, number for number. *)
Definition same_opt {A} (f : A -> A -> bool) (a b : option A) : bool :=
  match a, b with Some a, Some b => f a b | None, None => true | _, _ => false end.
Definition same_mat (a b : mat) : bool := (length a =? length b)%nat && forallb (fun x => array_equal x.1 x.2) (zip a b).
Definition same_trajectory (a b : JointTrajectory) : bool :=
  array_equal (times a) (times b) && same_mat (positions a) (positions b) && same_opt same_mat (velocities a) (velocities b).
Definition same_request (a b : TrajectoryRequest) : bool :=
  bool_decide (request_id a = request_id b) && bool_decide (req_instance_id a = req_instance_id b) &&
  bool_decide (req_joint_names a = req_joint_names b) && same_trajectory (Contract.trajectory a) (Contract.trajectory b) &&
  bool_decide (profile a = profile b) &&
  same_opt (fun g h => array_equal (gains_kp g) (gains_kp h) && array_equal (gains_kd g) (gains_kd h)) (gains a) (gains b) &&
  bool_decide (Contract.model_token a = Contract.model_token b) &&
  match Contract.start a, Contract.start b with ON_ADMIT, ON_ADMIT | ON_RELEASE, ON_RELEASE => true | _, _ => false end &&
  bool_decide (admit_by a = admit_by b) &&
  same_opt (fun c d => (Contract.vel_tol c =f Contract.vel_tol d) && same_opt array_equal (Contract.goal_q c) (Contract.goal_q d) &&
                       same_opt feqb (Contract.residual_max c) (Contract.residual_max d)) (Contract.completion a) (Contract.completion b) &&
  bool_decide (supersedes a = supersedes b) &&
  same_opt (fun c d => same_mat (task_R c) (task_R d) && array_equal (kc c) (kc d) && array_equal (dc c) (dc d))
    (Contract.cartesian a) (Contract.cartesian b).

Definition on_release (x : execution) : bool := match Contract.start (x_request x) with ON_RELEASE => true | ON_ADMIT => false end.
Definition plan_of (eid : string) (r : TrajectoryRequest) (vs : mat) : plan_msg :=
  let g := match gains r with Some g => (gains_kp g, gains_kd g) | None => profile_gains cfg end in
  {| plan_id := eid; phase := request_id r; gated := true;
     body := {| p_times := times (Contract.trajectory r); p_positions := positions (Contract.trajectory r); p_velocities := vs;
                p_kp := g.1; p_kd := g.2; p_poses := None; p_cartesian := CartesianImpedance_spec <$> Contract.cartesian r |};
     completion := (fun c => {| vel_tol := Contract.vel_tol c; goal_q := Contract.goal_q c;
                                residual_max := Contract.residual_max c |}) <$> Contract.completion r;
     token := Contract.model_token r |}.

(** Why a submission is refused: the profile, the contract, then the flight in progress. *)
Definition submit_refusal (r : TrajectoryRequest) (live : option ExecutionStatus) : RuntimeM string :=
  s <~ get ;;
  if is_some (Contract.cartesian r) && is_some (native s) then ret "Cartesian legs are streamed only"%string else
  at_ <~ now ;;
  a <~ lift (admission_refusal r (identity cfg) (capabilities cfg) (authority_ s) at_ (Controller.model_token ccfg)) ;;
  or_else (text_of a) (or_else (text_of (supersession_refusal r live)) (
    if match supersedes r with Some o => plays s o | None => false end && requested s
    then ret "reference selection is in flight; cancel before a new admission"%string
    else ret (if is_some (velocities (Contract.trajectory r)) then "" else "the profile needs waypoint velocities")%string)).

(** [f"{instance_id}.{next(ids)}.{uuid}"] *)
Definition new_id : RuntimeM string :=
  s <~ get ;; let n := ids s in
  upd (fun s => s <| ids := (n + 1)%Z |>) ;~
  u <~ asking uuid ;; ret (instance_id_ cfg +:+ "." +:+ pretty n +:+ "." +:+ u).
Definition first_receipt (eid rid : string) (at_ : Stamp) : result Receipt :=
  Receipt_new {| rc_execution_id := eid; rc_request_id := rid; rc_instance_id := instance_id_ cfg; rc_phase := REQUESTED;
                 rc_at := at_; rc_reason := ""; rc_evidence := ∅ |}.
Definition new_execution (r : TrajectoryRequest) (first : Receipt) (st : ExecutionStatus) (s : option stream) (rev : Z) : execution := {|
  x_request := r; x_stream := s; x_payload_revision := rev; x_status := st; x_receipts := [first]; x_first_seq := None; x_epoch := 0;
  x_cancel_reason := None; x_drop := None; x_completed_at := None |}.

Definition submit (session : string) (r : TrajectoryRequest) : RuntimeM string :=
  owns session ;~
  s <~ get ;;
  match by_request s !! request_id r with
  | Some known =>
      x <~ the_ex known ;;
      if same_request (x_request x) r then ret known
      else refuse "request_id was already used with different content"
  | None =>
      let live := (fun x => x_status x.2) <$> current s in
      eid <~ new_id ;;
      at_ <~ now ;;
      first <~ lift (first_receipt eid (request_id r) at_) ;;
      st <~ lift (start_status first) ;;
      s <~ get ;;
      upd (fun s => s <| executions := dput eid (new_execution r first st None (pl_revision (payload_ s))) (executions s) |>
                      <| by_request := <[ request_id r := eid ]> (by_request s) |>) ;~
      why <~ submit_refusal r live ;;
      if negb (blank why) then receipt eid REJECTED why [] ;~ ret eid else
      match velocities (Contract.trajectory r) with
      | None => throw none_error
      | Some vs =>
          loaded <~ catch caught (in_controller (fun _ => Controller.on_plan (plan_of eid r vs)) ;~ ret true)
                      (fun e => receipt eid REJECTED "controller refused the plan" [] ;~ ret false) ;;
          if negb loaded then ret eid else
          pump_controller None true ;~
          x <~ the_ex eid ;;
          (if bool_decide (x_phase x = REQUESTED)
           then receipt eid REJECTED "the controller did not acknowledge the plan" []
           else when (admitted x && negb (on_release x)) (select eid None)) ;~
          ret eid
      end
  end.

Definition stream_select (eid : string) : RuntimeM unit := upd (fun s => s <| native_pending := Some eid |>).
(** The window of a scheduled release. *)
Definition check_start (x : execution) (at_ : Stamp) : RuntimeM unit :=
  s <~ get ;;
  if is_some (native s) || is_some (x_stream x)
  then refuse "a scheduled release needs the supervisor's own trajectory clock" else
  if negb (bool_decide (Contract.clock at_ = PC)) || blank (domain_ cfg) || negb (bool_decide (domain at_ = domain_ cfg))
  then refuse "start_at is not on this supervisor's clock" else
  n <~ asking monotonic_ns ;;
  let lead := of_Z (ns at_ - n) /f e9 in
  if negb ((min_lead <=f lead) && (lead <=f max_lead)) then refuse "start_at is outside the lead window" else ret tt.
Definition release (session eid : string) (start_at : option Stamp) : RuntimeM unit :=
  owns session ;~
  x <~ get_ex eid ;;
  match start_at with Some at_ => check_start x at_ | None => ret tt end ;~
  if is_some (x_stream x) then
    if negb (admitted x) then refuse "stream release requires ADMITTED" else
    if negb (on_release x) then refuse "stream starts on admission" else stream_select eid
  else
    if negb (admitted x) then ret tt else
    if negb (on_release x) then refuse "starts on admission, not on release" else select eid start_at.

Definition cancel (session eid why : string) : RuntimeM unit :=
  owns session ;~
  x <~ get_ex eid ;;
  when (negb (ended x) && negb (is_some (x_completed_at x))) (cancel_execution eid (nonempty_or (Some why) "cancelled")).

(** *** Group operations of the loop thread *)

Definition group_check (session : string) : RuntimeM unit :=
  owns session ;~
  s <~ get ;; if negb (is_some (native s)) || negb (group_capable cfg) then refuse "the RT server has no group record" else ret tt.
Definition group_set (session : string) (joined : Z * Z * Z) : RuntimeM (Z * option (Z * Z * Z * Z)) :=
  owns session ;~
  s <~ get ;;
  let epoch := Contract.arm_epoch (authority_ s) in
  if match group_ s with Some (g, _, _, e) => negb (g =? joined.1.1) && (e =? epoch) | None => false end
  then refuse "already joined to another group" else
  upd (fun s => s <| group_ := Some (joined, epoch) |>) ;~ ret (epoch, group_ s).
Definition group_unset (session : string) (previous : option (Z * Z * Z * Z)) : RuntimeM unit :=
  owns session ;~ upd (fun s => s <| group_ := previous |>).
Definition group_restore (session : string) (joined : Z * Z * Z * Z) : RuntimeM unit :=
  owns session ;~ upd (fun s => s <| group_ := match group_ s with None => Some joined | Some g => Some g end |>).
Definition group_cancel_done : RuntimeM unit :=
  t <~ asking monotonic ;; upd (fun s => s <| group_cancelling := f0 |> <| group_hold_grace := t +f f1 |>).
Definition group_release_op (session eid : string) (gid budget : Z) : RuntimeM unit :=
  owns session ;~
  s <~ get ;;
  match group_ s with
  | Some (g, member, _, epoch) =>
      if negb (g =? gid) then refuse "join the group before releasing a member" else
      ack_ns <~ lift (py_int (ack_timeout_s cfg *f e9)) ;;
      if negb ((0 <? budget) && (budget <=? Z.min GROUP_MAX_BUDGET_NS (ack_ns / 2)))
      then refuse "budget must be positive and at most half the RT acknowledgement timeout" else
      if negb (epoch =? Contract.arm_epoch (authority_ s))
      then upd (fun s => s <| group_ := None |>) ;~ refuse "the ARM epoch changed since the group was joined" else
      x <~ get_ex eid ;;
      if is_some (x_stream x) || negb (on_release x) then refuse "a group member is a planned ON_RELEASE execution" else
      upd (fun s => s <| group_release := let l := dput eid (gid, member, budget) (group_release s) in drop (length l - 16) l |>
                      <| group_reports := ddel eid (group_reports s) |>) ;~
      catch (fun _ => true) (release session eid None)
        (fun e => upd (fun s => s <| group_release := ddel eid (group_release s) |>) ;~ throw e)
  | None => refuse "join the group before releasing a member"
  end.
(** Members released for the group, or committing through it, are cancelled with it. *)
Definition group_members (s : runtime) (gid : Z) : list string :=
  let l := map fst (group_release s) in
  match ref s with
  | Some h => match group_used h, Horizon.key h with
              | Some (g, _, _), Some k => if (g =? gid) && negb (bool_decide (k ∈ l)) then l ++ [k] else l
              | _, _ => l
              end
  | None => l
  end.
Definition group_take (session : string) (gid : Z) (cancel_members : bool) : RuntimeM (option (Z * Z * Z * Z)) :=
  owns session ;~
  s <~ get ;;
  match group_ s with
  | Some (g, m, n, e) =>
      if negb (g =? gid) then ret None else
      upd (fun s => s <| group_ := None |>) ;~
      when cancel_members
        (each (fun eid =>
           s <~ get ;;
           match find_ex s eid with
           | Some x => when (negb (ended x) && negb (is_some (x_completed_at x))) (cancel_execution eid "group cancelled")
           | None => ret tt
           end) (group_members s gid) ;~
         t <~ asking monotonic ;;
         let until := t +f f2 +f f2 *f ack_timeout_s cfg in
         upd (fun s => s <| group_cancelling := until |> <| group_hold_grace := until +f f1 |>)) ;~
      upd (fun s => s <| group_release := [] |>) ;~
      ret (Some (g, m, n, e))
  | None => ret None
  end.

(** *** Controller settings *)

(** The first preset of the law in force with the gains in force, or the selected soft one. *)
Definition gains_match (kp kd kp' kd' : vec) : bool := array_equal kp kp' && array_equal kd kd'.
Fixpoint preset_id (s : runtime) (found : option string) (l : list (string * preset)) : option string :=
  match l with
  | [] => found
  | (name, p) :: l =>
      let '(law, (kp, kd)) := mode_feedback s in
      if negb (bool_decide (p_law p = law)) then preset_id s found l
      else if bool_decide (law = "soft"%string)
           then preset_id s (if bool_decide (selected_soft s = Some name) then Some name else found) l
           else if gains_match (preset_kp p) (preset_kd p) kp kd then Some name else preset_id s found l
  end.
Definition controller_state (s : runtime) : ControllerState :=
  let '(law, (kp, kd)) := mode_feedback s in
  {| ct_law := law; ct_preset_id := preset_id s None (presets cfg); ct_kp := kp; ct_kd := kd; ct_payload := payload_ s |}.

Definition select_control_preset (session name : string) : RuntimeM ControllerState :=
  owns session ;~
  match dget name (presets cfg) with
  | None => refuse "unknown controller preset"
  | Some p =>
      spec <~ match preset_hold p with
              | None => ret None
              | Some hold_spec =>
                  st <~ asking latest_state ;; s <~ get ;;
                  if is_some (native s) && match st.1 ≫= rt_reference with Some r => negb (t_reference_id r =? 0) | None => false end
                  then refuse "Soft unavailable after native reference use in this ARM epoch" else
                  let n := soft_ids s in
                  upd (fun s => s <| soft_ids := (n + 1)%Z |>) ;~
                  checked <~ catch caught
                    (v <~ in_controller (fun _ => Controller.validate_pose_hold
                            {| ph_id := of_Z n; ph_kc := ph_kc hold_spec; ph_dc := ph_dc hold_spec;
                               ph_nullspace_kp := ph_nullspace_kp hold_spec; ph_nullspace_kd := ph_nullspace_kd hold_spec |}) ;; ret v)
                    (fun e => refuse (exn_text e)) ;;
                  ret (Some checked)
              end ;;
      s <~ get ;;
      if bool_decide (ct_preset_id (controller_state s) = Some name) then ret (controller_state s) else
      each_execution (fun eid => x <~ the_ex eid ;; when (negb (ended x)) (cancel_execution eid "controller preset changed")) ;~
      match spec with
      | Some v => upd (fun s => s <| selected_soft := Some name |>) ;~ control (no_control <| c_pose_hold := Some v |>)
      | None => upd (fun s => s <| selected_soft := None |>) ;~
                control (no_control <| c_gains := Some (Some (preset_kp p), Some (preset_kd p)) |>)
      end ;~
      pump_controller None true ;~
      s <~ get ;;
      if negb (bool_decide (ct_law (controller_state s) = p_law p)) then refuse "controller did not confirm the requested law"
      else ret (controller_state s)
  end.

(** The executor of the controller is reached directly. *)
Definition set_payload (session : string) (mass : float) (com : option vec) : RuntimeM PayloadState :=
  owns session ;~
  v <~ lift (PayloadValue_new mass com) ;;
  s <~ get ;;
  if is_some (current s) then refuse "cancel and retire the arm execution before replacing payload" else
  catch is_ValueError
    (in_controller (fun _ => c <~ get ;; e <~ lift (Executor.set_payload (executor c) (mass_kg v) (com_ee v)) ;;
                             upd (fun c => c <| executor := e |>)))
    (fun e => refuse (exn_text e)) ;~
  upd (fun s => s <| payload_ := {| pl_revision := pl_revision (payload_ s) + 1; pl_value := v |} |>) ;~
  s <~ get ;; ret (payload_ s).

(** [load_model/1]: [n] is the revision when it is an integer, [names] the joints of a
    model that is a mapping, and [build] what [BodyListDynamics] makes of it. *)
(** [except (ValueError, KeyError, TypeError)] *)
Definition refusable (e : exn) : bool :=
  is_ValueError e || match e with KeyError | TypeError _ => true | _ => false end.
Definition half_s : float := Eval vm_compute in Prim2SF 0.5%float.
Definition set_load_model (session : string) (n : option Z) (names : option (list string)) (build : result Dynamics) : RuntimeM Z :=
  owns session ;~
  s <~ get ;;
  match n with
  | None => refuse "load model revision must be an integer above the installed one"
  | Some n =>
      if (n <=? load_revision s)%Z then refuse "load model revision must be an integer above the installed one" else
      if is_some (current s) then refuse "cancel and retire the arm execution before replacing the load model" else
      if is_some (native s) then refuse "a native-reference supervisor plays the reference on the RT box: no PC load model" else
      if negb (bool_decide (names = Some (joints cfg))) then refuse "load model joints must be this arm's, in order" else
      let c := ctl_of s in
      stale <~ match last_state_at c with
               | None => ret true
               | Some at_ => t <~ controller_clock ;;
                             ret (t -f at_ >f match Controller.policy ccfg with Some p => state_timeout_sec p | None => half_s end)
               end ;;
      if stale then refuse "no fresh measured pose to check the load model at" else
      checked <~ catch refusable (lift (d <-- build ;; tau <-- gravity d (js_position (last_state c)) ;; Ok (d, tau)))
                   (fun e => refuse (exn_text e)) ;;
      over <~ match Controller.policy ccfg with
              | Some p => lift (any2 (fun t l => fabs t >f l) checked.2 (torque_limits p))
              | None => ret false
              end ;;
      if negb (all_finite checked.2) || over then refuse "load model gravity exceeds the torque limits" else
      catch is_ValueError
        (in_controller (fun _ => c <~ get ;; e <~ lift (Executor.set_dynamics (executor c) checked.1) ;;
                                 upd (fun c => c <| executor := e |>)))
        (fun e => refuse (exn_text e)) ;~
      upd (fun s => s <| load_revision := n |>) ;~ ret n
  end.

(** [setpoint/1] *)
Definition beyond (q : vec) (band : vec * vec) : result bool :=
  a <-- any2 (fun x lo => x <f (lo -f ENVELOPE_TOL)) q band.1 ;;
  b <-- any2 (fun x hi => x >f (hi +f ENVELOPE_TOL)) q band.2 ;; Ok (a || b).
Definition setpoint (session : string) (q : vec) : RuntimeM float :=
  owns session ;~
  s <~ get ;;
  if is_some (native s) then refuse "setpoints are on the streamed path" else
  if negb (length q =? length (joints cfg))%nat || negb (all_finite q) then refuse "a setpoint is finite joint positions" else
  if is_some (current s) then refuse "an execution is live: cancel it before streaming setpoints" else
  match jog_refusal (ctl_of s) with
  | Some w => refuse w
  | None =>
      let c := ctl_of s in
      p <~ some_or (Controller.policy ccfg) none_error ;;
      out <~ match envelope_band c with Some b => lift (beyond q b) | None => ret false end ;;
      if out then refuse "setpoint moves a joint past its position limit" else
      d <~ lift (bcast fsub q (js_position (last_state c))) ;;
      far <~ lift (vec_max (np_abs d)) ;;
      if far >f abort_pos_err_rad p then refuse "setpoint is too far from the measured pose" else
      w <~ in_controller (fun _ => Controller.on_jog q) ;;
      match w with Some w => refuse w | None => ret (JogHold.timeout_s (jog c)) end
  end.
End Runtime.
