(* ===== verification/RuntimeNative.v ===== *)
(** The native side of the supervisor ([supervisor/runtime.py]): what a tick does
    with the reference the RT plays, the confirmation of drops, and the streams
    that revise a reference in flight. *)
From stdpp Require Import pretty.
From Stdlib Require Import SpecFloat PrimFloat FloatOps.
From S2P Require Import Prelude Floats Motion Contract Stream RtProtocol Observation Servo Policy Effects Executor Controller Horizon Runtime RuntimeClients.

Section Runtime.
Context {cfg : Config} {ccfg : Controller.Config} {env : Env} {henv : Horizon.Env}.

(** ** The native reference *)

(** What a received state says of the reference [rid] of a session and ARM epoch. *)
Definition seen_dropped (p : rt_state) (rid sess epoch : Z) : option string :=
  if negb (s_session_id (rt p) =? sess) || negb (s_arm_epoch (rt p) =? epoch) then Some "rt_epoch"%string
  else if negb (RtProtocol.armed (rt p)) then Some "rt_disarmed"%string
  else match rt_reference p with
       | Some r =>
           if negb (t_reference_id r =? 0) &&
              ((t_reference_id r >? rid) || ((t_reference_id r =? rid) && negb (runs r)))
           then Some "rt_observed"%string else None
       | None => None
       end.
(** How the drop of an execution is confirmed: by the worker, or by the state where the worker could not. *)
Definition drop_evidence (s : runtime) (st : option rt_state) (eid : string) (rid sess epoch : Z) : option string :=
  let how := h ← ref s; dget eid (dropped h) in
  if match how with Some w => bool_decide (w = "unconfirmed"%string) | None => true end
  then p ← st; seen_dropped p rid sess epoch else how.
Definition confirm_drop (st : option rt_state) (eid : string) : RuntimeM unit :=
  x <~ the_ex eid ;;
  match x_drop x with
  | None => ret tt
  | Some (why, rid, sess, epoch) =>
      if ended x then ret tt else
      s <~ get ;;
      match drop_evidence s st eid rid sess epoch with
      | None => ret tt
      | Some how =>
          upd_ex eid (fun x => x <| x_drop := None |>) ;~
          when (is_some (native s)) (in_native (Horizon.handle (TakeDrop eid))) ;~
          receipt eid CANCELLED why [("drop_confirmed"%string, EvStr how)] ;~
          when (is_some (x_stream x)) (settle_stream_attempts eid why)
      end
  end.
Definition confirm_drops (st : option rt_state) : RuntimeM unit := each_execution (confirm_drop st).

Definition the_ref : RuntimeM horizon := s <~ get ;; some_or (ref s) none_error.
Definition ref_evidence (h : horizon) : list (string * evidence_value) :=
  [("reference_id"%string, EvInt (Horizon.id h)); ("reference_revision"%string, EvInt (Horizon.revision h))].

(** [_selection_unresolved] *)
Definition unresolved_reason : string := "selection unresolved".
Definition fail_attempt (failure : Phase) (st : stream) (rid : option string) : RuntimeM unit :=
  match rid with
  | None => ret tt
  | Some rid =>
      s <~ get ;;
      match find_attempt s (s_owner st, rid) with
      | Some a => when (negb (Contract.terminal (attempt_phase a)))
          (set_attempt (s_owner st, rid)
             (fun v => v <| rv_phase := if bool_decide (Some (rv_request_id v) = s_selected st) then failure else CANCELLED |>
                         <| rv_reason := unresolved_reason |>))
      | None => ret tt
      end
  end.
Definition selection_unresolved : RuntimeM unit :=
  h <~ the_ref ;; s <~ get ;;
  match (eid ← Horizon.key h; x ← find_ex s eid; st ← x_stream x; if ended x then None else Some (eid, x, st)) with
  | Some (eid, x, st) =>
      if is_some (x_drop x)
      then upd_stream eid (fun st => st <| s_pending := None |> <| s_anchor := None |>) ;~ upd (fun s => s <| native_pending := None |>)
      else
        let failure := if admitted x then CANCELLED else FAULTED in
        fail_attempt failure st (s_selected st) ;~ fail_attempt failure st (s_pending st) ;~
        receipt eid failure unresolved_reason (ref_evidence h) ;~
        upd_stream eid (fun st => st <| s_pending := None |> <| s_anchor := None |>) ;~
        upd (fun s => s <| native_pending := None |>) ;~
        drop_staged eid unresolved_reason
  | None => in_native Horizon.cancel
  end.

(** [_publish_measured_reference_hold] *)
Definition publish_measured_hold (p : rt_state) (rx : float) (r : ref_state) (at_ : TrajectoryPoint) : RuntimeM unit :=
  s <~ get ;;
  hold <~ lift (hold_command (executor (ctl_of s)) {| js_position := s_q (rt p); js_velocity := s_dq (rt p) |} None
                  (Integral.bias (integral (ctl_of s)))) ;;
  in_native (Horizon.publish {|
    d_command := {| torque := tau_ff hold; d_kp := cmd_kp hold; d_kd := cmd_kd hold |}; d_id := t_reference_id r;
    d_revision := t_revision r; d_phase := pt_time at_; d_sampled := rx |} false).
Definition finite_packet (st : option rt_state) : option rt_state :=
  p ← st; if all_finite (s_q (rt p)) && all_finite (s_dq (rt p)) then Some p else None.
(** An old selected END reference keeps its endpoint; a new one gets its first decision. *)
Definition keep_endpoint (st : option rt_state) (rx : float) : RuntimeM unit :=
  h <~ the_ref ;;
  match finite_packet st, observed h, observed_point h with
  | Some p, Some r, Some at_ => when ((t_status r =? REFERENCE_END) && negb (t_reference_id r =? Horizon.id h)) (publish_measured_hold p rx r at_)
  | _, _, _ => ret tt
  end.
Definition first_decision (st : option rt_state) (rx : float) : RuntimeM unit :=
  h <~ the_ref ;;
  match finite_packet st, Horizon.feedback h, Horizon.point h with
  | Some p, Some r, Some at_ =>
      when (Horizon.selected h && match selection_rx h with Some t => t =f rx | None => false end &&
            negb (is_some (first_tracking_at h)) && is_some (Horizon.key h)) (publish_measured_hold p rx r at_)
  | _, _, _ => ret tt
  end.
Definition keep_group_report : RuntimeM unit :=
  h <~ the_ref ;;
  match group_reply h, Horizon.key h with
  | Some g, Some k => when (bool_decide (ga_key g = Some k))
      (upd (fun s => s <| group_reports := let l := dput k (g, Horizon.id h) (group_reports s) in drop (length l - 32) l |>))
  | _, _ => ret tt
  end.

(** The reference failed under its execution. *)
Definition rt_failure (h : horizon) : bool := Horizon.evidence h.
Definition report_failure : RuntimeM unit :=
  h <~ the_ref ;; s <~ get ;;
  match (eid ← Horizon.key h; x ← find_ex s eid; if ended x then None else Some (eid, x)) with
  | Some (eid, x) =>
      when (negb (no_error h) && (negb (Horizon.selected h) || rt_failure h))
        (upd (fun s => s <| native_failed := true |>) ;~
         when (admitted x && rt_failure h)
           (receipt eid SELECTED "" (ref_evidence h ++ [("arm_epoch"%string, EvInt (Horizon.epoch h))])) ;~
         x <~ the_ex eid ;;
         failure <~ (if admitted x
                     then t <~ now ;; late <~ lift (expired (x_request x) t) ;; ret (if late then EXPIRED else REJECTED)
                     else ret FAULTED) ;;
         receipt eid failure (error h) (ref_evidence h) ;~ drop_staged eid (error h))
  | None => ret tt
  end.

Definition is_runtime (e : exn) : bool := is_ValueError e || is_RtLinkError e || match e with RuntimeError _ => true | _ => false end.
Definition stage_error (e : exn) : string := match e with RtLinkError m | RuntimeError m => m | _ => exn_text e end.
Definition say_and_approve : RuntimeM unit := h <~ the_ref ;; say (Committing (Horizon.key h)) ;~ in_native approve.

(** The measured hold of the supervisor's own. *)
Definition own_hold : RuntimeM unit :=
  h <~ the_ref ;;
  when (negb (is_some (Horizon.key h)) && negb (no_error h))
    (t <~ asking monotonic ;; s <~ get ;;
     if t <f group_hold_grace s then in_native (Horizon.handle ClearError) else upd (fun s => s <| native_failed := true |>)) ;~
  h <~ the_ref ;; s <~ get ;;
  when (negb (is_some (Horizon.key h)) && ready h && negb (is_some (native_pending s)) && negb (native_failed s)) say_and_approve.

(** The pending execution's way to its reference: staged, committed, then followed. *)
Definition stage_pending (eid : string) (x : execution) : RuntimeM unit :=
  h <~ the_ref ;;
  if busy h then when (negb (is_some (Horizon.key h))) (in_native Horizon.cancel) else
  if has_status REFERENCE_RUNNING (observed h) then in_native Horizon.cancel else
  catch is_runtime
    (s <~ get ;; tr <~ lift (staged_trajectory (ctl_of s) eid) ;;
     _ <~ in_native (Horizon.stage (Some eid) tr (ns <$> admit_by (x_request x)) false true) ;;
     upd (fun s => s <| native_failed := false |>))
    (fun e => reject_staged eid (stage_error e)).
Definition follow_selected (eid : string) (x : execution) : RuntimeM unit :=
  h <~ the_ref ;;
  when (admitted x)
    (at_ <~ some_or (Horizon.point h) none_error ;;
     receipt eid SELECTED "" (ref_evidence h ++ [("reference_phase"%string, EvFloat (pt_time at_)); ("arm_epoch"%string, EvInt (Horizon.epoch h))])) ;~
  releasing eid ;~
  control (no_control <| c_execute := Some eid |>) ;~
  upd (fun s => s <| native_pending := None |>) ;~
  s <~ get ;; when (negb (executing s)) (in_native Horizon.cancel) ;~
  pump_controller None true.
Definition commit_pending (eid : string) : RuntimeM unit :=
  s <~ get ;;
  why <~ or_else (text_of (selection_refusal (authority_ s))) (in_controller (fun _ => Controller.release_error eid)) ;;
  if negb (blank why) then reject_staged eid why else
  in_native (Horizon.handle (SetGroup (dget eid (group_release s)))) ;~
  upd (fun s => s <| group_release := ddel eid (group_release s) |>) ;~
  say_and_approve.
Definition pending_step : RuntimeM unit :=
  s <~ get ;;
  match native_pending s with
  | None => ret tt
  | Some eid =>
      match find_ex s eid with
      | Some x =>
          if ended x || negb (plan_loaded s eid) then retire_native eid else
          if negb (plays s eid) then stage_pending eid x else
          h <~ the_ref ;;
          if Horizon.selected h then follow_selected eid x else
          when (ready h) (commit_pending eid)
      | None => retire_native eid
      end
  end.

(** ** Streams *)

Definition session_epoch : RuntimeM (option string * Z * Z) :=
  sess <~ asking link_session ;; s <~ get ;; ret (owner s, sess, Contract.arm_epoch (authority_ s)).
Definition same_facts (a b : StreamFacts) : bool :=
  bool_decide (sf_model_token a = sf_model_token b) && bool_decide (sf_scene_token a = sf_scene_token b) &&
  let p := sf_policy a in let q := sf_policy b in
  bool_decide (sp_id p = sp_id q) && (min_commit_lead_s p =f min_commit_lead_s q) && (max_candidate_age_s p =f max_candidate_age_s q) &&
  (max_future_s p =f max_future_s q) && array_equal (start_velocity_tolerance_rad_s p) (start_velocity_tolerance_rad_s q).
(** [_stream_facts_error] *)
Definition stream_facts_error (eid : string) (facts : StreamFacts) : RuntimeM string :=
  x <~ the_ex eid ;; st <~ some_or (x_stream x) none_error ;; s <~ get ;;
  if negb (bool_decide (Controller.law (ctl_of s) = "joint"%string)) then ret "stream requires joint-impedance mode"%string else
  if negb (mass_kg (pl_value (payload_ s)) =f f0) || negb (s_payload_revision st =? pl_revision (payload_ s))
  then ret "transient PC compensation payload must be zero for stream/1"%string else
  if negb (same_facts facts (s_facts st)) then ret "model/scene/policy snapshot changed"%string else
  if negb (bool_decide (Controller.model_token ccfg = Some (sf_model_token facts))) ||
     negb (bool_decide (sf_model_token facts = so_model_token (s_opened st)))
  then ret "stream model differs from bound execution model"%string else
  if negb (bool_decide (sf_scene_token facts = so_scene_token (s_opened st))) ||
     negb (bool_decide (sp_id (sf_policy facts) = stream_policy_id (s_opened st)))
  then ret "stream scene/policy differs from trusted composition"%string else
  e <~ session_epoch ;;
  if negb (bool_decide (s_epoch st = e)) then ret "stream owner/session/ARM epoch changed"%string else
  s <~ get ;;
  let x := executor (ctl_of s) in
  if negb (gains_match (s_gains st).1 (s_gains st).2 (Executor.kp x) (Executor.kd x)) then ret "stream gains changed"%string else ret ""%string.
Definition facts_now (eid : string) : RuntimeM string := f <~ asking snapshot ;; f <~ lift f ;; stream_facts_error eid f.

Definition stream_get (session eid : string) : RuntimeM (execution * stream) :=
  x <~ get_ex eid ;;
  match x_stream x with
  | Some st => if bool_decide (s_owner st = session) then ret (x, st) else refuse "stream is not owned by this service session"
  | None => refuse "stream is not owned by this service session"
  end.
Definition has_stream (s : runtime) : bool := is_some (native s) && trusted_admission cfg.
(** The encodings of two intents agree. *)
Definition same_open (a b : StreamOpen) : bool :=
  bool_decide (so_request_id a = so_request_id b) && (open_seq a =? open_seq b) && bool_decide (so_instance_id a = so_instance_id b) &&
  bool_decide (so_joint_names a = so_joint_names b) && bool_decide (so_model_token a = so_model_token b) &&
  bool_decide (so_scene_token a = so_scene_token b) && bool_decide (stream_policy_id a = stream_policy_id b) &&
  same_trajectory (initial a) (initial b) &&
  match so_start a, so_start b with ON_ADMIT, ON_ADMIT | ON_RELEASE, ON_RELEASE => true | _, _ => false end &&
  bool_decide (so_admit_by a = so_admit_by b).
Definition same_revision (a b : StreamRevision) : bool :=
  bool_decide (sr_request_id a = sr_request_id b) && bool_decide (sr_execution_id a = sr_execution_id b) &&
  (proposal_seq a =? proposal_seq b) && (expected_revision a =? expected_revision b) && bool_decide (sr_anchor_id a = sr_anchor_id b) &&
  bool_decide (sr_scene_token a = sr_scene_token b) && same_trajectory (suffix a) (suffix b) && Bool.eqb (sr_terminal a) (sr_terminal b) &&
  bool_decide (sr_admit_by a = sr_admit_by b).
Definition same_intent (a b : intent) : bool :=
  match a, b with Opening a, Opening b => same_open a b | Revising a, Revising b => same_revision a b | _, _ => false end.
Definition stream_retry (session : string) (i : intent) : RuntimeM (option attempt) :=
  owns session ;~
  s <~ get ;;
  if negb (has_stream s) then refuse "stream/1 requires native reference and trusted admission" else
  match find_attempt s (session, intent_id i) with
  | Some a => if same_intent (a_request a) i then ret (Some a) else refuse "request_id already used with different content"
  | None => ret None
  end.
(** The marks of a session: its last opening and its last revision. *)
Definition marks_of (s : runtime) (session : string) : Z * Z := default (0, 0)%Z (dget session (stream_marks s)).
Definition stream_slot (session : string) (sequence : Z) (opening : bool) : RuntimeM unit :=
  upd (fun s => s <| stream_marks := dput session (marks_of s session) (stream_marks s) |>) ;~
  s <~ get ;; let m := marks_of s session in
  if sequence <=? (if opening then m.1 else m.2) then refuse "stale sequence or evicted history" else
  if is_some (stream_job_ s) then refuse "admission worker busy; no queued intents" else ret tt.
Definition set_mark (session : string) (f : Z * Z -> Z * Z) : RuntimeM unit :=
  upd (fun s => s <| stream_marks := dput session (f (marks_of s session)) (stream_marks s) |>).

(** [_new_attempt] *)
Definition age_ns (facts : StreamFacts) : result Z := py_int (max_candidate_age_s (sf_policy facts) *f e9).
Definition new_attempt (eid : string) (facts : StreamFacts) (i : intent) (curve : JointTrajectory) (at_ : Stamp) (cut : float) (terminal : bool)
    : result attempt :=
  age <-- age_ns facts ;;
  let deadline := ns at_ + age in
  let deadline := match intent_admit_by i with Some by_ => Z.min deadline (ns by_) | None => deadline end in
  let expected := match i with Revising r => Some (expected_revision r) | Opening _ => None end in
  Ok {| a_request := i;
        a_status := {| rv_execution_id := eid; rv_request_id := intent_id i; rv_expected_revision := expected;
                       rv_revision := Some match expected with None => 1 | Some e => e + 1 end; rv_phase := REQUESTED;
                       rv_selection_state := NOT_REQUESTED; rv_at := at_; rv_reason := "" |};
        a_curve := curve; a_facts := facts; a_deadline_ns := deadline; a_cut := cut; a_terminal := terminal; a_sent_seq := None;
        a_upload_started := false |}.

(** [_queue_stream_check]: the runtime's own reasons, then the job of the trusted admission. *)
Definition complete_limits (p : ExecutionPolicy) : bool :=
  is_some (position_lower p) && is_some (position_upper p) && is_some (velocity_limits p) && is_some (acceleration_limits p).
Definition velocity_mismatch (tolerance dq v0 : vec) : result bool :=
  if negb (length tolerance =? length dq)%nat then Ok true else
  d <-- bcast fsub dq v0 ;; any2 (fun a t => fabs a >f t) d tolerance.
Definition with_deadline (r : TrajectoryRequest) (by_ : option Stamp) : result TrajectoryRequest :=
  TrajectoryRequest_new {|
    request_id := request_id r; req_instance_id := req_instance_id r; req_joint_names := req_joint_names r;
    Contract.trajectory := Contract.trajectory r; profile := profile r; gains := gains r; Contract.model_token := Contract.model_token r;
    Contract.start := Contract.start r; admit_by := by_; Contract.completion := Contract.completion r; supersedes := supersedes r;
    Contract.cartesian := Contract.cartesian r |}.
Definition curve_reason (st : stream) (i : intent) (c : JointTrajectory) (facts : StreamFacts) : RuntimeM string :=
  s <~ get ;;
  p <~ some_or (Controller.policy ccfg) none_error ;;
  vs <~ some_or (velocities c) none_error ;;
  let plan := {| p_times := times c; p_positions := positions c; p_velocities := vs; p_kp := (s_gains st).1; p_kd := (s_gains st).2;
                 p_poses := None; p_cartesian := None |} in
  q0 <~ (if opens i then some_or (rs_q (state_ s)) none_error else some_or (head (positions c)) IndexError) ;;
  why <~ lift (plan_error p plan q0 (length (joints cfg)) None) ;;
  if negb (opens i) then ret (default "" why) else
  dq <~ some_or (rs_dq (state_ s)) none_error ;; v0 <~ some_or (head vs) IndexError ;;
  bad <~ lift (velocity_mismatch (start_velocity_tolerance_rad_s (sf_policy facts)) dq v0) ;;
  ret match why with Some w => if blank w then (if bad then "stream start velocity mismatch" else "")%string else w
                   | None => if bad then "stream start velocity mismatch"%string else ""%string end.
Definition queue_stream_check (eid : string) (k : string * string) : RuntimeM unit :=
  s <~ get ;; a <~ some_or (find_attempt s k) KeyError ;; x <~ the_ex eid ;; st <~ some_or (x_stream x) none_error ;;
  let i := a_request a in let c := a_curve a in
  why <~ facts_now eid ;;
  why <~ or_else why
    (r <~ lift (with_deadline (x_request x) (intent_admit_by i)) ;; at_ <~ now ;; s <~ get ;;
     w <~ lift (admission_refusal r (identity cfg) (capabilities cfg) (authority_ s) at_ (Controller.model_token ccfg)) ;;
     ret (text_of w)) ;;
  let why := if blank why && match i with Revising r => negb (bool_decide (sr_scene_token r = sf_scene_token (s_facts st))) | _ => false end
             then "revision scene differs from stream"%string else why in
  let why := if blank why && match intent_admit_by i with Some by_ => negb (bool_decide (domain by_ = domain_ cfg)) | None => false end
             then "deadline belongs to another PC clock"%string else why in
  let o := state_ s in
  let why := if blank why && (negb (bool_decide (rs_validity o = VALID)) || negb (is_some (rs_q o)) || negb (is_some (rs_dq o)))
             then "fresh finite position/velocity required"%string else why in
  p <~ some_or (Controller.policy ccfg) none_error ;;
  let why := if blank why && negb (complete_limits p) then "stream requires explicit complete motion limits"%string else why in
  at_phase <~ (if opens i then ret f0 else h <~ the_ref ;; at_ <~ some_or (Horizon.point h) none_error ;; ret (pt_time at_)) ;;
  last_t <~ some_or (last (times c)) IndexError ;;
  let why := if blank why && ((last_t -f at_phase) >f max_future_s (sf_policy (a_facts a)))
             then "candidate exceeds stream future budget"%string else why in
  why <~ or_else why (curve_reason st i c (a_facts a)) ;;
  upd (fun s => s <| stream_job_ := Some {| sj_execution := eid; sj_request := intent_id i; sj_reason := why; sj_curve := c;
                                            sj_facts := a_facts a; sj_answer := None |} |>).

(** [_stream_fail] *)
Definition stream_fail (eid : string) (k : string * string) (why : string) (was_refused was_late : bool) : RuntimeM unit :=
  s <~ get ;; a <~ some_or (find_attempt s k) KeyError ;; x <~ the_ex eid ;; st <~ some_or (x_stream x) none_error ;;
  let ph := if was_late && bool_decide (attempt_phase a = ADMITTED) then EXPIRED else REJECTED in
  when (a_upload_started a && is_some (s_selected st)) (in_native abort_candidate) ;~
  set_attempt k (fun v => v <| rv_phase := ph |> <| rv_reason := why |>
                            <| rv_selection_state := if was_refused then SEL_REFUSED else rv_selection_state v |>) ;~
  upd_stream eid (fun st => st <| s_pending := None |>) ;~
  upd (fun s => s <| native_pending := None |>) ;~
  when (negb (is_some (s_selected st)) && negb (ended x))
    (receipt eid ph why [] ;~ s <~ get ;; when (plan_loaded s eid) (drop_staged eid why)).

Definition stream_view (s : runtime) (x : execution) (st : stream) : StreamView :=
  let sel := match ref s with
             | Some h => if bool_decide (Horizon.key h = Some (execution_id (x_status x))) && is_some (s_selected st)
                         then r ← Horizon.feedback h; Some (h, r) else None
             | None => None
             end in
  let pend := rid ← s_pending st; find_attempt s (s_owner st, rid) in
  {| sv_execution := x_status x; sv_model_token := so_model_token (s_opened st); sv_scene_token := so_scene_token (s_opened st);
     sv_stream_policy_id := stream_policy_id (s_opened st);
     selected_reference_id := (fun y => Horizon.id y.1) <$> sel; selected_revision := (fun y => t_revision y.2) <$> sel;
     selected_phase := (fun y => t_phase y.2) <$> sel; Stream.protected_until := (fun y => Horizon.protected_until y.1) <$> sel;
     selected_end_phase := y ← sel; tr ← Horizon.trajectory y.1; last (times tr);
     selected_terminal := (fun y => Horizon.terminal y.1) <$> sel; pending_request_id := s_pending st;
     pending_revision := a ← pend; rv_revision (a_status a); sv_splice := s_anchor st |}.

Definition open_stream (session : string) (o : StreamOpen) : RuntimeM StreamView :=
  o <~ lift (StreamOpen_new o) ;;
  old <~ stream_retry session (Opening o) ;;
  match old with
  | Some a => let eid := rv_execution_id (a_status a) in
              x <~ get_ex eid ;; st <~ some_or (x_stream x) none_error ;; s <~ get ;; ret (stream_view s x st)
  | None =>
      stream_slot session (open_seq o) true ;~
      s <~ get ;;
      if is_some (current s) then refuse "execution busy; cancel explicitly before opening another stream" else
      facts <~ asking snapshot ;; facts <~ lift facts ;;
      eid <~ new_id ;; at_ <~ now ;;
      first <~ lift (first_receipt eid (so_request_id o) at_) ;;
      sess <~ asking link_session ;; s <~ get ;;
      let st := {| s_owner := session; s_opened := o; s_facts := facts;
                   s_epoch := (Some session, sess, Contract.arm_epoch (authority_ s)); s_gains := profile_gains cfg;
                   s_payload_revision := pl_revision (payload_ s); s_anchor := None; s_pending := Some (so_request_id o); s_selected := None |} in
      r <~ lift (as_request o) ;; status <~ lift (start_status first) ;;
      a <~ lift (new_attempt eid facts (Opening o) (initial o) at_ f0 false) ;;
      upd (fun s => s <| executions := dput eid (new_execution r first status (Some st) (pl_revision (payload_ s))) (executions s) |>
                      <| stream_attempts := dput (session, so_request_id o) a (stream_attempts s) |>) ;~
      set_mark session (fun m => (open_seq o, m.2)) ;~
      queue_stream_check eid (session, so_request_id o) ;~
      x <~ the_ex eid ;; st <~ some_or (x_stream x) none_error ;; s <~ get ;; ret (stream_view s x st)
  end.

(** The slot of the next candidate, for its anchor and its revision. *)
Definition slot_free (s : runtime) (eid : string) (x : execution) (st : stream) : bool :=
  negb (ended x || is_some (x_drop x) || is_some (s_pending st) || native_busy s || negb (plays s eid)).
Definition stream_anchor (session eid : string) : RuntimeM SpliceAnchor :=
  owns session ;~
  y <~ stream_get session eid ;; let '(x, st) := y in
  at_ <~ now ;; s <~ get ;;
  if negb (slot_free s eid x st) then refuse "stream candidate slot unavailable" else
  h <~ the_ref ;;
  if negb (Horizon.selected h) || Horizon.terminal h || negb (bool_decide (rs_validity (state_ s) = VALID))
  then refuse "stream is stale, unselected or terminal" else
  valid <~ match s_anchor st with
  | Some a => if ns at_ <? ns (expires_at a) then ret (Some a) else ret None
  | None => ret None
  end ;;
  match valid with
  | Some a => ret a
  | None =>
      let p := sf_policy (s_facts st) in
      c <~ some_or (Horizon.trajectory h) none_error ;; pt <~ some_or (Horizon.point h) none_error ;;
      vs <~ some_or (velocities c) none_error ;;
      let least := pt_time pt +f min_commit_lead_s p +f max_candidate_age_s p in
      match List.filter (fun i => let t := fget (times c) i in (t >=f Horizon.protected_until h) && (t >f least)) (seq 0 (length (times c))) with
      | [] => refuse "no eligible whole-segment cut in selected reference"
      | i :: _ =>
          u <~ asking uuid ;; age <~ lift (age_ns (s_facts st)) ;;
          until <~ lift (Stamp_new (ns at_ + age) PC (domain_ cfg)) ;;
          q <~ some_or (positions c !! i) IndexError ;; qd <~ some_or (vs !! i) IndexError ;;
          a <~ lift (SpliceAnchor_new {| anchor_id := u; sa_expected_revision := Horizon.revision h; cut_phase := fget (times c) i;
                                         sa_q := q; sa_qd := qd; issued_at := at_; expires_at := until |}) ;;
          upd_stream eid (fun st => st <| s_anchor := Some a |>) ;~ ret a
      end
  end.

Definition anchor_fits (a : SpliceAnchor) (r : StreamRevision) (at_ : Stamp) (revision : Z) : bool :=
  bool_decide (anchor_id a = sr_anchor_id r) && negb (ns (expires_at a) <=? ns at_) &&
  (expected_revision r =? sa_expected_revision a) && (revision =? expected_revision r).
Definition revise_stream (session : string) (r : StreamRevision) : RuntimeM RevisionStatus :=
  r <~ lift (StreamRevision_new r) ;;
  old <~ stream_retry session (Revising r) ;;
  match old with
  | Some a => ret (a_status a)
  | None =>
      let eid := sr_execution_id r in
      y <~ stream_get session eid ;; let '(x, st) := y in
      stream_slot session (proposal_seq r) false ;~
      at_ <~ now ;; s <~ get ;;
      if negb (slot_free s eid x st) then refuse "stream candidate slot unavailable" else
      h <~ the_ref ;;
      match s_anchor st with
      | Some anchor =>
          if negb (anchor_fits anchor r at_ (Horizon.revision h))
          then refuse "anchor is missing, consumed, expired or belongs to another revision" else
          a <~ lift (new_attempt eid (s_facts st) (Revising r) (suffix r) at_ (cut_phase anchor) (sr_terminal r)) ;;
          let a := a <| a_deadline_ns := Z.min (a_deadline_ns a) (ns (expires_at anchor)) |> in
          let k := (session, sr_request_id r) in
          upd (fun s => s <| stream_attempts := dput k a (stream_attempts s) |>) ;~
          upd_stream eid (fun st => st <| s_anchor := None |> <| s_pending := Some (sr_request_id r) |>) ;~
          set_mark session (fun m => (m.1, proposal_seq r)) ;~
          spliced <~ catch is_ValueError (c <~ in_native (splice (suffix r) (cut_phase anchor) (expected_revision r)) ;; ret (inl c))
                       (fun e => ret (inr (exn_text e))) ;;
          match spliced with
          | inr why => stream_fail eid k why false false
          | inl c => upd_attempt k (fun a => a <| a_curve := c |>) ;~ queue_stream_check eid k
          end ;~
          s <~ get ;; a <~ some_or (find_attempt s k) KeyError ;; ret (a_status a)
      | None => refuse "anchor is missing, consumed, expired or belongs to another revision"
      end
  end.

Definition stream_abort (session eid rid : string) : RuntimeM RevisionStatus :=
  owns session ;~
  y <~ stream_get session eid ;; let '(x, st) := y in
  s <~ get ;;
  let k := (session, rid) in
  match find_attempt s k with
  | Some a =>
      if negb (bool_decide (rv_execution_id (a_status a) = eid)) then refuse "revision history unavailable" else
      match rv_selection_state (a_status a) with
      | NOT_REQUESTED =>
          if negb (bool_decide (s_pending st = Some rid)) then ret (a_status a) else
          when (a_upload_started a) (in_native abort_candidate) ;~
          let ph := if bool_decide (attempt_phase a = REQUESTED) then REJECTED else CANCELLED in
          set_attempt k (fun v => v <| rv_phase := ph |> <| rv_reason := "candidate aborted" |>) ;~
          upd_stream eid (fun st => st <| s_pending := None |>) ;~
          when (negb (is_some (s_selected st)) && negb (ended x))
            (receipt eid ph "candidate aborted" [] ;~ drop_staged eid "candidate aborted") ;~
          s <~ get ;; a <~ some_or (find_attempt s k) KeyError ;; ret (a_status a)
      | _ => ret (a_status a)
      end
  | None => refuse "revision history unavailable"
  end.

(** [_stream_step], first half: the admission worker's answer; whether the step ends here. *)
Definition nonempty (w d : string) : string := if blank w then d else w.
Definition finish_check : RuntimeM bool :=
  s <~ get ;;
  match stream_job_ s with
  | Some j =>
      match sj_answer j with
      | None => ret false
      | Some answer =>
          upd (fun s => s <| stream_job_ := None |>) ;~
          let eid := sj_execution j in
          match (x ← find_ex s eid; st ← x_stream x;
                 if ended x || negb (bool_decide (s_pending st = Some (sj_request j))) then None else Some (x, st)) with
          | None => ret false
          | Some (x, st) =>
              let k := (s_owner st, sj_request j) in
              a <~ some_or (find_attempt s k) KeyError ;;
              why <~ catch (fun _ => true) (w <~ lift answer ;; or_else w (facts_now eid))
                       (fun e => ret ("trusted admission failed: " +:+ exn_text e)%string) ;;
              late <~ (if blank why then at_ <~ now ;; ret (a_deadline_ns a <=? ns at_) else ret true) ;;
              if late then stream_fail eid k (nonempty why "admission deadline expired") false false ;~ ret false else
              let c := a_curve a in
              failed <~ (if opens (a_request a) then
                  vs <~ some_or (velocities c) none_error ;;
                  in_controller (fun _ => Controller.on_plan {|
                    plan_id := eid; phase := sj_request j; gated := true;
                    body := {| p_times := times c; p_positions := positions c; p_velocities := vs; p_kp := (s_gains st).1;
                               p_kd := (s_gains st).2; p_poses := None; p_cartesian := None |};
                    completion := None; token := Contract.model_token (x_request x) |}) ;~
                  pump_controller None true ;~
                  x <~ the_ex eid ;;
                  if admitted x then ret false
                  else stream_fail eid k (nonempty (Contract.reason (x_status x)) "controller refused") false false ;~ ret true
                else ret false) ;;
              if failed then ret true else
              set_attempt k (fun v => v <| rv_phase := ADMITTED |>) ;~
              when (negb (opens (a_request a)) || negb (on_release x)) (stream_select eid) ;~ ret false
          end
      end
  | None => ret false
  end.


(** The selected reference failed under its stream. *)
Definition stream_reference_failed (eid : string) (x : execution) (st : stream) : RuntimeM unit :=
  h <~ the_ref ;;
  when (admitted x) (receipt eid SELECTED "" (ref_evidence h)) ;~
  receipt eid FAULTED (error h) [] ;~
  each (fun rid =>
    s <~ get ;;
    match rid with
    | Some rid =>
        match find_attempt s (s_owner st, rid) with
        | Some a =>
            let sel := bool_decide (rv_revision (a_status a) = Some (Horizon.revision h)) in
            set_attempt (s_owner st, rid) (fun v => v <| rv_phase := if sel then FAULTED else EXPIRED |>
              <| rv_selection_state := if sel then SEL_SELECTED else SEL_REFUSED |> <| rv_reason := error h |>)
        | None => ret tt
        end
    | None => ret tt
    end) [s_selected st; s_pending st] ;~
  upd (fun s => s <| native_failed := true |>) ;~
  drop_staged eid (error h) ;~
  upd_stream eid (fun st => st <| s_pending := None |> <| s_anchor := None |>).

(** An admitted candidate is uploaded, then committed, then followed; whether the step ends here. *)
Definition upload_candidate (eid : string) (k : string * string) (a : attempt) (st : stream) : RuntimeM bool :=
  h <~ the_ref ;;
  if busy h then (s <~ get ;; when (negb (plays s eid)) (in_native Horizon.cancel)) ;~ ret true else
  catch is_runtime
    ((if is_some (s_selected st) then
        expected <~ some_or (rv_expected_revision (a_status a)) none_error ;;
        in_native (stage_suffix (a_curve a) (a_cut a) expected (a_terminal a)
          (a_cut a -f min_commit_lead_s (sf_policy (s_facts st))) (Some (a_deadline_ns a)))
      else _ <~ in_native (Horizon.stage (Some eid) (a_curve a) (Some (a_deadline_ns a)) true false) ;; ret tt) ;~
     upd_attempt k (fun a => a <| a_upload_started := true |>) ;~ upd (fun s => s <| native_failed := false |>))
    (fun e => stream_fail eid k (stage_error e) false false) ;~
  ret false.
Definition start_mismatch (a : attempt) (st : stream) : RuntimeM bool :=
  s <~ get ;;
  match rs_dq (state_ s) with
  | None => ret true
  | Some dq => vs <~ some_or (velocities (a_curve a)) none_error ;; v0 <~ some_or (head vs) IndexError ;;
               d <~ lift (bcast fsub dq v0) ;;
               lift (any2 (fun x t => fabs x >f t) d (start_velocity_tolerance_rad_s (sf_policy (s_facts st))))
  end.
Definition commit_candidate (eid : string) (k : string * string) (a : attempt) (st : stream) : RuntimeM unit :=
  s <~ get ;;
  why <~ or_else (text_of (selection_refusal (authority_ s))) (facts_now eid) ;;
  let why := if blank why && negb (bool_decide (rs_validity (state_ s) = VALID))
             then "observation became stale before selection"%string else why in
  why <~ (if is_some (s_selected st) then ret why else
          why <~ or_else why (in_controller (fun _ => Controller.release_error eid)) ;;
          bad <~ start_mismatch a st ;;
          ret (if blank why && bad then "start velocity changed before selection"%string else why)) ;;
  if negb (blank why) then stream_fail eid k why false false else
  set_attempt k (fun v => v <| rv_selection_state := SEL_PENDING |>) ;~ say_and_approve.
Definition follow_candidate (eid : string) (k : string * string) (x : execution) : RuntimeM unit :=
  h <~ the_ref ;;
  set_attempt k (fun v => v <| rv_phase := SELECTED |> <| rv_selection_state := SEL_SELECTED |>) ;~
  upd_stream eid (fun st => st <| s_selected := Some k.2 |> <| s_pending := None |>) ;~
  upd (fun s => s <| native_pending := None |>) ;~
  when (admitted x)
    (receipt eid SELECTED "" (ref_evidence h) ;~ releasing eid ;~
     control (no_control <| c_execute := Some eid |>) ;~ pump_controller None true) ;~
  h <~ the_ref ;; tr <~ some_or (Horizon.trajectory h) none_error ;;
  in_controller (fun _ => select_reference_window eid tr (Horizon.terminal h)).
Definition candidate_step (eid : string) (k : string * string) (a : attempt) (x : execution) (st : stream) : RuntimeM bool :=
  h <~ the_ref ;;
  if negb (a_upload_started a) then upload_candidate eid k a st else
  if bool_decide (candidate_selection h = refused)
  then stream_fail eid k (candidate_error h) true (bool_decide (candidate_result h = Some REF_LATE)) ;~ ret false else
  if negb (blank (candidate_error h)) && bool_decide (candidate_selection h = not_requested)
  then stream_fail eid k (candidate_error h) false false ;~ ret false else
  if ready h then commit_candidate eid k a st ;~ ret false else
  s <~ get ;;
  when (bool_decide (candidate_selection h = selected_) && plays s eid &&
        bool_decide (rv_revision (a_status a) = Some (Horizon.revision h))) (follow_candidate eid k x) ;~ ret false.

(** The rest of [_stream_step], on the live stream. *)
Definition confirm_sent (eid : string) : RuntimeM unit :=
  s <~ get ;; h <~ the_ref ;;
  match (x ← find_ex s eid; st ← x_stream x; rid ← s_selected st; a ← find_attempt s (s_owner st, rid); Some ((s_owner st, rid), a)) with
  | Some (k, a) =>
      match Observation.confirmed (tracker s) (Horizon.epoch h), a_sent_seq a with
      | Some c, Some seq => when (bool_decide (attempt_phase a = SENT) && epoch_reached c seq) (set_attempt k (fun v => v <| rv_phase := APPLIED |>))
      | _, _ => ret tt
      end
  | None => ret tt
  end.
Definition live_stream_step (eid : string) (x : execution) (st : stream) : RuntimeM unit :=
  match s_anchor st with
  | Some a => at_ <~ now ;; when (ns (expires_at a) <=? ns at_) (upd_stream eid (fun st => st <| s_anchor := None |>))
  | None => ret tt
  end ;~
  why <~ facts_now eid ;;
  if negb (blank why) then cancel_execution eid why else
  h <~ the_ref ;; s <~ get ;;
  if plays s eid && rt_failure h then stream_reference_failed eid x st else
  match (rid ← s_pending st; a ← find_attempt s (s_owner st, rid); Some ((s_owner st, rid), a)) with
  | None => confirm_sent eid
  | Some (k, a) =>
      let waits := match rv_selection_state (a_status a) with SEL_PENDING => true | _ => false end in
      late <~ (if waits then ret false else at_ <~ now ;; ret (a_deadline_ns a <=? ns at_)) ;;
      if late then stream_fail eid k "candidate deadline expired" false true else
      s <~ get ;;
      over <~ (if bool_decide (attempt_phase a = ADMITTED) && bool_decide (native_pending s = Some eid)
               then candidate_step eid k a x st else ret false) ;;
      if over then ret tt else confirm_sent eid
  end.
(** Whether the tick is the stream's. *)
Definition stream_step : RuntimeM bool :=
  over <~ finish_check ;;
  if over then ret true else
  s <~ get ;;
  match current s with
  | Some (eid, x) => match x_stream x with Some st => live_stream_step eid x st ;~ ret true | None => ret false end
  | None => ret false
  end.

(** [_native_step] *)
Definition native_step (st : option rt_state) (rx : float) : RuntimeM unit :=
  catch (fun e => bool_decide (e = unresolved_error)) (in_native (poll st rx)) (fun _ => selection_unresolved) ;~
  confirm_drops st ;~
  keep_endpoint st rx ;~ first_decision st rx ;~ keep_group_report ;~
  over <~ stream_step ;;
  if over then ret tt else
  match st with
  | None => ret tt
  | Some p =>
      if negb (RtProtocol.armed (rt p)) then ret tt else
      s <~ get ;;
      when (negb (s_arm_epoch (rt p) =? native_epoch s))
        (upd (fun s => s <| native_epoch := s_arm_epoch (rt p) |> <| native_failed := false |>)) ;~
      report_failure ;~ own_hold ;~ pending_step
  end.
End Runtime.
