(* ===== verification/RuntimeLoop.v ===== *)
(** The supervisor's tick and its inputs ([supervisor/runtime.py]): authority
    results, samples, evidence, the bounded history, and the interleaving of the
    clients, the loop and the other threads. *)
From stdpp Require Import pretty.
From Stdlib Require Import SpecFloat PrimFloat FloatOps.
From S2P Require Import Prelude Floats Motion Contract Stream RtProtocol Observation Servo Policy Effects Executor Controller Horizon Runtime RuntimeClients RuntimeNative.

Section Runtime.
Context {cfg : Config} {ccfg : Controller.Config} {env : Env} {henv : Horizon.Env}.

(** [_drain_authority] *)
Fixpoint drain (l : list rpc_job) : RuntimeM unit :=
  match l with
  | [] => ret tt
  | j :: l =>
      match j_state j with
      | Queued | Running => ret tt
      | Cancelled => upd (fun s => s <| rpc_pending := drop 1 (rpc_pending s) |>) ;~ drain l
      | Finished r =>
          upd (fun s => s <| rpc_pending := drop 1 (rpc_pending s) |>) ;~
          let ok := match r with Ok b => b | Err _ => false end in
          let why := match r with Ok _ => "DISARM not confirmed by the state stream"%string | Err e => stage_error e end in
          upd (fun s => s <| authority_done := j_gen j |> <| authority_fault := if ok then ""%string else why |>
                          <| authority_failed := if ok then authority_failed s else (j_gen j, why) |>) ;~
          s <~ get ;;
          when (j_armed j && negb ok && Controller.armed (ctl_of s)) (control (no_control <| c_arm := Some false |>)) ;~
          drain l
      end
  end.
Definition drain_authority : RuntimeM unit := s <~ get ;; drain (rpc_pending s).

(** [_prune] *)
Definition excess (s : runtime) : bool := (RETAINED <? length (executions s) + length (stream_attempts s))%nat.
Definition protects (s : runtime) (k : string * string) : bool :=
  existsb (fun x => match x_stream x.2 with
    | Some st => negb (ended x.2) && bool_decide (s_owner st = k.1) &&
                 (bool_decide (s_pending st = Some k.2) || bool_decide (s_selected st = Some k.2) || bool_decide (request_id (x_request x.2) = k.2))
    | None => false
    end) (executions s).
Definition prune_attempt (s : runtime) (x : string * string * attempt) : runtime :=
  if excess s && negb (protects s x.1) && negb (bool_decide (attempt_phase x.2 = REQUESTED))
  then s <| stream_attempts := ddel x.1 (stream_attempts s) |> else s.
Definition prune_execution (s : runtime) (x : string * execution) : runtime :=
  if excess s && ended x.2
  then s <| executions := ddel x.1 (executions s) |> <| by_request := delete (request_id (x_request x.2)) (by_request s) |>
         <| stream_attempts := List.filter (fun a => negb (bool_decide (rv_execution_id (a_status a.2) = x.1))) (stream_attempts s) |>
  else s.
Definition prune (s : runtime) : runtime :=
  let s1 := fold_left prune_attempt (stream_attempts s) s in fold_left prune_execution (executions s1) s1.

(** ** The loop *)

Definition health_for (s : runtime) (h : health) : health_msg := {|
  h_state_fresh := hl_fresh h; h_any_fault := hl_any_fault h || negb (blank (authority_fault s));
  h_latched_fault := negb (blank (hl_latched h)) || negb (blank (authority_fault s)); h_holding := hl_holding h;
  h_holding_q := hl_holding_q h; h_supports_pose_hold := hl_pose_hold h; h_armed := hl_armed h |}.
(** A new packet feeds the tracker, and the newest one the controller, with its age. *)
Definition feed_packet (s : runtime) (x : rt_state * float) : runtime :=
  if x.2 >f fed_rx s then s <| fed_rx := x.2 |> <| tracker := feed (tracker s) (rt x.1) |> else s.
Definition take_sample (x : rt_state * float) : RuntimeM unit :=
  s <~ get ;;
  when (negb (bool_decide (seen_seq s = Some (state_seq (rt x.1)))))
    (upd (fun s => s <| seen_seq := Some (state_seq (rt x.1)) |>) ;~
     in_controller (fun _ => on_motor_state (motor_state env x.1)) ;~
     s <~ get ;;
     when (is_some (last_state_at (ctl_of s)))
       (c <~ controller_clock ;; t <~ asking monotonic ;;
        in_controller (fun _ => upd (fun k => k <| last_state_at := Some (c -f (t -f x.2)) |>)))).
(** The evidence of a tick on an execution. *)
Definition weigh (eid : string) : RuntimeM unit :=
  x <~ the_ex eid ;; s <~ get ;;
  match x_first_seq x with
  | Some seq =>
      if negb (ended x) && fault_seen (tracker s) (x_epoch x) then receipt eid FAULTED "RT fault latched in this ARM generation" []
      else if bool_decide (x_phase x = SENT) then
        match Observation.confirmed (tracker s) (x_epoch x) with
        | Some c => when (epoch_reached c seq)
            (receipt eid APPLIED "" [("command_seq"%string, EvInt c); ("arm_epoch"%string, EvInt (x_epoch x))])
        | None => ret tt
        end
      else ret tt
  | None => ret tt
  end.
(** A stopped controller is replaced by a fresh, disarmed one. *)
Definition replace_stopped : RuntimeM unit :=
  s <~ get ;;
  when (stopped (ctl_of s))
    (upd (fun s => s <| controller := Controller.start ((fresh_controller cfg) <| native_source := is_some (native s) |>) |>
                     <| node_sent := [] |>) ;~ reconcile).
Definition step : RuntimeM unit :=
  drain_authority ;~
  h <~ asking motor_health ;;
  s <~ get ;; in_controller (fun _ => on_motor_health (health_for s h)) ;~
  history <~ asking recent_states ;;
  upd (fun s => fold_left feed_packet history s) ;~
  match last history with Some x => when (hl_fresh h) (take_sample x) | None => ret tt end ;~
  publish ;~
  each_execution (fun eid => _ <~ expire eid ;; ret tt) ;~
  s <~ get ;;
  when (is_some (native s)) (match last history with Some x => native_step (Some x.1) x.2 | None => native_step None f0 end) ;~
  in_controller (fun _ => Controller.tick) ;~
  s <~ get ;;
  pump_controller (if executing s then Some (Controller.current_plan_id (ctl_of s)) else None) true ;~
  each_execution weigh ;~
  reconcile ;~
  replace_stopped ;~
  upd prune ;~
  publish.
(** A step that raises stops the controller. *)
Definition loop_step : RuntimeM unit :=
  catch (fun _ => true) step
    (fun _ => control (no_control <| c_stop := Some "True"%string |> <| c_reason := Some "step failed"%string |>)).

(** ** The supervisor under any interleaving *)

Inductive operation :=
  | Claim | Unclaim | Arm | Disarm | Hold (why : string) | Submit (r : TrajectoryRequest)
  | ReleaseOp (eid : string) (start_at : option Stamp) | CancelOp (eid why : string)
  | SelectPreset (name : string) | SetPayload (mass : float) (com : option vec)
  | SetLoadModel (revision : option Z) (names : option (list string)) (build : result Dynamics) | Setpoint (q : vec)
  | OpenStream (o : StreamOpen) | ReviseStream (r : StreamRevision) | StreamAnchor (eid : string) | StreamAbort (eid rid : string)
  | GroupCheck | GroupSet (joined : Z * Z * Z) | GroupUnset (previous : option (Z * Z * Z * Z))
  | GroupReleaseOp (eid : string) (gid budget : Z) | GroupTake (gid : Z) | GroupRestore (joined : Z * Z * Z * Z).
Definition operate (session : string) (op : operation) : RuntimeM unit :=
  match op with
  | Claim => claim session
  | Unclaim => unclaim session
  | Arm => _ <~ arm session ;; ret tt
  | Disarm => _ <~ disarm session ;; ret tt
  | Hold why => hold session why
  | Submit r => _ <~ submit session r ;; ret tt
  | ReleaseOp eid at_ => release session eid at_
  | CancelOp eid why => cancel session eid why
  | SelectPreset name => _ <~ select_control_preset session name ;; ret tt
  | SetPayload mass com => _ <~ set_payload session mass com ;; ret tt
  | SetLoadModel n names build => _ <~ set_load_model session n names build ;; ret tt
  | Setpoint q => _ <~ setpoint session q ;; ret tt
  | OpenStream o => _ <~ open_stream session o ;; ret tt
  | ReviseStream r => _ <~ revise_stream session r ;; ret tt
  | StreamAnchor eid => _ <~ stream_anchor session eid ;; ret tt
  | StreamAbort eid rid => _ <~ stream_abort session eid rid ;; ret tt
  | GroupCheck => group_check session
  | GroupSet j => _ <~ group_set session j ;; ret tt
  | GroupUnset p => group_unset session p
  | GroupReleaseOp eid g b => group_release_op session eid g b
  | GroupTake g => _ <~ group_take session g true ;; ret tt
  | GroupRestore j => group_restore session j
  end.

Inductive input :=
  | Client (session : string) (op : operation)
  | CloseSession (session : string) | OwnerLost (session : string) | GroupCancelDone
  | Step
  | RpcStart | RpcEnd (r : result bool)
  | AdmissionWorker
  | NativeThread (i : Horizon.input).

(** The authority worker runs the first queued job. *)
Fixpoint start_first (l : list rpc_job) : list rpc_job :=
  match l with
  | [] => []
  | j :: l => match j_state j with
              | Queued => (j <| j_state := Running |>) :: l
              | Running => j :: l
              | _ => j :: start_first l
              end
  end.
Definition end_running (r : result bool) (l : list rpc_job) : list rpc_job :=
  map (fun j => match j_state j with Running => j <| j_state := Finished r |> | _ => j end) l.
(** Of the horizon's inputs, those of its own threads. *)
Definition own_thread (i : Horizon.input) : bool :=
  match i with Work | Answer _ | SenderReads | SenderSends => true | _ => false end.
Definition handle (i : input) : RuntimeM unit :=
  match i with
  | Client session op => operate session op
  | CloseSession session => close_session session
  | OwnerLost session => owner_lost session
  | GroupCancelDone => group_cancel_done
  | Step => loop_step
  | RpcStart => upd (fun s => s <| rpc_pending := start_first (rpc_pending s) |>)
  | RpcEnd r => upd (fun s => s <| rpc_pending := end_running r (rpc_pending s) |>)
  | AdmissionWorker =>
      upd (fun s => s <| stream_job_ := (fun j => j <| sj_answer := Some (if blank (sj_reason j) then stream_check env (sj_curve j) (sj_facts j)
                                                                      else Ok (sj_reason j)) |>) <$> stream_job_ s |>)
  | NativeThread i => when (own_thread i) (in_native (Horizon.handle i))
  end.
(** [__init__], and [start]: whether the RT plays the reference, and its hold deadline. *)
Definition RobotRuntime_new : runtime :=
  let c := fresh_controller cfg in
  {| controller := Controller.start c; node_sent := []; native := None; native_pending := None; native_epoch := 0;
     native_failed := false; group_ := None; group_release := []; group_reports := []; group_cancelling := f0; group_hold_grace := f0;
     payload_ := {| pl_revision := 0; pl_value := {| mass_kg := f0; com_ee := None |} |}; soft_ids := 1; selected_soft := None;
     mode_feedback := ("joint"%string, (Executor.kp (executor c), Executor.kd (executor c))); executions := []; by_request := ∅;
     ids := 1; owner := None; closed_sessions := []; tracker := AppliedTracker_new; fed_rx := f0; seen_seq := None; rpc_pending := [];
     authority_gen := 0; authority_done := 0; authority_failed := (0, ""%string); authority_fault := "";
     state_ := no_values (instance_id_ cfg) MISSING "not connected"; authority_ := plain_authority DISCONNECTED; stream_job_ := None;
     stream_marks := []; stream_attempts := []; load_revision := -1 |}.
Definition start (negotiated : bool) (hold_ms : option float) (margin_ms : float) : RuntimeM unit :=
  if negotiated
  then upd (fun s => s <| native := Some Horizon.start |>) ;~ in_controller (fun _ => bind_reference_source true)
  else match hold_ms with Some t => in_controller (fun _ => set_stream_hold_deadline t margin_ms) | None => ret tt end.
Definition booted (negotiated : bool) (hold_ms : option float) (margin_ms : float) : world runtime effect :=
  (start negotiated hold_ms margin_ms {| obj := RobotRuntime_new; out := []; asked := 0 |}).2.

Definition react (w : world runtime effect) (i : input) : world runtime effect := (handle i w).2.
End Runtime.
