(* ===== verification/RuntimeDemo.v ===== *)
(** A one-joint deployment without a native reference, run on concrete inputs: a
    client claims, arms, submits a plan that is released, sent and seen APPLIED.
    The witnesses of the supervisor's theorems use it. *)
From Stdlib Require Import SpecFloat PrimFloat FloatOps.
From S2P Require Import Prelude Floats Motion Contract RtProtocol Observation Servo Policy Effects Executor Controller ControllerDemo Horizon HorizonPending Runtime RuntimeClients RuntimeNative RuntimeLoop.

Module Robot.
Definition tick_s : float := Eval vm_compute in Prim2SF 0.0009765625%float.
Definition at_ms (k : nat) : float := of_Z (Z.of_nat k) *f tick_s.
Definition arm_identity : RobotIdentity := {| instance_id := "fr3"; joint_names := ["j1"%string]; backend := "rt"; model_id := "" |}.
Definition hash : Z := Eval vm_compute in match identity_hash_of arm_identity with Ok h => h | Err _ => 0%Z end.
#[export] Instance cfg : Runtime.Config := {|
  instance_id_ := "fr3"; joints := ["j1"%string]; domain_ := "pc:boot"; applied_grace_s := f1; ack_timeout_s := f1; period := tick_s;
  identity := arm_identity;
  capabilities := {| contract_version := CONTRACT_VERSION; profiles := ["joint_impedance"%string]; protocol_version := None;
                     cap_pose_hold := false; cap_observer := false; rt_setup := "" |};
  profile_gains := ([f2], [f1]); presets := []; group_capable := false; trusted_admission := false; fresh_controller := Demo.initial |}.

(** The plant acknowledges ARM from the question [since] on; its state carries the
    count of the question as its own sequence and as the last command's. *)
Definition packet (since k : nat) : rt_state := {|
  rt := {| s_n := 1; state_seq := Z.of_nat k; last_cmd_seq := Z.of_nat k; s_t_mono_ns := Z.of_nat k;
           flags := if (since <=? k)%nat then 1 else 0; RtProtocol.fault_code := 0; s_session_id := 7; s_identity_hash := hash;
           s_arm_epoch := if (since <=? k)%nat then 1 else 0; RtProtocol.stop_epoch := 0;
           s_q := [f0]; s_dq := [f0]; s_tau := [f0]; s_tau_cmd := [f0]; s_q_cmd := [f0]; s_qd_cmd := [f0]; s_wrench := [] |};
  rt_reference := None |}.
Definition deployment (since : nat) : Runtime.Env := {|
  monotonic := at_ms; monotonic_ns := fun k => (Z.of_nat k * 1000000)%Z; uuid := fun _ => "u"%string;
  motor_health := fun k => {| hl_armed := (since <=? k)%nat; hl_fresh := true; hl_latched := ""; hl_any_fault := false; hl_holding := false;
                              hl_holding_q := None; hl_pose_hold := false; hl_arm_epoch := 1 |};
  latest_state := fun k => (Some (packet since k), at_ms k); recent_states := fun k => [(packet since k, at_ms k)];
  motor_state := fun _ => [f0; f0; f0; f0; f0; f0; f0; f0]; link_session := fun _ => 7%Z; apply_command := fun k => Ok (Some (Z.of_nat k));
  snapshot := fun _ => Err KeyError; stream_check := fun _ _ => Err KeyError;
  control_env := {| clock := at_ms; reference_clock := at_ms; sample_source := fun _ => Err KeyError;
                    product_t := fun a _ => a; norm := fun _ => f0; arccos := fun x => x |} |}.
Definition plan : TrajectoryRequest := {|
  request_id := "r1"; req_instance_id := "fr3"; req_joint_names := ["j1"%string];
  Contract.trajectory := {| times := [f0; f1]; positions := [[f0]; [quarter]]; velocities := Some [[f0]; [f0]] |};
  profile := "joint_impedance"; gains := None; Contract.model_token := None; Contract.start := ON_ADMIT; admit_by := None;
  Contract.completion := None; supersedes := None; Contract.cartesian := None |}.
Definition session : list input := [Step; Client "a" Claim; Step; Client "a" Arm; RpcStart; RpcEnd (Ok true); Step; Step; Step].
Definition moving : list input := session ++ [Client "a" (Submit plan); Step; Step; Step; Step].
#[export] Instance link : Runtime.Env := deployment 40.
#[export] Existing Instances Demo.cfg HorizonDemo.env.
Abbreviation final := (run_steps react (booted false None f0) moving).

Lemma out_has (p : effect -> bool) (l : list (runtime * effect)) : existsb (fun x => p x.2) l = true -> exists s e, (s, e) ∈ l /\ p e = true.
Proof. intros H. apply existsb_exists in H as ([s e] & Hin & Hp). exists s, e. by rewrite list_elem_of_In. Qed.
Definition is_applied (e : effect) : bool := match e with Applied _ => true | _ => false end.
Definition is_releasing (e : effect) : bool := match e with Releasing _ _ => true | _ => false end.
Definition is_evidence (e : effect) : bool := match e with Recorded r => bool_decide (rc_phase r = APPLIED) | _ => false end.
Lemma out_applied (l : list (runtime * effect)) : existsb (fun x => is_applied x.2) l = true -> exists s c, (s, Applied c) ∈ l.
Proof. intros (s & [] & Hin & Hp)%out_has; try done. eauto. Qed.
Lemma out_releasing (l : list (runtime * effect)) : existsb (fun x => is_releasing x.2) l = true -> exists s eid n, (s, Releasing eid n) ∈ l.
Proof. intros (s & [] & Hin & Hp)%out_has; try done. eauto. Qed.
Lemma out_evidence (l : list (runtime * effect)) : existsb (fun x => is_evidence x.2) l = true -> exists s r, (s, Recorded r) ∈ l /\ rc_phase r = APPLIED.
Proof. intros (s & [] & Hin & Hp)%out_has; try done. apply bool_decide_eq_true in Hp. eauto. Qed.
Lemma has_execution (l : list (string * execution)) : l <> [] -> exists x, x ∈ l.
Proof. destruct l as [|x l]; [done|]. exists x. by left. Qed.
(** The run reached the link, released the plan and saw it applied. *)
Lemma moved : (existsb (fun x => is_applied x.2) (out final) = true /\ existsb (fun x => is_releasing x.2) (out final) = true /\
  existsb (fun x => is_evidence x.2) (out final) = true) /\ executions (obj final) <> [].
Proof. split; [split; [|split]|]; vm_compute; [reflexivity..|discriminate]. Qed.
End Robot.
