(* ===== verification/RuntimeFacts.v ===== *)
(** What the supervisor guarantees, for every deployment, link, clock and
    interleaving of its clients and threads.

    [Good] is the invariant: the ledger (every execution is what its receipts say),
    the controller's own invariant, the evidence behind the tracker, and what
    every output relied on when it was made.  It is carried through the operations
    by the logic of [Effects]; most of them only move what it does not see. *)
From stdpp Require Import pretty.
From Stdlib Require Import SpecFloat PrimFloat FloatOps.
From S2P Require Import Prelude Floats Motion Contract Stream RtProtocol Observation Servo Policy Effects Executor Controller ControllerFacts ControllerLegs Horizon Runtime RuntimeClients RuntimeNative RuntimeLoop.

Abbreviation RW := (world runtime effect).

Section Facts.
Context {cfg : Config} {ccfg : Controller.Config} {env : Env} {henv : Horizon.Env}.

(** ** The invariant *)

Fixpoint fold_receipts (st : ExecutionStatus) (l : list Receipt) : result ExecutionStatus :=
  match l with [] => Ok st | r :: l => st' <-- apply_receipt st r ;; fold_receipts st' l end.
Lemma fold_receipts_snoc st l r : fold_receipts st (l ++ [r]) = (st' <-- fold_receipts st l ;; apply_receipt st' r).
Proof. revert st. induction l as [|x l IH]; intros st; simpl; [by destruct (apply_receipt st r)|]. destruct (apply_receipt st x); simpl; [apply IH|done]. Qed.

(** An execution of the ledger under its id. *)
Record entry_ok (eid : string) (x : execution) : Prop := {
  eo_id : execution_id (x_status x) = eid;
  eo_request : es_request_id (x_status x) = request_id (x_request x);
  eo_instance : es_instance_id (x_status x) = instance_id_ cfg;
  eo_history : exists r0 l st0, x_receipts x = r0 :: l /\ rc_phase r0 = REQUESTED /\ start_status r0 = Ok st0 /\
                 fold_receipts st0 l = Ok (x_status x);
}.

(** A packet the link delivered. *)
Definition received (p : RtProtocol.State) : Prop := exists k x, x ∈ recent_states env k /\ p = rt x.1.
Definition heard (e : event) : Prop := match e with Fed p => received p | Observation.Disarm => True end.
Definition tracked (t : AppliedTracker) : Prop := exists past, tracker_inv past t /\ Forall heard past.

(** Two states of ARM generation [ep] that show command [seq] accepted. *)
Definition applied_evidence (ep seq : Z) : Prop :=
  exists p1 p2, received p1 /\ received p2 /\ Observation.evidence ep p1 /\ Observation.evidence ep p2 /\
    newer (state_seq p2) (state_seq p1) = true /\ epoch_reached (last_cmd_seq p1) seq = true.

(** A motor command in the supervisor's queue is one its controller said. *)
Definition queue_ok (c : world ctl Controller.effect) (e : Controller.effect) : Prop :=
  match e with MotorCommand _ _ _ _ => exists k, (k, e) ∈ out c | _ => True end.

Definition armed_now (s : runtime) : Prop := lifecycle (authority_ s) = ARMED.
(** What an output relied on in the object that said it. *)
Definition log_ok (x : runtime * effect) : Prop :=
  let '(s, e) := x in
  match e with
  | Applied c => exists j spec pose words k,
      MotorCommand j spec pose words ∈ node_sent s /\ (k, MotorCommand j spec pose words) ∈ out (controller s) /\
      said_ok (k, MotorCommand j spec pose words) /\ unpack_motor_command words (n_arm ccfg) = Ok c
  | Rpc _ _ => True
  | Releasing eid n => exists x, find_ex s eid = Some x /\
      match ref s with
      | None => armed_now s /\ x_phase x = ADMITTED /\ x_stream x = None /\
          exists k t, n = S k /\ Stamp_new (monotonic_ns env k) PC (domain_ cfg) = Ok t /\ expired (x_request x) t = Ok false
      | Some h => Horizon.key h = Some eid /\ (Horizon.selected h = true \/ candidate_selection h = selected_)
      end
  | Committing k => k = native_key s /\ (k = None \/ armed_now s)
  | Recorded r => rc_phase r = APPLIED -> exists x seq, find_ex s (rc_execution_id r) = Some x /\ x_first_seq x = Some seq /\
                    applied_evidence (x_epoch x) seq
  end.

Record Good (w : RW) : Prop := {
  g_ledger : Forall (fun x => entry_ok x.1 x.2) (executions (obj w));
  g_keys : NoDup (map fst (executions (obj w)));
  g_controller : good (controller (obj w));
  g_queue : Forall (queue_ok (controller (obj w))) (node_sent (obj w));
  g_tracker : tracked (tracker (obj w));
  g_out : Forall log_ok (out w);
  g_streams : native (obj w) = None -> Forall (fun x => x_stream x.2 = None) (executions (obj w));
}.

Definition keeps (_ : bool) (w w' : RW) : Prop := Good w -> Good w'.
#[global] Instance keeps_flow : Flow keeps.
Proof. split; unfold keeps; auto. Qed.

(** The part of the object the invariant sees. *)
Definition seen (s : runtime) := (executions s, controller s, node_sent s, tracker s, is_some (native s)).
Lemma keeps_upd f : (forall s, seen (f s) = seen s) -> steps keeps (upd f).
Proof.
  intros H w [G1 G2 G3 G4 G5 G6 G7]. specialize (H (obj w)). unfold seen in H. injection H as E1 E2 E3 E4 E5.
  split; simpl; rewrite ?E1, ?E2, ?E3, ?E4; try done. intros Hn. apply G7. rewrite Hn in E5. by destruct (native (obj w)).
Qed.
Lemma keeps_ask : steps keeps ask.
Proof. intros w [G1 G2 G3 G4 G5 G6 G7]. by split. Qed.
Lemma keeps_say e : (forall s, log_ok (s, e)) -> steps keeps (say e).
Proof. intros H w [G1 G2 G3 G4 G5 G6 G7]. split; simpl; try done. by constructor. Qed.
Lemma say_good e w : log_ok (obj w, e) -> Good w -> Good (say e w).2.
Proof. intros H [G1 G2 G3 G4 G5 G6 G7]. split; simpl; try done. by constructor. Qed.
Hint Extern 1 (steps keeps (upd _)) => apply keeps_upd; intros; reflexivity : steps.
Hint Extern 1 (steps keeps (say _)) => apply keeps_say; intros; exact I : steps.
Hint Resolve keeps_ask : steps.

Lemma keeps_catch {A} c (m : RuntimeM A) h : steps keeps m -> (forall e, steps keeps (h e)) -> steps keeps (catch c m h).
Proof. intros Hm Hh. apply steps_catch; [typeclasses eauto|exact Hm|exact Hh]. Qed.
Lemma keeps_each {A} (f : A -> RuntimeM unit) l : (forall x, steps keeps (f x)) -> steps keeps (each f l).
Proof. intros H. induction l; simpl; steps. Qed.
(** Keeps the equation of a lifted result. *)
Lemma keeps_lift {A B} (r : result A) (k : A -> RuntimeM B) : (forall a, r = Ok a -> steps keeps (k a)) -> steps keeps (bind (lift r) k).
Proof. intros H. destruct r as [a|e]; [by apply (H a)|]. intros w G. exact G. Qed.

Lemma keeps_asking {A} (f : Env -> nat -> A) : steps keeps (asking f).
Proof. unfold asking. steps. Qed.
Lemma keeps_now : steps keeps now.
Proof. unfold now, asking. steps. Qed.
Lemma keeps_native {A} (m : HorizonM A) : steps keeps (in_native m).
Proof.
  intros w G. unfold in_native. destruct (native (obj w)) as [h|] eqn:E; [|exact G]. destruct (m h) as [r h'].
  destruct G as [G1 G2 G3 G4 G5 G6 G7]. by split.
Qed.
Lemma keeps_refuse {A} why : steps keeps (refuse (A:=A) why).
Proof. unfold refuse. steps. Qed.
Lemma keeps_each_execution f : (forall x, steps keeps (f x)) -> steps keeps (each_execution f).
Proof. intros H. unfold each_execution. steps. by apply keeps_each. Qed.
Hint Resolve @keeps_asking keeps_now @keeps_native @keeps_refuse keeps_each_execution : steps.

Lemma tracked_disarm t : tracked t -> tracked (disarm_sent t).
Proof. intros (past & H & F). exists (Observation.Disarm :: past). split; [by apply (track_inv past t Observation.Disarm)|by constructor]. Qed.
Lemma keeps_disarm : steps keeps (upd (fun s : runtime => s <| tracker := disarm_sent (tracker s) |>)).
Proof. intros w [G1 G2 G3 G4 G5 G6 G7]. split; try done. simpl. by apply tracked_disarm. Qed.
Hint Resolve keeps_disarm : steps.

Lemma keeps_request b : steps keeps (request_authority b).
Proof. unfold request_authority. steps. Qed.
Hint Resolve keeps_request : steps.
Lemma keeps_forward l : steps keeps (forward_arms l).
Proof. induction l as [|[] l IH]; simpl; steps. Qed.
Hint Resolve keeps_forward : steps.

(** ** The controller in its supervisor *)

Lemma said_since_in old new x : x ∈ said_since old new -> exists s, (s, x) ∈ out new.
Proof.
  unfold said_since. rewrite list_elem_of_In, <-in_rev, <-list_elem_of_In. intros ([s e] & -> & Hin)%list_elem_of_fmap.
  exists s. apply list_elem_of_In. rewrite <-(take_drop (length (out new) - length (out old)) (out new)). apply in_or_app. left.
  by apply list_elem_of_In.
Qed.
Lemma queue_grows c c' e : grown true c c' -> queue_ok c e -> queue_ok c' e.
Proof. intros (new & E) H. destruct e; try done. destruct H as (k & Hk). exists k. rewrite E. apply elem_of_app. by right. Qed.
Lemma life_grown {A} S a (m : ControlM A) : steps (life S a) m -> steps grown m.
Proof. intros H w. destruct (life_out _ _ _ _ _ (H w)) as (new & E & _). by exists new. Qed.
Lemma grown_handle {cenv : Controller.Env} i : steps grown (Controller.handle i).
Proof. intros w. destruct (step_out _ _ _ _ (handle_leg_step i w)) as (new & E & _). by exists new. Qed.
(** A call of the controller keeps its invariant and only adds to what it said. *)
Definition called {A} (m : ControlM A) : Prop := steps safe m /\ steps grown m.
Lemma keeps_in_controller {A} (m : Controller.Env -> ControlM A) : (forall e, called (m e)) -> steps keeps (in_controller m).
Proof.
  intros Hm w G. unfold in_controller. enough (wp (s <~ get ;; (let '(r, c) := m (source_env s) (controller s) in
    upd (fun s0 => s0 <| controller := c |> <| node_sent := node_sent s0 ++ List.filter (fun e => negb (is_arm e)) (said_since (controller s) c) |>) ;~
    forward_arms (said_since (controller s) c) ;~ lift r)) (fun _ => Good) w) as K by exact K.
  apply wp_get. destruct (Hm (source_env (obj w))) as [Gc Hg]. specialize (Gc (controller (obj w)) (g_controller w G)). specialize (Hg (controller (obj w))).
  destruct (m _ _) as [r c]. simpl in Gc, Hg. apply wp_upd.
  set (w1 := w <| obj := _ |>). assert (Good w1) as G1.
  { destruct G as [G1 G2 G3 G4 G5 G6 G7]. split; simpl; try done. apply Forall_app. split.
    { eapply Forall_impl; [exact G4|]. intros e. by apply queue_grows. }
    apply Forall_forall. intros e He. rewrite list_elem_of_In in He. apply List.filter_In in He as [He _]. rewrite <-list_elem_of_In in He.
    apply said_since_in in He as [s Hs]. destruct e; try done. by exists s. }
  assert (steps keeps (forward_arms (said_since (controller (obj w)) c) ;~ lift r)) as F by steps. by apply F.
Qed.

(** The calls the supervisor makes. *)
Lemma called_handle {cenv : Controller.Env} i : called (Controller.handle i).
Proof. split; [apply safe_handle|apply grown_handle]. Qed.
Lemma called_calm {A} (m : ControlM A) : steps calm m -> steps grown m -> called m.
Proof. split; [by apply calm_safe|done]. Qed.
Lemma keeps_control f : steps keeps (control f).
Proof. apply keeps_in_controller. intros e. exact (called_handle (Control f)). Qed.
Lemma keeps_on_plan m : steps keeps (in_controller (fun _ => Controller.on_plan m)).
Proof. apply keeps_in_controller. intros e. exact (called_handle (Plan m)). Qed.
Lemma keeps_release_error i : steps keeps (in_controller (fun _ => Controller.release_error i)).
Proof. apply keeps_in_controller. intros e. apply called_calm; [apply calm_release_error|]. eapply life_grown, (life_release_error (fun _ => False) false). Qed.
Lemma keeps_ctl_release i t : steps keeps (in_controller (fun _ => Controller.release i t)).
Proof. apply keeps_in_controller. intros e. split; [apply safe_release|]. eapply life_grown, (life_release (fun _ => True) false). done. Qed.
Lemma keeps_exec_time : steps keeps (in_controller (fun _ => Controller.exec_time)).
Proof. apply keeps_in_controller. intros e. apply called_calm; [apply calm_exec_time|]. eapply life_grown, (life_exec_time (fun _ => False) false). Qed.
Lemma keeps_clock : steps keeps controller_clock.
Proof. apply keeps_in_controller. intros e. apply called_calm; [apply calm_now|]. eapply life_grown, (life_now (fun _ => False) false). Qed.
Lemma keeps_clear_jog : steps keeps (in_controller (fun _ => Controller.clear_jog)).
Proof. apply keeps_in_controller. intros e. apply called_calm; [apply calm_clear_jog|]. eapply life_grown, (life_clear_jog (fun _ => False) false). Qed.
Lemma keeps_on_jog q : steps keeps (in_controller (fun _ => Controller.on_jog q)).
Proof. apply keeps_in_controller. intros e. apply called_calm; [apply calm_jog|]. eapply life_grown, (life_jog (fun _ => False) false). Qed.
Lemma keeps_validate spec : steps keeps (in_controller (fun _ => Controller.validate_pose_hold spec)).
Proof.
  apply keeps_in_controller. intros e. split; [apply safe_quiet, quiet_validate|]. eapply life_grown, (life_validate (fun _ => False) false).
Qed.
Lemma keeps_window i tr b : steps keeps (in_controller (fun _ => select_reference_window i tr b)).
Proof. apply keeps_in_controller. intros e. split; [apply safe_window|]. eapply life_grown, (life_window (fun _ => False) false). Qed.
Lemma keeps_health h : steps keeps (in_controller (fun _ => on_motor_health h)).
Proof. apply keeps_in_controller. intros e. split; [apply safe_health|]. eapply life_grown, (life_health (fun _ => False) false). Qed.
Lemma keeps_sample v : steps keeps (in_controller (fun _ => on_motor_state v)).
Proof. apply keeps_in_controller. intros e. split; [apply safe_state|]. eapply life_grown, (life_state (fun _ => False) false). Qed.
Lemma keeps_tick : steps keeps (in_controller (fun _ => Controller.tick)).
Proof. apply keeps_in_controller. intros e. split; [apply safe_tick|]. eapply life_grown, (life_tick (fun _ => False) false). Qed.
Hint Resolve keeps_control keeps_on_plan keeps_release_error keeps_ctl_release keeps_exec_time keeps_clock keeps_clear_jog
  keeps_on_jog keeps_validate keeps_window keeps_health keeps_sample keeps_tick : steps.

(** ** The ledger *)

Lemma Receipt_new_same r r' : Receipt_new r = Ok r' -> r' = r.
Proof. unfold Receipt_new. intros H. by inv_ok H. Qed.
Lemma apply_same st r st' : apply_receipt st r = Ok st' ->
  execution_id st' = execution_id st /\ es_request_id st' = es_request_id st /\ es_instance_id st' = es_instance_id st /\
  rc_execution_id r = execution_id st.
Proof.
  unfold apply_receipt. intros H. pass_guard H E. apply negb_false_iff, bool_decide_eq_true in E. injection E as E _ _. by inv_ok H.
Qed.

(** An update of an execution that leaves what its receipts fix. *)
Definition bookkeeping (f : execution -> execution) : Prop :=
  forall x, x_status (f x) = x_status x /\ x_receipts (f x) = x_receipts x /\ x_request (f x) = x_request x /\
    (x_stream x = None -> x_stream (f x) = None).
Lemma Good_executions (w : RW) f :
  (forall x, x ∈ f (executions (obj w)) -> entry_ok x.1 x.2) -> NoDup (map fst (f (executions (obj w)))) ->
  (native (obj w) = None -> Forall (fun x => x_stream x.2 = None) (f (executions (obj w)))) ->
  Good w -> Good (w <| obj := (obj w) <| executions := f (executions (obj w)) |> |>).
Proof. intros H1 H2 H3 [G1 G2 G3 G4 G5 G6 G7]. split; simpl; try done. by apply Forall_forall. Qed.
(** An update that makes no execution a stream. *)
Lemma plain_dupd (l : list (string * execution)) eid f : (forall x, x_stream x = None -> x_stream (f x) = None) ->
  Forall (fun x => x_stream x.2 = None) l -> Forall (fun x => x_stream x.2 = None) (dupd eid f l).
Proof.
  intros Hf H. rewrite Forall_forall in H. apply Forall_forall. intros x [Hx|(v & Hx & _ & ->)]%dupd_in; [by apply H|].
  apply Hf. exact (H _ Hx).
Qed.
Lemma keeps_upd_ex eid f : bookkeeping f -> steps keeps (upd_ex eid f).
Proof.
  intros Hf w G. apply Good_executions; [..|done].
  - intros x [Hin|(v & Hin & -> & ->)]%dupd_in; [by apply (proj1 (Forall_forall _ _) (g_ledger w G))|].
    pose proof (proj1 (Forall_forall _ _) (g_ledger w G) _ Hin) as [E1 E2 E3 E4]. destruct (Hf v) as (F1 & F2 & F3 & _).
    split; simpl in *; by rewrite ?F1, ?F2, ?F3.
  - rewrite dupd_keys. apply G.
  - intros Hn. apply plain_dupd; [apply Hf|by apply (g_streams w G)].
Qed.
Lemma keeps_upd_stream eid f : steps keeps (upd_stream eid f).
Proof. apply keeps_upd_ex. intros x. split_and!; try done. simpl. by intros ->. Qed.
Lemma keeps_set_attempt k f : steps keeps (set_attempt k f).
Proof. unfold set_attempt, upd_attempt. steps. Qed.
Lemma keeps_upd_attempt k f : steps keeps (upd_attempt k f).
Proof. unfold upd_attempt. steps. Qed.

(** What an APPLIED receipt rests on. *)
Definition evidenced (s : runtime) (eid : string) : Prop :=
  exists x seq, find_ex s eid = Some x /\ x_first_seq x = Some seq /\ applied_evidence (x_epoch x) seq.
Lemma entry_of (w : RW) eid x : Good w -> find_ex (obj w) eid = Some x -> entry_ok eid x.
Proof. intros G H. apply dget_in in H. exact (proj1 (Forall_forall _ _) (g_ledger w G) _ H). Qed.
Lemma receipt_good eid ph why ev w : (ph = APPLIED -> evidenced (obj w) eid) -> Good w -> Good (receipt eid ph why ev w).2.
Proof.
  intros He G. enough (wp (receipt eid ph why ev) (fun _ => Good) w) as K by exact K.
  unfold receipt, the_ex. apply wp_bind, wp_get. unfold some_or. destruct (find_ex (obj w) eid) as [x|] eqn:Ex; [|exact G].
  apply wp_ret. assert (steps (kept (fun s : runtime => s)) now) as Hn by (unfold now, asking; steps).
  pose proof (entry_of w eid x G Ex) as [E1 E2 E3 (r0 & l & st0 & E4 & E5 & E6 & E7)].
  apply (wp_steps _ _ _ _ _ keeps_now); [|auto]. intros at_ w1 Hw1 G1. pose proof (kept_eq (fun s : runtime => s) _ _ _ _ Hn Hw1) as Eo. cbv beta in Eo.
  specialize (G1 G). rewrite <-Eo in He, Ex. clear Eo Hn Hw1 G w. rename w1 into w, G1 into G.
  apply wp_lift; [|done]. intros r Hr. apply Receipt_new_same in Hr as ->.
  apply wp_lift; [|done]. intros st Hst. pose proof (apply_same _ _ _ Hst) as (A1 & A2 & A3 & A4).
  apply wp_bind. unfold upd_ex. unfold wp at 1. simpl. unfold wp. apply say_good.
  - intros Hp. destruct He as (x' & seq & H1 & H2 & H3); [by destruct ph|]. rewrite Ex in H1. injection H1 as <-.
    eexists. exists seq. simpl. rewrite E1. unfold find_ex in *. cbn [executions]. rewrite dget_dupd, Ex. by repeat split.
  - apply Good_executions; [..|done].
    + intros y [Hin|(v & Hin & -> & ->)]%dupd_in; [by apply (proj1 (Forall_forall _ _) (g_ledger w G))|].
      pose proof (dget_nodup _ _ _ (g_keys w G) Hin) as Hv. unfold find_ex in Ex. simpl in *. rewrite Ex in Hv. injection Hv as <-.
      split; simpl; try congruence. exists r0. eexists. exists st0. rewrite E4. split; [reflexivity|]. do 2 (split; [done|]).
      by rewrite fold_receipts_snoc, E7.
    + rewrite dupd_keys. apply G.
    + intros Hn. apply plain_dupd; [done|by apply (g_streams w G)].
Qed.
Lemma keeps_receipt eid ph why ev : ph <> APPLIED -> steps keeps (receipt eid ph why ev).
Proof. intros H w G. by apply receipt_good. Qed.
End Facts.

#[export] Hint Extern 1 (steps keeps (upd _)) => apply keeps_upd; intros; reflexivity : steps.
#[export] Hint Extern 1 (steps keeps (say _)) => apply keeps_say; intros; exact I : steps.
#[export] Hint Extern 1 (steps keeps (upd_ex _ _)) => apply keeps_upd_ex; intros ?; by repeat split : steps.
#[export] Hint Extern 1 (steps keeps (receipt _ ?ph _ _)) => apply keeps_receipt; first [discriminate | assumption | repeat match goal with |- context [if ?b then _ else _] => destruct b end; discriminate] : steps.
#[export] Hint Resolve keeps_ask @keeps_asking keeps_now @keeps_native @keeps_refuse keeps_each_execution keeps_disarm keeps_request
  keeps_forward keeps_control keeps_on_plan keeps_release_error keeps_ctl_release keeps_exec_time keeps_clock keeps_clear_jog keeps_on_jog
  keeps_validate keeps_window keeps_health keeps_sample keeps_tick keeps_upd_stream keeps_upd_attempt keeps_set_attempt : steps.
(** Walks an operation of the supervisor. *)
Ltac walk := repeat first [progress steps | apply keeps_catch | apply keeps_each; intros].
Ltac next := apply steps_bind; [typeclasses eauto|solve [walk]|intros].
(** The goal [Good] of the world after a computation that [walk] walks. *)
Ltac keep :=
  match goal with
  | |- wp ?m _ _ => let H := fresh in assert (steps keeps m) as H by walk; by apply H
  | |- Good (?m _).2 => let H := fresh in assert (steps keeps m) as H by walk; by apply H
  end.
