(* ===== verification/RuntimeSafety.v ===== *)
(** Every operation of the supervisor keeps the invariant of [RuntimeFacts]: the
    operations of the controller's side first, then the clients', the native
    reference's and the loop's. *)
From stdpp Require Import pretty.
From Stdlib Require Import SpecFloat PrimFloat FloatOps.
From S2P Require Import Prelude Floats Motion Contract Stream RtProtocol Observation Servo Policy Effects Executor Controller ControllerFacts ControllerLegs Horizon Runtime RuntimeClients RuntimeNative RuntimeLoop RuntimeFacts.

Section Operations.
Context {cfg : Config} {ccfg : Controller.Config} {env : Env} {henv : Horizon.Env}.

(** A computation that reads the object knows one with the invariant. *)
Lemma keeps_get {A} (k : runtime -> RuntimeM A) :
  (forall s, (exists w : world runtime effect, Good w /\ obj w = s) -> steps keeps (k s)) -> steps keeps (bind get k).
Proof. intros H w G. exact (H (obj w) (ex_intro _ w (conj G eq_refl)) w G). Qed.

Lemma keeps_publish : steps keeps publish.
Proof. unfold publish. walk. Qed.
Lemma keeps_the_ex eid : steps keeps (the_ex eid).
Proof. unfold the_ex. steps. Qed.
Lemma keeps_get_ex eid : steps keeps (get_ex eid).
Proof. unfold get_ex. steps. Qed.
Lemma keeps_owns session : steps keeps (owns session).
Proof. unfold owns. steps. Qed.
Hint Resolve keeps_publish keeps_the_ex keeps_get_ex keeps_owns : steps.
Lemma keeps_retire eid : steps keeps (retire_native eid).
Proof. unfold retire_native. steps. Qed.
Lemma keeps_stage_hold c r : steps keeps (stage_hold c r).
Proof. unfold stage_hold. steps. Qed.
Hint Resolve keeps_retire keeps_stage_hold : steps.

(** ** Forwarding *)

(** The commands [l] are in the queue: nothing takes one out while they are sent. *)
Definition queued (l : list Controller.effect) (w : RW) : Prop := Good w /\ l ⊆ node_sent (obj w).
Abbreviation forwards l := (saves (queued l)).
Lemma forwards_kept {A} l (m : RuntimeM A) : steps keeps m -> steps (kept node_sent) m -> steps (forwards l) m.
Proof. intros Hk Hn w [G Hl]. split; [by apply Hk|]. specialize (Hn w). unfold kept in Hn. by rewrite Hn. Qed.
Lemma sent_native {A} (m : HorizonM A) : steps (kept node_sent) (in_native m).
Proof. intros w. unfold in_native, kept. destruct (native (obj w)); [|done]. by destruct (m _). Qed.
Hint Resolve @sent_native : steps.
Lemma forwards_native {A} l (m : HorizonM A) : steps (forwards l) (in_native m).
Proof. apply forwards_kept; [walk|steps]. Qed.
Lemma forwards_upd l f : (forall s, seen (f s) = seen s) -> steps (forwards l) (upd f).
Proof. intros H. apply forwards_kept; [by apply keeps_upd|]. intros w. specialize (H (obj w)). unfold seen in H. unfold kept. simpl. congruence. Qed.
Lemma forwards_ask l : steps (forwards l) ask.
Proof. apply forwards_kept; steps. Qed.
Lemma forwards_lift {A B} l (r : result A) (k : A -> RuntimeM B) :
  (forall a, r = Ok a -> steps (forwards l) (k a)) -> steps (forwards l) (bind (lift r) k).
Proof. intros H. destruct r as [a|e]; [by apply (H a)|]. intros w G. exact G. Qed.
Lemma forwards_in_controller {A} l (m : Controller.Env -> ControlM A) : steps keeps (in_controller m) -> steps (forwards l) (in_controller m).
Proof.
  intros Hk w [G Hl]. split; [by apply Hk|]. unfold in_controller, bind, get. destruct (m _ _) as [r c]. unfold upd.
  assert (forall l' w', node_sent (obj (forward_arms l' w').2) = node_sent (obj w')) as K.
  { intros l' w'. assert (steps (kept node_sent) (forward_arms l')) as H; [|exact (H w')].
    induction l' as [|[] l' IH]; simpl; unfold request_authority; steps. }
  simpl. set (w1 := {| obj := _ |}) in *. specialize (K (said_since (controller (obj w)) c) w1).
  destruct (forward_arms _ w1) as [[u|e] w2]; simpl in K |- *; rewrite K; intros x Hx; apply elem_of_app; left; by apply Hl.
Qed.
Hint Resolve @forwards_native forwards_ask : steps.
Hint Extern 1 (steps (forwards _) (upd _)) => apply forwards_upd; intros; reflexivity : steps.

Lemma keeps_send l j spec pose words c : MotorCommand j spec pose words ∈ l -> unpack_motor_command words (n_arm ccfg) = Ok c ->
  steps (forwards l) (send_command c).
Proof.
  intros Hj Hc. assert (steps (forwards l) (link_apply c)) as H.
  { unfold link_apply, asking. apply steps_bind; [typeclasses eauto| |steps]. intros w [G Hl]. split; [|exact Hl]. apply say_good; [|exact G].
    pose proof (proj1 (Forall_forall _ _) (g_queue w G) _ (Hl _ Hj)) as (k & Hk).
    exists j, spec, pose, words, k. split_and!; [by apply Hl|exact Hk| |exact Hc].
    exact (proj1 (Forall_forall _ _) (proj2 (g_controller w G)) _ Hk). }
  unfold send_command, stage_hold, asking. steps.
Qed.
Lemma called_sent_leg {cenv : Controller.Env} eid q : called (t <~ Controller.now ;; streamed_command_sent eid q t).
Proof.
  split.
  - apply steps_bind; [typeclasses eauto|apply calm_safe, calm_now|]. intros t. exact (safe_handle (Sent eid q t)).
  - apply steps_bind; [typeclasses eauto|eapply life_grown, (life_now (fun _ => False) false)|]. intros t. exact (grown_handle (Sent eid q t)).
Qed.
Lemma keeps_sent_leg eid q : steps keeps (in_controller (fun _ => t <~ Controller.now ;; streamed_command_sent eid q t)).
Proof. apply keeps_in_controller. intros e. apply called_sent_leg. Qed.
Hint Resolve keeps_sent_leg : steps.
Lemma forwards_sent_leg l eid q : steps (forwards l) (in_controller (fun _ => t <~ Controller.now ;; streamed_command_sent eid q t)).
Proof. apply forwards_in_controller, keeps_sent_leg. Qed.
Hint Resolve forwards_sent_leg : steps.
Lemma forwards_send_all sf l l' : l' ⊆ l -> steps (forwards l) (send_all sf l').
Proof.
  induction l' as [|e l' IH]; intros Hl; simpl; [steps|]. assert (l' ⊆ l) as Hl' by set_solver. specialize (IH Hl').
  destruct e; try done. apply forwards_lift. intros c0 Hc.
  apply steps_bind; [typeclasses eauto|eapply keeps_send; [|exact Hc]; apply Hl; by left|]. intros seq.
  apply steps_bind; [typeclasses eauto| |steps]. destruct seq, sf; steps.
Qed.
Lemma keeps_send_all sf w : Good w -> Good (send_all sf (node_sent (obj w)) w).2.
Proof. intros G. apply (forwards_send_all sf (node_sent (obj w)) _ ltac:(done) w). by split. Qed.
Lemma keeps_on_event e : steps keeps (on_event e).
Proof. unfold on_event. walk. Qed.
Hint Resolve keeps_on_event : steps.
Lemma keeps_reconcile : steps keeps reconcile.
Proof. unfold reconcile, reconcile_one. walk. Qed.
Lemma keeps_sent_first eid n : steps keeps (sent_first eid n).
Proof. unfold sent_first. walk. Qed.
Lemma keeps_mark_sent eid n : steps keeps (mark_sent eid n).
Proof. unfold mark_sent. walk. Qed.
Hint Resolve keeps_reconcile keeps_sent_first keeps_mark_sent : steps.
Lemma then_good {A B} (m : RuntimeM A) (k : A -> RuntimeM B) w : Good (m w).2 -> (forall a, steps keeps (k a)) -> Good (bind m k w).2.
Proof. intros G Hk. destruct (bind_cases m k w) as [(a & _ & ->)|(e & _ & ->)]; [by apply Hk|done]. Qed.
Lemma flows_get {A} (k : runtime -> RuntimeM A) w : Good (k (obj w) w).2 -> Good (bind get k w).2.
Proof. done. Qed.
Lemma keeps_drained : steps keeps (upd (fun s : runtime => s <| node_sent := [] |>)).
Proof. intros w [G1 G2 G3 G4 G5 G6 G7]. by split. Qed.
Hint Resolve keeps_drained : steps.
Lemma keeps_pump sf settle : steps keeps (pump_controller sf settle).
Proof.
  intros w G. unfold pump_controller. apply flows_get. apply then_good; [by apply keeps_send_all|]. intros sent. walk.
Qed.
Hint Resolve keeps_pump : steps.
Lemma keeps_drop_staged eid why : steps keeps (drop_staged eid why).
Proof. unfold drop_staged. walk. Qed.
Hint Resolve keeps_drop_staged : steps.
Lemma keeps_settle eid why : steps keeps (settle_stream_attempts eid why).
Proof. unfold settle_stream_attempts. walk. Qed.
Hint Resolve keeps_settle : steps.
Lemma keeps_cancel eid why : steps keeps (cancel_execution eid why).
Proof. unfold cancel_execution. walk. Qed.
Lemma keeps_expire eid : steps keeps (expire eid).
Proof. unfold expire. walk. Qed.
Lemma keeps_reject eid why : steps keeps (reject_staged eid why).
Proof. unfold reject_staged. walk. Qed.
Hint Resolve keeps_cancel keeps_expire keeps_reject : steps.

(** ** Selection *)

Lemma with_ex {A} eid (k : execution -> RuntimeM A) :
  (forall x w, find_ex (obj w) eid = Some x -> Good w -> Good (k x w).2) -> steps keeps (bind (the_ex eid) k).
Proof. intros H w G. unfold the_ex, bind, get, some_or. destruct (find_ex (obj w) eid) as [x|] eqn:E; [by apply H|done]. Qed.
Lemma with_get_ex {A} eid (k : execution -> RuntimeM A) :
  (forall x w, find_ex (obj w) eid = Some x -> Good w -> Good (k x w).2) -> steps keeps (bind (get_ex eid) k).
Proof. intros H w G. unfold get_ex, bind, get. destruct (find_ex (obj w) eid) as [x|] eqn:E; [by apply H|done]. Qed.
(** A call that leaves what was read of the object. *)
Lemma kept_then {A B C} (f : runtime -> C) (m : RuntimeM A) (k : A -> RuntimeM B) w :
  steps (kept f) m -> steps keeps m -> Good w ->
  (forall a w', f (obj w') = f (obj w) -> Good w' -> Good (k a w').2) -> Good (bind m k w).2.
Proof.
  intros Hs Hm G Hk. specialize (Hs w). specialize (Hm w G). unfold kept in Hs.
  destruct (bind_cases m k w) as [(a & _ & ->)|(e & _ & ->)]; [by apply Hk|done].
Qed.
Lemma same_check x at_ : steps (kept (fun s : runtime => s)) (check_start x at_).
Proof. unfold check_start, asking, refuse. steps. Qed.

Lemma release_then {A} eid (k : RuntimeM A) w : log_ok (obj w, Releasing eid (asked w)) -> steps keeps k -> Good w -> Good ((releasing eid ;~ k) w).2.
Proof. intros He Hk G. apply (Hk (say (Releasing eid (asked w)) w).2). by apply say_good. Qed.
Lemma say_then {A} e (k : RuntimeM A) w : log_ok (obj w, e) -> steps keeps k -> Good w -> Good ((say e ;~ k) w).2.
Proof. intros He Hk G. apply (Hk (say e w).2). by apply say_good. Qed.
Lemma selection_armed s : selection_refusal (authority_ s) = None -> armed_now s.
Proof. unfold selection_refusal, armed_now. by case_bool_decide. Qed.
Lemma asking_same {A} (f : Env -> nat -> A) w : asking f w = (Ok (f env (asked w)), w <| asked := Datatypes.S (asked w) |>).
Proof. done. Qed.
(** A planned execution that did not expire was looked at in time. *)
Lemma expire_false eid w w' : expire eid w = (Ok false, w') ->
  obj w' = obj w /\ forall x, find_ex (obj w) eid = Some x -> admitted x = true -> x_stream x = None -> native (obj w) = None ->
    exists k t, asked w' = S k /\ Stamp_new (monotonic_ns env k) PC (domain_ cfg) = Ok t /\ expired (x_request x) t = Ok false.
Proof.
  intros H. unfold expire, the_ex in H. apply bind_ok in H as (x & w1 & Hx & H). unfold bind at 1, get at 1 in Hx.
  destruct (find_ex (obj w) eid) as [x'|] eqn:Ex; [|done]. injection Hx as <- <-. unfold bind at 1, get at 1 in H.
  destruct (is_some (x_stream x') || _ || _) eqn:E.
  - injection H as <-. split; [done|]. intros y [= <-] Ha Hs Hn. rewrite Hs, Ha in E. unfold plays, native_key, ref in E. by rewrite Hn in E.
  - unfold now in H. apply bind_ok in H as (t & w2 & Ht & H). unfold bind at 1 in Ht. rewrite asking_same in Ht. injection Ht as Ht <-.
    apply bind_ok in H as (late & w3 & Hl & H). injection Hl as Hl <-. destruct late.
    + apply bind_ok in H as (u & w4 & _ & H). apply bind_ok in H as (u' & w5 & _ & H). done.
    + injection H as <-. split; [done|]. intros y [= <-] _ _ _. exists (asked w), t. by split_and!.
Qed.
Lemma select_good eid start_at w x : find_ex (obj w) eid = Some x -> admitted x = true -> Good w -> Good (select eid start_at w).2.
Proof.
  intros Hx Ha G. enough (wp (select eid start_at) (fun _ => Good) w) as K by exact K. unfold select.
  apply (wp_steps _ _ _ _ _ (keeps_expire eid)); [|auto]. intros gone w1 E G1. specialize (G1 G). destruct gone; [exact G1|].
  apply expire_false in E as [Eo He]. apply wp_get. destruct (selection_refusal (authority_ (obj w1))) as [r|] eqn:Er.
  { keep. }
  destruct (is_some (native (obj w1))) eqn:En.
  - keep.
  - apply release_then; [|walk|done]. unfold log_ok. rewrite Eo in *. exists x. split; [done|]. unfold ref.
    pose proof (g_streams w1 G1) as Hn. rewrite Eo in Hn. destruct (native (obj w)); [done|]. specialize (Hn eq_refl).
    assert (x_stream x = None) as Hst by exact (proj1 (Forall_forall _ _) Hn _ (dget_in _ _ _ Hx)).
    simpl. split; [by apply selection_armed|]. split; [by unfold admitted in Ha; case_bool_decide|]. split; [exact Hst|]. by apply He.
Qed.

(** ** Clients *)

Lemma keeps_cancel_live why : steps keeps (cancel_live why).
Proof. unfold cancel_live. walk. Qed.
Lemma keeps_abandon why : steps keeps (abandon why).
Proof. unfold abandon. walk. Qed.
Hint Resolve keeps_cancel_live keeps_abandon : steps.
Lemma keeps_claim session : steps keeps (claim session).
Proof. unfold claim. walk. Qed.
Lemma keeps_unclaim session : steps keeps (unclaim session).
Proof. unfold unclaim. walk. Qed.
Lemma keeps_owner_lost session : steps keeps (owner_lost session).
Proof. unfold owner_lost. walk. Qed.
Lemma keeps_close session : steps keeps (close_session session).
Proof. unfold close_session. walk. Qed.
Lemma keeps_arm session : steps keeps (arm session).
Proof. unfold arm. walk. Qed.
Lemma keeps_do_disarm session : steps keeps (disarm session).
Proof. unfold disarm. walk. Qed.
Lemma keeps_hold session why : steps keeps (hold session why).
Proof. unfold hold. walk. Qed.
Lemma keeps_cancel_op session eid why : steps keeps (cancel session eid why).
Proof. unfold cancel. walk. Qed.
Lemma keeps_new_id : steps keeps new_id.
Proof. unfold new_id. walk. Qed.
Lemma keeps_group_check session : steps keeps (group_check session).
Proof. unfold group_check. walk. Qed.
Lemma keeps_group_set session j : steps keeps (group_set session j).
Proof. unfold group_set. walk. Qed.
Lemma keeps_group_unset session j : steps keeps (group_unset session j).
Proof. unfold group_unset. walk. Qed.
Lemma keeps_group_restore session j : steps keeps (group_restore session j).
Proof. unfold group_restore. walk. Qed.
Lemma keeps_cancel_done : steps keeps group_cancel_done.
Proof. unfold group_cancel_done. walk. Qed.
Lemma keeps_refusal r live : steps keeps (submit_refusal r live).
Proof. unfold submit_refusal, or_else. walk. Qed.
Lemma keeps_stream_select eid : steps keeps (stream_select eid).
Proof. unfold stream_select. walk. Qed.
Lemma keeps_check_start x at_ : steps keeps (check_start x at_).
Proof. unfold check_start. walk. Qed.
Hint Resolve keeps_new_id keeps_refusal keeps_stream_select keeps_check_start : steps.
Lemma keeps_group_take session g b : steps keeps (group_take session g b).
Proof. unfold group_take. walk. Qed.
Lemma keeps_preset session name : steps keeps (select_control_preset session name).
Proof. unfold select_control_preset. walk. Qed.
Lemma keeps_set_executor m com : steps keeps (in_controller (fun _ =>
  c <~ get ;; e <~ lift (Executor.set_payload (executor c) m com) ;; upd (fun c => c <| executor := e |>))).
Proof.
  apply keeps_in_controller. intros e. split; [apply safe_replace; intros s x; apply set_payload_law|steps].
Qed.
Hint Resolve keeps_set_executor : steps.
Lemma keeps_set_payload session m com : steps keeps (set_payload session m com).
Proof. unfold set_payload. walk. Qed.
Lemma keeps_set_rigid d : steps keeps (in_controller (fun _ =>
  c <~ get ;; e <~ lift (Executor.set_dynamics (executor c) d) ;; upd (fun c => c <| executor := e |>))).
Proof.
  apply keeps_in_controller. intros e. split; [apply safe_replace; intros s x; apply set_dynamics_law|steps].
Qed.
Hint Resolve keeps_set_rigid : steps.
Lemma keeps_set_load session n names build : steps keeps (set_load_model session n names build).
Proof. unfold set_load_model. walk. Qed.
Lemma keeps_setpoint session q : steps keeps (setpoint session q).
Proof. unfold setpoint. walk. Qed.

(** A new execution enters the ledger with its first receipt. *)
Lemma new_entry eid r rid at_ first st stm rev : rid = request_id r -> first_receipt eid rid at_ = Ok first -> start_status first = Ok st ->
  entry_ok eid (new_execution r first st stm rev).
Proof.
  intros -> Hf Hs. apply Receipt_new_same in Hf as ->. pose proof Hs as Hs'. unfold start_status in Hs. pass_guard Hs E. injection Hs as <-.
  split; simpl; try done. by do 3 eexists.
Qed.
(** A stream enters only where the RT plays a reference. *)
Lemma enter_good eid (x : runtime -> execution) f (w : RW) : entry_ok eid (x (obj w)) -> (native (obj w) = None -> x_stream (x (obj w)) = None) ->
  (forall s, seen (f s) = seen (s <| executions := dput eid (x s) (executions s) |>)) -> Good w -> Good (upd f w).2.
Proof.
  intros Hx Hn Hf G.
  assert (Good (w <| obj := (obj w) <| executions := dput eid (x (obj w)) (executions (obj w)) |> |>)) as [K1 K2 K3 K4 K5 K6 K7].
  { apply (Good_executions w (dput eid (x (obj w)))); [|apply dput_nodup, G| |done].
    - intros y [Hin| ->]%dput_in; [by apply (proj1 (Forall_forall _ _) (g_ledger w G))|exact Hx].
    - intros Ho. apply Forall_forall. intros y [Hin| ->]%dput_in; [|by apply Hn].
      exact (proj1 (Forall_forall _ _) (g_streams w G Ho) _ Hin). }
  specialize (Hf (obj w)). unfold seen in Hf. injection Hf as F1 F2 F3 F4 F5. split; simpl in *; rewrite ?F1, ?F2, ?F3, ?F4; try done.
  intros Ho. apply K7. rewrite Ho in F5. by destruct (native (obj w)).
Qed.
Lemma keeps_enter eid (x : runtime -> execution) f : (forall s, entry_ok eid (x s)) -> (forall s, x_stream (x s) = None) ->
  (forall s, seen (f s) = seen (s <| executions := dput eid (x s) (executions s) |>)) -> steps keeps (upd f).
Proof. intros Hx Hn Hf w G. by apply (enter_good eid x). Qed.
Lemma keeps_submit session r : steps keeps (submit session r).
Proof.
  unfold submit. next. next. rename a0 into s. destruct (by_request s !! request_id r) as [known|]; [walk|].
  next. rename a0 into eid. next. apply keeps_lift. intros first Hf. apply keeps_lift. intros st Hs. next.
  apply steps_bind; [typeclasses eauto|eapply keeps_enter; [intros s1; by eapply new_entry|done|done]|]. intros _. next.
  destruct (negb (blank _)); [walk|]. destruct (velocities _) as [vs|]; [|steps]. next. destruct (negb _); [walk|]. next.
  apply with_ex. intros x w Hx G. apply then_good; [|steps]. case_bool_decide as E; [by apply keeps_receipt|].
  unfold when. destruct (admitted x && _) eqn:Ha; [|done]. apply andb_true_iff in Ha as [Ha _]. by eapply select_good.
Qed.
Lemma keeps_release session eid at_ : steps keeps (release session eid at_).
Proof.
  unfold release. next. apply with_get_ex. intros x w Hx G.
  apply (kept_then (fun s => s)); [destruct at_; [apply same_check|steps]|destruct at_; steps|done|]. intros _ w1 Eo G1. rewrite <-Eo in Hx.
  destruct (is_some (x_stream x)); [keep|].
  destruct (admitted x) eqn:Ha; simpl; [|done]. destruct (negb _); [done|]. by eapply select_good.
Qed.
Hint Resolve keeps_release : steps.
Lemma keeps_group_release session eid g b : steps keeps (group_release_op session eid g b).
Proof. unfold group_release_op. walk. Qed.
End Operations.

#[export] Hint Resolve keeps_publish keeps_the_ex keeps_get_ex keeps_owns keeps_retire keeps_stage_hold keeps_on_event keeps_reconcile
  keeps_sent_first keeps_mark_sent keeps_drained keeps_pump keeps_drop_staged keeps_settle keeps_cancel keeps_expire keeps_reject
  keeps_cancel_live keeps_abandon keeps_new_id keeps_stream_select keeps_release : steps.
#[export] Hint Resolve keeps_claim keeps_unclaim keeps_owner_lost keeps_close keeps_arm keeps_do_disarm keeps_hold keeps_cancel_op keeps_submit
  keeps_group_check keeps_group_set keeps_group_unset keeps_group_restore keeps_cancel_done keeps_group_release keeps_group_take keeps_preset
  keeps_set_payload keeps_set_load keeps_setpoint : steps.
