(* ===== verification/RuntimeMotion.v ===== *)
(** The invariant of [RuntimeFacts] through the native reference and the streams: what commits a
    reference or releases a plan has checked the authority and the reference it
    names. *)
From stdpp Require Import pretty.
From Stdlib Require Import SpecFloat PrimFloat FloatOps.
From S2P Require Import Prelude Floats Motion Contract Stream RtProtocol Observation Servo Policy Effects Executor Controller ControllerFacts ControllerLegs Horizon Runtime RuntimeClients RuntimeNative RuntimeLoop RuntimeFacts RuntimeSafety.

Section Motion.
Context {cfg : Config} {ccfg : Controller.Config} {env : Env} {henv : Horizon.Env}.

(** ** What a call leaves alone *)

Lemma kept_native {A B} (f : runtime -> B) (m : HorizonM A) :
  (forall s h, f (s <| native := h |>) = f s) -> steps (kept f) (in_native m).
Proof. intros H w. unfold in_native, kept. destruct (native (obj w)); [|done]. destruct (m _) as [r h']. simpl. apply H. Qed.
Lemma kept_receipt {B} (f : runtime -> B) eid ph why ev :
  (forall s g, f (s <| executions := dupd eid g (executions s) |>) = f s) -> steps (kept f) (receipt eid ph why ev).
Proof. intros H. unfold receipt, the_ex, now, asking, upd_ex. steps; intros w; apply H. Qed.
Lemma kept_quiet {A B} (f : runtime -> B) (m : Controller.Env -> ControlM A) :
  (forall e, steps quiet (m e)) -> (forall s c q, f (s <| controller := c |> <| node_sent := q |>) = f s) -> steps (kept f) (in_controller m).
Proof.
  intros Hm H w. unfold kept, in_controller, bind, get. destruct (m _ _) as [r c] eqn:E. simpl.
  destruct (Hm (source_env (obj w)) (controller (obj w))) as [_ Ho]. rewrite E in Ho. simpl in Ho.
  unfold said_since. rewrite Ho, Nat.sub_diag. simpl. apply H.
Qed.

(** A call whose answers satisfy [P]. *)
Lemma keeps_answer {A B} (P : A -> Prop) (m : RuntimeM A) (k : A -> RuntimeM B) :
  steps keeps m -> (forall w a, (m w).1 = Ok a -> P a) -> (forall a, P a -> steps keeps (k a)) -> steps keeps (bind m k).
Proof.
  intros Hm HP Hk w G. specialize (Hm w G). destruct (bind_cases m k w) as [(a & Ha & ->)|(e & _ & ->)]; [|done].
  apply Hk; [by eapply HP|done].
Qed.

(** ** The native reference *)

Lemma keeps_the_ref : steps keeps the_ref.
Proof. unfold the_ref. steps. Qed.
Hint Resolve keeps_the_ref : steps.
Lemma keeps_confirm_drop st eid : steps keeps (confirm_drop st eid).
Proof. unfold confirm_drop. walk. Qed.
Hint Resolve keeps_confirm_drop : steps.
Lemma keeps_confirm_drops st : steps keeps (confirm_drops st).
Proof. unfold confirm_drops. walk. Qed.
Lemma keeps_fail_attempt ph st rid : steps keeps (fail_attempt ph st rid).
Proof. unfold fail_attempt. walk. Qed.
Hint Resolve keeps_confirm_drops keeps_fail_attempt : steps.
Lemma keeps_unresolved : steps keeps selection_unresolved.
Proof. unfold selection_unresolved. walk. Qed.
Lemma keeps_measured p rx r a : steps keeps (publish_measured_hold p rx r a).
Proof. unfold publish_measured_hold. walk. Qed.
Hint Resolve keeps_unresolved keeps_measured : steps.
Lemma keeps_endpoint st rx : steps keeps (keep_endpoint st rx).
Proof. unfold keep_endpoint. walk. Qed.
Lemma keeps_first st rx : steps keeps (first_decision st rx).
Proof. unfold first_decision. walk. Qed.
Lemma keeps_report : steps keeps keep_group_report.
Proof. unfold keep_group_report. walk. Qed.
Lemma keeps_failure : steps keeps report_failure.
Proof.
  unfold report_failure. next. next. destruct (_ ≫= _) as [[eid x]|]; [|steps]. destruct (_ && _); simpl; [|steps].
  do 2 next. apply with_ex. intros y w _ G. revert w G. apply (keeps_answer (fun ph => ph <> APPLIED)); [walk| |intros ph Hp; walk].
  intros w ph H. destruct (admitted y); [|by injection H as <-].
  destruct (bind now _ w) as [r w'] eqn:E. simpl in H. subst r. apply bind_ok in E as (t & w1 & _ & E).
  apply bind_ok in E as (late & w2 & _ & E). injection E as <- _. by destruct late.
Qed.
Hint Resolve keeps_endpoint keeps_first keeps_report keeps_failure : steps.
Lemma keeps_stage_pending eid x : steps keeps (stage_pending eid x).
Proof. unfold stage_pending. walk. Qed.
Hint Resolve keeps_stage_pending : steps.

(** *** Commits *)

Lemma refusal_said r : blank (text_of (Some r)) = false.
Proof. by destruct r. Qed.
Lemma or_else_said {A} a b (k : string -> RuntimeM A) w : blank a = false -> bind (or_else a b) k w = k a w.
Proof. unfold or_else. by intros ->. Qed.
Lemma or_else_blank a b : blank a = true -> or_else a b = b.
Proof. unfold or_else. by intros ->. Qed.

Lemma the_ref_then {A} (k : horizon -> RuntimeM A) w :
  (forall h, ref (obj w) = Some h -> Good (k h w).2) -> Good w -> Good (bind the_ref k w).2.
Proof. intros H G. unfold the_ref, bind, get, some_or. destruct (ref (obj w)) as [h|] eqn:E; [by apply H|done]. Qed.
Lemma key_of s h : ref s = Some h -> native_key s = Horizon.key h.
Proof. unfold native_key. by intros ->. Qed.
Lemma approve_good w : native_key (obj w) = None \/ armed_now (obj w) -> Good w -> Good (say_and_approve w).2.
Proof.
  intros H G. apply the_ref_then; [|done]. intros h Hr. apply say_then; [|walk|done]. simpl. rewrite (key_of _ _ Hr) in *.
  split; [done|]. destruct H; auto.
Qed.
Lemma keeps_own_hold : steps keeps own_hold.
Proof.
  unfold own_hold. next. next. intros w G. apply the_ref_then; [|done]. intros h Hr. apply flows_get.
  destruct (negb (is_some (Horizon.key h)) && _ && _ && _) eqn:E; simpl; [|done]. apply approve_good; [|done]. left. rewrite (key_of _ _ Hr).
  by destruct (Horizon.key h).
Qed.
Lemma keeps_commit eid : steps keeps (commit_pending eid).
Proof.
  intros w G. unfold commit_pending. apply flows_get. destruct (selection_refusal (authority_ (obj w))) as [r|] eqn:Er.
  { rewrite or_else_said, refusal_said by apply refusal_said. simpl. keep. }
  apply selection_armed in Er. rewrite or_else_blank by done. unfold armed_now in Er.
  apply (kept_then authority_); [apply kept_quiet; [intros; apply quiet_release_error|done]|walk|done|]. intros why w1 E1 G1. rewrite <-E1 in Er.
  destruct (negb (blank why)); [keep|].
  apply (kept_then authority_); [by apply kept_native|walk|done|]. intros u w2 E2 G2. rewrite <-E2 in Er.
  refine (approve_good _ _ _); [by right|]. revert G2. apply (keeps_upd (fun s => s <| group_release := _ |>)). done.
Qed.

(** *** Releases *)

Definition holds (eid : string) (s : runtime) := (native s, is_some (find_ex s eid)).
Lemma holds_receipt eid ph why ev : steps (kept (holds eid)) (receipt eid ph why ev).
Proof.
  apply kept_receipt. intros s g. unfold holds, find_ex. simpl. f_equal. rewrite dget_dupd. by destruct (dget _ _).
Qed.
Hint Resolve holds_receipt : steps.
Lemma releasing_ok eid n s h : ref s = Some h -> is_some (find_ex s eid) = true -> Horizon.key h = Some eid ->
  Horizon.selected h = true \/ candidate_selection h = selected_ -> log_ok (s, Releasing eid n).
Proof. intros Hr Hx Hk Hs. destruct (find_ex s eid) as [x|] eqn:E; [|done]. exists x. split; [done|]. by rewrite Hr. Qed.
Lemma holds_ref eid s s' : holds eid s' = holds eid s -> ref s' = ref s /\ is_some (find_ex s' eid) = is_some (find_ex s eid).
Proof. unfold holds, ref. by intros [= -> ->]. Qed.
Lemma follow_good eid x w h : ref (obj w) = Some h -> is_some (find_ex (obj w) eid) = true -> Horizon.key h = Some eid -> Horizon.selected h = true ->
  Good w -> Good (follow_selected eid x w).2.
Proof.
  intros Hr Hx Hk Hs G. apply the_ref_then; [|done]. intros h' Hr'.
  apply (kept_then (holds eid)); [destruct (admitted x); [|steps]; simpl; steps|walk|done|].
  intros u w1 [E1 E2]%holds_ref G1. apply release_then; [|walk|done]. apply (releasing_ok eid _ _ h); [by rewrite E1|by rewrite E2|done|by left].
Qed.
Lemma plays_key s h eid : ref s = Some h -> plays s eid = true -> Horizon.key h = Some eid.
Proof. unfold plays, native_key. intros ->. by case_bool_decide. Qed.
Lemma keeps_pending : steps keeps pending_step.
Proof.
  intros w G. unfold pending_step. apply flows_get. destruct (native_pending (obj w)) as [eid|]; [|done].
  destruct (find_ex (obj w) eid) as [x|] eqn:Ex; [|keep]. destruct (_ || _); [keep|]. destruct (plays (obj w) eid) eqn:Ep; simpl; [|keep].
  apply the_ref_then; [|done]. intros h Hr. destruct (Horizon.selected h) eqn:Es.
  - eapply follow_good; eauto; [by rewrite Ex|by eapply plays_key].
  - assert (steps keeps (when (ready h) (commit_pending eid))) as H by (apply steps_when; [typeclasses eauto|apply keeps_commit]). by apply H.
Qed.
Hint Resolve keeps_own_hold keeps_pending : steps.

(** ** Streams *)

Lemma keeps_facts_now eid : steps keeps (facts_now eid).
Proof. unfold facts_now, stream_facts_error, session_epoch. walk. Qed.
Lemma keeps_stream_get session eid : steps keeps (stream_get session eid).
Proof. unfold stream_get. walk. Qed.
Lemma keeps_retry session i : steps keeps (stream_retry session i).
Proof. unfold stream_retry. walk. Qed.
Lemma keeps_slot session n b : steps keeps (stream_slot session n b).
Proof. unfold stream_slot. walk. Qed.
Lemma keeps_set_mark session f : steps keeps (set_mark session f).
Proof. unfold set_mark. walk. Qed.
Hint Resolve keeps_facts_now keeps_stream_get keeps_retry keeps_slot keeps_set_mark : steps.
Lemma keeps_or_else a b : steps keeps b -> steps keeps (or_else a b).
Proof. unfold or_else. steps. Qed.
Hint Resolve keeps_or_else : steps.
Lemma keeps_reason st i c f : steps keeps (curve_reason st i c f).
Proof. unfold curve_reason. walk. Qed.
Hint Resolve keeps_reason : steps.
Lemma keeps_queue_check eid k : steps keeps (queue_stream_check eid k).
Proof. unfold queue_stream_check, or_else. walk. Qed.
Lemma keeps_stream_fail eid k why a b : steps keeps (stream_fail eid k why a b).
Proof. unfold stream_fail. walk. Qed.
Hint Resolve keeps_queue_check keeps_stream_fail : steps.
Lemma as_request_id o r : as_request o = Ok r -> request_id r = so_request_id o.
Proof. unfold as_request, TrajectoryRequest_new. intros H. by inv_ok H. Qed.
(** Streams are for a robot whose RT plays references. *)
Definition bound (w : RW) : Prop := Good w /\ is_some (native (obj w)) = true.
Lemma then_bound {A B} (m : RuntimeM A) (k : A -> RuntimeM B) w :
  steps keeps m -> steps (kept (fun s : runtime => is_some (native s))) m -> bound w ->
  (forall a w', bound w' -> Good (k a w').2) -> Good (bind m k w).2.
Proof.
  intros Hk Hn [G Hb] H. specialize (Hk w G). specialize (Hn w). unfold kept in Hn.
  destruct (bind_cases m k w) as [(a & _ & ->)|(e & _ & ->)]; [|done]. apply H. split; [done|congruence].
Qed.
Lemma lift_bound {A B} (m : result A) (k : A -> RuntimeM B) w : bound w -> (forall a, m = Ok a -> Good (k a w).2) -> Good (bind (lift m) k w).2.
Proof. intros [G _] H. destruct m as [a|e]; [by apply (H a)|exact G]. Qed.
Lemma retry_bound session i w w' : stream_retry session i w = (Ok None, w') -> is_some (native (obj w')) = true.
Proof.
  unfold stream_retry. intros H. apply bind_ok in H as ([] & w1 & _ & H). unfold bind at 1, get at 1 in H.
  destruct (negb (has_stream (obj w1))) eqn:E; [done|]. unfold has_stream in E. breflect.
  destruct (find_attempt _ _) as [a|]; [by destruct (same_intent _ _)|]. by injection H as <-.
Qed.
Ltac then_bound := apply then_bound; [solve [walk]|unfold stream_slot, new_id, now, asking, refuse; solve [steps]|eassumption|].
Lemma keeps_open session o : steps keeps (open_stream session o).
Proof.
  unfold open_stream. next. rename a into o'. intros w G. pose proof (keeps_retry session (Opening o') w G) as G1. unfold bind at 1.
  destruct (stream_retry session (Opening o') w) as [[[a|]|e] w1] eqn:E; simpl in G1; [keep| |exact G1].
  assert (bound w1) as Hb by (split; [exact G1|by eapply retry_bound]). clear E G1 G w.
  then_bound. intros _ w2 H2. apply flows_get. destruct (is_some (current _)); [by apply H2|].
  then_bound. intros facts w3 H3. apply lift_bound; [done|]. intros facts' _. then_bound. intros eid w4 H4. then_bound. intros at_ w5 H5.
  apply lift_bound; [done|]. intros first Hf. then_bound. intros sess w6 H6. apply flows_get. cbv zeta.
  apply lift_bound; [done|]. intros r Hr. apply lift_bound; [done|]. intros st Hs. apply lift_bound; [done|]. intros a _.
  apply then_good; [|intros; walk]. destruct H6 as [G6 B6].
  set (stm := Some _). apply (enter_good eid (fun s => new_execution r first st stm (pl_revision (payload_ s)))); [|intros Hn; by rewrite Hn in B6|done|exact G6].
  eapply new_entry; [|exact Hf|exact Hs]. symmetry. by eapply as_request_id.
Qed.
Lemma keeps_anchor session eid : steps keeps (stream_anchor session eid).
Proof. unfold stream_anchor. walk. Qed.
Lemma keeps_revise session r : steps keeps (revise_stream session r).
Proof. unfold revise_stream. walk. Qed.
Lemma keeps_abort session eid rid : steps keeps (stream_abort session eid rid).
Proof. unfold stream_abort. walk. Qed.
Hint Resolve keeps_open keeps_anchor keeps_revise keeps_abort : steps.
Lemma keeps_finish : steps keeps finish_check.
Proof. unfold finish_check, or_else. walk. Qed.
Lemma keeps_ref_failed eid x st : steps keeps (stream_reference_failed eid x st).
Proof. unfold stream_reference_failed. walk. Qed.
Lemma keeps_upload eid k a st : steps keeps (upload_candidate eid k a st).
Proof. unfold upload_candidate. walk. Qed.
Lemma keeps_mismatch a st : steps keeps (start_mismatch a st).
Proof. unfold start_mismatch. walk. Qed.
Lemma keeps_confirm eid : steps keeps (confirm_sent eid).
Proof. unfold confirm_sent. walk. Qed.
Hint Resolve keeps_finish keeps_ref_failed keeps_upload keeps_mismatch keeps_confirm : steps.

Lemma kept_facts_now {B} (f : runtime -> B) eid : steps (kept f) (facts_now eid).
Proof. unfold facts_now, stream_facts_error, session_epoch, the_ex, asking. steps. Qed.
Lemma kept_mismatch {B} (f : runtime -> B) a st : steps (kept f) (start_mismatch a st).
Proof. unfold start_mismatch. steps. Qed.
Lemma kept_release_error eid : steps (kept authority_) (in_controller (fun _ => Controller.release_error eid)).
Proof. apply kept_quiet; [intros; apply quiet_release_error|done]. Qed.
Hint Resolve kept_facts_now kept_mismatch kept_release_error : steps.
Lemma commit_good eid k a st w : Good w -> Good (commit_candidate eid k a st w).2.
Proof.
  intros G. unfold commit_candidate. apply flows_get. destruct (selection_refusal (authority_ (obj w))) as [r|] eqn:Er.
  - clear Er. pose proof (refusal_said r) as Ht. revert Ht. generalize (text_of (Some r)). intros t Ht.
    rewrite or_else_said by done. cbv zeta. rewrite Ht. cbn [andb]. revert w G. apply (keeps_answer (fun y => blank y = false)); [walk|..].
    + intros w y H. destruct (is_some (s_selected st)); [by injection H as <-|]. rewrite or_else_said in H by done.
      destruct (bind _ _ w) as [res w'] eqn:E. simpl in H. subst res. apply bind_ok in E as (bad & w1 & _ & E). cbv beta in E. rewrite Ht in E. by injection E as <-.
    + intros y Hy. rewrite Hy. simpl. walk.
  - apply selection_armed in Er. unfold armed_now in Er. rewrite or_else_blank by done.
    apply (kept_then authority_); [steps|walk|done|]. intros why w1 E1 G1. rewrite <-E1 in Er. cbv zeta.
    apply (kept_then authority_); [unfold or_else; steps|walk|done|]. intros y w2 E2 G2. rewrite <-E2 in Er.
    destruct (negb (blank y)); [keep|].
    apply (kept_then authority_); [unfold set_attempt, now, asking, upd_attempt; steps|walk|done|]. intros u w3 E3 G3. rewrite <-E3 in Er.
    apply approve_good; [by right|done].
Qed.
Lemma receipt_then {A} eid ph why ev (k : RuntimeM A) w : ph <> APPLIED -> Good w ->
  (forall w', native (obj w') = native (obj w) -> is_some (find_ex (obj w') eid) = true -> Good w' -> Good (k w').2) ->
  Good ((receipt eid ph why ev ;~ k) w).2.
Proof.
  intros Hp G Hk. pose proof (keeps_receipt eid ph why ev Hp w G) as G'. pose proof (holds_receipt eid ph why ev w) as Hh. unfold kept, holds in Hh.
  injection Hh as Hn Hf. destruct (bind_cases (receipt eid ph why ev) (fun _ => k) w) as [(a & Ha & ->)|(e & _ & ->)]; [|done].
  apply Hk; [done| |done]. rewrite Hf. unfold receipt, the_ex, bind at 1, bind at 1, get, some_or in Ha. by destruct (find_ex (obj w) eid).
Qed.
Lemma follow_candidate_good eid k x h w : ref (obj w) = Some h -> Horizon.key h = Some eid -> candidate_selection h = selected_ -> Good w ->
  Good (follow_candidate eid k x w).2.
Proof.
  intros Hr Hk Hs G. apply the_ref_then; [|done]. intros h' Hr'.
  apply (kept_then native); [unfold set_attempt, now, asking, upd_attempt; steps|walk|done|]. intros u1 w1 E1 G1.
  apply (kept_then native); [unfold upd_stream, upd_ex; steps|walk|done|]. intros u2 w2 E2 G2.
  apply (kept_then native); [steps|walk|done|]. intros u3 w3 E3 G3.
  apply then_good; [|walk]. destruct (admitted x); [|done]. apply receipt_then; [done..|]. intros w4 E4 Hf G4.
  apply release_then; [|walk|done]. apply (releasing_ok eid _ _ h); [|done..|by right]. rewrite <-Hr. unfold ref. congruence.
Qed.
Lemma keeps_candidate eid k a x st : steps keeps (candidate_step eid k a x st).
Proof.
  intros w G. apply the_ref_then; [|done]. intros h Hr. do 3 (destruct (_ : bool); [keep|]).
  destruct (ready h). { apply then_good; [by apply commit_good|walk]. }
  apply flows_get. apply then_good; [|walk]. destruct (bool_decide (candidate_selection h = selected_) && _ && _) eqn:E; [|done].
  apply andb_true_iff in E as [E _]. apply andb_true_iff in E as [Es Ep]. apply bool_decide_eq_true in Es.
  eapply follow_candidate_good; eauto. by eapply plays_key.
Qed.
Hint Resolve keeps_candidate : steps.
Lemma keeps_live eid x st : steps keeps (live_stream_step eid x st).
Proof. unfold live_stream_step. walk. Qed.
Hint Resolve keeps_live : steps.
Lemma keeps_stream_step : steps keeps stream_step.
Proof. unfold stream_step. walk. Qed.
Hint Resolve keeps_stream_step : steps.
Lemma keeps_native_step st rx : steps keeps (native_step st rx).
Proof. unfold native_step. walk. Qed.
Hint Resolve keeps_native_step : steps.
End Motion.

#[export] Hint Resolve keeps_native_step keeps_open keeps_anchor keeps_revise keeps_abort : steps.
