(* ===== verification/RuntimeRuns.v ===== *)
(** The supervisor under any interleaving of its clients and threads: what is true
    of every world reached.  The ledger obeys the contract, the wire carries only
    vetted commands, motion needs ARM, APPLIED needs the RT's evidence, and a
    session without the robot changes nothing. *)
From stdpp Require Import pretty.
From Stdlib Require Import SpecFloat PrimFloat FloatOps.
From S2P Require Import Prelude Floats Motion Contract Stream RtProtocol Observation Servo Policy Effects Executor Controller ControllerFacts ControllerLegs Horizon Runtime RuntimeClients RuntimeNative RuntimeLoop RuntimeDemo RuntimeFacts RuntimeSafety RuntimeMotion ControllerDemo HorizonPending.

Section Runs.
Context {cfg : Config} {ccfg : Controller.Config} {env : Env} {henv : Horizon.Env}.

(** ** The loop *)

Lemma keeps_drain l : steps keeps (drain l).
Proof. induction l as [|j l IH]; simpl; walk. Qed.
Hint Resolve keeps_drain : steps.
Lemma keeps_drain_authority : steps keeps drain_authority.
Proof. unfold drain_authority. walk. Qed.
Lemma keeps_observed t : steps keeps (in_controller (fun _ => upd (fun k => k <| last_state_at := Some t |>))).
Proof. apply keeps_in_controller. intros e. apply called_calm; [by apply calm_core|steps]. Qed.
Hint Resolve keeps_drain_authority keeps_observed : steps.
Lemma keeps_take x : steps keeps (take_sample x).
Proof. unfold take_sample. walk. Qed.
Hint Resolve keeps_take : steps.

Lemma confirmed_evidence (w : world runtime effect) ep c seq : Good w -> Observation.confirmed (tracker (obj w)) ep = Some c ->
  epoch_reached c seq = true -> applied_evidence ep seq.
Proof.
  intros G Hc He. destruct (g_tracker w G) as (past & [_ Hi _] & Hp). unfold Observation.confirmed in Hc. case_bool_decide as Ee; [|done].
  destruct (Hi c Hc) as (l0 & s2 & l1 & s1 & l2 & e & -> & He' & E1 & E2 & <- & Hn & _). rewrite Ee in He'. injection He' as <-.
  apply Forall_app in Hp as [_ Hp]. apply Forall_cons in Hp as [H2 Hp]. apply Forall_app in Hp as [_ Hp]. apply Forall_cons in Hp as [H1 _].
  by exists s1, s2.
Qed.
Lemma keeps_weigh eid : steps keeps (weigh eid).
Proof.
  unfold weigh. apply with_ex. intros x w Hx G. apply flows_get. destruct (x_first_seq x) as [seq|] eqn:Es; [|done].
  destruct (_ && _); [keep|]. case_bool_decide; [|done]. destruct (Observation.confirmed _ _) as [c|] eqn:Ec; [|done].
  destruct (epoch_reached c seq) eqn:Ee; [|done]. apply receipt_good; [|done]. intros _. exists x, seq. by eauto using confirmed_evidence.
Qed.
Hint Resolve keeps_weigh : steps.
Lemma tracked_feed k l s : l ⊆ recent_states env k -> tracked (tracker s) -> tracked (tracker (fold_left feed_packet l s)).
Proof.
  revert s. induction l as [|x l IH]; intros s Hl Ht; simpl; [done|]. apply IH; [set_solver|]. unfold feed_packet.
  destruct (_ >f _); [|done]. destruct Ht as (past & Hi & Hp). exists (Fed (rt x.1) :: past). split; [by apply (track_inv past _ (Fed _))|].
  constructor; [|done]. exists k, x. set_solver.
Qed.
Lemma feed_seen l s : let s' := fold_left feed_packet l s in
  executions s' = executions s /\ controller s' = controller s /\ node_sent s' = node_sent s /\ native s' = native s.
Proof.
  revert s. induction l as [|x l IH]; intros s; simpl; [done|]. destruct (IH (feed_packet s x)) as (-> & -> & -> & ->).
  unfold feed_packet. by destruct (_ >f _).
Qed.
Lemma keeps_feed k : steps keeps (upd (fun s => fold_left feed_packet (recent_states env k) s)).
Proof.
  intros w [G1 G2 G3 G4 G5 G6 G7]. destruct (feed_seen (recent_states env k) (obj w)) as (E1 & E2 & E3 & E4).
  split; simpl; rewrite ?E1, ?E2, ?E3, ?E4; try done. by apply (tracked_feed k).
Qed.
Lemma prune_attempts_seen l s : seen (fold_left prune_attempt l s) = seen s.
Proof. revert s. induction l as [|x l IH]; intros s; simpl; [done|]. rewrite IH. unfold prune_attempt. by destruct (_ && _). Qed.
Lemma prune_some l (w : world runtime effect) : Good w -> Good (w <| obj := fold_left prune_execution l (obj w) |>).
Proof.
  revert w. induction l as [|x l IH]; intros w G; [by destruct w|]. simpl. refine (IH (w <| obj := prune_execution (obj w) x |>) _).
  unfold prune_execution. destruct (_ && _); [|by destruct w]. destruct G as [G1 G2 G3 G4 G5 G6 G7]. split; simpl; try done; [|by apply ddel_nodup|].
  - apply Forall_forall. intros y Hy%ddel_in. by apply (proj1 (Forall_forall _ _) G1).
  - intros Hn. apply Forall_forall. intros y Hy%ddel_in. exact (proj1 (Forall_forall _ _) (G7 Hn) _ Hy).
Qed.
Lemma keeps_prune : steps keeps (upd prune).
Proof.
  intros w G. refine (prune_some _ (w <| obj := fold_left prune_attempt (stream_attempts (obj w)) (obj w) |>) _).
  refine (keeps_upd (fun s => fold_left prune_attempt (stream_attempts s) s) _ w G). intros s. apply prune_attempts_seen.
Qed.
Hint Resolve keeps_feed keeps_prune : steps.

(** ** Any input *)

Context (Hbuilt : Controller.built (fresh_controller cfg)).
Lemma fresh_good b : good (Controller.start ((fresh_controller cfg) <| native_source := b |>)).
Proof. split; [|constructor]. simpl. eapply Inv_core; [|by apply built_Inv]. done. Qed.
Lemma keeps_replace : steps keeps replace_stopped.
Proof.
  unfold replace_stopped. next. apply steps_when; [typeclasses eauto|]. apply steps_bind; [typeclasses eauto| |steps].
  intros w [G1 G2 G3 G4 G5 G6 G7]. split; simpl; try done. apply fresh_good.
Qed.
Hint Resolve keeps_replace : steps.
Lemma keeps_step : steps keeps step.
Proof.
  unfold step. do 4 next. apply (keeps_answer (fun l => exists k, l = recent_states env k)); [walk| |intros _ [k ->]; walk].
  intros w l H. exists (asked w). by injection H as <-.
Qed.
Hint Resolve keeps_step : steps.
Lemma keeps_loop : steps keeps loop_step.
Proof. unfold loop_step. walk. Qed.
Lemma keeps_operate session op : steps keeps (operate session op).
Proof. destruct op; simpl; walk. Qed.
Hint Resolve keeps_loop keeps_operate : steps.
Lemma keeps_handle i : steps keeps (handle i).
Proof. destruct i; simpl; walk. Qed.

Lemma keeps_start b t m : steps keeps (start b t m).
Proof.
  assert (forall i, steps keeps (in_controller (fun _ => Controller.handle i))) as H
    by (intros i; apply keeps_in_controller; intros e; apply called_handle).
  unfold start. destruct b; [|destruct t as [t|]; [apply (H (HoldDeadline t m))|steps]].
  apply steps_bind; [typeclasses eauto| |].
  - intros w [G1 G2 G3 G4 G5 G6 G7]. by split.
  - intros _. apply (H (BindSource true)).
Qed.
Lemma fresh_runtime_good : Good {| obj := RobotRuntime_new; out := []; asked := 0 |}.
Proof.
  split; simpl; try by constructor.
  - pose proof (fresh_good (native_source (fresh_controller cfg))) as H. by destruct (fresh_controller cfg).
  - exists []. by split; [split|].
Qed.
Lemma reachable_Good b t m l : Good (run_steps react (booted b t m) l).
Proof. apply run_steps_inv; [intros w i; apply (keeps_handle i w)|]. apply keeps_start, fresh_runtime_good. Qed.

(** ** Every world reached *)

Abbreviation reached b t m l := (run_steps react (booted b t m) l).

(** C28: the ledger: after any interleaving an execution is stored under its own id and
    names its own request, it began REQUESTED, and its status is what its
    receipts, applied in the order they were recorded, make of it under the
    contract's transition rules. *)
Theorem ledger_is_lawful b t m l eid x :
  (eid, x) ∈ executions (obj (reached b t m l)) ->
  NoDup (map fst (executions (obj (reached b t m l)))) /\
  execution_id (x_status x) = eid /\ es_request_id (x_status x) = request_id (x_request x) /\
  exists r0 rest st0, x_receipts x = r0 :: rest /\ rc_phase r0 = REQUESTED /\ start_status r0 = Ok st0 /\
    fold_receipts st0 rest = Ok (x_status x).
Proof.
  intros Hin. pose proof (reachable_Good b t m l) as G. pose proof (proj1 (Forall_forall _ _) (g_ledger _ G) _ Hin) as [E1 E2 _ E4].
  split; [apply G|done].
Qed.

Lemma out_ok b t m l s e : (s, e) ∈ out (reached b t m l) -> log_ok (s, e).
Proof. intros Hin. exact (proj1 (Forall_forall _ _) (g_out _ (reachable_Good b t m l)) _ Hin). Qed.

(** *** The words of a command *)

Lemma chunks_lookup {A} (f : nat -> list A) w n k i j : (forall i, length (f i) = w) -> (i < n)%nat -> (j < w)%nat ->
  concat (map f (seq k n)) !! (i * w + j)%nat = f (k + i)%nat !! j.
Proof.
  intros Hf. revert k i. induction n as [|n IH]; intros k i Hi Hj; [lia|]. simpl. destruct i as [|i].
  - rewrite lookup_app_l by (rewrite Hf; lia). by rewrite Nat.add_0_r.
  - rewrite lookup_app_r by (rewrite Hf; lia). rewrite Hf. replace (S i * w + j - w)%nat with (i * w + j)%nat by lia.
    rewrite IH by lia. by replace (S k + i)%nat with (k + S i)%nat by lia.
Qed.
Lemma chunks_length {A} (f : nat -> list A) w n k : (forall i, length (f i) = w) -> length (concat (map f (seq k n))) = (n * w)%nat.
Proof. intros Hf. revert k. induction n as [|n IH]; intros k; [done|]. simpl. rewrite length_app, Hf, IH. lia. Qed.
Lemma fget_seq (l : vec) n : length l = n -> map (fun i => fget l i) (seq 0 n) = l.
Proof.
  intros Hl. apply list_eq. intros i. destruct (decide (i < n)%nat) as [Hi|Hi].
  - rewrite list_lookup_fmap, lookup_seq_lt by lia. simpl. symmetry. apply fget_lookup. lia.
  - rewrite !lookup_ge_None_2; [done|lia|]. rewrite length_map, length_seq. lia.
Qed.

(** The block of the law behind the joints' columns *)
Definition law_block (spec : option cartesian_spec) (pose : option pose_hold_spec) : result (list float) :=
  match pose, spec with
  | Some p, _ => pose_hold_values p
  | None, Some v => cartesian_values v
  | None, None => Ok []
  end.
(** What the link is given is the command the controller sent, column by column. *)
Definition same_command (c : command) (j : JointServoCommand) (spec : option cartesian_spec) (pose : option pose_hold_spec) : Prop :=
  m_position c = q_des j /\ m_velocity c = qd_des j /\ m_torque c = tau_ff j /\ m_kp c = cmd_kp j /\ m_kd c = cmd_kd j /\
  law_block spec pose = Ok (m_tail c).

Lemma packed_words j spec pose words : packed j spec pose words ->
  Forall (fun v => length v = length (q_des j)) [qd_des j; tau_ff j; cmd_kp j; cmd_kd j] ->
  exists block, law_block spec pose = Ok block /\
    words = concat (map (fun i => map (fun v => fget v i) [q_des j; qd_des j; tau_ff j; cmd_kp j; cmd_kd j]) (seq 0 (length (q_des j)))) ++ block.
Proof.
  intros (tail & Ht & Hp) Hl. unfold pack_motor_command in Hp.
  assert (rmap (column (length (q_des j))) [q_des j; qd_des j; tau_ff j; cmd_kp j; cmd_kd j] = Ok [q_des j; qd_des j; tau_ff j; cmd_kp j; cmd_kd j]) as E.
  { assert (forall v, length v = length (q_des j) -> column (length (q_des j)) v = Ok v) as K by (intros v Hv; unfold column; by rewrite Hv, Nat.eqb_refl).
    repeat (apply Forall_cons in Hl as [? Hl]). simpl. by rewrite !K. }
  rewrite E in Hp. cbn [rbind] in Hp. unfold law_block. destruct pose as [p|], tail as [t|]; try done.
  - apply rbind_ok in Hp as (v & Hv & [= <-]). by exists v.
  - destruct (negb _); [done|]. injection Hp as <-. destruct spec as [v|]; [|done]. apply rbind_ok in Ht as (t' & Ht & [= ->]). by exists t.
  - injection Hp as <-. exists []. rewrite app_nil_r. destruct spec as [v|]; [|done]. by apply rbind_ok in Ht as (? & _ & ?).
Qed.
Lemma unpack_packed j spec pose words n c : packed j spec pose words -> Forall (fun v => length v = n) [q_des j; qd_des j; tau_ff j; cmd_kp j; cmd_kd j] ->
  unpack_motor_command words n = Ok c -> same_command c j spec pose.
Proof.
  intros Hp Hl Hu. apply Forall_cons in Hl as [Hq Hl]. destruct (packed_words _ _ _ _ Hp) as (block & Hb & Hw); [by rewrite Hq|]. rewrite Hq in Hw.
  set (row := fun i => map (fun v => fget v i) [q_des j; qd_des j; tau_ff j; cmd_kp j; cmd_kd j]) in *.
  assert (forall i, length (row i) = 5%nat) as Hrow by done.
  assert (forall i k, (i < n)%nat -> (k < 5)%nat -> fget words (i * 5 + k) = default fnan (row i !! k)) as Hget.
  { intros i k Hi Hk. unfold fget. rewrite Hw, lookup_app_l by (rewrite (chunks_length _ 5 _ _ Hrow); lia).
    by rewrite (chunks_lookup _ 5 _ _ _ _ Hrow Hi Hk). }
  unfold unpack_motor_command in Hu. pass_guard Hu E1. apply rbind_ok in Hu as (spec' & _ & Hu). injection Hu as <-.
  repeat (apply Forall_cons in Hl as [? Hl]).
  assert (forall v k, length v = n -> (k < 5)%nat -> (forall i, default fnan (row i !! k) = fget v i) ->
    map (fun i => fget words (i * 5 + k)) (seq 0 n) = v) as Hcol.
  { intros v k Hv Hk Hr. etrans; [|exact (fget_seq v n Hv)]. apply map_ext_in. intros i Hi. apply in_seq in Hi. rewrite Hget by lia. apply Hr. }
  unfold same_command. cbn [m_position m_velocity m_torque m_kp m_kd m_tail].
  split_and!; try (apply Hcol; [done|lia|done]). rewrite Hb, Hw. f_equal. symmetry. apply drop_app_length'. symmetry. by apply chunks_length.
Qed.
(** A command that passed the policy's last check has all its columns. *)
Lemma valid_columns k p j : valid_command k p j = Ok true ->
  Forall (fun v => length v = n_arm ccfg) [q_des j; qd_des j; tau_ff j; cmd_kp j; cmd_kd j].
Proof.
  unfold valid_command, command_valid. destruct (existsb _ _) eqn:E; [done|]. intros _. simpl in E. breflect.
  repeat constructor; done.
Qed.

(** C25: the supervisor never puts on the wire a command its controller did not vet:
    a command applied on the link, in any interleaving, unpacks the very words
    that the queue then holds of a motor command [j] its controller said, in a
    state in which the controller was armed, acknowledged by the plant, ready and
    not stopped; these words are [j] packed with the block of its law.  Under a
    policy [j] had passed the last check and the tracking threshold (or was the
    measured hold that replaced it), and the applied command is [j] itself,
    column by column, with the law's block behind. *)
Theorem wire_commands_are_vetted b t m l s c :
  (s, Applied c) ∈ out (reached b t m l) ->
  exists j spec pose words k,
    MotorCommand j spec pose words ∈ node_sent s /\ (k, MotorCommand j spec pose words) ∈ out (controller s) /\
    packed j spec pose words /\ unpack_motor_command words (n_arm ccfg) = Ok c /\
    Controller.armed k = true /\ bridge_armed k = true /\ ready_sent k = true /\ stopped k = false /\ pose = pose_hold k /\
    forall p, Controller.policy ccfg = Some p -> valid_command k p j = Ok true /\
      (pose_hold k = None -> tracking_error_exceeded p j (js_position (last_state k)) = Ok false \/ (hold_anchor k = Some j /\ running k = false)) /\
      same_command c j spec pose.
Proof.
  intros (j & spec & pose & words & k & Hq & Hk & (Ha & Hr & Hb & Hs & Hv & Hp & Hpose) & Hu)%out_ok. exists j, spec, pose, words, k.
  split_and!; try done. intros p Hpol. destruct (Hv p Hpol) as [V1 V2]. split_and!; try done.
  eapply unpack_packed; [exact Hp| |exact Hu]. by eapply valid_columns.
Qed.

(** C26: motion begins only under ARM and only for the execution it belongs to.  Without
    an RT reference the controller is told to fly a plan only for a known
    execution that is no stream, is ADMITTED under ARMED authority, and was in
    time by the clock read in that selection, the last question put before it is
    told.  With one, it is told only for the execution of the reference the RT
    selected, whose deadline went with the COMMIT.  A reference is approved for
    commit only for the execution the horizon holds, and for an execution only
    while the authority last published is ARMED. *)
Theorem motion_needs_arm b t m l s e :
  (s, e) ∈ out (reached b t m l) ->
  match e with
  | Releasing eid n => exists x, find_ex s eid = Some x /\
      match ref s with
      | None => lifecycle (authority_ s) = ARMED /\ x_phase x = ADMITTED /\ x_stream x = None /\
          exists k at_, n = S k /\ Stamp_new (monotonic_ns env k) PC (domain_ cfg) = Ok at_ /\ expired (x_request x) at_ = Ok false
      | Some h => Horizon.key h = Some eid /\ (Horizon.selected h = true \/ candidate_selection h = selected_)
      end
  | Committing key => key = native_key s /\ (key = None \/ lifecycle (authority_ s) = ARMED)
  | _ => True
  end.
Proof. intros H%out_ok. by destruct e. Qed.

(** C27: nothing is guessed applied: when an execution is recorded APPLIED, the link had
    delivered two fault-free ARMED states of the ARM generation its first command
    was sent in, the second serially newer, the first acknowledging a command
    sequence at or past the execution's first. *)
Theorem applied_is_evidenced b t m l s r :
  (s, Recorded r) ∈ out (reached b t m l) -> rc_phase r = APPLIED ->
  exists x seq p1 p2, find_ex s (rc_execution_id r) = Some x /\ x_first_seq x = Some seq /\ received p1 /\ received p2 /\
    Observation.evidence (x_epoch x) p1 /\ Observation.evidence (x_epoch x) p2 /\
    newer (state_seq p2) (state_seq p1) = true /\ epoch_reached (last_cmd_seq p1) seq = true.
Proof. intros H%out_ok Hp. destruct (H Hp) as (x & seq & H1 & H2 & p1 & p2 & H3). exists x, seq, p1, p2. tauto. Qed.

(** ** Strangers and history *)

Lemma owns_refuses session w : session ∈ closed_sessions (obj w) \/ owner (obj w) <> Some session -> exists e, owns session w = (Err e, w).
Proof.
  intros H. unfold owns, bind, get. case_bool_decide; [by eexists|]. destruct H as [?|H]; [done|]. rewrite bool_decide_false by done. by eexists.
Qed.
Lemma stranger_refused session op w :
  op <> Claim -> session ∈ closed_sessions (obj w) \/ owner (obj w) <> Some session ->
  exists e, handle (Client session op) w = (Err e, w).
Proof.
  intros Hop Hs. destruct (owns_refuses session w Hs) as [e He]. destruct op; try done; simpl.
  all: try (unfold unclaim, arm, disarm, hold, submit, release, cancel, select_control_preset, set_payload, set_load_model, setpoint, stream_anchor, stream_abort,
              group_check, group_set, group_unset, group_release_op, group_take, group_restore; exists e; unfold bind; by rewrite He).
  - unfold open_stream, bind, lift. destruct (StreamOpen_new o); [|by eexists]. unfold stream_retry, bind. rewrite He. by eexists.
  - unfold revise_stream, bind, lift. destruct (StreamRevision_new r); [|by eexists]. unfold stream_retry, bind. rewrite He. by eexists.
Qed.
(** C29: ownership: whatever a session asks for, other than claiming the robot, is
    refused while it does not own the robot or after it was closed, and the
    refusal leaves the supervisor, its controller and its outputs untouched. *)
Theorem strangers_change_nothing session op w :
  op <> Claim -> session ∈ closed_sessions (obj w) \/ owner (obj w) <> Some session ->
  exists e, handle (Client session op) w = (Err e, w).
Proof. apply stranger_refused. Qed.

Lemma ddel_length {K A} `{EqDecision K} k (l : list (K * A)) : (length (ddel k l) <= length l)%nat.
Proof. apply List.filter_length_le. Qed.
Lemma ddel_gone {K A} `{EqDecision K} k (l : list (K * A)) x : x ∈ ddel k l -> x.1 <> k.
Proof. unfold ddel. rewrite list_elem_of_In. intros [_ H]%List.filter_In. by case_bool_decide. Qed.
Lemma ddel_stays {K A} `{EqDecision K} k (l : list (K * A)) x : x ∈ l -> x.1 <> k -> x ∈ ddel k l.
Proof. unfold ddel. rewrite !list_elem_of_In. intros H1 H2. apply List.filter_In. by rewrite bool_decide_false. Qed.

(** What one step of the history's pruning does. *)
Lemma prune_execution_in s x y : y ∈ executions (prune_execution s x) -> y ∈ executions s.
Proof. unfold prune_execution. destruct (_ && _); [apply ddel_in|done]. Qed.
Lemma prune_execution_size s x : excess (prune_execution s x) = true -> excess s = true.
Proof.
  unfold prune_execution. destruct (_ && _); [|done]. unfold excess. simpl. rewrite !Nat.ltb_lt.
  pose proof (ddel_length x.1 (executions s)).
  pose proof (List.filter_length_le (fun a => negb (bool_decide (rv_execution_id (a_status a.2) = x.1))) (stream_attempts s)). lia.
Qed.
Lemma prune_executions_size l s : excess (fold_left prune_execution l s) = true -> excess s = true.
Proof. revert s. induction l as [|x l IH]; intros s H; [done|]. by eapply prune_execution_size, IH. Qed.
Lemma prune_executions_in l s y : y ∈ executions (fold_left prune_execution l s) -> y ∈ executions s.
Proof. revert s. induction l as [|x l IH]; intros s H; [done|]. by eapply prune_execution_in, IH. Qed.
Lemma prune_executions_over l s x y : excess (fold_left prune_execution l s) = true -> x ∈ l -> ended x.2 = true ->
  y ∈ executions (fold_left prune_execution l s) -> y.1 <> x.1.
Proof.
  revert s. induction l as [|z l IH]; intros s He Hx Hend Hy; simpl in *; [by apply elem_of_nil in Hx|].
  apply elem_of_cons in Hx as [<-|Hx]; [|by eapply IH].
  apply prune_executions_in in Hy. apply prune_executions_size in He. pose proof (prune_execution_size _ _ He) as He'.
  unfold prune_execution in Hy. rewrite He', Hend in Hy. by apply ddel_gone in Hy.
Qed.
Lemma prune_executions_live l s y : (forall x, x ∈ l -> ended x.2 = true -> x.1 <> y.1) -> y ∈ executions s ->
  y ∈ executions (fold_left prune_execution l s).
Proof.
  revert s. induction l as [|x l IH]; intros s Hl Hy; simpl; [done|]. apply IH; [intros z Hz; apply Hl; by right|].
  unfold prune_execution. destruct (excess s && ended x.2) eqn:E; [|done]. apply andb_true_iff in E as [_ E].
  apply ddel_stays; [done|]. intros Ey. apply (Hl x); [by left|done..].
Qed.
Lemma same_key {K A} `{EqDecision K} (l : list (K * A)) x y : NoDup (map fst l) -> x ∈ l -> y ∈ l -> x.1 = y.1 -> x = y.
Proof.
  destruct x as [k a], y as [k' c]. simpl. intros Hd Hx Hy <-. pose proof (dget_nodup _ _ _ Hd Hx) as H1.
  pose proof (dget_nodup _ _ _ Hd Hy) as H2. congruence.
Qed.

(** The history: pruning never forgets a live execution, and when executions and
    stream attempts still exceed the budget of 512 after it, every execution left
    is live, so what grows the ledger is work in progress and not history. *)
Theorem prune_keeps_the_living s :
  NoDup (map fst (executions s)) ->
  (forall y, y ∈ executions s -> ended y.2 = false -> y ∈ executions (prune s)) /\
  ((RETAINED < length (executions (prune s)) + length (stream_attempts (prune s)))%nat ->
   forall y, y ∈ executions (prune s) -> ended y.2 = false /\ y ∈ executions s).
Proof.
  intros Hd. unfold prune. pose proof (prune_attempts_seen (stream_attempts s) s) as E. injection E as E _ _ _. rewrite E.
  set (s1 := fold_left prune_attempt _ _) in *. split.
  - intros y Hy Hl. apply prune_executions_live; [|by rewrite E]. intros x Hx Hend Ek. apply (same_key _ _ _ Hd Hx Hy) in Ek. by subst x; rewrite Hl in Hend.
  - intros He y Hy. assert (y ∈ executions s) as Hs by (apply prune_executions_in in Hy; by rewrite E in Hy). split; [|done].
    destruct (ended y.2) eqn:Ey; [|done]. exfalso. eapply (prune_executions_over _ s1 y y); [|exact Hs|done|exact Hy|done].
    unfold excess. by apply Nat.ltb_lt.
Qed.
End Runs.

(** ** Witnesses: the concrete run of [Robot] *)

Import Robot HorizonDemo.
Example ledger_is_lawful_witness : exists eid x, (eid, x) ∈ executions (obj final) /\ execution_id (x_status x) = eid.
Proof.
  destruct (has_execution (executions (obj final)) (proj2 moved)) as ([eid x] & Hin). exists eid, x. split; [exact Hin|].
  exact (proj1 (proj2 (ledger_is_lawful (cfg:=Robot.cfg) Demo.initial_built false None f0 moving eid x Hin))).
Defined.
Lemma wire_commands_are_vetted_witness : exists s c j spec pose words, (s, Applied c) ∈ out final /\
  MotorCommand j spec pose words ∈ node_sent s /\ unpack_motor_command words (n_arm Demo.cfg) = Ok c /\ same_command c j spec pose.
Proof.
  destruct (out_applied (out final) (proj1 (proj1 moved))) as (s & c & Hin). exists s, c.
  destruct (wire_commands_are_vetted (cfg:=Robot.cfg) Demo.initial_built false None f0 moving s c Hin)
    as (j & spec & pose & words & k & Hq & _ & _ & Hu & _ & _ & _ & _ & _ & Hp).
  exists j, spec, pose, words. split; [exact Hin|]. split; [exact Hq|]. split; [exact Hu|]. exact (proj2 (proj2 (Hp _ eq_refl))).
Defined.
Lemma motion_needs_arm_witness : exists s eid n x, (s, Releasing eid n) ∈ out final /\ find_ex s eid = Some x.
Proof.
  destruct (out_releasing (out final) (proj1 (proj2 (proj1 moved)))) as (s & eid & n & Hin). exists s, eid, n.
  destruct (motion_needs_arm (cfg:=Robot.cfg) Demo.initial_built false None f0 moving s _ Hin) as (x & H & _). exists x. split; [exact Hin|exact H].
Defined.
Example applied_is_evidenced_witness : exists s r p, (s, Recorded r) ∈ out final /\ rc_phase r = APPLIED /\ received (env := link) p.
Proof.
  destruct (out_evidence (out final) (proj2 (proj2 (proj1 moved)))) as (s & r & Hin & Hp). exists s, r.
  destruct (applied_is_evidenced (cfg:=Robot.cfg) Demo.initial_built false None f0 moving s r Hin Hp) as (x & seq & p & p2 & _ & _ & H & _).
  exists p. split; [exact Hin|]. split; [exact Hp|exact H].
Defined.
Example strangers_change_nothing_witness : exists e, handle (Client "b" Arm) final = (Err e, final).
Proof. refine (strangers_change_nothing "b" Arm final _ _); [discriminate|]. right. vm_compute. discriminate. Defined.
Example prune_keeps_the_living_witness :
  Forall (fun y => ended y.2 = false -> y ∈ executions (prune (obj final))) (executions (obj final)).
Proof.
  apply Forall_forall. refine (proj1 (prune_keeps_the_living (obj final) _)). apply (bool_decide_unpack _). vm_compute. exact I.
Defined.
