(* ===== verification/RuntimeSessions.v ===== *)
(** Who holds the robot: the owner and the closed sessions of the supervisor
    change only by the operations that are about them.

    [standing] is that part of the object; every other operation, the loop and the
    runtime's threads keep it. *)
From Stdlib Require Import SpecFloat PrimFloat FloatOps.
From S2P Require Import Prelude Floats Motion Contract Stream RtProtocol Observation Effects Executor Controller Horizon Runtime RuntimeClients RuntimeNative RuntimeLoop.

Definition standing (s : runtime) : option string * list string := (owner s, closed_sessions s).

Lemma keep_try {A} c (m : M runtime effect A) h :
  steps (kept standing) m -> (forall e, steps (kept standing) (h e)) -> steps (kept standing) (catch c m h).
Proof. apply (steps_try (fun w w' => standing (obj w') = standing (obj w))). typeclasses eauto. Qed.

(** Walks a computation, opening the definitions it calls. *)
Ltac head_of t := lazymatch t with ?f _ => head_of f | _ => t end.
(** How to enter a loop over a list. *)
Ltac fold_loop := fail.
Ltac same :=
  repeat first
    [ progress intros
    | solve [eauto 3 with steps typeclass_instances nocore]
    | apply steps_bind; [typeclasses eauto|..]
    | apply steps_when; [typeclasses eauto|..]
    | apply keep_try
    | match goal with
      | |- steps _ (if ?b then _ else _) => destruct b
      | |- steps _ (match ?x with _ => _ end) => destruct x
      end
    | progress cbv zeta
    | fold_loop
    | match goal with |- steps _ ?m => let h := head_of m in unfold h end ].

Section Sessions.
Context {cfg : Config} {ccfg : Controller.Config} {env : Env} {henv : Horizon.Env}.
Abbreviation keep := (kept (O:=effect) standing).

Lemma keep_native {A} (m : HorizonM A) : steps keep (in_native m).
Proof. intros w. unfold in_native. destruct (native (obj w)) as [h|]; [|done]. by destruct (m h). Qed.
Hint Resolve @keep_native : steps.
Lemma keep_forward l : steps keep (forward_arms l).
Proof. induction l as [|[] l IH]; simpl; same. Qed.
Hint Resolve keep_forward : steps.
Lemma keep_controller {A} (m : Controller.Env -> ControlM A) : steps keep (in_controller m).
Proof. unfold in_controller. same. Qed.
Hint Resolve @keep_controller : steps.
Lemma keep_each {A} (f : A -> RuntimeM unit) l : (forall x, steps keep (f x)) -> steps keep (each f l).
Proof. intros H. induction l; simpl; same. Qed.
Ltac fold_loop ::= match goal with |- steps _ (each _ _) => apply keep_each end.
Lemma keep_each_execution f : (forall x, steps keep (f x)) -> steps keep (each_execution f).
Proof. intros H. unfold each_execution. same. Qed.
Ltac fold_loop ::= match goal with
  | |- steps _ (each _ _) => apply keep_each
  | |- steps _ (each_execution _) => apply keep_each_execution
  end.
Lemma keep_publish : steps keep publish.
Proof. same. Qed.
Lemma keep_receipt eid ph why ev : steps keep (receipt eid ph why ev).
Proof. same. Qed.
Hint Resolve keep_publish keep_receipt : steps.
Lemma keep_send_command c : steps keep (send_command c).
Proof. same. Qed.
Hint Resolve keep_send_command : steps.
Lemma keep_send_all sf l : steps keep (send_all sf l).
Proof. revert sf. induction l as [|x l IH]; intros sf; simpl; same. Qed.
Lemma keep_on_event e : steps keep (on_event e).
Proof. same. Qed.
Hint Resolve keep_send_all keep_on_event : steps.
Lemma keep_reconcile_one t loaded eid : steps keep (reconcile_one t loaded eid).
Proof. same. Qed.
Hint Resolve keep_reconcile_one : steps.
Lemma keep_pump sf settle : steps keep (pump_controller sf settle).
Proof. same. Qed.
Hint Resolve keep_pump : steps.
Lemma keep_settle eid why : steps keep (settle_stream_attempts eid why).
Proof. same. Qed.
Hint Resolve keep_settle : steps.
Lemma keep_cancel_execution eid why : steps keep (cancel_execution eid why).
Proof. same. Qed.
Lemma keep_releasing eid : steps keep (releasing eid).
Proof. intros w. unfold releasing. assert (steps keep (say (Releasing eid (asked w)))) as H by same. apply H. Qed.
Hint Resolve keep_releasing : steps.
Lemma keep_drop_staged eid why : steps keep (drop_staged eid why).
Proof. same. Qed.
Hint Resolve keep_cancel_execution keep_drop_staged : steps.
Lemma keep_select eid at_ : steps keep (select eid at_).
Proof. same. Qed.
Hint Resolve keep_select : steps.
Lemma keep_cancel_live why : steps keep (cancel_live why).
Proof. same. Qed.
Hint Resolve keep_cancel_live : steps.

(** Clients *)
Lemma keep_owns session : steps keep (owns session).
Proof. same. Qed.
Hint Resolve keep_owns : steps.
Lemma keep_group_take session g b : steps keep (group_take session g b).
Proof. same. Qed.
Lemma keep_release session eid at_ : steps keep (release session eid at_).
Proof. same. Qed.
Hint Resolve keep_group_take keep_release : steps.
Lemma keep_submit session r : steps keep (submit session r).
Proof. same. Qed.
Lemma keep_preset session name : steps keep (select_control_preset session name).
Proof. same. Qed.
Lemma keep_open session o : steps keep (open_stream session o).
Proof. same. Qed.
Lemma keep_revise session r : steps keep (revise_stream session r).
Proof. same. Qed.
Lemma keep_anchor session eid : steps keep (stream_anchor session eid).
Proof. same. Qed.
Lemma keep_abort session eid rid : steps keep (stream_abort session eid rid).
Proof. same. Qed.
Hint Resolve keep_submit keep_preset keep_open keep_revise keep_anchor keep_abort : steps.

(** Every operation but [Claim] and [Unclaim], and the runtime's own threads. *)
Definition about_owner (op : operation) : bool := match op with Claim | Unclaim => true | _ => false end.
Lemma keep_operate session op : about_owner op = false -> steps keep (operate session op).
Proof. intros H. destruct op; try discriminate H; simpl; same. Qed.

Lemma keep_drain l : steps keep (drain l).
Proof. induction l as [|j l IH]; simpl; same. Qed.
Hint Resolve keep_drain : steps.
Lemma feed_standing l s : standing (fold_left feed_packet l s) = standing s.
Proof. revert s. induction l as [|x l IH]; intros s; simpl; [done|]. rewrite IH. unfold feed_packet. by destruct (_ >f _). Qed.
Lemma prune_standing s : standing (prune s) = standing s.
Proof.
  unfold prune. set (s1 := fold_left prune_attempt _ _). assert (standing s1 = standing s) as E1.
  { subst s1. generalize (stream_attempts s) as l. intros l. revert s. induction l as [|x l IH]; intros s; simpl; [done|].
    rewrite IH. unfold prune_attempt. by destruct (_ && _). }
  rewrite <-E1. clear E1. clearbody s1. generalize (executions s1) as l. intros l. revert s1. induction l as [|x l IH]; intros s1; simpl; [done|].
  rewrite IH. unfold prune_execution. by destruct (_ && _).
Qed.
Lemma keep_feed (f : runtime -> list (rt_state * float)) : steps keep (upd (fun s => fold_left feed_packet (f s) s)).
Proof. intros w. apply feed_standing. Qed.
Lemma keep_prune : steps keep (upd prune).
Proof. intros w. apply prune_standing. Qed.
Lemma keep_weigh eid : steps keep (weigh eid).
Proof. same. Qed.
Hint Resolve keep_feed keep_prune keep_weigh : steps.
Lemma keep_native_step st rx : steps keep (native_step st rx).
Proof. same. Qed.
Hint Resolve keep_native_step : steps.
Lemma keep_step : steps keep step.
Proof. same. Qed.
Hint Resolve keep_step : steps.
Lemma keep_thread i : match i with Client _ _ | CloseSession _ | OwnerLost _ => False | _ => True end -> steps keep (handle i).
Proof. intros H. destruct i; try destruct H; simpl; same. Qed.

(** ** Ownership *)

(** The closed sessions stay, the owner stays or is forgotten. *)
Definition released (w w' : world runtime effect) : Prop :=
  closed_sessions (obj w') = closed_sessions (obj w) /\ (owner (obj w') = owner (obj w) \/ owner (obj w') = None).
#[global] Instance released_preorder : PreOrder released.
Proof. split; [by split; auto|]. intros w w1 w2 [E1 H1] [E2 H2]. split; [congruence|]. destruct H1, H2; intuition congruence. Qed.
Abbreviation frees := (fun _ : bool => released).
Lemma keep_frees {A} (m : RuntimeM A) : steps keep m -> steps frees m.
Proof. intros H w. specialize (H w). injection H as E1 E2. split; auto. Qed.
Lemma frees_abandon why : steps frees (abandon why).
Proof.
  unfold abandon. apply steps_bind; [typeclasses eauto|apply keep_frees; same|intros _].
  apply steps_bind; [typeclasses eauto|apply keep_frees; same|intros _].
  apply steps_bind; [typeclasses eauto|intros w; split; [done|by right]|intros _]. apply keep_frees. same.
Qed.
Lemma owns_world session w : (owns session w).2 = w.
Proof. unfold owns, bind, get, refuse. by repeat case_match. Qed.
Lemma owns_true session w w' : owns session w = (Ok tt, w') -> w' = w /\ owner (obj w) = Some session.
Proof.
  unfold owns, bind, get, refuse, throw, ret. case_bool_decide; [done|]. case_bool_decide; [|done]. intros [= <-]. done.
Qed.
Lemma owned_or_unchanged {A} session (m : RuntimeM A) w :
  (bind (owns session) (fun _ => m) w).2 = w \/
  owner (obj w) = Some session /\ (bind (owns session) (fun _ => m) w).2 = (m w).2.
Proof.
  pose proof (owns_world session w) as Ew. unfold bind. destruct (owns session w) as [[[]|e] w'] eqn:E; simpl in *; subst w'; [|by left].
  right. apply owns_true in E as [_ E]. done.
Qed.

Lemma unclaim_owner session w :
  (unclaim session w).2 = w \/ owner (obj w) = Some session /\ released w (unclaim session w).2.
Proof.
  destruct (owned_or_unchanged session (abandon "owner released the robot") w) as [H|[H E]]; [by left|right].
  split; [done|]. unfold unclaim. rewrite E. apply (frees_abandon _ w).
Qed.
Lemma claim_owner session w :
  (claim session w).2 = w \/
  session ∉ closed_sessions (obj w) /\ (owner (obj w) = None \/ owner (obj w) = Some session) /\
  closed_sessions (obj (claim session w).2) = closed_sessions (obj w) /\ owner (obj (claim session w).2) = Some session.
Proof.
  set (w1 := w <| obj := (obj w) <| owner := Some session |> |>).
  assert (claim session w =
            if bool_decide (session ∈ closed_sessions (obj w)) then refuse "this client session is closed" w else
            if is_some (owner (obj w)) && negb (bool_decide (owner (obj w) = Some session)) then refuse "already owned by another client" w
            else publish w1) as ->.
  { unfold claim, bind at 1, get at 1. simpl. destruct (bool_decide (session ∈ _)); [done|]. by destruct (is_some _ && _). }
  case_bool_decide as Hc; [by left|]. destruct (is_some (owner (obj w)) && _) eqn:E; [by left|].
  right. split; [done|]. split.
  - destruct (owner (obj w)) as [o|]; [right|by left]. simpl in E. apply negb_false_iff, bool_decide_eq_true in E. done.
  - pose proof (keep_publish w1) as K. split; [exact (f_equal snd K)|exact (f_equal fst K)].
Qed.

(** The closed sessions change only when a connection ends and when its owner is gone. *)
Lemma closed_after i w : match i with CloseSession _ | OwnerLost _ => False | _ => True end ->
  closed_sessions (obj (react w i)) = closed_sessions (obj w).
Proof.
  intros Hi. assert (match i with Client _ _ | CloseSession _ | OwnerLost _ => False | _ => True end \/ exists session op, i = Client session op)
    as [Ht|(session & op & ->)] by (destruct i; eauto); [exact (f_equal snd (keep_thread i Ht w))|].
  destruct (about_owner op) eqn:E; [|exact (f_equal snd (keep_operate session op E w))].
  destruct op; try discriminate E; unfold react; simpl.
  - destruct (claim_owner session w) as [->|(_ & _ & H & _)]; done.
  - destruct (unclaim_owner session w) as [->|(_ & H & _)]; done.
Qed.
Lemma close_world session w : react w (CloseSession session) = w <| obj := (obj w) <| closed_sessions := session :: closed_sessions (obj w) |> |>.
Proof. done. Qed.
Lemma lost_closed session w x : x ∈ closed_sessions (obj (react w (OwnerLost session))) -> x ∈ closed_sessions (obj w).
Proof.
  unfold react. simpl. unfold owner_lost, bind at 1, get. simpl.
  set (m := when (bool_decide (owner (obj w) = Some session)) (abandon "owner disconnected")).
  assert (released w (m w).2) as [Hc _].
  { subst m. destruct (bool_decide _); [apply (frees_abandon _ w)|split; auto]. }
  unfold bind. destruct (m w) as [[[]|e] w']; simpl in *; rewrite <-Hc; [|done].
  rewrite list_elem_of_In. intros [H _]%List.filter_In. by apply list_elem_of_In.
Qed.
Lemma lost_keeps session w x : x <> session -> x ∈ closed_sessions (obj w) -> x ∈ closed_sessions (obj (react w (OwnerLost session))).
Proof.
  intros Hx Hin. unfold react. simpl. unfold owner_lost, bind at 1, get. simpl.
  set (m := when (bool_decide (owner (obj w) = Some session)) (abandon "owner disconnected")).
  assert (released w (m w).2) as [Hc _].
  { subst m. destruct (bool_decide _); [apply (frees_abandon _ w)|split; auto]. }
  unfold bind. destruct (m w) as [[[]|e] w']; simpl in *; rewrite <-Hc in Hin; [|done].
  rewrite list_elem_of_In. apply List.filter_In. split; [by apply list_elem_of_In|]. by rewrite bool_decide_false.
Qed.
End Sessions.
