(* ===== verification/Service.v ===== *)
(** The supervisor's service, [arm_control/supervisor/service.py], over the client
    API of [supervisor/runtime.py]: connections, the operations of a request and
    the threads that run them.

    A connection's thread is a [prog]: the sections it runs, each atomic in the
    source (one operation on the loop, one block under the runtime's lock, one
    question to the outside), with what it does between them.  [serve] is the
    service under any interleaving: connections take their next section, the
    loop takes the next queued operation, a caller stops waiting for one, and the
    runtime's other threads act in between. *)
From Stdlib Require Import SpecFloat PrimFloat FloatOps.
From S2P Require Import Prelude Floats Motion Contract Stream RtProtocol Effects Executor Controller Horizon Runtime RuntimeClients RuntimeNative RuntimeLoop Json Codec.

Definition MAX_CLIENTS : nat := 8.
Definition REF_GROUP_REFUSED : Z := 10.
Definition MAX_WAIT_S : float := f1.
(** [_call]'s [timeout_s] *)
Definition CALL_TIMEOUT_S : float := f2.

(** ** What the runtime's link and the transport answer *)

Record Env := {
  loads : string -> result json;             (* [json.loads] *)
  history_kept : bool;                       (* the link has [recent_states] *)
  observing : bool;
  scene_hosted : bool;
  clock_domain_ : json;
  now_ns : nat -> Z;                         (* [time.monotonic_ns()] on the caller's thread *)
  link_join : Z * Z * Z -> nat -> result json;       (* [link.group_join]: the state the RT replies *)
  link_cancel : Z * Z * Z -> nat -> result unit;
  link_events : nat -> list json;
  report_json : group_answer * Z -> json;
  observer : string -> list (string * json) -> nat -> result json;   (* trace, observe, state history, scene *)
  body_list : json -> result Dynamics;       (* [BodyListDynamics(model)] *)
}.
Existing Class Env.

Section Service.
Context {cfg : Config} {ccfg : Controller.Config} {env : Runtime.Env} {henv : Horizon.Env} {senv : Env}.

(** ** The program of a thread *)

Inductive prog (A : Type) : Type :=
  | Done (r : result A)
  | Call {X : Type} (timeout : float) (m : RuntimeM X) (k : result X -> prog A)      (* [_call]: queued, run on the loop, awaited *)
  | Locked {X : Type} (m : RuntimeM X) (k : result X -> prog A)    (* [with self._cv] *)
  | Watch {X : Type} (timeout : float) (read : runtime -> option X) (seen : X) (k : X -> prog A)   (* [wait_for] on an object held *)
  | Outside {X : Type} (answer : nat -> X) (k : X -> prog A).
Arguments Done {A} r.
Arguments Call {A X} timeout m k.
Arguments Locked {A X} m k.
Arguments Watch {A X} timeout read seen k.
Arguments Outside {A X} answer k.

Fixpoint attempt {A B} (p : prog A) (k : result A -> prog B) : prog B :=
  match p with
  | Done r => k r
  | Call t m k' => Call t m (fun x => attempt (k' x) k)
  | Locked m k' => Locked m (fun x => attempt (k' x) k)
  | Watch t read seen k' => Watch t read seen (fun x => attempt (k' x) k)
  | Outside f k' => Outside f (fun x => attempt (k' x) k)
  end.
Definition pbind {A B} (p : prog A) (k : A -> prog B) : prog B :=
  attempt p (fun r => match r with Ok a => k a | Err e => Done (Err e) end).
Definition pure {A} (r : result A) : prog A := Done r.
Definition raise {A} (e : exn) : prog A := Done (Err e).
Definition call {X} (m : RuntimeM X) : prog X := Call CALL_TIMEOUT_S m Done.
Definition locked {X} (m : RuntimeM X) : prog X := Locked m Done.
Definition outside {X} (f : nat -> result X) : prog X := Outside f Done.
(** [try: p finally: f] *)
Definition ensure {A} (p : prog A) (f : prog unit) : prog A :=
  attempt p (fun r => attempt f (fun r' => match r' with Ok _ => Done r | Err e => Done (Err e) end)).
Notation "x <- p ;; k" := (pbind p (fun x => k)) (at level 100, p at next level, right associativity).

(** ** The client API of the runtime *)

Definition offered (s : runtime) : list (string * Z) :=
  [("controller", 1%Z); ("load_model", 1%Z)]
  ++ (if is_some (native s) && trusted_admission cfg then [("stream", 1%Z)] else [])
  ++ (if is_some (native s) && group_capable cfg then [("group", 1%Z)] else [])
  ++ (if history_kept senv then [("state_history", 1%Z); ("trace", 1%Z)] else [])
  ++ (if observing senv then [("observe", 1%Z)] else [])
  ++ (if scene_hosted senv then [("scene_action", 1%Z)] else [])
  ++ (if is_some (native s) then [] else [("setpoint", 1%Z); ("scheduled_release", 1%Z)]).
Definition extensions (s : runtime) : json := JObj (map (fun x => (x.1, JInt x.2)) (offered s)).
Definition extends (name : string) (s : runtime) : bool := bool_decide (dget name (offered s) = Some 1%Z).

(** [runtime.now()] *)
Definition runtime_now : prog Stamp := outside (fun k => Stamp_new (now_ns senv k) PC (domain_ cfg)).
(** The values an operation returns are read before the loop goes on. *)
Definition status_of (eid : string) : RuntimeM ExecutionStatus := x <~ the_ex eid ;; ret (x_status x).
Definition authority_now : RuntimeM Authority := s <~ get ;; ret (authority_ s).

Definition status (eid : string) (wait_s : float) : prog ExecutionStatus :=
  x <- locked (get_ex eid) ;;
  Watch (py_max f0 wait_s) (fun s => find_ex s eid) x (fun x => Done (Ok (x_status x))).
Definition settled (gen : Z) (armed : bool) (s : runtime) : bool :=
  if (gen <=? (authority_failed s).1)%Z then true
  else if armed then bool_decide (lifecycle (authority_ s) = ARMED) && ready_sent (ctl_of s)
  else (gen <=? authority_done s)%Z && negb (bool_decide (lifecycle (authority_ s) = ARMED)).
Definition await_authority (gen : Z) (armed : bool) (wait_s : float) : prog (option Authority) :=
  s <- locked get ;;
  Watch (py_max f0 wait_s) Some s (fun s =>
    if negb (settled gen armed s) then Done (Ok None)
    else if (gen <=? (authority_failed s).1)%Z then raise (Prelude.Refused (authority_failed s).2)
    else Done (Ok (Some (authority_ s)))).

Definition stream_state (session eid : string) : RuntimeM StreamView :=
  y <~ stream_get session eid ;; s <~ get ;; ret (stream_view s y.1 y.2).
Definition stream_revision (session eid rid : string) : RuntimeM RevisionStatus :=
  _ <~ stream_get session eid ;; s <~ get ;;
  match find_attempt s (session, rid) with
  | Some a => if bool_decide (rv_execution_id (a_status a) = eid) then ret (a_status a) else refuse "revision history unavailable"
  | None => refuse "revision history unavailable"
  end.

(** *** Group exchanges, on the caller's thread *)

Definition group_join (session : string) (joined : Z * Z * Z) : prog json :=
  _ <- call (group_check session) ;;
  y <- call (group_set session joined) ;;
  attempt (outside (link_join senv joined)) (fun r =>
    match r with
    | Err (ReferenceRefused _ _ _) => _ <- call (group_unset session y.2) ;; raise (Prelude.Refused "group join refused")
    | Err e => if is_RtLinkError e
               then raise (Prelude.Refused "group join outcome unknown; cancel the group before joining again") else raise e
    | Ok st => Done (Ok (JObj [("clock_domain", clock_domain_ senv); ("state", st); ("arm_epoch", JInt y.1);
                               ("reference_limit", JInt MAX_REFERENCE_KNOTS)]))
    end).
(** [None] keeps waiting only while the horizon is busy. *)
Definition group_cancel (session : string) (gid : Z) : prog json :=
  joined <- call (group_take session gid true) ;;
  match joined with
  | None => Done (Ok (JObj [("cancelled", JBool false); ("reason", JStr "not joined")]))
  | Some (g, m, n, e) =>
      ensure
        (Watch f2 (fun s => Some (native_busy s)) true (fun _ =>
         attempt (outside (link_cancel senv (gid, m, n))) (fun r =>
           match r with
           | Ok _ => Done (Ok (JObj [("cancelled", JBool true)]))
           | Err (ReferenceRefused op res reply) =>
               if (res =? REF_GROUP_REFUSED)%Z
               then Done (Ok (JObj [("cancelled", JBool false); ("reason", JStr "the RT is not in this group")]))
               else _ <- call (group_restore session (g, m, n, e)) ;; raise (Prelude.Refused "group cancel not confirmed")
           | Err e' => if is_RtLinkError e'
                       then _ <- call (group_restore session (g, m, n, e)) ;; raise (Prelude.Refused "group cancel not confirmed")
                       else raise e'
           end)))
        (call group_cancel_done)
  end.
Definition group_report (eid : string) : RuntimeM json :=
  s <~ get ;; ret (match dget eid (group_reports s) with Some a => report_json senv a | None => JObj [] end).
Definition group_events (session : string) : prog json :=
  _ <- call (group_check session) ;; outside (fun k => Ok (JArr (link_events senv k))).

(** ** [dispatch] *)

Definition obj_arg (k : string) (args : list (string * json)) : prog json := pure (field k (JObj args)).
Definition str_arg (k : string) (args : list (string * json)) : prog string := pure (v <-- field k (JObj args) ;; to_str v).
Definition int_arg (k : string) (args : list (string * json)) : prog Z := pure (v <-- field k (JObj args) ;; to_int v).
(** [str(args.get(k) or d)], [max(0, int(args.get(k) or 0))] *)
Definition str_or (k d : string) (args : list (string * json)) : prog string :=
  pure (to_str (if truth (arg k args) then arg k args else JStr d)).
(** [min(max(float(args.get("wait_for_s", 0.0) or 0.0), 0.0), MAX_WAIT_S)] *)
Definition wait_of (args : list (string * json)) : result float :=
  x <-- to_float (if truth (arg "wait_for_s" args) then arg "wait_for_s" args else JNum f0) ;;
  Ok (py_min (py_max x f0) MAX_WAIT_S).

Definition enc {A} `{Encode A} (p : prog A) : prog json := a <- p ;; Done (Ok (encode a)).
Definition unavailable (name : string) : string := name +:+ "/1 is unavailable".
(** The operations of an extension, behind its gate. *)
Definition gate (name : string) (p : prog json) : prog json :=
  s <- locked get ;; if extends name s then p else raise (Prelude.Refused (unavailable name)).
Definition unknown : prog json := raise (ValueError "unknown operation").

Definition controller_ops (session op : string) (args : list (string * json)) : prog json :=
  if String.eqb op "controller_presets"
  then Done (Ok (JArr (map (fun x => encode {| Stream.preset_id := x.1; Stream.law := p_law x.2 |}) (presets cfg))))
  else if String.eqb op "controller_state" then enc (locked (s <~ get ;; ret (controller_state s)))
  else if String.eqb op "controller_select" then id <- str_arg "preset_id" args ;; enc (call (select_control_preset session id))
  else if String.eqb op "controller_hold" then
    why <- str_or "reason" "hold" args ;; enc (call (hold session why ;~ s <~ get ;; ret (controller_state s)))
  else if String.eqb op "controller_payload" then
    j <- obj_arg "payload" args ;; p <- pure (payload_from j) ;; enc (call (set_payload session (mass_kg p) (com_ee p)))
  else unknown.

Definition stream_ops (session op : string) (args : list (string * json)) : prog json :=
  if String.eqb op "stream_open" then
    j <- obj_arg "request" args ;; o <- pure (stream_open_from j) ;; enc (call (open_stream session o))
  else if String.eqb op "stream_revise" then
    j <- obj_arg "request" args ;; r <- pure (stream_revision_from j) ;; enc (call (revise_stream session r))
  else if String.eqb op "stream_state" then eid <- str_arg "execution_id" args ;; enc (locked (stream_state session eid))
  else if String.eqb op "stream_anchor" then eid <- str_arg "execution_id" args ;; enc (call (stream_anchor session eid))
  else if String.eqb op "stream_revision" then
    rid <- str_arg "request_id" args ;; eid <- str_arg "execution_id" args ;; enc (locked (stream_revision session eid rid))
  else if String.eqb op "stream_abort" then
    rid <- str_arg "request_id" args ;; eid <- str_arg "execution_id" args ;; enc (call (stream_abort session eid rid))
  else unknown.

Definition group_ops (session op : string) (args : list (string * json)) : prog json :=
  if String.eqb op "group_join" then
    g <- int_arg "group_id" args ;; m <- int_arg "member_index" args ;; n <- int_arg "member_count" args ;; group_join session (g, m, n)
  else if String.eqb op "group_release" then
    eid <- str_arg "execution_id" args ;; g <- int_arg "group_id" args ;; b <- int_arg "budget_ns" args ;;
    enc (call (group_release_op session eid g b ;~ status_of eid))
  else if String.eqb op "group_cancel" then g <- int_arg "group_id" args ;; group_cancel session g
  else if String.eqb op "group_report" then eid <- str_arg "execution_id" args ;; locked (group_report eid)
  else if String.eqb op "group_events" then group_events session
  else unknown.

(** [args['model']]: its joints, when it is a mapping. *)
Definition model_joints (m : json) : option (list string) :=
  match m with
  | JObj kv => match arg "joints" kv with
               | JArr l => match rmap as_str l with Ok names => Some names | Err _ => None end
               | _ => Some []
               end
  | _ => None
  end.

Definition dispatch (session op : string) (args : list (string * json)) : prog json :=
  wait <- pure (wait_of args) ;;
  if String.eqb op "hello" then
    t <- runtime_now ;; s <- locked get ;;
    Done (Ok (JObj [("session", JStr session); ("contract_version", JInt CONTRACT_VERSION); ("identity", encode (identity cfg));
                    ("capabilities", encode (capabilities cfg)); ("now", encode t); ("extensions", extensions s)]))
  else if String.prefix "controller_" op then gate "controller" (controller_ops session op args)
  else if String.eqb op "load_model_set" then
    gate "load_model"
      (n <- obj_arg "revision" args ;; m <- obj_arg "model" args ;;
       enc (call (set_load_model session (match n with JInt n => Some n | _ => None end) (model_joints m) (body_list senv m))))
  else if String.prefix "stream_" op then gate "stream" (stream_ops session op args)
  else if String.prefix "group_" op then gate "group" (group_ops session op args)
  else if String.prefix "scene_" op then
    gate "scene_action"
      (if String.eqb op "scene_claim" || String.eqb op "scene_apply" then outside (observer senv op args) else unknown)
  else if String.eqb op "setpoint" then
    gate "setpoint" (q <- obj_arg "q" args ;; q <- pure (np_ravel q) ;;
                     t <- call (setpoint session q) ;; Done (Ok (JObj [("timeout_s", JNum t)])))
  else if String.eqb op "trace_samples" then gate "trace" (outside (observer senv op args))
  else if String.eqb op "observe" then gate "observe" (outside (observer senv op args))
  else if String.eqb op "state_history" then gate "state_history" (outside (observer senv op args))
  else if String.eqb op "now" then enc runtime_now
  else if String.eqb op "state" then enc (locked (s <~ get ;; ret (state_ s)))
  else if String.eqb op "authority" then enc (locked authority_now)
  else if String.eqb op "claim" then enc (call (claim session ;~ authority_now))
  else if String.eqb op "unclaim" then enc (call (unclaim session ;~ authority_now))
  else if String.eqb op "arm" then n <- call (arm session) ;; Done (Ok (JObj [("gen", JInt n)]))
  else if String.eqb op "disarm" then n <- call (disarm session) ;; Done (Ok (JObj [("gen", JInt n)]))
  else if String.eqb op "await_authority" then
    n <- int_arg "gen" args ;; armed <- obj_arg "armed" args ;;
    a <- await_authority n (truth armed) wait ;;
    Done (Ok (JObj [("settled", JBool (is_some a)); ("authority", encode a)]))
  else if String.eqb op "submit" then
    j <- obj_arg "request" args ;; r <- pure (request_from j) ;;
    enc (call (eid <~ submit session r ;; status_of eid))
  else if String.eqb op "release" then
    match arg "start_at" args with
    | JNull => eid <- str_arg "execution_id" args ;; enc (call (release session eid None ;~ status_of eid))
    | at_ =>
        s <- locked get ;;
        if negb (extends "scheduled_release" s) then raise (Prelude.Refused (unavailable "scheduled_release")) else
        eid <- str_arg "execution_id" args ;; at_ <- pure (stamp_from at_) ;;
        enc (call (release session eid at_ ;~ status_of eid))
    end
  else if String.eqb op "cancel" then
    eid <- str_arg "execution_id" args ;; why <- str_or "reason" "cancelled" args ;;
    enc (call (cancel session eid why ;~ status_of eid))
  else if String.eqb op "status" then eid <- str_arg "execution_id" args ;; enc (status eid wait)
  else if String.eqb op "receipts" then
    eid <- str_arg "execution_id" args ;; enc (locked (x <~ get_ex eid ;; ret (x_receipts x)))
  else unknown.

(** ** [_handle] *)

(** [dict(x or {})] *)
Definition dict_of (j : json) : result (list (string * json)) :=
  if negb (truth j) then Ok [] else
  match j with
  | JObj kv => Ok kv
  | JArr _ | JStr _ => Err (ValueError "dictionary update sequence element has the wrong length")
  | _ => Err (TypeError "object is not iterable")
  end.
(** The request's id, and the program that answers it. *)
Definition handle_line (session line : string) : json * prog json :=
  match msg <-- loads senv line ;; rid <-- field_get "id" msg ;; Ok (msg, rid) with
  | Err e => (JNull, raise e)
  | Ok (msg, rid) =>
      (rid, op <- pure (v <-- field "op" msg ;; to_str v) ;;
            args <- pure (v <-- field_get "args" msg ;; dict_of v) ;; dispatch session op args)
  end.
Definition kind_of (e : exn) : string :=
  match e with
  | Prelude.Refused _ => "refused"
  | TimeoutError _ => "timeout"
  | KeyError | TypeError _ | ValueError _ | IllegalTransition _ => "invalid"
  | _ => "internal"
  end.
Definition why_of (e : exn) : string :=
  match e with
  | Prelude.Refused m | ValueError m | IllegalTransition m | TypeError m | RuntimeError m | RtLinkError m => m
  | TimeoutError m => if String.eqb m "" then "supervisor loop did not answer in time" else m
  | _ => ""
  end.
Definition reply (rid : json) (r : result json) : json :=
  match r with
  | Ok v => JObj [("id", rid); ("ok", JBool true); ("result", v)]
  | Err e => JObj [("id", rid); ("ok", JBool false); ("kind", JStr (kind_of e)); ("error", JStr (why_of e))]
  end.

(** ** Connections *)

Inductive activity :=
  | Idle                                   (* blocked in [readline] *)
  | Running (rid : json) (p : prog json)   (* about to run its next section *)
  | InCall (rid : json).                   (* in [fut.result] of the operation it queued *)
(** The entries of [_ops]: an operation and the caller's continuation, [None] once it stopped waiting. *)
Inductive ticket :=
  | Operation {X : Type} (session : string) (m : RuntimeM X) (k : option (result X -> prog json))
  | OwnerGone (session : string).
Inductive said := Asked (rid : json) | Replied (rid : json) (r : result json).

Record service := {
  rt : world runtime effect;
  ops : list ticket;
  clients : list (string * activity);
  issued : list string;
  questions : nat;
  log : list (string * said);
}.
#[global] Instance eta_service : Eta service := fun s => {|
  rt := rt s; ops := ops s; clients := clients s; issued := issued s; questions := questions s; log := log s |}.

(** An object a waiting thread holds, as the runtime now has it (or as it last had it). *)
Definition look (s : runtime) {A} (p : prog A) : prog A :=
  match p with Watch t read seen k => Watch t read (default seen (read s)) k | p => p end.
Definition look_again (s : runtime) (a : activity) : activity := match a with Running rid p => Running rid (look s p) | a => a end.
Definition acts (w : world runtime effect) (s : service) : service :=
  s <| rt := w |> <| clients := map (fun x => (x.1, look_again (obj w) x.2)) (clients s) |>.
Definition set_client (session : string) (a : activity) (s : service) : service :=
  s <| clients := dupd session (fun _ => a) (clients s) |>.

(** [serve]: a connection beyond the limit is closed at once; the session is a fresh uuid. *)
Definition accept (session : string) (s : service) : service :=
  if bool_decide (session ∈ issued s) then s else
  let s := s <| issued := session :: issued s |> in
  if (MAX_CLIENTS <=? length (clients s))%nat then s else s <| clients := clients s ++ [(session, Idle)] |>.
Definition read_line (session line : string) (s : service) : service :=
  match dget session (clients s) with
  | Some Idle => let '(rid, p) := handle_line session line in
                 set_client session (Running rid p) s <| log := (session, Asked rid) :: log s |>
  | _ => s
  end.
(** The [finally] of [_client]. *)
Definition hang_up (session : string) (s : service) : service :=
  match dget session (clients s) with
  | Some Idle => acts (react (rt s) (CloseSession session)) (s <| ops := ops s ++ [OwnerGone session] |> <| clients := ddel session (clients s) |>)
  | _ => s
  end.
Definition advance (session : string) (s : service) : service :=
  match dget session (clients s) with
  | Some (Running rid p) =>
      match p with
      | Done r => set_client session Idle s <| log := (session, Replied rid r) :: log s |>
      | Call _ m k => set_client session (InCall rid) s <| ops := ops s ++ [Operation session m (Some k)] |>
      | Locked m k => let '(r, w) := m (rt s) in set_client session (Running rid (k r)) (acts w s)
      | Watch _ _ seen k => set_client session (Running rid (k seen)) s
      | Outside f k => set_client session (Running rid (k (f (questions s)))) s <| questions := S (questions s) |>
      end
  | _ => s
  end.
(** [fut.result(timeout=timeout_s)] gives up; the operation stays queued. *)
Fixpoint abandon_call (session : string) (l : list ticket) : option (prog json * list ticket) :=
  match l with
  | [] => None
  | t :: l =>
      let next := '(p, l') ← abandon_call session l; Some (p, t :: l') in
      match t with
      | Operation session' m (Some k) =>
          if bool_decide (session' = session) then Some (k (Err (TimeoutError "")), Operation session' m None :: l) else next
      | _ => next
      end
  end.
Definition stop_waiting (session : string) (s : service) : service :=
  match dget session (clients s) with
  | Some (InCall rid) =>
      match abandon_call session (ops s) with
      | Some (p, l) => set_client session (Running rid p) s <| ops := l |>
      | None => s
      end
  | _ => s
  end.
(** The loop takes the next operation. *)
Definition take_op (s : service) : service :=
  match ops s with
  | [] => s
  | Operation session m k :: l =>
      let '(r, w) := m (rt s) in
      let s := acts w (s <| ops := l |>) in
      match k, dget session (clients s) with
      | Some k, Some (InCall rid) => set_client session (Running rid (k r)) s
      | _, _ => s
      end
  | OwnerGone session :: l => acts (react (rt s) (OwnerLost session)) (s <| ops := l |>)
  end.
(** The runtime's own threads. *)
Definition internal (i : input) : bool :=
  match i with Client _ _ | CloseSession _ | OwnerLost _ | GroupCancelDone => false | _ => true end.

Inductive event :=
  | Accept (session : string) | Line (session line : string) | HangUp (session : string)
  | Advance (session : string) | GiveUp (session : string) | TakeOp | Thread (i : input).
Definition serve (s : service) (e : event) : service :=
  match e with
  | Accept c => accept c s
  | Line c l => read_line c l s
  | HangUp c => hang_up c s
  | Advance c => advance c s
  | GiveUp c => stop_waiting c s
  | TakeOp => take_op s
  | Thread i => if internal i then acts (react (rt s) i) s else s
  end.
Definition opened (w : world runtime effect) : service := {|
  rt := w; ops := []; clients := []; issued := []; questions := 0; log := [] |}.
End Service.
Arguments Done {A} r.
Arguments Call {A X} timeout m k.
Arguments Locked {A X} m k.
Arguments Watch {A X} timeout read seen k.
Arguments Outside {A X} answer k.
