(* ===== verification/ServiceFacts.v ===== *)
(** What a request can do to the runtime: every section of its program is one
    operation of its own session, or leaves the runtime as it is, and its waits
    add up to a bounded number of seconds.  The service under any interleaving is therefore a
    run of the runtime. *)
From Stdlib Require Import SpecFloat PrimFloat FloatOps.
From S2P Require Import Prelude Floats Motion Contract Stream RtProtocol Effects Executor Controller Horizon Runtime RuntimeClients RuntimeNative RuntimeLoop Json Codec Service.

Section Service.
Context {cfg : Config} {ccfg : Controller.Config} {env : Runtime.Env} {henv : Horizon.Env} {senv : Env}.

(** ** Sections *)

(** [m] leaves the world alone, or acts as one operation of [session]. *)
Definition acts_for (session : string) {X} (m : RuntimeM X) : Prop :=
  forall w, (m w).2 = w \/ exists i, (m w).2 = react w i /\ (i = GroupCancelDone \/ exists op, i = Client session op).
(** A program made of such sections. *)
Fixpoint tame (session : string) {A} (p : prog A) : Prop :=
  match p with
  | Done _ => True
  | Call _ m k => acts_for session m /\ forall r, tame session (k r)
  | Locked m k => (forall w, (m w).2 = w) /\ forall r, tame session (k r)
  | Watch _ _ _ k => forall x, tame session (k x)
  | Outside _ k => forall x, tame session (k x)
  end.

Lemma tame_attempt session {A B} (p : prog A) (k : result A -> prog B) :
  tame session p -> (forall r, tame session (k r)) -> tame session (attempt p k).
Proof. intros Hp Hk. induction p; simpl in *; [done|destruct Hp; eauto|destruct Hp; eauto|eauto|eauto]. Qed.
Lemma tame_pbind session {A B} (p : prog A) (k : A -> prog B) :
  tame session p -> (forall a, tame session (k a)) -> tame session (pbind p k).
Proof. intros Hp Hk. apply tame_attempt; [done|]. intros [a|e]; [apply Hk|done]. Qed.
Lemma tame_ensure session {A} (p : prog A) f : tame session p -> tame session f -> tame session (ensure p f).
Proof. intros Hp Hf. apply tame_attempt; [done|]. intros r. apply tame_attempt; [done|]. by intros []. Qed.
Lemma tame_done session {A} (r : result A) : tame session (Done r).
Proof. done. Qed.
Lemma tame_call session {X} (m : RuntimeM X) : acts_for session m -> tame session (call m).
Proof. done. Qed.
Lemma tame_locked session {X} (m : RuntimeM X) : (forall w, (m w).2 = w) -> tame session (locked m).
Proof. done. Qed.
Lemma tame_outside session {X} (f : nat -> result X) : tame session (outside f).
Proof. done. Qed.
Lemma tame_enc session {A} `{Encode A} (p : prog A) : tame session p -> tame session (enc p).
Proof. intros Hp. by apply tame_pbind. Qed.
Lemma tame_gate session name p : tame session p -> tame session (gate name p).
Proof. intros Hp. apply tame_pbind; [by apply tame_locked|]. intros s. by destruct (extends name s). Qed.

(** Sections that only read. *)
Lemma reads_bind {A B} (m : RuntimeM A) (k : A -> RuntimeM B) w :
  (forall w, (m w).2 = w) -> (forall a w, (k a w).2 = w) -> (bind m k w).2 = w.
Proof. intros Hm Hk. unfold bind. specialize (Hm w). destruct (m w) as [[a|e] w']; simpl in *; subst; eauto. Qed.
Lemma reads_some {A} (o : option A) e (w : world runtime effect) : (some_or o e w).2 = w.
Proof. by destruct o. Qed.
Lemma reads_get_ex eid w : (get_ex eid w).2 = w.
Proof. unfold get_ex. apply reads_bind; [done|]. intros s w'. by destruct (find_ex s eid). Qed.
Lemma reads_status eid w : (status_of eid w).2 = w.
Proof. unfold status_of, the_ex. apply reads_bind; [|done]. intros. apply reads_bind; [done|]. intros. apply reads_some. Qed.
Lemma reads_stream_get session eid w : (stream_get session eid w).2 = w.
Proof.
  unfold stream_get. apply reads_bind; [intros; apply reads_get_ex|]. intros x w'. by repeat case_match.
Qed.
Lemma reads_state session eid w : (stream_state session eid w).2 = w.
Proof. unfold stream_state. apply reads_bind; [intros; apply reads_stream_get|done]. Qed.
Lemma reads_revision session eid rid w : (stream_revision session eid rid w).2 = w.
Proof.
  unfold stream_revision. apply reads_bind; [intros; apply reads_stream_get|]. intros y w'. apply reads_bind; [done|].
  intros s w''. by repeat case_match.
Qed.

Lemma reads_receipts eid w : ((x <~ get_ex eid ;; ret (x_receipts x)) w).2 = w.
Proof. apply reads_bind; [intros; apply reads_get_ex|done]. Qed.

(** Sections that are one operation. *)
Lemma then_reads {A B} (m : RuntimeM A) (k : A -> RuntimeM B) w : (forall a w, (k a w).2 = w) -> (bind m k w).2 = (m w).2.
Proof. intros Hk. unfold bind. destruct (m w) as [[a|e] w']; [apply Hk|done]. Qed.
Lemma as_operation session op {X} (m : RuntimeM X) : (forall w, (m w).2 = (operate session op w).2) -> acts_for session m.
Proof. intros H w. right. exists (Client session op). split; [apply H|eauto]. Qed.

Lemma acts_claim session : acts_for session (claim session ;~ authority_now).
Proof. apply (as_operation _ Claim). intros w. by rewrite then_reads. Qed.
Lemma acts_unclaim session : acts_for session (unclaim session ;~ authority_now).
Proof. apply (as_operation _ Unclaim). intros w. by rewrite then_reads. Qed.
Lemma acts_arm session : acts_for session (arm session).
Proof. apply (as_operation _ Arm). intros w. simpl. by rewrite then_reads. Qed.
Lemma acts_disarm session : acts_for session (disarm session).
Proof. apply (as_operation _ Disarm). intros w. simpl. by rewrite then_reads. Qed.
Lemma acts_hold session why : acts_for session (hold session why ;~ s <~ get ;; ret (controller_state s)).
Proof. apply (as_operation _ (Hold why)). intros w. by rewrite then_reads. Qed.
Lemma acts_submit session r : acts_for session (eid <~ submit session r ;; status_of eid).
Proof. apply (as_operation _ (Submit r)). intros w. simpl. rewrite !then_reads; [done|done|intros; apply reads_status]. Qed.
Lemma acts_release session eid at_ : acts_for session (release session eid at_ ;~ status_of eid).
Proof. apply (as_operation _ (ReleaseOp eid at_)). intros w. rewrite then_reads; [done|intros; apply reads_status]. Qed.
Lemma acts_cancel session eid why : acts_for session (cancel session eid why ;~ status_of eid).
Proof. apply (as_operation _ (CancelOp eid why)). intros w. rewrite then_reads; [done|intros; apply reads_status]. Qed.
Lemma acts_select session name : acts_for session (select_control_preset session name).
Proof. apply (as_operation _ (SelectPreset name)). intros w. simpl. by rewrite then_reads. Qed.
Lemma acts_payload session m c : acts_for session (set_payload session m c).
Proof. apply (as_operation _ (SetPayload m c)). intros w. simpl. by rewrite then_reads. Qed.
Lemma acts_load session n names build : acts_for session (set_load_model session n names build).
Proof. apply (as_operation _ (SetLoadModel n names build)). intros w. simpl. by rewrite then_reads. Qed.
Lemma acts_setpoint session q : acts_for session (setpoint session q).
Proof. apply (as_operation _ (Setpoint q)). intros w. simpl. by rewrite then_reads. Qed.
Lemma acts_open session o : acts_for session (open_stream session o).
Proof. apply (as_operation _ (OpenStream o)). intros w. simpl. by rewrite then_reads. Qed.
Lemma acts_revise session r : acts_for session (revise_stream session r).
Proof. apply (as_operation _ (ReviseStream r)). intros w. simpl. by rewrite then_reads. Qed.
Lemma acts_anchor session eid : acts_for session (stream_anchor session eid).
Proof. apply (as_operation _ (StreamAnchor eid)). intros w. simpl. by rewrite then_reads. Qed.
Lemma acts_abort session eid rid : acts_for session (stream_abort session eid rid).
Proof. apply (as_operation _ (StreamAbort eid rid)). intros w. simpl. by rewrite then_reads. Qed.
Lemma acts_check session : acts_for session (group_check session).
Proof. by apply (as_operation _ GroupCheck). Qed.
Lemma acts_set session j : acts_for session (group_set session j).
Proof. apply (as_operation _ (GroupSet j)). intros w. simpl. by rewrite then_reads. Qed.
Lemma acts_unset session j : acts_for session (group_unset session j).
Proof. by apply (as_operation _ (GroupUnset j)). Qed.
Lemma acts_restore session j : acts_for session (group_restore session j).
Proof. by apply (as_operation _ (GroupRestore j)). Qed.
Lemma acts_take session g : acts_for session (group_take session g true).
Proof. apply (as_operation _ (GroupTake g)). intros w. simpl. by rewrite then_reads. Qed.
Lemma acts_group_release session eid g b : acts_for session (group_release_op session eid g b ;~ status_of eid).
Proof. apply (as_operation _ (GroupReleaseOp eid g b)). intros w. rewrite then_reads; [done|intros; apply reads_status]. Qed.
Lemma acts_done session : acts_for session group_cancel_done.
Proof. intros w. right. exists GroupCancelDone. eauto. Qed.
#[local] Hint Resolve acts_claim acts_unclaim acts_arm acts_disarm acts_hold acts_submit acts_release acts_cancel acts_select acts_payload
  acts_load acts_setpoint acts_open acts_revise acts_anchor acts_abort acts_check acts_set acts_unset acts_restore acts_take
  acts_group_release acts_done : tame.
#[local] Hint Resolve reads_get_ex reads_state reads_revision reads_status reads_receipts : tame.

(** ** The wait of a request *)

Lemma wait_bounded args x : wait_of args = Ok x -> (f0 <=f py_max f0 x) = true /\ (py_max f0 x <=f f1) = true.
Proof.
  unfold wait_of. intros H. apply rbind_ok in H as (y & _ & [= <-]). unfold MAX_WAIT_S, py_min.
  destruct (py_max y f0 >f f1) eqn:E1.
  - by vm_compute.
  - assert (isnan (py_max y f0) = false \/ py_max y f0 = fnan) as [Hn|Hn] by (destruct (py_max y f0); eauto).
    + unfold py_max at 1 3. destruct (py_max y f0 >f f0) eqn:E2.
      * split; [by apply fltb_fleb|]. by apply fltb_false.
      * by vm_compute.
    + rewrite Hn. by vm_compute.
Qed.

(** The waits of a program on the runtime, for an operation or for a change, add up to
    at most [n] seconds: each wait is given whole seconds of its own, and so is
    what follows it, whatever it answers. *)
Definition lasts (t : float) (s : Z) : Prop := (0 <= s)%Z /\ (f0 <=f t) = true /\ (t <=f of_Z s) = true.
Fixpoint waits_within {A} (p : prog A) (n : Z) : Prop :=
  match p with
  | Done _ => (0 <= n)%Z
  | Call t _ k => exists s, lasts t s /\ forall r, waits_within (k r) (n - s)
  | Locked _ k => forall r, waits_within (k r) n
  | Watch t _ _ k => exists s, lasts t s /\ forall x, waits_within (k x) (n - s)
  | Outside _ k => forall x, waits_within (k x) n
  end.
Lemma within_mono {A} (p : prog A) n m : waits_within p n -> (n <= m)%Z -> waits_within p m.
Proof.
  revert n m. induction p as [r|X t op k IH|X op k IH|X t read seen k IH|X f k IH]; simpl; intros n m H Hm.
  - lia.
  - destruct H as (s & Hs & H). exists s. split; [done|]. intros r. eapply IH; [apply H|lia].
  - intros r. by eapply IH.
  - destruct H as (s & Hs & H). exists s. split; [done|]. intros r. eapply IH; [apply H|lia].
  - intros r. by eapply IH.
Qed.
Lemma within_attempt {A B} (p : prog A) (k : result A -> prog B) n m :
  waits_within p n -> (forall r, waits_within (k r) m) -> waits_within (attempt p k) (n + m).
Proof.
  revert n. induction p as [r|X t op k' IH|X op k' IH|X t read seen k' IH|X f k' IH]; simpl; intros n H Hk.
  - eapply within_mono; [apply Hk|lia].
  - destruct H as (s & Hs & H). exists s. split; [done|]. intros r. replace (n + m - s)%Z with (n - s + m)%Z by lia. by apply IH.
  - intros r. by apply IH.
  - destruct H as (s & Hs & H). exists s. split; [done|]. intros r. replace (n + m - s)%Z with (n - s + m)%Z by lia. by apply IH.
  - intros r. by apply IH.
Qed.
Lemma within_pbind {A B} (p : prog A) (k : A -> prog B) n m :
  waits_within p n -> (forall a, waits_within (k a) m) -> (0 <= m)%Z -> waits_within (pbind p k) (n + m).
Proof. intros Hp Hk Hm. apply within_attempt; [exact Hp|]. intros [a|e]; [apply Hk|exact Hm]. Qed.
(** A step that does not wait, before or after the one that does. *)
Lemma within_first {A B} (p : prog A) (k : A -> prog B) n :
  waits_within p 0 -> (forall a, waits_within (k a) n) -> (0 <= n)%Z -> waits_within (pbind p k) n.
Proof. exact (within_pbind p k 0 n). Qed.
Lemma within_last {A B} (p : prog A) (k : A -> prog B) n :
  waits_within p n -> (forall a, waits_within (k a) 0) -> waits_within (pbind p k) n.
Proof. intros Hp Hk. rewrite <-(Z.add_0_r n). by apply within_pbind. Qed.
Lemma within_enc {A} `{Encode A} (p : prog A) n : waits_within p n -> waits_within (enc p) n.
Proof. intros Hp. by apply within_last. Qed.
Lemma within_gate name p n : (0 <= n)%Z -> waits_within p n -> waits_within (gate name p) n.
Proof. intros Hn Hp. apply within_first; [done| |done]. intros s. by destruct (extends name s). Qed.
Lemma within_call {X} (m : RuntimeM X) : waits_within (call m) 2.
Proof. exists 2%Z. by split; [vm_compute|]. Qed.

(** ** [dispatch] *)

Lemma tame_status session eid x : tame session (status eid x).
Proof. apply tame_pbind; [apply tame_locked; eauto with tame|]. done. Qed.
Lemma tame_await session n b x : tame session (await_authority n b x).
Proof. apply tame_pbind; [by apply tame_locked|]. intros y s. by repeat case_match. Qed.
Lemma tame_join session j : tame session (group_join session j).
Proof.
  apply tame_pbind; [apply tame_call; eauto with tame|]. intros _. apply tame_pbind; [apply tame_call; eauto with tame|]. intros [e p].
  apply tame_attempt; [done|]. intros [st|[]]; simpl; try done; (split; [eauto with tame|by intros []]).
Qed.
Lemma tame_cancel session g : tame session (group_cancel session g).
Proof.
  apply tame_pbind; [apply tame_call; eauto with tame|]. intros [[[[? m] n] e]|]; [|done].
  apply tame_ensure; [|apply tame_call; eauto with tame]. intros _.
  apply tame_attempt; [done|]. intros [st|[]]; simpl; try done; try (split; [eauto with tame|by intros []]).
  case_match; [done|]. split; [eauto with tame|by intros []].
Qed.
(** Walks the operations of a request. *)
Ltac tamed :=
  repeat lazymatch goal with
  | |- tame _ (if ?b then _ else _) => destruct b
  | |- tame _ (match ?x with _ => _ end) => destruct x
  | |- tame _ (pbind _ _) => apply tame_pbind; [|intros ?]
  | |- tame _ (enc _) => apply tame_enc
  | |- tame _ (gate _ _) => apply tame_gate
  | |- tame _ (call _) => apply tame_call; solve [eauto with tame]
  | |- tame _ (locked _) => apply tame_locked; solve [done|intros; eauto with tame]
  | |- tame _ (group_join _ _) => apply tame_join
  | |- tame _ (group_cancel _ _) => apply tame_cancel
  | |- tame _ (status _ _) => apply tame_status
  | |- tame _ (await_authority _ _ _) => apply tame_await
  | |- tame _ _ => solve [done | eauto]
  end.
Lemma tame_controller session op args : tame session (controller_ops session op args).
Proof. unfold controller_ops. tamed. Qed.
Lemma tame_stream session op args : tame session (stream_ops session op args).
Proof. unfold stream_ops. tamed. Qed.
Lemma tame_group session op args : tame session (group_ops session op args).
Proof. unfold group_ops, group_events. tamed. Qed.
Lemma tame_dispatch session op args : tame session (dispatch session op args).
Proof.
  unfold dispatch, pbind at 1, pure at 1. simpl. destruct (wait_of args) as [wait|e] eqn:Ew; [|done].
  pose proof tame_controller. pose proof tame_stream. pose proof tame_group. tamed.
Qed.
Lemma tame_line session line : tame session (handle_line session line).2.
Proof.
  unfold handle_line. repeat case_match; [|done]. simpl. tamed. apply tame_dispatch.
Qed.

(** *** What each operation may wait *)

Lemma lasts_wait args x : wait_of args = Ok x -> lasts (py_max f0 x) 1.
Proof. intros [H1 H2]%wait_bounded. split_and!; [done|exact H1|exact H2]. Qed.
Lemma within_status eid x args : wait_of args = Ok x -> waits_within (status eid x) 1.
Proof.
  intros Hx%lasts_wait. apply within_first; [done| |done]. intros y. exists 1%Z. by split.
Qed.
Lemma within_await n b x args : wait_of args = Ok x -> waits_within (await_authority n b x) 1.
Proof.
  intros Hx%lasts_wait. apply within_first; [done| |done]. intros y. exists 1%Z. split; [exact Hx|].
  intros s. by repeat case_match.
Qed.
Lemma within_join session j : waits_within (group_join session j) 6.
Proof.
  apply (within_pbind _ _ 2 4); [apply within_call| |done]. intros _. apply (within_pbind _ _ 2 2); [apply within_call| |done]. intros [e p].
  apply (within_attempt _ _ 0 2); [done|]. intros [st|[]]; simpl; try done; exists 2%Z; (split; [by vm_compute|by intros []]).
Qed.
Lemma within_cancel session g : waits_within (group_cancel session g) 8.
Proof.
  apply (within_pbind _ _ 2 6); [apply within_call| |done]. intros [[[[? m] n] e]|]; [|done].
  apply (within_attempt _ _ 4 2); [|intros r; apply (within_attempt _ _ 2 0); [apply within_call|by intros []]].
  exists 2%Z. split; [by vm_compute|]. intros _. apply (within_attempt _ _ 0 2); [done|].
  intros [st|[]]; simpl; try done; try (exists 2%Z; (split; [by vm_compute|by intros []])).
  case_match; [done|]. exists 2%Z. split; [by vm_compute|by intros []].
Qed.
(** Walks the operations of a request: at most one of their steps waits. *)
Ltac free :=
  repeat lazymatch goal with
  | |- waits_within (if ?b then _ else _) _ => destruct b
  | |- waits_within (match ?x with _ => _ end) _ => destruct x
  | |- waits_within (pbind _ _) _ => apply within_first; [|intros ?|lia]
  | |- waits_within (enc _) _ => apply within_enc
  | |- waits_within (gate _ _) _ => apply within_gate; [lia|]
  | |- waits_within (call _) 0 => fail
  | |- waits_within _ _ => solve [done | simpl; intros; lia]
  end.
Ltac waited :=
  repeat lazymatch goal with
  | |- waits_within (if ?b then _ else _) _ => destruct b
  | |- waits_within (match ?x with _ => _ end) _ => destruct x
  | |- waits_within (pbind _ _) _ => first [apply within_first; [solve [free]|intros ?|lia] | apply within_last; [|intros ?; solve [free]]]
  | |- waits_within (enc _) _ => apply within_enc
  | |- waits_within (gate _ _) _ => apply within_gate; [lia|]
  | |- waits_within (call _) _ => apply within_call
  | |- waits_within (status _ _) _ => eapply within_status; eassumption
  | |- waits_within (await_authority _ _ _) _ => eapply within_await; eassumption
  | |- waits_within _ _ => solve [done | simpl; intros; lia | eauto]
  end.
Lemma within_controller session op args : waits_within (controller_ops session op args) 2.
Proof. unfold controller_ops. waited. Qed.
Lemma within_stream session op args : waits_within (stream_ops session op args) 2.
Proof. unfold stream_ops. waited. Qed.

(** Seconds an operation may wait on the runtime. *)
Definition wait_budget (op : string) : Z :=
  if String.eqb op "group_cancel" then 8 else if String.eqb op "group_join" then 6
  else if String.eqb op "status" || String.eqb op "await_authority" then 1 else 2.
Lemma budget_most op : (wait_budget op <= 8)%Z.
Proof. unfold wait_budget. repeat case_match; lia. Qed.
Lemma within_group session op args : waits_within (group_ops session op args) (wait_budget op).
Proof.
  unfold group_ops, group_events, wait_budget. destruct (String.eqb op "group_join") eqn:E1.
  { apply String.eqb_eq in E1 as ->. simpl. do 3 (apply within_first; [solve [free]|intros ?|lia]). apply within_join. }
  destruct (String.eqb op "group_cancel") eqn:E2.
  { apply String.eqb_eq in E2 as ->. simpl. apply within_first; [solve [free]|intros ?|lia]. apply within_cancel. }
  destruct (_ || _) eqn:E3; [|waited]. by apply orb_true_iff in E3 as [->%String.eqb_eq| ->%String.eqb_eq].
Qed.
Lemma within_dispatch session op args : waits_within (dispatch session op args) (wait_budget op).
Proof.
  unfold dispatch, pbind at 1, pure at 1. simpl. destruct (String.eqb op "status" || String.eqb op "await_authority") eqn:E.
  { apply orb_true_iff in E as [->%String.eqb_eq| ->%String.eqb_eq]; (match goal with |- waits_within _ ?b => change b with 1%Z end); simpl; (destruct (wait_of args) as [wait|e] eqn:Ew; [|done]); waited. }
  assert (2 <= wait_budget op)%Z as Hb by (unfold wait_budget; rewrite E; repeat case_match; lia).
  apply orb_false_iff in E as [-> ->]. destruct (wait_of args) as [wait|e] eqn:Ew; [|simpl; lia]. pose proof within_group as Hg.
  destruct (String.eqb op "hello"); [eapply within_mono; [|exact Hb]; solve [waited]|].
  destruct (String.prefix "controller_" op); [eapply within_mono; [|exact Hb]; apply within_gate; [lia|apply within_controller]|].
  destruct (String.eqb op "load_model_set"); [eapply within_mono; [|exact Hb]; solve [waited]|].
  destruct (String.prefix "stream_" op); [eapply within_mono; [|exact Hb]; apply within_gate; [lia|apply within_stream]|].
  destruct (String.prefix "group_" op); [apply within_gate; [lia|apply Hg]|].
  eapply within_mono; [|exact Hb]. clear Hb. waited.
Qed.
Lemma within_line session line : waits_within (handle_line session line).2 8.
Proof.
  unfold handle_line. repeat case_match; [|done]. simpl. do 2 (apply within_first; [solve [free]|intros ?|lia]).
  eapply within_mono; [apply within_dispatch|apply budget_most].
Qed.
End Service.
