(* ===== verification/ServiceSafety.v ===== *)
(** The service under any interleaving of its connections, the loop and the
    runtime's threads: every world it reaches is one the runtime reaches by its own
    inputs, a connection acts in its own name only, an ended session is mute, and
    every line is answered once, in order, under its own id. *)
From Stdlib Require Import SpecFloat PrimFloat FloatOps.
From S2P Require Import Prelude Floats Motion Contract Stream RtProtocol Effects Executor Controller Horizon Runtime RuntimeClients RuntimeNative RuntimeLoop RuntimeRuns RuntimeSessions Json Codec Service ServiceFacts.

Section Service.
Context {cfg : Config} {ccfg : Controller.Config} {env : Runtime.Env} {henv : Horizon.Env} {senv : Env}.

(** ** The invariant *)

(** What a connection may run: operations in its own name, and waits that add up to
    no more than the longest request's. *)
Definition REQUEST_S : Z := 8.
Definition fit (c : string) (p : prog json) : Prop := tame c p /\ waits_within p REQUEST_S.
Definition ticket_ok (t : ticket) : Prop :=
  match t with
  | Operation c m k => acts_for c m /\ match k with Some k => forall r, fit c (k r) | None => True end
  | OwnerGone _ => True
  end.
Definition client_ok (x : string * activity) : Prop := match x.2 with Running _ p => fit x.1 p | _ => True end.
(** A caller that waits for its operation. *)
Definition awaits (c : string) (t : ticket) : bool :=
  match t with Operation c' _ (Some _) => bool_decide (c' = c) | _ => false end.
Definition waiting (c : string) (l : list ticket) : nat := length (List.filter (awaits c) l).
Definition in_call (a : activity) : nat := match a with InCall _ => 1 | _ => 0 end.
(** Whose entry of the queue it is, and whether it says that the owner is gone. *)
Definition shape (t : ticket) : string * bool := match t with Operation c _ _ => (c, false) | OwnerGone c => (c, true) end.
(** What is left in the queue of a session whose connection ended. *)
Definition ended_queue (c : string) (q : list (string * bool)) (closed : list string) : Prop :=
  (forall x, x ∈ q -> x.1 <> c) \/
  c ∈ closed /\ exists q1 q2, q = q1 ++ (c, true) :: q2 /\ (c, true) ∉ q1 /\ (forall x, x ∈ q2 -> x.1 <> c).
Definition queue (s : service) : list (string * bool) := map shape (ops s).

Record Served (s : service) : Prop := {
  sv_tickets : Forall ticket_ok (ops s);
  sv_clients : Forall client_ok (clients s);
  sv_keys : NoDup (map fst (clients s));
  sv_limit : (length (clients s) <= MAX_CLIENTS)%nat;
  sv_issued : forall c, c ∈ map fst (clients s) \/ c ∈ map fst (queue s) -> c ∈ issued s;
  sv_open : forall c, c ∈ map fst (clients s) -> c ∉ closed_sessions (obj (rt s)) /\ (c, true) ∉ queue s;
  sv_ended : forall c, c ∉ map fst (clients s) -> ended_queue c (queue s) (closed_sessions (obj (rt s)));
  sv_closed : forall c, c ∈ closed_sessions (obj (rt s)) -> c ∈ issued s;
}.
(** Each caller in [fut.result] has its one operation in the queue. *)
Definition Calls (s : service) : Prop :=
  forall c, waiting c (ops s) = match dget c (clients s) with Some a => in_call a | None => 0%nat end.

Lemma fit_look session w p : fit session p -> fit session (look w p).
Proof. by destruct p. Qed.
Lemma client_look w x : client_ok x -> client_ok (x.1, look_again w x.2).
Proof. destruct x as [c [|rid p|rid]]; simpl; [done| |done]. unfold client_ok. simpl. apply fit_look. Qed.
Lemma keys_look w (l : list (string * activity)) : map fst (map (fun x => (x.1, look_again w x.2)) l) = map fst l.
Proof. rewrite map_map. by apply map_ext. Qed.
Lemma dget_look w (l : list (string * activity)) c : dget c (map (fun x => (x.1, look_again w x.2)) l) = look_again w <$> dget c l.
Proof.
  unfold dget. induction l as [|x l IH]; [done|]. simpl. case_bool_decide; [done|]. exact IH.
Qed.
Lemma in_call_look w a : in_call (look_again w a) = in_call a.
Proof. by destruct a. Qed.

(** ** Its steps *)

Lemma Served_acts w s : closed_sessions (obj w) = closed_sessions (obj (rt s)) -> Served s -> Served (acts w s).
Proof.
  intros E [H1 H2 H3 H4 H5 H6 H7 H8]. split; simpl; rewrite ?keys_look, ?length_map, ?E; try done.
  apply Forall_map. eapply Forall_impl; [exact H2|]. intros x. apply client_look.
Qed.
Lemma Served_set c a s : client_ok (c, a) -> Served s -> Served (set_client c a s).
Proof.
  intros Ha [H1 H2 H3 H4 H5 H6 H7 H8]. split; simpl; rewrite ?dupd_keys; try done.
  - apply Forall_forall. intros x [Hx|(v & Hx & E & ->)]%dupd_in; [by apply (proj1 (Forall_forall _ _) H2)|exact Ha].
  - unfold dupd. by rewrite length_map.
Qed.
Lemma Calls_acts w s : Calls s -> Calls (acts w s).
Proof. intros H c. simpl. rewrite (H c), dget_look. destruct (dget c (clients s)); [|done]. simpl. by rewrite in_call_look. Qed.
Lemma Calls_set c a a0 s : dget c (clients s) = Some a0 -> in_call a = in_call a0 -> Calls s -> Calls (set_client c a s).
Proof.
  intros Hc Ea H c'. simpl. rewrite (H c'). destruct (decide (c' = c)) as [->|Hn]; [by rewrite dget_dupd, Hc|by rewrite dget_dupd_ne].
Qed.

(** What is left of a program after one of its sections *)
Lemma fit_next c {X} t (m : RuntimeM X) k : fit c (Call t m k) -> acts_for c m /\ forall r, fit c (k r).
Proof.
  intros [[Hm Hk] (n & Hn & Hw)]. split; [done|]. intros r. split; [apply Hk|]. eapply within_mono; [apply Hw|]. destruct Hn. lia.
Qed.
Lemma client_fit s c rid p : Served s -> dget c (clients s) = Some (Running rid p) -> fit c p.
Proof. intros H Hc%dget_in. by apply (proj1 (Forall_forall _ _) (sv_clients s H)) in Hc. Qed.
Lemma client_key {A} (c : string) (a : A) l : dget c l = Some a -> c ∈ map fst l.
Proof. intros Hc%dget_in. apply list_elem_of_fmap. by exists (c, a). Qed.

Lemma dget_snoc {A} (c c' : string) (a : A) l :
  dget c (l ++ [(c', a)]) = match dget c l with Some x => Some x | None => if bool_decide (c' = c) then Some a else None end.
Proof. unfold dget. induction l as [|x l IH]; simpl; [by destruct (bool_decide _)|]. destruct (bool_decide (x.1 = c)); [done|exact IH]. Qed.
Lemma served_accept c s : Served s -> Served (accept c s).
Proof.
  intros H. pose proof H as [H1 H2 H3 H4 H5 H6 H7 H8]. unfold accept. case_bool_decide as Hi; [done|].
  assert (c ∉ map fst (clients s)) as Hk by (intros Hc; apply Hi, H5; by left).
  destruct (MAX_CLIENTS <=? _)%nat eqn:E; split; simpl; try done.
  - intros c' Hc. right. by apply H5.
  - intros c' Hc. right. by apply H8.
  - apply Forall_app. by repeat constructor.
  - rewrite map_app. simpl. apply NoDup_app. split_and!; [done| |by apply NoDup_singleton]. intros x Hx ->%list_elem_of_singleton. done.
  - apply Nat.leb_gt in E. rewrite length_app. unfold MAX_CLIENTS in *. simpl in *. lia.
  - intros c' Hc. rewrite map_app, elem_of_app in Hc. destruct Hc as [[Hc| ->%list_elem_of_singleton]|Hc]; [right|left|right]; eauto.
  - intros c' Hc. rewrite map_app, elem_of_app in Hc. destruct Hc as [Hc| ->%list_elem_of_singleton]; [by apply H6|]. split.
    + intros Hx. apply Hi, H8, Hx.
    + intros Hx. apply Hi, H5. right. apply list_elem_of_fmap. by exists (c, true).
  - intros c' Hc. apply H7. intros Hx. apply Hc. rewrite map_app, elem_of_app. by left.
  - intros c' Hc. right. by apply H8.
Qed.
Lemma calls_accept c s : Served s -> Calls s -> Calls (accept c s).
Proof.
  intros Hs H. unfold accept. case_bool_decide as Hi; [done|]. destruct (_ <=? _)%nat; intros c'; simpl; rewrite (H c'); [done|].
  rewrite dget_snoc. destruct (dget c' (clients s)); [done|]. by case_bool_decide.
Qed.

(** The log and the counter of questions are not part of the invariant. *)
Lemma Served_log l s : Served s -> Served (s <| log := l |>).
Proof. by intros []. Qed.
Lemma Served_questions n s : Served s -> Served (s <| questions := n |>).
Proof. by intros []. Qed.

(** *** A ticket more, a ticket less *)

Lemma ended_snoc c x q closed : x.1 <> c -> ended_queue c q closed -> ended_queue c (q ++ [x]) closed.
Proof.
  intros Hx [H|(Hc & q1 & q2 & -> & H1 & H2)]; [left|right].
  - intros y [Hy| ->%list_elem_of_singleton]%elem_of_app; [by apply H|done].
  - split; [done|]. exists q1, (q2 ++ [x]). rewrite <-app_assoc. split_and!; [done|done|].
    intros y [Hy| ->%list_elem_of_singleton]%elem_of_app; [by apply H2|done].
Qed.
Lemma ended_tail c x q closed : x <> (c, true) -> ended_queue c (x :: q) closed -> ended_queue c q closed.
Proof.
  intros Hx [H|(Hc & q1 & q2 & E & H1 & H2)]; [left|right].
  - intros y Hy. apply H. by right.
  - split; [done|]. destruct q1 as [|y q1]; [by injection E as ->|]. injection E as -> ->.
    exists q1, q2. split_and!; [done| |done]. intros Hy. apply H1. by right.
Qed.
Lemma ended_gone c q closed : ended_queue c ((c, true) :: q) closed -> forall x, x ∈ q -> x.1 <> c.
Proof.
  intros [H|(_ & q1 & q2 & E & H1 & H2)]; [by destruct (H (c, true) (list_elem_of_here _ _))|].
  destruct q1 as [|x q1]; [by injection E as ->|]. injection E as <- _. by destruct (H1 (list_elem_of_here _ _)).
Qed.
Lemma waiting_snoc c l t : waiting c (l ++ [t]) = (waiting c l + if awaits c t then 1 else 0)%nat.
Proof. unfold waiting. rewrite List.filter_app, length_app. simpl. by destruct (awaits c t). Qed.

(** A connection's own operation joins the queue. *)
Lemma served_enqueue c rid {X} t (m : RuntimeM X) k s :
  dget c (clients s) = Some (Running rid (Call t m k)) -> Served s ->
  Served (set_client c (InCall rid) s <| ops := ops s ++ [Operation c m (Some k)] |>).
Proof.
  intros Hc H. pose proof (client_key _ _ _ Hc) as Hk. pose proof (fit_next _ _ _ _ (client_fit s c rid _ H Hc)) as [Hm Ht].
  apply (Served_set c (InCall rid)) in H; [|done]. destruct H as [H1 H2 H3 H4 H5 H6 H7 H8]. simpl in *. rewrite dupd_keys in *.
  split; simpl; rewrite ?dupd_keys; try done.
  - apply Forall_app. split; [done|]. apply Forall_singleton. by split.
  - intros c' [Hc'|Hc']; [apply H5; by left|]. unfold queue in Hc'. simpl in Hc'. rewrite !map_app, elem_of_app in Hc'.
    destruct Hc' as [Hc'| ->%list_elem_of_singleton]; apply H5; [by right|by left].
  - intros c' Hc'. destruct (H6 c' Hc') as [? Hg]. split; [done|]. unfold queue. simpl. rewrite map_app.
    intros [Ht'|Ht'%list_elem_of_singleton]%elem_of_app; [by apply Hg|done].
  - intros c' Hc'. unfold queue. simpl. rewrite map_app. apply ended_snoc; [|by apply H7]. simpl. by intros <-.
Qed.
Lemma calls_enqueue c rid {X} t (m : RuntimeM X) k s :
  dget c (clients s) = Some (Running rid (Call t m k)) -> Calls s ->
  Calls (set_client c (InCall rid) s <| ops := ops s ++ [Operation c m (Some k)] |>).
Proof.
  intros Hc H c'. simpl. rewrite waiting_snoc, (H c'). simpl. case_bool_decide as E.
  - subst c'. by rewrite dget_dupd, Hc.
  - rewrite dget_dupd_ne by congruence. lia.
Qed.

(** A caller that gives up leaves its operation in the queue. *)
Lemma abandon_spec c l p l' : abandon_call c l = Some (p, l') ->
  exists l1 l2 X (m : RuntimeM X) k,
    l = l1 ++ Operation c m (Some k) :: l2 /\ l' = l1 ++ Operation c m None :: l2 /\ p = k (Err (TimeoutError "")).
Proof.
  revert p l'. induction l as [|t l IH]; intros p l' H; [done|]. simpl in H.
  set (next := abandon_call c l ≫= _) in H.
  assert (next = Some (p, l') -> exists l1 l2 X (m : RuntimeM X) k,
            t :: l = l1 ++ Operation c m (Some k) :: l2 /\ l' = l1 ++ Operation c m None :: l2 /\ p = k (Err (TimeoutError ""))) as Hn.
  { subst next. destruct (abandon_call c l) as [[p1 l1]|]; [|done]. intros [= -> <-].
    destruct (IH p l1 eq_refl) as (a & b & X & m & k & -> & -> & ->). by exists (t :: a), b, X, m, k. }
  destruct t as [X c' m [k|]|c']; try (by apply Hn). case_bool_decide as E; [|by apply Hn].
  subst c'. injection H as <- <-. by exists [], l, X, m, k.
Qed.
Lemma served_stop_waiting c s : Served s -> Served (stop_waiting c s).
Proof.
  intros H. unfold stop_waiting. destruct (dget c (clients s)) as [[|rid p|rid]|] eqn:Hc; try done.
  destruct (abandon_call c (ops s)) as [[p l]|] eqn:E; [|done].
  apply abandon_spec in E as (l1 & l2 & X & m & k & E & -> & ->). pose proof H as [H1 _ _ _ _ _ _ _]. rewrite E in H1.
  apply Forall_app in H1 as [F1 F2]. apply Forall_cons in F2 as [[Hm Hk] F2].
  apply (Served_set c (Running rid (k (Err (TimeoutError ""))))) in H; [|exact (Hk _)].
  assert (queue s = map shape (l1 ++ Operation c m None :: l2)) as Eq by (unfold queue; by rewrite E, !map_app).
  destruct H as [_ H2 H3 H4 H5 H6 H7 H8]. split; simpl; try done.
  - apply Forall_app. split; [done|]. by constructor.
  - intros c'. unfold queue at 1. simpl. rewrite <-Eq. apply H5.
  - intros c'. unfold queue at 1. simpl. rewrite <-Eq. apply H6.
  - intros c'. unfold queue at 1. simpl. rewrite <-Eq. apply H7.
Qed.
Lemma waiting_app c l1 l2 : waiting c (l1 ++ l2) = (waiting c l1 + waiting c l2)%nat.
Proof. unfold waiting. by rewrite List.filter_app, length_app. Qed.
Lemma waiting_cons c t l : waiting c (t :: l) = ((if awaits c t then 1 else 0) + waiting c l)%nat.
Proof. unfold waiting. simpl. by destruct (awaits c t). Qed.
Lemma calls_stop_waiting c s : Calls s -> Calls (stop_waiting c s).
Proof.
  intros H. unfold stop_waiting. destruct (dget c (clients s)) as [[|rid p|rid]|] eqn:Hc; try done.
  destruct (abandon_call c (ops s)) as [[p l]|] eqn:E; [|done].
  apply abandon_spec in E as (l1 & l2 & X & m & k & E & -> & ->). intros c'. specialize (H c'). simpl.
  rewrite E, waiting_app, waiting_cons in H. rewrite waiting_app, waiting_cons. simpl in *. case_bool_decide as Ec.
  - subst c'. rewrite Hc in H. rewrite dget_dupd, Hc. simpl in *. lia.
  - rewrite dget_dupd_ne by congruence. lia.
Qed.

(** The loop takes an operation. *)
Lemma served_pop c {X} (m : RuntimeM X) k l s : ops s = Operation c m k :: l -> Served s -> Served (s <| ops := l |>).
Proof.
  intros E [H1 H2 H3 H4 H5 H6 H7 H8]. unfold queue in *. rewrite E in *. simpl in *. apply Forall_cons in H1 as [_ H1].
  split; simpl; try done.
  - intros c' [Hc|Hc]; apply H5; [by left|right; by right].
  - intros c' Hc. destruct (H6 c' Hc) as [? Hg]. split; [done|]. intros Hx. apply Hg. by right.
  - intros c' Hc. eapply ended_tail; [|by apply H7]. done.
Qed.
Lemma closed_op c {X} (m : RuntimeM X) w : acts_for c m -> closed_sessions (obj (m w).2) = closed_sessions (obj w).
Proof. intros H. destruct (H w) as [->|(i & -> & [->|[op ->]])]; [done|..]; by apply closed_after. Qed.

(** What [acts] shows of the clients. *)
Lemma Served_look w s : Forall client_ok (clients s) -> Forall client_ok (clients (acts w s)).
Proof. intros H. simpl. apply Forall_map. eapply Forall_impl; [exact H|]. intros x. apply client_look. Qed.

(** The owner of an ended session is released, the last that is heard of it. *)
Lemma served_gone c l s : ops s = OwnerGone c :: l -> Served s -> Calls s ->
  let s' := acts (react (rt s) (OwnerLost c)) (s <| ops := l |>) in Served s' /\ Calls s'.
Proof.
  intros E H C. destruct H as [H1 H2 H3 H4 H5 H6 H7 H8]. unfold queue in *. rewrite E in *. simpl in *. apply Forall_cons in H1 as [_ H1]. split; [split|].
  - done.
  - by apply Served_look.
  - simpl. by rewrite keys_look.
  - simpl. by rewrite length_map.
  - simpl. rewrite keys_look. intros c' [Hc|Hc]; apply H5; [by left|right; by right].
  - simpl. rewrite keys_look. intros c' Hc. destruct (H6 c' Hc) as [Hx Hg]. split; [|intros Hy; apply Hg; by right].
    intros Hy%lost_closed. by apply Hx.
  - simpl. rewrite keys_look. intros c' Hc. specialize (H7 c' Hc). destruct (decide (c' = c)) as [->|Hn].
    + left. by eapply ended_gone.
    + apply ended_tail in H7; [|congruence]. destruct H7 as [?|(Hin & Hq)]; [by left|right]. split; [by apply lost_keeps|done].
  - simpl. intros c' Hx%lost_closed. by apply H8.
  - intros c'. specialize (C c'). simpl. rewrite E, waiting_cons in C. simpl in C. rewrite C, dget_look.
    destruct (dget c' (clients s)); [by rewrite <-(in_call_look (obj (react (rt s) (OwnerLost c))))|done].
Qed.
Lemma served_take s : Served s -> Calls s -> Served (take_op s) /\ Calls (take_op s).
Proof.
  intros H C. unfold take_op. destruct (ops s) as [|[X c m k|c] l] eqn:E; [done| |by apply served_gone].
  pose proof (sv_tickets s H) as Ht. rewrite E in Ht. apply Forall_cons in Ht as [[Hm Hk] _].
  pose proof (closed_op c m (rt s) Hm) as Ec. destruct (m (rt s)) as [r w]. simpl in Ec.
  apply (served_pop c m k l s E) in H. apply (Served_acts w) in H; [|exact Ec].
  assert (forall c', (if awaits c' (Operation c m k) then 1 else 0) + waiting c' l =
                       match dget c' (clients s) with Some a => in_call a | None => 0 end)%nat as C'.
  { intros c'. rewrite <-(C c'), E. by rewrite waiting_cons. }
  set (s1 := acts w (s <| ops := l |>)) in *. assert (forall c', dget c' (clients s1) = look_again (obj w) <$> dget c' (clients s)) as Eg
    by (intros c'; apply dget_look).
  destruct k as [k|].
  + specialize (C' c) as Cc. simpl in Cc. rewrite bool_decide_eq_true_2 in Cc by done.
    destruct (dget c (clients s)) as [[|rid p|rid]|] eqn:Hc; try discriminate Cc. rewrite Eg, Hc. simpl. split.
    * apply Served_set; [apply Hk|exact H].
    * intros c'. specialize (C' c'). change (waiting c' l = match dget c' (dupd c (fun _ => Running rid (k r)) (clients s1)) with Some a => in_call a | None => 0%nat end).
      simpl in C'. destruct (decide (c' = c)) as [->|Hn].
      -- rewrite dget_dupd, Eg, Hc. simpl. rewrite bool_decide_eq_true_2, Hc in C' by done. simpl in C'. lia.
      -- rewrite dget_dupd_ne, Eg by done. rewrite bool_decide_eq_false_2 in C' by congruence. simpl in C'. rewrite C'.
         destruct (dget c' (clients s)); [by rewrite <-(in_call_look (obj w))|done].
  + split; [by repeat case_match|]. assert (forall c', waiting c' (ops s1) = match dget c' (clients s1) with Some a => in_call a | None => 0%nat end) as K.
    { intros c'. specialize (C' c'). simpl in C'. rewrite Eg. change (ops s1) with l. rewrite C'.
      destruct (dget c' (clients s)); [by rewrite <-(in_call_look (obj w))|done]. }
    by repeat case_match.
Qed.

Lemma served_hang_up c s : Served s -> Calls s -> Served (hang_up c s) /\ Calls (hang_up c s).
Proof.
  intros H C. unfold hang_up. destruct (dget c (clients s)) as [[|rid p|rid]|] eqn:Hc; try done.
  pose proof (client_key _ _ _ Hc) as Hk. destruct H as [H1 H2 H3 H4 H5 H6 H7 H8].
  assert (forall c', c' ∈ map fst (ddel c (clients s)) <-> c' ∈ map fst (clients s) /\ c' <> c) as Ek.
  { intros c'. rewrite !list_elem_of_fmap. split.
    - intros (x & -> & Hx). split; [exists x; split; [done|by eapply ddel_in]|by eapply ddel_gone].
    - intros ((x & -> & Hx) & Hn). exists x. split; [done|by apply ddel_stays]. }
  split; [split|].
  - simpl. apply Forall_app. split; [done|]. by apply Forall_singleton.
  - apply Served_look. simpl. apply Forall_forall. intros x Hx%ddel_in. by apply (proj1 (Forall_forall _ _) H2).
  - simpl. rewrite keys_look. by apply ddel_nodup.
  - simpl. rewrite length_map. pose proof (ddel_length c (clients s)). lia.
  - simpl. rewrite keys_look. unfold queue. simpl. rewrite !map_app. intros c' [[Hx _]%Ek|[Hx| ->%list_elem_of_singleton]%elem_of_app]; apply H5; [by left|by right|by left].
  - simpl. rewrite keys_look. unfold queue. simpl. rewrite map_app. intros c' [Hx Hn]%Ek. destruct (H6 c' Hx) as [Ha Hb]. split.
    + intros [->|Hy]%elem_of_cons; done.
    + intros [Hy|[= ->]%list_elem_of_singleton]%elem_of_app; done.
  - simpl. rewrite keys_look. unfold queue. simpl. rewrite map_app. intros c' Hx. destruct (decide (c' = c)) as [->|Hn].
    + right. split; [by left|]. exists (map shape (ops s)), []. split_and!; [done|by apply H6|]. intros x Hy. by apply elem_of_nil in Hy.
    + assert (c' ∉ map fst (clients s)) as Hx' by (intros Hy; apply Hx, Ek; done). specialize (H7 c' Hx').
      apply ended_snoc; [by apply not_eq_sym|]. destruct H7 as [?|(? & ?)]; [by left|right]. split; [by right|done].
  - simpl. intros c' [->|Hx]%elem_of_cons; [apply H5; by left|by apply H8].
  - intros c'. specialize (C c'). simpl. rewrite waiting_snoc, C, dget_look. simpl. destruct (decide (c' = c)) as [->|Hn].
    + rewrite Hc. rewrite dget_ddel. done.
    + rewrite dget_ddel_ne by done. destruct (dget c' (clients s)); simpl; [rewrite in_call_look; lia|lia].
Qed.

Lemma serve_kept e s : Served s /\ Calls s -> Served (serve s e) /\ Calls (serve s e).
Proof.
  intros [H C]. destruct e as [c|c line|c|c|c| |i]; simpl.
  - split; [by apply served_accept|by apply calls_accept].
  - unfold read_line. destruct (dget c (clients s)) as [[|rid p|rid]|] eqn:Hc; try done.
    pose proof (conj (tame_line c line) (within_line c line) : fit c (handle_line c line).2) as Ht. destruct (handle_line c line) as [rid p]. split.
    + by apply Served_set, Served_log.
    + by apply (Calls_set c (Running rid p) Idle).
  - by apply served_hang_up.
  - unfold advance. destruct (dget c (clients s)) as [[|rid p|rid]|] eqn:Hc; try done.
    pose proof (client_fit s c rid p H Hc) as [Ht Hw]. destruct p as [r|X tm m k|X m k|X t read seen k|X f k]; simpl in Ht, Hw.
    + split; [by apply Served_set, Served_log|by apply (Calls_set c Idle (Running rid (Done r)))].
    + split; [by apply (served_enqueue c rid tm m k)|by apply (calls_enqueue c rid tm m k)].
    + destruct Ht as [Hm Hk]. specialize (Hm (rt s)). destruct (m (rt s)) as [r w]. simpl in Hm. subst w. split.
      * apply Served_set; [by split|]. by apply Served_acts.
      * eapply Calls_set; [simpl; rewrite dget_look, Hc; done|done|]. by apply Calls_acts.
    + destruct Hw as (n & [Hn _] & Hw). split; [|by eapply Calls_set]. apply Served_set; [|done]. split; [apply Ht|].
      eapply within_mono; [apply Hw|lia].
    + split; [apply Served_set; [by split|by apply Served_questions]|]. by apply (Calls_set c (Running rid (k (f (questions s)))) (Running rid (Outside f k))).
  - split; [by apply served_stop_waiting|by apply calls_stop_waiting].
  - by apply served_take.
  - destruct (internal i) eqn:Ei; [|done]. split; [|by apply Calls_acts]. apply Served_acts; [|done]. apply closed_after. by destruct i.
Qed.

(** ** What the runtime sees of it *)

(** The inputs that carry a session's name carry one this service gave out. *)
Definition named (l : list string) (i : input) : Prop :=
  match i with Client c _ | CloseSession c | OwnerLost c => c ∈ l | _ => True end.
Lemma named_mono l l' i : l ⊆ l' -> named l i -> named l' i.
Proof. intros Hl. destruct i; simpl; try done; apply Hl. Qed.
Lemma issued_grows s e : issued s ⊆ issued (serve s e).
Proof.
  destruct e as [c|c line|c|c|c| |i]; simpl; [|unfold read_line|unfold hang_up|unfold advance|unfold stop_waiting|unfold take_op|].
  all: try (repeat case_match; simplify_eq; done).
  unfold accept. case_bool_decide; [done|]. destruct (_ <=? _)%nat; simpl; set_solver.
Qed.

Definition simulated (s s' : service) : Prop := exists l, rt s' = run_steps react (rt s) l /\ Forall (named (issued s')) l.
Lemma still s s' : rt s' = rt s -> simulated s s'.
Proof. exists []. by split. Qed.
Lemma by_operation c {X} (m : RuntimeM X) s s' : acts_for c m -> c ∈ issued s' -> rt s' = (m (rt s)).2 -> simulated s s'.
Proof.
  intros Hm Hc E. destruct (Hm (rt s)) as [E'|(i & E' & Hi)]; [apply still; congruence|]. exists [i]. split; [by rewrite E, E'|].
  apply Forall_singleton. by destruct Hi as [->|[op ->]].
Qed.

Lemma serve_simulated s e : Served s -> simulated s (serve s e).
Proof.
  intros H. destruct e as [c|c line|c|c|c| |i]; simpl.
  - apply still. unfold accept. case_bool_decide; [done|]. by destruct (_ <=? _)%nat.
  - apply still. unfold read_line. destruct (dget c (clients s)) as [[]|]; try done. by destruct (handle_line c line).
  - unfold hang_up. destruct (dget c (clients s)) as [[]|] eqn:Hc; try by apply still. exists [CloseSession c]. split; [done|].
    apply Forall_singleton. apply (sv_issued s H). left. by eapply client_key.
  - unfold advance. destruct (dget c (clients s)) as [[|rid p|rid]|] eqn:Hc; try by apply still.
    pose proof (client_fit s c rid p H Hc) as [Ht _]. destruct p as [r|X tm m k|X m k|X t read seen k|X f k]; try by apply still.
    apply still. destruct Ht as [Hm _]. specialize (Hm (rt s)). destruct (m (rt s)) as [r w]. exact Hm.
  - apply still. unfold stop_waiting. destruct (dget c (clients s)) as [[]|]; try done. by destruct (abandon_call c (ops s)) as [[]|].
  - unfold take_op. pose proof (sv_tickets s H) as Ht. pose proof (sv_issued s H) as Hi. unfold queue in Hi.
    destruct (ops s) as [|[X c m k|c] l] eqn:E; [by apply still| |].
    + apply Forall_cons in Ht as [[Hm _] _]. apply (by_operation c m); [done| |].
      * destruct (m (rt s)) as [r w]. assert (c ∈ issued s) as Hc by (apply Hi; right; left). by repeat case_match.
      * destruct (m (rt s)) as [r w]. by repeat case_match.
    + exists [OwnerLost c]. split; [done|]. apply Forall_singleton. apply Hi. right. left.
  - destruct (internal i) eqn:Ei; [|by apply still]. exists [i]. split; [done|]. apply Forall_singleton. by destruct i.
Qed.

Lemma opened_inv w : closed_sessions (obj w) = [] -> Served (opened w) /\ Calls (opened w).
Proof.
  intros E. split; [|done]. split; simpl; rewrite ?E; try done; try (by apply NoDup_nil); try (unfold MAX_CLIENTS; lia).
  all: intros c; try (intros [H|H]; by apply elem_of_nil in H); try (intros H; by apply elem_of_nil in H).
  intros _. left. intros x Hx. by apply elem_of_nil in Hx.
Qed.
Lemma keep_start b t m : steps (kept (O:=effect) standing) (RuntimeLoop.start b t m).
Proof.
  unfold RuntimeLoop.start. destruct b; [|destruct t; [apply keep_controller|apply steps_ret; typeclasses eauto]].
  apply steps_bind; [typeclasses eauto|by intros w|]. intros _. apply keep_controller.
Qed.
Lemma booted_fresh b t m : closed_sessions (obj (booted b t m)) = [].
Proof. exact (f_equal snd (keep_start b t m {| obj := RobotRuntime_new; out := []; asked := 0 |})). Qed.

Abbreviation run b t m l := (run_steps serve (opened (booted b t m)) l).
Lemma run_inv b t m l : Served (run b t m l) /\ Calls (run b t m l).
Proof. apply (run_steps_inv serve (fun s => Served s /\ Calls s)); [intros s e; apply serve_kept|]. apply opened_inv, booted_fresh. Qed.
Lemma simulated_trans s s1 s2 : issued s1 ⊆ issued s2 -> simulated s s1 -> simulated s1 s2 -> simulated s s2.
Proof.
  intros Hi (l1 & E1 & F1) (l2 & E2 & F2). exists (l1 ++ l2). split; [by rewrite run_steps_app, E2, E1|].
  apply Forall_app. split; [|done]. eapply Forall_impl; [exact F1|]. intros i. by apply named_mono.
Qed.
Lemma run_simulated l s : Served s /\ Calls s -> simulated s (run_steps serve s l).
Proof.
  induction l as [|e l IH] using rev_ind; intros H; [by apply still|]. rewrite run_steps_app.
  eapply simulated_trans; [apply issued_grows|by apply IH|]. apply serve_simulated.
  apply (run_steps_inv serve (fun s => Served s /\ Calls s)); [intros; by apply serve_kept|done].
Qed.
End Service.
