(* ===== verification/ServiceRuns.v ===== *)
(** The service's promises over every run ([ServiceSafety] has the invariant): it
    refines the runtime, an ended session is mute, each line is answered once and
    in order, the connections and the waits are bounded. *)
From Stdlib Require Import SpecFloat PrimFloat FloatOps.
From S2P Require Import Prelude Floats Motion Contract Stream RtProtocol Effects Executor Controller ControllerDemo Horizon HorizonPending Runtime RuntimeClients RuntimeNative RuntimeLoop RuntimeDemo RuntimeRuns RuntimeSessions Json Codec Service ServiceFacts ServiceSafety.

Section Runs.
Context {cfg : Config} {ccfg : Controller.Config} {env : Runtime.Env} {henv : Horizon.Env} {senv : Env}.
Abbreviation run b t m l := (run_steps serve (opened (booted b t m)) l).

(** C2: the service refines the runtime: whatever its connections ask, queue, abandon
    and close, in any interleaving with the loop and the runtime's threads, the
    runtime it serves is one that the runtime's own inputs reach, and every input
    made in a session's name is one of a session this service gave out.  What
    holds of every run of the runtime holds of every run of the service. *)
Theorem service_refines_the_runtime b t m l :
  exists l', rt (run b t m l) = run_steps react (booted b t m) l' /\ Forall (named (issued (run b t m l))) l'.
Proof. apply (run_simulated l (opened (booted b t m))), opened_inv, booted_fresh. Qed.

(** ** Ended sessions *)

Lemma dead_operation w c {X} (m : RuntimeM X) : acts_for c m -> c ∈ closed_sessions (obj w) ->
  (m w).2 = w \/ (m w).2 = react w GroupCancelDone.
Proof.
  intros Hm Hc. destruct (Hm w) as [->|(i & -> & [->|[op ->]])]; [by left|by right|left].
  assert (op = Claim \/ op <> Claim) as [->|Hop] by (destruct op; eauto; right; discriminate).
  - destruct (claim_owner c w) as [H|[H _]]; [exact H|done].
  - destruct (stranger_refused c op w Hop (or_introl Hc)) as [e He]. unfold react. by rewrite He.
Qed.
Lemma take_world s c {X} (m : RuntimeM X) k q : ops s = Operation c m k :: q -> rt (take_op s) = (m (rt s)).2.
Proof. intros E. unfold take_op. rewrite E. destruct (m (rt s)) as [r w]. by repeat case_match. Qed.

Lemma clients_grow s e c : c ∈ map fst (clients (serve s e)) -> c ∈ map fst (clients s) \/ c ∉ issued s.
Proof.
  destruct e as [c'|c' line|c'|c'|c'| |i]; simpl.
  - unfold accept. case_bool_decide as Hi; [by left|]. destruct (_ <=? _)%nat; simpl; [by left|].
    rewrite map_app, elem_of_app. simpl. rewrite list_elem_of_singleton. intros [?| ->]; [by left|by right].
  - unfold read_line. destruct (dget c' (clients s)) as [[]|]; try (by left). destruct (handle_line c' line). simpl. rewrite dupd_keys. by left.
  - unfold hang_up. destruct (dget c' (clients s)) as [[]|]; try (by left). simpl. rewrite keys_look, !list_elem_of_fmap.
    intros (x & -> & Hx%ddel_in). left. by exists x.
  - unfold advance. destruct (dget c' (clients s)) as [[|rid p|]|]; try (by left). destruct p; simpl; rewrite ?dupd_keys; try (by left).
    destruct (m (rt s)). simpl. rewrite dupd_keys, keys_look. by left.
  - unfold stop_waiting. destruct (dget c' (clients s)) as [[]|]; try (by left). destruct (abandon_call c' (ops s)) as [[]|]; [|by left].
    simpl. rewrite dupd_keys. by left.
  - unfold take_op. destruct (ops s) as [|[X c1 m k|c1] q]; [by left| |simpl; rewrite keys_look; by left].
    destruct (m (rt s)) as [r w]. repeat case_match; simpl; rewrite ?dupd_keys, keys_look; by left.
  - destruct (internal i); simpl; [rewrite keys_look|]; by left.
Qed.
Lemma ended_stays s l c : c ∈ issued s -> c ∉ map fst (clients s) -> c ∉ map fst (clients (run_steps serve s l)).
Proof.
  revert s. induction l as [|e l IH]; intros s Hi Hc; [done|]. apply (IH (serve s e)); [by apply issued_grows|].
  intros [?|?]%clients_grow; done.
Qed.

(** C4: an ended session is mute: once its connection is gone, whatever it left in the
    queue of the loop changes nothing when its turn comes (but for the end of a
    group cancel that was under way), its owner entry is the last that names it,
    and the session never comes back. *)
Theorem ended_sessions_are_mute b t m l c : let s := run b t m l in
  c ∈ issued s -> c ∉ map fst (clients s) ->
  match ops s with
  | Operation c' op _ :: _ => c' = c -> rt (take_op s) = rt s \/ rt (take_op s) = react (rt s) GroupCancelDone
  | OwnerGone c' :: q => c' = c -> c ∉ map fst (map shape q)
  | [] => True
  end /\ forall l', c ∉ map fst (clients (run b t m (l ++ l'))).
Proof.
  intros s Hi Hc. subst s. destruct (run_inv b t m l) as [H _]. split; [|intros l'; rewrite run_steps_app; by apply ended_stays].
  pose proof (sv_ended _ H c Hc) as Hq. pose proof (sv_tickets _ H) as Ht. unfold queue in Hq.
  destruct (ops (run b t m l)) as [|[X c' op k|c'] q] eqn:E; [done|intros ->..].
  - apply Forall_cons in Ht as [[Hm _] _]. rewrite (take_world _ _ _ _ _ E). apply dead_operation with (c := c); [done|].
    destruct Hq as [Hq|[Hq _]]; [|done]. by destruct (Hq (c, false) (list_elem_of_here _ _)).
  - simpl in Hq. intros (x & -> & Hx)%list_elem_of_fmap. by apply (ended_gone _ _ _ Hq x Hx).
Qed.

(** ** Replies *)

Definition asks (c : string) (l : list (string * said)) : list json :=
  omap (fun x => match x.2 with Asked rid => if bool_decide (x.1 = c) then Some rid else None | _ => None end) l.
Definition answers (c : string) (l : list (string * said)) : list json :=
  omap (fun x => match x.2 with Replied rid _ => if bool_decide (x.1 = c) then Some rid else None | _ => None end) l.
Definition pending (c : string) (s : service) : list json :=
  match dget c (clients s) with Some (Running rid _) | Some (InCall rid) => [rid] | _ => [] end.
Definition answered (s : service) : Prop := forall c, asks c (log s) = pending c s ++ answers c (log s).

Lemma pending_acts w s c : pending c (acts w s) = pending c s.
Proof. unfold pending. simpl. rewrite dget_look. by destruct (dget c (clients s)) as [[]|]. Qed.
(** A step that leaves the log and who has a request in hand. *)
Lemma answered_same s s' : log s' = log s -> (forall c, pending c s' = pending c s) -> answered s -> answered s'.
Proof. intros El Ep H c. by rewrite El, Ep. Qed.
Lemma same_request_in_hand c a a' s s1 : clients s1 = clients s -> dget c (clients s) = Some a' ->
  match a, a' with Idle, Idle => True | (Running r _ | InCall r), (Running r' _ | InCall r') => r = r' | _, _ => False end ->
  forall c', pending c' (set_client c a s1) = pending c' s.
Proof.
  intros Es Hc Ha c'. unfold pending. simpl. rewrite Es. destruct (decide (c' = c)) as [->|Hn]; [|by rewrite dget_dupd_ne].
  rewrite dget_dupd, Hc. simpl.
  destruct a, a'; try done; by subst.
Qed.

Lemma serve_answered s e : answered s -> answered (serve s e).
Proof.
  intros H. destruct e as [c|c line|c|c|c| |i]; simpl.
  - unfold accept. case_bool_decide; [done|]. destruct (_ <=? _)%nat; eapply answered_same; try exact H; try done.
    intros c'. unfold pending. simpl. rewrite dget_snoc. destruct (dget c' (clients s)) as [[]|]; try done. by case_bool_decide.
  - unfold read_line. destruct (dget c (clients s)) as [[]|] eqn:Hc; try done. destruct (handle_line c line) as [rid p].
    intros c'. specialize (H c'). simpl. unfold pending in *. simpl. destruct (decide (c' = c)) as [->|Hn].
    + rewrite dget_dupd, Hc. rewrite Hc in H. simpl in *. rewrite bool_decide_eq_true_2 by done. by rewrite H.
    + rewrite dget_dupd_ne by done. rewrite bool_decide_eq_false_2 by congruence. exact H.
  - unfold hang_up. destruct (dget c (clients s)) as [[]|] eqn:Hc; try done. eapply answered_same; [| |exact H]; [done|].
    intros c'. rewrite pending_acts. unfold pending. simpl. destruct (decide (c' = c)) as [->|Hn]; [by rewrite dget_ddel, Hc|by rewrite dget_ddel_ne].
  - unfold advance. destruct (dget c (clients s)) as [[|rid p|rid]|] eqn:Hc; try done. destruct p as [r|X tm m k|X m k|X t read seen k|X f k].
    + intros c'. specialize (H c'). simpl. unfold pending in *. simpl. destruct (decide (c' = c)) as [->|Hn].
      * rewrite dget_dupd, Hc. rewrite Hc in H. simpl in *. by rewrite bool_decide_eq_true_2.
      * rewrite dget_dupd_ne by done. rewrite bool_decide_eq_false_2 by congruence. exact H.
    + eapply answered_same; [| |exact H]; [done|]. by eapply (same_request_in_hand c (InCall rid) _ s).
    + destruct (m (rt s)) as [r w]. eapply answered_same; [| |exact H]; [done|]. intros c'. rewrite <-(pending_acts w s).
      eapply (same_request_in_hand c (Running rid (k r)) _ (acts w s)); [done|simpl; by rewrite dget_look, Hc|done].
    + eapply answered_same; [| |exact H]; [done|]. by eapply (same_request_in_hand c (Running rid (k seen)) _ s).
    + eapply answered_same; [| |exact H]; [done|]. by eapply (same_request_in_hand c (Running rid _) _ s).
  - unfold stop_waiting. destruct (dget c (clients s)) as [[|rid p|rid]|] eqn:Hc; try done.
    destruct (abandon_call c (ops s)) as [[p l]|]; [|done]. eapply answered_same; [| |exact H]; [done|].
    by eapply (same_request_in_hand c (Running rid p) _ s).
  - unfold take_op. destruct (ops s) as [|[X c m k|c] q]; [done| |eapply answered_same; [| |exact H]; [done|]; intros c'; by rewrite pending_acts].
    destruct (m (rt s)) as [r w]. set (s1 := acts w _). assert (answered s1) as H1.
    { eapply answered_same; [| |exact H]; [done|]. intros c'. subst s1. by rewrite pending_acts. }
    destruct k as [k|]; [|by repeat case_match]. destruct (dget c (clients s1)) as [[|rid p|rid]|] eqn:Hc; try done.
    eapply answered_same; [| |exact H1]; [done|]. by eapply (same_request_in_hand c (Running rid (k r)) _ s1).
  - destruct (internal i); [|done]. eapply answered_same; [| |exact H]; [done|]. intros c'. apply pending_acts.
Qed.

(** C5: one reply per line, and its own: on every connection the replies sent are, in
    order, the answers to the lines read, each under the id of its line; at most the
    last line is still unanswered, and then its request is in hand; and the loop's
    queue holds exactly one operation for each caller that waits on one. *)
Theorem every_line_is_answered_in_order b t m l c : let s := run b t m l in
  asks c (log s) = pending c s ++ answers c (log s) /\ (length (pending c s) <= 1)%nat /\
  waiting c (ops s) = match dget c (clients s) with Some (InCall _) => 1%nat | _ => 0%nat end.
Proof.
  intros s. split_and!.
  - apply (run_steps_inv serve answered serve_answered l (opened (booted b t m))). by intros c'.
  - unfold pending. by repeat case_match; simpl; lia.
  - destruct (run_inv b t m l) as [_ C]. subst s. rewrite (C c). by destruct (dget c _) as [[]|].
Qed.

(** C36: the service is bounded: at most eight connections at a time, each under one
    session, and the waits on the runtime that a request makes, for its queued
    operations and for changes, add up to at most 2 s by their timers: 1 s for
    status and await_authority, whatever [wait_for_s] they name, NaN and infinities
    included; 6 s for a group join and 8 s for a group cancel are the exceptions.  So at every moment of a run what a connection's thread
    may still wait adds up to at most 8 s.  The exchanges with the RT and the waits
    for the runtime's lock have no timer here. *)
Theorem service_is_bounded b t m l : let s := run b t m l in
  (length (clients s) <= MAX_CLIENTS)%nat /\ NoDup (map fst (clients s)) /\
  (forall session op args, waits_within (dispatch session op args)
     (if String.eqb op "group_cancel" then 8 else if String.eqb op "group_join" then 6
      else if String.eqb op "status" || String.eqb op "await_authority" then 1 else 2)) /\
  (forall c rid p, dget c (clients s) = Some (Running rid p) -> waits_within p 8) /\
  (forall c X (o : RuntimeM X) k, Operation c o (Some k) ∈ ops s -> forall r, waits_within (k r) 8).
Proof.
  intros s. destruct (run_inv b t m l) as [H _]. split_and!; [apply H|apply H|exact within_dispatch| |].
  - intros c rid p Hc. apply (client_fit _ _ _ _ H Hc).
  - intros c X o k Hin r. pose proof (proj1 (Forall_forall _ _) (sv_tickets _ H) _ Hin) as [_ Hk]. apply Hk.
Qed.
End Runs.

(** ** Witnesses: connections to the supervisor of [Robot] *)

Module Front.
Import Robot HorizonDemo.
Definition request (op : string) (args : list (string * json)) : json :=
  JObj [("id", JInt 1); ("op", JStr op); ("args", JObj args)].
(** The lines of the demonstration stand for the requests they name. *)
Definition parse (line : string) : result json :=
  if String.eqb line "claim" then Ok (request "claim" [])
  else if String.eqb line "wait" then Ok (request "await_authority" [("gen", JInt 1); ("armed", JBool true); ("wait_for_s", JNum fnan)])
  else Err (ValueError "Expecting value").
#[export] Instance senv : Service.Env := {|
  loads := parse; history_kept := false; observing := false; scene_hosted := false; clock_domain_ := JNull;
  now_ns := fun k => Z.of_nat k; link_join := fun _ _ => Err KeyError; link_cancel := fun _ _ => Err KeyError;
  link_events := fun _ => []; report_json := fun _ => JNull; observer := fun _ _ _ => Err KeyError; body_list := fun _ => Err KeyError |}.
Definition waits : list event := [Accept "a"; Line "a" "wait"; Advance "a"].
(** A client that gives up on its claim and leaves, both still queued. *)
Definition leaves : list event := [Accept "a"; Line "a" "claim"; Advance "a"; GiveUp "a"; Advance "a"; HangUp "a"].
Abbreviation served l := (run_steps serve (opened (booted false None f0)) l).
Definition is_waiting (a : option activity) : bool := match a with Some (Running _ (Watch _ _ _ _)) => true | _ => false end.
Lemma waiting_now : is_waiting (dget "a" (clients (served waits))) = true.
Proof. vm_compute. reflexivity. Qed.
Lemma left_queue : map shape (ops (served leaves)) = [("a", false); ("a", true)] /\ issued (served leaves) = ["a"] /\ map fst (clients (served leaves)) = [].
Proof. split_and!; vm_compute; reflexivity. Qed.
End Front.
Import Robot HorizonDemo Front.

Example ended_sessions_are_mute_witness :
  match ops (served leaves) with
  | Operation c' op _ :: _ => c' = "a"%string -> rt (take_op (served leaves)) = rt (served leaves) \/
                              rt (take_op (served leaves)) = react (rt (served leaves)) GroupCancelDone
  | OwnerGone c' :: q => c' = "a"%string -> "a"%string ∉ map fst (map shape q)
  | [] => True
  end.
Proof.
  assert ("a"%string ∈ issued (served leaves)) as Hi by (rewrite (proj1 (proj2 left_queue)); by left).
  assert ("a"%string ∉ map fst (clients (served leaves))) as Hc.
  { rewrite (proj2 (proj2 left_queue)). intros H. by apply elem_of_nil in H. }
  pose proof (ended_sessions_are_mute false None f0 leaves "a" Hi Hc) as H. exact (proj1 H).
Defined.
Lemma service_is_bounded_witness : exists rid p, dget "a" (clients (served waits)) = Some (Running rid p) /\ waits_within p 8.
Proof.
  pose proof waiting_now as H. destruct (dget "a" (clients (served waits))) as [[|rid p|rid]|] eqn:E; try discriminate H.
  exists rid, p. split; [done|].
  exact (proj1 (proj2 (proj2 (proj2 (service_is_bounded false None f0 waits)))) "a"%string rid p E).
Defined.
