(* ===== verification/Sdk.v ===== *)
(** The application SDK, [arm_control/sdk.py]: the socket channel (one request, one
    reply, the connection dropped once its framing is in doubt) and the calls of
    [ArmClient] over it.

    A call is a computation on the channel; what the socket yields is an oracle
    indexed by the requests sent.  The waits are loops over the readings of the
    time left, one per poll. *)
From Stdlib Require Import SpecFloat PrimFloat FloatOps.
From S2P Require Import Prelude Floats Motion Contract Stream Effects Json Codec.

(** ** The channel *)

(** What the socket yields to a request: [sendall] or [readline] raised, the
    stream ended (or the line was oversize), or a line, as [json.loads] reads it. *)
Inductive answer := Lost | Ended | Text (r : result json).
Record channel := { live : bool; next_id : Z }.
#[export] Instance eta_channel : Eta channel := fun c => {| live := live c; next_id := next_id c |}.
Class Wire := wire : nat -> answer.

Section Channel.
Context {wire_ : Wire}.
Definition ChannelM : Type -> Type := M channel json.

Definition close : ChannelM unit := upd (fun c => c <| live := false |>).
(** The outcome is unknown to the caller: the channel is dropped. *)
Definition drop_with {A} (why : string) : ChannelM A := close ;~ throw (SupervisorError why).
Definition text_or_repr (j : json) : string := match j with JStr s => s | _ => "" end.
Definition request (rid : Z) (op : string) (args : list (string * json)) : json :=
  JObj [("id", JInt rid); ("op", JStr op); ("args", JObj args)].

(** [SocketChannel.call] *)
Definition call (op : string) (args : list (string * json)) : ChannelM json :=
  c <~ get ;;
  if negb (live c) then throw (SupervisorError "channel is closed") else
  let rid := next_id c in
  upd (fun c => c <| next_id := rid + 1 |>)%Z ;~
  say (request rid op args) ;~
  k <~ ask ;;
  match wire k with
  | Lost => drop_with "OSError"
  | Ended => drop_with "supervisor closed the connection"
  | Text r =>
      match msg <-- r ;; rep <-- field_get "id" msg ;; ok <-- field "ok" msg ;; Ok (msg, rep, ok) with
      | Err _ => drop_with "malformed reply; outcome unknown"
      | Ok (msg, rep, ok) =>
          if negb (match rep with JInt n => (n =? rid)%Z | _ => false end) then drop_with "reply out of order; outcome unknown" else
          match ok with
          | JBool true =>
              match field "result" msg with
              | Ok v => ret v
              | Err _ => drop_with "reply without a result; outcome unknown"
              end
          | JBool false =>
              kind <~ lift (field_get "kind" msg) ;;
              let why := match field "error" msg with Ok v => text_or_repr v | Err _ => "unspecified error"%string end in
              throw (match kind with
                     | JStr s => if String.eqb s "refused" then Refused why
                                 else if String.eqb s "timeout" then TimeoutError why else SupervisorError why
                     | _ => SupervisorError why
                     end)
          | _ => drop_with "malformed reply; outcome unknown"
          end
      end
  end.

(** ** Replies *)

(** [_dec] *)
Definition unreadable (e : exn) : bool :=
  match e with ValueError _ | IllegalTransition _ | KeyError | TypeError _ | AttributeError => true | _ => false end.
Definition dec {A} (from : json -> result A) (v : json) : result A :=
  match from v with
  | Err e => Err (if unreadable e then SupervisorError "unreadable reply; outcome unknown" else e)
  | r => r
  end.
(** [_items], [_mapping], [_mappings], [_need] *)
Definition items {A} (from : json -> result A) (v : json) : result (list A) :=
  match v with JArr l => rmap from l | _ => Err (ValueError "expected a list") end.
Definition mapping (v : json) : result (list (string * json)) :=
  match v with JObj kv => Ok kv | _ => Err (ValueError "expected an object") end.
Definition mappings (v : json) : result (list (list (string * json))) := l <-- items Ok v ;; rmap mapping l.
Definition need (keys : list string) (kv : list (string * json)) : result (list (string * json)) :=
  raise_if existsb (fun k => negb (has_key k kv)) keys of KeyError ;; Ok kv.
(** [type(v) is int] *)
Definition is_int (v : json) : bool := match v with JInt _ => true | _ => false end.
Definition counters (keys : list string) (kv : list (string * json)) : result unit :=
  raise_if existsb (fun k => negb (is_int (arg k kv))) keys of ValueError "is not an integer" ;; Ok tt.

(** [_history], [_trace], [_observation]: checked, and handed on as they are. *)
Definition history_from (v : json) : result (list (string * json)) :=
  kv <-- (m <-- mapping v ;; need ["clock_domain"; "now_ns"; "authority"; "samples"] m) ;;
  raise_if negb (match arg "clock_domain" kv with JNull | JStr _ => true | _ => false end)
    of ValueError "clock_domain is neither text nor null" ;;
  a <-- mapping (arg "authority" kv) ;;
  _ <-- need ["session_id"; "arm_epoch"] a ;;
  samples <-- mappings (arg "samples" kv) ;;
  _ <-- rall (fun s =>
          _ <-- need ["t_mono_ns"; "state_seq"; "age_ns"; "session_id"; "arm_epoch"; "stop_epoch"; "armed"; "faulted"; "q"; "dq"] s ;;
          raise_if negb (match arg "q" s, arg "dq" s with JArr _, JArr _ => true | _, _ => false end)
            of ValueError "sample joints are not lists" ;;
          Ok tt) samples ;;
  Ok kv.
Definition trace_from (v : json) : result (list (string * json)) :=
  kv <-- (m <-- mapping v ;; need ["samples"; "latest_seq"; "dropped"; "errors"; "capacity"] m) ;;
  _ <-- counters ["latest_seq"; "dropped"; "errors"; "capacity"] kv ;;
  samples <-- mappings (arg "samples" kv) ;;
  _ <-- rall (fun s => _ <-- need ["seq"; "pc_monotonic"; "plan_id"; "q_rt"] s ;; counters ["seq"] s) samples ;;
  Ok kv.
Definition observation_from (v : json) : result (list (string * json)) :=
  kv <-- (m <-- mapping v ;; need ["schema"; "samples"; "latest_seq"; "dropped"; "errors"; "capacity"; "rate_hz"] m) ;;
  raise_if negb (match arg "schema" kv with JStr s => String.eqb s "observe/1" | _ => false end)
    of ValueError "unexpected observation schema" ;;
  _ <-- counters ["latest_seq"; "dropped"; "errors"; "capacity"] kv ;;
  raise_if negb (match arg "rate_hz" kv with JInt _ | JNum _ => true | _ => false end) of ValueError "rate_hz is not a number" ;;
  samples <-- mappings (arg "samples" kv) ;;
  _ <-- rall (fun s => _ <-- need ["seq"; "sim_time_s"; "observed_ns"; "model_revision"; "actor_q"] s ;;
                       _ <-- counters ["seq"] s ;; _ <-- mapping (arg "actor_q" s) ;; Ok tt) samples ;;
  Ok kv.
Definition generation (v : json) : result Z :=
  g <-- field "gen" v ;; match g with JInt n => Ok n | _ => Err (ValueError "request generation is not an integer") end.
Definition settled_from (v : json) : result (option Authority) :=
  b <-- field "settled" v ;;
  match b with
  | JBool true => a <-- (a <-- field "authority" v ;; authority_from a) ;; Ok (Some a)
  | JBool false => Ok None
  | _ => Err (ValueError "settled is not a boolean")
  end.

(** ** [ArmClient] *)

Record client := {
  cl_identity : RobotIdentity;
  cl_capabilities : Capabilities;
  cl_session : json;
  cl_extensions : list (string * json);
}.

(** [x == 1] *)
Definition is_one (j : json) : bool :=
  match j with JInt n => (n =? 1)%Z | JBool b => b | JNum x => x =f f1 | _ => false end.
(** [dict(x or {})] of the extensions *)
Definition extensions_of (j : json) : result (list (string * json)) :=
  if negb (truth j) then Ok [] else match j with JObj kv => Ok kv | _ => Err (ValueError "not a mapping") end.
Definition read_hello (instance : string) (hello : json) : result client :=
  v <-- field "contract_version" hello ;;
  raise_if negb (match v with
                 | JInt n => (n =? CONTRACT_VERSION)%Z
                 | JNum x => x =f of_Z CONTRACT_VERSION
                 | JBool b => (Z.b2z b =? CONTRACT_VERSION)%Z
                 | _ => false
                 end)
    of SupervisorError "supervisor implements another contract version" ;;
  i <-- (v <-- field "identity" hello ;; dec identity_from v) ;;
  raise_if negb (String.eqb (instance_id i) instance) of SupervisorError "supervisor serves another robot" ;;
  c <-- (v <-- field "capabilities" hello ;; dec capabilities_from v) ;;
  s <-- field "session" hello ;;
  e <-- (v <-- field_get "extensions" hello ;; extensions_of v) ;;
  Ok {| cl_identity := i; cl_capabilities := c; cl_session := s; cl_extensions := e |}.
Definition handshake_error (e : exn) : bool := is_SupervisorError e || unreadable e.
(** [ArmClient.__init__]: a failed handshake closes the channel. *)
Definition connect (instance : string) : ChannelM client :=
  catch handshake_error (hello <~ call "hello" [] ;; lift (read_hello instance hello))
    (fun e => close ;~ throw (if is_SupervisorError e then e else SupervisorError "unreadable hello")).

Section Client.
Context (me : client).

Definition offers (name : string) : bool := is_one (arg name (cl_extensions me)).
(** A call of a negotiated extension. *)
Definition negotiated {A} (name : string) (m : ChannelM A) : ChannelM A :=
  if offers name then m else throw (Refused "supervisor does not advertise the extension").
Definition asks_for {A} (from : json -> result A) (op : string) (args : list (string * json)) : ChannelM A :=
  v <~ call op args ;; lift (dec from v).
Definition with_str (k : string) (s : string) : list (string * json) := [(k, JStr s)].

Definition now : ChannelM (option Stamp) := asks_for stamp_from "now" [].
(** [Stamp(now.ns + int(seconds * 1e9), Clock.PC, now.domain)], of the reply of [now] *)
Definition deadline_of (t : option Stamp) (seconds : float) : result Stamp :=
  match t with
  | None => Err AttributeError
  | Some t => n <-- py_int (seconds *f e9) ;; Stamp_new (ns t + n) PC (domain t)
  end.
Definition deadline (seconds : float) : ChannelM Stamp := t <~ now ;; lift (deadline_of t seconds).
Definition state : ChannelM RobotState := asks_for state_from "state" [].
Definition authority : ChannelM Authority := asks_for authority_from "authority" [].
Definition claim : ChannelM Authority := asks_for authority_from "claim" [].
Definition unclaim : ChannelM Authority := asks_for authority_from "unclaim" [].

Definition WAIT_SLICE_S : float := Eval vm_compute in Prim2SF 0.25%float.
(** [min(WAIT_SLICE_S, max(left, 0.0))] *)
Definition slice (rest : float) : json := JNum (py_min WAIT_SLICE_S (py_max rest f0)).
(** [_await_authority]: one poll per reading of the time left; [None]: the readings ran out. *)
Fixpoint await_authority (gen : Z) (armed : bool) (rests : list float) : ChannelM (option Authority) :=
  match rests with
  | [] => ret None
  | rest :: rests =>
      a <~ asks_for settled_from "await_authority" [("gen", JInt gen); ("armed", JBool armed); ("wait_for_s", slice rest)] ;;
      match a with
      | Some a => ret (Some a)
      | None => if rest <=f f0 then throw (TimeoutError "not confirmed; check authority()") else await_authority gen armed rests
      end
  end.
Definition arm (rests : list float) : ChannelM (option Authority) :=
  g <~ asks_for generation "arm" [] ;; await_authority g true rests.
Definition disarm (rests : list float) : ChannelM (option Authority) :=
  g <~ asks_for generation "disarm" [] ;; await_authority g false rests.

Definition execute (r : TrajectoryRequest) : ChannelM ExecutionStatus := asks_for status_from "submit" [("request", encode r)].
Definition release (eid : string) (start_at : option Stamp) : ChannelM ExecutionStatus :=
  match start_at with
  | None => asks_for status_from "release" [("execution_id", JStr eid)]
  | Some at_ => negotiated "scheduled_release" (asks_for status_from "release" [("execution_id", JStr eid); ("start_at", encode at_)])
  end.
Definition status (eid : string) : ChannelM ExecutionStatus := asks_for status_from "status" [("execution_id", JStr eid)].
Fixpoint wait (eid : string) (rests : list float) : ChannelM (option ExecutionStatus) :=
  match rests with
  | [] => ret None
  | rest :: rests =>
      st <~ asks_for status_from "status" [("execution_id", JStr eid); ("wait_for_s", slice rest)] ;;
      if status_terminal st then ret (Some st)
      else if rest <=f f0 then throw (TimeoutError "still running") else wait eid rests
  end.
Definition cancel (eid why : string) (rests : list float) : ChannelM (option ExecutionStatus) :=
  _ <~ call "cancel" [("execution_id", JStr eid); ("reason", JStr why)] ;; wait eid rests.
Definition receipts (eid : string) : ChannelM (list Receipt) := asks_for (items receipt_from) "receipts" [("execution_id", JStr eid)].
Definition setpoint (q : vec) : ChannelM float :=
  negotiated "setpoint"
    (asks_for (fun r => kv <-- mapping r ;; kv <-- need ["timeout_s"] kv ;; to_float (arg "timeout_s" kv)) "setpoint" [("q", encode q)]).

Definition controller_presets : ChannelM (list ControllerPreset) :=
  negotiated "controller" (asks_for (items preset_from) "controller_presets" []).
Definition controller_state : ChannelM ControllerState := negotiated "controller" (asks_for controller_state_from "controller_state" []).
Definition select_control_preset (id : string) : ChannelM ControllerState :=
  negotiated "controller" (asks_for controller_state_from "controller_select" [("preset_id", JStr id)]).
Definition hold (why : string) : ChannelM ControllerState :=
  negotiated "controller" (asks_for controller_state_from "controller_hold" [("reason", JStr why)]).
Definition set_payload (p : PayloadValue) : ChannelM PayloadState :=
  negotiated "controller" (asks_for payload_state_from "controller_payload" [("payload", encode p)]).
(** Not through [_dec]: [int] of whatever came back. *)
Definition set_load_model (revision : Z) (model : json) : ChannelM Z :=
  negotiated "load_model" (v <~ call "load_model_set" [("revision", JInt revision); ("model", model)] ;; lift (to_int v)).
Definition scene_claim : ChannelM bool := negotiated "scene_action" (v <~ call "scene_claim" [] ;; ret (truth v)).
Definition scene_apply (rid : string) (revision : Z) (st : json) : ChannelM json :=
  negotiated "scene_action" (call "scene_apply" [("request_id", JStr rid); ("revision", JInt revision); ("state", st)]).

Definition open_stream (o : StreamOpen) : ChannelM StreamView :=
  negotiated "stream" (asks_for stream_view_from "stream_open" [("request", encode o)]).
Definition stream_state (eid : string) : ChannelM StreamView :=
  negotiated "stream" (asks_for stream_view_from "stream_state" [("execution_id", JStr eid)]).
Definition stream_anchor (eid : string) : ChannelM (option SpliceAnchor) :=
  negotiated "stream" (asks_for anchor_from "stream_anchor" [("execution_id", JStr eid)]).
Definition revise_stream (r : StreamRevision) : ChannelM RevisionStatus :=
  negotiated "stream" (asks_for revision_status_from "stream_revise" [("request", encode r)]).
Definition stream_revision (eid rid : string) : ChannelM RevisionStatus :=
  negotiated "stream" (asks_for revision_status_from "stream_revision" [("execution_id", JStr eid); ("request_id", JStr rid)]).
Definition abort_stream_revision (eid rid : string) : ChannelM RevisionStatus :=
  negotiated "stream" (asks_for revision_status_from "stream_abort" [("execution_id", JStr eid); ("request_id", JStr rid)]).

Definition group_join (g m n : Z) : ChannelM (list (string * json)) :=
  negotiated "group" (asks_for mapping "group_join" [("group_id", JInt g); ("member_index", JInt m); ("member_count", JInt n)]).
Definition group_release (eid : string) (g budget : Z) : ChannelM ExecutionStatus :=
  negotiated "group" (asks_for status_from "group_release" [("execution_id", JStr eid); ("group_id", JInt g); ("budget_ns", JInt budget)]).
Definition group_report (eid : string) : ChannelM (list (string * json)) :=
  negotiated "group" (asks_for mapping "group_report" [("execution_id", JStr eid)]).
Definition group_cancel (g : Z) : ChannelM (list (string * json)) := negotiated "group" (asks_for mapping "group_cancel" [("group_id", JInt g)]).
Definition group_events : ChannelM (list (list (string * json))) := negotiated "group" (asks_for mappings "group_events" []).

Definition trace_samples (after : Z) : ChannelM (list (string * json)) :=
  negotiated "trace" (asks_for trace_from "trace_samples" [("after", JInt after)]).
Definition observe (after limit : Z) : ChannelM (list (string * json)) :=
  negotiated "observe" (asks_for observation_from "observe" [("after", JInt after); ("limit", JInt limit)]).
Definition state_history : ChannelM (list (string * json)) := negotiated "state_history" (asks_for history_from "state_history" []).
End Client.
End Channel.
