(* ===== verification/SdkSafety.v ===== *)
(** What a caller of the SDK can rely on: which exceptions its calls raise, what a
    reply must have said for a value or a refusal to come back, that a channel in
    doubt is never used again, and that a call through the channel and the service
    is the operation of the runtime. *)
From Stdlib Require Import SpecFloat PrimFloat FloatOps.
From S2P Require Import Prelude Floats Motion Contract Stream Effects Json Codec CodecFacts Sdk.

(** ** The exceptions of a decoder *)

Definition decode_error (e : exn) : bool := unreadable e || match e with OverflowError => true | _ => false end.
Definition raises {A} (r : result A) : Prop := forall e, r = Err e -> decode_error e = true.
Lemma raises_ok {A} (a : A) : raises (Ok a).
Proof. done. Qed.
Lemma raises_err {A} e : decode_error e = true -> raises (A:=A) (Err e).
Proof. by intros H e' [= <-]. Qed.
Lemma raises_bind {A B} (m : result A) (k : A -> result B) : raises m -> (forall a, raises (k a)) -> raises (rbind m k).
Proof. intros Hm Hk e. destruct m as [a|e']; simpl; [apply Hk|]. intros [= <-]. by apply Hm. Qed.
Lemma raises_rmap {A B} (f : A -> result B) l : (forall a, raises (f a)) -> raises (rmap f l).
Proof. intros Hf. induction l as [|a l IH]; simpl; [done|]. apply raises_bind; [done|]. intros b. by apply raises_bind. Qed.
Lemma raises_rall {A} (f : A -> result unit) l : (forall a, raises (f a)) -> raises (rall f l).
Proof. intros Hf. induction l as [|a l IH]; simpl; [done|]. by apply raises_bind. Qed.

Create HintDb raises.
(** Walks a decoder down to its leaves. *)
Ltac head_def t := lazymatch t with ?f _ => head_def f | _ => t end.
Ltac raising :=
  repeat first
    [ progress intros
    | solve [eauto 2 with raises nocore]
    | apply raises_ok
    | apply raises_err; reflexivity
    | apply raises_bind
    | apply raises_rmap
    | apply raises_rall
    | match goal with
      | |- raises (if ?b then _ else _) => destruct b
      | |- raises (match ?x with _ => _ end) => destruct x
      end
    | progress cbv zeta
    | match goal with |- raises ?m => let h := head_def m in unfold h end ].

Lemma raises_array : forall j, raises (np_array j).
Proof.
  fix IH 1. intros j. destruct j as [|b|n|x|s|l|kv]; [clear IH; simpl; by raising..| |clear IH; simpl; by raising].
  rewrite np_list. apply raises_bind; [|clear; raising].
  induction l as [|j l IHl]; simpl; [by apply raises_ok|]. apply raises_bind; [apply IH|]. clear IH. raising.
Qed.
#[export] Hint Resolve raises_array : raises.
Lemma raises_opt {A} (f : json -> result A) j : (forall j, raises (f j)) -> raises (opt f j).
Proof. intros H. unfold opt. destruct j; try (apply raises_bind; [apply H|by intros]). done. Qed.
Lemma raises_tuple {A} (f : json -> result A) j : (forall j, raises (f j)) -> raises (tuple_of f j).
Proof. intros H. destruct j; simpl; try (by apply raises_err). by apply raises_rmap. Qed.
Lemma raises_items {A} (f : json -> result A) j : (forall j, raises (f j)) -> raises (items f j).
Proof. intros H. destruct j; simpl; try (by apply raises_err). by apply raises_rmap. Qed.
Lemma raises_member {A} `{Enumeration A} j : raises (member (A:=A) j).
Proof. raising. Qed.
#[export] Hint Resolve raises_member : raises.
Lemma raises_stamp j : raises (stamp_of j).
Proof. raising. Qed.
#[export] Hint Resolve raises_stamp : raises.
Lemma raises_stamp_from j : raises (stamp_from j).
Proof. apply raises_opt, raises_stamp. Qed.
Lemma raises_vector v n : raises (vector v n).
Proof. raising. Qed.
Lemma raises_opt_str j : raises (opt as_str j).
Proof. apply raises_opt. raising. Qed.
Lemma raises_opt_int j : raises (opt as_int j).
Proof. apply raises_opt. raising. Qed.
Lemma raises_opt_bool j : raises (opt as_bool j).
Proof. apply raises_opt. raising. Qed.
Lemma raises_opt_num j : raises (opt as_num j).
Proof. apply raises_opt. raising. Qed.
Lemma raises_opt_vec j : raises (opt np_ravel j).
Proof. apply raises_opt. raising. Qed.
Lemma raises_strs j : raises (tuple_of as_str j).
Proof. apply raises_tuple. raising. Qed.
Lemma raises_floats j : raises (tuple_of to_float j).
Proof. apply raises_tuple. raising. Qed.
Lemma raises_nums j : raises (tuple_of as_num j).
Proof. apply raises_tuple. raising. Qed.
#[export] Hint Resolve raises_stamp_from raises_vector raises_opt_str raises_opt_int raises_opt_bool raises_opt_num raises_opt_vec
  raises_strs raises_floats raises_nums : raises.
Lemma raises_kwargs a b j : raises (kwargs a b j).
Proof. raising. Qed.
#[export] Hint Resolve raises_kwargs : raises.
Lemma raises_identity j : raises (identity_from j).
Proof. raising. Qed.
Lemma raises_capabilities j : raises (capabilities_from j).
Proof. raising. Qed.
Lemma raises_state j : raises (state_from j).
Proof. raising. Qed.
Lemma raises_fault j : raises (opt fault_of j).
Proof. apply raises_opt. raising. Qed.
#[export] Hint Resolve raises_fault : raises.
Lemma raises_authority j : raises (authority_from j).
Proof. raising. Qed.
Lemma raises_reached j : raises (reached_from j).
Proof. raising. Qed.
#[export] Hint Resolve raises_reached raises_authority : raises.
Lemma raises_status j : raises (status_from j).
Proof. raising. Qed.
Lemma raises_receipt j : raises (receipt_from j).
Proof. raising. Qed.
Lemma raises_anchor j : raises (anchor_from j).
Proof. apply raises_opt. raising. Qed.
#[export] Hint Resolve raises_anchor raises_status raises_receipt : raises.
Lemma raises_view j : raises (stream_view_from j).
Proof. raising. Qed.
Lemma raises_revision j : raises (revision_status_from j).
Proof. raising. Qed.
Lemma raises_payload j : raises (payload_from j).
Proof. raising. Qed.
#[export] Hint Resolve raises_payload : raises.
Lemma raises_payload_state j : raises (payload_state_from j).
Proof. raising. Qed.
#[export] Hint Resolve raises_payload_state : raises.
Lemma raises_controller_state j : raises (controller_state_from j).
Proof. raising. Qed.
Lemma raises_preset j : raises (preset_from j).
Proof. raising. Qed.
Lemma raises_mapping j : raises (mapping j).
Proof. raising. Qed.
Lemma raises_mappings j : raises (mappings j).
Proof. unfold mappings. apply raises_bind; [apply raises_items; raising|]. intros l. apply raises_rmap, raises_mapping. Qed.
#[export] Hint Resolve raises_mapping raises_mappings : raises.
Lemma raises_history j : raises (history_from j).
Proof. raising. Qed.
Lemma raises_trace j : raises (trace_from j).
Proof. raising. Qed.
Lemma raises_observation j : raises (observation_from j).
Proof. raising. Qed.
Lemma raises_settled j : raises (settled_from j).
Proof. raising. Qed.
Lemma raises_generation j : raises (generation j).
Proof. raising. Qed.
#[export] Hint Resolve raises_identity raises_capabilities raises_state raises_view raises_revision raises_controller_state raises_preset
  raises_history raises_trace raises_observation raises_settled raises_generation : raises.

(** ** The exceptions of a call *)

(** The SDK's own exceptions, a [TimeoutError], and the one that [_dec] lets through. *)
Definition sdk_error (e : exn) : Prop := match e with SupervisorError _ | Refused _ | TimeoutError _ | OverflowError => True | _ => False end.

Section Calls.
Context {wire_ : Wire}.
Definition fails {A} (m : ChannelM A) : Prop := forall w e w', m w = (Err e, w') -> sdk_error e.
Lemma fails_bind {A B} (m : ChannelM A) (k : A -> ChannelM B) : fails m -> (forall a, fails (k a)) -> fails (bind m k).
Proof.
  intros Hm Hk w e w' H. unfold bind in H. destruct (m w) as [[a|e1] w1] eqn:E; [by eapply Hk|]. injection H as <- <-. by eapply Hm.
Qed.
Lemma fails_ret {A} (a : A) : fails (ret a).
Proof. done. Qed.
Lemma fails_throw {A} e : sdk_error e -> fails (A:=A) (throw e).
Proof. by intros H w e' w' [= <- _]. Qed.
Lemma fails_dec {A} (from : json -> result A) v : raises (from v) -> fails (lift (dec from v)).
Proof.
  intros Hf w e w' [= H _]. unfold dec in H. destruct (from v) as [a|e'] eqn:E; [done|]. injection H as <-.
  specialize (Hf e' eq_refl). unfold decode_error in Hf. destruct (unreadable e') eqn:Eu; [done|]. by destruct e'.
Qed.
Lemma reply_is_object r msg rep ok :
  (msg <-- r ;; rep <-- field_get "id" msg ;; ok <-- field "ok" msg ;; Ok (msg, rep, ok)) = Ok (msg, rep, ok) ->
  r = Ok msg /\ exists kv, msg = JObj kv /\ rep = default JNull (jget "id" kv) /\ jget "ok" kv = Some ok.
Proof.
  intros H. apply rbind_ok in H as (m & -> & H). apply rbind_ok in H as (i & Hi & H). apply rbind_ok in H as (o & Ho & [= -> -> ->]).
  split; [done|]. destruct msg as [| | | | | |kv]; try done. exists kv. simpl in *. injection Hi as <-.
  destruct (jget "ok" kv) as [v|] eqn:E; [|done]. by injection Ho as ->.
Qed.
Lemma fails_call op args : fails (call op args).
Proof.
  unfold call. apply fails_bind; [done|]. intros c. destruct (negb (live c)); [by apply fails_throw|].
  do 3 (apply fails_bind; [done|]; intros ?). destruct (wire _) as [| |r]; try (by apply fails_bind; [done|intros; apply fails_throw]).
  assert (forall A why, fails (drop_with (A:=A) why)) as Hd by (intros; apply fails_bind; [done|intros; by apply fails_throw]).
  destruct (msg <-- r ;; _) as [[[msg rep] ok]|e] eqn:E; [|apply Hd]. destruct (negb _); [apply Hd|].
  apply reply_is_object in E as (_ & kv & -> & _ & _).
  destruct ok as [|[]|n|x|s|l|kv']; try apply Hd; [destruct (field _ _); [done|apply Hd]|].
  apply fails_bind; [done|]. intros kind. apply fails_throw. by destruct kind; repeat case_match.
Qed.
Lemma fails_asks {A} (from : json -> result A) op args : (forall v, raises (from v)) -> fails (asks_for from op args).
Proof. intros Hf. apply fails_bind; [apply fails_call|]. intros v. by apply fails_dec. Qed.
Lemma fails_negotiated me {A} name (m : ChannelM A) : fails m -> fails (negotiated me name m).
Proof. intros Hm. unfold negotiated. destruct (offers me name); [done|by apply fails_throw]. Qed.
Lemma fails_await gen armed rests : fails (await_authority gen armed rests).
Proof.
  induction rests as [|x rests IH]; simpl; [done|]. apply fails_bind; [apply fails_asks, raises_settled|]. intros [a|]; [done|].
  destruct (_ <=f _); [by apply fails_throw|done].
Qed.
Lemma fails_wait eid rests : fails (wait eid rests).
Proof.
  induction rests as [|x rests IH]; simpl; [done|]. apply fails_bind; [apply fails_asks, raises_status|]. intros st.
  destruct (status_terminal st); [done|]. destruct (_ <=f _); [by apply fails_throw|done].
Qed.

(** *** Every call of the client *)

Inductive api :=
  | Now | Deadline (seconds : float) | State | GetAuthority | DoClaim | DoUnclaim | DoArm (rests : list float) | DoDisarm (rests : list float)
  | Execute (r : TrajectoryRequest) | Release (eid : string) (start_at : option Stamp) | Status (eid : string)
  | Wait (eid : string) (rests : list float) | Cancel (eid why : string) (rests : list float) | Receipts (eid : string)
  | DoSetpoint (q : vec) | Presets | GetControllerState | SelectPreset (id : string) | DoHold (why : string)
  | DoSetPayload (p : PayloadValue) | DoSetLoadModel (revision : Z) (model : json) | SceneClaim
  | SceneApply (rid : string) (revision : Z) (st : json) | DoOpenStream (o : StreamOpen) | DoStreamState (eid : string)
  | DoStreamAnchor (eid : string) | DoReviseStream (r : StreamRevision) | DoStreamRevision (eid rid : string)
  | AbortStreamRevision (eid rid : string) | DoGroupJoin (g m n : Z) | DoGroupRelease (eid : string) (g budget : Z)
  | DoGroupReport (eid : string) | DoGroupCancel (g : Z) | DoGroupEvents | TraceSamples (after : Z)
  | Observe (after limit : Z) | StateHistory.
Definition perform (me : client) (a : api) : ChannelM unit :=
  let run {A} (m : ChannelM A) : ChannelM unit := m ;~ ret tt in
  match a with
  | Now => run now | Deadline x => run (deadline x) | State => run state | GetAuthority => run authority | DoClaim => run claim | DoUnclaim => run unclaim
  | DoArm l => run (arm l) | DoDisarm l => run (disarm l) | Execute r => run (execute r)
  | Release eid at_ => run (release me eid at_) | Status eid => run (status eid) | Wait eid l => run (wait eid l)
  | Cancel eid why l => run (cancel eid why l) | Receipts eid => run (receipts eid) | DoSetpoint q => run (setpoint me q)
  | Presets => run (controller_presets me) | GetControllerState => run (controller_state me)
  | SelectPreset id => run (select_control_preset me id) | DoHold why => run (hold me why)
  | DoSetPayload p => run (set_payload me p) | DoSetLoadModel n m => run (set_load_model me n m)
  | SceneClaim => run (scene_claim me) | SceneApply rid n st => run (scene_apply me rid n st)
  | DoOpenStream o => run (open_stream me o) | DoStreamState eid => run (stream_state me eid)
  | DoStreamAnchor eid => run (stream_anchor me eid) | DoReviseStream r => run (revise_stream me r)
  | DoStreamRevision eid rid => run (stream_revision me eid rid)
  | AbortStreamRevision eid rid => run (abort_stream_revision me eid rid)
  | DoGroupJoin g m n => run (group_join me g m n) | DoGroupRelease eid g b => run (group_release me eid g b)
  | DoGroupReport eid => run (group_report me eid) | DoGroupCancel g => run (group_cancel me g)
  | DoGroupEvents => run (group_events me) | TraceSamples n => run (trace_samples me n)
  | Observe n m => run (observe me n m) | StateHistory => run (state_history me)
  end.
Lemma fails_run {A} (m : ChannelM A) : fails m -> fails (m ;~ ret tt).
Proof. intros Hm. by apply fails_bind. Qed.
#[local] Hint Resolve raises_items : raises.
#[local] Hint Extern 2 (raises (items _ _)) => apply raises_items; solve [eauto with raises] : raises.

(** Two calls convert the reply outside [_dec]: what they may raise besides. *)
Definition converts_outside (a : api) : bool := match a with Deadline _ | DoSetLoadModel _ _ => true | _ => false end.
Lemma fails_perform me a : converts_outside a = false -> fails (perform me a).
Proof.
  intros Ha. destruct a; try discriminate Ha; apply fails_run.
  all: try apply fails_negotiated.
  all: try (apply fails_asks; intros; solve [eauto with raises]).
  - apply fails_bind; [apply fails_asks, raises_generation|intros; apply fails_await].
  - apply fails_bind; [apply fails_asks, raises_generation|intros; apply fails_await].
  - destruct start_at; simpl; [apply fails_negotiated|]; apply fails_asks; eauto with raises.
  - apply fails_wait.
  - apply fails_bind; [apply fails_call|intros; apply fails_wait].
  - apply fails_asks. intros v. raising.
  - by apply fails_bind; [apply fails_call|].
  - apply fails_call.
Qed.
(** A call whose reply is converted at the end fails as the call does, or by the conversion. *)
Lemma fails_lifted {A B} (m : ChannelM A) (f : A -> result B) w e w' :
  fails m -> ((x <~ m ;; lift (f x)) ;~ ret tt) w = (Err e, w') -> sdk_error e \/ exists a, m w = (Ok a, w') /\ f a = Err e.
Proof.
  intros Hm H. unfold bind, lift in H. destruct (m w) as [[a|e1] w1] eqn:E.
  - destruct (f a) as [b|e1] eqn:Ef; [done|]. injection H as <- <-. right. by exists a.
  - injection H as <- <-. left. by eapply Hm.
Qed.
Lemma deadline_errors t x e : deadline_of t x = Err e ->
  match e with AttributeError => t = None | ValueError _ | OverflowError => is_some t = true | _ => False end.
Proof.
  unfold deadline_of, Stamp_new. destruct t as [t|]; [|by intros [= <-]]. unfold py_int.
  destruct (x *f e9) as [s|s| |s m n]; simpl; try (by intros [= <-]); destruct (_ <? 0)%Z; try done; by intros [= <-].
Qed.

(** What reading the hello raises is caught by the handshake or is the SDK's own. *)
Definition shakes {A} (r : result A) : Prop := forall e, r = Err e -> handshake_error e = true \/ sdk_error e.
Lemma shakes_bind {A B} (m : result A) (k : A -> result B) : shakes m -> (forall a, shakes (k a)) -> shakes (rbind m k).
Proof. intros Hm Hk e. destruct m as [a|e']; simpl; [apply Hk|]. intros [= <-]. by apply Hm. Qed.
Lemma shakes_raises {A} (r : result A) : raises r -> shakes r.
Proof. intros H e He. specialize (H e He). unfold decode_error in H. unfold handshake_error. destruct (unreadable e); [left; by rewrite orb_true_r|right; by destruct e]. Qed.
Lemma shakes_dec {A} (from : json -> result A) v : raises (from v) -> shakes (dec from v).
Proof. intros Hf e He. right. by eapply (fails_dec from v Hf {| obj := {| live := true; next_id := 0 |}; out := []; asked := 0 |}); unfold lift; rewrite He. Qed.
Lemma shakes_hello instance hello : shakes (read_hello instance hello).
Proof.
  unfold read_hello. apply shakes_bind; [apply shakes_raises; raising|]. intros v.
  destruct (negb _); [by intros e [= <-]; left|].
  apply shakes_bind; [apply shakes_bind; [apply shakes_raises; raising|intros; apply shakes_dec, raises_identity]|]. intros i.
  destruct (negb _); [by intros e [= <-]; left|].
  apply shakes_bind; [apply shakes_bind; [apply shakes_raises; raising|intros; apply shakes_dec, raises_capabilities]|]. intros c.
  apply shakes_raises. raising.
Qed.
Lemma fails_connect instance : fails (connect instance).
Proof.
  intros w e w' H. unfold connect, catch in H. destruct ((hello <~ call "hello" [] ;; lift (read_hello instance hello)) w) as [[c|e1] w1] eqn:E; [done|].
  assert (handshake_error e1 = true \/ sdk_error e1) as [He|He].
  { unfold bind, lift in E. destruct (call "hello" [] w) as [[v|e2] w2] eqn:Ec.
    - injection E as E <-. by eapply shakes_hello.
    - injection E as <- <-. right. by eapply fails_call. }
  - rewrite He in H. unfold bind, close, upd, throw in H. injection H as <- _. by destruct (is_SupervisorError e1) eqn:Es; [destruct e1|].
  - destruct (handshake_error e1); [|by injection H as <- _]. unfold bind, close, upd, throw in H. injection H as <- _.
    by destruct (is_SupervisorError e1).
Qed.

(** C37: a caller of the SDK meets no exception it could take for a local refusal: making
    a client and every call of it raise only the SDK's own errors, a [TimeoutError],
    or the [OverflowError] of a number no float or int can hold, whatever the socket
    yields and whatever the replies contain, with two exceptions.  [deadline] reads
    the supervisor's clock as any call does, and then its own arithmetic may raise:
    an [AttributeError] on a null clock, a [ValueError] or [OverflowError] on
    seconds or a sum that make no stamp.  [set_load_model] raises what [int()] makes
    of the result the supervisor returned. *)
Theorem calls_raise_sdk_errors me :
  (forall instance w e w', connect instance w = (Err e, w') -> sdk_error e) /\
  forall a w e w', perform me a w = (Err e, w') -> sdk_error e \/
    match a with
    | Deadline x => exists t, now w = (Ok t, w') /\ deadline_of t x = Err e /\
        match e with AttributeError => t = None | ValueError _ | OverflowError => is_some t = true | _ => False end
    | DoSetLoadModel n m => exists v,
        call "load_model_set" [("revision", JInt n); ("model", m)] w = (Ok v, w') /\ to_int v = Err e
    | _ => False
    end.
Proof.
  split; [intros instance; apply fails_connect|]. intros a w e w' H. destruct (converts_outside a) eqn:Ha; [|left; by eapply fails_perform].
  destruct a; try discriminate Ha; simpl in H.
  - apply fails_lifted in H as [?|(t & E1 & E2)]; [by left| |apply fails_asks; eauto with raises]. right. exists t. split_and!; [done..|].
    by eapply deadline_errors.
  - unfold set_load_model, negotiated in H. destruct (offers me _); [|injection H as <- _; by left].
    apply fails_lifted in H; [exact H|apply fails_call].
Qed.

(** ** What a reply said *)

(** The reply to the request of [w]: an object under its id, with this [ok]. *)
Definition replied (w : world channel json) (ok : bool) (kv : list (string * json)) : Prop :=
  wire (asked w) = Text (Ok (JObj kv)) /\ jget "id" kv = Some (JInt (next_id (obj w))) /\ jget "ok" kv = Some (JBool ok).

(** C6: a value or a refusal is the supervisor's own word: a call on a live channel
    sends one request under a fresh id; it returns a value only if the reply under
    that id said so and carried it, it raises [Refused] or [TimeoutError] only if
    that reply said so, and any other outcome either is what that reply said or
    leaves the channel dropped. *)
Theorem outcomes_are_the_servers_word op args w r w' :
  live (obj w) = true -> call op args w = (r, w') ->
  map snd (out w') = request (next_id (obj w)) op args :: map snd (out w) /\ next_id (obj w') = (next_id (obj w) + 1)%Z /\
  match r with
  | Ok v => live (obj w') = true /\ exists kv, replied w true kv /\ jget "result" kv = Some v
  | Err (Refused _) => live (obj w') = true /\ exists kv, replied w false kv /\ jget "kind" kv = Some (JStr "refused")
  | Err (TimeoutError _) => live (obj w') = true /\ exists kv, replied w false kv /\ jget "kind" kv = Some (JStr "timeout")
  | Err _ => live (obj w') = false \/ live (obj w') = true /\ exists kv, replied w false kv
  end.
Proof.
  intros Hl. unfold call, bind, get. rewrite Hl. unfold drop_with, close, bind, upd, say, ask, throw, lift. simpl.
  destruct (wire (asked w)) as [| |rd] eqn:Ew; try (by intros [= <- <-]; simpl; eauto).
  destruct (msg <-- rd ;; _) as [[[msg rep] ok]|e] eqn:E; [|by intros [= <- <-]; simpl; eauto].
  apply reply_is_object in E as (-> & kv & -> & Ei & Eo). destruct (negb _) eqn:En; [by intros [= <- <-]; simpl; eauto|].
  apply negb_false_iff in En. assert (jget "id" kv = Some (JInt (next_id (obj w)))) as Hi.
  { subst rep. destruct (jget "id" kv) as [[| |n| | | |]|]; try done. simpl in En. apply Z.eqb_eq in En. by subst n. }
  destruct ok as [|[]|n|x|s|l|kv']; try (by intros [= <- <-]; simpl; eauto).
  - simpl. destruct (jget "result" kv) as [v|] eqn:Er; intros [= <- <-]; simpl; [|by eauto]. split_and!; try done. by exists kv.
  - simpl. intros [= <- <-]. simpl. split_and!; [done..|].
    assert (replied w false kv) as Hr by done.
    destruct (jget "kind" kv) as [[| | | |s| |]|] eqn:Ek; simpl; try (right; by eauto).
    destruct (String.eqb_spec s "refused") as [->|]; [by eauto|]. destruct (String.eqb_spec s "timeout") as [->|]; [by eauto|right; by eauto].
Qed.

(** A cancel that returns a status returns a terminal one. *)
Lemma wait_is_over eid rests w st w' : wait eid rests w = (Ok (Some st), w') -> status_terminal st = true.
Proof.
  revert w. induction rests as [|x rests IH]; intros w; simpl; [done|]. unfold bind. destruct (asks_for _ _ _ w) as [[s|e] w1]; [|done].
  destruct (status_terminal s) eqn:Et; [by intros [= <- _]|]. destruct (_ <=f _); [done|apply IH].
Qed.
Lemma cancel_is_over eid why rests w st w' : cancel eid why rests w = (Ok (Some st), w') -> status_terminal st = true.
Proof. unfold cancel, bind. destruct (call _ _ w) as [[v|e] w1]; [apply wait_is_over|done]. Qed.

(** ** A dropped channel *)

Definition quiet {A} (m : ChannelM A) : Prop := forall w, live (obj w) = false -> (m w).2 = w.
Lemma quiet_bind {A B} (m : ChannelM A) (k : A -> ChannelM B) : quiet m -> (forall a, quiet (k a)) -> quiet (bind m k).
Proof.
  intros Hm Hk w Hw. specialize (Hm w Hw). unfold bind. destruct (m w) as [[a|e] w1]; simpl in Hm; subst w1; [by apply Hk|done].
Qed.
Lemma quiet_done {A} (r : result A) : quiet (lift r).
Proof. done. Qed.
Lemma quiet_call op args : quiet (call op args).
Proof. intros w Hw. unfold call, bind, get. by rewrite Hw. Qed.
Lemma quiet_asks {A} (from : json -> result A) op args : quiet (asks_for from op args).
Proof. apply quiet_bind; [apply quiet_call|intros; apply quiet_done]. Qed.
Lemma quiet_negotiated me {A} name (m : ChannelM A) : quiet m -> quiet (negotiated me name m).
Proof. intros Hm. unfold negotiated. by destruct (offers me name). Qed.
Lemma quiet_await gen armed rests : quiet (await_authority gen armed rests).
Proof.
  induction rests as [|x rests IH]; simpl; [done|]. apply quiet_bind; [apply quiet_asks|]. intros [a|]; [done|]. by destruct (_ <=f _).
Qed.
Lemma quiet_wait eid rests : quiet (wait eid rests).
Proof.
  induction rests as [|x rests IH]; simpl; [done|]. apply quiet_bind; [apply quiet_asks|]. intros st.
  destruct (status_terminal st); [done|]. by destruct (_ <=f _).
Qed.

(** A dropped channel is never used again: once its framing was in doubt, no call of
    the client sends anything, and the channel stays dropped. *)
Theorem dropped_channel_is_silent me l w : live (obj w) = false -> fold_left (fun w a => (perform me a w).2) l w = w.
Proof.
  intros Hw. induction l as [|a l IH]; simpl; [done|]. enough ((perform me a w).2 = w) as -> by exact IH.
  enough (quiet (perform me a)) as H by by apply H. destruct a; simpl; apply quiet_bind; try done; try apply quiet_negotiated.
  all: try apply quiet_asks; try apply quiet_call; try apply quiet_wait.
  all: try (destruct start_at; simpl; [apply quiet_negotiated|]; apply quiet_asks).
  all: apply quiet_bind; [first [apply quiet_asks | apply quiet_call]|].
  all: intros; first [done | apply quiet_await | apply quiet_wait].
Qed.
End Calls.

(** ** Witnesses *)

Module Talk.
Definition me : client := {|
  cl_identity := {| instance_id := "fr3"; joint_names := ["j1"%string]; backend := "rt"; model_id := "" |};
  cl_capabilities := {| contract_version := 1; profiles := []; protocol_version := None; cap_pose_hold := false; cap_observer := false; rt_setup := "" |};
  cl_session := JStr "a"; cl_extensions := [("load_model", JInt 1)] |}.
Definition fresh : world channel json := {| obj := {| live := true; next_id := 1 |}; out := []; asked := 0 |}.
Definition refusal : list (string * json) := [("id", JInt 1); ("ok", JBool false); ("kind", JStr "refused"); ("error", JStr "busy")].
#[export] Instance refusing : Wire := fun _ => Text (Ok (JObj refusal)).
(** [json.loads] reads [Infinity]: the stamp of that reply is no integer. *)
Definition endless : Wire := fun _ => Text (Ok (JObj [("id", JInt 1); ("ok", JBool true);
  ("result", JObj [("ns", JNum finf); ("clock", JStr "pc_monotonic"); ("domain", JStr "")])])).
Definition null_reply : Wire := fun _ => Text (Ok (JObj [("id", JInt 1); ("ok", JBool true); ("result", JNull)])).
Example endless_overflows : (Sdk.now (wire_:=endless) fresh).1 = Err OverflowError.
Proof. vm_compute. reflexivity. Qed.
Example load_model_type_error : exists m, (set_load_model (wire_:=null_reply) me 1 JNull fresh).1 = Err (TypeError m).
Proof. eexists. vm_compute. reflexivity. Qed.
End Talk.
Import Talk.

(** A null clock: the error of [deadline] is Python's own. *)
Example null_deadline : (deadline (wire_:=null_reply) f1 fresh).1 = Err AttributeError.
Proof. vm_compute. reflexivity. Qed.
Lemma calls_raise_sdk_errors_witness :
  (exists e w', perform me DoClaim fresh = (Err e, w') /\ sdk_error e) /\
  exists w', perform (wire_:=null_reply) me (Deadline f1) fresh = (Err AttributeError, w') /\
    exists t, now (wire_:=null_reply) fresh = (Ok t, w') /\ deadline_of t f1 = Err AttributeError.
Proof.
  split.
  - destruct (perform me DoClaim fresh) as [r w'] eqn:E. assert (exists e, r = Err e) as [e ->].
    { apply (f_equal fst) in E. simpl in E. subst r. eexists. vm_compute. reflexivity. }
    exists e, w'. split; [done|]. by destruct (proj2 (calls_raise_sdk_errors me) DoClaim fresh e w' E).
  - destruct (perform (wire_:=null_reply) me (Deadline f1) fresh) as [r w'] eqn:E.
    assert (r = Err AttributeError) as -> by (apply (f_equal fst) in E; simpl in E; subst r; vm_compute; reflexivity).
    exists w'. split; [done|].
    destruct (proj2 (calls_raise_sdk_errors (wire_:=null_reply) me) (Deadline f1) fresh AttributeError w' E) as [[]|(t & E1 & E2 & _)].
    by exists t.
Defined.
Example outcomes_are_the_servers_word_witness : exists kv, replied fresh false kv /\ jget "kind" kv = Some (JStr "refused").
Proof.
  assert (exists w', call "claim" [] fresh = (Err (Refused "busy"), w')) as [w' E] by (eexists; vm_compute; reflexivity).
  destruct (outcomes_are_the_servers_word "claim" [] fresh _ w' eq_refl E) as (_ & _ & _ & H). exact H.
Defined.
Example dropped_channel_is_silent_witness :
  fold_left (fun w a => (perform me a w).2) [DoClaim; Now] (fresh <| obj := {| live := false; next_id := 1 |} |>) =
  fresh <| obj := {| live := false; next_id := 1 |} |>.
Proof. exact (dropped_channel_is_silent me [DoClaim; Now] (fresh <| obj := {| live := false; next_id := 1 |} |>) eq_refl). Defined.
