(* ===== verification/SdkService.v ===== *)
(** The SDK over the service: what a call of [ArmClient] means for the runtime.  The
    client's half is [Sdk], the server's [Service]; the JSON text and the socket
    between them are [loads] and [Wire]. *)
From Stdlib Require Import SpecFloat PrimFloat FloatOps.
From S2P Require Import Prelude Floats Motion Contract Stream RtProtocol Effects Executor Controller ControllerDemo Horizon HorizonPending Runtime RuntimeClients RuntimeNative RuntimeLoop RuntimeDemo Json Codec CodecFacts Service ServiceRuns Sdk.

Section EndToEnd.
Context {cfg : Config} {ccfg : Controller.Config} {env : Runtime.Env} {henv : Horizon.Env} {senv : Service.Env} {wire_ : Wire}.

Definition written {A} `{Encode A} (x : result A) : result json := match x with Ok a => Ok (encode a) | Err e => Err e end.
(** An outcome of the runtime as the caller of the SDK sees it. *)
Definition seen {A} (x : result A) : result A :=
  match x with
  | Ok a => Ok a
  | Err (Prelude.Refused m) => Err (Prelude.Refused m)
  | Err (TimeoutError m) => Err (TimeoutError (why_of (TimeoutError m)))
  | Err e => Err (SupervisorError (why_of e))
  end.

(** [ask] on the client is the operation [m] of the runtime: the line it sends makes
    the connection's thread queue [m], once, and reply with its outcome; and the
    client returns that outcome when that reply is what the socket yields. *)
Definition is_the_operation {A} `{Encode A} (valid : A -> Prop) (session : string) (m : RuntimeM A) (ask : ChannelM A) : Prop :=
  forall w line, live (obj w) = true ->
    loads senv line = Ok (default JNull (head (map snd (out (ask w).2)))) ->
    exists k, handle_line session line = (JInt (next_id (obj w)), Call CALL_TIMEOUT_S m k) /\
      forall x, k x = Done (written x) /\
        ((forall a, x = Ok a -> valid a) -> wire (asked w) = Text (Ok (reply (JInt (next_id (obj w))) (written x))) -> (ask w).1 = seen x).

Lemma call_sends op args w : live (obj w) = true ->
  map snd (out (Sdk.call op args w).2) = Sdk.request (next_id (obj w)) op args :: map snd (out w).
Proof.
  intros Hl. unfold Sdk.call, bind, get. rewrite Hl. unfold drop_with, close, bind, upd, say, Effects.ask, throw, lift. simpl.
  destruct (wire (asked w)) as [| |rd]; try done. destruct (msg <-- rd ;; _) as [[[msg rep] ok]|e]; [|done].
  destruct (negb _); [done|]. destruct ok as [|[]|n|x|s|l|kv']; try done; [destruct (field "result" msg)|destruct (field_get "kind" msg)]; done.
Qed.
Lemma sends {A} (from : json -> result A) op args w : live (obj w) = true ->
  head (map snd (out (asks_for from op args w).2)) = Some (Sdk.request (next_id (obj w)) op args).
Proof.
  intros Hl. pose proof (call_sends op args w Hl) as H. unfold asks_for, bind, lift.
  destruct (Sdk.call op args w) as [[v|e] w1]; simpl in *; by rewrite H.
Qed.
Lemma call_hears op args w r : live (obj w) = true -> wire (asked w) = Text (Ok (reply (JInt (next_id (obj w))) r)) ->
  (Sdk.call op args w).1 = seen r.
Proof.
  intros Hl Hw. unfold Sdk.call, bind, get. rewrite Hl. unfold drop_with, close, bind, upd, say, Effects.ask, throw, lift. simpl.
  rewrite Hw. destruct r as [v|e]; simpl; rewrite Z.eqb_refl; simpl; [done|]. by destruct e.
Qed.
Lemma hears {A} `{Encode A} (from : json -> result A) (valid : A -> Prop) `{!Lossless from valid} op args w (x : result A) :
  live (obj w) = true -> (forall a, x = Ok a -> valid a) -> wire (asked w) = Text (Ok (reply (JInt (next_id (obj w))) (written x))) ->
  (asks_for from op args w).1 = seen x.
Proof.
  intros Hl Hv Hw. pose proof (call_hears op args w _ Hl Hw) as Hc. unfold asks_for, bind, lift.
  destruct (Sdk.call op args w) as [r w1]. simpl in Hc. subst r. destruct x as [a|e]; simpl.
  - unfold dec. by rewrite (lossless a (Hv a eq_refl)).
  - by destruct e.
Qed.

Lemma line_dispatched session line rid op args : loads senv line = Ok (Sdk.request rid op args) ->
  handle_line session line = (JInt rid, dispatch session op args).
Proof. intros E. unfold handle_line. rewrite E. by destruct args. Qed.
(** An operation that [dispatch] runs behind no extension. *)
Lemma operation {A} `{Encode A} (from : json -> result A) (valid : A -> Prop) `{!Lossless from valid} session (m : RuntimeM A) op args :
  dispatch session op args = enc (Service.call m) -> is_the_operation valid session m (asks_for from op args).
Proof.
  intros Hd w line Hl E. rewrite (sends from op args w Hl) in E. simpl in E. rewrite (line_dispatched _ _ _ _ _ E), Hd.
  eexists. split; [reflexivity|]. intros x. split; [by destruct x|]. by apply hears.
Qed.
(** The same for a call of an extension the supervisor advertised. *)
Definition is_negotiated {A} `{Encode A} (valid : A -> Prop) (name session : string) (m : RuntimeM A) (ask : ChannelM A) : Prop :=
  forall w line, live (obj w) = true ->
    loads senv line = Ok (default JNull (head (map snd (out (ask w).2)))) ->
    exists K, handle_line session line = (JInt (next_id (obj w)), Locked get K) /\
      forall s, extends name s = true -> exists k, K (Ok s) = Call CALL_TIMEOUT_S m k /\
      forall x, k x = Done (written x) /\
        ((forall a, x = Ok a -> valid a) -> wire (asked w) = Text (Ok (reply (JInt (next_id (obj w))) (written x))) -> (ask w).1 = seen x).
Lemma gated {A} `{Encode A} (from : json -> result A) (valid : A -> Prop) `{!Lossless from valid} me name session (m : RuntimeM A) op args :
  offers me name = true -> dispatch session op args = gate name (enc (Service.call m)) ->
  is_negotiated valid name session m (negotiated me name (asks_for from op args)).
Proof.
  intros Ho Hd w line Hl. unfold negotiated. rewrite Ho. rewrite (sends from op args w Hl). simpl. intros E.
  rewrite (line_dispatched _ _ _ _ _ E), Hd. eexists. split; [reflexivity|]. intros s Hs. simpl. rewrite Hs.
  eexists. split; [reflexivity|]. intros x. split; [by destruct x|]. by apply hears.
Qed.

(** C3: the SDK's calls are the runtime's operations: the line a call sends makes the
    connection's thread queue exactly that operation, in its own session and with
    every field of the request as it was, and its reply, when the socket yields it,
    gives the caller the operation's outcome: its value, its refusal, its timeout,
    or a [SupervisorError]. *)
Theorem calls_are_the_operations session :
  is_the_operation (made_by Authority_new) session (RuntimeClients.claim session ;~ authority_now) Sdk.claim /\
  is_the_operation (made_by Authority_new) session (RuntimeClients.unclaim session ;~ authority_now) Sdk.unclaim /\
  (forall r, valid_request r ->
     is_the_operation valid_status session (eid <~ RuntimeClients.submit session r ;; status_of eid) (Sdk.execute r)) /\
  (forall me eid, is_the_operation valid_status session (RuntimeClients.release session eid None ;~ status_of eid) (Sdk.release me eid None)) /\
  (forall me o, offers me "stream" = true -> valid_open o ->
     is_negotiated valid_view "stream" session (RuntimeNative.open_stream session o) (Sdk.open_stream me o)) /\
  (forall me r, offers me "stream" = true -> valid_revision r ->
     is_negotiated valid_revision_status "stream" session (RuntimeNative.revise_stream session r) (Sdk.revise_stream me r)) /\
  (forall me p, offers me "controller" = true -> valid_payload p ->
     is_negotiated (fun p => valid_payload (pl_value p)) "controller" session
       (RuntimeClients.set_payload session (mass_kg p) (com_ee p)) (Sdk.set_payload me p)).
Proof.
  split_and!.
  - by apply (operation authority_from _).
  - by apply (operation authority_from _).
  - intros r Hr. apply (operation status_from _).
    transitivity (pbind (pure (request_from (encode r))) (fun r => enc (Service.call (eid <~ RuntimeClients.submit session r ;; status_of eid)))).
    { reflexivity. } by rewrite (lossless (from:=request_from) r Hr).
  - intros me eid. by apply (operation status_from _).
  - intros me o Ho Hv. apply (gated stream_view_from _); [done|].
    transitivity (gate "stream" (pbind (pure (stream_open_from (encode o))) (fun o => enc (Service.call (RuntimeNative.open_stream session o))))).
    { reflexivity. } by rewrite (lossless (from:=stream_open_from) o Hv).
  - intros me r Ho Hv. apply (gated revision_status_from _); [done|].
    transitivity (gate "stream" (pbind (pure (stream_revision_from (encode r))) (fun r => enc (Service.call (RuntimeNative.revise_stream session r))))).
    { reflexivity. } by rewrite (lossless (from:=stream_revision_from) r Hv).
  - intros me p Ho Hv. apply (gated payload_state_from (fun p => valid_payload (pl_value p))); [done|].
    transitivity (gate "controller" (pbind (pure (payload_from (encode p)))
                    (fun p => enc (Service.call (RuntimeClients.set_payload session (mass_kg p) (com_ee p)))))).
    { reflexivity. } by rewrite (lossless (from:=payload_from) p Hv).
Qed.
End EndToEnd.

(** ** Witness: a plan is submitted by a session that owns nothing *)

Module Exchange.
Import Robot HorizonDemo Wired.
Definition fresh : world channel json := {| obj := {| live := true; next_id := 1 |}; out := []; asked := 0 |}.
#[export] Instance senv : Service.Env := {|
  loads := fun _ => Ok (Sdk.request 1 "submit" [("request", encode r1)]); history_kept := false; observing := false; scene_hosted := false;
  clock_domain_ := JNull; now_ns := fun k => Z.of_nat k; link_join := fun _ _ => Err KeyError; link_cancel := fun _ _ => Err KeyError;
  link_events := fun _ => []; report_json := fun _ => JNull; observer := fun _ _ _ => Err KeyError; body_list := fun _ => Err KeyError |}.
(** What the runtime of [Robot] says to it. *)
Definition outcome : result ExecutionStatus := ((eid <~ RuntimeClients.submit "a" r1 ;; status_of eid) (booted false None f0)).1.
#[export] Instance answered : Wire := fun _ => Text (Ok (reply (JInt 1) (written outcome))).
Lemma outcome_refused : outcome = Err (Prelude.Refused "claim first").
Proof. vm_compute. reflexivity. Qed.
End Exchange.
Import Robot HorizonDemo Wired Exchange.

Example calls_are_the_operations_witness : (Sdk.execute r1 fresh).1 = Err (Prelude.Refused "claim first").
Proof.
  destruct (calls_are_the_operations "a") as (_ & _ & H & _).
  destruct (H r1 r1_valid fresh "the line" eq_refl) as (k & _ & Hk); [vm_compute; reflexivity|].
  destruct (Hk outcome) as [_ Hs]. rewrite outcome_refused in Hs. apply Hs; [discriminate|].
  unfold wire, answered. by rewrite outcome_refused.
Defined.
