(* ===== verification/Coordinator.v ===== *)
(** The two-arm coordinator ([multi_arm/coordinator.py], with the values of
    [multi_arm/types.py] and the timing of [multi_arm/synchronization.py]): a
    staging barrier over two arm controllers with observed cancels.

    The controllers are outside: every clock reading, controller state,
    admission verdict, handle call and event poll is answered by an oracle
    indexed by the number of questions asked so far, so each theorem holds for
    every behaviour of the environment, exceptions included.  A handle call (stage,
    execute, cancel or poll) may also deliver events before it returns; reading a
    state or an admission verdict delivers none here.  Operations are computations of a
    state and exception monad that logs the calls made on the handles.  A
    member's payload is what decoding it yields ([unpack_plan]); listeners are
    not called back, a release context does not swallow exceptions, and a
    reason keeps the fixed part of the code's formatted text. *)
From Stdlib Require Import SpecFloat.
From S2P Require Import Prelude Floats Motion.

(** ** Values ([multi_arm/types.py]) *)

Inductive PairLifecycle := IDLE | STAGING | READY | EXECUTING | COMPLETE | CANCELLED | FAULTED | REJECTED.
#[export] Instance PairLifecycle_eq_dec : EqDecision PairLifecycle.
Proof. solve_decision. Defined.

Definition terminal (l : PairLifecycle) : bool :=
  match l with COMPLETE | CANCELLED | FAULTED | REJECTED => true | _ => false end.
Definition active (l : PairLifecycle) : bool :=
  match l with STAGING | READY | EXECUTING => true | _ => false end.

Record ArmControlState := {
  arm_id : string;
  position : option vec;
  velocity : option vec;
  armed : option bool;
  ready : option bool;
  executing : option bool;
  running_plan_id : option string;
  mode_law : option string;
  stopped : option bool;
  frozen : option bool;
  fault_reason : option string;
  session_id : option string;
  model_token : option string;
  observed_at : option float;
  state_age_sec : option float;
}.

Definition ArmControlState_new (s : ArmControlState) : result ArmControlState :=
  raise_if bool_decide (arm_id s = "") of ValueError "ArmControlState.arm_id must be a non-empty string" ;;
  raise_if match position s with Some p => negb (all_finite p) | None => false end
           || match velocity s with Some v => negb (all_finite v) | None => false end
    of ValueError "must be finite or None" ;;
  raise_if match position s, velocity s with Some p, Some v => negb (length p =? length v) | _, _ => false end
    of ValueError "ArmControlState position and velocity must agree when both are known" ;;
  Ok s.

Definition with_observation (s : ArmControlState) (now : float) : ArmControlState := {|
  arm_id := arm_id s; position := position s; velocity := velocity s; armed := armed s; ready := ready s;
  executing := executing s; running_plan_id := running_plan_id s; mode_law := mode_law s; stopped := stopped s;
  frozen := frozen s; fault_reason := fault_reason s; session_id := session_id s; model_token := model_token s;
  observed_at := observed_at s;
  state_age_sec := match observed_at s with None => None | Some at_ => Some (py_max f0 (now -f at_)) end |}.

(** The decoded plan of a member. *)
Record plan_body := {
  b_plan_id : string; b_gated : bool; b_model_token : option string; b_times : vec; b_positions : mat; b_velocities : mat }.

Record ArmPlan := { ap_arm_id : string; plan_id : string; payload : result plan_body; gated : bool }.
Definition ArmPlan_new (p : ArmPlan) : result ArmPlan :=
  raise_if bool_decide (ap_arm_id p = "") of ValueError "ArmPlan.arm_id must be a non-empty string" ;;
  raise_if bool_decide (plan_id p = "") of ValueError "ArmPlan.plan_id must be a non-empty string" ;;
  raise_if negb (gated p) of ValueError "ArmPlan must be gated" ;;
  Ok p.

Record BimanualPlan := { pair_id : string; left : ArmPlan; right : ArmPlan }.
Definition BimanualPlan_new (p : BimanualPlan) : result BimanualPlan :=
  raise_if bool_decide (pair_id p = "") of ValueError "BimanualPlan.pair_id must be a non-empty string" ;;
  raise_if bool_decide (ap_arm_id (left p) = ap_arm_id (right p)) of ValueError "BimanualPlan needs two distinct member arm ids" ;;
  raise_if bool_decide (plan_id (left p) = plan_id (right p)) of ValueError "pair member plan ids must be distinct" ;;
  Ok p.

(** [members()]: insertion order, the right plan winning a shared arm id. *)
Definition members (p : BimanualPlan) : list (string * ArmPlan) :=
  if bool_decide (ap_arm_id (left p) = ap_arm_id (right p)) then [(ap_arm_id (right p), right p)]
  else [(ap_arm_id (left p), left p); (ap_arm_id (right p), right p)].
Definition member (p : BimanualPlan) (a : string) : option ArmPlan :=
  if bool_decide (a = ap_arm_id (right p)) then Some (right p)
  else if bool_decide (a = ap_arm_id (left p)) then Some (left p) else None.

Record PairMemberState := {
  pm_arm_id : string; pm_plan_id : option string; stage_acked : option bool; stage_reason : string;
  result_ok : option bool; result_reason : string; released_at : option float; cancel_confirmed : option bool;
  cancel_error : string }.

Record PairState := {
  ps_pair_id : option string; ps_lifecycle : PairLifecycle; ps_members : list PairMemberState;
  ps_staged_at : option float; ps_ready_at : option float; ps_stage_skew : option float; ps_release_skew : option float;
  ps_faulted_arm : option string; ps_reason : string; ps_completed_at : option float; ps_cancellation_pending : gset string }.
Definition PairState0 : PairState := {|
  ps_pair_id := None; ps_lifecycle := IDLE; ps_members := []; ps_staged_at := None; ps_ready_at := None;
  ps_stage_skew := None; ps_release_skew := None; ps_faulted_arm := None; ps_reason := ""; ps_completed_at := None;
  ps_cancellation_pending := ∅ |}.

Definition ps_ok (s : PairState) : option bool :=
  match ps_lifecycle s with
  | COMPLETE => Some (forallb (fun m => bool_decide (result_ok m = Some true)) (ps_members s))
  | CANCELLED | FAULTED | REJECTED => Some false
  | _ => None
  end.

(** ** Timing ([multi_arm/synchronization.py]) *)

Definition spread (times : gmap string float) : option float :=
  if size times <? 2 then None
  else match map_to_list times with
       | [] => None
       | (_, x) :: l => Some (fold_left (fun m p => py_max m p.2) l x -f fold_left (fun m p => py_min m p.2) l x)
       end.

(** ** The coordinator's state *)

Record PairRun := {
  plan : BimanualPlan;
  staged_at : float;
  sessions : gmap string string;
  models : gmap string (option string);
  lifecycle : PairLifecycle;
  stage_acks : gmap string (bool * string);
  ack_times : gmap string float;
  results : gmap string (bool * string);
  releases : gmap string float;
  pending_cancels : gset string;
  cancel_errors : gmap string string;
  cancellation_requested : bool;
  ready_at : option float;
  completed_at : option float;
  faulted_arm : option string;
  reason : string;
}.

Definition run_state (r : PairRun) : PairState := {|
  ps_pair_id := Some (pair_id (plan r)); ps_lifecycle := lifecycle r;
  ps_members := map (fun '(a, p) => {|
    pm_arm_id := a; pm_plan_id := Some (plan_id p); stage_acked := fst <$> stage_acks r !! a;
    stage_reason := default "" (snd <$> stage_acks r !! a); result_ok := fst <$> results r !! a;
    result_reason := default "" (snd <$> results r !! a); released_at := releases r !! a;
    cancel_confirmed := if cancellation_requested r then Some (bool_decide (a ∉ pending_cancels r)) else None;
    cancel_error := default "" (cancel_errors r !! a) |}) (members (plan r));
  ps_staged_at := Some (staged_at r); ps_ready_at := ready_at r; ps_stage_skew := spread (ack_times r);
  ps_release_skew := spread (releases r); ps_faulted_arm := faulted_arm r; ps_reason := reason r;
  ps_completed_at := completed_at r; ps_cancellation_pending := pending_cancels r |}.

(** Calls made on the arm handles. *)
Inductive call := Stage (a : string) (p : ArmPlan) | Execute (a : string) (pid : string) | Cancel (a : string) (pid : string).

Record coord := {
  run : option PairRun;
  last_states : gmap string PairState;
  consumed_pair_ids : gset string;
  consumed_plan_ids : gset string;
  asked : nat;
  log : list call;   (** latest first *)
}.

(** ** The monad *)

Definition M (A : Type) : Type := coord -> result A * coord.
Definition ret {A} (a : A) : M A := fun s => (Ok a, s).
Definition throw {A} (e : exn) : M A := fun s => (Err e, s).
Definition bind {A B} (m : M A) (k : A -> M B) : M B :=
  fun s => match m s with (Ok a, s') => k a s' | (Err e, s') => (Err e, s') end.
Notation "x <~ m ;; k" := (bind m (fun x => k)) (at level 100, m at next level, right associativity) : py_scope.
Notation "m ;~ k" := (bind m (fun _ => k)) (at level 100, right associativity) : py_scope.
Definition attempt {A} (m : M A) (h : exn -> M A) : M A :=
  fun s => match m s with (Ok a, s') => (Ok a, s') | (Err e, s') => h e s' end.
Definition get : M coord := fun s => (Ok s, s).
Definition lift {A} (r : result A) : M A := fun s => (r, s).
Definition guard (c : bool) (e : exn) : M unit := if c then throw e else ret tt.
Fixpoint for_each {A} (f : A -> M unit) (l : list A) : M unit :=
  match l with [] => ret tt | a :: l => f a ;~ for_each f l end.
(** A loop body that answers whether to go on ([break] when false). *)
Fixpoint for_while {A} (f : A -> M bool) (l : list A) : M unit :=
  match l with [] => ret tt | a :: l => go <~ f a ;; if go then for_while f l else ret tt end.

Definition set_run (r : option PairRun) : M unit := fun s => (Ok tt, {|
  run := r; last_states := last_states s; consumed_pair_ids := consumed_pair_ids s;
  consumed_plan_ids := consumed_plan_ids s; asked := asked s; log := log s |}).
(** An in-place update of the run object. *)
Definition upd (f : PairRun -> PairRun) : M unit := s <~ get ;; set_run (f <$> run s).
Definition record_last (st : PairState) : M unit := fun s => (Ok tt, {|
  run := run s; last_states := match ps_pair_id st with Some i => <[i := st]> (last_states s) | None => last_states s end;
  consumed_pair_ids := consumed_pair_ids s; consumed_plan_ids := consumed_plan_ids s; asked := asked s; log := log s |}).
Definition emit (c : call) : M unit := fun s => (Ok tt, {|
  run := run s; last_states := last_states s; consumed_pair_ids := consumed_pair_ids s;
  consumed_plan_ids := consumed_plan_ids s; asked := asked s; log := c :: log s |}).
Definition ask : M nat := fun s => (Ok (asked s), {|
  run := run s; last_states := last_states s; consumed_pair_ids := consumed_pair_ids s;
  consumed_plan_ids := consumed_plan_ids s; asked := S (asked s); log := log s |}).
Definition consume (pair : string) (plans : list string) : M unit := fun s => (Ok tt, {|
  run := run s; last_states := last_states s; consumed_pair_ids := {[pair]} ∪ consumed_pair_ids s;
  consumed_plan_ids := list_to_set plans ∪ consumed_plan_ids s; asked := asked s; log := log s |}).

(** Field updates of a run. *)
Definition with_lifecycle (l : PairLifecycle) (r : PairRun) : PairRun := {|
  plan := plan r; staged_at := staged_at r; sessions := sessions r; models := models r; lifecycle := l;
  stage_acks := stage_acks r; ack_times := ack_times r; results := results r; releases := releases r;
  pending_cancels := pending_cancels r; cancel_errors := cancel_errors r;
  cancellation_requested := cancellation_requested r; ready_at := ready_at r; completed_at := completed_at r;
  faulted_arm := faulted_arm r; reason := reason r |}.
Definition with_ack (a : string) (ok : bool) (why : string) (t : float) (r : PairRun) : PairRun := {|
  plan := plan r; staged_at := staged_at r; sessions := sessions r; models := models r; lifecycle := lifecycle r;
  stage_acks := <[a := (ok, why)]> (stage_acks r); ack_times := <[a := t]> (ack_times r); results := results r;
  releases := releases r; pending_cancels := pending_cancels r; cancel_errors := cancel_errors r;
  cancellation_requested := cancellation_requested r; ready_at := ready_at r; completed_at := completed_at r;
  faulted_arm := faulted_arm r; reason := reason r |}.
Definition with_ready (t : float) (r : PairRun) : PairRun := {|
  plan := plan r; staged_at := staged_at r; sessions := sessions r; models := models r; lifecycle := READY;
  stage_acks := stage_acks r; ack_times := ack_times r; results := results r; releases := releases r;
  pending_cancels := pending_cancels r; cancel_errors := cancel_errors r;
  cancellation_requested := cancellation_requested r; ready_at := Some t; completed_at := completed_at r;
  faulted_arm := faulted_arm r; reason := reason r |}.
Definition with_result (a : string) (ok : bool) (why : string) (r : PairRun) : PairRun := {|
  plan := plan r; staged_at := staged_at r; sessions := sessions r; models := models r; lifecycle := lifecycle r;
  stage_acks := stage_acks r; ack_times := ack_times r; results := <[a := (ok, why)]> (results r);
  releases := releases r; pending_cancels := pending_cancels r; cancel_errors := cancel_errors r;
  cancellation_requested := cancellation_requested r; ready_at := ready_at r; completed_at := completed_at r;
  faulted_arm := faulted_arm r; reason := reason r |}.
Definition with_release (a : string) (t : float) (r : PairRun) : PairRun := {|
  plan := plan r; staged_at := staged_at r; sessions := sessions r; models := models r; lifecycle := lifecycle r;
  stage_acks := stage_acks r; ack_times := ack_times r; results := results r; releases := <[a := t]> (releases r);
  pending_cancels := pending_cancels r; cancel_errors := cancel_errors r;
  cancellation_requested := cancellation_requested r; ready_at := ready_at r; completed_at := completed_at r;
  faulted_arm := faulted_arm r; reason := reason r |}.
Definition with_cancels (pending : gset string) (errors : gmap string string) (r : PairRun) : PairRun := {|
  plan := plan r; staged_at := staged_at r; sessions := sessions r; models := models r; lifecycle := lifecycle r;
  stage_acks := stage_acks r; ack_times := ack_times r; results := results r; releases := releases r;
  pending_cancels := pending; cancel_errors := errors;
  cancellation_requested := cancellation_requested r; ready_at := ready_at r; completed_at := completed_at r;
  faulted_arm := faulted_arm r; reason := reason r |}.
Definition with_abort (l : PairLifecycle) (why : string) (arm : option string) (t : float) (all : gset string)
    (r : PairRun) : PairRun := {|
  plan := plan r; staged_at := staged_at r; sessions := sessions r; models := models r; lifecycle := l;
  stage_acks := stage_acks r; ack_times := ack_times r; results := results r; releases := releases r;
  pending_cancels := all ∪ pending_cancels r; cancel_errors := cancel_errors r; cancellation_requested := true;
  ready_at := ready_at r; completed_at := Some t; faulted_arm := arm; reason := why |}.
Definition with_complete (t : float) (r : PairRun) : PairRun := {|
  plan := plan r; staged_at := staged_at r; sessions := sessions r; models := models r; lifecycle := COMPLETE;
  stage_acks := stage_acks r; ack_times := ack_times r; results := results r; releases := releases r;
  pending_cancels := pending_cancels r; cancel_errors := cancel_errors r;
  cancellation_requested := cancellation_requested r; ready_at := ready_at r; completed_at := Some t;
  faulted_arm := faulted_arm r; reason := reason r |}.

(** ** Operations ([BimanualCoordinator]) *)

Inductive kind := PLAN_STAGED | PLAN_CLEARED | LEG_RESULT | FAULT | OTHER.
#[export] Instance kind_eq_dec : EqDecision kind.
Proof. solve_decision. Defined.

(** A controller event; [ev_runtime] is [None] when the event carries no (or an
    empty) runtime state, [ev_ok] is whether the field is the value [True]. *)
Record event := {
  ev_kind : kind; ev_plan_id : option string; ev_ok : bool; ev_reason : option string; ev_runtime : option (option string) }.

(** What a handle call does: the events it delivers before it returns, and
    whether it raises. *)
Record reply := { r_events : list (string * event); r_raises : option exn }.

(** The constructor: the registry as (key, handle's own id) pairs, and both timeouts. *)
Definition check_init (arms : list (string * string)) (staging_timeout_s state_timeout_s : float) : result unit :=
  raise_if negb (length arms =? 2) of ValueError "a bimanual coordinator requires exactly two arms" ;;
  raise_if existsb (fun a => bool_decide (a.1 = "") || negb (bool_decide (a.2 = a.1))) arms
    of ValueError "arm handle identity must match its registry key" ;;
  raise_if existsb (fun v => negb (isfinite v) || (v <=f f0)) [staging_timeout_s; state_timeout_s]
    of ValueError "pair timeouts must be finite and positive" ;;
  Ok tt.

Section Coordinator.
(** The two registered arms, the timeouts, and the environment's answers. *)
Context (a0 a1 : string) (staging_timeout_s state_timeout_s : float).
Context (clock : nat -> float) (arm_state : nat -> result ArmControlState)
  (admission : option (nat -> option exn)) (handle : nat -> reply) (poll_events : nat -> result (list event))
  (release_enter release_exit : nat -> option exn).

Definition arms : list string := [a0; a1].
Definition arm_set : gset string := list_to_set arms.

Definition now : M float := k <~ ask ;; ret (clock k).
Definition raising (o : option exn) : M unit := match o with Some e => throw e | None => ret tt end.
Definition get_run : M PairRun :=
  s <~ get ;; match run s with Some r => ret r | None => throw (TypeError "NoneType") end.

(** [arm_states]: each handle's state, aged on its own clock reading. *)
Fixpoint read_states (l : list string) : M (list (string * ArmControlState)) :=
  match l with
  | [] => ret []
  | a :: l => k <~ ask ;; s <~ lift (arm_state k) ;; t <~ now ;; rest <~ read_states l ;;
              ret ((a, with_observation s t) :: rest)
  end.

Definition nonempty (s : option string) : bool := match s with Some s => negb (bool_decide (s = "")) | None => false end.
Definition truthy (b : option bool) : bool := match b with Some true => true | _ => false end.

Definition check_state (t : float) (s : ArmControlState) : result unit :=
  raise_if negb (nonempty (session_id s)) of ValueError "controller session unknown" ;;
  raise_if match observed_at s, state_age_sec s with
           | Some at_, Some age => negb (isfinite at_) || (at_ >f t) || negb (isfinite age) || (age >f state_timeout_s)
           | _, _ => true
           end of ValueError "measured state missing or stale" ;;
  raise_if match position s, velocity s with Some _, Some _ => false | _, _ => true end
    of ValueError "measured position/velocity unknown" ;;
  raise_if negb (truthy (armed s) && truthy (ready s)) of ValueError "not armed and ready" ;;
  raise_if match executing s, stopped s, frozen s with Some _, Some _, Some _ => false | _, _, _ => true end
    of ValueError "controller execution state unknown" ;;
  raise_if truthy (stopped s) || truthy (frozen s) || nonempty (fault_reason s) || negb (bool_decide (mode_law s = Some "joint"))
    of ValueError "controller faulted, frozen or outside joint mode" ;;
  Ok tt.

Definition states : M (list (string * ArmControlState)) :=
  l <~ read_states arms ;; t <~ now ;;
  let l := map (fun p => (p.1, with_observation p.2 t)) l in
  for_each (fun p => lift (check_state t p.2)) l ;~ ret l.

Definition state_of (l : list (string * ArmControlState)) (a : string) : M ArmControlState :=
  match find (fun p => bool_decide (p.1 = a)) l with Some p => ret p.2 | None => throw KeyError end.

Definition validate_member (m : ArmPlan) (s : ArmControlState) : result unit :=
  body <-- payload m ;;
  raise_if negb (bool_decide (b_plan_id body = plan_id m) && b_gated body)
    of ValueError "member identity/gated payload mismatch" ;;
  raise_if negb (bool_decide (b_model_token body = model_token s)) of ValueError "plan model token changed" ;;
  let q := b_positions body in
  let dq := b_velocities body in
  let t := b_times body in
  raise_if (length t <? 2) || negb (default fnan (head t) =f f0) || negb (forallb (fun d => d >f f0) (np_diff t))
           || negb (mat_finite q && mat_finite dq && all_finite t) || negb (same_shape q dq)
           || negb ((length q =? length t) && (ncols q =? length (default [] (position s))))
    of ValueError "malformed trajectory" ;;
  _ <-- JointTrajectory_new t q (Some dq) ;;
  Ok tt.

Definition check_admission : M unit := match admission with Some f => k <~ ask ;; raising (f k) | None => ret tt end.

(** [_finish]: the snapshot of the ended pair. *)
Definition finish : M unit := r <~ get_run ;; record_last (run_state r).

(** [on_member_event], over the abort routine it uses. *)
Definition handle_event (abort : PairLifecycle -> string -> option string -> M unit) (a : string) (e : event) : M unit :=
  if negb (bool_decide (a ∈ arms)) then throw KeyError else
  s <~ get ;;
  match run s with
  | None => ret tt
  | Some r =>
      if bool_decide (ev_kind e = PLAN_STAGED \/ ev_kind e = PLAN_CLEARED) && bool_decide (ev_runtime e = None) then ret tt
      else
        restarted <~ lift match ev_runtime e, sessions r !! a with
                          | None, _ => Ok false
                          | Some _, None => Err KeyError
                          | Some sid, Some session => Ok (negb (bool_decide (sid = Some session)))
                          end ;;
        if restarted then
              if active (lifecycle r) then abort FAULTED "controller restarted" (Some a) else ret tt
            else if bool_decide (ev_kind e = FAULT) then abort FAULTED (default "member fault" (ev_reason e)) (Some a)
            else
              match member (plan r) a with
              | None => throw KeyError
              | Some p =>
                  if negb (bool_decide (ev_plan_id e = Some (plan_id p))) then ret tt
                  else
                    let done := r <~ get_run ;; record_last (run_state r) in
                    if bool_decide (ev_kind e = PLAN_CLEARED) && cancellation_requested r then
                      (if ev_ok e
                       then upd (fun r => with_cancels (pending_cancels r ∖ {[a]}) (delete a (cancel_errors r)) r)
                       else upd (fun r => with_cancels (pending_cancels r)
                                            (<[a := default "clear refused" (ev_reason e)]> (cancel_errors r)) r)) ;~ done
                    else if bool_decide (ev_kind e = PLAN_STAGED) && bool_decide (lifecycle r = STAGING) then
                      match stage_acks r !! a with
                      | Some _ => ret tt
                      | None =>
                          (t <~ now ;;
                           upd (with_ack a (ev_ok e) (default "" (ev_reason e)) t) ;~
                           (if negb (ev_ok e) then abort REJECTED (default "None" (ev_reason e)) (Some a)
                            else r <~ get_run ;;
                                 if size (stage_acks r) =? 2 then t <~ now ;; upd (with_ready t) else ret tt)) ;~
                          done
                      end
                    else if bool_decide (ev_kind e = LEG_RESULT) then
                      (if active (lifecycle r) && negb (ev_ok e) then
                         upd (with_result a false (default "" (ev_reason e))) ;~
                         abort FAULTED (default "member failed" (ev_reason e)) (Some a)
                       else if bool_decide (lifecycle r = EXECUTING) && bool_decide (results r !! a = None) then
                         upd (with_result a true (default "" (ev_reason e))) ;~
                         r <~ get_run ;;
                         if size (results r) =? 2 then t <~ now ;; upd (with_complete t) ;~ finish else ret tt
                       else ret tt) ;~ done
                    else done
              end
  end.

(** Events delivered while cancels are sent find the pair no longer active,
    where [_abort] returns at once. *)
Definition no_abort (_ : PairLifecycle) (_ : string) (_ : option string) : M unit := ret tt.

Definition send_cancels : M unit :=
  r <~ get_run ;;
  for_each (fun a =>
    attempt
      (match member (plan r) a with
       | None => throw KeyError
       | Some p =>
           emit (Cancel a (plan_id p)) ;~
           k <~ ask ;;
           for_each (fun e => handle_event no_abort e.1 e.2) (r_events (handle k)) ;~
           raising (r_raises (handle k)) ;~
           upd (fun r => with_cancels (pending_cancels r) (delete a (cancel_errors r)) r)
       end)
      (fun _ => upd (fun r => with_cancels (pending_cancels r) (<[a := "cancel failed"]> (cancel_errors r)) r)))
    (elements (pending_cancels r)).

Definition abort (l : PairLifecycle) (why : string) (arm : option string) : M unit :=
  s <~ get ;;
  match run s with
  | None => ret tt
  | Some r =>
      if negb (active (lifecycle r)) then ret tt
      else t <~ now ;; upd (with_abort l why arm t arm_set) ;~ send_cancels ;~ finish
  end.

Definition on_member_event : string -> event -> M unit := handle_event abort.
Definition deliver (es : list (string * event)) : M unit := for_each (fun e => on_member_event e.1 e.2) es.

Definition is_active : M bool := s <~ get ;; ret (match run s with Some r => active (lifecycle r) | None => false end).

Definition sessions_of (l : list (string * ArmControlState)) : gmap string string :=
  list_to_map (map (fun p => (p.1, default "" (session_id p.2))) l).
Definition models_of (l : list (string * ArmControlState)) : gmap string (option string) :=
  list_to_map (map (fun p => (p.1, model_token p.2)) l).

Definition new_run (p : BimanualPlan) (t : float) (l : list (string * ArmControlState)) : PairRun := {|
  plan := p; staged_at := t; sessions := sessions_of l; models := models_of l; lifecycle := STAGING;
  stage_acks := ∅; ack_times := ∅; results := ∅; releases := ∅; pending_cancels := ∅; cancel_errors := ∅;
  cancellation_requested := false; ready_at := None; completed_at := None; faulted_arm := None; reason := "" |}.

Definition stage_pair (p : BimanualPlan) : M unit :=
  s <~ get ;;
  guard (match run s with
         | Some r => active (lifecycle r) || negb (bool_decide (pending_cancels r = ∅)) | None => false end)
    (ValueError "previous pair is active or cancellation is unconfirmed") ;~
  guard (negb (bool_decide (list_to_set (map fst (members p)) = arm_set)))
    (ValueError "pair members differ from coordinated arms") ;~
  guard (bool_decide (pair_id p ∈ consumed_pair_ids s)) (ValueError "pair id already consumed") ;~
  guard (existsb (fun m => bool_decide (plan_id m.2 ∈ consumed_plan_ids s)) (members p))
    (ValueError "member plan id already consumed") ;~
  l <~ states ;;
  for_each (fun m => st <~ state_of l m.1 ;;
              guard (truthy (executing st) || nonempty (running_plan_id st)) (ValueError "another plan owns the controller") ;~
              lift (validate_member m.2 st)) (members p) ;~
  check_admission ;~
  consume (pair_id p) (map (fun m => plan_id m.2) (members p)) ;~
  t <~ now ;; set_run (Some (new_run p t l)) ;~
  for_while (fun m =>
    emit (Stage m.1 m.2) ;~
    k <~ ask ;;
    attempt (deliver (r_events (handle k)) ;~ raising (r_raises (handle k)) ;~ is_active)
      (fun _ => abort REJECTED "staging failed" (Some m.1) ;~ ret false)) (members p).

Definition check_run : M unit :=
  r <~ get_run ;; l <~ states ;;
  for_each (fun p =>
    guard (negb (bool_decide (session_id p.2 = sessions r !! p.1))) (ValueError "controller restarted") ;~
    guard (negb (bool_decide (Some (model_token p.2) = models r !! p.1))) (ValueError "model changed")) l.

Definition poll (a : string) : M unit :=
  k <~ ask ;; es <~ lift (poll_events k) ;; for_each (on_member_event a) es.

(** The checks of [execute_pair]'s first [try]. *)
Definition recheck (r : PairRun) : M unit :=
  check_run ;~ l <~ states ;;
  for_each (fun m => st <~ state_of l m.1 ;;
    guard (negb (bool_decide (running_plan_id st = Some (plan_id m.2))) || truthy (executing st))
      (ValueError "staged plan is no longer loaded") ;~
    lift (validate_member m.2 st)) (members (plan r)) ;~ check_admission.

Definition release_one (m : string * ArmPlan) : M bool :=
  emit (Execute m.1 (plan_id m.2)) ;~
  k <~ ask ;;
  deliver (r_events (handle k)) ;~ raising (r_raises (handle k)) ;~
  t <~ now ;; upd (with_release m.1 t) ;~
  poll m.1 ;~
  r <~ get_run ;; ret (bool_decide (lifecycle r = EXECUTING)).

(** The [with] block: a member's failure names it, a failing exit names the
    last member reached. *)
Definition leave (arm : option string) : M unit :=
  k <~ ask ;; attempt (raising (release_exit k)) (fun _ => abort FAULTED "release failed" arm).
Fixpoint release_loop (l : list (string * ArmPlan)) (prev : option string) : M unit :=
  match l with
  | [] => leave prev
  | m :: l =>
      go <~ attempt (b <~ release_one m ;; ret (Some b))
              (fun _ => abort FAULTED "release failed" (Some m.1) ;~ ret None) ;;
      match go with
      | Some true => release_loop l (Some m.1)
      | Some false => leave (Some m.1)
      | None => ret tt
      end
  end.
Definition release_all (r : PairRun) : M unit :=
  k <~ ask ;;
  entered <~ attempt (raising (release_enter k) ;~ ret true) (fun _ => abort FAULTED "release failed" None ;~ ret false) ;;
  if entered then release_loop (members (plan r)) None else ret tt.

Definition execute_pair (id : string) : M unit :=
  s <~ get ;;
  match run s with
  | None => throw (ValueError "no active pair")
  | Some r =>
      if negb (bool_decide (pair_id (plan r) = id)) then throw (ValueError "no active pair")
      else if bool_decide (lifecycle r = EXECUTING) then ret tt
      else if negb (bool_decide (lifecycle r = READY)) then throw (ValueError "not ready")
      else
        ok <~ attempt (recheck r ;~ ret true) (fun _ => abort REJECTED "recheck failed" None ;~ ret false) ;;
        if ok then upd (with_lifecycle EXECUTING) ;~ release_all r else ret tt
  end.

Definition cancel_pair (why : string) : M unit :=
  s <~ get ;;
  match run s with
  | None => ret tt
  | Some r => if active (lifecycle r) then abort CANCELLED why None
              else if negb (bool_decide (pending_cancels r = ∅)) then send_cancels else ret tt
  end.

Definition check_timeouts : M unit :=
  s <~ get ;;
  match run s with
  | None => ret tt
  | Some r =>
      if negb (active (lifecycle r)) then ret tt
      else
        ok <~ attempt (check_run ;~ ret true)
               (fun e => if is_ValueError e then abort FAULTED "check failed" None ;~ ret false else throw e) ;;
        if ok then
          r <~ get_run ;;
          if bool_decide (lifecycle r = STAGING) then
            t <~ now ;; if (t -f staged_at r) >f staging_timeout_s then abort REJECTED "staging ACK timeout" None else ret tt
          else ret tt
        else ret tt
  end.

Definition pump : M unit := for_each poll arms ;~ check_timeouts.

(** [pair_state]: the current run's, else the last snapshot under that id. *)
Definition pair_state (id : option string) (s : coord) : result PairState :=
  match run s with
  | Some r =>
      if match id with None => true | Some i => bool_decide (i = pair_id (plan r)) end then Ok (run_state r)
      else match id with
           | Some i => match last_states s !! i with Some st => Ok st | None => Err KeyError end
           | None => Ok PairState0
           end
  | None => match id with
            | Some i => match last_states s !! i with Some st => Ok st | None => Err KeyError end
            | None => Ok PairState0
            end
  end.

(** The public operations. *)
Inductive op := StagePair (p : BimanualPlan) | ExecutePair (id : string) | CancelPair (why : string)
  | Event (a : string) (e : event) | CheckTimeouts | Pump.
Definition do_op (o : op) : M unit :=
  match o with
  | StagePair p => stage_pair p
  | ExecutePair id => execute_pair id
  | CancelPair why => cancel_pair why
  | Event a e => on_member_event a e
  | CheckTimeouts => check_timeouts
  | Pump => pump
  end.

Definition coord0 : coord := {|
  run := None; last_states := ∅; consumed_pair_ids := ∅; consumed_plan_ids := ∅; asked := 0; log := [] |}.
(** Plans come from their constructor. *)
Definition op_ok (o : op) : Prop := match o with StagePair p => BimanualPlan_new p = Ok p | _ => True end.
Inductive reachable : coord -> Prop :=
  | reach_init : reachable coord0
  | reach_op s o : reachable s -> op_ok o -> reachable (do_op o s).2.

(** ** Invariants *)

Definition aborted (l : PairLifecycle) : bool :=
  match l with CANCELLED | FAULTED | REJECTED => true | _ => false end.

Definition all_acked (r : PairRun) : Prop := forall a, a ∈ arms -> exists why, stage_acks r !! a = Some (true, why).

(** What stays true of a run through an abort. *)
Record weak (r : PairRun) : Prop := {
  w_members : list_to_set (map fst (members (plan r))) = arm_set;
  w_acks : dom (stage_acks r) ⊆ arm_set;
  w_results : dom (results r) ⊆ arm_set;
  w_released : releases r <> ∅ -> all_acked r;
}.
Record run_inv (r : PairRun) : Prop := {
  ri_weak : weak r;
  ri_idle : lifecycle r <> IDLE;
  ri_staging : lifecycle r = STAGING -> forall a x, stage_acks r !! a = Some x -> x.1 = true;
  ri_acked : lifecycle r = READY \/ lifecycle r = EXECUTING \/ lifecycle r = COMPLETE -> all_acked r;
  ri_results : active (lifecycle r) = true \/ lifecycle r = COMPLETE -> forall a x, results r !! a = Some x -> x.1 = true;
  ri_complete : lifecycle r = COMPLETE -> forall a, a ∈ arms -> is_Some (results r !! a);
  ri_pending : active (lifecycle r) = true \/ lifecycle r = COMPLETE ->
    cancellation_requested r = false /\ pending_cancels r = ∅;
  ri_aborted : aborted (lifecycle r) = true -> cancellation_requested r = true;
}.

Definition staged (l : list call) : list string :=
  omap (fun c => match c with Stage _ p => Some (plan_id p) | _ => None end) l.
Record Inv (s : coord) : Prop := {
  inv_run r : run s = Some r -> run_inv r;
  inv_nodup : NoDup (staged (log s));
  inv_consumed i : i ∈ staged (log s) -> i ∈ consumed_plan_ids s;
}.

Definition is_cancel (c : call) : Prop := match c with Cancel _ _ => True | _ => False end.

(** Both members of the pair were sent their cancel. *)
Definition both_cancelled (p : BimanualPlan) (new : list call) : Prop :=
  forall a, a ∈ arms -> exists m, member p a = Some m /\ Cancel a (plan_id m) ∈ new.

(** How one run object may evolve. *)
Record evolves (new : list call) (r r' : PairRun) : Prop := {
  ev_plan : plan r' = plan r;
  ev_acked : all_acked r -> all_acked r';
  ev_frozen : active (lifecycle r) = false ->
    lifecycle r' = lifecycle r /\ results r' = results r /\ reason r' = reason r;
  ev_cancelled : active (lifecycle r) = true -> aborted (lifecycle r') = true -> both_cancelled (plan r) new;
}.

(** [G C s s']: from an invariant state to another, logging only calls in
    [C], keeping the run object and the consumed ids. *)
Record G (C : call -> Prop) (s s' : coord) : Prop := {
  g_inv : Inv s';
  g_log : exists new, log s' = new ++ log s /\ Forall C new /\ staged new = [] /\
    (forall r, run s = Some r -> exists r', run s' = Some r' /\ evolves new r r');
  g_none : run s = None -> run s' = None;
  g_consumed : consumed_plan_ids s' = consumed_plan_ids s;
}.

Lemma staged_app l l' : staged (l ++ l') = staged l ++ staged l'.
Proof. apply omap_app. Qed.

Lemma both_cancelled_mono p l l' : both_cancelled p l -> both_cancelled p (l' ++ l).
Proof.
  intros H a Ha. destruct (H a Ha) as (m & Hm & Hin). exists m. split; [done|]. apply elem_of_app. by right.
Qed.
Lemma both_cancelled_mono' p l l' : both_cancelled p l' -> both_cancelled p (l' ++ l).
Proof.
  intros H a Ha. destruct (H a Ha) as (m & Hm & Hin). exists m. split; [done|]. apply elem_of_app. by left.
Qed.

Lemma evolves_refl r : evolves [] r r.
Proof. split; try done. intros Ha Hb. by destruct (lifecycle r). Qed.

Lemma evolves_trans n1 n2 r r1 r2 :
  evolves n1 r r1 -> evolves n2 r1 r2 -> evolves (n2 ++ n1) r r2.
Proof.
  intros [P1 A1 F1 C1] [P2 A2 F2 C2]. split.
  - congruence.
  - auto.
  - intros H. destruct (F1 H) as (E1 & E2 & E3). rewrite E1 in F2. destruct (F2 H) as (D1 & D2 & D3).
    split; [done|]. split; congruence.
  - intros Ha Hb. destruct (active (lifecycle r1)) eqn:E.
    + rewrite <-P1. apply both_cancelled_mono'. auto.
    + apply both_cancelled_mono. apply C1; [done|]. destruct (F2 eq_refl) as (<- & _). done.
Qed.

Lemma G_refl C s : Inv s -> G C s s.
Proof.
  intros H. split; [done| |done|done]. exists []. split; [done|]. split; [constructor|]. split; [done|].
  intros r Hr. exists r. split; [done|]. apply evolves_refl.
Qed.

Lemma G_trans C s s1 s2 : G C s s1 -> G C s1 s2 -> G C s s2.
Proof.
  intros [I1 (n1 & L1 & F1 & T1 & R1) N1 K1] [I2 (n2 & L2 & F2 & T2 & R2) N2 K2].
  split; [done| |auto|congruence]. exists (n2 ++ n1). rewrite L2, L1, app_assoc. split; [done|].
  split; [by apply Forall_app|]. split; [by rewrite staged_app, T1, T2|].
  intros r Hr. destruct (R1 r Hr) as (r1 & Hr1 & E1). destruct (R2 r1 Hr1) as (r2 & Hr2 & E2).
  exists r2. split; [done|]. by eapply evolves_trans.
Qed.

Lemma G_mono C C' s s' : (forall c, C c -> C' c) -> G C s s' -> G C' s s'.
Proof.
  intros H [I (n & L & F & T & R) N K]. split; [done| |done|done]. exists n. split; [done|].
  split; [|done]. eapply Forall_impl; [exact F|done].
Qed.

(** Steps that only ask the environment or write the snapshot table. *)
Definition quiet (s s' : coord) : Prop :=
  run s' = run s /\ log s' = log s /\ consumed_plan_ids s' = consumed_plan_ids s.

Lemma quiet_G C s s' : Inv s -> quiet s s' -> G C s s'.
Proof.
  intros [I1 I2 I3] (Q1 & Q2 & Q3). split; [|..|congruence].
  - split; rewrite ?Q1, ?Q2, ?Q3; done.
  - exists []. split; [by rewrite Q2|]. split; [constructor|]. split; [done|].
    intros r Hr. exists r. split; [congruence|]. apply evolves_refl.
  - congruence.
Qed.

(** A computation that evolves the state through [G] from any invariant state. *)
Definition good {A} (C : call -> Prop) (m : M A) : Prop := forall s, Inv s -> G C s (m s).2.

Lemma good_quiet {A} C (m : M A) : (forall s, quiet s (m s).2) -> good C m.
Proof. intros H s Hs. by apply quiet_G. Qed.

Lemma good_bind {A B} C (m : M A) (k : A -> M B) : good C m -> (forall a, good C (k a)) -> good C (bind m k).
Proof.
  intros Hm Hk s Hs. unfold bind. specialize (Hm s Hs). destruct (m s) as [[a|e] s1]; simpl in *; [|done].
  eapply G_trans; [exact Hm|]. apply Hk. by destruct Hm.
Qed.

Lemma good_attempt {A} C (m : M A) h : good C m -> (forall e, good C (h e)) -> good C (attempt m h).
Proof.
  intros Hm Hk s Hs. unfold attempt. specialize (Hm s Hs). destruct (m s) as [[a|e] s1]; simpl in *; [done|].
  eapply G_trans; [exact Hm|]. apply Hk. by destruct Hm.
Qed.

Lemma good_for_each {A} C (f : A -> M unit) l : (forall a, good C (f a)) -> good C (for_each f l).
Proof. intros Hf. induction l as [|a l IH]; simpl; [intros s Hs; by apply G_refl|]. by apply good_bind. Qed.

Lemma quiet_refl s : quiet s s.
Proof. done. Qed.
Lemma quiet_trans s s1 s2 : quiet s s1 -> quiet s1 s2 -> quiet s s2.
Proof. intros (? & ? & ?) (? & ? & ?). split; [congruence|split; congruence]. Qed.

Definition silent {A} (m : M A) : Prop := forall s, quiet s (m s).2.
Lemma silent_bind {A B} (m : M A) (k : A -> M B) : silent m -> (forall a, silent (k a)) -> silent (bind m k).
Proof.
  intros Hm Hk s. unfold bind. specialize (Hm s). destruct (m s) as [[a|e] s1]; simpl in *; [|done].
  eapply quiet_trans; [exact Hm|]. apply Hk.
Qed.
Lemma silent_for_each {A} (f : A -> M unit) l : (forall a, silent (f a)) -> silent (for_each f l).
Proof. intros Hf. induction l as [|a l IH]; simpl; [done|]. by apply silent_bind. Qed.
Lemma silent_guard c e : silent (guard c e).
Proof. intros s. by destruct c. Qed.
Lemma silent_now : silent now.
Proof. intros s. done. Qed.
Lemma silent_read_states l : silent (read_states l).
Proof.
  induction l as [|a l IH]; simpl; [done|]. apply silent_bind; [done|]. intros k.
  apply silent_bind; [done|]. intros st. apply silent_bind; [done|]. intros t. by apply silent_bind.
Qed.
Lemma silent_states : silent states.
Proof.
  apply silent_bind; [apply silent_read_states|]. intros l. apply silent_bind; [done|]. intros t.
  apply silent_bind; [|done]. by apply silent_for_each.
Qed.

Lemma silent_state_of l a : silent (state_of l a).
Proof. intros s. unfold state_of. by destruct (find _ l). Qed.
Lemma silent_check_admission : silent check_admission.
Proof. unfold check_admission. destruct admission as [f|]; [|done]. apply silent_bind; [done|]. intros k s. by destruct (f k). Qed.
Lemma silent_raising o : silent (raising o).
Proof. intros s. by destruct o. Qed.
Lemma silent_get_run : silent get_run.
Proof. intros s. unfold get_run, bind. simpl. by destruct (run s). Qed.
Lemma silent_check_run : silent check_run.
Proof.
  apply silent_bind; [apply silent_get_run|]. intros r. apply silent_bind; [apply silent_states|]. intros l.
  apply silent_for_each. intros p. apply silent_bind; intros; apply silent_guard.
Qed.
Lemma silent_recheck r : silent (recheck r).
Proof.
  apply silent_bind; [apply silent_check_run|]. intros _. apply silent_bind; [apply silent_states|]. intros l.
  apply silent_bind; [|intros; apply silent_check_admission]. apply silent_for_each. intros m.
  apply silent_bind; [apply silent_state_of|]. intros st. apply silent_bind; [apply silent_guard|done].
Qed.
Lemma silent_finish : silent finish.
Proof. apply silent_bind; [apply silent_get_run|done]. Qed.

(** *** Cancels *)

Lemma weak_ext r r' :
  plan r' = plan r -> stage_acks r' = stage_acks r -> results r' = results r -> releases r' = releases r ->
  weak r -> weak r'.
Proof.
  intros E1 E2 E3 E4 [H1 H2 H3 H4]. unfold all_acked in *. split; unfold all_acked; rewrite ?E1, ?E2, ?E3, ?E4; done.
Qed.

(** An update of an aborted run's cancel bookkeeping. *)
Lemma with_cancels_G C s r pending errors :
  Inv s -> run s = Some r -> cancellation_requested r = true ->
  G C s (set_run (Some (with_cancels pending errors r)) s).2.
Proof.
  intros [I1 I2 I3] Hr Hc. pose proof (I1 r Hr) as Ir.
  assert (active (lifecycle r) = false /\ lifecycle r <> COMPLETE) as [Ha Hco].
  { split; [destruct (active (lifecycle r)) eqn:E; [|done]|intros E];
      destruct (ri_pending r Ir) as [H _]; [by left| |by right|]; congruence. }
  split; simpl; [|..|done].
  - split; simpl; [|done|done]. intros r' [= <-]. destruct Ir as [? ? ? ? ? ? ? ?]. split; simpl; try done.
    + by eapply (weak_ext r).
    + intros [?|?]; congruence.
  - exists []. split; [done|]. split; [constructor|]. split; [done|]. intros r0 Hr0. simplify_eq.
    eexists. split; [done|]. split; simpl; try done. intros; congruence.
  - congruence.
Qed.

Lemma upd_cancels_G C f s r :
  Inv s -> run s = Some r -> cancellation_requested r = true ->
  (forall r, exists pending errors, f r = with_cancels pending errors r) -> G C s (upd f s).2.
Proof.
  intros Hs Hr Hc Hf. unfold upd, bind. simpl. rewrite Hr. simpl. destruct (Hf r) as (p & e & ->).
  by apply with_cancels_G.
Qed.

(** An event that finds the pair ended changes only the cancel bookkeeping. *)
Definition ended (s : coord) : Prop := exists r, run s = Some r /\ active (lifecycle r) = false.

Lemma event_ended ab a e s :
  (forall l why arm s, ended s -> (ab l why arm s).2 = s) ->
  Inv s -> ended s -> G is_cancel s (handle_event ab a e s).2.
Proof.
  intros Hab Hs He. pose proof He as (r & Hr & Ha). unfold handle_event.
  destruct (negb (bool_decide (a ∈ arms))); [by apply G_refl|]. unfold bind at 1. cbn [get]. rewrite Hr.
  destruct (_ && _); [by apply G_refl|]. unfold bind at 1. unfold lift at 1.
  destruct (match ev_runtime e with Some _ => _ | None => _ end) as [[]|]; [|..|by apply G_refl].
  { rewrite Ha. by apply G_refl. }
  destruct (bool_decide (ev_kind e = FAULT)); [rewrite Hab by done; by apply G_refl|].
  destruct (member (plan r) a) as [p|]; [|by apply G_refl].
  destruct (negb (bool_decide (ev_plan_id e = _))); [by apply G_refl|].
  assert (forall s, Inv s -> G is_cancel s ((r <~ get_run ;; record_last (run_state r)) s).2) as Hdone
    by (intros; by apply quiet_G, silent_finish).
  destruct (bool_decide (ev_kind e = PLAN_CLEARED) && cancellation_requested r) eqn:Ec.
  { apply andb_true_iff in Ec as [_ Ec].
    destruct (ev_ok e); unfold bind at 1; cbn [upd bind get set_run];
      (eapply G_trans; [eapply (upd_cancels_G _ _ s r); eauto|apply Hdone; eapply g_inv; eapply (upd_cancels_G is_cancel _ s r); eauto]). }
  destruct (bool_decide (ev_kind e = PLAN_STAGED) && bool_decide (lifecycle r = STAGING)) eqn:Es.
  { apply andb_true_iff in Es as [_ Es%bool_decide_eq_true]. by rewrite Es in Ha. }
  destruct (bool_decide (ev_kind e = LEG_RESULT)); [|by apply Hdone].
  rewrite Ha. cbn [andb].
  destruct (bool_decide (lifecycle r = EXECUTING)) eqn:Ex; [apply bool_decide_eq_true in Ex; by rewrite Ex in Ha|].
  cbn [andb]. by apply Hdone.
Qed.

Definition aborted_run (p : BimanualPlan) (s : coord) : Prop :=
  exists r, run s = Some r /\ plan r = p /\ aborted (lifecycle r) = true.

Lemma aborted_ended p s : aborted_run p s -> ended s.
Proof. intros (r & Hr & _ & Ha). exists r. split; [done|]. by destruct (lifecycle r). Qed.

Lemma aborted_G C p s s' : G C s s' -> aborted_run p s -> aborted_run p s'.
Proof.
  intros [_ (n & _ & _ & _ & R) _ _] (r & Hr & Hp & Ha). destruct (R r Hr) as (r' & Hr' & [E1 _ E3 _]).
  exists r'. split; [done|]. destruct E3 as (E3 & _); [by destruct (lifecycle r)|]. split; [congruence|by rewrite E3].
Qed.

Lemma aborted_requested p s : Inv s -> aborted_run p s -> exists r, run s = Some r /\ cancellation_requested r = true.
Proof. intros Hs (r & Hr & _ & Ha). exists r. split; [done|]. by apply (ri_aborted r (inv_run s Hs r Hr)). Qed.

Lemma emit_G (C : call -> Prop) c s : Inv s -> C c -> staged [c] = [] -> G C s (emit c s).2.
Proof.
  intros [I1 I2 I3] Hc Hst. simpl. assert (staged (c :: log s) = staged (log s)) as E
    by (transitivity (staged [c] ++ staged (log s)); [apply (staged_app [c])|by rewrite Hst]).
  split; simpl; [|..|done].
  - split; [done|..]; cbn [log consumed_plan_ids]; by rewrite E.
  - exists [c]. split; [done|]. split; [by constructor|]. split; [done|]. intros r Hr. exists r. split; [done|].
    split; try done. intros Ha Hb. by destruct (lifecycle r).
  - done.
Qed.

Lemma quiet_ask s : quiet s (ask s).2.
Proof. done. Qed.

Lemma events_ended p ab l s :
  (forall l why arm s, ended s -> (ab l why arm s).2 = s) ->
  Inv s -> aborted_run p s ->
  G is_cancel s (for_each (fun e : string * event => handle_event ab e.1 e.2) l s).2.
Proof.
  intros Hab. revert s. induction l as [|e l IH]; intros s Hs Ha; simpl; [by apply G_refl|].
  unfold bind. pose proof (event_ended ab e.1 e.2 s Hab Hs (aborted_ended p s Ha)) as He.
  destruct (handle_event ab e.1 e.2 s) as [[[]|x] s1]; simpl in *; [|done].
  eapply G_trans; [exact He|]. apply IH; [by destruct He|by eapply aborted_G].
Qed.

Lemma no_abort_ended l why arm s : ended s -> (no_abort l why arm s).2 = s.
Proof. done. Qed.

(** One pass of the cancel loop: it never raises and always sends. *)
Definition cancel_one (p : BimanualPlan) (a : string) : M unit :=
  attempt
    (match member p a with
     | None => throw KeyError
     | Some m =>
         emit (Cancel a (plan_id m)) ;~
         k <~ ask ;;
         for_each (fun e => handle_event no_abort e.1 e.2) (r_events (handle k)) ;~
         raising (r_raises (handle k)) ;~
         upd (fun r => with_cancels (pending_cancels r) (delete a (cancel_errors r)) r)
     end)
    (fun _ => upd (fun r => with_cancels (pending_cancels r) (<[a := "cancel failed"]> (cancel_errors r)) r)).

(** The step from [s] to [s'] sent [c]. *)
Definition adds (s s' : coord) (c : call) : Prop := exists new, log s' = new ++ log s /\ c ∈ new.

Lemma adds_G C s s1 s2 c : adds s s1 c -> G C s1 s2 -> adds s s2 c.
Proof.
  intros (n1 & L1 & Hc) [_ (n & L & _) _ _]. exists (n ++ n1). rewrite L, L1, app_assoc. split; [done|].
  apply elem_of_app. by right.
Qed.
Lemma G_adds C s s1 s2 c : G C s s1 -> adds s1 s2 c -> adds s s2 c.
Proof.
  intros [_ (n & L & _) _ _] (n1 & L1 & Hc). exists (n1 ++ n). rewrite L1, L, app_assoc. split; [done|].
  apply elem_of_app. by left.
Qed.

Lemma upd_cancels_good p s f :
  Inv s -> aborted_run p s -> (forall r, exists pending errors, f r = with_cancels pending errors r) ->
  G is_cancel s (upd f s).2 /\ (upd f s).1 = Ok tt.
Proof.
  intros Hs Ha Hf. destruct (aborted_requested p s Hs Ha) as (r & Hr & Hc). split; [|done]. by eapply upd_cancels_G.
Qed.

Definition sent_from (s : coord) (c : call) (out : result unit * coord) : Prop :=
  G is_cancel s out.2 /\ adds s out.2 c.

Lemma cancel_one_ok p a m s :
  Inv s -> aborted_run p s -> member p a = Some m ->
  (cancel_one p a s).1 = Ok tt /\ G is_cancel s (cancel_one p a s).2 /\
  adds s (cancel_one p a s).2 (Cancel a (plan_id m)).
Proof.
  intros Hs Ha Hm. unfold cancel_one, attempt. rewrite Hm.
  set (body := (emit _ ;~ _)).
  assert (sent_from s (Cancel a (plan_id m)) (body s)) as [Hb Hin].
  { unfold body. unfold bind at 1. pose proof (emit_G is_cancel (Cancel a (plan_id m)) s Hs I eq_refl) as He.
    set (s1 := (emit (Cancel a (plan_id m)) s).2) in *. change (emit (Cancel a (plan_id m)) s) with (@Ok unit tt, s1).
    cbv iota beta.
    assert (adds s s1 (Cancel a (plan_id m))) as Hin1 by (exists [Cancel a (plan_id m)]; split; [done|by left]).
    pose proof (aborted_G _ _ _ _ He Ha) as Ha1. pose proof (g_inv _ _ _ He) as Hs1. clearbody s1.
    unfold bind at 1. pose proof (quiet_G is_cancel s1 _ Hs1 (quiet_ask s1)) as Hq.
    set (s2 := (ask s1).2) in *. change (ask s1) with (Ok (asked s1), s2). cbv iota beta.
    pose proof (aborted_G _ _ _ _ Hq Ha1) as Ha2. pose proof (g_inv _ _ _ Hq) as Hs2. clearbody s2.
    pose proof (G_trans _ _ _ _ He Hq) as H02. pose proof (adds_G _ _ _ _ _ Hin1 Hq) as Hin2.
    unfold bind at 1. pose proof (events_ended p no_abort (r_events (handle (asked s1))) s2 no_abort_ended Hs2 Ha2) as H3.
    destruct (for_each _ _ s2) as [[[]|x] s3]; simpl in H3;
      [|simpl; split; [exact (G_trans _ _ _ _ H02 H3)|exact (adds_G _ _ _ _ _ Hin2 H3)]].
    pose proof (aborted_G _ _ _ _ H3 Ha2) as Ha3. pose proof (g_inv _ _ _ H3) as Hs3.
    unfold bind. destruct (r_raises (handle (asked s1))); simpl;
      [split; [exact (G_trans _ _ _ _ H02 H3)|exact (adds_G _ _ _ _ _ Hin2 H3)]|].
    destruct (upd_cancels_good p s3 (fun r => with_cancels (pending_cancels r) (delete a (cancel_errors r)) r)) as [H4 _];
      [done..|eauto|]. split; [exact (G_trans _ _ _ _ H02 (G_trans _ _ _ _ H3 H4))|].
    exact (adds_G _ _ _ _ _ (adds_G _ _ _ _ _ Hin2 H3) H4). }
  destruct (body s) as [[[]|x] s1]; simpl in *; [done|].
  destruct (upd_cancels_good p s1 (fun r => with_cancels (pending_cancels r) (<[a := "cancel failed"]> (cancel_errors r)) r))
    as [H4 H5]; [by destruct Hb|by eapply aborted_G|eauto|].
  split; [done|]. split; [exact (G_trans _ _ _ _ Hb H4)|exact (adds_G _ _ _ _ _ Hin H4)].
Qed.

Lemma cancel_loop_ok p l s :
  Inv s -> aborted_run p s -> (forall a, a ∈ l -> is_Some (member p a)) ->
  G is_cancel s (for_each (cancel_one p) l s).2 /\ (for_each (cancel_one p) l s).1 = Ok tt /\
  (forall a, a ∈ l -> exists m, member p a = Some m /\ adds s (for_each (cancel_one p) l s).2 (Cancel a (plan_id m))).
Proof.
  revert s. induction l as [|a l IH]; intros s Hs Ha Hm; simpl.
  { split; [by apply G_refl|]. split; [done|]. intros a Hin. by apply elem_of_nil in Hin. }
  destruct (Hm a) as [m Hma]; [by left|]. destruct (cancel_one_ok p a m s Hs Ha Hma) as (H1 & H2 & H3).
  unfold bind. destruct (cancel_one p a s) as [[[]|x] s1]; simpl in *; [|done].
  destruct (IH s1) as (H4 & H5 & H6); [by destruct H2|by eapply aborted_G|intros; apply Hm; by right|].
  split; [by eapply G_trans|]. split; [done|]. intros b [-> |Hb]%elem_of_cons.
  - exists m. split; [done|]. exact (adds_G _ _ _ _ _ H3 H4).
  - destruct (H6 b Hb) as (m' & Hm' & Hc). exists m'. split; [done|]. exact (G_adds _ _ _ _ _ H2 Hc).
Qed.

Lemma members_member p a : a ∈ map fst (members p) -> is_Some (member p a).
Proof.
  unfold members, member. destruct (bool_decide (ap_arm_id (left p) = _)) eqn:E; simpl; rewrite ?elem_of_cons, ?elem_of_nil;
    intros H; destruct (bool_decide (a = ap_arm_id (right p))) eqn:E1; [by eexists| |by eexists|];
    destruct (bool_decide (a = ap_arm_id (left p))) eqn:E2; try (by eexists); breflect; naive_solver.
Qed.

(** *** Aborts *)

Record aborts_to (l : PairLifecycle) (s : coord) (r : PairRun) (s' : coord) : Prop := {
  at_inv : Inv s';
  at_run : exists r', run s' = Some r' /\ lifecycle r' = l /\ plan r' = plan r /\ (all_acked r -> all_acked r') /\
    exists new, log s' = new ++ log s /\ Forall is_cancel new /\ staged new = [] /\ both_cancelled (plan r) new;
  at_consumed : consumed_plan_ids s' = consumed_plan_ids s;
}.

Lemma send_cancels_ok p s r :
  Inv s -> run s = Some r -> aborted_run p s -> (forall a, a ∈ pending_cancels r -> is_Some (member p a)) ->
  G is_cancel s (send_cancels s).2 /\ (send_cancels s).1 = Ok tt /\
  (forall a, a ∈ pending_cancels r -> exists m, member p a = Some m /\ adds s (send_cancels s).2 (Cancel a (plan_id m))).
Proof.
  intros Hs Hr Ha Hm. assert (plan r = p) as Hp by (destruct Ha as (r' & Hr' & Hp & _); congruence).
  assert (send_cancels s = for_each (cancel_one p) (elements (pending_cancels r)) s) as ->.
  { unfold send_cancels, bind at 1, get_run, bind at 1. cbn [get]. rewrite Hr. cbn [ret]. by rewrite Hp. }
  destruct (cancel_loop_ok p (elements (pending_cancels r)) s) as (H1 & H2 & H3); [done..| |].
  - intros a Hin. by apply Hm, elem_of_elements.
  - split; [done|]. split; [done|]. intros a Hin. by apply H3, elem_of_elements.
Qed.

Lemma weak_member r a : weak r -> a ∈ arms -> is_Some (member (plan r) a).
Proof.
  intros Hw Ha. apply members_member. apply (elem_of_list_to_set (C := gset string)).
  rewrite (w_members r Hw). unfold arm_set. by apply elem_of_list_to_set.
Qed.

Lemma Inv_log_new s new s' :
  log s' = new ++ log s -> staged new = [] -> consumed_plan_ids s' = consumed_plan_ids s ->
  NoDup (staged (log s)) -> (forall i, i ∈ staged (log s) -> i ∈ consumed_plan_ids s) ->
  NoDup (staged (log s')) /\ (forall i, i ∈ staged (log s') -> i ∈ consumed_plan_ids s').
Proof. intros -> Hn -> H1 H2. rewrite staged_app, Hn. done. Qed.

Lemma with_abort_inv l why arm t r :
  weak r -> aborted l = true -> run_inv (with_abort l why arm t arm_set r).
Proof.
  intros Hw Hl. split; simpl; try (intros ->; done); try (by destruct l).
  - by eapply (weak_ext r).
  - intros [->|[->| ->]]; done.
  - intros [H|H]; [by destruct l|by subst].
  - intros [H|H]; [by destruct l|by subst].
Qed.

Lemma abort_active l why arm s r :
  run s = Some r -> weak r -> active (lifecycle r) = true -> pending_cancels r = ∅ -> aborted l = true ->
  NoDup (staged (log s)) -> (forall i, i ∈ staged (log s) -> i ∈ consumed_plan_ids s) ->
  aborts_to l s r (abort l why arm s).2.
Proof.
  intros Hr Hw Ha Hpend Hl Hnd Hco. unfold abort. unfold bind at 1. cbn [get]. rewrite Hr, Ha. cbn [negb].
  unfold bind at 1. unfold now at 1. unfold bind at 1. cbn [ask ret].
  unfold bind at 1. unfold upd at 1. unfold bind at 1. cbn [get set_run run]. rewrite Hr. cbn [fmap option_fmap option_map].
  set (r1 := with_abort l why arm (clock (asked s)) arm_set r).
  set (s1 := {| run := Some r1; last_states := _; consumed_pair_ids := _; consumed_plan_ids := _; asked := _; log := _ |}).
  assert (Inv s1) as Hs1.
  { split; [|done|done]. intros r' [= <-]. by apply with_abort_inv. }
  assert (aborted_run (plan r) s1) as Ha1 by (by exists r1).
  assert (forall a, a ∈ pending_cancels r1 <-> a ∈ arms) as Hpe.
  { intros a. simpl. rewrite Hpend. unfold arm_set. rewrite elem_of_union, elem_of_list_to_set. set_solver. }
  destruct (send_cancels_ok (plan r) s1 r1 Hs1 eq_refl Ha1) as (H1 & H2 & H3).
  { intros a Hin%Hpe. by apply (weak_member r). }
  unfold bind at 1. destruct (send_cancels s1) as [[[]|x] s2]; [|done]. cbn [fst snd] in *.
  pose proof (quiet_G is_cancel s2 _ (g_inv _ _ _ H1) (silent_finish s2)) as H4.
  pose proof (G_trans _ _ _ _ H1 H4) as H5. set (s3 := (finish s2).2) in *. clearbody s3.
  split; [apply H5| |apply (g_consumed _ _ _ H5)].
  destruct H5 as [Hi (new & L & F & T & R) _ _]. destruct (R r1 eq_refl) as (r' & Hr' & [E1 E2 E3 _]).
  exists r'. split; [done|]. destruct E3 as (E3 & _); [simpl; by destruct l|]. split; [done|].
  split; [done|]. split; [by apply E2|]. exists new. split; [done|]. split; [done|]. split; [done|].
  intros a Hin. destruct (H3 a) as (m & Hm & Hc); [by apply Hpe|]. exists m. split; [done|].
  destruct (adds_G _ _ _ _ _ Hc H4) as (new' & L' & Hin').
  assert (new' = new) as <-; [|done]. apply (app_inv_tail (log s1)). by rewrite <-L, <-L'.
Qed.

(** *** Events *)

Definition put (s : coord) (r : PairRun) : coord := (set_run (Some r) s).2.
Definition tick (s : coord) : coord := (ask s).2.

Lemma bind_now {A} (k : float -> M A) s : bind now k s = k (clock (asked s)) (tick s).
Proof. done. Qed.
Lemma bind_upd {A} f (k : unit -> M A) s r : run s = Some r -> bind (upd f) k s = k tt (put s (f r)).
Proof. intros Hr. unfold bind, upd, bind, put. cbn [get set_run]. by rewrite Hr. Qed.
Lemma upd_eq f s r : run s = Some r -> upd f s = (Ok tt, put s (f r)).
Proof. intros Hr. unfold upd, bind, put. cbn [get set_run]. by rewrite Hr. Qed.
Lemma bind_get_run {A} (k : PairRun -> M A) s r : run s = Some r -> bind get_run k s = k r s.
Proof. intros Hr. unfold bind, get_run, bind. cbn [get]. by rewrite Hr. Qed.
Lemma bind_run {A B} (m : M A) (k : A -> M B) s : (bind m k s).2 = match m s with (Ok a, s') => (k a s').2 | (Err _, s') => s' end.
Proof. unfold bind. by destruct (m s) as [[] ?]. Qed.

Lemma abort_ended l why arm s : ended s -> (abort l why arm s).2 = s.
Proof.
  intros (r & Hr & Ha). unfold abort, bind. cbn [get]. rewrite Hr, Ha. done.
Qed.

Lemma aborts_G l s r sm rm s' :
  Inv s -> run s = Some r -> active (lifecycle r) = true ->
  log sm = log s -> consumed_plan_ids sm = consumed_plan_ids s ->
  plan rm = plan r -> (all_acked r -> all_acked rm) -> aborts_to l sm rm s' -> G is_cancel s s'.
Proof.
  intros Hs Hr Ha Hlog Hco Hp Hack [Hi (r' & Hr' & Hl & Hp' & Ha' & new & L & F & T & B) Hc'].
  split; [done| |congruence|congruence]. exists new. rewrite L, Hlog. split; [done|]. split; [done|]. split; [done|].
  intros r0 Hr0. simplify_eq. exists r'. split; [done|]. split; [congruence|auto|congruence|].
  intros _ _. by rewrite <-Hp.
Qed.

Lemma put_G s r r' :
  Inv s -> run s = Some r -> run_inv r' -> plan r' = plan r -> (all_acked r -> all_acked r') ->
  active (lifecycle r) = true -> aborted (lifecycle r') = false -> G is_cancel s (put s r').
Proof.
  intros [I1 I2 I3] Hr Hi Hp Hack Ha Hb. split; simpl; [|..|done].
  - split; simpl; [|done|done]. by intros ? [= <-].
  - exists []. split; [done|]. split; [constructor|]. split; [done|]. intros r0 Hr0. simplify_eq.
    exists r'. split; [done|]. split; try done; congruence.
  - congruence.
Qed.

Lemma full_dom {V} (m : gmap string V) : dom m ⊆ arm_set -> size m = 2 -> forall a, a ∈ arms -> is_Some (m !! a).
Proof.
  intros Hd Hs a Ha. apply elem_of_dom. rewrite <-size_dom in Hs.
  assert (size arm_set <= 2) as H2.
  { unfold arm_set, arms. cbn [list_to_set]. rewrite size_union_alt, size_singleton, union_empty_r_L.
    pose proof (subseteq_size ({[a1]} ∖ {[a0]}) ({[a1]} : gset string)) as H. rewrite size_singleton in H.
    assert (size (({[a1]} : gset string) ∖ {[a0]}) <= 1) by (apply H; set_solver). lia. }
  assert (dom m = arm_set) as -> by (apply set_subseteq_size_eq; [done|lia]).
  by apply elem_of_list_to_set.
Qed.

Lemma with_ack_weak a ok why t r :
  weak r -> a ∈ arms -> stage_acks r !! a = None -> weak (with_ack a ok why t r).
Proof.
  intros [H1 H2 H3 H4] Ha Hn. split; simpl; [done| |done|].
  - rewrite dom_insert. apply union_subseteq. split; [|done]. apply singleton_subseteq_l. by apply elem_of_list_to_set.
  - intros Hr. destruct (H4 Hr a Ha) as (w & Hw). congruence.
Qed.

Lemma with_result_weak a ok why r : weak r -> a ∈ arms -> weak (with_result a ok why r).
Proof.
  intros [H1 H2 H3 H4] Ha. split; simpl; [done|done| |done].
  rewrite dom_insert. apply union_subseteq. split; [|done]. apply singleton_subseteq_l. by apply elem_of_list_to_set.
Qed.

Lemma with_ack_inv a why t r :
  run_inv r -> a ∈ arms -> lifecycle r = STAGING -> stage_acks r !! a = None -> run_inv (with_ack a true why t r).
Proof.
  intros [Hw Hi Hs Hk Hr Hc Hp Hab] Ha Hl Hn. split; simpl; try done.
  - by apply with_ack_weak.
  - intros _ b x. rewrite lookup_insert_Some. intros [[_ <-]|[_ Hx]]; [done|by apply (Hs Hl b)].
  - rewrite Hl. intros [?|[?|?]]; done.
Qed.

Lemma with_ready_inv t r :
  run_inv r -> lifecycle r = STAGING -> size (stage_acks r) = 2 -> run_inv (with_ready t r).
Proof.
  intros [Hw Hi Hs Hk Hr Hc Hp Hab] Hl Hsz. rewrite Hl in *. split; simpl; try done.
  - by eapply (weak_ext r).
  - intros _ a Ha. destruct (full_dom _ (w_acks r Hw) Hsz a Ha) as [[b why] Hx]. exists why. simpl.
    rewrite Hx. by rewrite <-(Hs eq_refl a _ Hx).
  - intros _. apply Hr. by left.
  - intros _. apply Hp. by left.
Qed.

Lemma with_result_inv a why r :
  run_inv r -> a ∈ arms -> lifecycle r = EXECUTING -> run_inv (with_result a true why r).
Proof.
  intros [Hw Hi Hs Hk Hr Hc Hp Hab] Ha Hl. rewrite Hl in *. split; simpl; rewrite ?Hl; try done.
  - by apply with_result_weak.
  - intros _ b x. rewrite lookup_insert_Some. intros [[_ <-]|[_ Hx]]; [done|]. apply (Hr (or_introl eq_refl) b x Hx).
Qed.

Lemma with_complete_inv t r :
  run_inv r -> lifecycle r = EXECUTING -> size (results r) = 2 -> run_inv (with_complete t r).
Proof.
  intros [Hw Hi Hs Hk Hr Hc Hp Hab] Hl Hsz. rewrite Hl in *. split; simpl; try done.
  - by eapply (weak_ext r).
  - intros _. apply Hk. auto.
  - intros _. apply Hr. by left.
  - intros _. apply full_dom; [apply Hw|done].
  - intros _. apply Hp. by left.
Qed.

Lemma abort_G l why arm s :
  Inv s -> aborted l = true -> G is_cancel s (abort l why arm s).2.
Proof.
  intros Hs Hl. destruct (run s) as [r|] eqn:Hr.
  - destruct (active (lifecycle r)) eqn:Ha.
    + pose proof (inv_run s Hs r Hr) as Hi.
      eapply (aborts_G l s r s r); try done. apply abort_active; try done; [apply Hi|apply (ri_pending r Hi); by left|apply Hs..].
    + rewrite abort_ended; [by apply G_refl|by exists r].
  - unfold abort, bind. cbn [get]. rewrite Hr. by apply G_refl.
Qed.

Lemma done_G s (x : result unit * coord) :
  G is_cancel s x.2 ->
  G is_cancel s (match x with (Ok _, s') => (bind get_run (fun r => record_last (run_state r)) s').2 | (Err _, s') => s' end).
Proof.
  intros H. destruct x as [[]  s']; simpl in *; [|done].
  eapply G_trans; [exact H|]. apply quiet_G; [apply H|apply silent_finish].
Qed.

Lemma quiet_tick s : quiet s (tick s).
Proof. done. Qed.

(** The staging acknowledgement of a live pair. *)
Definition ack_branch (a : string) (e : event) : M unit :=
  t <~ now ;;
  upd (with_ack a (ev_ok e) (default "" (ev_reason e)) t) ;~
  (if negb (ev_ok e) then abort REJECTED (default "None" (ev_reason e)) (Some a)
   else r <~ get_run ;; if size (stage_acks r) =? 2 then t <~ now ;; upd (with_ready t) else ret tt).

Lemma ack_branch_G a e s r :
  Inv s -> run s = Some r -> a ∈ arms -> lifecycle r = STAGING -> stage_acks r !! a = None ->
  G is_cancel s (ack_branch a e s).2.
Proof.
  intros Hs Hr Hain Hl Hn. pose proof (inv_run s Hs r Hr) as Hi.
  assert (active (lifecycle r) = true) as Ha by (by rewrite Hl).
  unfold ack_branch. rewrite bind_now. assert (run (tick s) = Some r) as Hr1 by done.
  pose proof (quiet_G is_cancel s _ Hs (quiet_tick s)) as Hq. pose proof (g_inv _ _ _ Hq) as Hs1.
  rewrite (bind_upd _ _ _ r Hr1). set (r1 := with_ack a (ev_ok e) _ _ r). set (s2 := put (tick s) r1).
  assert (all_acked r -> False) as Hnot by (intros H; destruct (H a Hain) as [w Hw]; congruence).
  destruct (ev_ok e) eqn:Eok; cbn [negb].
  - assert (G is_cancel s s2) as H2.
    { eapply G_trans; [exact Hq|]. apply (put_G _ r); [done|done|by apply with_ack_inv|done|intros H; by destruct (Hnot H)|done|].
      simpl. by rewrite Hl. }
    assert (run s2 = Some r1) as Hr2 by done. rewrite (bind_get_run _ s2 r1 Hr2).
    destruct (size (stage_acks r1) =? 2) eqn:Esz; [|exact H2]. apply Nat.eqb_eq in Esz. rewrite bind_now.
    assert (run (tick s2) = Some r1) as Hr3 by done. rewrite (upd_eq _ _ r1 Hr3). cbn [snd].
    eapply G_trans; [exact H2|].
    pose proof (quiet_G is_cancel s2 _ (g_inv _ _ _ H2) (quiet_tick s2)) as Hq2.
    eapply G_trans; [exact Hq2|]. apply (put_G _ r1); try done; [apply Hq2|].
    apply with_ready_inv; [|done|done]. by apply with_ack_inv.
  - eapply (aborts_G REJECTED s r s2 r1); try done.
    apply abort_active; try done; [by apply with_ack_weak; [apply Hi|..]|apply (ri_pending r Hi); by left|apply Hs..].
Qed.

(** The leg result of a pair. *)
Definition result_branch (r : PairRun) (a : string) (e : event) : M unit :=
  if active (lifecycle r) && negb (ev_ok e) then
    upd (with_result a false (default "" (ev_reason e))) ;~
    abort FAULTED (default "member failed" (ev_reason e)) (Some a)
  else if bool_decide (lifecycle r = EXECUTING) && bool_decide (results r !! a = None) then
    upd (with_result a true (default "" (ev_reason e))) ;~
    r <~ get_run ;;
    if size (results r) =? 2 then t <~ now ;; upd (with_complete t) ;~ finish else ret tt
  else ret tt.

Lemma result_branch_G a e s r :
  Inv s -> run s = Some r -> a ∈ arms -> active (lifecycle r) = true -> G is_cancel s (result_branch r a e s).2.
Proof.
  intros Hs Hr Hain Ha. pose proof (inv_run s Hs r Hr) as Hi. unfold result_branch. rewrite Ha. cbn [andb].
  destruct (ev_ok e) eqn:Eok; cbn [negb].
  - destruct (bool_decide (lifecycle r = EXECUTING)) eqn:Ex; [|by apply G_refl]. apply bool_decide_eq_true in Ex.
    destruct (bool_decide (results r !! a = None)) eqn:En; [|by apply G_refl]. cbn [andb].
    rewrite (bind_upd _ _ _ r Hr). set (r1 := with_result a true _ r). set (s1 := put s r1).
    assert (run_inv r1) as Hi1 by (by apply with_result_inv).
    assert (G is_cancel s s1) as H1 by (apply (put_G _ r); try done; simpl; by rewrite Ex).
    assert (run s1 = Some r1) as Hr1 by done. rewrite (bind_get_run _ s1 r1 Hr1).
    destruct (size (results r1) =? 2) eqn:Esz; [|exact H1]. apply Nat.eqb_eq in Esz. rewrite bind_now.
    assert (run (tick s1) = Some r1) as Hr2 by done. rewrite (bind_upd _ _ _ r1 Hr2).
    pose proof (quiet_G is_cancel s1 _ (g_inv _ _ _ H1) (quiet_tick s1)) as Hq.
    eapply G_trans; [exact H1|]. eapply G_trans; [exact Hq|].
    assert (G is_cancel (tick s1) (put (tick s1) (with_complete (clock (asked s1)) r1))) as H2.
    { apply (put_G _ r1); try done; [apply Hq|]. by apply with_complete_inv. }
    eapply G_trans; [exact H2|]. apply quiet_G; [apply H2|apply silent_finish].
  - rewrite (bind_upd _ _ _ r Hr). set (r1 := with_result a false _ r).
    eapply (aborts_G FAULTED s r (put s r1) r1); try done.
    apply abort_active; try done; [by apply with_result_weak; [apply Hi|..]|apply (ri_pending r Hi); by left|apply Hs..].
Qed.

Lemma event_good a e : good is_cancel (on_member_event a e).
Proof.
  intros s Hs. destruct (run s) as [r|] eqn:Hr.
  2: { unfold on_member_event, handle_event. destruct (negb _); [by apply G_refl|]. unfold bind. cbn [get].
       rewrite Hr. by apply G_refl. }
  destruct (active (lifecycle r)) eqn:Ha.
  2: { apply event_ended; [apply abort_ended|done|by exists r]. }
  pose proof (inv_run s Hs r Hr) as Hi. destruct (ri_pending r Hi) as [Hnc _]; [by left|].
  unfold on_member_event, handle_event. destruct (bool_decide (a ∈ arms)) eqn:Hain; [|by apply G_refl].
  apply bool_decide_eq_true in Hain. cbn [negb]. unfold bind at 1. cbn [get]. rewrite Hr.
  destruct (_ && _); [by apply G_refl|]. unfold bind at 1. unfold lift at 1.
  destruct (match ev_runtime e with Some _ => _ | None => _ end) as [[]|]; [|..|by apply G_refl].
  { rewrite Ha. by apply abort_G. }
  destruct (bool_decide (ev_kind e = FAULT)); [by apply abort_G|].
  destruct (member (plan r) a) as [p|]; [|by apply G_refl].
  destruct (negb (bool_decide (ev_plan_id e = _))); [by apply G_refl|].
  rewrite Hnc, andb_false_r.
  destruct (bool_decide (ev_kind e = PLAN_STAGED) && bool_decide (lifecycle r = STAGING)) eqn:Es.
  { apply andb_true_iff in Es as [_ Es%bool_decide_eq_true].
    destruct (stage_acks r !! a) eqn:Eack; [by apply G_refl|].
    rewrite bind_run. apply (done_G s). exact (ack_branch_G a e s r Hs Hr Hain Es Eack). }
  destruct (bool_decide (ev_kind e = LEG_RESULT)); [|apply quiet_G; [done|apply silent_finish]].
  rewrite bind_run. apply (done_G s). exact (result_branch_G a e s r Hs Hr Hain Ha).
Qed.

(** *** Operations *)

Lemma good_silent {A} C (m : M A) : silent m -> good C m.
Proof. apply good_quiet. Qed.
Lemma good_mono {A} (C C' : call -> Prop) (m : M A) : (forall c, C c -> C' c) -> good C m -> good C' m.
Proof. intros H Hm s Hs. eapply G_mono; [exact H|]. by apply Hm. Qed.
Lemma good_abort l why arm : aborted l = true -> good is_cancel (abort l why arm).
Proof. intros Hl s Hs. by apply abort_G. Qed.
Lemma good_deliver es : good is_cancel (deliver es).
Proof. apply good_for_each. intros e. apply event_good. Qed.
Lemma good_poll a : good is_cancel (poll a).
Proof.
  apply good_bind; [by apply good_quiet|]. intros k. apply good_bind; [by apply good_quiet|].
  intros es. apply good_for_each. intros e. apply event_good.
Qed.

Lemma cancel_one_G p a s : Inv s -> aborted_run p s -> (cancel_one p a s).1 = Ok tt /\ G is_cancel s (cancel_one p a s).2.
Proof.
  intros Hs Ha. destruct (member p a) as [m|] eqn:Hm; [by destruct (cancel_one_ok p a m s Hs Ha Hm) as (? & ? & _)|].
  unfold cancel_one, attempt. rewrite Hm. cbn [throw].
  destruct (upd_cancels_good p s (fun r => with_cancels (pending_cancels r) (<[a := "cancel failed"]> (cancel_errors r)) r))
    as [H1 H2]; [done..|eauto|]. done.
Qed.
Lemma cancel_loop_G p l s : Inv s -> aborted_run p s -> G is_cancel s (for_each (cancel_one p) l s).2.
Proof.
  revert s. induction l as [|a l IH]; intros s Hs Ha; simpl; [by apply G_refl|].
  destruct (cancel_one_G p a s Hs Ha) as [H1 H2]. unfold bind. destruct (cancel_one p a s) as [[[]|x] s1]; simpl in *; [|done].
  eapply G_trans; [exact H2|]. apply IH; [apply H2|by eapply aborted_G].
Qed.

Lemma good_cancel_pair why : good is_cancel (cancel_pair why).
Proof.
  intros s Hs. unfold cancel_pair, bind at 1. cbn [get]. destruct (run s) as [r|] eqn:Hr; [|by apply G_refl].
  destruct (active (lifecycle r)) eqn:Ha; [by apply abort_G|].
  destruct (bool_decide (pending_cancels r = ∅)) eqn:Ep; cbn [negb]; [by apply G_refl|].
  apply bool_decide_eq_false in Ep. pose proof (inv_run s Hs r Hr) as Hi.
  assert (aborted_run (plan r) s) as Hab.
  { exists r. split; [done|]. split; [done|]. pose proof (ri_idle r Hi). pose proof (ri_pending r Hi) as Hp.
    destruct (lifecycle r); try done. destruct Hp as [_ Hp]; [by right|]. done. }
  assert (send_cancels s = for_each (cancel_one (plan r)) (elements (pending_cancels r)) s) as ->.
  { unfold send_cancels. by rewrite (bind_get_run _ s r Hr). }
  by apply cancel_loop_G.
Qed.

Lemma good_check_timeouts : good is_cancel check_timeouts.
Proof.
  intros s Hs. unfold check_timeouts, bind at 1. cbn [get]. destruct (run s) as [r|] eqn:Hr; [|by apply G_refl].
  destruct (negb (active (lifecycle r))); [by apply G_refl|].
  revert s Hs Hr. intros s Hs _. revert s Hs. apply good_bind.
  - apply good_attempt; [apply good_bind; [apply good_silent, silent_check_run|by intros; apply good_quiet]|].
    intros e. destruct (is_ValueError e); [|by apply good_quiet]. apply good_bind; [by apply good_abort|].
    by intros; apply good_quiet.
  - intros []; [|by apply good_quiet]. apply good_bind; [apply good_silent, silent_get_run|]. intros r'.
    destruct (bool_decide _); [|by apply good_quiet]. apply good_bind; [by apply good_quiet|]. intros t.
    destruct (fltb _ _); [by apply good_abort|by apply good_quiet].
Qed.

Lemma good_pump : good is_cancel pump.
Proof. apply good_bind; [apply good_for_each; apply good_poll|intros; apply good_check_timeouts]. Qed.

(** **** Release *)

Definition exec_of (p : BimanualPlan) (c : call) : Prop :=
  is_cancel c \/ exists m, m ∈ members p /\ c = Execute m.1 (plan_id m.2).
Definition acked_run (p : BimanualPlan) (s : coord) : Prop := exists r, run s = Some r /\ plan r = p /\ all_acked r.
Definition good_at {A} (p : BimanualPlan) (m : M A) : Prop := forall s, Inv s -> acked_run p s -> G (exec_of p) s (m s).2.

Lemma acked_G C p s s' : G C s s' -> acked_run p s -> acked_run p s'.
Proof.
  intros [_ (n & _ & _ & _ & R) _ _] (r & Hr & Hp & Ha). destruct (R r Hr) as (r' & Hr' & [E1 E2 _ _]).
  exists r'. split; [done|]. split; [congruence|auto].
Qed.
Lemma at_good {A} p (m : M A) : good is_cancel m -> good_at p m.
Proof. intros Hm s Hs _. eapply G_mono; [|by apply Hm]. intros c Hc. by left. Qed.
Lemma at_bind {A B} p (m : M A) (k : A -> M B) : good_at p m -> (forall a, good_at p (k a)) -> good_at p (bind m k).
Proof.
  intros Hm Hk s Hs Ha. unfold bind. specialize (Hm s Hs Ha). destruct (m s) as [[a|e] s1]; simpl in *; [|done].
  eapply G_trans; [exact Hm|]. apply Hk; [apply Hm|by eapply acked_G].
Qed.
Lemma at_attempt {A} p (m : M A) h : good_at p m -> (forall e, good_at p (h e)) -> good_at p (attempt m h).
Proof.
  intros Hm Hk s Hs Ha. unfold attempt. specialize (Hm s Hs Ha). destruct (m s) as [[a|e] s1]; simpl in *; [done|].
  eapply G_trans; [exact Hm|]. apply Hk; [apply Hm|by eapply acked_G].
Qed.
Lemma at_silent {A} p (m : M A) : silent m -> good_at p m.
Proof. intros H. by apply at_good, good_silent. Qed.

Lemma at_release p a t : good_at p (upd (with_release a t)).
Proof.
  intros s Hs (r & Hr & Hp & Hack). rewrite (upd_eq _ _ r Hr). cbn [snd]. pose proof (inv_run s Hs r Hr) as Hi.
  destruct Hs as [I1 I2 I3]. split; simpl; [|..|done].
  - split; simpl; [|done|done]. intros r' [= <-]. destruct Hi as [[]]. by split.
  - exists []. split; [done|]. split; [constructor|]. split; [done|]. intros r0 Hr0. simplify_eq.
    eexists. split; [done|]. split; try done. intros H1 H2. simpl in H1, H2. by destruct (lifecycle r).
  - congruence.
Qed.

Lemma at_release_one p m : m ∈ members p -> good_at p (release_one m).
Proof.
  intros Hm. apply at_bind.
  { intros s Hs _. apply emit_G; [done| |done]. right. by exists m. }
  intros _. apply at_bind; [by apply at_silent|]. intros k. apply at_bind; [apply at_good, good_deliver|]. intros _.
  apply at_bind; [apply at_silent, silent_raising|]. intros _. apply at_bind; [by apply at_silent|]. intros t.
  apply at_bind; [apply at_release|]. intros _. apply at_bind; [apply at_good, good_poll|]. intros _.
  apply at_bind; [apply at_silent, silent_get_run|]. intros r. by apply at_silent.
Qed.

Lemma at_leave p arm : good_at p (leave arm).
Proof.
  apply at_bind; [by apply at_silent|]. intros k. apply at_attempt; [apply at_silent, silent_raising|].
  intros e. by apply at_good, good_abort.
Qed.
Lemma at_release_loop p l prev : (forall m, m ∈ l -> m ∈ members p) -> good_at p (release_loop l prev).
Proof.
  revert prev. induction l as [|m l IH]; intros prev Hl; simpl; [apply at_leave|].
  apply at_bind.
  - apply at_attempt.
    + apply at_bind; [apply at_release_one, Hl; by left|]. intros b. by apply at_silent.
    + intros e. apply at_bind; [by apply at_good, good_abort|]. intros _. by apply at_silent.
  - intros [[]|]; [|apply at_leave|by apply at_silent]. apply IH. intros m' Hm'. apply Hl. by right.
Qed.
Lemma at_release_all p r : plan r = p -> good_at p (release_all r).
Proof.
  intros Hp. apply at_bind; [by apply at_silent|]. intros k. apply at_bind.
  - apply at_attempt; [apply at_bind; [apply at_silent, silent_raising|intros; by apply at_silent]|].
    intros e. apply at_bind; [by apply at_good, good_abort|]. intros _. by apply at_silent.
  - intros []; [|by apply at_silent]. apply at_release_loop. intros m Hm. by rewrite <-Hp.
Qed.

Lemma with_executing_inv r : run_inv r -> lifecycle r = READY -> run_inv (with_lifecycle EXECUTING r).
Proof.
  intros [Hw Hi Hs Hk Hr Hc Hp Hab] Hl. rewrite Hl in *. split; simpl; try done.
  - by eapply (weak_ext r).
  - intros _. apply Hk. by left.
  - intros _. apply Hr. by left.
  - intros _. apply Hp. by left.
Qed.

(** A release happens from READY only; otherwise the call logs nothing but cancels. *)
Definition exec_out (id : string) (s : coord) (out : result unit * coord) : Prop :=
  (exists r, run s = Some r /\ pair_id (plan r) = id /\ lifecycle r = READY /\ all_acked r /\
     G (exec_of (plan r)) s out.2) \/
  G is_cancel s out.2.
Lemma execute_pair_G id s : Inv s -> exec_out id s (execute_pair id s).
Proof.
  intros Hs. unfold execute_pair, bind at 1. cbn [get]. destruct (run s) as [r|] eqn:Hr; [|right; by apply G_refl].
  destruct (bool_decide (pair_id (plan r) = id)) eqn:Eid; [|right; by apply G_refl]. apply bool_decide_eq_true in Eid.
  cbn [negb]. destruct (bool_decide (lifecycle r = EXECUTING)); [right; by apply G_refl|].
  destruct (bool_decide (lifecycle r = READY)) eqn:El; [|right; by apply G_refl]. apply bool_decide_eq_true in El.
  cbn [negb]. pose proof (inv_run s Hs r Hr) as Hi. assert (all_acked r) as Hack by (apply (ri_acked r Hi); auto).
  left. exists r. split; [done|]. split; [done|]. split; [done|]. split; [done|].
  rewrite bind_run. unfold attempt, bind at 1. pose proof (silent_recheck r s) as Hq.
  destruct (recheck r s) as [[[]|e] s1]; simpl in Hq.
  - cbn [ret]. assert (run s1 = Some r) as Hr1 by (destruct Hq as (-> & _); done).
    pose proof (quiet_G (exec_of (plan r)) s s1 Hs Hq) as H1. eapply G_trans; [exact H1|].
    rewrite (bind_upd _ _ _ r Hr1). set (s2 := put s1 (with_lifecycle EXECUTING r)).
    assert (G is_cancel s1 s2) as H2.
    { apply (put_G _ r); try done; [apply H1|by apply with_executing_inv|by rewrite El]. }
    eapply G_trans; [eapply G_mono; [|exact H2]; intros c Hc; by left|].
    apply at_release_all; [done|apply H2|]. exists (with_lifecycle EXECUTING r). done.
  - unfold bind at 1. assert (Inv s1) as Hs1 by (by eapply g_inv, (quiet_G is_cancel s s1)).
    eapply G_trans; [by eapply quiet_G|]. eapply G_mono; [|].
    + intros c Hc. by left.
    + pose proof (abort_G REJECTED "recheck failed" None s1 Hs1 eq_refl) as H.
      by destruct (abort REJECTED "recheck failed" None s1) as [[[]|x] s2].
Qed.

(** **** Staging *)

Definition not_execute (c : call) : Prop := match c with Execute _ _ => False | _ => True end.
Record stages (s s' : coord) : Prop := {
  sg_inv : Inv s';
  sg_log : exists new, log s' = new ++ log s /\ Forall not_execute new;
}.

Lemma stages_quiet s s' : Inv s -> quiet s s' -> stages s s'.
Proof.
  intros Hs Hq. split; [eapply g_inv, (quiet_G is_cancel s s'); eauto|]. destruct Hq as (_ & L & _). exists [].
  split; [by rewrite L|constructor].
Qed.

Definition stage_one (m : string * ArmPlan) : M bool :=
  emit (Stage m.1 m.2) ;~
  k <~ ask ;;
  attempt (deliver (r_events (handle k)) ;~ raising (r_raises (handle k)) ;~ is_active)
    (fun _ => abort REJECTED "staging failed" (Some m.1) ;~ ret false).

Lemma stage_one_rest (m : string * ArmPlan) :
  good is_cancel (k <~ ask ;;
    attempt (deliver (r_events (handle k)) ;~ raising (r_raises (handle k)) ;~ is_active)
      (fun _ => abort REJECTED "staging failed" (Some m.1) ;~ ret false)).
Proof.
  apply good_bind; [by apply good_quiet|]. intros k. apply good_attempt.
  - apply good_bind; [apply good_deliver|]. intros _. apply good_bind; [apply good_silent, silent_raising|].
    intros _. by apply good_quiet.
  - intros e. apply good_bind; [by apply good_abort|]. intros _. by apply good_quiet.
Qed.

Lemma emit_stage_inv s (m : string * ArmPlan) :
  Inv s -> plan_id m.2 ∉ staged (log s) -> plan_id m.2 ∈ consumed_plan_ids s -> Inv (emit (Stage m.1 m.2) s).2.
Proof.
  intros [I1 I2 I3] Hn Hc. split; [done|..]; cbn [emit snd log consumed_plan_ids].
  - change (NoDup (plan_id m.2 :: staged (log s))). by constructor.
  - intros i Hi. change (i ∈ plan_id m.2 :: staged (log s)) in Hi. apply elem_of_cons in Hi as [-> |]; auto.
Qed.

Lemma stage_loop l s :
  Inv s -> NoDup (map (fun m : string * ArmPlan => plan_id m.2) l) ->
  (forall m, m ∈ l -> plan_id m.2 ∉ staged (log s) /\ plan_id m.2 ∈ consumed_plan_ids s) ->
  stages s (for_while stage_one l s).2.
Proof.
  revert s. induction l as [|m l IH]; intros s Hs Hnd Hl; simpl.
  { by apply stages_quiet. }
  inversion Hnd as [|? ? Hni Hnd']; subst. destruct (Hl m) as [H1 H2]; [by left|].
  pose proof (emit_stage_inv s m Hs H1 H2) as Hs1. set (s1 := (emit (Stage m.1 m.2) s).2) in *.
  assert (stage_one m s = bind ask (fun k => attempt (deliver (r_events (handle k)) ;~ raising (r_raises (handle k)) ;~ is_active)
      (fun _ => abort REJECTED "staging failed" (Some m.1) ;~ ret false)) s1) as Es by done.
  pose proof (stage_one_rest m s1 Hs1) as HG. rewrite <-Es in HG. unfold bind.
  destruct (stage_one m s) as [[go|e] s2]; simpl in HG.
  2: { split; [apply HG|]. destruct HG as [_ (new & L & F & _) _ _]. exists (new ++ [Stage m.1 m.2]). simpl.
       rewrite L. split; [by rewrite <-app_assoc|]. apply Forall_app. split; [|by repeat constructor].
       eapply Forall_impl; [exact F|]. by intros [] ?. }
  assert (stages s s2) as [Hi2 (new2 & L2 & F2)].
  { split; [apply HG|]. destruct HG as [_ (new & L & F & _) _ _]. exists (new ++ [Stage m.1 m.2]). simpl.
    rewrite L. split; [by rewrite <-app_assoc|]. apply Forall_app. split; [|by repeat constructor].
    eapply Forall_impl; [exact F|]. by intros [] ?. }
  destruct go; [|split; [done|by exists new2]].
  assert (staged (log s2) = plan_id m.2 :: staged (log s) /\ consumed_plan_ids s2 = consumed_plan_ids s) as [Est Eco].
  { destruct HG as [_ (new & L & _ & T & _) _ K]. rewrite L, staged_app, T. done. }
  destruct (IH s2 Hi2 Hnd') as [Hi3 (new3 & L3 & F3)].
  { intros m' Hm'. destruct (Hl m') as [G1 G2]; [by right|]. rewrite Est, Eco. split; [|done].
    rewrite elem_of_cons. intros [E|E]; [|done]. apply Hni. rewrite <-E.
    apply (list_elem_of_fmap_2 (fun m : string * ArmPlan => plan_id m.2) l m' Hm'). }
  split; [done|]. exists (new3 ++ new2). rewrite L3, L2, app_assoc. split; [done|]. by apply Forall_app.
Qed.

Definition busy (s : coord) : bool :=
  match run s with Some r => active (lifecycle r) || negb (bool_decide (pending_cancels r = ∅)) | None => false end.

Lemma bind_guard {A} c e (k : unit -> M A) s : bind (guard c e) k s = if c then (Err e, s) else k tt s.
Proof. by destruct c. Qed.

Lemma new_run_inv p t l : list_to_set (map fst (members p)) = arm_set -> run_inv (new_run p t l).
Proof.
  intros Hm. split; [|done|..].
  - split; [done|..]; cbn [stage_acks results releases new_run]; rewrite ?dom_empty_L; try apply empty_subseteq. done.
  - intros _ a x. cbn [stage_acks new_run]. by rewrite lookup_empty.
  - cbn [lifecycle new_run]. by intros [?|[?|?]].
  - intros _ a x. cbn [results new_run]. by rewrite lookup_empty.
  - done.
  - done.
  - done.
Qed.

Lemma members_nodup p : BimanualPlan_new p = Ok p -> NoDup (map (fun m : string * ArmPlan => plan_id m.2) (members p)).
Proof.
  unfold BimanualPlan_new, members. intros H. pass_guard H E0. pass_guard H E1. pass_guard H E2. simpl.
  apply bool_decide_eq_false in E2. apply NoDup_cons. rewrite list_elem_of_singleton. split; [done|].
  apply NoDup_singleton.
Qed.

Lemma stage_pair_busy p s : busy s = true -> (stage_pair p s).2 = s.
Proof.
  intros Hb. unfold stage_pair. unfold bind at 1. cbn [get]. rewrite bind_guard. fold (busy s). by rewrite Hb.
Qed.

Lemma stage_pair_ok p s : Inv s -> BimanualPlan_new p = Ok p ->
  stages s (stage_pair p s).2 /\ (busy s = true -> (stage_pair p s).2 = s).
Proof.
  intros Hs Hp. split; [|by apply stage_pair_busy]. assert (stages s s) as Hrefl by (by apply stages_quiet).
  unfold stage_pair, bind at 1. cbn [get]. rewrite bind_guard. fold (busy s). destruct (busy s) eqn:Eb; [done|].
  rewrite bind_guard. destruct (negb (bool_decide (list_to_set _ = arm_set))) eqn:Em; [done|].
  apply negb_false_iff, bool_decide_eq_true in Em.
  rewrite bind_guard. destruct (bool_decide (pair_id p ∈ _)); [done|].
  rewrite bind_guard. destruct (existsb _ (members p)) eqn:Ec; [done|]. apply existsb_false_Forall in Ec.
  rewrite bind_run. pose proof (silent_states s) as Q1. destruct (states s) as [[l|e] s1]; cbn [snd] in Q1;
    [|by apply stages_quiet].
  rewrite bind_run.
  match goal with |- context [for_each ?f (members p) s1] => assert (silent (for_each f (members p))) as S2 end.
  { apply silent_for_each. intros m. apply silent_bind; [apply silent_state_of|]. intros st.
    apply silent_bind; [apply silent_guard|done]. }
  specialize (S2 s1). destruct (for_each _ (members p) s1) as [[[]|e] s2]; cbn [snd] in S2;
    [|apply stages_quiet; [done|]; by eapply quiet_trans].
  rewrite bind_run. pose proof (silent_check_admission s2) as Q3. destruct (check_admission s2) as [[[]|e] s3]; cbn [snd] in Q3;
    [|apply stages_quiet; [done|]; eapply quiet_trans; [|exact Q3]; by eapply quiet_trans].
  assert (quiet s s3) as Q by (eapply quiet_trans; [|exact Q3]; by eapply quiet_trans). clear Q1 S2 Q3.
  destruct Q as (Qr & Ql & Qc). unfold bind at 1. cbn [consume]. rewrite bind_now.
  unfold bind at 1. cbn [set_run].
  match goal with |- stages s (for_while ?f (members p) ?s4).2 => change (stages s (for_while stage_one (members p) s4).2); set (s4' := s4) end.
  assert (Inv s4') as Hs4.
  { destruct Hs as [I1 I2 I3]. split; simpl.
    - intros r [= <-]. by apply new_run_inv.
    - by rewrite Ql.
    - intros i Hi. rewrite Ql in Hi. rewrite Qc. apply elem_of_union. right. by apply I3. }
  destruct (stage_loop (members p) s4' Hs4 (members_nodup p Hp)) as [Hi5 (new & L & F)].
  { intros m Hm. simpl. rewrite Ql, Qc. split.
    - intros Hin. rewrite Forall_forall in Ec. specialize (Ec m Hm). simpl in Ec. apply bool_decide_eq_false in Ec.
      by apply Ec, (inv_consumed s Hs).
    - apply elem_of_union. left. apply elem_of_list_to_set.
      by apply (list_elem_of_fmap_2 (fun m : string * ArmPlan => plan_id m.2)). }
  split; [done|]. exists new. split; [|done]. rewrite L. simpl. by rewrite Ql.
Qed.

(** ** Reachable states *)

Lemma stages_of_G C s s' : (forall c, C c -> not_execute c) -> G C s s' -> stages s s'.
Proof.
  intros HC [I (new & L & F & _) _ _]. split; [done|]. exists new. split; [done|]. by eapply Forall_impl.
Qed.

Definition calm (o : op) : Prop := match o with StagePair _ | ExecutePair _ => False | _ => True end.
Lemma calm_G o s : calm o -> Inv s -> G is_cancel s (do_op o s).2.
Proof.
  destruct o as [p|id|why|a e| |]; intros Hc Hs; try done; cbn [do_op].
  - by apply good_cancel_pair.
  - by apply event_good.
  - by apply good_check_timeouts.
  - by apply good_pump.
Qed.

Lemma do_op_inv o s : op_ok o -> Inv s -> Inv (do_op o s).2.
Proof.
  intros Ho Hs. destruct o as [p|id|why|a e| |]; try (by eapply g_inv, calm_G).
  - by apply stage_pair_ok.
  - cbn [do_op]. by destruct (execute_pair_G id s Hs) as [(r & _ & _ & _ & _ & HG)|HG]; eapply g_inv.
Qed.

Lemma reachable_inv s : reachable s -> Inv s.
Proof.
  induction 1 as [|s o _ IH Ho]; [|by apply do_op_inv]. split; cbn [run coord0 log staged]; [done|constructor|].
  intros i Hi. by apply elem_of_nil in Hi.
Qed.

(** Every operation but staging a new pair evolves the run in place. *)
Lemma do_op_evolves o s r : Inv s -> (forall p, o <> StagePair p) -> run s = Some r ->
  exists new r', log (do_op o s).2 = new ++ log s /\ run (do_op o s).2 = Some r' /\ evolves new r r'.
Proof.
  intros Hs Ho Hr.
  assert (exists C, G C s (do_op o s).2) as (C & [_ (new & L & _ & _ & R) _ _]).
  { destruct o as [p|id|why|a e| |]; try (by exists is_cancel; apply calm_G); [by destruct (Ho p)|].
    cbn [do_op]. destruct (execute_pair_G id s Hs) as [(r' & _ & _ & _ & _ & HG)|HG]; eauto. }
  destruct (R r Hr) as (r' & Hr' & He). by exists new, r'.
Qed.

Definition barrier (r : PairRun) : Prop :=
  (lifecycle r = READY \/ lifecycle r = EXECUTING \/ lifecycle r = COMPLETE -> all_acked r) /\
  (releases r <> ∅ -> all_acked r) /\
  (active (lifecycle r) = true \/ lifecycle r = COMPLETE -> pending_cancels r = ∅) /\
  (ps_ok (run_state r) = Some true <-> lifecycle r = COMPLETE) /\
  (lifecycle r = COMPLETE -> forall a, a ∈ arms -> exists why, results r !! a = Some (true, why)).

Lemma members_fst_arms r m : weak r -> m ∈ members (plan r) -> m.1 ∈ arms.
Proof.
  intros Hw Hm. apply (elem_of_list_to_set (C := gset string)). fold arm_set. rewrite <-(w_members r Hw).
  apply elem_of_list_to_set. by apply (list_elem_of_fmap_2 fst).
Qed.

Lemma complete_results r a : run_inv r -> lifecycle r = COMPLETE -> a ∈ arms ->
  exists why, results r !! a = Some (true, why).
Proof.
  intros Hi Hl Ha. destruct (ri_complete r Hi Hl a Ha) as [[ok why] E]. exists why. rewrite E.
  pose proof (ri_results r Hi (or_intror Hl) a _ E) as H. simpl in H. by subst.
Qed.

Lemma run_inv_ok r : run_inv r -> ps_ok (run_state r) = Some true <-> lifecycle r = COMPLETE.
Proof.
  intros Hi. split.
  - unfold ps_ok. cbn [ps_lifecycle run_state]. by destruct (lifecycle r).
  - intros Hl. unfold ps_ok. cbn [ps_lifecycle run_state]. rewrite Hl. f_equal. apply forallb_forall.
    intros pm Hpm. apply in_map_iff in Hpm as ([a p] & <- & Hin). apply list_elem_of_In in Hin.
    apply (members_fst_arms r _ (ri_weak r Hi)) in Hin.
    destruct (complete_results r a Hi Hl Hin) as [why E]. apply bool_decide_eq_true. cbn [result_ok]. by rewrite E.
Qed.

Lemma run_inv_barrier r : run_inv r -> barrier r.
Proof.
  intros Hi. split; [apply (ri_acked r Hi)|]. split; [apply (w_released r (ri_weak r Hi))|].
  split; [intros H; apply (ri_pending r Hi H)|]. split; [by apply run_inv_ok|].
  intros Hl a Ha. by apply complete_results.
Qed.

(** C10: the pair barrier, in every reachable state: no member is released, and
    the pair is not READY, EXECUTING or COMPLETE, before both members
    acknowledged their staging; while a pair is live or complete no cancel is
    outstanding; and the pair reports success exactly when it is COMPLETE,
    which needs a successful result from both arms. *)
Theorem pair_barrier s r : reachable s -> run s = Some r -> barrier r.
Proof. intros Hs Hr. apply run_inv_barrier, (inv_run s (reachable_inv s Hs) r Hr). Qed.

(** C9: an [Execute] call is made only by [execute_pair] on a READY pair with
    both acknowledgements, for a member of that pair under its own plan id;
    no event, poll, timeout, staging or cancel can release motion. *)
Theorem release_only_when_ready s o : reachable s -> op_ok o ->
  exists new, log (do_op o s).2 = new ++ log s /\
    forall a pid, Execute a pid ∈ new ->
      exists r m, run s = Some r /\ o = ExecutePair (pair_id (plan r)) /\ lifecycle r = READY /\ all_acked r /\
        (a, m) ∈ members (plan r) /\ pid = plan_id m.
Proof.
  intros Hs Ho. apply reachable_inv in Hs.
  assert (stages s (do_op o s).2 \/ exists id, o = ExecutePair id) as [[_ (new & L & F)]|[id ->]].
  { destruct o as [p|id|why|a e| |]; [left; by apply stage_pair_ok|by right; exists id|..];
      left; (eapply stages_of_G; [|by apply calm_G]); by intros []. }
  { exists new. split; [done|]. intros a pid Hin. rewrite Forall_forall in F. by destruct (F _ Hin). }
  cbn [do_op].
  destruct (execute_pair_G id s Hs) as [(r & Hr & Hid & Hl & Ha & [_ (new & L & F & _) _ _])|[_ (new & L & F & _) _ _]];
    exists new; (split; [done|]); intros a pid Hin; rewrite Forall_forall in F; specialize (F _ Hin); [|done].
  destruct F as [|([b m] & Hm & [= -> ->])]; [done|].
  exists r, m. by rewrite Hid.
Qed.

(** C11: whatever operation aborts a live pair (event, timeout, cancel, failed
    release), both arms are sent a cancel for their own plan within it. *)
Theorem abort_cancels_both s o r : reachable s -> (forall p, o <> StagePair p) ->
  run s = Some r -> active (lifecycle r) = true ->
  exists new r', log (do_op o s).2 = new ++ log s /\ run (do_op o s).2 = Some r' /\
    (aborted (lifecycle r') = true -> both_cancelled (plan r) new).
Proof.
  intros Hs Ho Hr Ha. destruct (do_op_evolves o s r (reachable_inv s Hs) Ho Hr) as (new & r' & L & R & E).
  exists new, r'. split; [done|]. split; [done|]. intros Hb. by apply (ev_cancelled _ _ _ E).
Qed.

(** No plan id is ever staged twice on any handle. *)
Theorem ids_staged_once s : reachable s -> NoDup (staged (log s)).
Proof. intros Hs. apply (inv_nodup s (reachable_inv s Hs)). Qed.

(** The outcome of an ended pair never changes: only staging a new pair
    replaces it, and staging is refused while a cancel is unconfirmed. *)
Theorem ended_pair_frozen s o r : reachable s -> run s = Some r -> active (lifecycle r) = false ->
  ((forall p, o <> StagePair p) -> exists r', run (do_op o s).2 = Some r' /\ plan r' = plan r /\
     lifecycle r' = lifecycle r /\ results r' = results r /\ reason r' = reason r) /\
  (forall p, pending_cancels r <> ∅ -> (stage_pair p s).2 = s).
Proof.
  intros Hs Hr Ha. split.
  - intros Ho. destruct (do_op_evolves o s r (reachable_inv s Hs) Ho Hr) as (new & r' & _ & R & E).
    exists r'. split; [done|]. split; [apply E|]. by apply (ev_frozen _ _ _ E).
  - intros p Hp. apply stage_pair_busy. unfold busy. rewrite Hr. apply orb_true_iff. right.
    by rewrite bool_decide_false.
Qed.
End Coordinator.

(** ** A concrete pair *)

(** Two single-joint arms "L" and "R" on a frozen clock; the answers follow the
    order in which a successful staging (questions 0-10) and release (from 11)
    ask them. *)
Module Demo.
Definition arm (name : string) (running : option string) : ArmControlState := {|
  arm_id := name; position := Some [f0]; velocity := Some [f0]; armed := Some true; ready := Some true;
  executing := Some false; running_plan_id := running; mode_law := Some "joint"; stopped := Some false;
  frozen := Some false; fault_reason := None; session_id := Some (name ++ "-session")%string; model_token := None;
  observed_at := Some f0; state_age_sec := None |}.
Definition body (pid : string) : plan_body := {|
  b_plan_id := pid; b_gated := true; b_model_token := None; b_times := [f0; f1];
  b_positions := [[f0]; [f1]]; b_velocities := [[f0]; [f0]] |}.
Definition member_plan (a pid : string) : ArmPlan := {| ap_arm_id := a; plan_id := pid; payload := Ok (body pid); gated := true |}.
Definition pair : BimanualPlan := {| pair_id := "pair-1"; left := member_plan "L" "pl"; right := member_plan "R" "pr" |}.

Definition ev (k : kind) (a pid : string) (ok : bool) : event := {|
  ev_kind := k; ev_plan_id := Some pid; ev_ok := ok; ev_reason := None; ev_runtime := Some (Some (a ++ "-session")%string) |}.

Definition clock (_ : nat) : float := f1.
Definition arm_state (k : nat) : result ArmControlState :=
  Ok match k with
     | 0 => arm "L" None | 2 => arm "R" None
     | 11 | 16 => arm "L" (Some "pl") | _ => arm "R" (Some "pr")
     end.
Definition handle (k : nat) : reply :=
  {| r_events := match k with
                 | 6 => [("L", ev PLAN_STAGED "L" "pl" true)] | 8 => [("R", ev PLAN_STAGED "R" "pr" true)] | _ => []
                 end; r_raises := None |}.
Definition poll_events (_ : nat) : result (list event) := Ok [].
Definition no_error (_ : nat) : option exn := None.

Definition step (o : op) (s : coord) : coord :=
  (do_op "L" "R" f1 f1 clock arm_state None handle poll_events no_error no_error o s).2.
Definition reach : coord -> Prop :=
  reachable "L" "R" f1 f1 clock arm_state None handle poll_events no_error no_error.

Definition staged_pair : coord := step (StagePair pair) coord0.
Definition released : coord := step (ExecutePair "pair-1") staged_pair.
Definition faulted : coord := step (Event "R" (ev FAULT "R" "pr" false)) released.
Definition run_of (s : coord) : PairRun := default (new_run pair f0 []) (run s).

Lemma reach_staged : reach staged_pair.
Proof. apply reach_op; [constructor|vm_compute; reflexivity]. Qed.
Lemma reach_released : reach released.
Proof. apply reach_op; [apply reach_staged|done]. Qed.
Lemma reach_faulted : reach faulted.
Proof. apply reach_op; [apply reach_released|done]. Qed.

Example both_released : log released = [Execute "R" "pr"; Execute "L" "pl"; Stage "R" (right pair); Stage "L" (left pair)].
Proof. vm_compute. reflexivity. Qed.

Example pair_barrier_witness : lifecycle (run_of released) = EXECUTING /\ barrier "L" "R" (run_of released).
Proof.
  split; [vm_compute; reflexivity|].
  apply (pair_barrier _ _ _ _ _ _ _ _ _ _ _ released (run_of released) reach_released). vm_compute. reflexivity.
Defined.

Example release_only_when_ready_witness : exists new,
  log released = new ++ log staged_pair /\
  forall a pid, Execute a pid ∈ new ->
    exists r m, run staged_pair = Some r /\ ExecutePair "pair-1" = ExecutePair (pair_id (plan r)) /\ lifecycle r = READY /\
      all_acked "L" "R" r /\ (a, m) ∈ members (plan r) /\ pid = plan_id m.
Proof.
  exact (release_only_when_ready _ _ _ _ _ _ _ _ _ _ _ staged_pair (ExecutePair "pair-1") reach_staged I).
Defined.

Example abort_cancels_both_witness : exists new r',
  log faulted = new ++ log released /\ run faulted = Some r' /\
  (aborted (lifecycle r') = true -> both_cancelled "L" "R" (plan (run_of released)) new).
Proof.
  apply (abort_cancels_both _ _ _ _ _ _ _ _ _ _ _ released (Event "R" (ev FAULT "R" "pr" false)) (run_of released) reach_released);
    [done|vm_compute; reflexivity|vm_compute; reflexivity].
Defined.

Example ids_staged_once_witness : staged (log faulted) = ["pr"; "pl"] /\ NoDup (staged (log faulted)).
Proof. split; [vm_compute; reflexivity|]. exact (ids_staged_once _ _ _ _ _ _ _ _ _ _ _ faulted reach_faulted). Defined.

Example ended_pair_frozen_witness : exists r',
  run (step Pump faulted) = Some r' /\ plan r' = plan (run_of faulted) /\
  lifecycle r' = lifecycle (run_of faulted) /\ results r' = results (run_of faulted) /\ reason r' = reason (run_of faulted).
Proof.
  destruct (ended_pair_frozen _ _ _ _ _ _ _ _ _ _ _ faulted Pump (run_of faulted) reach_faulted) as [H _];
    [vm_compute; reflexivity|vm_compute; reflexivity|]. exact (H ltac:(done)).
Defined.
End Demo.
