(* ===== verification/SupervisedArm.v ===== *)
(** One arm of a pair behind its supervisor ([multi_arm/supervised.py]): the handle
    that turns the coordinator's stage, execute and cancel into calls of the SDK, and
    what the supervisor answers into the events the pair lives by.

    The SDK is an environment, each answer indexed by the questions asked so far;
    every answer a call received is an output, next to the events the handle
    queues.  An event's [runtime_state] is a constant of the handle and left out. *)
From Stdlib Require Import SpecFloat PrimFloat FloatOps.
From S2P Require Import Prelude Floats Motion Policy Controller Coordinator Contract Stream Effects Json Codec Clients.

(** ** The supervisor behind the handle, and its log *)

Class Supervisor := {
  arm_name : string;
  robot : RobotIdentity;
  bundle_token : option string;
  sdk_session : string;
  has_controller : bool;
  coordinator_clock : nat -> float;
  fault_str : Fault -> string;                    (* [str(fault)] *)
  sv_now : nat -> result Stamp;
  sv_state : nat -> result RobotState;
  sv_authority : nat -> result Authority;
  sv_law : nat -> result string;
  sv_status : string -> nat -> result ExecutionStatus;
  sv_execute : TrajectoryRequest -> nat -> result ExecutionStatus;
  sv_cancel : string -> string -> nat -> result ExecutionStatus;
  sv_release : string -> nat -> result unit;
  sv_arm : bool -> nat -> result unit;
  sv_select : string -> nat -> result unit;
}.

Inductive event_kind := PLAN_STAGED | PLAN_CLEARED | LEG_RESULT | FAULT.
Record event := { e_kind : event_kind; e_plan : string; e_ok : bool; e_reason : string }.
Inductive said :=
  | Queued (e : event)
  | Status (eid : string) (r : result ExecutionStatus)
  | Executed (q : TrajectoryRequest) (r : result ExecutionStatus)
  | Cancelled (eid why : string) (r : result ExecutionStatus)
  | Released (eid : string) (r : result unit)
  | Started (plan eid : string).                   (* the record is marked released *)

Record staged := { s_execution : string; s_released : bool; s_reported : bool }.
#[export] Instance eta_staged : Eta staged := fun r => {| s_execution := s_execution r; s_released := s_released r; s_reported := s_reported r |}.
Record handle := {
  plans : list (string * staged);
  executions : list (string * string);
  unknown_stage : list (string * TrajectoryRequest);
  events : list event;
  fault_reported : bool;
  h_fault : option string;
  dropped : gmap string (list string);
  deferred : option (list string);
  offset : float;
}.
#[export] Instance eta_handle : Eta handle := fun s => {|
  plans := plans s; executions := executions s; unknown_stage := unknown_stage s; events := events s;
  fault_reported := fault_reported s; h_fault := h_fault s; dropped := dropped s; deferred := deferred s; offset := offset s |}.

(** ** The plan a member is handed *)

(** The payload: a wire message, or the body somebody decoded before. *)
Inductive plan_payload := Wired (m : plan_msg) | Decoded (m : plan_msg).
Record member_plan := { m_plan_id : string; m_payload : plan_payload }.

Definition plan_body (p : plan_payload) : result plan_msg :=
  match p with
  | Wired m => unpack_plan m
  | Decoded m => raise_if negb (rectangular (p_positions (body m))) || negb (rectangular (p_velocities (body m)))
                   of ValueError "setting an array element with a sequence" ;; Ok m
  end.
Definition completion_of (c : completion_rule) : result Completion :=
  Completion_new {| vel_tol := Controller.vel_tol c; goal_q := Controller.goal_q c; residual_max := Controller.residual_max c |}.
Definition impedance_of (c : cartesian_spec) : result CartesianImpedance :=
  _ <-- cartesian_values c ;; CartesianImpedance_new (cs_task_R c) (cs_kc c) (cs_dc c).
(** [f(x)] of an optional field *)
Definition rmap_opt {A B} (f : A -> result B) (o : option A) : result (option B) :=
  match o with None => Ok None | Some a => b <-- f a ;; Ok (Some b) end.
Definition plan_request (m : plan_msg) (instance : string) (joints : list string) : result (TrajectoryRequest * list string) :=
  let b := body m in
  law <-- rmap_opt impedance_of (p_cartesian b) ;;
  raise_if negb (Controller.gated m) of ValueError "a pair member plan must be gated" ;;
  c <-- rmap_opt completion_of (Controller.completion m) ;;
  raise_if negb (length (p_kp b) =? length (p_kd b)) || (length (p_kp b) =? 0)
    of ValueError "a plan carries kp and kd, matching and non-empty" ;;
  tr <-- JointTrajectory_new (p_times b) (p_positions b) (Some (p_velocities b)) ;;
  g <-- JointGains_new (p_kp b) (p_kd b) ;;
  r <-- TrajectoryRequest_new {|
    request_id := Controller.plan_id m; req_instance_id := instance; req_joint_names := joints; trajectory := tr;
    profile := if is_some law then "cartesian_impedance" else "joint_impedance"; gains := Some g;
    Contract.model_token := Controller.token m; start := ON_RELEASE; admit_by := None; completion := c; supersedes := None; cartesian := law |} ;;
  Ok (r, if is_some (p_poses b) then ["cartesian_poses"%string] else []).

(** ** The handle *)

Section Handle.
Context {sv : Supervisor}.
Definition HandleM : Type -> Type := M handle said.

Definition asking {A} (f : nat -> result A) : HandleM (result A) := k <~ ask ;; ret (f k).
Definition clock : HandleM float := k <~ ask ;; ret (coordinator_clock k).
(** A call of the SDK whose answer is kept for the log. *)
Definition noted {A} (f : nat -> result A) (o : result A -> said) : HandleM (result A) := r <~ asking f ;; say (o r) ;~ ret r.
Definition status (eid : string) : HandleM (result ExecutionStatus) := noted (sv_status eid) (Status eid).
Definition submit (q : TrajectoryRequest) : HandleM (result ExecutionStatus) := noted (sv_execute q) (Executed q).
Definition sdk_cancel (eid why : string) : HandleM (result ExecutionStatus) := noted (sv_cancel eid why) (Cancelled eid why).

Definition queue (k : event_kind) (p : string) (ok : bool) (why : string) : HandleM unit :=
  let e := {| e_kind := k; e_plan := p; e_ok := ok; e_reason := why |} in
  upd (fun s => s <| events := events s ++ [e] |>) ;~ say (Queued e).
Definition set_plan (p : string) (f : staged -> staged) : HandleM unit := upd (fun s => s <| plans := dupd p f (plans s) |>).
(** [for old in list(d)[:-64]: d.pop(old)] *)
Definition last_64 {A} (l : list A) : list A := drop (length l - 64) l.

(** ['unknown execution' in str(exc)] *)
Definition forgotten (e : exn) : bool := is_some (String.index 0 "unknown execution" (exn_text e)).
Definition is_refused (e : exn) : bool := match e with Refused _ => true | _ => false end.

Definition forget (p : string) (r : staged) : HandleM unit :=
  upd (fun s => s <| plans := ddel p (plans s) |>) ;~
  when (s_released r && negb (s_reported r))
    (queue LEG_RESULT p false "outcome unknown: the supervisor no longer holds this execution").

Definition outcome_text (st : ExecutionStatus) : string := value (phase st) +:+ ": " +:+ reason st.
(** The result of a released plan, when its execution is over. *)
Definition poll_plan (p : string) (r : staged) : HandleM unit :=
  if negb (s_released r) || s_reported r then ret tt else
  a <~ status (s_execution r) ;;
  match a with
  | Err e => if is_refused e then when (forgotten e) (forget p r) else if infrastructure e then ret tt else throw e
  | Ok st =>
      when (status_terminal st)
        (set_plan p (fun r => r <| s_reported := true |>) ;~
         queue LEG_RESULT p (bool_decide (phase st = COMPLETED)) (if bool_decide (phase st = COMPLETED) then "" else outcome_text st))
  end.
Fixpoint poll_plans (l : list (string * staged)) : HandleM unit :=
  match l with [] => ret tt | (p, r) :: l => poll_plan p r ;~ poll_plans l end.
Definition poll_fault : HandleM unit :=
  a <~ asking sv_authority ;;
  match a with
  | Err e => if infrastructure e then ret tt else throw e
  | Ok a =>
      s <~ get ;;
      match fault a with
      | None => upd (fun s => s <| fault_reported := false |> <| h_fault := None |>)
      | Some f =>
          when (negb (fault_reported s) || negb (bool_decide (h_fault s = Some (fault_str f))))
            (upd (fun s => s <| fault_reported := true |> <| h_fault := Some (fault_str f) |>) ;~ queue FAULT "" false (fault_str f))
      end
  end.
Definition poll_events : HandleM (list event) :=
  s <~ get ;; poll_plans (plans s) ;~ poll_fault ;~
  s <~ get ;; upd (fun s => s <| events := [] |>) ;~ ret (events s).

(** [_loaded] *)
Fixpoint loaded_from (l : list (string * staged)) : HandleM (option string * bool) :=
  match l with
  | [] => ret (None, false)
  | (p, r) :: l =>
      a <~ status (s_execution r) ;;
      match a with
      | Err e =>
          if is_refused e && forgotten e then forget p r ;~ loaded_from l
          else if infrastructure e then ret (Some p, s_released r) else throw e
      | Ok st =>
          if negb (status_terminal st) then ret (Some p, s_released r && negb (bool_decide (phase st = ADMITTED)))
          else when (s_reported r || negb (s_released r)) (upd (fun s => s <| plans := ddel p (plans s) |>)) ;~ loaded_from l
      end
  end.
Definition loaded : HandleM (option string * bool) := s <~ get ;; loaded_from (plans s).

Definition execution_of (p : string) (s : handle) : option string := dget p (executions s).

(** [stage]: the part inside its [try] *)
Definition local (e : exn) : bool := is_refused e || is_ValueError e || match e with KeyError | TypeError _ => true | _ => false end.
Definition submission (pl : member_plan) : HandleM (ExecutionStatus * list string) :=
  m <~ lift (plan_body (m_payload pl)) ;;
  if negb (bool_decide (Controller.plan_id m = m_plan_id pl)) then throw (ValueError "plan_id does not match the member plan id") else
  q <~ lift (plan_request m (Contract.instance_id robot) (joint_names robot)) ;;
  a <~ submit q.1 ;;
  match a with
  | Ok st => ret (st, q.2)
  | Err e =>
      when (negb (local e) && infrastructure e)
        (upd (fun s => s <| unknown_stage := last_64 (dput (m_plan_id pl) q.1 (unknown_stage s)) |>)) ;~ throw e
  end.
Definition stage (pl : member_plan) : HandleM unit :=
  r <~ (fun w => let '(r, w') := submission pl w in (Ok r, w')) ;;
  let p := m_plan_id pl in
  match r with
  | Err e =>
      if local e then queue PLAN_STAGED p false ("refused: " +:+ exn_text e)
      else if infrastructure e then queue PLAN_STAGED p false ("staging outcome unknown: " +:+ exn_text e)
      else throw e
  | Ok (st, lost) =>
      if bool_decide (phase st = REJECTED) || status_terminal st then queue PLAN_STAGED p false (outcome_text st) else
      upd (fun s => s <| plans := dput p {| s_execution := Contract.execution_id st; s_released := false; s_reported := false |} (plans s) |>
                      <| executions := last_64 (dput p (Contract.execution_id st) (executions s)) |>
                      <| dropped := if bool_decide (lost = []) then dropped s else <[p := lost]> (dropped s) |>) ;~
      queue PLAN_STAGED p true ""
  end.

Definition execute (p : string) : HandleM unit :=
  s <~ get ;;
  r <~ some_or (dget p (plans s)) (ValueError "no such staged plan") ;;
  match deferred s with
  | Some l => upd (fun s => s <| deferred := Some (l ++ [s_execution r]) |>)
  | None => a <~ noted (sv_release (s_execution r)) (Released (s_execution r)) ;; lift a
  end ;~
  set_plan p (fun r => r <| s_released := true |>) ;~ say (Started p (s_execution r)).

(** [reason or 'cancelled'] *)
Definition or_cancelled (why : string) : string := if bool_decide (why = ""%string) then "cancelled" else why.
Definition queue_cleared (p : string) (st : ExecutionStatus) : HandleM unit :=
  queue PLAN_CLEARED p (status_terminal st) (if status_terminal st then "" else "not terminal").
Definition cancel_unknown_stage (p : string) (q : TrajectoryRequest) (why : string) : HandleM unit :=
  a <~ submit q ;;
  a <~ (match a with
        | Ok st => if status_terminal st then ret a else sdk_cancel (Contract.execution_id st) (or_cancelled why)
        | Err _ => ret a
        end) ;;
  match a with
  | Err e => if infrastructure e then queue PLAN_CLEARED p false "staging outcome unknown and the cancel is not confirmed" else throw e
  | Ok st => upd (fun s => s <| unknown_stage := ddel p (unknown_stage s) |>) ;~ queue_cleared p st
  end.
Definition cancel_plan (why p : string) : HandleM unit :=
  s <~ get ;;
  match dget p (plans s) with
  | None =>
      other <~ loaded ;;
      s <~ get ;;
      match dget p (unknown_stage s) with
      | Some q => cancel_unknown_stage p q why
      | None => queue PLAN_CLEARED p (negb (is_some other.1)) (if is_some other.1 then "another plan is loaded" else "")
      end
  | Some r =>
      a <~ sdk_cancel (s_execution r) (or_cancelled why) ;;
      match a with
      | Err e => if infrastructure e then queue PLAN_CLEARED p false "cancel not confirmed" else throw e
      | Ok st => set_plan p (fun r => r <| s_reported := true |>) ;~ queue_cleared p st
      end
  end.
Fixpoint cancel_plans (why : string) (l : list string) : HandleM unit :=
  match l with [] => ret tt | p :: l => cancel_plan why p ;~ cancel_plans why l end.
Definition cancel (why : string) (p : option string) : HandleM unit :=
  s <~ get ;; cancel_plans why (match p with Some p => [p] | None => map fst (plans s) end).

(** ** What it shows, and the lifecycle *)

Definition unreachable : ArmControlState := {|
  arm_id := arm_name; position := None; velocity := None; armed := None; ready := None; executing := None; running_plan_id := None;
  mode_law := None; stopped := None; frozen := None; fault_reason := Some "supervisor unreachable"; session_id := Some sdk_session;
  Coordinator.model_token := bundle_token; observed_at := None; state_age_sec := None |}.
Definition answer {A} (f : nat -> result A) : HandleM A := r <~ asking f ;; lift r.
Definition shown (r : RobotState) (a : Authority) (at_ : Stamp) (off : float) (l : option string * bool) (law : string) : ArmControlState :=
  let measured := bool_decide (rs_validity r = VALID) && is_some (rs_q r) && is_some (rs_dq r) in
  let seen := match rs_received r with
              | Some x => if bool_decide ((Contract.clock x, domain x) = (Contract.clock at_, domain at_))
                          then Some (py_max f0 (of_Z (ns at_ - ns x) /f e9), (of_Z (ns x) /f e9) +f off) else None
              | None => None
              end in
  {| arm_id := arm_name; position := if measured then rs_q r else None; velocity := if measured then rs_dq r else None;
     armed := Some (bool_decide (lifecycle a = ARMED)); ready := Some (measured && bool_decide (lifecycle a = ARMED));
     executing := Some l.2; running_plan_id := l.1; mode_law := Some law; stopped := Some false;
     frozen := Some (bool_decide (lifecycle a = L_FAULTED)); fault_reason := fault_str <$> fault a; session_id := Some sdk_session;
     Coordinator.model_token := bundle_token; observed_at := if measured then snd <$> seen else None;
     state_age_sec := if measured then fst <$> seen else None |}.
Definition state : HandleM ArmControlState :=
  before <~ clock ;;
  s <~ catch infrastructure
    (r <~ answer sv_state ;; a <~ answer sv_authority ;; at_ <~ answer sv_now ;;
     upd (fun s => s <| offset := py_max (offset s) (before -f (of_Z (ns at_) /f e9)) |>) ;~
     l <~ loaded ;;
     law <~ (if has_controller then answer sv_law else ret "joint"%string) ;;
     s <~ get ;; ret (shown r a at_ (offset s) l law))
    (fun _ => ret unreachable) ;;
  lift (ArmControlState_new s).

Definition set_armed (b : bool) : HandleM unit := answer (sv_arm b).
Definition set_mode (law : string) : HandleM unit :=
  if String.eqb law "soft" then throw (ValueError "Soft is not available through the supervisor SDK on this plant") else
  if negb (String.eqb law "joint") then throw (ValueError "unknown control law (joint or soft)") else
  if negb has_controller then ret tt else
  now_ <~ answer sv_law ;; if String.eqb now_ "joint" then ret tt else answer (sv_select "track").

(** The constructor, after its reading of the supervisor's clock. *)
Definition SdkArmHandle_new : HandleM unit :=
  before <~ clock ;; at_ <~ answer sv_now ;; upd (fun s => s <| offset := before -f (of_Z (ns at_) /f e9) |>).
Definition empty_handle : handle := {|
  plans := []; executions := []; unknown_stage := []; events := []; fault_reported := false; h_fault := None; dropped := ∅;
  deferred := None; offset := f0 |}.

(** ** Runs *)

Inductive call := Poll | State | Stage (pl : member_plan) | ExecutePlan (p : string) | CancelPlan (why : string) (p : option string)
  | Defer (b : bool) | SetArmed (b : bool) | SetMode (law : string).
Definition perform (c : call) : HandleM unit :=
  match c with
  | Poll => poll_events ;~ ret tt
  | State => state ;~ ret tt
  | Stage pl => stage pl
  | ExecutePlan p => execute p
  | CancelPlan why p => cancel why p
  | Defer b => upd (fun s => s <| deferred := if b then Some [] else None |>)     (* [release_context] *)
  | SetArmed b => set_armed b
  | SetMode law => set_mode law
  end.
Definition serve (w : world handle said) (c : call) : world handle said := (perform c w).2.
Definition opened : world handle said := {| obj := empty_handle; out := []; asked := 0 |}.
End Handle.
