(* ===== verification/SupervisedArmSafety.v ===== *)
(** What the pair coordinator can rely on from an arm behind a supervisor: an event
    that says yes repeats what the supervisor said, and a released plan stays on the
    book until it is answered, once. *)
From Stdlib Require Import SpecFloat PrimFloat FloatOps.
From S2P Require Import Prelude Floats Motion Policy Controller Coordinator Contract Stream Effects Json Codec Clients SupervisedArm.

Section Safety.
Context {sv : Supervisor}.
Abbreviation World := (world handle said).
Abbreviation log := (list (handle * said)).

(** ** What an event that says yes rests on *)

(** The submission just answered took the plan, gated. *)
Definition taken (p : string) (before : log) : Prop :=
  exists q st x l, before = (x, Executed q (Ok st)) :: l /\ request_id q = p /\ start q = ON_RELEASE /\ status_terminal st = false.
(** The execution [eid] is the one of [p]: on the book, or just found by submitting again what was sent for it. *)
Definition execution_of_plan (p eid : string) (x : handle) (before : log) : Prop :=
  (exists r, dget p (plans x) = Some r /\ s_execution r = eid) \/
  (exists q st y l, before = (y, Executed q (Ok st)) :: l /\ dget p (unknown_stage y) = Some q /\ Contract.execution_id st = eid).
Definition ended (p : string) (before : log) : Prop :=
  (exists eid why st x l, before = (x, Cancelled eid why (Ok st)) :: l /\ status_terminal st = true /\ execution_of_plan p eid x l) \/
  (exists q st x l, before = (x, Executed q (Ok st)) :: l /\ status_terminal st = true /\ dget p (unknown_stage x) = Some q).
(** Nothing is loaded: each plan on the book was seen over. *)
Definition nothing_loaded (s : handle) (before : log) : Prop :=
  forall p r, (p, r) ∈ plans s -> exists x st, (x, Status (s_execution r) (Ok st)) ∈ before /\ status_terminal st = true.
Definition completed (p : string) (before : log) : Prop :=
  exists eid st x r l, before = (x, Status eid (Ok st)) :: l /\ phase st = COMPLETED /\
    dget p (plans x) = Some r /\ s_execution r = eid /\ s_released r = true /\ s_reported r = false.

Definition warranted (x : handle * said) (before : log) : Prop :=
  match x.2 with
  | Queued e =>
      e_ok e = true ->
      match e_kind e with
      | PLAN_STAGED => taken (e_plan e) before
      | PLAN_CLEARED => ended (e_plan e) before \/ (dget (e_plan e) (plans x.1) = None /\ nothing_loaded x.1 before)
      | LEG_RESULT => completed (e_plan e) before
      | FAULT => False
      end
  | _ => True
  end.
Fixpoint proper (l : log) : Prop := match l with [] => True | x :: l => warranted x l /\ proper l end.
Lemma proper_at after x before : proper (after ++ x :: before) -> warranted x before.
Proof. induction after as [|y l IH]; simpl; [by intros []|]. intros [_ H]. by apply IH. Qed.

(** ** The book *)

Inductive move := Start_ (p : string) | Leg (p : string) | Clear (p : string).
(** What an output says of a leg; a start counts when the plan was not answered before. *)
Definition moves_of (x : handle * said) : list move :=
  match x.2 with
  | Started p _ => match dget p (plans x.1) with Some r => if s_reported r then [] else [Start_ p] | None => [] end
  | Queued e =>
      match e_kind e with
      | LEG_RESULT => [Leg (e_plan e)]
      | PLAN_CLEARED => if e_ok e then [Clear (e_plan e)] else []
      | _ => []
      end
  | _ => []
  end.
Definition moves (l : log) : list move := flat_map moves_of l.
(** The last word about [p] is its start. *)
Fixpoint in_flight (p : string) (l : list move) : bool :=
  match l with
  | [] => false
  | Start_ p' :: l => if bool_decide (p' = p) then true else in_flight p l
  | (Leg p' | Clear p') :: l => if bool_decide (p' = p) then false else in_flight p l
  end.
Fixpoint legs (p : string) (l : list move) : nat :=
  match l with
  | [] => 0
  | Leg p' :: l => (if bool_decide (p' = p) then 1 else 0) + legs p l
  | _ :: l => legs p l
  end.

Record Book (staged_ids : list string) (pl : list (string * staged)) (mv : list move) : Prop := {
  bk_nodup : NoDup (map fst pl);
  bk_staged : forall p r, dget p pl = Some r -> p ∈ staged_ids;
  bk_flight : forall p, in_flight p mv = true -> exists r, dget p pl = Some r /\ s_released r = true /\ s_reported r = false;
  bk_legs : forall p, (legs p mv <= 1)%nat;
  bk_unreported : forall p r, dget p pl = Some r -> s_reported r = false -> legs p mv = 0%nat;
  bk_fresh : forall p, p ∉ staged_ids -> legs p mv = 0%nat;
}.

Ltac same_plan q p := destruct (decide (q = p)) as [->|?]; [rewrite ?dget_dupd, ?dget_ddel, ?dget_dput in *|rewrite ?dget_dupd_ne, ?dget_ddel_ne, ?dget_dput_ne in * by done].
Lemma flight_ne p q o l : p <> q -> o = Leg p \/ o = Clear p \/ o = Start_ p -> in_flight q (o :: l) = in_flight q l.
Proof. intros Hn [->|[->| ->]]; simpl; by rewrite bool_decide_eq_false_2. Qed.
Lemma legs_ne p q l : p <> q -> legs q (Leg p :: l) = legs q l.
Proof. intros Hn. simpl. by rewrite bool_decide_eq_false_2. Qed.
Lemma book_leg d pl mv p r : Book d pl mv -> dget p pl = Some r -> s_reported r = false ->
  Book d (dupd p (fun r => r <| s_reported := true |>) pl) (Leg p :: mv).
Proof.
  intros [N S F L U O] Hp Hr. split.
  - by rewrite dupd_keys.
  - intros q r'. same_plan q p; eauto.
  - intros q. same_plan q p; [simpl; by rewrite bool_decide_eq_true_2|]. rewrite (flight_ne p) by auto. apply F.
  - intros q. same_plan q p; [simpl; rewrite bool_decide_eq_true_2 by done; rewrite (U p r) by done; lia|]. by rewrite legs_ne.
  - intros q r'. same_plan q p; [rewrite Hp; by intros [= <-]|]. rewrite legs_ne by done. apply U.
  - intros q Hq. rewrite legs_ne; [by apply O|]. intros <-. eapply Hq, S, Hp.
Qed.
Lemma book_del d pl mv p r : Book d pl mv -> dget p pl = Some r -> s_reported r = false -> Book d (ddel p pl) (Leg p :: mv).
Proof.
  intros [N S F L U O] Hp Hr. split.
  - by apply ddel_nodup.
  - intros q r'. same_plan q p; [done|eauto].
  - intros q. same_plan q p; [simpl; by rewrite bool_decide_eq_true_2|]. rewrite (flight_ne p) by auto. apply F.
  - intros q. same_plan q p; [simpl; rewrite bool_decide_eq_true_2 by done; rewrite (U p r) by done; lia|]. by rewrite legs_ne.
  - intros q r'. same_plan q p; [done|]. rewrite legs_ne by done. apply U.
  - intros q Hq. rewrite legs_ne; [by apply O|]. intros <-. eapply Hq, S, Hp.
Qed.
(** A record that is not in flight leaves the book in silence. *)
Lemma book_drop d pl mv p r : Book d pl mv -> dget p pl = Some r -> s_released r && negb (s_reported r) = false -> Book d (ddel p pl) mv.
Proof.
  intros [N S F L U O] Hp Hr. split; try done.
  - by apply ddel_nodup.
  - intros q r'. same_plan q p; [done|eauto].
  - intros q Hq. destruct (F q Hq) as (r' & H1 & H2 & H3). destruct (decide (q = p)) as [->|Hn].
    + rewrite Hp in H1. injection H1 as ->. by rewrite H2, H3 in Hr.
    + exists r'. by rewrite dget_ddel_ne.
  - intros q r'. same_plan q p; [done|]. apply U.
Qed.
Lemma book_clear d pl mv p r : Book d pl mv -> dget p pl = Some r ->
  Book d (dupd p (fun r => r <| s_reported := true |>) pl) (Clear p :: mv).
Proof.
  intros [N S F L U O] Hp. split; try done.
  - by rewrite dupd_keys.
  - intros q r'. same_plan q p; eauto.
  - intros q. same_plan q p; [simpl; by rewrite bool_decide_eq_true_2|]. rewrite (flight_ne p) by auto. apply F.
  - intros q r'. same_plan q p; [rewrite Hp; by intros [= <-]|]. apply U.
Qed.
Lemma book_clear_none d pl mv p : Book d pl mv -> dget p pl = None -> Book d pl (Clear p :: mv).
Proof.
  intros [N S F L U O] Hp. split; try done. intros q. destruct (decide (q = p)) as [->|Hn].
  - simpl. by rewrite bool_decide_eq_true_2.
  - rewrite (flight_ne p) by auto. apply F.
Qed.
Lemma book_start d pl mv p r : Book d pl mv -> dget p pl = Some r ->
  Book d (dupd p (fun r => r <| s_released := true |>) pl) (if s_reported r then mv else Start_ p :: mv).
Proof.
  intros [N S F L U O] Hp. split.
  - by rewrite dupd_keys.
  - intros q r'. same_plan q p; eauto.
  - intros q Hq. destruct (s_reported r) eqn:Er.
    + destruct (F q Hq) as (r' & H1 & H2 & H3). destruct (decide (q = p)) as [->|Hn]; [congruence|]. exists r'. by rewrite dget_dupd_ne.
    + destruct (decide (q = p)) as [->|Hn]; [rewrite dget_dupd, Hp; by eexists|].
      rewrite (flight_ne p) in Hq by auto. rewrite dget_dupd_ne by done. by apply F.
  - intros q. destruct (s_reported r); apply L.
  - intros q r'. assert (legs q (if s_reported r then mv else Start_ p :: mv) = legs q mv) as -> by by destruct (s_reported r).
    same_plan q p; [rewrite Hp; intros [= <-]; by apply (U p r)|]. apply U.
  - intros q Hq. assert (legs q (if s_reported r then mv else Start_ p :: mv) = legs q mv) as -> by by destruct (s_reported r). by apply O.
Qed.
Lemma book_stage d pl mv p eid : Book d pl mv -> p ∉ d ->
  Book (p :: d) (dput p {| s_execution := eid; s_released := false; s_reported := false |} pl) mv.
Proof.
  intros [N S F L U O] Hp. split; try done.
  - by apply dput_nodup.
  - intros q r'. same_plan q p; [by left|right; eauto].
  - intros q Hq. destruct (F q Hq) as (r' & H1 & H2 & H3). exists r'. rewrite dget_dput_ne; [done|]. intros ->. eapply Hp, S, H1.
  - intros q r'. same_plan q p; [intros _ _; by apply O|]. apply U.
  - intros q Hq. apply O. intros H. apply Hq. by right.
Qed.
Lemma book_mono d pl mv p : Book d pl mv -> Book (p :: d) pl mv.
Proof.
  intros [N S F L U O]. split; try done; [intros; right; eauto|]. intros q Hq. apply O. intros H. apply Hq. by right.
Qed.

(** ** The calls *)

Definition Good (d : list string) (w : World) : Prop := Book d (plans (obj w)) (moves (out w)) /\ proper (out w).
(** Leaves the book alone. *)
Definition silent (x : handle * said) : Prop := match x.2 with Queued _ | Started _ _ => False | _ => True end.
Lemma Good_silent d w w' new : plans (obj w') = plans (obj w) -> out w' = new ++ out w -> Forall silent new -> Good d w -> Good d w'.
Proof.
  intros Ep Eo Hn [B P]. unfold Good. rewrite Ep, Eo. assert (moves (new ++ out w) = moves (out w)) as ->.
  { clear -Hn. induction Hn as [|[x o] l Hx Hl IH]; [done|]. unfold moves in *. simpl. rewrite IH. by destruct o. }
  split; [done|]. clear -Hn P. induction Hn as [|[x o] l Hx Hl IH]; [done|]. split; [by destruct o|done].
Qed.
Lemma held_same d w w' : plans (obj w') = plans (obj w) -> out w' = out w -> Good d w -> Good d w'.
Proof. unfold Good. by intros -> ->. Qed.
Lemma held_upd d f : (forall s, plans (f s) = plans s) -> steps (saves (Good d)) (upd f).
Proof. intros H w G. apply (held_same d w); [apply H|done|done]. Qed.
Lemma held_asking d {A} (f : nat -> result A) : steps (saves (Good d)) (asking f).
Proof. intros w G. by apply (held_same d w). Qed.
Lemma Good_clock d : steps (saves (Good d)) clock.
Proof. intros w G. by apply (held_same d w). Qed.
Lemma Good_noted d {A} (f : nat -> result A) o : (forall s r, silent (s, o r)) -> steps (saves (Good d)) (noted f o).
Proof. intros H w G. apply (Good_silent d w _ [(obj w, o (f (asked w)))]); [done|done| |done]. by constructor. Qed.
#[local] Hint Resolve held_asking Good_clock : steps.
#[local] Hint Extern 1 (steps (saves (Good _)) (upd _)) => apply held_upd; done : steps.
#[local] Hint Extern 1 (steps (saves (Good _)) (status _)) => apply Good_noted; done : steps.
#[local] Hint Extern 1 (steps (saves (Good _)) (submit _)) => apply Good_noted; done : steps.
#[local] Hint Extern 1 (steps (saves (Good _)) (sdk_cancel _ _)) => apply Good_noted; done : steps.
#[local] Hint Extern 1 (steps (saves (Good _)) (noted _ (Released _))) => apply Good_noted; done : steps.
Lemma Good_answer d {A} (f : nat -> result A) : steps (saves (Good d)) (answer f).
Proof. unfold answer. steps. Qed.
#[local] Hint Resolve Good_answer : steps.
(** An event that is neither a leg nor a clearance that says yes. *)
Lemma Good_event d k p ok why w : Good d w -> (k = FAULT \/ k = PLAN_STAGED \/ k = PLAN_CLEARED) ->
  (ok = true -> k = PLAN_STAGED /\ taken p (out w)) -> Good d (queue k p ok why w).2.
Proof.
  intros [B P] Hk Hok. split; simpl.
  - unfold moves. simpl. destruct Hk as [->|[->| ->]]; try exact B. destruct ok; [by destruct (Hok eq_refl)|exact B].
  - split; [|exact P]. unfold warranted. simpl. intros ->. destruct (Hok eq_refl) as [-> H]. exact H.
Qed.
Lemma Good_no d k p why : (k = FAULT \/ k = PLAN_STAGED \/ k = PLAN_CLEARED) -> steps (saves (Good d)) (queue k p false why).
Proof. intros Hk w H. by apply Good_event. Qed.
#[local] Hint Extern 1 (steps (saves (Good _)) (queue FAULT _ false _)) => apply Good_no; tauto : steps.
#[local] Hint Extern 1 (steps (saves (Good _)) (queue PLAN_STAGED _ false _)) => apply Good_no; tauto : steps.
#[local] Hint Extern 1 (steps (saves (Good _)) (queue PLAN_CLEARED _ false _)) => apply Good_no; tauto : steps.

Lemma forget_good d p r w : Good d w -> dget p (plans (obj w)) = Some r ->
  Good d (forget p r w).2 /\ plans (obj (forget p r w).2) = ddel p (plans (obj w)) /\
  exists new, out (forget p r w).2 = new ++ out w.
Proof.
  intros [B P] Hp. unfold forget, when, queue, bind, upd, say. destruct (s_released r && negb (s_reported r)) eqn:E; simpl.
  - apply andb_true_iff in E as [_ E%negb_true_iff]. split; [split; [by eapply book_del|]|].
    + split; [done|exact P].
    + split; [done|]. by eexists [_].
  - split; [split; [by eapply book_drop|exact P]|]. split; [done|]. by exists [].
Qed.

(** A question and its answer, in the log. *)
Definition told (o : said) (w : World) : World := w <| asked := S (asked w) |> <| out := (obj w, o) :: out w |>.
Lemma bind_noted {A B} (f : nat -> result A) (o : result A -> said) (k : result A -> HandleM B) w :
  bind (noted f o) k w = k (f (asked w)) (told (o (f (asked w))) w).
Proof. done. Qed.
Lemma upd_then {A} f (k : unit -> HandleM A) w : bind (upd f) k w = k tt (w <| obj := f (obj w) |>).
Proof. done. Qed.
Lemma bind_lift {A B} (r : result A) (k : A -> HandleM B) w : bind (lift r) k w = match r with Ok a => k a w | Err e => (Err e, w) end.
Proof. by destruct r. Qed.
Lemma bind_ret {A B} (a : A) (k : A -> HandleM B) w : bind (ret a) k w = k a w.
Proof. done. Qed.
Lemma told_good d o w : (forall s, silent (s, o)) -> Good d w -> Good d (told o w).
Proof. intros H G. apply (Good_silent d w _ [(obj w, o)]); [done|done| |done]. by constructor. Qed.

Lemma poll_plan_good d p r w : Good d w -> dget p (plans (obj w)) = Some r ->
  Good d (poll_plan p r w).2 /\ forall q, q <> p -> dget q (plans (obj (poll_plan p r w).2)) = dget q (plans (obj w)).
Proof.
  intros G Hp. unfold poll_plan. destruct (negb (s_released r) || s_reported r) eqn:Er; [done|].
  apply orb_false_iff in Er as [Er1%negb_false_iff Er2]. unfold status. rewrite bind_noted.
  set (o := Status _ _). assert (G1 : Good d (told o w)) by (by apply told_good).
  destruct (sv_status _ _) as [st|e] eqn:Es.
  - destruct (status_terminal st) eqn:Et; [|done]. destruct G as [B P]. cbn [when]. split.
    + split; [by eapply book_leg|]. split; [|exact (proj2 G1)]. unfold warranted. simpl. intros Hc%bool_decide_eq_true.
      by exists (s_execution r), st, (obj w), r, (out w).
    + intros q Hq. simpl. by rewrite dget_dupd_ne.
  - destruct (is_refused e); [|destruct (infrastructure e); done]. destruct (forgotten e); [|done]. cbn [when].
    destruct (forget_good d p r _ G1 Hp) as (G2 & Ep & _). split; [exact G2|]. intros q Hq. rewrite Ep. by apply dget_ddel_ne.
Qed.
Lemma poll_plans_good d l w : Good d w -> NoDup (map fst l) -> (forall p r, (p, r) ∈ l -> dget p (plans (obj w)) = Some r) ->
  Good d (poll_plans l w).2.
Proof.
  revert w. induction l as [|[p r] l IH]; intros w G Hn Hl; [done|]. apply NoDup_cons in Hn as [Hp Hn]. cbn [poll_plans].
  destruct (poll_plan_good d p r w G) as [G1 Hq]; [apply Hl; by left|]. unfold bind. destruct (poll_plan p r w) as [[[]|e] w1]; [|done].
  apply IH; [done|done|]. intros q r' Hin. simpl in Hq. rewrite Hq; [apply Hl; by right|]. intros ->. apply Hp.
  by apply (list_elem_of_fmap_2 fst l (p, r')).
Qed.
(** What the book holds, as a loop over it starts. *)
Lemma on_the_book d w p r : Good d w -> (p, r) ∈ plans (obj w) -> dget p (plans (obj w)) = Some r.
Proof. intros [B _]. apply dget_nodup, (bk_nodup _ _ _ B). Qed.
Lemma poll_good d : steps (saves (Good d)) poll_events.
Proof.
  unfold poll_events. intros w G. unfold bind at 1, get. apply (flows_bind (saves (Good d)) (poll_plans (plans (obj w)))); [..|exact G].
  - intros G'. apply poll_plans_good; [done|apply G'|]. intros p r. by apply (on_the_book d).
  - intros _ w' _. unfold flows. revert w'. apply (steps_bind (saves (Good d)) poll_fault); [unfold poll_fault; steps|]. steps.
Qed.

Definition over (r : staged) (l : log) : Prop := exists x st, (x, Status (s_execution r) (Ok st)) ∈ l /\ status_terminal st = true.
Lemma over_later r l new : over r l -> over r (new ++ l).
Proof. intros (x & st & H & Ht). exists x, st. split; [apply elem_of_app; by right|done]. Qed.
(** The rest of the loop, after its first plan was found over or forgotten. *)
Definition scanned (d : list string) (l : list (string * staged)) (w : World) : Prop :=
  Good d w /\ NoDup (map fst l) /\ (forall p r, (p, r) ∈ l -> dget p (plans (obj w)) = Some r) /\
  (forall p r, dget p (plans (obj w)) = Some r -> (p, r) ∈ l \/ over r (out w)).
Lemma scanned_next d p r l w w' new : scanned d ((p, r) :: l) w -> Good d w' -> out w' = new ++ out w ->
  (forall q, q <> p -> dget q (plans (obj w')) = dget q (plans (obj w))) ->
  (dget p (plans (obj w')) = None \/ dget p (plans (obj w')) = Some r /\ over r (out w')) -> scanned d l w'.
Proof.
  intros (G & Hn & Hl & Hall) G' Eo Hq Hp. apply NoDup_cons in Hn as [Hnp Hn].
  assert (Hne : forall q r', (q, r') ∈ l -> q <> p).
  { intros q r' Hin ->. apply Hnp. by apply (list_elem_of_fmap_2 fst l (p, r')). }
  split_and!; [done|done| |].
  - intros q r' Hin. rewrite Hq by (by eapply Hne). apply Hl. by right.
  - intros q r' Hr'. destruct (decide (q = p)) as [->|Hnq].
    + destruct Hp as [Hp|[Hp Ho]]; [congruence|]. right. congruence.
    + rewrite Hq in Hr' by done. destruct (Hall q r' Hr') as [Hin|Ho].
      * apply elem_of_cons in Hin as [[= -> _]|Hin]; [done|by left].
      * right. rewrite Eo. by apply over_later.
Qed.
Lemma loaded_good d l w : scanned d l w ->
  Good d (loaded_from l w).2 /\
  (forall p, dget p (plans (obj w)) = None -> dget p (plans (obj (loaded_from l w).2)) = None) /\
  (forall b, (loaded_from l w).1 = Ok (None, b) -> forall p r, dget p (plans (obj (loaded_from l w).2)) = Some r -> over r (out (loaded_from l w).2)).
Proof.
  revert w. induction l as [|[p r] l IH]; intros w Sc.
  { destruct Sc as (G & _ & _ & Hall). split_and!; [done|done|]. intros _ _ p r Hp. destruct (Hall p r Hp) as [?%elem_of_nil|?]; done. }
  pose proof Sc as (G & _ & Hl & _). pose proof (Hl p r (list_elem_of_here _ _)) as Hp.
  cbn [loaded_from]. unfold status. rewrite bind_noted. set (o := Status _ _). assert (G1 : Good d (told o w)) by (by apply told_good).
  assert (Hgo : forall w', Good d w' -> (exists new, out w' = new ++ out w) -> (forall q, q <> p -> dget q (plans (obj w')) = dget q (plans (obj w))) ->
    (dget p (plans (obj w')) = None \/ dget p (plans (obj w')) = Some r /\ over r (out w')) ->
    Good d (loaded_from l w').2 /\
    (forall p, dget p (plans (obj w)) = None -> dget p (plans (obj (loaded_from l w').2)) = None) /\
    (forall b, (loaded_from l w').1 = Ok (None, b) -> forall p r, dget p (plans (obj (loaded_from l w').2)) = Some r -> over r (out (loaded_from l w').2))).
  { intros w' G' [new Eo] Hq Hp'. destruct (IH w') as (H1 & H2 & H3); [by eapply scanned_next|].
    split_and!; [exact H1| |exact H3]. intros q Hn. apply H2. destruct (decide (q = p)) as [->|Hnq]; [congruence|by rewrite Hq]. }
  destruct (sv_status _ _) as [st|e] eqn:Es.
  - destruct (status_terminal st) eqn:Et; cbn [negb]; [|by split_and!].
    assert (Ho : over r (out (told o w))) by (exists (obj w), st; split; [by left|done]).
    destruct (s_reported r || negb (s_released r)) eqn:Er; cbn [when].
    + apply Hgo; [|by exists [(obj w, o)]|intros q Hq; by apply dget_ddel_ne|left; apply dget_ddel].
      split; [|exact (proj2 G1)]. eapply book_drop; [exact (proj1 G1)|exact Hp|]. by destruct (s_released r), (s_reported r).
    + apply (Hgo (told o w)); [done|by exists [(obj w, o)]|done|by right].
  - destruct (is_refused e && forgotten e).
    + destruct (forget_good d p r _ G1 Hp) as (G2 & Ep & new & Eo). unfold bind. destruct (forget p r (told o w)) as [[[]|e'] w2] eqn:Ef.
      * simpl in *. apply Hgo; [done|exists (new ++ [(obj w, o)]); by rewrite Eo, <-app_assoc|intros q Hq; rewrite Ep; by apply dget_ddel_ne|].
        left. rewrite Ep. apply dget_ddel.
      * exfalso. unfold forget, when, queue, bind, upd, say in Ef. by destruct (_ && _).
    + destruct (infrastructure e); by split_and!.
Qed.
Lemma scanned_all d w : Good d w -> scanned d (plans (obj w)) w.
Proof.
  intros G. split_and!; [done|apply G|intros p r; by apply (on_the_book d)|]. intros p r Hp. left. by apply dget_in.
Qed.
Lemma loaded_saves d : steps (saves (Good d)) loaded.
Proof. intros w G. exact (proj1 (loaded_good d _ w (scanned_all d w G))). Qed.
#[local] Hint Resolve loaded_saves : steps.
Lemma state_saves d : steps (saves (Good d)) state.
Proof.
  unfold state. apply steps_bind; [apply _|steps|]. intros before. apply steps_bind; [apply _|apply saves_catch; steps|]. steps.
Qed.

(** *** Cancelling *)

(** The supervisor behind the SDK: its [cancel] waits until the execution is over. *)
Definition cancel_waits : Prop := forall eid why k st, sv_cancel eid why k = Ok st -> status_terminal st = true.

Lemma cleared_good d p st w : Good d w -> dget p (plans (obj w)) = None -> status_terminal st = true ->
  ended p (out w) -> Good d (queue_cleared p st w).2.
Proof.
  intros [B P] Hp Ht He. unfold queue_cleared. rewrite Ht. split; [by apply book_clear_none|]. split; [|exact P].
  intros _. by left.
Qed.
Lemma cancel_unknown_good d p q why w : cancel_waits -> Good d w -> dget p (plans (obj w)) = None ->
  dget p (unknown_stage (obj w)) = Some q -> Good d (cancel_unknown_stage p q why w).2.
Proof.
  intros Hw G Hp Hu. unfold cancel_unknown_stage, submit. rewrite bind_noted. set (o := Executed _ _).
  assert (G1 : Good d (told o w)) by (by apply told_good).
  destruct (sv_execute _ _) as [st|e] eqn:Es; [destruct (status_terminal st) eqn:Et|].
  - rewrite bind_ret, upd_then. apply cleared_good; [by apply (held_same d (told o w))|done|done|].
    right. by exists q, st, (obj w), (out w).
  - unfold sdk_cancel. rewrite bind_noted. set (o2 := Cancelled _ _ _). assert (G2 : Good d (told o2 (told o w))) by (by apply told_good).
    destruct (sv_cancel _ _ _) as [st2|e] eqn:Ec.
    + rewrite upd_then. apply cleared_good; [by apply (held_same d (told o2 (told o w)))|done|by eapply Hw|].
      left. eexists _, _, st2, (obj w), (out (told o w)). split; [done|]. split; [by eapply Hw|]. right.
      by exists q, st, (obj w), (out w).
    + destruct (infrastructure e); [|done]. by apply Good_no; [tauto|].
  - rewrite bind_ret. destruct (infrastructure e); [|done]. by apply Good_no; [tauto|].
Qed.
Lemma cancel_plan_good d why p : cancel_waits -> steps (saves (Good d)) (cancel_plan why p).
Proof.
  intros Hw w G. unfold cancel_plan. unfold bind at 1, get at 1. destruct (dget p (plans (obj w))) as [r|] eqn:Hp.
  - unfold sdk_cancel. rewrite bind_noted. set (o := Cancelled _ _ _). assert (G1 : Good d (told o w)) by (by apply told_good).
    destruct (sv_cancel _ _ _) as [st|e] eqn:Ec.
    + pose proof (Hw _ _ _ _ Ec) as Ht. unfold set_plan, queue_cleared. rewrite Ht. split.
      * eapply book_clear; [exact (proj1 G1)|exact Hp].
      * split; [|exact (proj2 G1)]. intros _. left. left. eexists _, _, st, (obj w), (out w). split; [done|]. split; [done|]. left. by exists r.
    + destruct (infrastructure e); [|done]. by apply Good_no; [tauto|].
  - destruct (loaded_good d _ w (scanned_all d w G)) as (G1 & H1 & H2). specialize (H1 p Hp). unfold bind at 1.
    change (loaded w) with (loaded_from (plans (obj w)) w).
    destruct (loaded_from (plans (obj w)) w) as [[[other b]|e] w1]; [|exact G1]. simpl in G1, H1, H2. unfold bind at 1, get.
    destruct (dget p (unknown_stage (obj w1))) as [q|] eqn:Hu; [by apply cancel_unknown_good|].
    destruct other as [o|]; simpl; [by apply Good_no; [tauto|]|]. destruct G1 as [B P]. split; [by apply book_clear_none|].
    split; [|exact P]. intros _. right. split; [exact H1|]. intros q r Hin. apply (H2 b eq_refl q r). by apply (on_the_book d).
Qed.
Lemma cancel_held d why p : cancel_waits -> steps (saves (Good d)) (cancel why p).
Proof.
  intros Hw. unfold cancel. apply steps_bind; [apply _|steps|]. intros s. generalize (match p with Some p => [p] | None => map fst (plans s) end).
  intros l. induction l as [|q l IH]; cbn [cancel_plans]; [steps|]. apply steps_bind; [apply _|by apply cancel_plan_good|done].
Qed.

(** *** Starting *)

Lemma execute_good d p : steps (saves (Good d)) (execute p).
Proof.
  intros w G. unfold execute. unfold bind at 1, get at 1. unfold some_or. destruct (dget p (plans (obj w))) as [r|] eqn:Hp; [|done].
  assert (Hend : forall w1, Good d w1 -> plans (obj w1) = plans (obj w) ->
    Good d ((set_plan p (fun r => r <| s_released := true |>) ;~ say (Started p (s_execution r))) w1).2).
  { intros w1 [B P] E. rewrite <-E in Hp. split; [|by split]. unfold moves. simpl. unfold moves_of at 1. simpl. rewrite dget_dupd, Hp.
    simpl. pose proof (book_start d _ _ p r B Hp) as H. by destruct (s_reported r). }
  unfold bind at 1, ret at 1. destruct (deferred (obj w)).
  - apply Hend; [by apply (held_same d w)|done].
  - unfold bind at 1. rewrite bind_noted. assert (G1 : Good d (told (Released (s_execution r) (sv_release (s_execution r) (asked w))) w)) by (by apply told_good).
    destruct (sv_release _ _) as [[]|e]; [|exact G1]. by apply Hend.
Qed.

(** *** Staging *)

Lemma plan_request_ok m i j q lost : plan_request m i j = Ok (q, lost) -> request_id q = Controller.plan_id m /\ start q = ON_RELEASE.
Proof.
  unfold plan_request. intros H. apply rbind_ok in H as (law & _ & H). pass_guard H E. apply rbind_ok in H as (c & _ & H). pass_guard H E2.
  do 2 apply rbind_ok in H as (? & _ & H). apply rbind_ok in H as (r & Hr & [= <- <-]). apply TrajectoryRequest_new_id in Hr as ->. done.
Qed.
Lemma submission_good d pl w : Good d w ->
  Good d (submission pl w).2 /\ plans (obj (submission pl w).2) = plans (obj w) /\
  (forall st lost, (submission pl w).1 = Ok (st, lost) -> status_terminal st = false -> taken (m_plan_id pl) (out (submission pl w).2)).
Proof.
  intros G. unfold submission. rewrite bind_lift. destruct (plan_body (m_payload pl)) as [m|e]; [|by split_and!].
  destruct (negb (bool_decide (Controller.plan_id m = m_plan_id pl))) eqn:Ei; [by split_and!|].
  apply negb_false_iff, bool_decide_eq_true in Ei. rewrite bind_lift.
  destruct (plan_request _ _ _) as [[q lost]|e] eqn:Eq; [|by split_and!]. apply plan_request_ok in Eq as [Er Est]. unfold submit. cbn [fst snd].
  rewrite bind_noted. set (o := Executed _ _). assert (G1 : Good d (told o w)) by (by apply told_good).
  destruct (sv_execute _ _) as [st|e] eqn:Es; simpl.
  - split_and!; [done|done|]. intros st' lost' [= <- <-] Ht. exists q, st, (obj w), (out w). by rewrite Er.
  - destruct (negb (local e) && infrastructure e); simpl; split_and!; done.
Qed.
Lemma stage_good d pl w : Good d w -> m_plan_id pl ∉ d -> Good (m_plan_id pl :: d) (stage pl w).2.
Proof.
  intros G Hd. destruct (submission_good d pl w G) as (G1 & Ep & Ht). unfold stage. unfold bind at 1.
  destruct (submission pl w) as [r w1]. simpl in *. assert (G2 : Good (m_plan_id pl :: d) w1) by (destruct G1; split; [by apply book_mono|done]).
  destruct r as [[st lost]|e].
  - destruct (bool_decide _ || status_terminal st) eqn:Et; [by apply Good_no; [tauto|]|]. apply orb_false_iff in Et as [_ Et].
    unfold bind at 1, upd at 1. destruct G1 as [B P]. apply Good_event; [split; [by apply book_stage|exact P]|tauto|].
    intros _. split; [done|]. by apply (Ht st lost).
  - destruct (local e); [by apply Good_no; [tauto|]|]. destruct (infrastructure e); [by apply Good_no; [tauto|]|done].
Qed.

(** ** Runs *)

Definition ids_of (c : call) : list string := match c with Stage pl => [m_plan_id pl] | _ => [] end.
Definition staged_ids (l : list call) : list string := flat_map ids_of l.
Lemma perform_good d c w : cancel_waits -> Good d w -> (forall p, p ∈ ids_of c -> p ∉ d) -> Good (ids_of c ++ d) (perform c w).2.
Proof.
  intros Hw G Hd. destruct c; cbn [ids_of perform] in *.
  3: { apply stage_good; [done|]. apply Hd. by left. }
  all: cbn [app]; refine ((_ : steps (saves (Good d)) _) w G).
  - apply steps_bind; [apply _|apply poll_good|steps].
  - apply steps_bind; [apply _|apply state_saves|steps].
  - apply execute_good.
  - by apply cancel_held.
  - steps.
  - apply Good_answer.
  - unfold set_mode. steps.
Qed.
Lemma opened_good : Good [] opened.
Proof. split; [|done]. split; simpl; [constructor|done|done|lia|done|done]. Qed.
Lemma run_good l d w : cancel_waits -> Good d w -> NoDup (staged_ids l) -> (forall p, p ∈ staged_ids l -> p ∉ d) ->
  exists d', Good d' (fold_left serve l w).
Proof.
  intros Hw. revert d w. induction l as [|c l IH]; intros d w G Hn Hd; [by exists d|]. simpl in *.
  apply NoDup_app in Hn as (_ & Hx & Hn). apply (IH (ids_of c ++ d)); [|done|].
  - apply perform_good; [done|done|]. intros p Hp. apply Hd, elem_of_app. by left.
  - intros p Hp [H|H]%elem_of_app; [by apply (Hx p)|]. apply (Hd p); [|done]. apply elem_of_app. by right.
Qed.

(** C15: an event that says yes repeats the supervisor: a plan is reported staged only
    right after a submission of that very plan, gated, was answered as held;
    cleared only after the supervisor said its execution is over, or when nothing
    is loaded; and a leg done only when the supervisor said COMPLETED of the
    execution that was released for it. *)
Theorem events_are_confirmed l : cancel_waits -> NoDup (staged_ids l) ->
  forall after s e before, out (fold_left serve l opened) = after ++ (s, Queued e) :: before -> e_ok e = true ->
  match e_kind e with
  | PLAN_STAGED => taken (e_plan e) before
  | PLAN_CLEARED => ended (e_plan e) before \/ (dget (e_plan e) (plans s) = None /\ nothing_loaded s before)
  | LEG_RESULT => completed (e_plan e) before
  | FAULT => False
  end.
Proof.
  intros Hw Hn after s e before E He. destruct (run_good l [] opened Hw opened_good Hn) as (d & _ & P); [by intros p _ ?%elem_of_nil|].
  rewrite E in P. exact (proper_at _ _ _ P He).
Qed.

(** C14: a released plan is answered, once: while no id is staged twice, a plan that was
    started and not yet reported (by the result of its leg or a confirmed clearance)
    is still on the book, released and unreported, so the next polls ask about it;
    and no plan is ever given two results. *)
Theorem released_plans_are_answered l p : cancel_waits -> NoDup (staged_ids l) -> let w := fold_left serve l opened in
  (in_flight p (moves (out w)) = true -> exists r, dget p (plans (obj w)) = Some r /\ s_released r = true /\ s_reported r = false) /\
  (legs p (moves (out w)) <= 1)%nat.
Proof.
  intros Hw Hn. destruct (run_good l [] opened Hw opened_good Hn) as (d & B & _); [by intros q _ ?%elem_of_nil|].
  split; [apply (bk_flight _ _ _ B)|apply (bk_legs _ _ _ B)].
Qed.
End Safety.

(** ** Witness: a plan is staged, started, and seen completed *)

Module Pair.
Definition at_ (n : Z) : Stamp := mk_Stamp n PC "pc:boot".
Definition status_in (ph : Phase) : ExecutionStatus := {|
  Contract.execution_id := "fr3.1.u"; es_request_id := "left.1"; es_instance_id := "fr3"; phase := ph; reached := ∅; reason := "" |}.
Definition message : plan_msg := {|
  Controller.plan_id := "left.1"; Controller.phase := ""; Controller.gated := true;
  body := {| p_times := [f0; f1]; p_positions := [[f0]; [f1]]; p_velocities := [[f0]; [f0]]; p_kp := [f1]; p_kd := [f1];
             p_poses := None; p_cartesian := None |};
  Controller.completion := None; Controller.token := None |}.
(** A supervisor that admits, takes the release and reports the end; it claims the robot. *)
#[export] Instance answers : Supervisor := {|
  arm_name := "left"; robot := {| Contract.instance_id := "fr3"; joint_names := ["j1"%string]; backend := "rt"; model_id := "" |};
  bundle_token := None; sdk_session := "s"; has_controller := false; coordinator_clock := fun k => of_Z (Z.of_nat k); fault_str := fault_text;
  sv_now := fun k => Ok (at_ (Z.of_nat k)); sv_state := fun _ => Err (SupervisorError "closed");
  sv_authority := fun _ => Err (SupervisorError "closed"); sv_law := fun _ => Ok "joint"%string;
  sv_status := fun _ _ => Ok (status_in COMPLETED); sv_execute := fun _ _ => Ok (status_in ADMITTED);
  sv_cancel := fun _ _ _ => Err (TimeoutError "still running"); sv_release := fun _ _ => Ok tt; sv_arm := fun _ _ => Ok tt;
  sv_select := fun _ _ => Ok tt |}.
Definition plan : member_plan := {| m_plan_id := "left.1"; m_payload := Wired message |}.
Definition flown : list call := [Stage plan; ExecutePlan "left.1"; Poll].
Lemma waits : cancel_waits.
Proof. by intros eid why k st. Qed.
Lemma ids_once l : staged_ids l = ["left.1"%string] -> NoDup (staged_ids l).
Proof. intros ->. apply NoDup_singleton. Qed.
Lemma flown_out : exists s r, out (fold_left serve flown opened) = (s, Queued {| e_kind := LEG_RESULT; e_plan := "left.1"; e_ok := true; e_reason := "" |}) :: r.
Proof. do 2 eexists. vm_compute. reflexivity. Qed.
Lemma released_now : in_flight "left.1" (moves (out (fold_left serve (take 2 flown) opened))) = true.
Proof. vm_compute. reflexivity. Qed.
End Pair.
Import Pair.

Example events_are_confirmed_witness : exists before, completed "left.1" before.
Proof.
  destruct flown_out as (s & r & E). exists r.
  exact (events_are_confirmed flown waits (ids_once flown eq_refl) [] s _ r E eq_refl).
Defined.
Example released_plans_are_answered_witness :
  exists r, dget "left.1"%string (plans (obj (fold_left serve (take 2 flown) opened))) = Some r /\ s_released r = true /\ s_reported r = false.
Proof. exact (proj1 (released_plans_are_answered (take 2 flown) "left.1" waits (ids_once (take 2 flown) eq_refl)) released_now). Defined.
