(* ===== verification/AsyncAuthority.v ===== *)
(** ARM and DISARM of a pair member without blocking the console
    ([multi_arm/supervised.py], AsyncAuthorityHandle): each request is a job of one
    worker thread; a DISARM voids the enables still queued.

    The caller's requests and the worker's steps interleave: the worker takes the
    oldest queued job (an enable that was overtaken does nothing), calls the arm,
    and the call ends with whatever it ends.  Taking a job, checking its
    generation and entering the call of the arm are one step here; in the source
    a request may come between the check and the call. *)
From Stdlib Require Import SpecFloat PrimFloat FloatOps.
From S2P Require Import Prelude Effects.

Inductive phase := Waiting | InFlight | Over (failure : option string) | Void.   (* [f.cancel()] took effect *)
Record job := { j_armed : bool; j_generation : Z; j_phase : phase }.
#[export] Instance eta_job : Eta job := fun j => {| j_armed := j_armed j; j_generation := j_generation j; j_phase := j_phase j |}.
Record authority_handle := { pending : list job; generation : Z; fault : option string; closed : bool }.
#[export] Instance eta_authority_handle : Eta authority_handle := fun s => {|
  pending := pending s; generation := generation s; fault := fault s; closed := closed s |}.
Inductive said :=
  | Wants (armed : bool)      (* an accepted request *)
  | OnDisarm                  (* [on_disarm(arm_id)] *)
  | Calls (armed : bool).     (* the worker enters [inner.set_armed] *)
Definition AuthorityM : Type -> Type := M authority_handle said.

(** [f.done()] *)
Definition done_ (p : phase) : bool := match p with Over _ | Void => true | _ => false end.
(** [_reap] *)
Fixpoint reap_list (l : list job) (why : option string) : list job * option string :=
  match l with
  | [] => ([], why)
  | j :: l' => match j_phase j with
               | Over e => reap_list l' e
               | Void => reap_list l' why
               | _ => (l, why)
               end
  end.
Definition reap : AuthorityM unit :=
  upd (fun s => let r := reap_list (pending s) (fault s) in s <| pending := r.1 |> <| fault := r.2 |>).
(** [f.cancel()]: a job that runs goes on. *)
Definition void (j : job) : job := match j_phase j with Waiting => j <| j_phase := Void |> | _ => j end.

Definition set_armed (armed : bool) : AuthorityM unit :=
  reap ;~
  s <~ get ;;
  if armed && closed s then throw (ValueError "the owner is closed") else
  if armed && negb (bool_decide (length (pending s) = 0)) then throw (ValueError "wait for the current authority acknowledgement before arming") else
  going <~ (if armed then ret false else
     say OnDisarm ;~
     if existsb (fun j => negb (j_armed j) && negb (done_ (j_phase j))) (pending s) then ret true
     else upd (fun s => s <| pending := map void (pending s) |>) ;~ ret false) ;;
  say (Wants armed) ;~
  when (negb going)
    (upd (fun s => s <| generation := (generation s + 1)%Z |>
                     <| pending := pending s ++ [{| j_armed := armed; j_generation := generation s + 1; j_phase := Waiting |}] |>)).

(** ** The worker *)

(** The oldest job of the pool that waits. *)
Fixpoint take_job (closed : bool) (now : Z) (l : list job) : list job * option bool :=
  match l with
  | [] => ([], None)
  | j :: l =>
      match j_phase j with
      | Waiting =>
          if j_armed j && (closed || negb (j_generation j =? now)%Z) then (j <| j_phase := Over None |> :: l, None)
          else (j <| j_phase := InFlight |> :: l, Some (j_armed j))
      | _ => let r := take_job closed now l in (j :: r.1, r.2)
      end
  end.
Definition in_flight (s : authority_handle) : bool := existsb (fun j => match j_phase j with InFlight => true | _ => false end) (pending s).
(** The one worker takes a job when it runs none. *)
Definition worker_takes : AuthorityM unit :=
  s <~ get ;;
  if in_flight s then ret tt else
  let r := take_job (closed s) (generation s) (pending s) in
  upd (fun s => s <| pending := r.1 |>) ;~
  match r.2 with Some armed => say (Calls armed) | None => ret tt end.
Definition worker_ends (failure : option string) : AuthorityM unit :=
  upd (fun s => s <| pending := map (fun j => match j_phase j with InFlight => j <| j_phase := Over failure |> | _ => j end) (pending s) |>).

(** [state]: readiness is withheld while a request is pending. *)
Definition shows (ready : bool) (inner_fault : option string) : AuthorityM (bool * option string) :=
  reap ;~ s <~ get ;;
  ret (ready && bool_decide (length (pending s) = 0),
       match inner_fault with Some (String _ _) => inner_fault | _ => fault s end).

Inductive input := SetArmed (b : bool) | Shows (ready : bool) (inner_fault : option string) | CloseOwner | Takes | Ends (failure : option string).
Definition react (w : world authority_handle said) (i : input) : world authority_handle said :=
  match i with
  | SetArmed b => (set_armed b w).2
  | Shows r f => (shows r f w).2
  | CloseOwner => (upd (fun s => s <| closed := true |>) w).2
  | Takes => (worker_takes w).2
  | Ends e => (worker_ends e w).2
  end.
Definition new_handle : world authority_handle said :=
  {| obj := {| pending := []; generation := 0; fault := None; closed := false |}; out := []; asked := 0 |}.

(** ** A DISARM wins *)

Fixpoint latest_want (l : list (authority_handle * said)) : option bool :=
  match l with [] => None | (_, Wants b) :: _ => Some b | _ :: l => latest_want l end.
Fixpoint latest_call (l : list (authority_handle * said)) : option bool :=
  match l with [] => None | (_, Calls b) :: _ => Some b | _ :: l => latest_call l end.
(** A DISARM on its way. *)
Definition coming (j : job) : Prop := j_armed j = false /\ done_ (j_phase j) = false.
(** An enable that the worker would carry out. *)
Definition live (s : authority_handle) (j : job) : Prop := j_armed j = true /\ j_phase j = Waiting /\ j_generation j = generation s.
Definition called_for (x : authority_handle * said) (before : list (authority_handle * said)) : Prop :=
  match x.2 with Calls true => latest_want before = Some true /\ closed x.1 = false | _ => True end.
Fixpoint lawful (l : list (authority_handle * said)) : Prop := match l with [] => True | x :: l => called_for x l /\ lawful l end.

Record Inv (w : world authority_handle said) : Prop := {
  iv_live : forall j, j ∈ pending (obj w) -> live (obj w) j -> latest_want (out w) = Some true;
  iv_coming : forall j, j ∈ pending (obj w) -> coming j -> latest_want (out w) = Some false;
  iv_flight : forall j, j ∈ pending (obj w) -> j_phase j = InFlight -> latest_call (out w) = Some (j_armed j);
  iv_stop : latest_want (out w) = Some false -> (exists j, j ∈ pending (obj w) /\ coming j) \/ latest_call (out w) = Some false;
  iv_lawful : lawful (out w);
}.

Lemma reap_suffix l why : exists l1, l = l1 ++ (reap_list l why).1 /\ Forall (fun j => done_ (j_phase j) = true) l1.
Proof.
  revert why. induction l as [|j l IH]; intros why; [by exists []|]. simpl. destruct (j_phase j) as [| |e|] eqn:E; try by exists [].
  - destruct (IH e) as (l1 & H1 & H2). exists (j :: l1). split; [by rewrite H1 at 1|constructor; [by rewrite E|done]].
  - destruct (IH why) as (l1 & H1 & H2). exists (j :: l1). split; [by rewrite H1 at 1|constructor; [by rewrite E|done]].
Qed.
(** Jobs that are over or void do not count. *)
Lemma Inv_pending w l : Inv w -> (forall j, j ∈ l -> j ∈ pending (obj w)) ->
  (forall j, j ∈ pending (obj w) -> coming j -> j ∈ l) ->
  forall f, Inv (w <| obj := (obj w) <| pending := l |> <| fault := f |> |>).
Proof.
  intros [I1 I2 I3 I4 I5] H1 H2 f. split; simpl; eauto.
  intros Hw. destruct (I4 Hw) as [(j & Hj & Hc)|?]; [left; eauto|by right].
Qed.
Lemma reap_inv w : Inv w -> Inv (reap w).2.
Proof.
  intros H. destruct (reap_suffix (pending (obj w)) (fault (obj w))) as (l1 & E & Hd). apply (Inv_pending w _ H).
  - intros j Hj. rewrite E. apply elem_of_app. by right.
  - intros j Hj [_ Hc]. rewrite E in Hj. apply elem_of_app in Hj as [Hj|Hj]; [|done].
    pose proof (proj1 (Forall_forall _ _) Hd j Hj) as Hx. simpl in Hx. congruence.
Qed.
Lemma set_armed_inv b w : Inv w -> Inv (set_armed b w).2.
Proof.
  intros H. apply reap_inv in H. unfold set_armed. change (reap w) with (Ok tt : result unit, (reap w).2).
  unfold bind at 1. change (reap w) with (Ok tt : result unit, (reap w).2). cbv beta iota.
  generalize dependent (reap w).2. clear w. intros w H. unfold bind at 1, get at 1.
  destruct b; cbn [andb].
  - destruct (closed (obj w)); [done|]. destruct (negb _) eqn:En; [done|]. apply negb_false_iff, bool_decide_eq_true, nil_length_inv in En.
    destruct H as [I1 I2 I3 I4 I5]. split; simpl; rewrite ?En; simpl; try done.
    + intros j [->|?%elem_of_nil]%elem_of_cons; [|done]. by intros [].
    + intros j [->|?%elem_of_nil]%elem_of_cons; [|done]. done.
  - destruct (existsb _ _) eqn:Ex.
    + apply existsb_exists in Ex as (j & Hj%list_elem_of_In & [Ha Hd]%andb_true_iff). apply negb_true_iff in Ha, Hd.
      pose proof (iv_coming _ H j Hj (conj Ha Hd)) as Hw. destruct H as [I1 I2 I3 I4 I5]. split; simpl; try done.
      * intros j' Hj' Hl. by rewrite (I1 j' Hj' Hl) in Hw.
      * intros _. left. by exists j.
    + assert (Hno : forall j, j ∈ pending (obj w) -> ~ coming j).
      { intros j Hj [Ha Hd]. apply existsb_false_Forall in Ex. pose proof (proj1 (Forall_forall _ _) Ex j Hj) as Hx.
        simpl in Hx. by rewrite Ha, Hd in Hx. }
      destruct H as [I1 I2 I3 I4 I5].
      assert (Hin : forall j, j ∈ map void (pending (obj w)) ++ [{| j_armed := false; j_generation := generation (obj w) + 1; j_phase := Waiting |}] ->
        (exists j0, j0 ∈ pending (obj w) /\ j = void j0) \/ j = {| j_armed := false; j_generation := generation (obj w) + 1; j_phase := Waiting |}).
      { intros j [(j0 & -> & Hj0)%list_elem_of_fmap|Hj%list_elem_of_singleton]%elem_of_app; eauto. }
      split; simpl; try done.
      * intros j [(j0 & Hj0 & ->)| ->]%Hin (H1 & H2 & _); [|done]. unfold void in H2. by destruct (j_phase j0) eqn:E; simpl in H2; congruence.
      * intros j [(j0 & Hj0 & ->)| ->]%Hin Hp; [|done]. unfold void in *. destruct (j_phase j0) eqn:E; simpl in *; try congruence. by apply I3.
      * intros _. left. eexists. split; [apply elem_of_app; right; by left|done].
Qed.

Lemma take_cases c now l :
  (take_job c now l = (l, None)) \/
  exists l1 j l2, l = l1 ++ j :: l2 /\ j_phase j = Waiting /\
    ((take_job c now l = (l1 ++ j <| j_phase := Over None |> :: l2, None) /\ j_armed j = true) \/
     (take_job c now l = (l1 ++ j <| j_phase := InFlight |> :: l2, Some (j_armed j)) /\ (j_armed j = true -> c = false /\ j_generation j = now))).
Proof.
  induction l as [|j l IH]; [by left|]. simpl. destruct (j_phase j) eqn:E.
  2-4: destruct IH as [->|(l1 & j' & l2 & -> & Hp & [[-> H]|[-> H]])]; [by left|right; exists (j :: l1), j', l2; split_and!; [done..|by left]|right; exists (j :: l1), j', l2; split_and!; [done..|by right]].
  right. exists [], j, l. split_and!; [done..|]. destruct (j_armed j) eqn:Ea; simpl; [|by right].
  destruct c; simpl; [by left|]. destruct (Z.eqb_spec (j_generation j) now); simpl; [by right|by left].
Qed.
Lemma in_middle {A} (x y : A) l1 l2 : x ∈ l1 ++ y :: l2 <-> x = y \/ x ∈ l1 ++ l2.
Proof. rewrite !elem_of_app, elem_of_cons. tauto. Qed.
Lemma takes_inv w : Inv w -> Inv (worker_takes w).2.
Proof.
  intros H. unfold worker_takes. unfold bind at 1, get at 1. destruct (in_flight (obj w)) eqn:Ef; [done|].
  assert (Hnf : forall j, j ∈ pending (obj w) -> j_phase j <> InFlight).
  { intros j Hj E. apply existsb_false_Forall in Ef. pose proof (proj1 (Forall_forall _ _) Ef j Hj) as Hx. simpl in Hx. by rewrite E in Hx. }
  destruct (take_cases (closed (obj w)) (generation (obj w)) (pending (obj w))) as [Et|(l1 & j & l2 & El & Ep & [[Et Ha]|[Et Ha]])]; rewrite Et; simpl.
  - by destruct H; split.
  - destruct H as [I1 I2 I3 I4 I5]. rewrite El in *. split; simpl; try done.
    + intros j' [->|Hj']%in_middle; [by intros (_ & ? & _)|]. apply I1, in_middle. by right.
    + intros j' [->|Hj']%in_middle; [by intros []|]. apply I2, in_middle. by right.
    + intros j' [->|Hj']%in_middle; [done|]. apply I3, in_middle. by right.
    + intros Hw. destruct (I4 Hw) as [(j' & [->|Hj']%in_middle & Hc)|?]; [by destruct Hc; congruence| |by right].
      left. exists j'. split; [apply in_middle; by right|done].
  - assert (Hlive : j_armed j = true -> latest_want (out w) = Some true).
    { intros Hj. apply (iv_live _ H j); [rewrite El; apply in_middle; by left|]. destruct (Ha Hj) as [_ Hg]. done. }
    destruct H as [I1 I2 I3 I4 I5]. rewrite El in *. split; simpl.
    + intros j' [->|Hj']%in_middle; [by intros (_ & ? & _)|]. apply I1, in_middle. by right.
    + intros j' [->|Hj']%in_middle; [intros [Hc _]; apply (I2 j); [apply in_middle; by left|split; [done|by rewrite Ep]]|]. apply I2, in_middle. by right.
    + intros j' [->|Hj']%in_middle; [done|]. intros E. exfalso. apply (Hnf j'); [apply in_middle; by right|done].
    + intros Hw. right. destruct (j_armed j) eqn:Ej; [|done]. rewrite Hlive in Hw by done. done.
    + split; [|done]. unfold called_for. simpl. destruct (j_armed j) eqn:Ej; [|done]. split; [by apply Hlive|]. simpl. by destruct (Ha eq_refl).
Qed.
Lemma ends_inv e w : Inv w -> Inv (worker_ends e w).2.
Proof.
  intros [I1 I2 I3 I4 I5].
  assert (Hin : forall j, j ∈ map (fun j => match j_phase j with InFlight => j <| j_phase := Over e |> | _ => j end) (pending (obj w)) ->
    j ∈ pending (obj w) /\ j_phase j <> InFlight \/ exists j0, j0 ∈ pending (obj w) /\ j_phase j0 = InFlight /\ j = j0 <| j_phase := Over e |>).
  { intros j (j0 & -> & Hj0)%list_elem_of_fmap. destruct (j_phase j0) eqn:E; [left|right; eauto|left|left]; by rewrite E. }
  split; simpl; try done.
  - intros j [[Hj _]|(j0 & _ & _ & ->)]%Hin; [by apply I1|by intros (_ & ? & _)].
  - intros j [[Hj _]|(j0 & _ & _ & ->)]%Hin; [by apply I2|by intros []].
  - intros j [[Hj Hp]|(j0 & _ & _ & ->)]%Hin; [done|done].
  - intros Hw. destruct (I4 Hw) as [(j & Hj & Hc)|?]; [|by right]. destruct (j_phase j) eqn:E.
    + left. exists j. split; [|done]. apply list_elem_of_fmap. exists j. by rewrite E.
    + right. rewrite (I3 j Hj E). by destruct Hc as [-> _].
    + destruct Hc as [_ Hc]. by rewrite E in Hc.
    + destruct Hc as [_ Hc]. by rewrite E in Hc.
Qed.
Lemma react_inv w i : Inv w -> Inv (react w i).
Proof.
  intros H. destruct i; simpl.
  - by apply set_armed_inv.
  - unfold shows. apply reap_inv in H. exact H.
  - by destruct H; split.
  - by apply takes_inv.
  - by apply ends_inv.
Qed.

(** C16: a DISARM wins: whatever the requests, the worker and the endings of its calls do
    in any order, the worker enters an ARM of the robot only while the latest
    accepted request is an ARM and the owner is open; and once the latest request
    is a DISARM, a DISARM is on its way or was the last call made. *)
Theorem disarm_wins l : let w := run_steps react new_handle l in
  (forall after s before, out w = after ++ (s, Calls true) :: before -> latest_want before = Some true /\ closed s = false) /\
  (latest_want (out w) = Some false -> (exists j, j ∈ pending (obj w) /\ coming j) \/ latest_call (out w) = Some false).
Proof.
  assert (Inv (run_steps react new_handle l)) as H.
  { apply run_steps_inv; [intros; by apply react_inv|]. split; simpl; try done; by intros j ?%elem_of_nil. }
  split; [|apply H]. intros after s before E. pose proof (iv_lawful _ H) as Hl. rewrite E in Hl. clear -Hl.
  induction after as [|x l' IH]; simpl in *; [apply Hl|]. apply IH, Hl.
Qed.

(** An ARM and its DISARM: the enable, still queued, is void. *)
Definition overtaken : list input := [SetArmed true; SetArmed false; Takes; Ends None].
Lemma overtaken_out : map snd (out (run_steps react new_handle overtaken)) = [Calls false; Wants false; OnDisarm; Wants true].
Proof. vm_compute. reflexivity. Qed.
Example disarm_wins_witness :
  (exists j, j ∈ pending (obj (run_steps react new_handle overtaken)) /\ coming j) \/ latest_call (out (run_steps react new_handle overtaken)) = Some false.
Proof. refine (proj2 (disarm_wins overtaken) _). vm_compute. reflexivity. Defined.
