(* ===== verification/Group.v ===== *)
(** RT-scheduled group execution ([multi_arm/group.py]): join every member,
    upload every reference, commit all of them with one budget, and report the
    start from the RT's own selection stamps; on any failure cancel every member.

    The links are an environment: what they attest is data, what they answer is
    indexed by the number of calls made.  The commits of the thread pool are
    issued in the order of the members, one of their interleavings.  The report a
    [GroupStartError] carries is an output. *)
From Stdlib Require Import SpecFloat PrimFloat FloatOps.
From S2P Require Import Prelude Floats Motion RtProtocol Effects.

Definition GROUP_BUDGET_S : float := Eval vm_compute in Prim2SF 0.15%float.
Definition GROUP_HORIZON_S : float := Eval vm_compute in Prim2SF 0.35%float.

(** What a link attests. *)
Record link := { clock_domain : option (list string); group_capable : bool; n_joints : option nat }.

Record stamps := { selected_ns : Z; deadline_ns : Z; member_state : Z }.
(** What a member's commit came back with; another exception is kept until the pool is done. *)
Inductive commit_outcome := Selected (r : stamps) | CommitRefused (code : Z) | CommitLost (why : string) | CommitRaised (e : exn).

Record MemberStart := {
  member : string; reference_id : Z; rt_selected_ns : Z; rt_deadline_ns : Z; pc_commit_sent : float; pc_reply_received : float }.
Record GroupStartRecord := { group_id : Z; domain : string; members : list MemberStart }.

(** [rt_skew_sec], [pc_send_skew_sec], [deadline_agreed] *)
Definition Z_max (l : list Z) : option Z := match l with [] => None | x :: l => Some (fold_left Z.max l x) end.
Definition Z_min (l : list Z) : option Z := match l with [] => None | x :: l => Some (fold_left Z.min l x) end.
Definition rt_skew_sec (r : GroupStartRecord) : option float :=
  let s := map rt_selected_ns (members r) in
  if (2 <=? length s)%nat then hi ← Z_max s; lo ← Z_min s; Some (of_Z (hi - lo) /f e9) else None.
Definition pc_send_skew_sec (r : GroupStartRecord) : option float :=
  match map pc_commit_sent (members r) with
  | x :: y :: l => Some (fold_left py_max (y :: l) x -f fold_left py_min (y :: l) x)
  | _ => None
  end.
Definition deadline_agreed (r : GroupStartRecord) : bool :=
  match map rt_deadline_ns (members r) with [] => false | x :: l => forallb (Z.eqb x) l end.

(** ** Effects *)

Inductive effect :=
  | Join (name : string) (group : Z) (index count : nat)
  | Upload (name : string) (tr : JointTrajectory) (reference : Z)
  | Commit (name : string) (upload reference group : Z) (index : nat) (budget : Z)
  | Cancel (name : string) (group : Z) (index count : nat)
  | Report (l : list (string * commit_outcome))
  | CancelErrors (l : list (string * exn)).

Record Env := {
  joins : nat -> result unit;
  uploads : nat -> result Z;
  commits : nat -> commit_outcome;
  cancels : nat -> result unit;
  monotonic : nat -> float;
}.
Existing Class Env.

Record GroupCoordinator := { links : list (string * link); budget_s : float; horizon_s : float }.
Definition names (g : GroupCoordinator) : list string := map fst (links g).

Definition GroupCoordinator_new (ls : list (string * link)) (budget horizon : float) : result GroupCoordinator :=
  raise_if negb ((2 <=? length ls) && (length ls <=? 4))%nat of ValueError "a group needs 2 to 4 members" ;;
  raise_if negb ((f0 <f budget) && (budget <=f of_Z GROUP_MAX_BUDGET_NS /f e9))
    of ValueError "budget must be positive and within the wire bound" ;;
  raise_if negb (f0 <f horizon) of ValueError "H must be positive" ;;
  Ok {| links := ls; budget_s := budget; horizon_s := horizon |}.

(** ** The checks that need no contact *)

Definition domain_of (g : GroupCoordinator) : result string :=
  let ds := map (fun x => clock_domain x.2) (links g) in
  raise_if existsb is_some ds && negb (forallb is_some ds)
    of RtLinkError "group refused: RT clock domain is attested on some members only" ;;
  match ds with
  | d :: ds => raise_if negb (forallb (fun d' => bool_decide (d' = d)) ds)
                 of RtLinkError "group refused: members are not on one RT clock domain" ;;
               Ok match d with Some parts => String.concat ":" parts | None => "unattested"%string end
  | [] => Err (RtLinkError "group refused: members are not on one RT clock domain")
  end.

Abbreviation references := (gmap string JointTrajectory).
Definition check_reference (g : GroupCoordinator) (trs : references) (x : string * link) : result unit :=
  match trs !! x.1 with
  | None => Err KeyError
  | Some tr =>
      let knots := Z.of_nat (length (times tr)) in
      raise_if negb ((2 <=? knots) && (knots <=? MAX_REFERENCE_KNOTS)) of ValueError "reference needs 2..128 knots" ;;
      raise_if match n_joints x.2 with Some n => negb (num_joints tr =? n)%nat | None => false end
        of ValueError "reference joints" ;;
      raise_if duration_sec tr <f horizon_s g of ValueError "reference covers less than H" ;;
      Ok tt
  end.
Definition validate (g : GroupCoordinator) (trs : references) (ids : gmap string Z) : result string :=
  raise_if negb (bool_decide (dom trs = list_to_set (C:=gset string) (names g))) || negb (bool_decide (dom ids = list_to_set (C:=gset string) (names g)))
    of ValueError "one trajectory and one reference id per member" ;;
  raise_if existsb (fun x => negb (group_capable x.2)) (links g) of RtLinkError "group refused: no group record" ;;
  _ <-- rall (check_reference g trs) (links g) ;;
  domain_of g.

Section Group.
Context {env : Env}.
Definition GroupM : Type -> Type := M unit effect.
Definition answer {A} (f : Env -> nat -> result A) : GroupM A := k <~ ask ;; lift (f env k).
Definition time : GroupM float := k <~ ask ;; ret (monotonic env k).

(** A loop over the members and their indices. *)
Fixpoint each {A} (f : nat -> string -> GroupM A) (i : nat) (l : list string) : GroupM (list A) :=
  match l with
  | [] => ret []
  | x :: l => a <~ f i x ;; r <~ each f (S i) l ;; ret (a :: r)
  end.

(** [cancel]: best effort, the errors are kept. *)
Definition cancel (g : GroupCoordinator) (gid : Z) : GroupM (list (string * exn)) :=
  r <~ each (fun i name =>
         catch (fun _ => true)
           (say (Cancel name gid i (length (links g))) ;~ answer cancels ;~ ret None)
           (fun e => ret (Some (name, e)))) 0 (names g) ;;
  ret (omap (fun x => x) r).

Definition join_all (g : GroupCoordinator) (gid : Z) : GroupM (list unit) :=
  each (fun i name => say (Join name gid i (length (links g))) ;~ answer joins) 0 (names g).
Definition upload_all (g : GroupCoordinator) (trs : references) (ids : gmap string Z) : GroupM (list (string * (Z * Z))) :=
  each (fun _ name =>
          tr <~ some_or (trs !! name) KeyError ;; rid <~ some_or (ids !! name) KeyError ;;
          say (Upload name tr rid) ;~ u <~ answer uploads ;; ret (name, (u, rid))) 0 (names g).
Definition prepare (g : GroupCoordinator) (gid : Z) (trs : references) (ids : gmap string Z) : GroupM (list (string * (Z * Z))) :=
  catch is_RtLinkError (join_all g gid ;~ upload_all g trs ids) (fun _ => throw (RtLinkError "group could not be prepared")).

(** The pool's [commit] of every member: name, reference, outcome, sent and got. *)
Definition commit_one (gid budget : Z) (i : nat) (x : string * (Z * Z)) : GroupM (string * Z * commit_outcome * (float * float)) :=
  sent <~ time ;;
  say (Commit x.1 x.2.1 x.2.2 gid i budget) ;~
  o <~ answer (fun e k => Ok (commits e k)) ;; got <~ time ;; ret (x.1, x.2.2, o, (sent, got)).
Fixpoint commit_all (gid budget : Z) (i : nat) (l : list (string * (Z * Z))) : GroupM (list (string * Z * commit_outcome * (float * float))) :=
  match l with
  | [] => ret []
  | x :: l => a <~ commit_one gid budget i x ;; r <~ commit_all gid budget (S i) l ;; ret (a :: r)
  end.
Definition outcome_of (x : string * Z * commit_outcome * (float * float)) : commit_outcome := x.1.2.
Definition chosen (x : string * Z * commit_outcome * (float * float)) : bool :=
  match outcome_of x with Selected _ => true | _ => false end.
Definition raised (l : list (string * Z * commit_outcome * (float * float))) : option exn :=
  head (omap (fun x => match outcome_of x with CommitRaised e => Some e | _ => None end) l).
Definition stamped (r : stamps) : bool := (0 <? selected_ns r) && (0 <? deadline_ns r).
Fixpoint starts (l : list (string * Z * commit_outcome * (float * float))) : result (list MemberStart) :=
  match l with
  | [] => Ok []
  | (name, rid, o, (sent, got)) :: l =>
      match o with
      | Selected r =>
          raise_if negb (stamped r) of RtLinkError "reported no selection stamp" ;;
          ms <-- starts l ;;
          Ok ({| member := name; reference_id := rid; rt_selected_ns := selected_ns r; rt_deadline_ns := deadline_ns r;
                 pc_commit_sent := sent; pc_reply_received := got |} :: ms)
      | _ => Err (RtLinkError "group did not start")
      end
  end.

Definition start_inner (g : GroupCoordinator) (gid : Z) (trs : references) (ids : gmap string Z) (dom : string) : GroupM GroupStartRecord :=
  ups <~ prepare g gid trs ids ;;
  budget <~ lift (py_int (budget_s g *f e9)) ;;
  outcomes <~ commit_all gid budget 0 ups ;;
  match raised outcomes with
  | Some e => throw e
  | None =>
  let report := map (fun x => (x.1.1.1, outcome_of x)) outcomes in
  if existsb (fun x => negb (chosen x)) outcomes
  then say (Report report) ;~ throw (RtLinkError "group did not start")
  else match starts outcomes with
       | Ok ms => ret {| group_id := gid; domain := dom; members := ms |}
       | Err e => say (Report report) ;~ throw e
       end
  end.

Definition start (g : GroupCoordinator) (gid : Z) (trs : references) (ids : gmap string Z) : GroupM GroupStartRecord :=
  dom <~ lift (validate g trs ids) ;;
  catch (fun _ => true) (start_inner g gid trs ids dom)
    (fun e => errors <~ cancel g gid ;; say (CancelErrors errors) ;~ throw e).

(** ** Properties *)

Abbreviation GW := (world unit effect).
(** What was said between two worlds, first to last. *)
Definition said (w w' : GW) (l : list effect) : Prop := out w' = map (pair tt) (rev l) ++ out w.
Lemma said_nil w : said w w [].
Proof. done. Qed.
Lemma said_trans w w' w'' l l' : said w w' l -> said w' w'' l' -> said w w'' (l ++ l').
Proof. unfold said. intros E1 E2. by rewrite E2, E1, rev_app_distr, map_app, app_assoc. Qed.

(** The events of a loop over the members. *)
Fixpoint indexed {A} (e : nat -> A -> effect) (i : nat) (l : list A) : list effect :=
  match l with [] => [] | x :: l => e i x :: indexed e (S i) l end.

(** A loop whose body says one event, whether it returns or raises. *)
Lemma each_said {A} (f : nat -> string -> GroupM A) e i l w r w' :
  (forall i x w r w', x ∈ l -> f i x w = (r, w') -> said w w' [e i x]) -> each f i l w = (r, w') ->
  exists k, said w w' (indexed e i (take k l)) /\ (is_ok r = true -> take k l = l).
Proof.
  intros Hf. revert i w r w'. induction l as [|x l IH]; intros i w r w' H; simpl in H.
  { injection H as <- <-. exists 0%nat. by split. }
  assert (x ∈ x :: l) as Hx by (apply elem_of_cons; by left).
  unfold bind in H. destruct (f i x w) as [[a|ex] w1] eqn:E1; pose proof (Hf _ _ _ _ _ Hx E1) as S1.
  - assert (forall i x w r w', x ∈ l -> f i x w = (r, w') -> said w w' [e i x]) as Hf'.
    { intros ????? Hin. apply Hf. apply elem_of_cons. by right. }
    destruct (each f (S i) l w1) as [[rs|ex] w2] eqn:E2; destruct (IH Hf' _ _ _ _ E2) as (k & S2 & K); injection H as <- <-;
      exists (S k); (split; [apply (said_trans _ _ _ [_] _ S1 S2)|]); [|done]. intros _. simpl. by rewrite K.
  - injection H as <- <-. exists 1%nat. by split.
Qed.

Lemma said_event {A} e (m : GroupM A) w r w' :
  (say e ;~ m) w = (r, w') -> (forall w, out (m w).2 = out w) -> said w w' [e].
Proof.
  intros H Hm. unfold said. transitivity (out ((say e ;~ m) w).2); [by rewrite H|].
  etrans; [apply (Hm (w <| out := (obj w, e) :: out w |>))|]. simpl. by destruct (obj w).
Qed.
Lemma answer_quiet {A B} (f : Env -> nat -> result A) (k : A -> B) w : out ((a <~ answer f ;; ret (k a)) w).2 = out w.
Proof. unfold answer, bind, ask, lift, ret. simpl. by destruct (f env (asked w)). Qed.
Lemma answer_only {A} (f : Env -> nat -> result A) w : out (answer f w).2 = out w.
Proof. done. Qed.

Definition join_event (g : GroupCoordinator) (gid : Z) (i : nat) (n : string) : effect := Join n gid i (length (links g)).
Definition cancel_event (g : GroupCoordinator) (gid : Z) (i : nat) (n : string) : effect := Cancel n gid i (length (links g)).
Definition upload_event (trs : references) (ids : gmap string Z) (_ : nat) (n : string) : effect :=
  Upload n (default {| times := []; positions := []; velocities := None |} (trs !! n)) (default 0 (ids !! n)).
Definition commit_event (gid budget : Z) (i : nat) (x : string * (Z * Z)) : effect := Commit x.1 x.2.1 x.2.2 gid i budget.

Lemma join_said g gid w r w' : join_all g gid w = (r, w') ->
  exists k, said w w' (indexed (join_event g gid) 0 (take k (names g))) /\ (is_ok r = true -> take k (names g) = names g).
Proof. apply each_said. intros i x w0 r0 w0' _ H. eapply said_event; [exact H|]. apply answer_only. Qed.

(** A cancel reaches every member and never raises. *)
Lemma cancel_said g gid w : exists errs w', cancel g gid w = (Ok errs, w') /\ said w w' (indexed (cancel_event g gid) 0 (names g)).
Proof.
  unfold cancel. set (f := fun (i : nat) (name : string) => catch _ _ _).
  assert (forall i l w, exists r w', each f i l w = (Ok r, w') /\ said w w' (indexed (cancel_event g gid) i l)) as K.
  { intros i l. revert i. induction l as [|x l IH]; intros i w0; [by exists [], w0|].
    assert (exists a w1, f i x w0 = (Ok a, w1) /\ said w0 w1 [cancel_event g gid i x]) as (a & w1 & E1 & S1).
    { unfold f, catch, bind, say, answer, ask, lift, ret, said. simpl. destruct (obj w0). by destruct (cancels env _); eexists _, _. }
    destruct (IH (S i) w1) as (r & w2 & E2 & S2). exists (a :: r), w2. simpl. unfold bind. rewrite E1, E2.
    split; [done|]. apply (said_trans _ _ _ [_] _ S1 S2). }
  destruct (K 0%nat (names g) w) as (r & w' & E & H). unfold bind. rewrite E. by exists (omap (fun x => x) r), w'.
Qed.

Lemma upload_said g trs ids w r w' :
  (forall n, n ∈ names g -> is_some (trs !! n) = true /\ is_some (ids !! n) = true) -> upload_all g trs ids w = (r, w') ->
  exists k, said w w' (indexed (upload_event trs ids) 0 (take k (names g))) /\ (is_ok r = true -> take k (names g) = names g).
Proof.
  intros Hd. apply each_said. intros i x w0 r0 w0' Hx H. destruct (Hd x Hx) as [H1 H2]. unfold upload_event.
  destruct (trs !! x) as [tr|]; [|done]. destruct (ids !! x) as [rid|]; [|done]. simpl in H.
  eapply said_event; [exact H|]. intros w1. apply (answer_quiet uploads (fun u => (x, (u, rid)))).
Qed.
(** The uploads of the members, in member order: each under the member's own
    reference, with the number its own link answered from question [k] on. *)
Definition uploaded (ids : gmap string Z) (k : nat) (ups : list (string * (Z * Z))) : Prop :=
  forall i x, ups !! i = Some x -> ids !! x.1 = Some x.2.2 /\ uploads env (k + i) = Ok x.2.1.

Lemma join_asked g gid w r w' : join_all g gid w = (Ok r, w') -> asked w' = (asked w + length (names g))%nat.
Proof.
  unfold join_all. generalize (names g) 0%nat w r. intros l. induction l as [|x l IH]; intros i w0 r0 H; [injection H as _ <-; simpl; lia|].
  simpl in H. apply bind_ok in H as (u & w1 & E & H). apply bind_ok in H as (rs & w2 & E2 & H). injection H as _ <-.
  rewrite (IH _ _ _ E2). apply bind_ok in E as ([] & w3 & [= <-] & E). unfold answer, bind, ask, lift in E. injection E as _ <-. simpl. lia.
Qed.
Lemma upload_result g trs ids w r w' : upload_all g trs ids w = (Ok r, w') ->
  map fst r = names g /\ uploaded ids (asked w) r /\ asked w' = (asked w + length (names g))%nat.
Proof.
  unfold upload_all. generalize (names g) 0%nat w r. intros l. induction l as [|x l IH]; intros i w0 r0 H.
  { injection H as <- <-. split; [done|]. split; [by intros ??; rewrite lookup_nil|]. simpl. lia. }
  simpl in H. apply bind_ok in H as ([n [u rid]] & w1 & E & H). apply bind_ok in H as (rs & w2 & E2 & H). injection H as <- <-.
  apply bind_ok in E as (tr & w3 & E3 & E). apply bind_ok in E as (rid' & w4 & E4 & E). apply bind_ok in E as ([] & w5 & E5 & E).
  apply bind_ok in E as (u' & w6 & E6 & E). injection E as -> -> -> ->. unfold some_or in E3, E4.
  destruct (trs !! n); [|done]. injection E3 as _ ->. destruct (ids !! n) eqn:Ei; [|done]. injection E4 as -> ->. injection E5 as <-.
  unfold answer, bind, ask, lift in E6. injection E6 as E6 <-. destruct (IH _ _ _ E2) as (<- & F & A). simpl in *.
  split; [done|]. split; [|rewrite A; lia]. intros [|k0] y Hy; simpl in Hy.
  - injection Hy as <-. by rewrite Nat.add_0_r.
  - destruct (F k0 y Hy) as [F1 F2]. split; [exact F1|]. by replace (asked w4 + S k0)%nat with (S (asked w4 + k0))%nat by lia.
Qed.

Lemma commit_said gid budget i l w : exists r w', commit_all gid budget i l w = (Ok r, w') /\
  said w w' (indexed (commit_event gid budget) i l) /\ map (fun x => (x.1.1.1, x.1.1.2)) r = map (fun x => (x.1, x.2.2)) l /\
  forall j x, r !! j = Some x -> outcome_of x = commits env (asked w + 3 * j + 1).
Proof.
  revert i w. induction l as [|x l IH]; intros i w; [by exists [], w|].
  assert (exists a w1, commit_one gid budget i x w = (Ok a, w1) /\ said w w1 [commit_event gid budget i x] /\ (a.1.1.1, a.1.1.2) = (x.1, x.2.2) /\
    outcome_of a = commits env (S (asked w)) /\ asked w1 = (3 + asked w)%nat) as (a & w1 & E1 & S1 & K1 & O1 & A1).
  { unfold commit_one, bind, time, say, answer, ask, lift, ret, said. simpl. destruct (obj w). by eexists _, _. }
  destruct (IH (S i) w1) as (r & w2 & E2 & S2 & K2 & O2). exists (a :: r), w2. simpl. unfold bind. rewrite E1, E2.
  split; [done|]. split; [apply (said_trans _ _ _ [_] _ S1 S2)|]. split; [by rewrite K1, K2|]. intros [|j] y Hy; simpl in Hy.
  - injection Hy as <-. rewrite O1. f_equal. lia.
  - rewrite (O2 j y Hy), A1. f_equal. lia.
Qed.

Lemma starts_sound l ms : starts l = Ok ms ->
  map (fun m => (member m, reference_id m)) ms = map (fun x => (x.1.1.1, x.1.1.2)) l /\
  Forall (fun m => 0 < rt_selected_ns m /\ 0 < rt_deadline_ns m) ms /\
  Forall2 (fun m x => exists r, outcome_of x = Selected r /\ rt_selected_ns m = selected_ns r /\ rt_deadline_ns m = deadline_ns r) ms l.
Proof.
  revert ms. induction l as [|[[[n rid] o] [s t]] l IH]; intros ms H; simpl in H; [by injection H as <-|].
  destruct o as [r| | |]; try done. pass_guard H E. apply rbind_ok in H as (ms' & H1 & H2). injection H2 as <-.
  destruct (IH _ H1) as (K1 & K2 & K3). unfold stamped in E. breflect. simpl. split; [by rewrite K1|]. split; [by constructor|].
  constructor; [|done]. by exists r.
Qed.

(** A prefix of the joins and the uploads. *)
Definition preparing (g : GroupCoordinator) (gid : Z) (trs : references) (ids : gmap string Z) : list effect :=
  indexed (join_event g gid) 0 (names g) ++ indexed (upload_event trs ids) 0 (names g).
Lemma indexed_take {A} (e : nat -> A -> effect) k i l : indexed e i (take k l) = take k (indexed e i l).
Proof. revert k i. induction l as [|x l IH]; intros [|k] i; simpl; [done..|by rewrite IH]. Qed.

Lemma prepare_said g gid trs ids w r w' :
  (forall n, n ∈ names g -> is_some (trs !! n) = true /\ is_some (ids !! n) = true) -> prepare g gid trs ids w = (r, w') ->
  (exists k, said w w' (take k (preparing g gid trs ids))) /\
  forall ups, r = Ok ups -> said w w' (preparing g gid trs ids) /\ map fst ups = names g /\
    uploaded ids (asked w + length (names g)) ups /\ asked w' = (asked w + 2 * length (names g))%nat.
Proof.
  intros Hd H. unfold prepare, catch in H.
  assert (exists r0, (join_all g gid ;~ upload_all g trs ids) w = (r0, w') /\ (forall ups, r = Ok ups -> r0 = Ok ups)) as (r0 & E & Hr).
  { destruct ((join_all g gid ;~ upload_all g trs ids) w) as [[ups|e] w1] eqn:E0; [injection H as <- <-; by eexists|].
    exists (Err e). destruct (is_RtLinkError e); injection H as <- <-; by split. }
  clear H. unfold bind in E. destruct (join_all g gid w) as [[us|e] w1] eqn:E1; destruct (join_said _ _ _ _ _ E1) as (k & S1 & K1).
  - rewrite (K1 eq_refl) in S1. destruct (upload_said _ _ _ _ _ _ Hd E) as (k' & S2 & K2). split.
    + exists (length (indexed (join_event g gid) 0 (names g)) + k')%nat. unfold preparing.
      rewrite take_app_add. rewrite <-indexed_take. by eapply said_trans.
    + intros ups Hu. specialize (Hr ups Hu) as ->. rewrite (K2 eq_refl) in S2. split; [by eapply said_trans|].
      rewrite <- (join_asked _ _ _ _ _ E1). destruct (upload_result _ _ _ _ _ _ E) as (U1 & U2 & ->). split_and!; [done..|].
      rewrite (join_asked _ _ _ _ _ E1). lia.
  - injection E as <- <-. split; [|intros ups Hu; by specialize (Hr ups Hu)]. exists (k `min` length (indexed (join_event g gid) 0 (names g)))%nat.
    unfold preparing. rewrite take_app_le by lia. rewrite indexed_take in S1.
    by rewrite <-take_take, (take_ge (indexed (join_event g gid) 0 (names g))).
Qed.

Lemma validate_names g trs ids : is_ok (validate g trs ids) = true ->
  forall n, n ∈ names g -> is_some (trs !! n) = true /\ is_some (ids !! n) = true.
Proof.
  unfold validate. intros H n Hn. destruct (_ || _) eqn:E; [done|]. breflect.
  assert (n ∈ (list_to_set (names g) : gset string)) as Hs by (by apply elem_of_list_to_set).
  assert (n ∈ dom trs /\ n ∈ dom ids) as [[x Hx]%elem_of_dom [y Hy]%elem_of_dom] by set_solver.
  split; [rewrite Hx|rewrite Hy]; done.
Qed.

(** Every member is committed: once, in member order, by the number its own
    upload was answered in this start, under its own reference, in this group
    and with the coordinator's budget in nanoseconds.  The start began at [w]. *)
Definition committing (g : GroupCoordinator) (gid : Z) (ids : gmap string Z) (w : GW) (l : list effect) : Prop :=
  exists ups budget, map fst ups = names g /\ uploaded ids (asked w + length (names g)) ups /\
    py_int (budget_s g *f e9) = Ok budget /\ l = indexed (commit_event gid budget) 0 ups.
(** What a start attempt said before its end: part of the preparation, or all of
    it and every commit. *)
Definition attempted (g : GroupCoordinator) (gid : Z) (trs : references) (ids : gmap string Z) (w : GW) (l : list effect) : Prop :=
  (exists k, l = take k (preparing g gid trs ids)) \/
  exists cs report, committing g gid ids w cs /\
    l = preparing g gid trs ids ++ cs ++ match report with Some x => [Report x] | None => [] end.
(** What the record of a started group says: each member with its own reference
    and the positive stamps that its own COMMIT was answered with. *)
Definition recorded (g : GroupCoordinator) (gid : Z) (ids : gmap string Z) (w : GW) (rec : GroupStartRecord) : Prop :=
  group_id rec = gid /\ map member (members rec) = names g /\
  forall i m, members rec !! i = Some m -> ids !! member m = Some (reference_id m) /\ 0 < rt_selected_ns m /\ 0 < rt_deadline_ns m /\
    exists st, commits env (asked w + 2 * length (names g) + 3 * i + 1) = Selected st /\
      rt_selected_ns m = selected_ns st /\ rt_deadline_ns m = deadline_ns st.

(** The record of the outcomes of [ups] *)
Lemma starts_recorded g gid ids dom w ups outs ms :
  map fst ups = names g -> uploaded ids (asked w + length (names g)) ups ->
  map (fun x => (x.1.1.1, x.1.1.2)) outs = map (fun x => (x.1, x.2.2)) ups ->
  (forall j x, outs !! j = Some x -> outcome_of x = commits env (asked w + 2 * length (names g) + 3 * j + 1)) ->
  starts outs = Ok ms -> recorded g gid ids w {| group_id := gid; domain := dom; members := ms |}.
Proof.
  intros Hn Hu Hk Ho Hs. destruct (starts_sound _ _ Hs) as (M1 & M2 & M3). rewrite Hk in M1. split_and!; simpl; [done| |].
  - rewrite <-Hn. apply (f_equal (map fst)) in M1. by rewrite !map_map in M1.
  - intros i m Hm. destruct (Forall2_lookup_l _ _ _ _ _ M3 Hm) as (x & Hx & st & E1 & E2 & E3).
    apply (Forall_lookup_1 _ _ _ _ M2) in Hm as Hp. destruct Hp as [P1 P2]. split_and!; [|done..|].
    + apply (f_equal (fun l => l !! i)) in M1. rewrite !list_lookup_fmap, Hm in M1. simpl in M1.
      destruct (ups !! i) as [y|] eqn:Ey; [|done]. injection M1 as -> ->. apply (Hu _ _ Ey).
    + exists st. split_and!; [|done..]. rewrite (Ho _ _ Hx) in E1. exact E1.
Qed.

Lemma inner_said g gid trs ids dom w r w' :
  (forall n, n ∈ names g -> is_some (trs !! n) = true /\ is_some (ids !! n) = true) ->
  start_inner g gid trs ids dom w = (r, w') ->
  exists l, said w w' l /\ attempted g gid trs ids w l /\
    forall rec, r = Ok rec -> recorded g gid ids w rec /\ exists cs, committing g gid ids w cs /\ l = preparing g gid trs ids ++ cs.
Proof.
  intros Hd H. unfold start_inner in H. unfold bind at 1 in H.
  destruct (prepare g gid trs ids w) as [[ups|e] w1] eqn:E1; destruct (prepare_said _ _ _ _ _ _ _ Hd E1) as [[k Sk] Hok].
  2: { injection H as <- <-. eexists. split; [exact Sk|]. split; [left; by exists k|done]. }
  destruct (Hok ups eq_refl) as (S1 & Hn & Hu & Ha). clear Hok k Sk.
  unfold bind at 1, lift at 1 in H. destruct (py_int _) as [budget|e] eqn:Eb.
  2: { injection H as <- <-. eexists. split; [exact S1|]. split; [|done]. left. exists (length (preparing g gid trs ids)). by rewrite take_ge. }
  destruct (commit_said gid budget 0 ups w1) as (outs & w2 & E2 & S2 & K2 & O2). unfold bind at 1 in H. rewrite E2 in H. rewrite Ha in O2.
  set (cs := indexed (commit_event gid budget) 0 ups) in *.
  assert (committing g gid ids w cs) as Hc by by exists ups, budget.
  pose proof (said_trans _ _ _ _ _ S1 S2) as S12.
  assert (forall rep : option (list (string * commit_outcome)), attempted g gid trs ids w ((preparing g gid trs ids ++ cs) ++ match rep with Some x => [Report x] | None => [] end)) as At.
  { intros rep. right. exists cs, rep. split; [done|]. by rewrite app_assoc. }
  assert (forall rep, said w (w2 <| out := (obj w2, Report rep) :: out w2 |>) ((preparing g gid trs ids ++ cs) ++ [Report rep])) as Sr.
  { intros rep. eapply said_trans; [exact S12|]. unfold said. simpl. by destruct (obj w2). }
  destruct (raised outs) as [e|].
  { injection H as <- <-. eexists. split; [exact S12|]. split; [|done]. specialize (At None). by rewrite app_nil_r in At. }
  destruct (existsb _ outs).
  { unfold bind, say, throw in H. injection H as <- <-. eexists. split; [apply Sr|]. split; [apply (At (Some _))|done]. }
  destruct (starts outs) as [ms|e] eqn:Es.
  2: { unfold bind, say, throw in H. injection H as <- <-. eexists. split; [apply Sr|]. split; [apply (At (Some _))|done]. }
  injection H as <- <-. eexists. split; [exact S12|]. split; [specialize (At None); by rewrite app_nil_r in At|].
  intros rec [= <-]. split; [|by exists cs]. by eapply starts_recorded.
Qed.

(** C38: a group starts wholly or is cancelled wholly.  A start that passes the
    local checks joins and uploads every member before it commits any, whatever
    the links answer.  If it returns, every member was committed, once and in
    member order, with the upload number its own link answered in this start,
    its own reference and the coordinator's budget, and the record gives every
    member its own reference and the positive selection stamp and deadline of
    its own COMMIT's reply; if it raises, for whatever reason and wherever it
    stopped, every member is then sent a cancel, and nothing else.  A start that
    fails the checks sends nothing.  The answers are tied by the question's
    number: each join and upload asks one, each commit three (the clock, the
    link, the clock). *)
Theorem start_all_or_cancel g gid trs ids w :
  let '(r, w') := start g gid trs ids w in
  if is_ok (validate g trs ids) then
    exists l, attempted g gid trs ids w l /\
    match r with
    | Ok rec => recorded g gid ids w rec /\ said w w' l /\ exists cs, committing g gid ids w cs /\ l = preparing g gid trs ids ++ cs
    | Err _ => exists errors, said w w' (l ++ indexed (cancel_event g gid) 0 (names g) ++ [CancelErrors errors])
    end
  else is_ok r = false /\ w' = w.
Proof.
  destruct (start g gid trs ids w) as [r w'] eqn:H. unfold start, bind, lift in H.
  destruct (validate g trs ids) as [dom|e] eqn:Hv; simpl; [|by injection H as <- <-].
  assert (is_ok (validate g trs ids) = true) as Hok by (by rewrite Hv). pose proof (validate_names _ _ _ Hok) as Hd.
  unfold catch in H. destruct (start_inner g gid trs ids dom w) as [[rec|e] w1] eqn:E1;
    destruct (inner_said _ _ _ _ _ _ _ _ Hd E1) as (l & S1 & A1 & R1); exists l; (split; [exact A1|]).
  - injection H as <- <-. destruct (R1 rec eq_refl) as [K1 K2]. done.
  - destruct (cancel_said g gid w1) as (errs & w2 & E2 & S2). rewrite E2 in H. unfold say, throw in H. injection H as <- <-.
    exists errs. eapply said_trans; [exact S1|]. eapply said_trans; [exact S2|]. unfold said. simpl. by destruct (obj w2).
Qed.

Lemma fold_max_spec l x : let m := fold_left Z.max l x in m ∈ x :: l /\ forall c, c ∈ x :: l -> c <= m.
Proof.
  revert x. induction l as [|y l IH]; intros x; simpl; [split; [set_solver|intros c Hc; apply list_elem_of_singleton in Hc; lia]|].
  destruct (IH (Z.max x y)) as [Hin Hub]. assert (Z.max x y <= fold_left Z.max l (Z.max x y)) as Hm by (apply Hub; left). split.
  - apply elem_of_cons in Hin as [->|Hin]; [destruct (Z.max_spec x y) as [[_ ->]|[_ ->]]; set_solver|set_solver].
  - intros c Hc. apply elem_of_cons in Hc as [->|[->|Hc]%elem_of_cons]; [lia..|]. apply Hub. by right.
Qed.
Lemma fold_min_spec l x : let m := fold_left Z.min l x in m ∈ x :: l /\ forall c, c ∈ x :: l -> m <= c.
Proof.
  revert x. induction l as [|y l IH]; intros x; simpl; [split; [set_solver|intros c Hc; apply list_elem_of_singleton in Hc; lia]|].
  destruct (IH (Z.min x y)) as [Hin Hub]. assert (fold_left Z.min l (Z.min x y) <= Z.min x y) as Hm by (apply Hub; left). split.
  - apply elem_of_cons in Hin as [->|Hin]; [destruct (Z.min_spec x y) as [[_ ->]|[_ ->]]; set_solver|set_solver].
  - intros c Hc. apply elem_of_cons in Hc as [->|[->|Hc]%elem_of_cons]; [lia..|]. apply Hub. by right.
Qed.

(** The reported skew is the spread of the members' own RT stamps: the
    latest minus the earliest, so never of a negative difference, in seconds; it
    is absent exactly for fewer than two members.  The deadlines are reported as
    agreed exactly when there are members and any two deadlines are equal. *)
Theorem skew_is_a_spread rec :
  (forall s, rt_skew_sec rec = Some s -> exists a b, a ∈ map rt_selected_ns (members rec) /\ b ∈ map rt_selected_ns (members rec) /\
     (forall c, c ∈ map rt_selected_ns (members rec) -> b <= c <= a) /\ s = of_Z (a - b) /f e9) /\
  (rt_skew_sec rec = None <-> (length (members rec) < 2)%nat) /\
  (deadline_agreed rec = true <-> members rec <> [] /\ forall a b, a ∈ map rt_deadline_ns (members rec) -> b ∈ map rt_deadline_ns (members rec) -> a = b).
Proof.
  unfold rt_skew_sec, deadline_agreed. rewrite length_map. split_and!.
  - intros s. destruct (members rec) as [|m ms]; [done|]. destruct (2 <=? _)%nat; [|done]. cbn [map Z_max Z_min].
    destruct (fold_max_spec (map rt_selected_ns ms) (rt_selected_ns m)) as [A1 A2], (fold_min_spec (map rt_selected_ns ms) (rt_selected_ns m)) as [B1 B2].
    intros [= <-]. eexists _, _. split_and!; [exact A1|exact B1| |done]. intros c Hc. split; [by apply B2|by apply A2].
  - destruct (2 <=? _)%nat eqn:E; [apply Nat.leb_le in E|apply Nat.leb_gt in E; by split].
    destruct (members rec); simpl in *; [lia|]. split; [done|lia].
  - destruct (members rec) as [|m ms]; [split; [done|by intros []]|]. cbn [map]. rewrite forallb_forall. split.
    + intros Hf. split; [done|]. assert (forall a, a ∈ rt_deadline_ns m :: map rt_deadline_ns ms -> a = rt_deadline_ns m) as K.
      { intros a Ha. apply elem_of_cons in Ha as [->|Ha]; [done|]. apply list_elem_of_In in Ha. apply Hf in Ha. lia. }
      intros a b Ha Hb. by rewrite (K a Ha), (K b Hb).
    + intros [_ Heq] x Hx. apply Z.eqb_eq, Heq; [left|right; by apply list_elem_of_In].
Qed.
End Group.
