(* ===== verification/PairRelease.v ===== *)
(** Releasing a pair ([multi_arm/supervised_hardware.py], [release_context] and
    [_release_together]): the releases the handles deferred are sent together under
    one start stamp, each must be confirmed as selected before the stamp, and
    otherwise the members that were accepted are cancelled.

    The supervisors are an environment: the first one's clock, what each release
    came back with by the deadline, and what each cancel answers. *)
From Stdlib Require Import SpecFloat PrimFloat FloatOps.
From S2P Require Import Prelude Floats Motion RtProtocol Group Contract Stream Effects Json Codec Clients.

(** What a release came back with by the deadline. *)
Inductive outcome := Unconfirmed | Raised (text : string) | Answered (st : ExecutionStatus).
Record Env := { sv_now : nat -> result Stamp; released : string -> Stamp -> outcome; cancelled : string -> nat -> result unit }.
Existing Class Env.
Inductive said := Releases (eid : string) (start_at : Stamp) | Cancels (eid why : string).

(** [outcome]: [None], accepted for the stamp. *)
Definition reason_of (o : outcome) : option string :=
  match o with
  | Unconfirmed => Some "not confirmed before the scheduled start"
  | Raised text => Some text
  | Answered st =>
      if status_terminal st || bool_decide (phase st = ADMITTED)
      then Some (value (phase st) +:+ ": " +:+ (if bool_decide (reason st = ""%string) then "not selected" else reason st))
      else None
  end.
(** The truth of a reason: [None] and the empty text are false. *)
Definition told (o : option string) : bool := match o with Some (String _ _) => true | _ => false end.

Section Release.
Context {env : Env}.
Definition PairM : Type -> Type := M unit said.
Definition asking {A} (f : nat -> result A) : PairM A := k <~ ask ;; lift (f k).

Fixpoint send_all (l : list string) (stamp : Stamp) : PairM unit :=
  match l with [] => ret tt | eid :: l => say (Releases eid stamp) ;~ send_all l stamp end.
Fixpoint cancel_accepted (l : list (string * option string)) : PairM unit :=
  match l with
  | [] => ret tt
  | (eid, None) :: l =>
      say (Cancels eid "partner release not accepted before the scheduled start") ;~ asking (cancelled env eid) ;~ cancel_accepted l
  | _ :: l => cancel_accepted l
  end.
Definition release_together (l : list string) (stamp : Stamp) : PairM unit :=
  send_all l stamp ;~
  let reasons := map (fun eid => (eid, reason_of (released env eid stamp))) l in
  if negb (existsb (fun x => told x.2) reasons) then ret tt
  else cancel_accepted reasons ;~ throw (ValueError "pair release failed").
(** [release_context] after its body: [l] was deferred, of [members] handles. *)
Definition BUDGET_NS : Z := Eval vm_compute in match py_int (GROUP_BUDGET_S *f e9) with Ok n => n | Err _ => 0%Z end.
Definition release_context (members : nat) (l : list string) : PairM unit :=
  if negb (length l =? members)%nat then ret tt else
  now <~ asking (sv_now env) ;;
  stamp <~ lift (Stamp_new (ns now + BUDGET_NS)%Z (clock now) (domain now)) ;; release_together l stamp.

(** ** All or none *)

(** The release is known to be selected for the stamp. *)
Definition accepted (eid : string) (stamp : Stamp) : Prop :=
  exists st, released env eid stamp = Answered st /\ status_terminal st = false /\ phase st <> ADMITTED.
Lemma accepted_spec eid stamp : reason_of (released env eid stamp) = None <-> accepted eid stamp.
Proof.
  unfold accepted, reason_of. split.
  - destruct (released env eid stamp) as [|t|st] eqn:E; try done. destruct (status_terminal st) eqn:Et; [done|].
    case_bool_decide; [done|]. intros _. by exists st.
  - intros (st & -> & -> & H). by rewrite bool_decide_eq_false_2.
Qed.
(** What was said between two worlds, latest first. *)
Definition adds (w w' : world unit said) (l : list said) : Prop := map snd (out w') = l ++ map snd (out w).
Definition why : string := "partner release not accepted before the scheduled start".
Lemma send_all_says l stamp w : (send_all l stamp w).1 = Ok tt /\ adds w (send_all l stamp w).2 (rev (map (fun eid => Releases eid stamp) l)).
Proof.
  revert w. induction l as [|eid l IH]; intros w; [done|]. cbn [send_all]. unfold bind, say.
  destruct (IH (w <| out := (obj w, Releases eid stamp) :: out w |>)) as [H1 H2]. split; [exact H1|].
  unfold adds in *. rewrite H2. simpl. by rewrite <-app_assoc.
Qed.
Lemma cancel_accepted_cons eid l w : cancel_accepted ((eid, None) :: l) w =
  let w1 := w <| asked := S (asked w) |> <| out := (obj w, Cancels eid why) :: out w |> in
  match cancelled env eid (asked w) with Ok _ => cancel_accepted l w1 | Err e => (Err e, w1) end.
Proof. cbn [cancel_accepted]. unfold asking, bind, say, ask, lift. simpl. by destruct (cancelled env eid (asked w)). Qed.
Fixpoint agreed (l : list (string * option string)) : list string :=
  match l with [] => [] | (eid, None) :: l => eid :: agreed l | _ :: l => agreed l end.
Lemma cancel_accepted_says l w : exists k, adds w (cancel_accepted l w).2 (rev (map (fun eid => Cancels eid why) (take k (agreed l)))) /\
  (((cancel_accepted l w).1 = Ok tt \/ (length (agreed l) <= 1)%nat) -> take k (agreed l) = agreed l).
Proof.
  revert w. induction l as [|[eid [t|]] l IH]; intros w; [by exists 0%nat|apply IH|].
  rewrite cancel_accepted_cons. cbv zeta. set (w1 := w <| asked := _ |> <| out := _ |>). cbn [agreed].
  destruct (cancelled env eid (asked w)) as [[]|e].
  - destruct (IH w1) as (k & H1 & H2). exists (S k). split.
    + unfold adds in *. cbn [take map rev]. rewrite H1. by rewrite <-app_assoc.
    + intros [Hc|Hc]; cbn [take]; f_equal; apply H2; [by left|right]. simpl in Hc. lia.
  - exists 1%nat. split; [done|]. intros [?|Hc]; [done|]. simpl in Hc. destruct (agreed l); [done|simpl in Hc; lia].
Qed.
Lemma agreed_spec stamp l eid : eid ∈ agreed (map (fun eid => (eid, reason_of (released env eid stamp))) l) <-> eid ∈ l /\ accepted eid stamp.
Proof.
  induction l as [|x l IH]; simpl; [rewrite !elem_of_nil; tauto|]. destruct (reason_of (released env x stamp)) as [t|] eqn:E.
  - rewrite IH, elem_of_cons. split; [tauto|]. intros [[->|H] Ha]; [|done]. apply accepted_spec in Ha. congruence.
  - rewrite !elem_of_cons, IH. split; [|tauto]. intros [->|?]; [|tauto]. split; [by left|by apply accepted_spec].
Qed.

(** A pair leg is all or none: while every failure has a text, a release of both
    members that returns had each of them confirmed as selected for one stamp,
    before it, and cancelled nothing; one that raises had a member that was not, and
    sent a cancel to the member that was. *)
Theorem pair_release_all_or_none l stamp w r w' : (length l <= 2)%nat ->
  (forall eid, eid ∈ l -> released env eid stamp <> Raised "") -> release_together l stamp w = (r, w') ->
  (r = Ok tt /\ (forall eid, eid ∈ l -> accepted eid stamp) /\ adds w w' (rev (map (fun eid => Releases eid stamp) l))) \/
  (r <> Ok tt /\ (exists eid, eid ∈ l /\ ~ accepted eid stamp) /\
   forall eid, eid ∈ l -> accepted eid stamp -> Cancels eid why ∈ map snd (out w')).
Proof.
  intros Hl Ht. unfold release_together. unfold bind at 1. destruct (send_all_says l stamp w) as [H1 H2].
  destruct (send_all l stamp w) as [r1 w1]. simpl in H1, H2. subst r1. cbv zeta.
  set (reasons := map _ l). destruct (existsb (fun x => told x.2) reasons) eqn:Ex; cbn [negb].
  - intros E. right. apply existsb_exists in Ex as (x & Hx & Hn). subst reasons. apply in_map_iff in Hx as (eid & <- & Hin).
    assert (Hno : ~ accepted eid stamp) by (intros Ha; apply accepted_spec in Ha; simpl in Hn; by rewrite Ha in Hn).
    destruct (cancel_accepted_says (map (fun eid => (eid, reason_of (released env eid stamp))) l) w1) as (k & H3 & H4).
    unfold bind in E. destruct (cancel_accepted _ w1) as [rc w2] eqn:Ec. simpl in *.
    assert (w' = w2 /\ r <> Ok tt) as [-> Hr] by (destruct rc; injection E as <- <-; done).
    split; [exact Hr|]. split; [exists eid; by rewrite list_elem_of_In|]. intros e He Ha.
    assert (Hall : take k (agreed (map (fun eid => (eid, reason_of (released env eid stamp))) l)) = agreed (map (fun eid => (eid, reason_of (released env eid stamp))) l)).
    { apply H4. right. clear -Hl Hin Hno. destruct l as [|x [|y [|]]]; simpl in Hl; try lia; [done|simpl..].
      - destruct (reason_of _); simpl; lia.
      - destruct Hin as [->|[->|[]]]; rewrite <-accepted_spec in Hno;
          repeat match goal with |- context [reason_of ?o] => destruct (reason_of o) eqn:?; simpl end; simpl; try lia; done. }
    unfold adds in H3. rewrite H3, Hall. apply elem_of_app. left. rewrite list_elem_of_In, <-in_rev, <-list_elem_of_In.
    apply list_elem_of_fmap. exists e. split; [done|]. by apply agreed_spec.
  - intros [= <- <-]. left. split; [done|]. split; [|done]. intros eid Hin. apply accepted_spec.
    destruct (reason_of (released env eid stamp)) as [t|] eqn:E; [|done]. exfalso.
    assert (told (Some t) = false) as Htold.
    { apply existsb_false_Forall in Ex. subst reasons. apply (proj1 (Forall_forall _ _) Ex (eid, Some t)).
      apply list_elem_of_fmap. exists eid. by rewrite E. }
    destruct t as [|]; [|done]. apply (Ht eid Hin). unfold reason_of in E. destruct (released env eid stamp) as [|t|st]; [done|congruence|].
    destruct (_ || _); [|done]. injection E as E. by destruct (phase st).
Qed.
End Release.

(** ** Two members: one selected, the other refused *)

Module PairDemo.
Definition stamp : Stamp := mk_Stamp 150 PC "pc:boot".
Definition status_in (ph : Phase) : ExecutionStatus := {|
  Contract.execution_id := "e"; es_request_id := "r"; es_instance_id := "fr3"; phase := ph; reached := ∅; reason := "" |}.
Definition partner (o : outcome) : Env := {|
  sv_now := fun _ => Ok stamp; released := fun eid _ => if String.eqb eid "left" then Answered (status_in SELECTED) else o;
  cancelled := fun _ _ => Ok tt |}.
Definition pair : list string := ["left"%string; "right"%string].
Definition start : world unit said := {| obj := tt; out := []; asked := 0 |}.
Abbreviation ended o := (release_together (env:=partner o) pair stamp start).
Lemma refused_text : forall eid, eid ∈ pair -> released (partner (Raised "busy")) eid stamp <> Raised "".
Proof. intros eid _. simpl. by destruct (String.eqb eid "left"). Qed.
Lemma left_accepted : accepted (env:=partner (Raised "busy")) "left" stamp.
Proof. by exists (status_in SELECTED). Qed.
Lemma refused_raises : (ended (Raised "busy")).1 = Err (ValueError "pair release failed").
Proof. vm_compute. reflexivity. Qed.
(** A failure without a text counts as none: one member plays the pair leg alone. *)
Example empty_failure_passes : (ended (Raised "")).1 = Ok tt /\ ~ accepted (env:=partner (Raised "")) "right" stamp.
Proof. split; [vm_compute; reflexivity|]. by intros (st & E & _). Qed.
End PairDemo.
Import PairDemo.

Example pair_release_all_or_none_witness : Cancels "left" why ∈ map snd (out (ended (Raised "busy")).2).
Proof.
  destruct (ended (Raised "busy")) as [r w'] eqn:E.
  destruct (pair_release_all_or_none (env:=partner (Raised "busy")) pair stamp start r w' (le_n 2) refused_text E) as [(H & _)|(_ & _ & H)].
  - pose proof refused_raises as Hr. rewrite E in Hr. simpl in Hr. congruence.
  - apply H; [by left|exact left_accepted].
Defined.
