(* ===== verification/SupervisedGroup.v ===== *)
(** Group execution through the supervisors of the members
    ([multi_arm/supervised_group.py]): JOIN every member, submit every request,
    release them together, wait for the RT's selection stamps, and on any failure
    cancel the group on every member.

    The state is [last_executions], the dict that the start fills and the cancel
    reads.  The SDK is an environment, its answers indexed by the questions asked;
    every call is an output together with what it answered.  The calls of the
    thread pools are issued in the order of the members, one of their
    interleavings.  A report of the RT is the JSON object the SDK hands on; its
    clock domain is typed as text or null, as the supervisor sends it.  The wait
    is a loop with fuel, [None] when it ran out; [start_returns] has enough. *)
From Stdlib Require Import SpecFloat PrimFloat FloatOps.
From S2P Require Import Prelude Floats Motion RtProtocol Contract Effects Json Codec Clients Sdk Group.

Abbreviation mapping := (list (string * json)).
Abbreviation executions := (list (string * string)).
Abbreviation requests := (list (string * TrajectoryRequest)).
(** The replies kept so far; what a member's release answered, when it was sent and when the answer was there. *)
Abbreviation replies := (list (string * mapping)).
Abbreviation released := (string * result ExecutionStatus * (float * float))%type.

Inductive effect :=
  | GroupJoin (name : string) (group : Z) (index count : nat) (r : result mapping)
  | Submit (name : string) (q : TrajectoryRequest) (r : result ExecutionStatus)
  | GroupRelease (name eid : string) (group budget : Z) (r : result ExecutionStatus)
  | Asked (name eid : string) (r : result mapping)              (* [group_report] *)
  | Status (name eid : string) (r : result ExecutionStatus)
  | GroupCancel (name : string) (group : Z) (r : result unit)
  | CancelExecution (name eid why : string) (r : result unit)
  | Report (l : list (string * string))                          (* [GroupStartError.members] *)
  | CancelErrors (l : list (string * exn)).

Class Members := {
  m_join : nat -> result mapping;
  m_submit : nat -> result ExecutionStatus;
  m_release : nat -> result ExecutionStatus;
  m_report : nat -> result mapping;
  m_status : nat -> result ExecutionStatus;
  m_group_cancel : nat -> result unit;
  m_cancel : nat -> result unit;
  m_clock : nat -> float;
}.

Record SdkGroupCoordinator := { arms : list (string * client); g_budget_s : float; g_horizon_s : float }.
Definition members_of (g : SdkGroupCoordinator) : list string := map fst (arms g).
Definition SdkGroupCoordinator_new (a : list (string * client)) (budget horizon : float) : result SdkGroupCoordinator :=
  raise_if negb ((2 <=? length a) && (length a <=? 4))%nat of ValueError "a group needs 2 to 4 members" ;;
  raise_if negb ((f0 <f budget) && (budget <=f of_Z GROUP_MAX_BUDGET_NS /f e9))
    of ValueError "budget must be positive and within the wire bound" ;;
  raise_if negb (f0 <f horizon) of ValueError "H must be positive" ;;
  Ok {| arms := a; g_budget_s := budget; g_horizon_s := horizon |}.

(** ** The checks that need no contact *)

Definition check_request (g : SdkGroupCoordinator) (x : string * TrajectoryRequest) : result unit :=
  raise_if negb (match Contract.start x.2 with ON_RELEASE => true | ON_ADMIT => false end)
    of ValueError "a group member is released by the group, not on admission" ;;
  match dget x.1 (arms g) with
  | None => Err KeyError
  | Some c =>
      raise_if negb (offers c "group") of RtLinkError "group refused: supervisor does not advertise group/1" ;;
      raise_if duration_sec (trajectory x.2) <f g_horizon_s g of ValueError "reference covers less than H" ;;
      Ok tt
  end.
Definition validate (g : SdkGroupCoordinator) (qs : requests) : result unit :=
  raise_if negb (bool_decide ((list_to_set (map fst qs) : gset string) = list_to_set (members_of g)))
    of ValueError "one request per member" ;;
  rall (check_request g) qs.

(** [_domain] of what the members attest. *)
Definition domain_of (replies : list mapping) : result string :=
  ds <-- rmap (fun kv => opt as_str (arg "clock_domain" kv)) replies ;;
  raise_if existsb is_some ds && negb (forallb is_some ds)
    of RtLinkError "group refused: RT clock domain is attested on some members only" ;;
  match ds with
  | d :: ds => raise_if negb (forallb (fun d' => bool_decide (d' = d)) ds)
                 of RtLinkError "group refused: members are not on one RT clock domain" ;;
               Ok (default "unattested"%string d)
  | [] => Err (RtLinkError "group refused: members are not on one RT clock domain")
  end.

(** ** Reading a report *)

(** [x == n] *)
Definition same_int (n : Z) (j : json) : bool :=
  match j with
  | JInt m => m =? n
  | JBool b => Z.b2z b =? n
  | JNum x => match py_int x with Ok m => (m =? n) && (of_Z n =f x) | Err _ => false end
  | _ => false
  end.
(** An answer for this group, or one that names none. *)
Definition ours (gid : Z) (kv : mapping) : bool :=
  match arg "group_id" kv with JNull => true | j => same_int gid j end.
(** [x > 0] *)
Definition positive (j : json) : result bool :=
  match j with
  | JInt n => Ok (0 <? n)
  | JBool b => Ok b
  | JNum x => Ok (f0 <f x)
  | _ => Err (TypeError "not supported between instances")
  end.
(** What is said of a reply without a stamp; the [repr] of the peer's verdict is left out. *)
Definition explain (kv : mapping) : result string :=
  peer <-- (let reply := arg "reply" kv in
            if truth reply then match reply with JObj _ => Ok " peer_verdict="%string | _ => Err AttributeError end else Ok ""%string) ;;
  match default (JStr "no reply") (jget "error" kv) with
  | JStr s => Ok (s +:+ peer)
  | _ => Err (TypeError "unsupported operand")
  end.
Definition complaint (x : string * mapping) : result (option (string * string)) :=
  if has_key "selected_ns" x.2 then Ok None else s <-- explain x.2 ;; Ok (Some (x.1, s)).
Definition complaints (names : list string) (replies : list (string * mapping)) : result (list (string * string)) :=
  bad <-- rmap complaint replies ;;
  Ok (omap (fun x => x) bad ++
      map (fun n => (n, "no reply within the budget"%string)) (List.filter (fun n => negb (is_some (dget n replies))) names)).

Section Start.
Context {env : Members}.
Definition GroupM : Type -> Type := M executions effect.
Definition time : GroupM float := k <~ ask ;; ret (m_clock k).
(** A call: its answer is kept in the log. *)
Definition noted {A} (f : nat -> result A) (o : result A -> effect) : GroupM (result A) :=
  k <~ ask ;; say (o (f k)) ;~ ret (f k).
Definition calling {A} (f : nat -> result A) (o : result A -> effect) : GroupM A := r <~ noted f o ;; lift r.
Fixpoint loop {A B} (f : nat -> B -> GroupM A) (i : nat) (l : list B) : GroupM (list A) :=
  match l with
  | [] => ret []
  | x :: l => a <~ f i x ;; r <~ loop f (S i) l ;; ret (a :: r)
  end.

(** [cancel]: best effort on every member, the first error of each is kept. *)
Definition failure (name : string) (r : result unit) : option (string * exn) :=
  match r with Err e => Some (name, e) | Ok _ => None end.
Definition cancel_one (gid : Z) (_ : nat) (name : string) : GroupM (option (string * exn)) :=
  r <~ noted m_group_cancel (GroupCancel name gid) ;;
  execs <~ get ;;
  match dget name execs with
  | None => ret (failure name r)
  | Some eid =>
      r' <~ noted m_cancel (CancelExecution name eid "group cancelled") ;;
      ret (match failure name r with Some e => Some e | None => failure name r' end)
  end.
Definition cancel (g : SdkGroupCoordinator) (gid : Z) : GroupM (list (string * exn)) :=
  r <~ loop (cancel_one gid) 0 (members_of g) ;; ret (omap (fun x => x) r).

(** The two prepared stages; the SDK's exceptions become a start error. *)
Definition or_start_error {A} (why : string) (m : GroupM A) : GroupM A :=
  catch is_SupervisorError m (fun _ => throw (RtLinkError why)).
Definition join_all (g : SdkGroupCoordinator) (gid : Z) : GroupM (list mapping) :=
  loop (fun i name => calling m_join (GroupJoin name gid i (length (arms g)))) 0 (members_of g).
Definition submit_one (qs : requests) (_ : nat) (name : string) : GroupM unit :=
  q <~ some_or (dget name qs) KeyError ;;
  st <~ calling m_submit (Submit name q) ;;
  upd (dput name (Contract.execution_id st)) ;~
  if bool_decide (phase st = ADMITTED) then ret tt
  else say (Report [(name, reason st)]) ;~ throw (RtLinkError "not admitted").
Definition submit_all (g : SdkGroupCoordinator) (qs : requests) : GroupM (list unit) := loop (submit_one qs) 0 (members_of g).

(** The pool's [release] of every member. *)
Definition release_one (gid budget : Z) (_ : nat) (name : string) : GroupM released :=
  sent <~ time ;;
  execs <~ get ;;
  match dget name execs with
  | None => got <~ time ;; ret (name, Err KeyError, (sent, got))
  | Some eid =>
      r <~ noted m_release (GroupRelease name eid gid budget) ;;
      got <~ time ;; ret (name, r, (sent, got))
  end.
Definition release_caught (e : exn) : bool := is_SupervisorError e || match e with TimeoutError _ => true | _ => false end.
(** The first exception the pool's results raise. *)
Definition escaped (l : list released) : option exn :=
  head (omap (fun x => match x.1.2 with Err e => if release_caught e then None else Some e | Ok _ => None end) l).
Definition refusals (l : list released) : list (string * string) :=
  omap (fun x => match x.1.2 with Err e => Some (x.1.1, exn_text e) | Ok _ => None end) l.

(** ** The wait for the stamps *)

Definition ended_reply (st : ExecutionStatus) : mapping := [("error"%string, JStr (key_text (phase st) +:+ ": " +:+ reason st))].
Definition poll_one (gid : Z) (r : replies) (name : string) : GroupM replies :=
  if is_some (dget name r) then ret r else
  execs <~ get ;;
  eid <~ some_or (dget name execs) KeyError ;;
  kv <~ calling m_report (Asked name eid) ;;
  match kv with
  | _ :: _ => if negb (ours gid kv) then ret r else ret (dput name kv r)
  | [] =>
      st <~ calling m_status (Status name eid) ;;
      ret (if status_terminal st then dput name (ended_reply st) r else r)
  end.
Fixpoint poll_round (gid : Z) (r : replies) (names : list string) : GroupM replies :=
  match names with [] => ret r | n :: names => r' <~ poll_one gid r n ;; poll_round gid r' names end.
Fixpoint poll (fuel : nat) (names : list string) (gid : Z) (deadline : float) (r : replies) : GroupM (option replies) :=
  match fuel with
  | O => ret None
  | S fuel =>
      if negb (length r <? length names)%nat then ret (Some r) else
      now <~ time ;;
      if negb (now <f deadline) then ret (Some r) else
      r' <~ poll_round gid r names ;; poll fuel names gid deadline r'
  end.

(** ** The record *)

Definition member_start (name : string) (kv : mapping) (stamps : float * float) : result MemberStart :=
  sel <-- field "selected_ns" (JObj kv) ;; p <-- positive sel ;;
  q <-- (if p then d <-- field "deadline_ns" (JObj kv) ;; positive d else Ok false) ;;
  raise_if negb q of RtLinkError "reported no selection stamp" ;;
  rid <-- (v <-- field "reference_id" (JObj kv) ;; to_int v) ;;
  s <-- to_int sel ;;
  d <-- (v <-- field "deadline_ns" (JObj kv) ;; to_int v) ;;
  Ok {| member := name; reference_id := rid; rt_selected_ns := s; rt_deadline_ns := d;
        pc_commit_sent := stamps.1; pc_reply_received := stamps.2 |}.
Definition starts (r : replies) (l : list released) : result (list MemberStart) :=
  rmap (fun x => match dget x.1.1 r with None => Err KeyError | Some kv => member_start x.1.1 kv x.2 end) l.

Definition f2 : float := Eval vm_compute in Prim2SF 2%float.
(** [_start]: the prepared stages, the release, and what the released members come to. *)
Definition prepare (g : SdkGroupCoordinator) (gid : Z) (qs : requests) : GroupM string :=
  joined <~ or_start_error "group could not be joined" (join_all g gid) ;;
  dom <~ lift (domain_of joined) ;;
  or_start_error "group could not be staged" (submit_all g qs) ;~ ret dom.
Definition conclude (g : SdkGroupCoordinator) (gid : Z) (dom : string) (rel : list released) (r : replies) : GroupM (option GroupStartRecord) :=
  bad <~ lift (complaints (members_of g) r) ;;
  match bad with
  | _ :: _ => say (Report bad) ;~ throw (RtLinkError "group did not start")
  | [] => ms <~ lift (starts r rel) ;; ret (Some {| group_id := gid; domain := dom; members := ms |})
  end.
Definition await_stamps (fuel : nat) (g : SdkGroupCoordinator) (gid : Z) (dom : string) (rel : list released) : GroupM (option GroupStartRecord) :=
  match escaped rel with
  | Some e => throw e
  | None =>
      match refusals rel with
      | (_ :: _) as bad => say (Report bad) ;~ throw (RtLinkError "group could not be released")
      | [] =>
          t <~ time ;;
          polled <~ poll fuel (members_of g) gid ((t +f g_budget_s g) +f f2) [] ;;
          match polled with Some r => conclude g gid dom rel r | None => ret None end
      end
  end.
Definition start_inner (fuel : nat) (g : SdkGroupCoordinator) (gid : Z) (qs : requests) : GroupM (option GroupStartRecord) :=
  dom <~ prepare g gid qs ;;
  budget <~ lift (py_int (g_budget_s g *f e9)) ;;
  rel <~ loop (release_one gid budget) 0 (members_of g) ;;
  await_stamps fuel g gid dom rel.

(** [start]: a failed attempt cancels the group on every member. *)
Definition start (fuel : nat) (g : SdkGroupCoordinator) (gid : Z) (qs : requests) : GroupM (option GroupStartRecord) :=
  lift (validate g qs) ;~
  upd (fun _ => []) ;~
  catch (fun _ => true) (start_inner fuel g gid qs)
    (fun e => errors <~ cancel g gid ;; say (CancelErrors errors) ;~ throw e).
End Start.
