(* ===== verification/SupervisedGroupSafety.v ===== *)
(** What a supervised group start sends, in which order and on which answers; what
    its record is evidence of; and that the start returns. *)
From Stdlib Require Import SpecFloat PrimFloat FloatOps.
From S2P Require Import Prelude Floats Motion RtProtocol Contract Effects Json Codec Clients Sdk Group SupervisedGroup.

Section Facts.
Context {env : Members}.
Abbreviation GW := (world executions effect).

(** What was said between two worlds, first to last. *)
Definition spoke (w w' : GW) (l : list effect) : Prop := map snd (out w') = rev l ++ map snd (out w).
Lemma spoke_nil w w' : out w' = out w -> spoke w w' [].
Proof. unfold spoke. by intros ->. Qed.
Lemma spoke_trans w w' w'' l l' : spoke w w' l -> spoke w' w'' l' -> spoke w w'' (l ++ l').
Proof. unfold spoke. intros E1 E2. by rewrite E2, E1, rev_app_distr, app_assoc. Qed.
Lemma noted_spoke {A} (f : nat -> result A) o w : exists w', noted f o w = (Ok (f (asked w)), w') /\
  spoke w w' [o (f (asked w))] /\ obj w' = obj w /\ asked w' = S (asked w).
Proof. by eexists. Qed.
Lemma calling_spoke {A} (f : nat -> result A) o w : exists w', calling f o w = (f (asked w), w') /\
  spoke w w' [o (f (asked w))] /\ obj w' = obj w /\ asked w' = S (asked w).
Proof. by eexists. Qed.

(** ** A loop over the members *)

(** The calls of a loop, each with its answer, as far as the loop came. *)
Fixpoint marked {R} (mk : nat -> string -> R -> effect -> Prop) (i : nat) (l : list string) (rs : list R) (es : list effect) : Prop :=
  match l, rs, es with
  | x :: l, r :: rs, e :: es => mk i x r e /\ marked mk (S i) l rs es
  | _, [], [] => True
  | _, _, _ => False
  end.
Fixpoint puts {R} (put : string -> R -> executions -> executions) (l : list string) (rs : list R) (o : executions) : executions :=
  match l, rs with x :: l, r :: rs => puts put l rs (put x r o) | _, _ => o end.

Lemma loop_spoke {A R} (f : nat -> string -> GroupM A) (mk : nat -> string -> R -> effect -> Prop) put (I : executions -> Prop)
    (T : list effect -> Prop) (Q : string -> A -> R -> Prop) l : T [] ->
  (forall i x w res w', x ∈ l -> I (obj w) -> f i x w = (res, w') -> exists r e tail,
     spoke w w' (e :: tail) /\ mk i x r e /\ T tail /\ obj w' = put x r (obj w) /\ I (obj w') /\
     (forall a, res = Ok a -> tail = [] /\ Q x a r)) ->
  forall i w res w', I (obj w) -> loop f i l w = (res, w') -> exists rs es tail,
    spoke w w' (es ++ tail) /\ marked mk i l rs es /\ T tail /\ obj w' = puts put l rs (obj w) /\
    (forall a, res = Ok a -> tail = [] /\ Forall3 Q l a rs).
Proof.
  intros HT Hf. induction l as [|x l IH]; intros i w res w' HI H; simpl in H.
  { injection H as <- <-. exists [], [], []. split_and!; [by apply spoke_nil|done..|]. intros a [= <-]. split; [done|constructor]. }
  unfold bind in H. destruct (f i x w) as [ra w1] eqn:E1.
  assert (x ∈ x :: l) as Hx by (apply elem_of_cons; by left).
  destruct (Hf _ _ _ _ _ Hx HI E1) as (r & e & tail & S1 & M1 & T1 & O1 & I1 & Q1). destruct ra as [a|ex].
  - destruct (Q1 a eq_refl) as [-> Qa]. destruct (loop f (S i) l w1) as [rb w2] eqn:E2.
    destruct (IH (fun i y w res w' Hy => Hf i y w res w' (proj2 (elem_of_cons _ _ _) (or_intror Hy))) _ _ _ _ I1 E2)
      as (rs & es & tail & S2 & M2 & T2 & O2 & Q2).
    assert (w' = w2) as -> by (destruct rb; by injection H). exists (r :: rs), (e :: es), tail. simpl.
    split_and!; [apply (spoke_trans _ _ _ [_] _ S1 S2)|done..|by rewrite O2, O1|].
    intros b Hb. destruct rb as [bs|ex]; injection H as <-; [|done]. injection Hb as <-.
    destruct (Q2 bs eq_refl) as [-> F]. split; [done|by constructor].
  - injection H as <- <-. exists [r], [e], tail. simpl. split_and!; [done|done|by destruct l|done|by destruct l|done].
Qed.
Lemma puts_keep {R} l (rs : list R) o : puts (fun _ _ o => o) l rs o = o.
Proof. revert rs. induction l as [|x l IH]; intros [|r rs]; simpl; [done..|by apply IH]. Qed.

(** ** The stages of a start *)

Definition join_mark (g : SdkGroupCoordinator) (gid : Z) (i : nat) (n : string) (r : result mapping) (e : effect) : Prop :=
  e = GroupJoin n gid i (length (arms g)) r.
Definition submit_mark (qs : requests) (_ : nat) (n : string) (r : result ExecutionStatus) (e : effect) : Prop :=
  exists q, dget n qs = Some q /\ e = Submit n q r.
Definition release_mark (gid budget : Z) (execs : executions) (_ : nat) (n : string) (r : result ExecutionStatus) (e : effect) : Prop :=
  exists eid, dget n execs = Some eid /\ e = GroupRelease n eid gid budget r.
(** A submitted execution is on record, whatever its phase. *)
Definition put_exec (n : string) (r : result ExecutionStatus) (o : executions) : executions :=
  match r with Ok st => dput n (Contract.execution_id st) o | Err _ => o end.

(** An attempt may end with a report. *)
Definition reports (l : list effect) : Prop := l = [] \/ exists x, l = [Report x].
Definition admitted (r : result ExecutionStatus) : Prop := exists st, r = Ok st /\ phase st = ADMITTED.
Definition answered {A} (r : result A) : Prop := is_ok r = true.
(** A question about a member's own execution. *)
Definition polling (execs : executions) (e : effect) : Prop :=
  match e with Asked n eid _ | Status n eid _ => dget n execs = Some eid | _ => False end.

(** Every member has joined; every member has admitted its request. *)
Definition all_joined (g : SdkGroupCoordinator) (gid : Z) (es : list effect) : Prop :=
  exists js, marked (join_mark g gid) 0 (members_of g) js es /\ length js = length (members_of g) /\ Forall answered js.
Definition all_admitted (g : SdkGroupCoordinator) (qs : requests) (es : list effect) : Prop :=
  exists ss, marked (submit_mark qs) 0 (members_of g) ss es /\ length ss = length (members_of g) /\ Forall admitted ss.

(** How far a start came: no member is asked to execute before every member has
    joined, none is released before every member has admitted its request, and the
    stamps are waited for only when every release was taken. *)
Inductive attempted (g : SdkGroupCoordinator) (gid : Z) (qs : requests) (execs : executions) : list effect -> Prop :=
  | at_join js es : marked (join_mark g gid) 0 (members_of g) js es -> attempted g gid qs execs es
  | at_submit ej ss es tail : all_joined g gid ej -> marked (submit_mark qs) 0 (members_of g) ss es -> reports tail ->
      attempted g gid qs execs (ej ++ es ++ tail)
  | at_release ej es budget rs er ps tail : all_joined g gid ej -> all_admitted g qs es ->
      marked (release_mark gid budget execs) 0 (members_of g) rs er -> length rs = length (members_of g) ->
      Forall (polling execs) ps -> (ps <> [] -> Forall answered rs) -> reports tail ->
      attempted g gid qs execs (ej ++ es ++ er ++ ps ++ tail).

Lemma join_spoke g gid w res w' : join_all g gid w = (res, w') -> exists js es,
  spoke w w' es /\ marked (join_mark g gid) 0 (members_of g) js es /\ obj w' = obj w /\
  (forall a, res = Ok a -> js = map Ok a /\ length js = length (members_of g)).
Proof.
  intros H. eapply (loop_spoke _ (join_mark g gid) (fun _ _ o => o) (fun _ => True) (eq []) (fun _ a r => r = Ok a))
    in H as (js & es & tail & Sp & Mk & <- & O & Q); [|done| |done].
  - rewrite puts_keep in O. rewrite app_nil_r in Sp. exists js, es. split_and!; [done..|]. intros a ->.
    destruct (Q a eq_refl) as [_ F]. pose proof (Forall3_length_lr _ _ _ _ F) as L2. split; [|done].
    clear -F. induction F as [|???? ? ? -> ? IH]; simpl; [done|by f_equal].
  - intros i x w0 r0 w0' _ _ E. destruct (calling_spoke m_join (GroupJoin x gid i (length (arms g))) w0) as (w1 & E1 & S1 & O1 & _).
    rewrite E1 in E. injection E as <- <-. eexists _, _, []. by split_and!.
Qed.

Lemma submit_one_spoke qs i x w res w' : is_some (dget x qs) = true -> submit_one qs i x w = (res, w') -> exists r e tail,
  spoke w w' (e :: tail) /\ submit_mark qs i x r e /\ reports tail /\ obj w' = put_exec x r (obj w) /\
  (forall a, res = Ok a -> tail = [] /\ admitted r).
Proof.
  unfold submit_one. intros Hq E. destruct (dget x qs) as [q|] eqn:Eq; [|done]. clear Hq. cbn [some_or] in E. unfold bind, ret in E.
  destruct (calling_spoke m_submit (Submit x q) w) as (w1 & E1 & S1 & O1 & _). rewrite E1 in E.
  assert (exists e, submit_mark qs i x (m_submit (asked w)) e /\ e = Submit x q (m_submit (asked w))) as (e & Me & ->) by (by eexists; split; [exists q|]).
  destruct (m_submit (asked w)) as [st|ex] eqn:Es.
  - simpl in E. unfold say, throw in E. case_bool_decide as Hp; injection E as <- <-.
    + eexists _, _, []. split_and!; [exact S1|exact Me|by left|simpl; by rewrite O1|]. intros _ _. split; [done|]. by exists st.
    + eexists _, _, [_]. split_and!; [apply (spoke_trans _ _ _ [_] [_] S1); unfold spoke; reflexivity|exact Me|right; by eexists|simpl; by rewrite O1|done].
  - injection E as <- <-. eexists _, _, []. split_and!; [exact S1|exact Me|by left|done|done].
Qed.
Lemma submit_spoke g qs w res w' : (forall n, n ∈ members_of g -> is_some (dget n qs) = true) -> submit_all g qs w = (res, w') ->
  exists ss es tail, spoke w w' (es ++ tail) /\ marked (submit_mark qs) 0 (members_of g) ss es /\ reports tail /\
    obj w' = puts put_exec (members_of g) ss (obj w) /\
    (is_ok res = true -> tail = [] /\ length ss = length (members_of g) /\ Forall admitted ss).
Proof.
  intros Hq H. eapply (loop_spoke _ (submit_mark qs) put_exec (fun _ => True) reports (fun _ _ r => admitted r))
    in H as (ss & es & tail & Sp & Mk & T & O & Q); [|by left| |done].
  - exists ss, es, tail. split_and!; [done..|]. destruct res as [a|e]; [intros _|done]. destruct (Q a eq_refl) as [-> F].
    split; [done|]. split; [by pose proof (Forall3_length_lr _ _ _ _ F)|]. clear -F. induction F; by constructor.
  - intros i x w0 r0 w0' Hx _ E. destruct (submit_one_spoke _ _ _ _ _ _ (Hq x Hx) E) as (r & e & tail & K1 & K2 & K3 & K4 & K5).
    exists r, e, tail. by split_and!.
Qed.

(** The executions on record are the ones the submits answered. *)
Lemma puts_other l ss o n : n ∉ l -> dget n (puts put_exec l ss o) = dget n o.
Proof.
  revert ss o. induction l as [|x l IH]; intros [|r ss] o; simpl; [done..|]. intros [Hx Hl]%not_elem_of_cons.
  rewrite (IH ss (put_exec x r o) Hl). destruct r; simpl; [by apply dget_dput_ne|done].
Qed.
Lemma submits_recorded qs l ss es o i n eid : NoDup l -> (forall x, x ∈ l -> dget x o = None) -> marked (submit_mark qs) i l ss es ->
  n ∈ l -> dget n (puts put_exec l ss o) = Some eid <-> exists q st, Submit n q (Ok st) ∈ es /\ Contract.execution_id st = eid.
Proof.
  intros Nd. revert ss es o i. induction Nd as [|x l Hx Nd IH]; intros ss es o i Ho M Hn; [by apply elem_of_nil in Hn|].
  destruct ss as [|r ss], es as [|e es]; simpl in M; try done.
  { simpl. rewrite (Ho n Hn). split; [done|]. by intros (q & st & ?%elem_of_nil & _). }
  destruct M as [(q & Eq & ->) M]. simpl.
  assert (forall y, y ∈ l -> dget y (put_exec x r o) = None) as Ho'.
  { intros y Hy. assert (y <> x) as Hyx by (by intros ->). destruct r as [st|ex]; simpl; [rewrite dget_dput_ne by done|]; apply Ho, elem_of_cons; by right. }
  assert (forall y q' st l' rs' es' j, y ∉ l' -> marked (submit_mark qs) j l' rs' es' -> Submit y q' (Ok st) ∉ es') as Hfar.
  { clear. intros y q' st l'. induction l' as [|z l' IH]; intros [|r rs'] [|e es'] j Hy M; simpl in M; try done; try (by apply not_elem_of_nil).
    apply not_elem_of_cons in Hy as [Hz Hl]. destruct M as [(q & _ & ->) M]. apply not_elem_of_cons.
    split; [by intros [= -> _ _]|by apply (IH rs' es' (S j))]. }
  apply elem_of_cons in Hn as [->|Hn].
  - rewrite (puts_other _ _ _ _ Hx). destruct r as [st|ex]; simpl.
    + rewrite dget_dput. split; [intros [= <-]; exists q, st; split; [by left|done]|].
      intros (q' & st' & [[= -> ->]|Hin]%elem_of_cons & <-); [done|]. by apply (Hfar x q' st' l ss es (S i)) in Hin.
    + rewrite Ho by (by left). split; [done|]. intros (q' & st' & [?|Hin]%elem_of_cons & <-); [done|]. by apply (Hfar x q' st' l ss es (S i)) in Hin.
  - rewrite (IH _ _ _ _ Ho' M Hn). split; intros (q' & st' & Hin & E); exists q', st'; (split; [|done]); [by right|].
    apply elem_of_cons in Hin as [[= <- _ _]|Hin]; [done|exact Hin].
Qed.

Lemma all_on_record l ss o n : Forall admitted ss -> length ss = length l -> n ∈ l -> is_some (dget n (puts put_exec l ss o)) = true.
Proof.
  assert (forall l ss o, is_some (dget n o) = true -> is_some (dget n (puts put_exec l ss o)) = true) as Hk.
  { clear. induction l as [|x l IH]; intros [|r ss] o Hn; simpl; [done..|]. apply IH. destruct r as [st|ex]; [|done]. simpl.
    destruct (decide (n = x)) as [->|Hx]; [by rewrite dget_dput|by rewrite dget_dput_ne]. }
  revert ss o. induction l as [|x l IH]; intros [|r ss] o F L Hn; simpl in *; try done; [by apply elem_of_nil in Hn|].
  apply Forall_cons in F as [(st & -> & _) F]. apply elem_of_cons in Hn as [->|Hn]; [apply Hk; simpl; by rewrite dget_dput|].
  apply IH; [done|lia|done].
Qed.

Lemma release_spoke gid budget execs l i w res w' : obj w = execs -> (forall n, n ∈ l -> is_some (dget n execs) = true) ->
  loop (release_one gid budget) i l w = (res, w') -> exists rel rs es,
    res = Ok rel /\ spoke w w' es /\ marked (release_mark gid budget execs) i l rs es /\ obj w' = execs /\
    Forall3 (fun x a r => a.1 = (x, r)) l rel rs /\ asked w' = (asked w + 3 * length l)%nat.
Proof.
  revert i w res w'. induction l as [|x l IH]; intros i w res w' Ho Hd H; simpl in H.
  { injection H as <- <-. exists [], [], []. split_and!; [done|by apply spoke_nil|done|done|constructor|simpl; lia]. }
  assert (is_some (dget x execs) = true) as Hx by (apply Hd; by left).
  destruct (dget x execs) as [eid|] eqn:Ex; [|done].
  assert (exists a r w1, release_one gid budget i x w = (Ok a, w1) /\ a.1 = (x, r) /\ spoke w w1 [GroupRelease x eid gid budget r] /\
    obj w1 = execs /\ asked w1 = (asked w + 3)%nat) as (a & r & w1 & E1 & Ea & S1 & O1 & K1).
  { unfold release_one, bind, time, get, ask, ret, noted, say. cbn -[dget]. rewrite Ho, Ex. simpl. eexists _, _, _.
    split_and!; [reflexivity|reflexivity|reflexivity|reflexivity|simpl; lia]. }
  unfold bind in H. rewrite E1 in H. destruct (loop (release_one gid budget) (S i) l w1) as [rb w2] eqn:E2.
  destruct (IH (S i) w1 rb w2 O1 (fun n Hn => Hd n (proj2 (elem_of_cons _ _ _) (or_intror Hn))) E2) as (rel & rs & es & -> & S2 & M2 & O2 & F2 & K2).
  injection H as <- <-. eexists (a :: rel), (r :: rs), (_ :: es).
  split_and!; [done|exact (spoke_trans _ _ _ [_] _ S1 S2)|split; [by exists eid|done]|done|by constructor|simpl; lia].
Qed.

(** ** The cancel *)

(** The calls of a cancel: the group's on every member, then the execution's on
    each member that has one on record. *)
Inductive cancelled (gid : Z) (execs : executions) : list string -> list effect -> Prop :=
  | cancelled_nil : cancelled gid execs [] []
  | cancelled_group n ns r l : dget n execs = None -> cancelled gid execs ns l ->
      cancelled gid execs (n :: ns) (GroupCancel n gid r :: l)
  | cancelled_both n ns eid r r' l : dget n execs = Some eid -> cancelled gid execs ns l ->
      cancelled gid execs (n :: ns) (GroupCancel n gid r :: CancelExecution n eid "group cancelled" r' :: l).

Lemma cancel_spoke g gid w : exists errs w' l, cancel g gid w = (Ok errs, w') /\ spoke w w' l /\
  obj w' = obj w /\ cancelled gid (obj w) (members_of g) l.
Proof.
  unfold cancel. assert (forall ns i w, exists a w' l, loop (cancel_one gid) i ns w = (Ok a, w') /\ spoke w w' l /\
    obj w' = obj w /\ cancelled gid (obj w) ns l) as K.
  { intros ns. induction ns as [|n ns IH]; intros i w0; [exists [], w0, []; split_and!; [done|by apply spoke_nil|done|constructor]|].
    assert (exists a w1 l, cancel_one gid i n w0 = (Ok a, w1) /\ spoke w0 w1 l /\ obj w1 = obj w0 /\
      forall l', cancelled gid (obj w0) ns l' -> cancelled gid (obj w0) (n :: ns) (l ++ l')) as (a & w1 & l & E1 & S1 & O1 & C1).
    { unfold cancel_one, bind, noted, ask, say, ret, get. simpl. destruct (dget n (obj w0)) as [eid|] eqn:En.
      - eexists _, _, [_; _]. split_and!; [reflexivity|unfold spoke; simpl; reflexivity|done|]. intros l' Hl. by apply cancelled_both.
      - eexists _, _, [_]. split_and!; [reflexivity|unfold spoke; simpl; reflexivity|done|]. intros l' Hl. by apply cancelled_group. }
    destruct (IH (S i) w1) as (b & w2 & l' & E2 & S2 & O2 & C2). exists (a :: b), w2, (l ++ l'). simpl. unfold bind. rewrite E1, E2.
    split_and!; [done|by eapply spoke_trans|by rewrite O2|]. apply C1. by rewrite <-O1. }
  destruct (K (members_of g) 0%nat w) as (a & w' & l & E & S1 & O1 & C1). unfold bind. rewrite E. by exists (omap (fun x => x) a), w', l.
Qed.
Lemma cancelled_reaches gid execs ns l n : cancelled gid execs ns l -> n ∈ ns ->
  (exists r, GroupCancel n gid r ∈ l) /\ forall eid, dget n execs = Some eid -> exists r, CancelExecution n eid "group cancelled" r ∈ l.
Proof.
  intros C Hn. induction C as [|m ns r l Hm C IH|m ns eid r r' l Hm C IH]; [by apply elem_of_nil in Hn|..].
  - apply elem_of_cons in Hn as [->|Hn]; [split; [eexists; by left|intros eid Hd; congruence]|].
    destruct (IH Hn) as [[r1 H1] H2]. split; [exists r1; by right|]. intros eid Hd. destruct (H2 eid Hd) as [r2 H3]. exists r2. by right.
  - apply elem_of_cons in Hn as [->|Hn].
    { split; [eexists; by left|]. intros eid' Hd. assert (eid' = eid) as -> by congruence. eexists. right. by left. }
    destruct (IH Hn) as [[r1 H1] H2]. split; [exists r1; right; by right|]. intros eid' Hd. destruct (H2 eid' Hd) as [r2 H3].
    exists r2. right. by right.
Qed.

(** ** The wait *)

(** What a kept reply is: the member's own answer, for this group; or no stamp. *)
Definition sound (gid : Z) (execs : executions) (ps : list effect) (x : string * mapping) : Prop :=
  (exists eid, dget x.1 execs = Some eid /\ Asked x.1 eid (Ok x.2) ∈ ps /\ ours gid x.2 = true) \/ has_key "selected_ns" x.2 = false.
Lemma sound_app gid execs ps qs x : sound gid execs ps x \/ sound gid execs qs x -> sound gid execs (ps ++ qs) x.
Proof. intros [[(eid & H1 & H2 & H3)|H]|[(eid & H1 & H2 & H3)|H]]; try (by right); left; exists eid; (split; [done|]); (split; [|done]); apply elem_of_app; auto. Qed.
(** A step of the wait: its questions, and the replies it adds. *)
Definition waits (gid : Z) (r : replies) (w w' : GW) (res : option replies) : Prop :=
  exists ps, spoke w w' ps /\ obj w' = obj w /\ Forall (polling (obj w)) ps /\
    forall r', res = Some r' -> forall x, x ∈ r' -> x ∈ r \/ sound gid (obj w) ps x.
Definition value {A} (r : result A) : option A := match r with Ok a => Some a | Err _ => None end.
Lemma waits_trans gid r r1 w w1 w2 res : waits gid r w w1 (Some r1) -> waits gid r1 w1 w2 res -> waits gid r w w2 res.
Proof.
  intros (p1 & S1 & O1 & F1 & H1) (p2 & S2 & O2 & F2 & H2). exists (p1 ++ p2). split_and!; [by eapply spoke_trans|congruence| |].
  - apply Forall_app. split; [done|by rewrite <-O1].
  - intros r' E x Hx. destruct (H2 r' E x Hx) as [Hin|Hs].
    + destruct (H1 r1 eq_refl x Hin) as [?|Hs]; [by left|]. right. apply sound_app. by left.
    + right. apply sound_app. right. by rewrite <-O1.
Qed.
Lemma waits_refl gid r w w' res : out w' = out w -> obj w' = obj w -> (res = None \/ res = Some r) -> waits gid r w w' res.
Proof. intros Ho Hb Hr. exists []. split_and!; [by apply spoke_nil|done|done|]. intros r' -> x Hx. destruct Hr as [?|[= ->]]; [done|by left]. Qed.

Lemma poll_one_waits gid r n w res w' : poll_one gid r n w = (res, w') -> waits gid r w w' (value res).
Proof.
  unfold poll_one. intros H. destruct (dget n r) eqn:En; cbn [is_some] in H; [injection H as <- <-; apply waits_refl; auto|].
  unfold bind at 1, get at 1 in H. destruct (dget n (obj w)) as [eid|] eqn:Ed; cbn [some_or] in H;
    [unfold bind at 1, ret at 1 in H|injection H as <- <-; apply waits_refl; auto].
  unfold bind at 1 in H. destruct (calling_spoke m_report (Asked n eid) w) as (w1 & E1 & S1 & O1 & _). rewrite E1 in H.
  destruct (m_report (asked w)) as [kv|ex] eqn:Er; [|injection H as <- <-; exists [Asked n eid (Err ex)]; split_and!; [done..|by constructor|done]].
  destruct kv as [|f kv].
  - unfold bind at 1 in H. destruct (calling_spoke m_status (Status n eid) w1) as (w2 & E2 & S2 & O2 & _). rewrite E2 in H.
    pose proof (spoke_trans _ _ _ [_] [_] S1 S2) as S12.
    destruct (m_status (asked w1)) as [st|ex]; injection H as <- <-; (eexists; split_and!; [exact S12|congruence|by repeat constructor|]); [|done].
    intros r' [= <-] x Hx. destruct (status_terminal st); [|by left]. apply dput_in in Hx as [Hx| ->]; [by left|]. right. by right.
  - exists [Asked n eid (Ok (f :: kv))]. destruct (ours gid (f :: kv)) eqn:Eo; cbn [negb] in H; injection H as <- <-; (split_and!; [done..|by constructor|]);
      intros r' [= <-] x Hx; [|by left]. apply dput_in in Hx as [Hx| ->]; [by left|]. right. left. exists eid. split_and!; [done|by left|done].
Qed.
Lemma poll_round_waits gid names r w res w' : poll_round gid r names w = (res, w') -> waits gid r w w' (value res).
Proof.
  revert r w. induction names as [|n names IH]; intros r w H; simpl in H; [injection H as <- <-; apply waits_refl; auto|].
  unfold bind in H. destruct (poll_one gid r n w) as [[r1|e] w1] eqn:E1; pose proof (poll_one_waits _ _ _ _ _ _ E1) as W1.
  - eapply waits_trans; [exact W1|by apply IH].
  - by injection H as <- <-.
Qed.
Definition polled (res : result (option replies)) : option replies := match res with Ok o => o | Err _ => None end.
Lemma poll_waits fuel names gid deadline r w res w' : poll fuel names gid deadline r w = (res, w') -> waits gid r w w' (polled res).
Proof.
  revert r w. induction fuel as [|fuel IH]; intros r w H; simpl in H; [injection H as <- <-; apply waits_refl; auto|].
  destruct (negb _); [injection H as <- <-; apply waits_refl; auto|]. unfold time, bind, ask, ret in H. simpl in H.
  destruct (negb _); [injection H as <- <-; apply waits_refl; auto|].
  destruct (poll_round gid r names _) as [[r1|e] w1] eqn:E1; pose proof (poll_round_waits _ _ _ _ _ _ E1) as W1.
  - eapply waits_trans; [exact W1|by apply IH].
  - by injection H as <- <-.
Qed.

(** ** The record *)

Lemma complaints_none names r : complaints names r = Ok [] ->
  (forall x, x ∈ r -> has_key "selected_ns" x.2 = true) /\ forall n, n ∈ names -> is_some (dget n r) = true.
Proof.
  unfold complaints. intros H. apply rbind_ok in H as (bad & H & E). injection E as E.
  apply app_eq_nil in E as [Eb En]. split.
  - clear En. revert bad H Eb. induction r as [|y r IH]; intros bad H Eb x Hx; [by apply elem_of_nil in Hx|].
    simpl in H. apply rbind_ok in H as (c & Ec & H). apply rbind_ok in H as (bad' & H & E). injection E as <-.
    unfold complaint in Ec. apply elem_of_cons in Hx as [->|Hx].
    + destruct (has_key "selected_ns" y.2); [done|]. apply rbind_ok in Ec as (s & _ & E). by injection E as <-.
    + apply (IH bad' H); [|done]. destruct c; [done|exact Eb].
  - intros n Hn. destruct (is_some (dget n r)) eqn:Ed; [done|]. exfalso.
    assert (n ∈ List.filter (fun n => negb (is_some (dget n r))) names) as Hf.
    { apply list_elem_of_In, filter_In. split; [by apply list_elem_of_In|by rewrite Ed]. }
    destruct (List.filter _ names); [by apply elem_of_nil in Hf|done].
Qed.

(** What a record says of a member, and the reply it says it from. *)
Definition stamped_by (kv : mapping) (m : MemberStart) : Prop :=
  exists sel dl, jget "selected_ns" kv = Some sel /\ positive sel = Ok true /\ to_int sel = Ok (rt_selected_ns m) /\
    jget "deadline_ns" kv = Some dl /\ positive dl = Ok true /\ to_int dl = Ok (rt_deadline_ns m).
Lemma field_jget k kv v : field k (JObj kv) = Ok v -> jget k kv = Some v.
Proof. unfold field. by destruct (jget k kv) as [v'|]; [intros [= ->]|]. Qed.
Lemma member_start_sound n kv st m : member_start n kv st = Ok m -> member m = n /\ stamped_by kv m.
Proof.
  unfold member_start. intros H. apply rbind_ok in H as (sel & E1 & H). apply rbind_ok in H as (p & E2 & H).
  apply rbind_ok in H as (q & E3 & H). pass_guard H Hg. apply rbind_ok in H as (rid & _ & H). apply rbind_ok in H as (s & E4 & H).
  apply rbind_ok in H as (d & E5 & H). injection H as <-. apply rbind_ok in E5 as (v & E5 & E6). apply negb_false_iff in Hg. subst q.
  destruct p; [|done]. apply rbind_ok in E3 as (dl & E3 & Ep). assert (dl = v) as -> by congruence.
  split; [done|]. exists sel, v. split_and!; try done; by apply field_jget.
Qed.
Lemma member_starts_sound r rel ms : starts r rel = Ok ms -> map member ms = map (fun x => x.1.1) rel /\
  Forall (fun m => exists kv, dget (member m) r = Some kv /\ stamped_by kv m) ms.
Proof.
  revert ms. induction rel as [|x rel IH]; intros ms H; simpl in H; [by injection H as <-|].
  apply rbind_ok in H as (m & E & H). apply rbind_ok in H as (ms' & E' & H). injection H as <-.
  destruct (IH _ E') as [Hm F]. destruct (dget x.1.1 r) as [kv|] eqn:Ed; [|done].
  destruct (member_start_sound _ _ _ _ E) as [Hn Hs]. simpl. rewrite Hn, Hm. split; [done|]. constructor; [|done]. exists kv. by rewrite Hn.
Qed.

(** ** The start *)

Definition silent (l : list effect) : Prop := forall n q r, Submit n q r ∉ l.
Lemma silent_app l l' : silent l -> silent l' -> silent (l ++ l').
Proof. intros H H' n q r [?|?]%elem_of_app; [by eapply H|by eapply H']. Qed.
Lemma silent_marked {R} (mk : nat -> string -> R -> effect -> Prop) i l rs es :
  (forall i n r e, mk i n r e -> match e with Submit _ _ _ => False | _ => True end) -> marked mk i l rs es -> silent es.
Proof.
  intros Hk. revert i rs es. induction l as [|x l IH]; intros i [|r rs] [|e es] M; simpl in M; try done; try (intros ??? ?%elem_of_nil; done).
  destruct M as [Mk M]. intros n q r' [<-|Hin]%elem_of_cons; [by apply Hk in Mk|by eapply IH].
Qed.
Lemma silent_joins g gid js es : marked (join_mark g gid) 0 (members_of g) js es -> silent es.
Proof. apply silent_marked. by intros ???? ->. Qed.
Lemma silent_releases gid b x l rs es : marked (release_mark gid b x) 0 l rs es -> silent es.
Proof. apply silent_marked. by intros ???? (? & _ & ->). Qed.
Lemma silent_polls x ps : Forall (polling x) ps -> silent ps.
Proof. intros F n q r Hin. by apply (proj1 (Forall_forall _ _) F) in Hin. Qed.
Lemma silent_report l : reports l -> silent l.
Proof. intros [->|[x ->]] n q r Hin; [by apply elem_of_nil in Hin|by apply list_elem_of_singleton in Hin]. Qed.

(** The dict of the start holds exactly the executions the members answered. *)
Definition on_record (g : SdkGroupCoordinator) (execs : executions) (l : list effect) : Prop :=
  forall n eid, n ∈ members_of g -> dget n execs = Some eid <-> exists q st, Submit n q (Ok st) ∈ l /\ Contract.execution_id st = eid.
Lemma on_record_frame g execs a l b : silent a -> silent b -> on_record g execs l -> on_record g execs (a ++ l ++ b).
Proof.
  intros Ha Hb H n eid Hn. rewrite (H n eid Hn). split; intros (q & st & Hin & E); exists q, st; (split; [|done]).
  - apply elem_of_app. right. apply elem_of_app. by left.
  - apply elem_of_app in Hin as [Hin|Hin]; [by apply Ha in Hin|]. apply elem_of_app in Hin as [Hin|Hin]; [done|by apply Hb in Hin].
Qed.
Lemma on_record_none g a : silent a -> on_record g [] a.
Proof. intros Ha n eid Hn. split; [done|]. by intros (q & st & Hin%Ha & _). Qed.

(** A group that started: every stage complete, every release taken. *)
Definition complete (g : SdkGroupCoordinator) (gid : Z) (qs : requests) (execs : executions) (l : list effect) : Prop :=
  exists ej es budget rs er ps, all_joined g gid ej /\ all_admitted g qs es /\
    marked (release_mark gid budget execs) 0 (members_of g) rs er /\ length rs = length (members_of g) /\ Forall answered rs /\
    Forall (polling execs) ps /\ l = ej ++ es ++ er ++ ps.
(** The record's stamps are of each member's own answer, about its own execution
    and this group. *)
Definition recorded (g : SdkGroupCoordinator) (gid : Z) (qs : requests) (execs : executions) (l : list effect) (rec : GroupStartRecord) : Prop :=
  complete g gid qs execs l /\ group_id rec = gid /\ map member (members rec) = members_of g /\
  Forall (fun m => exists eid kv, dget (member m) execs = Some eid /\ Asked (member m) eid (Ok kv) ∈ l /\
                     ours gid kv = true /\ stamped_by kv m) (members rec).

Lemma or_start_inv {A} why (m : GroupM A) w r w' : or_start_error why m w = (r, w') ->
  exists r0, m w = (r0, w') /\ is_ok r0 = is_ok r /\ forall a, r = Ok a -> r0 = Ok a.
Proof.
  unfold or_start_error, catch. destruct (m w) as [[a|e] w1]; [intros [= <- <-]; by eexists|].
  destruct (is_SupervisorError e); intros [= <- <-]; by eexists.
Qed.
Lemma all_taken l rel rs : Forall3 (fun (x : string) (a : released) r => a.1 = (x, r)) l rel rs -> escaped rel = None -> refusals rel = [] ->
  Forall answered rs /\ map (fun x => x.1.1) rel = l /\ length rs = length l.
Proof.
  intros F He Hr. induction F as [|x [[n r] st] r' l rel rs E F IH]; [by repeat split|]. simpl in E. injection E as -> ->.
  unfold escaped, refusals in He, Hr. simpl in He, Hr. destruct r' as [s|e]; [|by destruct (release_caught e)].
  destruct (IH He Hr) as (K1 & K2 & K3). split; [by constructor|]. simpl. by rewrite K2, K3.
Qed.

Lemma conclude_spoke g gid dom rel r w res w' : map (fun x : released => x.1.1) rel = members_of g ->
  conclude g gid dom rel r w = (res, w') ->
  exists tail, spoke w w' tail /\ reports tail /\ obj w' = obj w /\ forall o, res = Ok o -> tail = [] /\ exists rec, o = Some rec /\
    group_id rec = gid /\ map member (members rec) = members_of g /\
    Forall (fun m => exists kv, (member m, kv) ∈ r /\ has_key "selected_ns" kv = true /\ stamped_by kv m) (members rec).
Proof.
  unfold conclude. intros Hn H. unfold bind at 1, lift at 1 in H. destruct (complaints (members_of g) r) as [[|b bad]|e] eqn:Ec.
  - destruct (complaints_none _ _ Ec) as [Hk _]. unfold bind, lift in H. destruct (starts r rel) as [ms|e] eqn:Es; injection H as <- <-;
      exists []; (split_and!; [by apply spoke_nil|by left|done|]); [|done].
    intros o [= <-]. split; [done|]. eexists. split; [done|]. destruct (member_starts_sound _ _ _ Es) as [Hm F]. rewrite Hn in Hm. simpl.
    split_and!; [done|done|]. eapply Forall_impl; [exact F|]. intros m (kv & Hg & Hs). apply dget_in in Hg. exists kv.
    split_and!; [done|by apply (Hk _ Hg)|done].
  - injection H as <- <-. exists [Report (b :: bad)]. split_and!; [done|right; by eexists|done|done].
  - injection H as <- <-. exists []. split_and!; [by apply spoke_nil|by left|done|done].
Qed.

Lemma prepare_spoke g gid qs w res w' : NoDup (members_of g) -> (forall n, n ∈ members_of g -> is_some (dget n qs) = true) -> obj w = [] ->
  prepare g gid qs w = (res, w') -> exists l, spoke w w' l /\ attempted g gid qs (obj w') l /\ on_record g (obj w') l /\
    (is_ok res = true -> (forall n, n ∈ members_of g -> is_some (dget n (obj w')) = true) /\
       exists ej es, l = ej ++ es /\ all_joined g gid ej /\ all_admitted g qs es).
Proof.
  intros Hd Hq H0 H. unfold prepare in H. unfold bind at 1 in H.
  destruct (or_start_error _ (join_all g gid) w) as [rj w1] eqn:Ej. destruct (or_start_inv _ _ _ _ _ Ej) as (rj0 & Ej0 & Hok & Heq).
  destruct (join_spoke _ _ _ _ _ Ej0) as (js & ej & S1 & M1 & O1 & Q1). pose proof (silent_joins _ _ _ _ M1) as Si1.
  assert (exists l, spoke w w1 l /\ attempted g gid qs (obj w1) l /\ on_record g (obj w1) l /\ l = ej) as (l & Sl & Al & Rl & ->).
  { exists ej. split_and!; [done|by eapply at_join|rewrite O1, H0; by apply on_record_none|done]. }
  destruct rj as [joined|e]; [|injection H as <- <-; exists ej; by split_and!].
  destruct (Q1 joined (Heq _ eq_refl)) as [-> L1]. unfold bind at 1, lift at 1 in H.
  destruct (domain_of joined) as [dom|e]; [|injection H as <- <-; exists ej; by split_and!]. unfold bind in H.
  destruct (or_start_error _ (submit_all g qs) w1) as [rs w2] eqn:Es. destruct (or_start_inv _ _ _ _ _ Es) as (rs0 & Es0 & Hoks & _).
  destruct (submit_spoke _ _ _ _ _ Hq Es0) as (ss & es & tail & S2 & M2 & T2 & O2 & Q2). rewrite O1, H0 in O2.
  assert (all_joined g gid ej) as Jd by (exists (map Ok joined); split_and!; [done..|]; clear; induction joined; by constructor).
  assert (w2 = w') as -> by (destruct rs; by injection H). exists (ej ++ es ++ tail).
  split_and!; [by eapply spoke_trans|by eapply at_submit| |].
  - apply on_record_frame; [done|by apply silent_report|]. intros n eid Hn. rewrite O2. by eapply submits_recorded.
  - intros Hr. destruct Q2 as (-> & L2 & F2); [rewrite Hoks; destruct rs; [done|by injection H as <-]|]. split.
    + intros n Hn. rewrite O2. by apply all_on_record.
    + exists ej, es. rewrite app_nil_r. split_and!; [done..|]. by exists ss.
Qed.

Lemma await_spoke fuel g gid dom rel rs w res w' : Forall3 (fun (x : string) (a : released) r => a.1 = (x, r)) (members_of g) rel rs ->
  await_stamps fuel g gid dom rel w = (res, w') -> exists ps tail, spoke w w' (ps ++ tail) /\ obj w' = obj w /\ reports tail /\
    Forall (polling (obj w)) ps /\ (ps <> [] -> Forall answered rs) /\
    forall rec, res = Ok (Some rec) -> tail = [] /\ Forall answered rs /\ group_id rec = gid /\ map member (members rec) = members_of g /\
      Forall (fun m => exists eid kv, dget (member m) (obj w) = Some eid /\ Asked (member m) eid (Ok kv) ∈ ps /\
                         ours gid kv = true /\ stamped_by kv m) (members rec).
Proof.
  intros F H. unfold await_stamps in H.
  destruct (escaped rel) as [e|] eqn:Ee; [injection H as <- <-; exists [], []; split_and!; [by apply spoke_nil|done|by left|done..]|].
  destruct (refusals rel) as [|b bad] eqn:Er.
  2: { injection H as <- <-. exists [], [Report (b :: bad)]. split_and!; [unfold spoke; reflexivity|done|right; by eexists|done..]. }
  destruct (all_taken _ _ _ F Ee Er) as (Fa & Hn & _). unfold bind at 1, time, ask, ret in H. simpl in H. unfold bind at 1 in H.
  set (w1 := {| obj := obj w |}) in H. destruct (poll fuel _ gid _ [] w1) as [rp w2] eqn:Ep.
  destruct (poll_waits _ _ _ _ _ _ _ _ Ep) as (ps & S1 & O1 & P1 & V1). change (obj w1) with (obj w) in *.
  assert (spoke w w2 ps) as S1' by exact S1. clear S1.
  destruct rp as [[r|]|e]; [|injection H as <- <-; exists ps, []; rewrite app_nil_r; split_and!; [done|done|by left|done..]
                           |injection H as <- <-; exists ps, []; rewrite app_nil_r; split_and!; [done|done|by left|done..]].
  destruct (conclude_spoke _ _ _ _ _ _ _ _ Hn H) as (tail & S2 & T2 & O2 & K2). exists ps, tail.
  split_and!; [by eapply spoke_trans|congruence|done..|]. intros rec ->. destruct (K2 _ eq_refl) as (-> & rec' & [= <-] & K3 & K4 & K5).
  split_and!; [done..|]. eapply Forall_impl; [exact K5|]. intros m (kv & Hin & Hk & Hs).
  destruct (V1 r eq_refl _ Hin) as [?%elem_of_nil|[(eid & E1 & E2 & E3)|E]]; [done| |simpl in E; congruence].
  by exists eid, kv.
Qed.

Lemma inner_spoke fuel g gid qs w res w' : NoDup (members_of g) -> (forall n, n ∈ members_of g -> is_some (dget n qs) = true) -> obj w = [] ->
  start_inner fuel g gid qs w = (res, w') -> exists l, spoke w w' l /\ attempted g gid qs (obj w') l /\ on_record g (obj w') l /\
    forall rec, res = Ok (Some rec) -> recorded g gid qs (obj w') l rec.
Proof.
  intros Hd Hq H0 H. unfold start_inner in H. unfold bind at 1 in H. destruct (prepare g gid qs w) as [rp w1] eqn:Ep.
  destruct (prepare_spoke _ _ _ _ _ _ Hd Hq H0 Ep) as (l & S1 & A1 & R1 & K1).
  destruct rp as [dom|e]; [|injection H as <- <-; by exists l]. destruct (K1 eq_refl) as (Hon & ej & es & -> & Jd & Ad).
  unfold bind at 1, lift at 1 in H. destruct (py_int _) as [budget|e]; [|injection H as <- <-; by exists (ej ++ es)].
  unfold bind in H. destruct (loop _ 0 _ w1) as [rr w2] eqn:El.
  destruct (release_spoke _ _ _ _ _ _ _ _ eq_refl Hon El) as (rel & rs & er & -> & S2 & M2 & O2 & F2 & _).
  destruct (await_spoke _ _ _ _ _ _ _ _ _ F2 H) as (ps & tail & S3 & O3 & T3 & P3 & N3 & K3). rewrite O2 in *. rewrite O3.
  pose proof (Forall3_length_lr _ _ _ _ F2) as L2.
  assert (spoke w w' ((ej ++ es) ++ er ++ ps ++ tail)) as Sp by (do 2 (eapply spoke_trans; [eassumption|]); done).
  assert (on_record g (obj w1) ((ej ++ es) ++ er ++ ps ++ tail)) as Rd.
  { apply (on_record_frame _ _ []); [by intros ??? ?%elem_of_nil| |exact R1].
    repeat apply silent_app; [by eapply silent_releases|by eapply silent_polls|by apply silent_report]. }
  exists ((ej ++ es) ++ er ++ ps ++ tail). rewrite <-app_assoc in *. split_and!; [done|by eapply at_release|done|].
  intros rec Hr. destruct (K3 rec Hr) as (-> & Fa & G1 & G2 & G3). split_and!; [|done..|].
  - exists ej, es, budget, rs, er, ps. rewrite app_nil_r. by split_and!.
  - eapply Forall_impl; [exact G3|]. intros m (eid & kv & E1 & E2 & E3 & E4). exists eid, kv. split_and!; try done.
    rewrite !elem_of_app. auto.
Qed.
Lemma validate_requests g qs : is_ok (validate g qs) = true -> forall n, n ∈ members_of g -> is_some (dget n qs) = true.
Proof.
  unfold validate. intros H n Hn. destruct (bool_decide _) eqn:Eb; [|done]. apply bool_decide_eq_true in Eb.
  assert (n ∈ (list_to_set (map fst qs) : gset string)) as Hs by (rewrite Eb; by apply elem_of_list_to_set).
  apply elem_of_list_to_set, list_elem_of_fmap in Hs as ([n' q] & -> & Hin). simpl. clear -Hin.
  induction qs as [|[m q'] qs IH]; [by apply elem_of_nil in Hin|]. unfold dget. simpl. case_bool_decide as E; [done|].
  apply elem_of_cons in Hin as [[= -> ->]|Hin]; [done|by apply IH].
Qed.

(** C12: a supervised group starts wholly or is cancelled wholly.  A start whose
    requests pass the local checks joins every member before it submits to any, has
    every request admitted before it releases any, and waits for stamps only when
    every release was taken.  If it returns a record, every stage was complete and
    each member's stamps are positive numbers of an answer that member gave about
    its own execution and for this group.  If it raises, for whatever reason, every
    member is then sent a group cancel, and every execution any member ever
    answered to this start is cancelled too.  A start that fails the checks sends
    nothing. *)
Theorem supervised_start_all_or_cancel fuel g gid qs w res w' : NoDup (members_of g) -> start fuel g gid qs w = (res, w') ->
  if is_ok (validate g qs) then exists l, attempted g gid qs (obj w') l /\
    match res with
    | Ok (Some rec) => spoke w w' l /\ recorded g gid qs (obj w') l rec
    | Ok None => spoke w w' l
    | Err _ => exists c errors, spoke w w' (l ++ c ++ [CancelErrors errors]) /\
        (forall n, n ∈ members_of g -> exists r, GroupCancel n gid r ∈ c) /\
        (forall n q st, n ∈ members_of g -> Submit n q (Ok st) ∈ l -> exists r, CancelExecution n (Contract.execution_id st) "group cancelled" r ∈ c)
    end
  else is_ok res = false /\ w' = w.
Proof.
  intros Hd H. unfold start in H. unfold bind at 1, lift at 1 in H.
  destruct (validate g qs) as [[]|e] eqn:Ev; simpl; [|by injection H as <- <-].
  assert (is_ok (validate g qs) = true) as Hok by (by rewrite Ev). pose proof (validate_requests _ _ Hok) as Hq.
  unfold bind at 1, upd in H. set (w0 := w <| obj := [] |>) in H. unfold catch in H.
  destruct (start_inner fuel g gid qs w0) as [r1 w1] eqn:E1.
  destruct (inner_spoke _ _ _ _ w0 _ _ Hd Hq eq_refl E1) as (l & S1 & A1 & R1 & K1). change (spoke w w1 l) in S1.
  destruct r1 as [[rec|]|e]; [injection H as <- <-; exists l; split_and!; auto..|]. destruct (cancel_spoke g gid w1) as (errs & w2 & c & E2 & S2 & O2 & C2).
  unfold bind in H. rewrite E2 in H. injection H as <- <-. simpl. rewrite O2. exists l. split; [done|]. exists c, errs.
  split_and!; [eapply spoke_trans; [exact S1|]; eapply spoke_trans; [exact S2|]; unfold spoke; reflexivity| |].
  - intros n Hn. apply (cancelled_reaches _ _ _ _ _ C2 Hn).
  - intros n q st Hn Hin. apply (cancelled_reaches _ _ _ _ _ C2 Hn). apply (R1 n _ Hn). by exists q, st.
Qed.

(** ** The start returns *)

(** The questions a returning call has asked. *)
Definition counts {A} (n : nat) (m : GroupM A) : Prop := forall w a w', m w = (Ok a, w') -> asked w' = (asked w + n)%nat.
Lemma counts_bind {A B} n k (m : GroupM A) (f : A -> GroupM B) : counts n m -> (forall a, counts k (f a)) -> counts (n + k) (bind m f).
Proof. intros Hm Hf w b w' H. apply bind_ok in H as (a & w1 & E1 & E2). rewrite (Hf _ _ _ _ E2), (Hm _ _ _ E1). lia. Qed.
Lemma counts_ret {A} (a : A) : counts 0 (ret a).
Proof. intros w b w' [= <- <-]. lia. Qed.
Lemma counts_lift {A} (r : result A) : counts 0 (lift r).
Proof. intros w b w' H. injection H as _ <-. lia. Qed.
Lemma counts_some {A} (o : option A) e : counts 0 (some_or o e).
Proof. destruct o; [apply counts_ret|done]. Qed.
Lemma counts_calling {A} (f : nat -> result A) o : counts 1 (calling f o).
Proof. intros w a w' H. destruct (calling_spoke f o w) as (w1 & E & _ & _ & K). rewrite E in H. injection H as _ <-. rewrite K. lia. Qed.
Lemma counts_loop {A B} c (f : nat -> B -> GroupM A) i l : (forall i x, counts c (f i x)) -> counts (length l * c) (loop f i l).
Proof.
  intros Hf. revert i. induction l as [|x l IH]; intros i; simpl; [apply counts_ret|]. apply counts_bind; [done|]. intros a.
  rewrite <-(Nat.add_0_r (length l * c)). apply counts_bind; [done|]. intros b. apply counts_ret.
Qed.
Lemma counts_start_error {A} n why (m : GroupM A) : counts n m -> counts n (or_start_error why m).
Proof. intros Hm w a w' H. destruct (or_start_inv _ _ _ _ _ H) as (r0 & E & _ & Hr). eapply Hm. by rewrite E, (Hr a eq_refl). Qed.
Lemma counts_submit qs i n : counts 1 (submit_one qs i n).
Proof.
  unfold submit_one. apply (counts_bind 0 1); [apply counts_some|]. intros q. apply (counts_bind 1 0); [apply counts_calling|]. intros st.
  apply (counts_bind 0 0); [intros w a w' [= _ <-]; simpl; lia|]. intros _. case_bool_decide; [apply counts_ret|done].
Qed.
Lemma counts_prepare g gid qs : counts (2 * length (members_of g)) (prepare g gid qs).
Proof.
  unfold prepare. replace (2 * _)%nat with (length (members_of g) * 1 + (0 + (length (members_of g) * 1 + 0)))%nat by lia.
  apply counts_bind; [apply counts_start_error, counts_loop; intros; apply counts_calling|]. intros joined.
  apply counts_bind; [apply counts_lift|]. intros dom. apply counts_bind; [apply counts_start_error, counts_loop, counts_submit|]. intros. apply counts_ret.
Qed.

(** Questions are only ever added. *)
Definition later (_ : bool) (w w' : GW) : Prop := (asked w <= asked w')%nat.
#[local] Instance later_flow : Flow later.
Proof. split; unfold later; intros; lia. Qed.
Lemma later_calling {A} (f : nat -> result A) o : steps later (calling f o).
Proof. intros w. destruct (calling_spoke f o w) as (w1 & E & _ & _ & K). rewrite E. unfold later. simpl. lia. Qed.
#[local] Hint Resolve later_calling : steps.
Lemma later_poll_one gid r n : steps later (poll_one gid r n).
Proof. unfold poll_one. steps. Qed.
#[local] Hint Resolve later_poll_one : steps.
Lemma later_round gid r names : steps later (poll_round gid r names).
Proof. revert r. induction names as [|n names IH]; intros r; simpl; steps. Qed.

Lemma release_count gid b i l w rel w' : loop (release_one gid b) i l w = (Ok rel, w') -> escaped rel = None -> asked w' = (asked w + 3 * length l)%nat.
Proof.
  revert i w rel. induction l as [|x l IH]; intros i w rel H He; simpl in H; [injection H as _ <-; simpl; lia|].
  apply bind_ok in H as (a & w1 & Ea & H). apply bind_ok in H as (rel' & w2 & El & H). injection H as <- <-.
  assert (escaped rel' = None /\ asked w1 = (asked w + 3)%nat) as [He' K].
  { unfold release_one, bind, time, get, ask, ret, noted, say in Ea. cbn -[dget] in Ea.
    destruct (dget x (obj w)); injection Ea as <- <-; [|done]. split; [|simpl; lia].
    unfold escaped in *. simpl in He. destruct (m_release _) as [st|e]; simpl in He; [done|]. by destruct (release_caught e). }
  rewrite (IH _ _ _ El He'), K. simpl. lia.
Qed.
Lemma poll_returns K fuel names gid deadline r w : (forall k, (K <= k)%nat -> (m_clock k <f deadline) = false) ->
  (0 < fuel)%nat -> (K < asked w + fuel)%nat -> (poll fuel names gid deadline r w).1 <> Ok None.
Proof.
  intros Hk. revert r w. induction fuel as [|fuel IH]; intros r w H0 Hf; [lia|]. simpl. destruct (negb _); [done|].
  unfold time, bind, ask, ret. simpl. destruct (m_clock (asked w) <f deadline) eqn:Ec; simpl; [|done].
  assert (~ (K <= asked w)%nat) as Hw by (intros Hle; by rewrite (Hk _ Hle) in Ec).
  set (w1 := {| obj := obj w |}). pose proof (later_round gid r names w1) as Hl. unfold later in Hl. simpl in Hl.
  destruct (poll_round gid r names w1) as [[r1|e] w2] eqn:E1; [|done]. simpl in Hl. apply IH; lia.
Qed.

(** C13: a start returns.  Once the members have been released, the wait ends by
    the deadline it set (its first reading, the budget and two seconds): if the clock
    is at that deadline from its [K]th reading on, then with more fuel than [K] the
    start has an outcome, a record or an exception, whatever the members answer. *)
Theorem supervised_start_returns K fuel g gid qs w :
  (forall k, (K <= k)%nat -> (m_clock k <f ((m_clock (asked w + 5 * length (members_of g)) +f g_budget_s g) +f f2)) = false) ->
  (K < fuel)%nat -> (start fuel g gid qs w).1 <> Ok None.
Proof.
  intros Hk Hf H. unfold start in H. unfold bind at 1, lift at 1 in H. destruct (validate g qs) as [[]|e]; [|done].
  unfold bind at 1, upd in H. set (w0 := w <| obj := [] |>) in H. unfold catch in H.
  destruct (start_inner fuel g gid qs w0) as [r1 w1] eqn:E1.
  destruct r1 as [r1|e]; [|destruct (cancel_spoke g gid w1) as (errs & w2 & c & E2 & _); unfold bind in H; by rewrite E2 in H].
  simpl in H. injection H as ->. unfold start_inner in E1. apply bind_ok in E1 as (dom & w2 & Ep & E1).
  pose proof (counts_prepare _ _ _ _ _ _ Ep) as K2. apply bind_ok in E1 as (b & w3 & Eb & E1).
  pose proof (counts_lift _ _ _ _ Eb) as K3. apply bind_ok in E1 as (rel & w4 & El & E1).
  unfold await_stamps in E1. destruct (escaped rel) as [e|] eqn:Ee; [done|]. pose proof (release_count _ _ _ _ _ _ _ El Ee) as K4.
  destruct (refusals rel); [|done]. unfold bind at 1, time, ask, ret in E1. simpl in E1. apply bind_ok in E1 as (o & w5 & Epl & E1).
  assert (asked w4 = asked w + 5 * length (members_of g))%nat as K5 by (change (asked w0) with (asked w) in K2; lia).
  rewrite K5 in Epl. destruct o as [r|]; [|by eapply poll_returns; [exact Hk| | |exact (f_equal fst Epl)]; simpl; lia].
  unfold conclude in E1. apply bind_ok in E1 as (bad & w6 & _ & E1). destruct bad; [|done]. by apply bind_ok in E1 as (ms & w7 & _ & E1).
Qed.
End Facts.

(** ** Two arms: a start, and a start one of them refuses *)

Module GroupDemo.
Definition arm (name : string) : string * client := (name,
  {| cl_identity := {| Contract.instance_id := name; Contract.joint_names := ["j1"%string]; backend := "rt"; model_id := "" |};
     cl_capabilities := {| Contract.contract_version := 1; profiles := []; protocol_version := None; cap_pose_hold := false; cap_observer := false; rt_setup := "" |};
     cl_session := JNull; cl_extensions := [("group"%string, JInt 1)] |}).
Definition pair : SdkGroupCoordinator := {| arms := [arm "left"; arm "right"]; g_budget_s := GROUP_BUDGET_S; g_horizon_s := GROUP_HORIZON_S |}.
Definition plan (name : string) : string * TrajectoryRequest := (name, {|
  Contract.request_id := "r"; req_instance_id := name; req_joint_names := ["j1"%string];
  Contract.trajectory := {| times := [f0; f1]; positions := [[f0]; [f1]]; velocities := None |};
  profile := "joint_impedance"; gains := None; Contract.model_token := None; Contract.start := ON_RELEASE; admit_by := None;
  completion := None; supersedes := None; cartesian := None |}).
Definition plans : requests := [plan "left"; plan "right"].
Definition taken (eid : string) (ph : Phase) : ExecutionStatus := {|
  Contract.execution_id := eid; es_request_id := "r"; es_instance_id := ""; phase := ph; reached := ∅; reason := "" |}.
(** The right arm's release is answered by [o]. *)
Definition answers (o : result ExecutionStatus) : Members := {|
  m_join := fun _ => Ok [("clock_domain"%string, JStr "host:boot:mono")];
  m_submit := fun k => Ok (taken (if (k =? 2)%nat then "el" else "er") ADMITTED);
  m_release := fun k => if (k =? 5)%nat then Ok (taken "el" ADMITTED) else o;
  m_report := fun k => if (k <? 13)%nat then Ok [] else
    Ok [("group_id", JInt 7); ("selected_ns", JInt (100 + Z.of_nat k)); ("deadline_ns", JInt 400); ("reference_id", JInt 3)]%string;
  m_status := fun _ => Ok (taken "el" ADMITTED);
  m_group_cancel := fun _ => Ok tt; m_cancel := fun _ => Ok tt;
  m_clock := fun k => of_Z (Z.of_nat (Nat.min k 40)) /f of_Z 10;
|}.
Definition idle : world executions effect := {| obj := []; out := []; asked := 0 |}.
Abbreviation run o := (start (env:=answers o) 40 pair 7 plans idle).
Definition begun : result ExecutionStatus := Ok (taken "er" ADMITTED).
Definition late : result ExecutionStatus := Err (Refused "REF_LATE").

Example begun_record : match (run begun).1 with Ok (Some rec) => map (fun m => (member m, rt_selected_ns m)) (members rec) | _ => [] end
  = [("left", 116); ("right", 114)]%string.
Proof. vm_compute. reflexivity. Qed.
Example late_cancels : omap (fun x => match x with CancelExecution n e _ _ => Some (n, e) | _ => None end) (rev (map snd (out (run late).2)))
  = [("left", "el"); ("right", "er")]%string.
Proof. vm_compute. reflexivity. Qed.
Lemma pair_nodup : NoDup (members_of pair).
Proof. refine (bool_decide_unpack (NoDup (members_of pair)) _). vm_compute. exact I. Qed.
Lemma begun_returns : match (run begun).1 with Ok (Some _) => true | _ => false end = true.
Proof. vm_compute. reflexivity. Qed.
Lemma late_raises : is_ok (run late).1 = false.
Proof. vm_compute. reflexivity. Qed.
(** The deadline, set at the tenth reading, is past from the thirty-second on. *)
Lemma clock_passes : forall k, (32 <= k)%nat -> (m_clock (Members:=answers begun) k <f ((m_clock (Members:=answers begun) 10 +f GROUP_BUDGET_S) +f f2)) = false.
Proof.
  intros k Hk. set (past := fun m => negb (of_Z (Z.of_nat m) /f of_Z 10 <f ((of_Z (Z.of_nat (Nat.min 10 40)) /f of_Z 10 +f GROUP_BUDGET_S) +f f2))).
  assert (forallb past (seq 32 9) = true) as H by (vm_compute; reflexivity). rewrite forallb_forall in H.
  apply negb_true_iff, (H (Nat.min k 40)), in_seq. lia.
Qed.
End GroupDemo.
Import GroupDemo.

Example supervised_start_all_or_cancel_witness : exists l w' c errors, start (env:=answers late) 40 pair 7 plans idle = (Err (RtLinkError "group could not be released"), w') /\
  spoke idle w' (l ++ c ++ [CancelErrors errors]) /\ exists r, GroupCancel "left" 7 r ∈ c.
Proof.
  destruct (run late) as [res w'] eqn:E. pose proof (supervised_start_all_or_cancel (env:=answers late) 40 pair 7 plans idle res w' pair_nodup E) as H.
  assert (res = Err (RtLinkError "group could not be released")) as -> by (change res with (res, w').1; rewrite <-E; vm_compute; reflexivity).
  replace (is_ok (validate pair plans)) with true in H by (vm_compute; reflexivity). destruct H as (l & _ & c & errors & Sp & Hc & _).
  exists l, w', c, errors. split_and!; [done|done|]. apply Hc. by left.
Defined.
Example supervised_start_returns_witness : (start (env:=answers begun) 40 pair 7 plans idle).1 <> Ok None.
Proof. apply (supervised_start_returns (env:=answers begun) 32); [exact clock_passes|lia]. Defined.
