(* ===== verification/Feedback.v ===== *)
(** Joint estimates of a pair at one common RT stamp ([multi_arm/feedback.py],
    [multi_arm/supervised_feedback.py]), and what the shared mode of
    [multi_arm/supervised_hardware.py] makes of them: the alignment of a step, the
    settled hold that may wait a moment for the next packets.

    A [FeedbackGap], the one refusal a hold may wait out, is a value ([inr]); the
    other refusals are exceptions.  A packet's joints are converted where the
    source converts them, when they are looked at. *)
From Stdlib Require Import Ascii SpecFloat PrimFloat FloatOps.
From S2P Require Import Prelude Floats Effects Json Observation.
Open Scope Z_scope.

(** ** Packets and links *)

Record packet := {
  t_mono_ns : Z; state_seq : Z; session_id : Z; arm_epoch : Z; stop_epoch : Z; armed : bool; faulted : bool;
  width : nat;                                       (* [n] *)
  q_of : result (list nat * vec); dq_of : result (list nat * vec);
}.
(** A packet and when it was received, on the caller's clock; oldest first. *)
Abbreviation history := (list (packet * float)).
Record link := { clock_domain : option string; host : string; session_text : string; epoch_now : Z }.

Definition hex_digit_value (c : ascii) : option Z :=
  let n := Z.of_N (N_of_ascii c) in
  if (48 <=? n) && (n <=? 57) then Some (n - 48)
  else if (97 <=? n) && (n <=? 102) then Some (n - 87)
  else if (65 <=? n) && (n <=? 70) then Some (n - 55) else None.
Fixpoint hex_acc (s : string) (acc : Z) : option Z :=
  match s with EmptyString => Some acc | String c s => d ← hex_digit_value c; hex_acc s (acc * 16 + d) end.
(** [int(s, 16)] of bare digits; a sign, a prefix or an underscore is refused here though Python reads it. *)
Definition int_16 (s : string) : result Z :=
  match s, hex_acc s 0 with
  | String _ _, Some n => Ok n
  | _, _ => Err (ValueError "invalid literal for int() with base 16")
  end.

(** [n * 1e-9], and [a / b] of two ints, rounded once. *)
Definition e_9 : float := Eval vm_compute in Prim2SF 1e-9%float.
Definition seconds (n : Z) : result float := x <-- int_to_float n ;; Ok (x *f e_9).
Definition exact (n : Z) : float :=
  match n with Z0 => f0 | Zpos p => S754_finite false p 0 | Zneg p => S754_finite true p 0 end.
Definition true_div (a b : Z) : float := exact a /f exact b.

(** ** [align_feedback] *)

Inductive gap := SkewGap | BracketGap (arm : string).
Definition gapped (A : Type) : Type := result (A + gap).
Definition gbind {A B} (m : gapped A) (k : A -> gapped B) : gapped B :=
  match m with Ok (inl a) => k a | Ok (inr g) => Ok (inr g) | Err e => Err e end.

Definition all_same {A} `{EqDecision A} (l : list A) : bool :=
  match l with [] => false | x :: l => forallb (fun y => bool_decide (y = x)) l end.
Definition check_domains (links : list (string * link)) : result unit :=
  let ds := map (fun x => clock_domain x.2) links in
  if existsb is_some ds then
    raise_if existsb (fun d => negb (is_some d)) ds of ValueError "RT clock domain is attested on one arm only" ;;
    raise_if negb (all_same ds) of ValueError "paired feedback requires one RT clock domain (host and boot)" ;;
    Ok tt
  else raise_if negb (all_same (map (fun x => host x.2) links)) of ValueError "paired feedback requires one RT host clock" ;; Ok tt.

Definition valid_joints (n : nat) (v : list nat * vec) : bool := bool_decide (v.1 = [n]) && all_finite v.2.
Definition position (p : packet) : result vec :=
  q <-- q_of p ;; dq <-- dq_of p ;;
  raise_if negb (valid_joints (width p) q) || negb (valid_joints (width p) dq) of ValueError "paired feedback contains invalid joints" ;;
  Ok q.2.
Definition fresh (now max_age received : float) : bool :=
  let age := now -f received in (f0 <=f age) && (age <=f max_age).
Definition same_epoch (p p' : packet) : bool :=
  (session_id p =? session_id p') && (arm_epoch p =? arm_epoch p') && (stop_epoch p =? stop_epoch p').

(** The newest packet of an arm, checked. *)
Definition latest_of (now max_age : float) (l : link) (h : history) : result packet :=
  match rev h with
  | [] => Err (ValueError "paired feedback history missing")
  | (s, received) :: older =>
      sid <-- int_16 (session_text l) ;;
      raise_if negb (session_id s =? sid) || (armed s && negb (arm_epoch s =? epoch_now l))
        of ValueError "paired feedback authority changed" ;;
      raise_if negb (isfinite received && fresh now max_age received) of ValueError "paired feedback stale" ;;
      raise_if (t_mono_ns s <=? 0) || faulted s of ValueError "paired feedback timestamp invalid or plant faulted" ;;
      raise_if match older with (p, _) :: _ => t_mono_ns s <=? t_mono_ns p | [] => false end
        of ValueError "paired feedback timestamps are not increasing" ;;
      _ <-- position s ;; Ok s
  end.

(** The packets before and after the common time, from the newest back. *)
Fixpoint bracket (now max_age : float) (target : Z) (current : packet) (after : option packet) (newest_first : history)
    : result (option packet * option packet) :=
  match newest_first with
  | [] => Ok (None, after)
  | (s, received) :: older =>
      if negb (same_epoch s current) || faulted s then Ok (None, after) else
      if negb (fresh now max_age received) then Ok (None, after) else
      if match after with Some a => t_mono_ns a <=? t_mono_ns s | None => false end
      then Err (ValueError "paired feedback timestamps are not increasing") else
      let after := if target <=? t_mono_ns s then Some s else after in
      if t_mono_ns s <=? target then Ok (Some s, after) else bracket now max_age target current after older
  end.

Record aligned_arm := { before_ : packet; after_ : packet; fraction : float; q_before : vec; q_after : vec; q_common : vec }.
Definition interpolate (alpha : float) (q0 q1 : vec) : result vec :=
  bcast fadd (map (fmul (f1 -f alpha)) q0) (map (fmul alpha) q1).
Definition align_one (now max_age max_interval : float) (target : Z) (name : string) (current : packet) (h : history) : gapped aligned_arm :=
  ba <-- bracket now max_age target current None (rev h) ;;
  match ba with
  | (Some b, Some a) =>
      raise_if t_mono_ns b <=? 0 of ValueError "paired feedback cannot bracket common time" ;;
      interval <-- seconds (t_mono_ns a - t_mono_ns b) ;;
      if interval >f max_interval then Ok (inr (BracketGap name)) else
      let alpha := if interval =f f0 then f0 else true_div (target - t_mono_ns b) (t_mono_ns a - t_mono_ns b) in
      q0 <-- position b ;; q1 <-- position a ;; q <-- interpolate alpha q0 q1 ;;
      Ok (inl {| before_ := b; after_ := a; fraction := alpha; q_before := q0; q_after := q1; q_common := q |})
  | _ => Err (ValueError "paired feedback cannot bracket common time")
  end.

Record alignment := { target_ns : Z; domain : string; skew_s : float; brackets : list (string * aligned_arm); received_at : float }.
Fixpoint align_arms_of (now max_age max_interval : float) (target : Z) (l : list (string * (packet * history))) : gapped (list (string * aligned_arm)) :=
  match l with
  | [] => Ok (inl [])
  | (name, (current, h)) :: l =>
      gbind (align_one now max_age max_interval target name current h) (fun a =>
      gbind (align_arms_of now max_age max_interval target l) (fun r => Ok (inl ((name, a) :: r))))
  end.
Definition newest_receipt (h : history) : float := match rev h with (_, r) :: _ => r | [] => fnan end.
Definition receipt_min (l : list float) : float := match l with [] => fnan | x :: l => fold_left py_min l x end.
Definition Z_span (l : list Z) : Z * Z := match l with [] => (0, 0) | x :: l => (fold_left Z.min l x, fold_left Z.max l x) end.

Definition align_feedback (links : list (string * link)) (histories : list (string * history)) (now max_age max_interval : float) : gapped alignment :=
  raise_if negb (length links =? 2)%nat || negb (bool_decide ((list_to_set (map fst links) : gset string) = list_to_set (map fst histories)))
    of ValueError "paired feedback requires both arms" ;;
  _ <-- check_domains links ;;
  latest <-- rmap (fun x => match dget x.1 links with
                            | None => Err KeyError
                            | Some l => s <-- latest_of now max_age l x.2 ;; Ok (x.1, (s, x.2))
                            end) histories ;;
  let '(target, newest) := Z_span (map (fun x => t_mono_ns x.2.1) latest) in
  skew <-- seconds (newest - target) ;;
  if skew >f max_interval then Ok (inr SkewGap) else
  gbind (align_arms_of now max_age max_interval target latest) (fun brs =>
  Ok (inl {| target_ns := target;
             domain := match links with (_, l) :: _ => default "unattested"%string (clock_domain l) | [] => "unattested" end;
             skew_s := skew; brackets := brs; received_at := receipt_min (map (fun x => newest_receipt x.2) histories) |})).

(** ** [align_arms]: the packets of two supervisors *)

Definition MAX_AGE_S : float := Eval vm_compute in Prim2SF 0.05%float.
Definition MAX_INTERVAL_S : float := Eval vm_compute in Prim2SF 0.02%float.
Abbreviation mapping := (list (string * json)).
Definition packet_of (s : mapping) : result packet :=
  t <-- (v <-- field "t_mono_ns" (JObj s) ;; as_int v) ;; sq <-- (v <-- field "state_seq" (JObj s) ;; as_int v) ;;
  sid <-- (v <-- field "session_id" (JObj s) ;; as_int v) ;; ae <-- (v <-- field "arm_epoch" (JObj s) ;; as_int v) ;;
  se <-- (v <-- field "stop_epoch" (JObj s) ;; as_int v) ;; ar <-- (v <-- field "armed" (JObj s) ;; as_bool v) ;;
  fa <-- (v <-- field "faulted" (JObj s) ;; as_bool v) ;; q <-- field "q" (JObj s) ;; dq <-- field "dq" (JObj s) ;;
  n <-- match q with JArr l => Ok (length l) | _ => Err (TypeError "object has no len()") end ;;
  Ok {| t_mono_ns := t; state_seq := sq; session_id := sid; arm_epoch := ae; stop_epoch := se; armed := ar; faulted := fa;
        width := n; q_of := np_array q; dq_of := np_array dq |}.
Definition received_packet (before : float) (s : mapping) : result (packet * float) :=
  p <-- packet_of s ;; age <-- (v <-- field "age_ns" (JObj s) ;; as_num v) ;; Ok (p, before -f (age /f e9)).
Definition objects (j : json) : result (list mapping) :=
  match j with
  | JArr l => rmap (fun v => match v with JObj kv => Ok kv | _ => Err (TypeError "argument after ** must be a mapping") end) l
  | _ => Err (TypeError "object is not iterable")
  end.
(** One supervisor's reply to [state_history], asked for at [before]. *)
Definition source_of (before : float) (reply : mapping) : result (link * history) :=
  raise_if match arg "clock_domain" reply with JNull => true | _ => false end
    of ValueError "paired feedback needs an attested RT clock domain through a supervisor" ;;
  d <-- as_str (arg "clock_domain" reply) ;;
  auth <-- (field "authority" (JObj reply)) ;;
  samples <-- (v <-- field "samples" (JObj reply) ;; objects v) ;;
  sid <-- (v <-- field "session_id" auth ;; to_str v) ;; ae <-- (v <-- field "arm_epoch" auth ;; as_int v) ;;
  h <-- rmap (received_packet before) samples ;;
  Ok ({| clock_domain := Some d; host := d; session_text := sid; epoch_now := ae |}, h).

Class Arms := { clock : nat -> float; state_history : string -> nat -> result mapping }.
Section Align.
Context {env : Arms}.
(** The questions asked are the state of this computation: a clock reading and a reply per arm. *)
Fixpoint read_arms (k : nat) (names : list string) : result (list (string * (link * history)) * nat) :=
  match names with
  | [] => Ok ([], k)
  | n :: names =>
      reply <-- state_history n (S k) ;; src <-- source_of (clock k) reply ;;
      r <-- read_arms (S (S k)) names ;; Ok ((n, src) :: r.1, r.2)
  end.
Definition align_arms (k : nat) (names : list string) : gapped alignment :=
  r <-- read_arms k names ;;
  align_feedback (map (fun x => (x.1, x.2.1)) r.1) (map (fun x => (x.1, x.2.2)) r.1) (clock r.2) MAX_AGE_S MAX_INTERVAL_S.
End Align.

(** ** The shared mode of the pair *)

Record arm_view := {
  v_armed : bool; v_ready : bool; executing : bool; stopped : bool; frozen : bool; joint_law : bool; velocity : option vec }.
Record shared := {
  shared_mode : bool;
  closure_positions : option (list (string * vec));
  feedback_error : option string;                 (* [_feedback_alignment['error']] *)
  last_report : option alignment;
  aligned_at : option float;
  holding_since : option float;
}.
#[export] Instance eta_shared : Eta shared := fun s => {| shared_mode := shared_mode s; closure_positions := closure_positions s;
  feedback_error := feedback_error s; last_report := last_report s; aligned_at := aligned_at s; holding_since := holding_since s |}.
Definition new_shared : shared := {| shared_mode := false; closure_positions := None; feedback_error := None; last_report := None;
  aligned_at := None; holding_since := None |}.

Definition feedback_ready (s : shared) : bool := negb (shared_mode s) || negb (is_some (feedback_error s)).

Definition c_01 : float := Eval vm_compute in Prim2SF 0.01%float.
Definition c_05 : float := Eval vm_compute in Prim2SF 0.05%float.
Definition c_25 : float := Eval vm_compute in Prim2SF 0.25%float.
Definition still (v : arm_view) : result bool :=
  if v_armed v && v_ready v && negb (executing v) && negb (stopped v) && negb (frozen v) && joint_law v
  then match velocity v with None => Ok false | Some dq => m <-- vec_max (np_abs dq) ;; Ok (m <f c_01) end
  else Ok false.
Fixpoint all_still (l : list arm_view) : result bool :=
  match l with [] => Ok true | v :: l => b <-- still v ;; if b then all_still l else Ok false end.

(** [_update_holding]: whether the pair has been seen holding long enough. *)
Definition update_holding (now : float) (views : list arm_view) (s : shared) : result bool * shared :=
  match all_still views with
  | Err e => (Err e, s)
  | Ok h =>
      let s := if negb h then s <| holding_since := None |>
               else match holding_since s with None => s <| holding_since := Some now |> | Some _ => s end in
      (Ok match holding_since s with Some t => now -f t >=f c_25 | None => false end, s)
  end.

Definition unaligned (why : string) (s : shared) : shared := s <| feedback_error := Some why |> <| last_report := None |>.
(** [_align_feedback], with the reading before the call and what [align_arms] came to. *)
Definition align_shared (allow_wait : bool) (now : float) (r : gapped alignment) (s : shared) : result unit * shared :=
  match r with
  | Ok (inl a) =>
      (Ok tt, s <| closure_positions := Some (map (fun x => (x.1, q_common x.2)) (brackets a)) |> <| feedback_error := None |>
                <| last_report := Some a |> <| aligned_at := Some (received_at a) |>)
  | Ok (inr _) =>
      let s := unaligned "paired feedback gap" s in
      if allow_wait && match aligned_at s with Some t => now -f t <=f c_05 | None => false end
      then (Ok tt, s) else (Err (ValueError "paired feedback gap"), s)
  | Err e => (Err e, if is_ValueError e then unaligned "paired feedback" s else s)
  end.

(** The shared-mode part of [step], and the other writers of its state: the capture
    in [set_shared_grasps], which never waits, and its change of mode. *)
Inductive input :=
  | Step (now : float) (views : list arm_view) (asked : float) (r : gapped alignment)
  | Capture (asked : float) (r : gapped alignment)
  | Mode (shared : bool).
Definition step (now : float) (views : list arm_view) (asked : float) (r : gapped alignment) (s : shared) : result unit * shared :=
  match update_holding now views s with
  | (Err e, s) => (Err e, s)
  | (Ok holding, s) =>
      if negb (shared_mode s) then (Ok tt, s) else
      if forallb (fun v => v_armed v && v_ready v) views then align_shared holding asked r s
      else (Ok tt, unaligned "pair not armed" s)
  end.
Definition react (i : input) (s : shared) : result unit * shared :=
  match i with
  | Step now views asked r => step now views asked r s
  | Capture asked r => align_shared false asked r s
  | Mode b => (Ok tt, s <| shared_mode := b |>)
  end.
Fixpoint run (l : list input) (s : shared) : shared := match l with [] => s | i :: l => run l (react i s).2 end.
