(* ===== verification/FeedbackFacts.v ===== *)
(** The common-time estimates of a pair are interpolated, never extrapolated, from
    neighbouring packets of one authority epoch on one clock; and the shared mode
    shows readiness only on an alignment it has just made, and waits out a gap only
    for a pair at rest, for a bounded time. *)
From Stdlib Require Import Ascii SpecFloat PrimFloat FloatOps.
From S2P Require Import Prelude Floats Effects Json Observation Feedback.
Open Scope Z_scope.

(** ** A session's id survives its text *)

Lemma hex_acc_app s t acc : hex_acc (s +:+ t) acc = n ← hex_acc s acc; hex_acc t n.
Proof. revert acc. induction s as [|c s IH]; intros acc; [done|]. simpl. destruct (hex_digit_value c); [apply IH|done]. Qed.
Lemma hex_digit_back n : 0 <= n < 16 -> hex_digit_value (hex_digit n) = Some n.
Proof.
  intros Hn. assert (forallb (fun i => bool_decide (hex_digit_value (hex_digit (Z.of_nat i)) = Some (Z.of_nat i))) (seq 0 16) = true) as H
    by (vm_compute; reflexivity). rewrite forallb_forall in H. specialize (H (Z.to_nat n)). rewrite Z2Nat.id in H by lia.
  apply bool_decide_eq_true in H; [done|]. apply in_seq. lia.
Qed.
Lemma hex_digits_back k n acc : 0 <= n -> hex_acc (hex_digits k n) acc = Some (acc * 16 ^ Z.of_nat k + n mod 16 ^ Z.of_nat k).
Proof.
  revert n acc. induction k as [|k IH]; intros n acc Hn; [simpl; f_equal; rewrite Z.mod_1_r; lia|]. cbn [hex_digits].
  rewrite hex_acc_app, IH by (apply Z.div_pos; lia). cbn [mbind option_bind hex_acc]. rewrite hex_digit_back by (apply Z.mod_pos_bound; lia).
  cbn. f_equal. rewrite Nat2Z.inj_succ, Z.pow_succ_r by lia. rewrite (Z.rem_mul_r n 16 (16 ^ Z.of_nat k)) by lia. lia.
Qed.
Lemma session_text_back n : 0 <= n < 2 ^ 64 -> int_16 (hex16 n) = Ok n.
Proof.
  intros Hn. pose proof (hex_digits_back 16 n 0 (proj1 Hn)) as H. change (16 ^ Z.of_nat 16) with (2 ^ 64) in H.
  rewrite Z.mod_small in H by lia. unfold int_16, hex16. destruct (hex_digits 16 n) eqn:E; [|by rewrite H].
  exfalso. cbn [hex_digits] in E. by destruct (hex_digits 15 (n / 16)).
Qed.

(** ** The bracket *)

Section Bracket.
Context (now max_age : float) (target : Z) (current : packet).
(** A packet that may support an estimate. *)
Definition usable (p : packet) (received : float) : Prop :=
  same_epoch p current = true /\ faulted p = false /\ fresh now max_age received = true.
(** Two neighbours around the common time, or one packet at it. *)
Definition around (b a : packet) (newest_first : history) : Prop :=
  (exists l1 r l2, newest_first = l1 ++ (b, r) :: l2 /\ a = b /\ t_mono_ns b = target /\ usable b r) \/
  (exists l1 ra rb l2, newest_first = l1 ++ (a, ra) :: (b, rb) :: l2 /\ t_mono_ns b < target <= t_mono_ns a /\ usable b rb /\ usable a ra).

Lemma around_cons b a x l : around b a l -> around b a (x :: l).
Proof. intros [(l1 & r & l2 & -> & H)|(l1 & ra & rb & l2 & -> & H)]; [left; by exists (x :: l1), r, l2|right; by exists (x :: l1), ra, rb, l2]. Qed.
Lemma bracket_sound l after b a : bracket now max_age target current after l = Ok (Some b, Some a) ->
  around b a l \/ (after = Some a /\ exists r l2, l = (b, r) :: l2 /\ t_mono_ns b < target /\ usable b r).
Proof.
  revert after. induction l as [|[s r] l IH]; intros after H; simpl in H; [done|].
  destruct (negb (same_epoch s current) || faulted s) eqn:E1; [done|]. destruct (negb (fresh now max_age r)) eqn:E2; [done|].
  destruct (match after with Some _ => _ | None => _ end); [done|]. breflect.
  assert (usable s r) as Hu by (split_and!; by breflect).
  destruct (Z.leb_spec (t_mono_ns s) target) as [Hle|Hlt].
  - destruct (Z.leb_spec target (t_mono_ns s)) as [Hge|Hlt].
    + injection H as -> ->. left. left. exists [], r, l. split_and!; [done|done|lia|done].
    + injection H as -> ->. right. split; [done|]. exists r, l. split_and!; [done|lia|done].
  - destruct (Z.leb_spec target (t_mono_ns s)) as [Hge|?]; [|lia].
    destruct (IH _ H) as [Ha|([= ->] & r' & l2 & -> & Hb & Hub)]; [left; by apply around_cons|].
    left. right. exists [], r, r', l2. split_and!; [done|lia|lia|done|done].
Qed.
Lemma bracket_around l b a : bracket now max_age target current None l = Ok (Some b, Some a) -> around b a l.
Proof. intros H. by destruct (bracket_sound _ _ _ _ H) as [?|[? _]]. Qed.
End Bracket.

(** ** The alignment *)

(** One estimate: two usable neighbours around the common time, close enough, with
    valid joints, and the point between them. *)
Definition interpolated (now max_age max_interval : float) (target : Z) (current : packet) (h : history) (a : aligned_arm) : Prop :=
  around now max_age target current (before_ a) (after_ a) (rev h) /\ 0 < t_mono_ns (before_ a) /\
  position (before_ a) = Ok (q_before a) /\ position (after_ a) = Ok (q_after a) /\
  exists interval, seconds (t_mono_ns (after_ a) - t_mono_ns (before_ a)) = Ok interval /\ (interval >f max_interval) = false /\
    fraction a = (if interval =f f0 then f0 else true_div (target - t_mono_ns (before_ a)) (t_mono_ns (after_ a) - t_mono_ns (before_ a))) /\
    interpolate (fraction a) (q_before a) (q_after a) = Ok (q_common a).
(** The newest packet of an arm, as its link attests it. *)
Definition current_of (now max_age : float) (l : link) (h : history) (p : packet) : Prop :=
  exists received older, rev h = (p, received) :: older /\ int_16 (session_text l) = Ok (session_id p) /\
    (armed p = true -> arm_epoch p = epoch_now l) /\ fresh now max_age received = true /\ 0 < t_mono_ns p /\ faulted p = false /\
    is_ok (position p) = true.

Lemma latest_sound now max_age l h p : latest_of now max_age l h = Ok p -> current_of now max_age l h p.
Proof.
  unfold latest_of. intros H. destruct (rev h) as [|[s r] older] eqn:Er; [done|]. apply rbind_ok in H as (sid & Es & H).
  pass_guard H E1. pass_guard H E2. pass_guard H E3. pass_guard H E4. apply rbind_ok in H as (q & Eq & H). injection H as <-. breflect.
  exists r, older. split_and!; [done|by replace (session_id s) with sid by lia| |done|lia|done|by rewrite Eq].
  intros Ha. rewrite Ha in *. simpl in *. breflect. lia.
Qed.
Lemma align_one_sound now max_age max_interval target name current h a :
  align_one now max_age max_interval target name current h = Ok (inl a) -> interpolated now max_age max_interval target current h a.
Proof.
  unfold align_one. intros H. apply rbind_ok in H as ([[b|] [p|]] & Eb & H); try done. pass_guard H E1. apply rbind_ok in H as (iv & Ei & H).
  destruct (iv >f max_interval) eqn:Ev; [done|]. apply rbind_ok in H as (q0 & E0 & H). apply rbind_ok in H as (q1 & E2 & H).
  apply rbind_ok in H as (q & Eq & H). injection H as <-. breflect. split; [by apply bracket_around|]. simpl. split_and!; [lia|done|done|].
  exists iv. by split_and!.
Qed.
Lemma align_all_sound now max_age max_interval target l r : align_arms_of now max_age max_interval target l = Ok (inl r) ->
  Forall2 (fun x y => x.1 = y.1 /\ interpolated now max_age max_interval target x.2.1 x.2.2 y.2) l r.
Proof.
  revert r. induction l as [|[n [p h]] l IH]; intros r H; simpl in H; [by injection H as <-|].
  destruct (align_one _ _ _ _ _ _ _) as [[a|g]|e] eqn:Ea; try done. simpl in H.
  destruct (align_arms_of _ _ _ _ l) as [[r'|g]|e] eqn:Er; try done. injection H as <-.
  constructor; [split; [done|by eapply align_one_sound]|by apply IH].
Qed.

(** Both arms on one clock: one attested domain, or nothing attested and one host. *)
Definition one_clock (links : list (string * link)) : Prop :=
  (exists d, Forall (fun x => clock_domain x.2 = Some d) links) \/
  (Forall (fun x => clock_domain x.2 = None) links /\ exists h, Forall (fun x => host x.2 = h) links).
Lemma all_same_spec {A} `{EqDecision A} (l : list A) : all_same l = true -> exists x, x ∈ l /\ Forall (eq x) l.
Proof.
  destruct l as [|x l]; [done|]. simpl. intros H%forallb_Forall. exists x. split; [by left|]. constructor; [done|].
  eapply Forall_impl; [exact H|]. intros y Hy. by apply bool_decide_eq_true in Hy.
Qed.
Lemma same_of {A B} (f : A -> B) l y : Forall (eq y) (map f l) -> Forall (fun x => f x = y) l.
Proof. intros F. apply Forall_forall. intros x Hx. rewrite Forall_forall in F. symmetry. apply F. by apply list_elem_of_fmap_2. Qed.
Lemma domains_sound links : check_domains links = Ok tt -> one_clock links.
Proof.
  unfold check_domains. intros H. destruct (existsb is_some _) eqn:E1.
  - pass_guard H E2. pass_guard H E3. apply negb_false_iff in E3. apply all_same_spec in E3 as (d & Hd & F).
    apply existsb_false_Forall in E2. rewrite Forall_forall in E2. specialize (E2 d Hd). destruct d as [d|]; [|done].
    left. exists d. by apply (same_of (fun x => clock_domain x.2)).
  - pass_guard H E2. apply negb_false_iff in E2. apply all_same_spec in E2 as (h & _ & F). right. split.
    + apply existsb_false_Forall, Forall_map in E1. eapply Forall_impl; [exact E1|]. intros [n l] Hl. simpl in *. by destruct (clock_domain l).
    + exists h. by apply (same_of (fun x => host x.2)).
Qed.
Lemma fold_min_least l x : let m := fold_left Z.min l x in m ∈ x :: l /\ forall c, c ∈ x :: l -> m <= c.
Proof.
  revert x. induction l as [|y l IH]; intros x; simpl; [split; [by left|intros c Hc; apply list_elem_of_singleton in Hc; lia]|].
  destruct (IH (Z.min x y)) as [Hin Hub]. assert (fold_left Z.min l (Z.min x y) <= Z.min x y) as Hm by (apply Hub; left). split.
  - apply elem_of_cons in Hin as [->|Hin]; [destruct (Z.min_spec x y) as [[_ ->]|[_ ->]]; set_solver|set_solver].
  - intros c Hc. apply elem_of_cons in Hc as [->|[->|Hc]%elem_of_cons]; [lia..|]. apply Hub. by right.
Qed.

Lemma span_least l lo hi : Z_span l = (lo, hi) -> l <> [] -> lo ∈ l /\ forall c, c ∈ l -> lo <= c.
Proof. destruct l as [|x l]; [done|]. intros [= <- _] _. apply fold_min_least. Qed.

(** C17: the common-time feedback of a pair is interpolated, never extrapolated.  If
    an alignment is returned, both arms are on one clock; each arm's newest packet
    belongs to the session and arming its link attests, is fresh, unfaulted and has
    valid joints; the common time is the newest stamp of the arm that is behind; and
    each arm's estimate is the point between two neighbouring packets of its
    history, of that packet's authority epoch, fresh and unfaulted, one not after and
    one not before the common time, and no further apart than the limit. *)
Theorem aligned_is_bracketed links histories now max_age max_interval al :
  align_feedback links histories now max_age max_interval = Ok (inl al) ->
  length links = 2%nat /\ one_clock links /\ exists currents,
    Forall2 (fun x c => exists l, dget x.1 links = Some l /\ current_of now max_age l x.2 c) histories currents /\
    (exists c, c ∈ currents /\ target_ns al = t_mono_ns c) /\ Forall (fun c => target_ns al <= t_mono_ns c) currents /\
    Forall3 (fun x c y => x.1 = y.1 /\ interpolated now max_age max_interval (target_ns al) c x.2 y.2) histories currents (brackets al).
Proof.
  unfold align_feedback. intros H. pass_guard H E1. apply rbind_ok in H as ([] & Ed & H). apply rbind_ok in H as (latest & El & H).
  apply rmap_ok_Forall2 in El. destruct (Z_span _) as [target newest] eqn:Es. apply rbind_ok in H as (skew & _ & H).
  destruct (skew >f max_interval); [done|]. destruct (align_arms_of _ _ _ _ latest) as [[brs|g]|e] eqn:Ea; try done. injection H as <-.
  breflect. split; [done|]. split; [by apply domains_sound|]. simpl. exists (map (fun x => x.2.1) latest).
  assert (Forall2 (fun x y => y.1 = x.1 /\ y.2.2 = x.2 /\ exists l, dget x.1 links = Some l /\ current_of now max_age l x.2 y.2.1) histories latest) as F.
  { eapply Forall2_impl; [exact El|]. intros [n h] y Hy. simpl in Hy. destruct (dget n links) as [l|] eqn:En; [|done].
    apply rbind_ok in Hy as (s & Hs & Hy). injection Hy as <-. simpl. split_and!; [done..|]. exists l. split; [done|by apply latest_sound]. }
  clear El. destruct (span_least (map (fun x => t_mono_ns x.2.1) latest) target newest) as [Hin Hle]; [done| |].
  { destruct latest; [|done]. apply Forall2_nil_inv_r in F. subst histories. destruct links as [|x links]; [done|]. set_solver. }
  split_and!.
  - apply Forall2_fmap_r. eapply Forall2_impl; [exact F|]. intros x y (_ & _ & K). exact K.
  - apply list_elem_of_fmap in Hin as (x & -> & Hx). exists x.2.1. split; [|done]. by apply (list_elem_of_fmap_2 (fun x => x.2.1)).
  - apply Forall_fmap, Forall_forall. intros x Hx. apply Hle. by apply (list_elem_of_fmap_2 (fun x => t_mono_ns x.2.1)).
  - apply align_all_sound in Ea. clear -F Ea. revert brs Ea. induction F as [|x y hs ls (K1 & K2 & _) F IH]; intros brs Ea.
    + apply Forall2_nil_inv_l in Ea as ->. constructor.
    + apply Forall2_cons_inv_l in Ea as (z & brs' & [E1 E2] & Ea & ->). simpl. constructor; [|by apply IH]. rewrite <-K2. split; [congruence|done].
Qed.

(** ** The shared mode *)

Definition views_of (i : input) : option (list arm_view) := match i with Step _ views _ _ => Some views | _ => None end.
Definition accepted (l : list input) (a : alignment) : Prop :=
  exists i, i ∈ l /\ match i with Step _ _ _ r | Capture _ r => r = Ok (inl a) | Mode _ => False end.
Definition positions_of (a : alignment) : list (string * vec) := map (fun x => (x.1, q_common x.2)) (brackets a).
(** The pair was seen holding at [t], and never otherwise since. *)
Definition held_since (l : list input) (t : float) : Prop :=
  exists l1 views asked r l2, l = l1 ++ Step t views asked r :: l2 /\ all_still views = Ok true /\
    Forall (fun i => forall v, views_of i = Some v -> all_still v <> Ok false) l2.

Record Shown (l : list input) (s : shared) : Prop := {
  sh_aligned : forall t, aligned_at s = Some t -> exists a, accepted l a /\ received_at a = t /\ closure_positions s = Some (positions_of a);
  sh_holding : forall t, holding_since s = Some t -> held_since l t;
}.

Lemma accepted_more l i a : accepted l a -> accepted (l ++ [i]) a.
Proof. intros (j & Hj & H). exists j. split; [apply elem_of_app; by left|done]. Qed.
Lemma held_more l i t : held_since l t -> (forall v, views_of i = Some v -> all_still v <> Ok false) -> held_since (l ++ [i]) t.
Proof.
  intros (l1 & v & a & r & l2 & -> & H1 & H2) Hi. exists l1, v, a, r, (l2 ++ [i]). split; [by rewrite <-app_assoc|]. split; [done|].
  apply Forall_app. split; [done|by constructor].
Qed.

(** [_update_holding] on the next step. *)
Lemma holding_shown l now views asked r s b s' : Shown l s -> update_holding now views s = (b, s') ->
  (forall t, holding_since s' = Some t -> held_since (l ++ [Step now views asked r]) t) /\
  (b = Ok true -> exists t, holding_since s' = Some t /\ (c_25 <=f now -f t) = true) /\
  closure_positions s' = closure_positions s /\ aligned_at s' = aligned_at s /\ shared_mode s' = shared_mode s.
Proof.
  intros [_ Sh] H. unfold update_holding in H. destruct (all_still views) as [h|e] eqn:Eh; injection H as <- <-.
  - split_and!; [|destruct h; simpl; [|done]; destruct (holding_since s) as [t|] eqn:Et; simpl; rewrite ?Et; intros [= E]; by eexists|..].
    + destruct h; simpl; [|done]. destruct (holding_since s) as [t|] eqn:Et; simpl; rewrite ?Et; intros ? [= <-].
      * apply held_more; [by apply Sh|]. intros v [= <-]. congruence.
      * exists l, views, asked, r, []. by split_and!.
    + destruct h; simpl; [by destruct (holding_since s)|done].
    + destruct h; simpl; [by destruct (holding_since s)|done].
    + destruct h; simpl; [by destruct (holding_since s)|done].
  - split_and!; try done. intros t Ht. apply held_more; [by apply Sh|]. intros v [= <-]. congruence.
Qed.
(** [_align_feedback]. *)
Lemma align_shown l i wait asked r s res s' :
  match i with Step _ _ _ r' | Capture _ r' => r' = r | Mode _ => False end ->
  (forall t, aligned_at s = Some t -> exists a, accepted l a /\ received_at a = t /\ closure_positions s = Some (positions_of a)) ->
  align_shared wait asked r s = (res, s') ->
  (forall t, aligned_at s' = Some t -> exists a, accepted (l ++ [i]) a /\ received_at a = t /\ closure_positions s' = Some (positions_of a)) /\
  holding_since s' = holding_since s.
Proof.
  intros Hi Ha H. assert (forall t, aligned_at s = Some t -> exists a, accepted (l ++ [i]) a /\ received_at a = t /\ closure_positions s = Some (positions_of a)) as Ha'.
  { intros t Ht. destruct (Ha t Ht) as (a & H1 & H2 & H3). exists a. split; [by apply accepted_more|done]. }
  unfold align_shared in H. destruct r as [[a|g]|e].
  - injection H as <- <-. split; [|done]. intros t [= <-]. exists a. split; [|done]. exists i. split; [apply elem_of_app; right; by left|by destruct i].
  - destruct (wait && _); injection H as <- <-; by split.
  - injection H as <- <-. destruct (is_ValueError e); by split.
Qed.
Lemma shown_step l i s : Shown l s -> Shown (l ++ [i]) (react i s).2.
Proof.
  intros Sh. destruct i as [now views asked r|asked r|b]; cbn [react].
  - unfold step. destruct (update_holding now views s) as [b s1] eqn:Eh.
    destruct (holding_shown _ _ _ asked r _ _ _ Sh Eh) as (H1 & _ & H2 & H3 & _).
    assert (forall t, aligned_at s1 = Some t -> exists a, accepted l a /\ received_at a = t /\ closure_positions s1 = Some (positions_of a)) as Ha.
    { rewrite H2, H3. apply Sh. }
    assert (forall s2, closure_positions s2 = closure_positions s1 -> aligned_at s2 = aligned_at s1 -> holding_since s2 = holding_since s1 ->
      Shown (l ++ [Step now views asked r]) s2) as K.
    { intros s2 K1 K2 K3. split; rewrite ?K1, ?K2, ?K3; [|exact H1]. intros t Ht. destruct (Ha t Ht) as (a & A1 & A2). exists a.
      split; [by apply accepted_more|done]. }
    destruct b as [holding|e]; [|by apply K]. destruct (negb (shared_mode s1)); [by apply K|]. destruct (forallb _ views); [|by apply K].
    destruct (align_shared holding asked r s1) as [res s2] eqn:Ea.
    destruct (align_shown l (Step now views asked r) _ _ _ _ _ _ eq_refl Ha Ea) as [A1 A2]. simpl. split; [exact A1|by rewrite A2].
  - destruct (align_shared false asked r s) as [res s2] eqn:Ea.
    destruct (align_shown l (Capture asked r) _ _ _ _ _ _ eq_refl (sh_aligned _ _ Sh) Ea) as [A1 A2]. simpl. split; [exact A1|].
    rewrite A2. intros t Ht. apply held_more; [by apply Sh|done].
  - simpl. split; simpl.
    + intros t Ht. destruct (sh_aligned _ _ Sh t Ht) as (a & A1 & A2). exists a. split; [by apply accepted_more|done].
    + intros t Ht. apply held_more; [by apply Sh|done].
Qed.
Lemma run_snoc l i s : run (l ++ [i]) s = (react i (run l s)).2.
Proof. revert s. induction l as [|j l IH]; intros s; simpl; [done|apply IH]. Qed.
Lemma run_shown l : Shown l (run l new_shared).
Proof. induction l as [|i l IH] using rev_ind; [by split|]. rewrite run_snoc. by apply shown_step. Qed.

(** C18: the shared mode shows readiness only on what it has just measured.  After any
    history, a step in shared mode that returns either shows the positions of the
    alignment it has just made, and is ready; or, with both arms armed and
    acknowledged, has waited out a gap: it is not ready, the positions kept are of an
    alignment accepted before whose packets are at most 50 ms old, and the pair has
    been holding for 250 ms with nothing else seen in between; or the pair is not
    armed and acknowledged, and it is not ready. *)
Theorem shared_feedback_is_current l now views asked r s' :
  shared_mode (run l new_shared) = true -> step now views asked r (run l new_shared) = (Ok tt, s') ->
  (exists a, r = Ok (inl a) /\ closure_positions s' = Some (positions_of a) /\ feedback_ready s' = true) \/
  (exists g a t, r = Ok (inr g) /\ feedback_ready s' = false /\
     accepted l a /\ closure_positions s' = Some (positions_of a) /\ (asked -f received_at a <=f c_05) = true /\
     held_since (l ++ [Step now views asked r]) t /\ (c_25 <=f now -f t) = true) \/
  (forallb (fun v => v_armed v && v_ready v) views = false /\ feedback_ready s' = false).
Proof.
  pose proof (run_shown l) as Sh. generalize dependent (run l new_shared). intros s Sh Hm H. unfold step in H.
  destruct (update_holding now views s) as [b s1] eqn:Eh.
  destruct (holding_shown _ _ _ asked r _ _ _ Sh Eh) as (H1 & Hw & H2 & H3 & H4). rewrite H4, Hm in H. simpl in H.
  destruct b as [holding|e]; [|done]. destruct (forallb _ views) eqn:Ev.
  - unfold align_shared in H. destruct r as [[a|g]|e]; [| |done].
    + injection H as <-. left. exists a. split_and!; [done..|]. unfold feedback_ready. simpl. by rewrite orb_true_r.
    + right. left. destruct (holding && _) eqn:Ew; [|done]. injection H as <-. apply andb_true_iff in Ew as [Eho Ew]. simpl in Ew.
      destruct (aligned_at s1) as [t|] eqn:Et; [|done]. destruct (sh_aligned _ _ Sh t (eq_sym H3)) as (a & A1 & A2 & A3).
      destruct Hw as (t' & Ht' & Hd); [by rewrite Eho|]. exists g, a, t'. subst t.
      split_and!; [done|unfold feedback_ready; simpl; by rewrite H4, Hm|done|simpl; congruence|done|by apply H1|done].
  - injection H as <-. right. right. split; [done|]. unfold feedback_ready. simpl. by rewrite H4, Hm.
Qed.

(** ** A pair whose packets interleave, and a gap it waits out *)

Lemma pair_first {A B} (x : A * B) a : x.1 = a -> x = (a, x.2).
Proof. destruct x. simpl. by intros ->. Qed.

Module PairDemo.
Definition at_ms (n : Z) : float := of_Z n /f of_Z 1000.
Definition joint (x : Z) : result (list nat * vec) := Ok ([1%nat], [of_Z x]).
Definition packet_at (ms q : Z) : packet * float :=
  ({| t_mono_ns := ms * 1000000; state_seq := ms; session_id := 26; arm_epoch := 3; stop_epoch := 0; armed := true; faulted := false;
      width := 1; q_of := joint q; dq_of := joint 0 |}, at_ms ms).
Definition attested : link := {| clock_domain := Some "host:boot"; host := "host:boot"; session_text := "000000000000001a"; epoch_now := 3 |}.
Definition sources : list (string * link) := [("left", attested); ("right", attested)]%string.
Definition packets : list (string * history) :=
  [("left", [packet_at 100 0; packet_at 110 2]); ("right", [packet_at 95 0; packet_at 105 4; packet_at 115 8])]%string.
Definition outcome : gapped alignment := align_feedback sources packets (at_ms 120) MAX_AGE_S MAX_INTERVAL_S.
Example common_time : match outcome with
  | Ok (inl al) => (target_ns al, map (fun x => (x.1, q_common x.2)) (brackets al)) | _ => (0, []) end
  = (110000000, [("left", [of_Z 2]); ("right", [of_Z 6])])%string.
Proof. vm_compute. reflexivity. Qed.
Lemma aligns : match outcome with Ok (inl _) => true | _ => false end = true.
Proof. vm_compute. reflexivity. Qed.
(** An arm of another boot is refused; packets too far apart are a gap. *)
Example other_clock : check_domains [("left"%string, attested); ("right"%string, {| clock_domain := Some "host:other"; host := "h"; session_text := ""; epoch_now := 0 |})]
  = Err (ValueError "paired feedback requires one RT clock domain (host and boot)").
Proof. vm_compute. reflexivity. Qed.
Example too_far : align_feedback sources [("left", [packet_at 100 0; packet_at 110 2]); ("right", [packet_at 90 0; packet_at 115 8])]%string
  (at_ms 120) MAX_AGE_S MAX_INTERVAL_S = Ok (inr (BracketGap "right")).
Proof. vm_compute. reflexivity. Qed.

Definition resting : arm_view := {|
  v_armed := true; v_ready := true; executing := false; stopped := false; frozen := false; joint_law := true; velocity := Some [f0] |}.
Definition estimate (ms : Z) : gapped alignment := Ok (inl {| target_ns := ms; domain := "host:boot"; skew_s := f0; brackets := []; received_at := at_ms ms |}).
Definition past : list input :=
  [Capture (at_ms 1000) (estimate 990); Mode true; Step (at_ms 1010) [resting; resting] (at_ms 1010) (estimate 1000);
   Step (at_ms 1280) [resting; resting] (at_ms 1280) (estimate 1270)].
Definition missing : gapped alignment := Ok (inr SkewGap).
Abbreviation waited ms := (step (at_ms ms) [resting; resting] (at_ms ms) missing (run past new_shared)).
Example waits_then_raises : ((waited 1300).1, (waited 1330).1) = (Ok tt, Err (ValueError "paired feedback gap")).
Proof. vm_compute. reflexivity. Qed.
Lemma in_shared_mode : shared_mode (run past new_shared) = true.
Proof. vm_compute. reflexivity. Qed.
Lemma gap_waited_out : waited 1300 = (Ok tt, (waited 1300).2).
Proof. apply pair_first. vm_compute. reflexivity. Qed.
Lemma never_aligned a : missing <> Ok (inl a).
Proof. done. Qed.
Lemma both_ready : forallb (fun v => v_armed v && v_ready v) [resting; resting] = true.
Proof. reflexivity. Qed.
End PairDemo.
Import PairDemo.

Example aligned_is_bracketed_witness : exists al, outcome = Ok (inl al) /\ one_clock sources.
Proof.
  pose proof aligns as H. destruct outcome as [[al|g]|e] eqn:E; [|done|done]. exists al. split; [done|].
  apply (aligned_is_bracketed sources packets (at_ms 120) MAX_AGE_S MAX_INTERVAL_S al E).
Defined.
Example shared_feedback_is_current_witness : exists a, accepted past a /\ (at_ms 1300 -f received_at a <=f c_05) = true.
Proof.
  destruct (shared_feedback_is_current past (at_ms 1300) [resting; resting] (at_ms 1300) missing (waited 1300).2 in_shared_mode gap_waited_out)
    as [(a & H & _)|[(g & a & t & _ & _ & H1 & _ & H2 & _)|[H _]]]; [by apply never_aligned in H|by exists a|by rewrite both_ready in H].
Defined.
