(* ===== verification/Safety.v ===== *)
(** The safety layer of the leader/follower teleoperation
    ([leader_follower/safety.py]): limits, the pluggable collision guards and
    the per-tick monitor.

    A guard is an instance of [CollisionGuard]; the deployment's callbacks, the
    forward kinematics and [np.linalg.norm] are parameters of the instances that
    use them.  The monitor's methods are functions on its state record. *)
From Stdlib Require Import SpecFloat PrimFloat FloatOps.
From S2P Require Import Prelude Floats Motion.

(** ** Limits and values *)

Record SafetyLimits := {
  joint_margin_rad : float;
  max_step_rad : float;
  max_target_vel_rad_s : float;
  gripper_max_step_m : float;
  feedback_required : bool;
  feedback_timeout_s : float;
  track_err_rad : float;
  track_err_hold_s : float;
  track_vel_rad_s : float;
  leader_timeout_s : float;
  collision_stop_m : float;
  collision_warn_m : float;
  collision_every_n : Z;
  collision_slow_scale : float;
}.

Definition SafetyLimits_new (l : SafetyLimits) : result SafetyLimits :=
  raise_if existsb (fun v => v <f f0) [joint_margin_rad l; collision_stop_m l; collision_warn_m l]
    of ValueError "safety limit must not be negative" ;;
  raise_if existsb (fun v => negb (v >f f0))
             [max_step_rad l; max_target_vel_rad_s l; feedback_timeout_s l; track_err_rad l; track_err_hold_s l; leader_timeout_s l]
    of ValueError "safety limit must be positive" ;;
  raise_if collision_warn_m l <f collision_stop_m l of ValueError "collision_warn_m must be >= collision_stop_m" ;;
  raise_if (collision_every_n l <? 1)%Z of ValueError "collision_every_n must be >= 1" ;;
  Ok l.

Record SafetyVerdict := { ok : bool; reason : string; speed_scale : float }.
Definition stop (why : string) : SafetyVerdict := {| ok := false; reason := why; speed_scale := f1 |}.
Definition pass (scale : float) : SafetyVerdict := {| ok := true; reason := ""; speed_scale := scale |}.

Record FeedbackSample := {
  arm_q : vec;
  arm_dq : option vec;
  gripper_width_m : option float;
  timestamp : float;
  fault : bool;
  fault_reason : string;
  fb_armed : option bool;
}.

(** ** Collision guards *)

(** What the monitor and the loop use of a guard. *)
Class CollisionGuard (G : Type) := {
  set_other_state : G -> vec -> result G;
  min_distance : G -> vec -> result float;
}.

Inductive NoCollisionGuard := no_guard.
#[export] Instance NoCollisionGuard_guard : CollisionGuard NoCollisionGuard := {
  set_other_state g _ := Ok g;
  min_distance _ _ := Ok finf;
}.

Module CallableGuard.
Section Callable.
(** The world behind the callbacks: [fn] answers a distance or a verdict. *)
Context {W : Type} (fn : W -> vec -> result (float + bool)) (on_other : option (W -> vec -> result W)).
Definition t : Type := W.
Definition fminus1 : float := fopp f1.
Definition other (w : t) (x : vec) : result t := match on_other with Some f => f w x | None => Ok w end.
Definition distance (w : t) (q : vec) : result float :=
  r <-- fn w q ;;
  Ok match r with inr true => fminus1 | inr false => finf | inl d => d end.
Definition guard : CollisionGuard t := {| set_other_state := other; min_distance := distance |}.
End Callable.
End CallableGuard.

Module SphereGuard.
(** A pose as the FK returns it, by array dimension. *)
Inductive pose := Mat (m : mat) | Point (p : vec).
Definition shape2 (m : mat) (r c : nat) : bool := (length m =? r) && forallb (fun x => length x =? c) m.
Definition eye3 : mat := [[f1; f0; f0]; [f0; f1; f0]; [f0; f0; f1]].

Definition as_rt (p : pose) : result (mat * vec) :=
  match p with
  | Mat m =>
      if shape2 m 4 4 then Ok (map (take 3) (take 3 m), map (fun row => fget row 3) (take 3 m))
      else if shape2 m 3 3 then Ok (m, [f0; f0; f0])
      else Err (ValueError "cannot parse pose")
  | Point v => if length v =? 3 then Ok (eye3, v) else Err (ValueError "cannot parse pose")
  end.

Record Sphere := { frame : string; offset : vec; radius : float }.
Definition poses := gmap string pose.

Definition center (s : Sphere) (ps : poses) : result vec :=
  match ps !! frame s with
  | None => Err KeyError
  | Some p => rt <-- as_rt p ;; bcast fadd rt.2 (offset s)
  end.

Section Spheres.
Context (norm : vec -> float) (big_fk small_fk : vec -> result poses).
Record t := { big_spheres : list Sphere; small_spheres : list Sphere; small_poses : option poses }.

Definition other (g : t) (x : vec) : result t :=
  ps <-- small_fk x ;;
  Ok {| big_spheres := big_spheres g; small_spheres := small_spheres g; small_poses := Some ps |}.

Definition gap (cb cs : vec) (b s : Sphere) : result float :=
  d <-- bcast fsub cb cs ;; Ok (norm d -f radius b -f radius s).
Fixpoint scan_small (ps : poses) (b : Sphere) (cb : vec) (l : list Sphere) (best : float) : result float :=
  match l with
  | [] => Ok best
  | s :: l => cs <-- center s ps ;; g <-- gap cb cs b s ;; scan_small ps b cb l (py_min best g)
  end.
Fixpoint scan_big (bp sp : poses) (small l : list Sphere) (best : float) : result float :=
  match l with
  | [] => Ok best
  | b :: l => cb <-- center b bp ;; best <-- scan_small sp b cb small best ;; scan_big bp sp small l best
  end.

Definition distance (g : t) (q : vec) : result float :=
  match small_poses g with
  | None => Ok finf
  | Some sp => bp <-- big_fk q ;; scan_big bp sp (small_spheres g) (big_spheres g) finf
  end.
Definition guard : CollisionGuard t := {| set_other_state := other; min_distance := distance |}.
End Spheres.
End SphereGuard.

(** ** The monitor *)

Section Monitor.
Context {G : Type} `{CollisionGuard G}.

Record SafetyMonitor := {
  limits : SafetyLimits;
  joint_lower : vec;
  joint_upper : vec;
  collision : G;
  prev_target : option vec;
  prev_leader_t : float;
  track_since : option float;
  last_feedback_t : float;
  tick : Z;
  last_distance : float;
  seen_feedback : bool;
}.
Definition n_joints (m : SafetyMonitor) : nat := length (joint_lower m).

Definition SafetyMonitor_new (l : SafetyLimits) (lo hi : vec) (g : G) : result SafetyMonitor :=
  raise_if negb (length lo =? length hi) || (length lo =? 0) of ValueError "joint_lower/upper shapes differ or are empty" ;;
  raise_if negb (forallb (fun p => p.1 <=f p.2) (zip lo hi)) of ValueError "joint_lower must be <= joint_upper" ;;
  Ok {| limits := l; joint_lower := lo; joint_upper := hi; collision := g; prev_target := None; prev_leader_t := f0;
        track_since := None; last_feedback_t := f0; tick := 0; last_distance := finf; seen_feedback := false |}.

(** Field updates. *)
Definition with_leader_t (t : float) (m : SafetyMonitor) : SafetyMonitor := {|
  limits := limits m; joint_lower := joint_lower m; joint_upper := joint_upper m; collision := collision m;
  prev_target := prev_target m; prev_leader_t := t; track_since := track_since m; last_feedback_t := last_feedback_t m;
  tick := tick m; last_distance := last_distance m; seen_feedback := seen_feedback m |}.
Definition with_collision (g : G) (m : SafetyMonitor) : SafetyMonitor := {|
  limits := limits m; joint_lower := joint_lower m; joint_upper := joint_upper m; collision := g;
  prev_target := prev_target m; prev_leader_t := prev_leader_t m; track_since := track_since m;
  last_feedback_t := last_feedback_t m; tick := tick m; last_distance := last_distance m; seen_feedback := seen_feedback m |}.
Definition with_tick (k : Z) (d : float) (m : SafetyMonitor) : SafetyMonitor := {|
  limits := limits m; joint_lower := joint_lower m; joint_upper := joint_upper m; collision := collision m;
  prev_target := prev_target m; prev_leader_t := prev_leader_t m; track_since := track_since m;
  last_feedback_t := last_feedback_t m; tick := k; last_distance := d; seen_feedback := seen_feedback m |}.
Definition with_target (t : vec) (m : SafetyMonitor) : SafetyMonitor := {|
  limits := limits m; joint_lower := joint_lower m; joint_upper := joint_upper m; collision := collision m;
  prev_target := Some t; prev_leader_t := prev_leader_t m; track_since := track_since m;
  last_feedback_t := last_feedback_t m; tick := tick m; last_distance := last_distance m; seen_feedback := seen_feedback m |}.
Definition with_feedback (t : float) (m : SafetyMonitor) : SafetyMonitor := {|
  limits := limits m; joint_lower := joint_lower m; joint_upper := joint_upper m; collision := collision m;
  prev_target := prev_target m; prev_leader_t := prev_leader_t m; track_since := track_since m; last_feedback_t := t;
  tick := tick m; last_distance := last_distance m; seen_feedback := true |}.
Definition with_since (t : option float) (m : SafetyMonitor) : SafetyMonitor := {|
  limits := limits m; joint_lower := joint_lower m; joint_upper := joint_upper m; collision := collision m;
  prev_target := prev_target m; prev_leader_t := prev_leader_t m; track_since := t; last_feedback_t := last_feedback_t m;
  tick := tick m; last_distance := last_distance m; seen_feedback := seen_feedback m |}.

Definition check_leader (m : SafetyMonitor) (leader : vec) (now : float) : SafetyMonitor * SafetyVerdict :=
  if (length leader =? 0) || negb (all_finite leader) then (m, stop "leader data illegal")
  else if (prev_leader_t m >f f0) && ((now -f prev_leader_t m) >f leader_timeout_s (limits m)) then (m, stop "leader stream lost")
  else (with_leader_t now m, pass f1).

(** The limits with their margin, and the two per-joint masks. *)
Definition low (m : SafetyMonitor) : vec := map (fun l => l +f joint_margin_rad (limits m)) (joint_lower m).
Definition high (m : SafetyMonitor) : vec := map (fun h => h -f joint_margin_rad (limits m)) (joint_upper m).
Definition off_limits (m : SafetyMonitor) (t : vec) : bool :=
  existsb (fun x => x) (zip_with (fun x lh => (x <f lh.1) || (x >f lh.2)) t (zip (low m) (high m))).
Definition jumps (m : SafetyMonitor) (p t : vec) : bool :=
  existsb (fun d => d >f max_step_rad (limits m)) (zip_with (fun a b => fabs (a -f b)) t p).

Definition check_and_clamp_target (m : SafetyMonitor) (target : vec) : SafetyMonitor * result (SafetyVerdict * vec) :=
  if negb (length target =? n_joints m) || negb (all_finite target) then (m, Ok (stop "illegal target", target))
  else if off_limits m target then (m, Ok (stop "joint out of limits", target))
  else if match prev_target m with Some p => jumps m p target | None => false end then (m, Ok (stop "target jump", target))
  else
    let k := (tick m + 1)%Z in
    match (if (k mod collision_every_n (limits m) =? 0)%Z then min_distance (collision m) target else Ok (last_distance m)) with
    | Err e => (with_tick k (last_distance m) m, Err e)
    | Ok d =>
        let m := with_tick k d m in
        if d <=f collision_stop_m (limits m) then (m, Ok (stop "collision danger", target))
        else
          let scale := if d <=f collision_warn_m (limits m) then collision_slow_scale (limits m) else f1 in
          (with_target target m, Ok (pass scale, target))
    end.

(** [np.max] of a non-empty array (the lengths are checked before its uses). *)
Definition peak (v : vec) : float := match vec_max v with Ok x => x | Err _ => fnan end.
Definition track_error (p q : vec) : float := peak (zip_with (fun a b => fabs (a -f b)) p q).

Definition check_tracking (m : SafetyMonitor) (q : vec) (now : float) : SafetyMonitor * SafetyVerdict :=
  match prev_target m with
  | None => (m, pass f1)
  | Some p =>
      if track_error p q >f track_err_rad (limits m) then
        match track_since m with
        | None => (with_since (Some now) m, pass f1)
        | Some t => if (now -f t) >f track_err_hold_s (limits m) then (m, stop "tracking error") else (m, pass f1)
        end
      else (with_since None m, pass f1)
  end.

Definition check_feedback (m : SafetyMonitor) (sample : option FeedbackSample) (now : float) : SafetyMonitor * SafetyVerdict :=
  match sample with
  | None =>
      (m, if feedback_required (limits m) then
            if negb (seen_feedback m) then stop "no feedback received"
            else if (now -f last_feedback_t m) >f feedback_timeout_s (limits m) then stop "feedback stale"
            else pass f1
          else pass f1)
  | Some s =>
      let t := if timestamp s =f f0 then now else timestamp s in
      let m := with_feedback t m in
      if (now -f t) >f feedback_timeout_s (limits m) then (m, stop "feedback stale")
      else if negb (length (arm_q s) =? n_joints m) || negb (all_finite (arm_q s)) then (m, stop "feedback illegal")
      else if fault s then (m, stop "controller fault")
      else if bool_decide (fb_armed s = Some false) then (m, stop "arm disarmed")
      else if match arm_dq s with
              | Some dq => (length dq =? n_joints m) && all_finite (np_abs dq) && (peak (np_abs dq) >f track_vel_rad_s (limits m))
              | None => false
              end then (m, stop "velocity abnormal")
      else check_tracking m (arm_q s) now
  end.
End Monitor.
Arguments SafetyMonitor : clear implicits.

(** ** Properties of the guards *)

Module SphereFacts.
Import SphereGuard.
Section Facts.
Context (norm : vec -> float) (big_fk small_fk : vec -> result poses).

Lemma py_min_le a b : fleb (py_min a b) a = true \/ isnan a = true.
Proof.
  unfold py_min. destruct (isnan a) eqn:E; [by right|left]. destruct (fltb b a) eqn:L; auto.
Qed.
Lemma py_min_not_nan a b : isnan a = false -> isnan (py_min a b) = false.
Proof. intros Ha. unfold py_min. destruct (fltb b a) eqn:L; [|done]. by apply fltb_nan in L as [? _]. Qed.
Lemma py_min_le_r a b : isnan a = false -> isnan b = false -> fleb (py_min a b) b = true.
Proof. intros Ha Hb. unfold py_min. destruct (fltb b a) eqn:L; [auto|by apply fltb_false]. Qed.

Lemma scan_small_le ps b cb l best d :
  scan_small norm ps b cb l best = Ok d -> isnan best = false ->
  isnan d = false /\ fleb d best = true /\
  forall s cs g, s ∈ l -> center s ps = Ok cs -> gap norm cb cs b s = Ok g -> isnan g = false -> fleb d g = true.
Proof.
  revert best. induction l as [|s l IH]; intros best H Hb; simpl in H.
  { injection H as <-. split; [done|]. split; [auto|]. intros s cs g Hs. by apply elem_of_nil in Hs. }
  inv_chain H. destruct (IH _ H) as (H1 & H2 & H3); [by apply py_min_not_nan|].
  assert (fleb d best = true) as Hd.
  { destruct (py_min_le best a0) as [Hm|Hm]; [by eapply fleb_trans|congruence]. }
  split; [done|]. split; [done|].
  intros s' cs g Hs Hc Hg Hn. apply elem_of_cons in Hs as [-> |Hs]; [|by eapply H3].
  assert (a = cs) as <- by congruence. assert (a0 = g) as <- by congruence.
  eapply fleb_trans; [exact H2|by apply py_min_le_r].
Qed.

Lemma scan_big_le bp sp small l best d :
  scan_big norm bp sp small l best = Ok d -> isnan best = false ->
  isnan d = false /\ fleb d best = true /\
  forall b s cb cs g, b ∈ l -> s ∈ small -> center b bp = Ok cb -> center s sp = Ok cs ->
    gap norm cb cs b s = Ok g -> isnan g = false -> fleb d g = true.
Proof.
  revert best. induction l as [|b l IH]; intros best H Hb; simpl in H.
  { injection H as <-. split; [done|]. split; [auto|]. intros b s cb cs g Hs. by apply elem_of_nil in Hs. }
  inv_chain H. destruct (scan_small_le _ _ _ _ _ _ Heqr0 Hb) as (S1 & S2 & S3).
  destruct (IH _ H S1) as (H1 & H2 & H3).
  split; [done|]. split; [by eapply fleb_trans|].
  intros b' s cb cs g Hin Hs Hcb Hcs Hg Hn. apply elem_of_cons in Hin as [-> |Hin]; [|by eapply H3].
  assert (a = cb) as <- by congruence. eapply fleb_trans; [exact H2|by eapply S3].
Qed.

(** The sphere guard's distance is a lower bound of the clearance of every
    pair of a follower and a leader sphere (with no leader state yet, it is
    [inf]: unknown). *)
Theorem sphere_distance_lower_bound g q bp sp d b s cb cs gp :
  small_poses g = Some sp -> big_fk q = Ok bp -> distance norm big_fk g q = Ok d ->
  b ∈ big_spheres g -> s ∈ small_spheres g -> center b bp = Ok cb -> center s sp = Ok cs ->
  gap norm cb cs b s = Ok gp -> isnan gp = false -> fleb d gp = true.
Proof.
  intros Hp Hq Hd Hb Hs Hcb Hcs Hg Hn. unfold distance in Hd. rewrite Hp, Hq in Hd. simpl in Hd.
  destruct (scan_big_le _ _ _ _ _ _ Hd eq_refl) as (_ & _ & Hall). by eapply Hall.
Qed.

(** A sphere's centre depends on the frame's translation only: its offset is
    added unrotated, whatever the frame's rotation. *)
Theorem center_ignores_rotation s ps ps' p p' R R' t :
  ps !! frame s = Some p -> ps' !! frame s = Some p' ->
  as_rt p = Ok (R, t) -> as_rt p' = Ok (R', t) -> center s ps = center s ps'.
Proof. unfold center. by intros -> -> -> ->. Qed.
End Facts.
End SphereFacts.

(** ** Properties of the monitor *)

Section MonitorFacts.
Context {G : Type} `{CollisionGuard G}.

(** The calls a loop makes on the monitor. *)
Inductive mcall := Leader (x : vec) (now : float) | Other (g : G) | Target (x : vec) | Feedback (s : option FeedbackSample) (now : float).
Definition mstep (m : SafetyMonitor G) (c : mcall) : SafetyMonitor G :=
  match c with
  | Leader x now => (check_leader m x now).1
  | Other g => with_collision g m
  | Target x => (check_and_clamp_target m x).1
  | Feedback s now => (check_feedback m s now).1
  end.

(** A target inside the limits less their margin. *)
Definition in_limits (l : SafetyLimits) (lo hi x : vec) : Prop :=
  forall i a b v, lo !! i = Some a -> hi !! i = Some b -> x !! i = Some v ->
    fleb (a +f joint_margin_rad l) v = true /\ fleb v (b -f joint_margin_rad l) = true.
Definition close_to (l : SafetyLimits) (x p : vec) : Prop :=
  forall i a b, x !! i = Some a -> p !! i = Some b -> fleb (fabs (a -f b)) (max_step_rad l) = true.

Record mon_inv (l : SafetyLimits) (lo hi : vec) (m : SafetyMonitor G) : Prop := {
  mi_limits : limits m = l;
  mi_lower : joint_lower m = lo;
  mi_upper : joint_upper m = hi;
  mi_prev p : prev_target m = Some p -> length p = length lo /\ all_finite p = true /\ in_limits l lo hi p;
}.

Definition lims_ok (l : SafetyLimits) (lo hi : vec) : Prop :=
  SafetyLimits_new l = Ok l /\ isfinite (joint_margin_rad l) = true /\
  length lo = length hi /\ forallb (fun p => p.1 <=f p.2) (zip lo hi) = true.

Lemma bounds_not_nan l lo hi i a b : lims_ok l lo hi -> lo !! i = Some a -> hi !! i = Some b ->
  isnan (a +f joint_margin_rad l) = false /\ isnan (b -f joint_margin_rad l) = false.
Proof.
  intros (_ & Hm & _ & Hle) Ha Hb. rewrite forallb_Forall in Hle.
  assert (zip lo hi !! i = Some (a, b)) as Hz by (by rewrite lookup_zip_with, Ha, Hb).
  pose proof (Forall_lookup_1 (fun p : float * float => (p.1 <=f p.2) = true) _ _ _ Hle Hz) as Hab.
  apply fleb_nan in Hab as [Na Nb]. split; [by apply fadd_nan|by apply fsub_nan].
Qed.

Lemma off_limits_false l lo hi m x : lims_ok l lo hi -> mon_inv l lo hi m -> all_finite x = true ->
  off_limits m x = false -> in_limits l lo hi x.
Proof.
  intros Hl [E1 E2 E3 _] Hx Ho i a b v Ha Hb Hv. unfold off_limits, low, high in Ho. rewrite E1, E2, E3 in Ho.
  apply existsb_false_Forall in Ho.
  assert (zip_with (fun x lh => (x <f lh.1) || (x >f lh.2)) x
      (zip (map (fun l0 => l0 +f joint_margin_rad l) lo) (map (fun h => h -f joint_margin_rad l) hi)) !! i =
    Some ((v <f a +f joint_margin_rad l) || (v >f b -f joint_margin_rad l))) as Hz.
  { rewrite lookup_zip_with, Hv. simpl. rewrite lookup_zip_with, !list_lookup_fmap, Ha, Hb. done. }
  pose proof (Forall_lookup_1 _ _ _ _ Ho Hz) as Hf. simpl in Hf. apply orb_false_iff in Hf as [F1 F2].
  destruct (bounds_not_nan l lo hi i a b Hl Ha Hb) as [N1 N2].
  pose proof (finite_not_nan v (all_finite_lookup x i v Hx Hv)) as Nv.
  split; by apply fltb_false.
Qed.

Lemma jumps_false l lo hi m x p : lims_ok l lo hi -> mon_inv l lo hi m -> all_finite x = true -> all_finite p = true ->
  jumps m p x = false -> close_to l x p.
Proof.
  intros (Hl & _) [E1 _ _ _] Hx Hp Hj i a b Ha Hb. unfold jumps in Hj. rewrite E1 in Hj.
  apply existsb_false_Forall in Hj.
  assert (zip_with (fun a b => fabs (a -f b)) x p !! i = Some (fabs (a -f b))) as Hz by (by rewrite lookup_zip_with, Ha, Hb).
  pose proof (Forall_lookup_1 _ _ _ _ Hj Hz) as Hf. simpl in Hf. apply fltb_false; [|..|done].
  - unfold SafetyLimits_new in Hl. pass_guard Hl E0. pass_guard Hl E2. apply existsb_false_Forall in E2.
    inversion E2 as [|? ? E4 _]; subst. apply negb_false_iff in E4. by apply fltb_nan in E4 as [_ ?].
  - rewrite fabs_nan. apply fsub_nan; eauto using all_finite_lookup.
Qed.

(** What an accepted target satisfies. *)
Definition admitted (l : SafetyLimits) (lo hi : vec) (m m' : SafetyMonitor G) (v : SafetyVerdict) (x : vec) : Prop :=
  length x = length lo /\ all_finite x = true /\ in_limits l lo hi x /\
  (forall p, prev_target m = Some p -> close_to l x p) /\
  prev_target m' = Some x /\
  fleb (last_distance m') (collision_stop_m l) = false /\
  speed_scale v = (if last_distance m' <=f collision_warn_m l then collision_slow_scale l else f1).

Lemma target_step l lo hi m x : lims_ok l lo hi -> mon_inv l lo hi m ->
  mon_inv l lo hi (check_and_clamp_target m x).1 /\
  forall v out, (check_and_clamp_target m x).2 = Ok (v, out) ->
    out = x /\ (ok v = true -> admitted l lo hi m (check_and_clamp_target m x).1 v x) /\
    (ok v = false -> prev_target (check_and_clamp_target m x).1 = prev_target m).
Proof.
  intros Hl Hm. unfold check_and_clamp_target. pose proof Hm as [E1 E2 E3 E4].
  destruct (negb _ || negb _) eqn:G1.
  { split; [done|]. intros v out [= <- <-]. by split. }
  apply orb_false_iff in G1 as [G1 G2]. apply negb_false_iff in G1, G2. apply Nat.eqb_eq in G1.
  unfold n_joints in G1. rewrite E2 in G1.
  destruct (off_limits m x) eqn:G3.
  { split; [done|]. intros v out [= <- <-]. by split. }
  pose proof (off_limits_false l lo hi m x Hl Hm G2 G3) as Hin.
  destruct (match prev_target m with Some p => jumps m p x | None => false end) eqn:G4.
  { split; [done|]. intros v out [= <- <-]. by split. }
  assert (forall p, prev_target m = Some p -> close_to l x p) as Hstep.
  { intros p Hp. rewrite Hp in G4. destruct (E4 p Hp) as (_ & Fp & _). by eapply jumps_false. }
  rewrite E1. destruct (if (_ =? 0)%Z then _ else _) as [d|e].
  2: { split; [by split|done]. }
  cbn [limits with_tick]. rewrite E1. destruct (d <=f collision_stop_m l) eqn:G5.
  { split; [by split|]. intros v out [= <- <-]. by split. }
  split.
  { split; try done. cbn [prev_target with_target]. by intros p [= <-]. }
  intros v out [= <- <-]. split; [done|]. split; [|done]. intros _. unfold admitted. by split_and!.
Qed.

Lemma leader_keeps (m : SafetyMonitor G) x now : prev_target (check_leader m x now).1 = prev_target m /\ limits (check_leader m x now).1 = limits m /\
  joint_lower (check_leader m x now).1 = joint_lower m /\ joint_upper (check_leader m x now).1 = joint_upper m /\
  track_since (check_leader m x now).1 = track_since m.
Proof. unfold check_leader. repeat case_goal; done. Qed.
Lemma feedback_keeps (m : SafetyMonitor G) s now : prev_target (check_feedback m s now).1 = prev_target m /\ limits (check_feedback m s now).1 = limits m /\
  joint_lower (check_feedback m s now).1 = joint_lower m /\ joint_upper (check_feedback m s now).1 = joint_upper m.
Proof.
  unfold check_feedback, check_tracking. destruct s as [s|]; [|done].
  repeat (case_goal; try done).
Qed.

Lemma mstep_inv l lo hi m c : lims_ok l lo hi -> mon_inv l lo hi m -> mon_inv l lo hi (mstep m c).
Proof.
  intros Hl Hm. destruct c as [x now|g|x|s now]; cbn [mstep].
  - destruct (leader_keeps m x now) as (P1 & P2 & P3 & P4 & _). destruct Hm as [E1 E2 E3 E4]. split; try congruence.
    rewrite P1. done.
  - by destruct Hm.
  - by apply target_step.
  - destruct (feedback_keeps m s now) as (P1 & P2 & P3 & P4). destruct Hm as [E1 E2 E3 E4]. split; try congruence.
    rewrite P1. done.
Qed.

Lemma monitor_new_inv l lo hi g m : SafetyMonitor_new l lo hi g = Ok m ->
  length lo = length hi /\ forallb (fun p => p.1 <=f p.2) (zip lo hi) = true /\ mon_inv l lo hi m.
Proof.
  intros Hn. unfold SafetyMonitor_new in Hn. inv_ok Hn. breflect. split; [done|]. split; [done|]. by split.
Qed.

(** After any history of calls, a target the monitor accepts is the target
    given, one finite value per joint, inside every joint limit less the
    margin, no joint further than the step limit from the last accepted
    target; the last known clearance is not at or below the stop distance, and
    the speed scale is the slow one exactly in the warning zone. *)
Theorem target_admitted l lo hi g m0 past x v out :
  SafetyLimits_new l = Ok l -> isfinite (joint_margin_rad l) = true -> SafetyMonitor_new l lo hi g = Ok m0 ->
  let m := run_steps mstep m0 past in
  (check_and_clamp_target m x).2 = Ok (v, out) -> ok v = true ->
  out = x /\ admitted l lo hi m (check_and_clamp_target m x).1 v x.
Proof.
  intros Hl Hf Hn m Hc Hv. destruct (monitor_new_inv l lo hi g m0 Hn) as (Hlen & Hle & Hm0).
  assert (lims_ok l lo hi) as Hok by done.
  assert (mon_inv l lo hi m) as Hm by (apply (run_steps_inv mstep); [intros; by apply mstep_inv|done]).
  destruct (target_step l lo hi m x Hok Hm) as [_ Ht]. destruct (Ht v out Hc) as (E & Ha & _). auto.
Qed.

(** A sample whose position is further than the threshold from the last
    accepted target. *)
Definition over (m : SafetyMonitor G) (s : FeedbackSample) : Prop :=
  exists p, prev_target m = Some p /\ fltb (track_err_rad (limits m)) (track_error p (arm_q s)) = true.
(** Every sample of a history is such a sample, and none stopped the arm. *)
Fixpoint stays_over (m : SafetyMonitor G) (l : list mcall) : Prop :=
  match l with
  | [] => True
  | c :: l =>
      match c with
      | Feedback (Some s) now => over m s /\ ok (check_feedback m (Some s) now).2 = true
      | _ => True
      end /\ stays_over (mstep m c) l
  end.

(** What a passing sample was checked for. *)
Definition healthy (l : SafetyLimits) (n : nat) (s : FeedbackSample) (now : float) : Prop :=
  fltb (feedback_timeout_s l) (now -f (if timestamp s =f f0 then now else timestamp s)) = false /\
  length (arm_q s) = n /\ all_finite (arm_q s) = true /\ fault s = false /\ fb_armed s <> Some false /\
  (forall dq, arm_dq s = Some dq -> length dq = n -> all_finite (np_abs dq) = true ->
     fltb (track_vel_rad_s l) (peak (np_abs dq)) = false).

Lemma feedback_ok (m : SafetyMonitor G) s now : ok (check_feedback m (Some s) now).2 = true ->
  healthy (limits m) (n_joints m) s now /\
  check_feedback m (Some s) now = check_tracking (with_feedback (if timestamp s =f f0 then now else timestamp s) m) (arm_q s) now.
Proof.
  unfold check_feedback, healthy. cbv zeta. cbn [limits with_feedback]. change (n_joints (with_feedback _ m)) with (n_joints m).
  destruct (feedback_timeout_s (limits m) <f _) eqn:E1; [done|].
  destruct (negb _ || negb _) eqn:E2; [done|]. apply orb_false_iff in E2 as [E2 E3]. apply negb_false_iff in E2, E3.
  apply Nat.eqb_eq in E2. destruct (fault s) eqn:E4; [done|].
  destruct (bool_decide (fb_armed s = Some false)) eqn:E5; [done|]. apply bool_decide_eq_false in E5.
  destruct (match arm_dq s with Some _ => _ | None => _ end) eqn:E6; [done|].
  intros _. split; [|done]. split_and!; try done.
  intros dq Hdq Hn Hf. rewrite Hdq, Hn, Nat.eqb_refl, Hf in E6. done.
Qed.

Lemma feedback_over m s now : over m s -> ok (check_feedback m (Some s) now).2 = true ->
  track_since (check_feedback m (Some s) now).1 = Some (default now (track_since m)) /\
  (forall t, track_since m = Some t -> fltb (track_err_hold_s (limits m)) (now -f t) = false).
Proof.
  intros (p & Hp & He) Hok. destruct (feedback_ok m s now Hok) as [_ E]. rewrite E in Hok |- *. clear E.
  unfold check_tracking in *. cbn [prev_target with_feedback limits track_since] in *. rewrite Hp, He in *.
  destruct (track_since m) as [t|] eqn:Et; cbn [default]; [|done].
  destruct (track_err_hold_s (limits m) <f now -f t) eqn:Eh; [done|]. cbn [fst with_feedback track_since].
  split; [done|]. by intros t' [= <-].
Qed.

Lemma mstep_limits m c : limits (mstep m c) = limits m.
Proof.
  destruct c as [x now|g|x|s now]; cbn [mstep]; [apply leader_keeps|done| |apply feedback_keeps].
  unfold check_and_clamp_target. repeat (case_goal; try done).
Qed.
Lemma target_since (m : SafetyMonitor G) x : track_since (check_and_clamp_target m x).1 = track_since m.
Proof. unfold check_and_clamp_target. repeat (case_goal; try done). Qed.

Lemma stays_over_since m l t : stays_over m l -> track_since m = Some t -> track_since (run_steps mstep m l) = Some t.
Proof.
  revert m. induction l as [|c l IH]; intros m; [done|]. intros [Hc Hl] Ht. apply IH; [done|].
  destruct c as [x now|g|x|[s|] now]; cbn [mstep].
  - by rewrite (proj2 (proj2 (proj2 (proj2 (leader_keeps m x now))))).
  - done.
  - by rewrite target_since.
  - destruct Hc as [Ho Hok]. destruct (feedback_over m s now Ho Hok) as [-> _]. by rewrite Ht.
  - done.
Qed.
Lemma run_limits m l : limits (run_steps mstep m l) = limits m.
Proof. revert m. induction l as [|c l IH]; intros m; [done|]. change (run_steps mstep m (c :: l)) with (run_steps mstep (mstep m c) l).
  rewrite IH. apply mstep_limits. Qed.

(** A tracking error is never tolerated for longer than the hold time:
    if every sample from [t0] to [t1] is over the threshold and none stopped
    the arm, whatever targets, leader states and missing samples lie between,
    then [t1 - t0] is not above the hold time. *)
Theorem tracking_error_bounded m s0 t0 l s1 t1 :
  track_since m = None ->
  stays_over m (Feedback (Some s0) t0 :: l ++ [Feedback (Some s1) t1]) ->
  fltb (track_err_hold_s (limits m)) (t1 -f t0) = false.
Proof.
  intros Hm [[Ho Hok] Hl]. destruct (feedback_over m s0 t0 Ho Hok) as [Hs _]. rewrite Hm in Hs. simpl in Hs.
  set (m1 := mstep m (Feedback (Some s0) t0)) in *.
  assert (stays_over m1 l /\ stays_over (run_steps mstep m1 l) [Feedback (Some s1) t1]) as [H1 [[Ho2 Hok2] _]].
  { clear -Hl. revert Hl. generalize m1. induction l as [|c l IH]; intros m2 Hl; [done|].
    destruct Hl as [Hc Hl]. destruct (IH _ Hl) as [I1 I2]. by split. }
  pose proof (stays_over_since m1 l t0 H1 Hs) as Ht. destruct (feedback_over _ s1 t1 Ho2 Hok2) as [_ Hh].
  specialize (Hh t0 Ht). rewrite run_limits in Hh. unfold m1 in Hh. by rewrite mstep_limits in Hh.
Qed.

(** The feedback gate fails closed: it passes without a sample only when
    feedback is optional or the last one is recent enough, and passes a
    sample only when it is fresh, complete and finite, and reports neither a
    fault, nor a disarmed arm, nor (when a usable velocity is given) an
    excessive joint speed. *)
Theorem feedback_fails_closed (m : SafetyMonitor G) sample now :
  ok (check_feedback m sample now).2 = true ->
  match sample with
  | None => feedback_required (limits m) = true ->
      seen_feedback m = true /\ fltb (feedback_timeout_s (limits m)) (now -f last_feedback_t m) = false
  | Some s => healthy (limits m) (n_joints m) s now
  end.
Proof.
  destruct sample as [s|]; [intros Hok; by apply feedback_ok|].
  unfold check_feedback. cbn [snd]. intros Hok Hr. rewrite Hr in Hok.
  destruct (seen_feedback m); [|done]. cbn [negb] in Hok. split; [done|].
  by destruct (feedback_timeout_s (limits m) <f _).
Qed.

(** A distance the guard cannot compute (NaN) passes the collision gate at
    full speed. *)
Theorem nan_distance_passes (m : SafetyMonitor G) x d v out :
  ((tick m + 1) mod collision_every_n (limits m) = 0)%Z -> min_distance (collision m) x = Ok d -> isnan d = true ->
  off_limits m x = false -> length x = n_joints m -> all_finite x = true -> (forall p, prev_target m = Some p -> jumps m p x = false) ->
  (check_and_clamp_target m x).2 = Ok (v, out) -> ok v = true /\ speed_scale v = f1.
Proof.
  intros Hk Hd Hn Ho Hl Hf Hp. unfold check_and_clamp_target. rewrite Hl, Nat.eqb_refl, Hf, Ho. cbn [negb orb].
  assert (match prev_target m with Some p => jumps m p x | None => false end = false) as ->.
  { destruct (prev_target m); auto. }
  rewrite Hk, Z.eqb_refl, Hd. destruct d; try done. unfold fleb, SFleb. cbn [SFcompare]. by intros [= <- <-].
Qed.
End MonitorFacts.

(** ** A one-joint arm *)

Module SafetyDemo.
Definition limits0 : SafetyLimits := {|
  joint_margin_rad := f0; max_step_rad := f2; max_target_vel_rad_s := f2; gripper_max_step_m := f1;
  feedback_required := true; feedback_timeout_s := f1; track_err_rad := f1; track_err_hold_s := f1; track_vel_rad_s := f2;
  leader_timeout_s := f1; collision_stop_m := f0; collision_warn_m := f1; collision_every_n := 1; collision_slow_scale := f0 |}.
Definition start {G} (g : G) : SafetyMonitor G := {|
  limits := limits0; joint_lower := [fopp f2]; joint_upper := [f2]; collision := g; prev_target := None;
  prev_leader_t := f0; track_since := None; last_feedback_t := f0; tick := 0; last_distance := finf; seen_feedback := false |}.
Definition at_zero : SafetyMonitor NoCollisionGuard := mstep (start no_guard) (Target [f0]).
Definition sample (q : float) : FeedbackSample := {|
  arm_q := [q]; arm_dq := None; gripper_width_m := None; timestamp := f0; fault := false; fault_reason := "";
  fb_armed := Some true |}.

Example target_admitted_witness : admitted limits0 [fopp f2] [f2] at_zero (check_and_clamp_target at_zero [f1]).1 (pass f1) [f1].
Proof.
  apply (target_admitted limits0 [fopp f2] [f2] no_guard (start no_guard) [Target [f0]] [f1] (pass f1) [f1]); vm_compute; reflexivity.
Defined.

Example tracking_error_bounded_witness :
  stays_over at_zero [Feedback (Some (sample f2)) f1; Target [f0]; Feedback (Some (sample f2)) f2] /\
  fltb (track_err_hold_s limits0) (f2 -f f1) = false.
Proof.
  assert (stays_over at_zero [Feedback (Some (sample f2)) f1; Target [f0]; Feedback (Some (sample f2)) f2]) as Hs.
  { cbn [stays_over]. split_and!; try exact I; try (vm_compute; reflexivity); exists [f0]; split; vm_compute; reflexivity. }
  split; [exact Hs|]. exact (tracking_error_bounded at_zero (sample f2) f1 [Target [f0]] (sample f2) f2 eq_refl Hs).
Defined.

Example feedback_fails_closed_witness : healthy limits0 1 (sample f0) f1.
Proof. apply (feedback_fails_closed at_zero (Some (sample f0)) f1). vm_compute. reflexivity. Defined.

Definition nan_guard : CollisionGuard NoCollisionGuard :=
  {| set_other_state g _ := Ok g; min_distance _ _ := Ok fnan |}.
Example nan_distance_passes_witness : ok (pass f1) = true /\ speed_scale (pass f1) = f1.
Proof.
  apply (@nan_distance_passes _ nan_guard (start no_guard) [f0] fnan (pass f1) [f0]); try (vm_compute; reflexivity).
  intros p Hp. discriminate Hp.
Defined.

Import SphereGuard.
Definition norm3 (v : vec) : float := fsqrt (fold_left (fun a x => a +f x *f x) v f0).
Definition ball : Sphere := {| frame := "tool"; offset := [f1; f0; f0]; radius := f1 |}.
Definition at_x (x : float) : poses := {[ "tool" := Point [x; f0; f0] ]}.
Definition balls : t := {| big_spheres := [ball]; small_spheres := [ball]; small_poses := Some (at_x f0) |}.
Definition fk (q : vec) : result poses := Ok (at_x (fget q 0)).
Definition f4 : float := f2 +f f2.

Example sphere_distance_lower_bound_witness : distance norm3 fk balls [f4] = Ok f2 /\ fleb f2 f2 = true.
Proof.
  split; [vm_compute; reflexivity|].
  apply (SphereFacts.sphere_distance_lower_bound norm3 fk balls [f4] (at_x f4) (at_x f0) f2 ball ball
    [f4 +f f1; f0; f0] [f1; f0; f0] f2); try (vm_compute; reflexivity); by apply list_elem_of_singleton.
Defined.

Definition turned : mat := [[f0; fopp f1; f0; f0]; [f1; f0; f0; f0]; [f0; f0; f1; f0]; [f0; f0; f0; f1]].
Definition straight : mat := [[f1; f0; f0; f0]; [f0; f1; f0; f0]; [f0; f0; f1; f0]; [f0; f0; f0; f1]].
Example center_ignores_rotation_witness :
  center ball {[ "tool" := Mat turned ]} = center ball {[ "tool" := Mat straight ]}.
Proof.
  eapply (SphereFacts.center_ignores_rotation ball _ _ (Mat turned) (Mat straight)); vm_compute; reflexivity.
Defined.
End SafetyDemo.
