(* ===== verification/Mapping.v ===== *)
(** From leader joints to follower targets ([leader_follower/mapping.py]): the
    per-joint affine map, the gripper map, and the [Retargeter] with its
    alignment, smoothing, soft start, rate limit and joint limits.

    [prev] and [start] pair the arm and gripper values that the code keeps in
    two fields and always sets together.  A method that raises (an index or a
    shape that does not fit) returns the exception alone: it leaves the loop,
    which does not use the retargeter again. *)
From Stdlib Require Import SpecFloat PrimFloat FloatOps.
From S2P Require Import Prelude Floats Motion.

(** [a[i]] of a 1-D array: negative indices count from the end. *)
Definition np_index (v : vec) (i : Z) : result float :=
  let k := if (i <? 0)%Z then (i + Z.of_nat (length v))%Z else i in
  if (k <? 0)%Z then Err IndexError else match v !! Z.to_nat k with Some x => Ok x | None => Err IndexError end.

Record JointMapping := {
  src_index : Z; sign : float; offset : float; scale : float; lower : float; upper : float; max_rate : float }.
Definition apply_joint (j : JointMapping) (leader : vec) (extra : float) : result float :=
  raw <-- np_index leader (src_index j) ;; Ok (offset j +f extra +f scale j *f sign j *f raw).
Definition clamp (j : JointMapping) (v : float) : float := clip v (lower j) (upper j).

Record GripperMapping := { g_src_index : Z; open_finger_m : float; closed_finger_m : float; max_rate_m_s : float }.
Definition apply_gripper (g : GripperMapping) (leader : vec) : result float :=
  raw <-- np_index leader (g_src_index g) ;;
  let x := clip raw f0 f1 in
  let w := closed_finger_m g +f x *f (open_finger_m g -f closed_finger_m g) in
  Ok (clip w (py_min (open_finger_m g) (closed_finger_m g)) (py_max (open_finger_m g) (closed_finger_m g))).

Record Retargeter := {
  joints : list JointMapping;
  gripper : option GripperMapping;
  alpha : float;
  ramp_s : float;
  hold_last_on_stale : bool;
  align : option vec;
  prev : option (vec * float);
  start : option (vec * float);
  ramp_elapsed : float;
  last_t : option float;
  last_ok : option (vec * float);
}.
Definition n_out (r : Retargeter) : nat := length (joints r).

Definition Retargeter_new (js : list JointMapping) (g : option GripperMapping) (a ramp : float) (hold : bool) : result Retargeter :=
  raise_if length js =? 0 of ValueError "Retargeter needs at least one joint mapping" ;;
  Ok {| joints := js; gripper := g; alpha := a; ramp_s := ramp; hold_last_on_stale := hold; align := None; prev := None;
        start := None; ramp_elapsed := f0; last_t := None; last_ok := None |}.

Definition auto_align (r : Retargeter) (leader follower : vec) : result Retargeter :=
  raise_if negb (length follower =? n_out r) of ValueError "follower state has the wrong length" ;;
  offsets <-- rmap (fun p => x <-- apply_joint p.2 leader f0 ;; Ok (p.1 -f x)) (zip follower (joints r)) ;;
  Ok {| joints := joints r; gripper := gripper r; alpha := alpha r; ramp_s := ramp_s r;
        hold_last_on_stale := hold_last_on_stale r; align := Some offsets; prev := prev r; start := start r;
        ramp_elapsed := ramp_elapsed r; last_t := last_t r; last_ok := last_ok r |}.

Definition reset (r : Retargeter) (follower : vec) (finger : float) : Retargeter := {|
  joints := joints r; gripper := gripper r; alpha := alpha r; ramp_s := ramp_s r;
  hold_last_on_stale := hold_last_on_stale r; align := align r; prev := Some (follower, finger);
  start := Some (follower, finger); ramp_elapsed := f0; last_t := None; last_ok := last_ok r |}.

Definition with_prev (p : option (vec * float)) (r : Retargeter) : Retargeter := {|
  joints := joints r; gripper := gripper r; alpha := alpha r; ramp_s := ramp_s r;
  hold_last_on_stale := hold_last_on_stale r; align := align r; prev := p; start := start r;
  ramp_elapsed := ramp_elapsed r; last_t := last_t r; last_ok := last_ok r |}.

Definition f1e_9 : float := Eval vm_compute in Prim2SF 1e-9%float.

(** The stages of [map]. *)
Definition time_step (r : Retargeter) (now : float) : float :=
  match last_t r with None => f0 | Some t => py_max (now -f t) f0 end.

Definition smooth (r : Retargeter) (x : vec * float) : result (vec * float) :=
  match prev r with
  | Some (p, pg) =>
      if alpha r <f f1 then
        d <-- bcast fadd (map (fun a => a *f (f1 -f alpha r)) p) (map (fun a => a *f alpha r) x.1) ;;
        Ok (d, match gripper r with Some _ => pg *f (f1 -f alpha r) +f x.2 *f alpha r | None => x.2 end)
      else Ok x
  | None => Ok x
  end.

Definition soft_start (r : Retargeter) (elapsed : float) (x : vec * float) : result (vec * float) :=
  match start r with
  | Some (s, sg) =>
      if ramp_s r >f f0 then
        let blend := py_min (elapsed /f ramp_s r) f1 in
        diff <-- bcast fsub x.1 s ;;
        d <-- bcast fadd s (map (fun a => blend *f a) diff) ;;
        Ok (d, match gripper r with Some _ => sg +f blend *f (x.2 -f sg) | None => x.2 end)
      else Ok x
  | None => Ok x
  end.
Definition elapsed_after (r : Retargeter) (dt : float) : float :=
  match start r with Some _ => if ramp_s r >f f0 then ramp_elapsed r +f dt else ramp_elapsed r | None => ramp_elapsed r end.

Fixpoint limit_rates (js : list JointMapping) (i : nat) (p : vec) (dt : float) (d : vec) : result vec :=
  match js with
  | [] => Ok d
  | j :: js =>
      if isfinite (max_rate j) then
        let step := max_rate j *f dt in
        match d !! i, p !! i with
        | Some x, Some q => limit_rates js (S i) p dt (<[i := clip x (q -f step) (q +f step)]> d)
        | _, _ => Err IndexError
        end
      else limit_rates js (S i) p dt d
  end.
Definition limit_grip (g : option GripperMapping) (pg dt x : float) : float :=
  match g with
  | Some g => if isfinite (max_rate_m_s g) then let step := max_rate_m_s g *f dt in clip x (pg -f step) (pg +f step) else x
  | None => x
  end.
Definition limit (r : Retargeter) (dt : float) (x : vec * float) : result (vec * float) :=
  match prev r with
  | Some (p, pg) => if dt >f f1e_9 then d <-- limit_rates (joints r) 0 p dt x.1 ;; Ok (d, limit_grip (gripper r) pg dt x.2) else Ok x
  | None => Ok x
  end.

Definition map_frame (r : Retargeter) (leader : vec) (now : float) : result (Retargeter * option (vec * float)) :=
  if negb (all_finite leader) then Ok (r, if hold_last_on_stale r then last_ok r else None)
  else
    let al := default (replicate (n_out r) f0) (align r) in
    desired <-- rmap (fun p => apply_joint p.1 leader p.2) (zip (joints r) al) ;;
    grip <-- match gripper r with Some g => apply_gripper g leader | None => Ok f0 end ;;
    let dt := time_step r now in
    x <-- smooth r (desired, grip) ;;
    x <-- soft_start r (elapsed_after r dt) x ;;
    x <-- limit r dt x ;;
    let out := (zip_with clamp (joints r) x.1, x.2) in
    Ok ({| joints := joints r; gripper := gripper r; alpha := alpha r; ramp_s := ramp_s r;
           hold_last_on_stale := hold_last_on_stale r; align := align r; prev := Some out; start := start r;
           ramp_elapsed := elapsed_after r dt; last_t := Some now; last_ok := Some out |}, Some out).

(** ** Properties *)

Section Facts.
Context (js : list JointMapping).

Definition inside (p : vec) : Prop :=
  forall i j x, js !! i = Some j -> p !! i = Some x -> within (lower j) x (upper j).
Definition sized (o : option (vec * float)) : Prop := forall p, o = Some p -> length p.1 = length js.

Record rinv (r : Retargeter) : Prop := {
  ri_joints : joints r = js;
  ri_align a : align r = Some a -> length a = length js;
  ri_start : sized (start r);
  ri_prev : sized (prev r);
  ri_inside p : prev r = Some p -> inside p.1;
  ri_last p : last_ok r = Some p -> length p.1 = length js /\ inside p.1;
}.

(** The calls on a retargeter; [Override] is the loop writing [_prev_arm]. *)
Inductive rcall := Align (leader follower : vec) | Reset (follower : vec) (finger : float)
  | Frame (leader : vec) (now : float) | Override (p : vec).
Definition rstep (r : Retargeter) (c : rcall) : Retargeter :=
  match c with
  | Align l f => match auto_align r l f with Ok r => r | Err _ => r end
  | Reset f x => reset r f x
  | Frame l now => match map_frame r l now with Ok (r, _) => r | Err _ => r end
  | Override p => with_prev ((fun q => (p, q.2)) <$> prev r) r
  end.
(** The follower starts inside the limits, with one value per joint. *)
Definition rcall_ok (c : rcall) : Prop :=
  match c with Reset p _ | Override p => length p = length js /\ inside p | _ => True end.

Definition lims : Prop := Forall (fun j => fleb (lower j) (upper j) = true) js.

Lemma bcast_length {A} (f : float -> float -> A) a b c : bcast f a b = Ok c -> length a = length b -> length c = length a.
Proof.
  intros H E. unfold bcast in H. rewrite E, Nat.eqb_refl in H. injection H as <-. rewrite length_zip_with. lia.
Qed.

Lemma smooth_length r x y : rinv r -> smooth r x = Ok y -> length x.1 = length js -> length y.1 = length js.
Proof.
  intros Hr H Hx. unfold smooth in H. destruct (prev r) as [[p pg]|] eqn:Ep; [|by injection H as <-].
  destruct (alpha r <f f1); [|by injection H as <-]. inv_ok H. simpl.
  pose proof (ri_prev r Hr _ Ep) as Hp. simpl in Hp.
  apply bcast_length in Heqr0; rewrite ?length_map in *; congruence.
Qed.
Lemma soft_length r e x y : rinv r -> soft_start r e x = Ok y -> length x.1 = length js -> length y.1 = length js.
Proof.
  intros Hr H Hx. unfold soft_start in H. destruct (start r) as [[p pg]|] eqn:Ep; [|by injection H as <-].
  destruct (ramp_s r >f f0); [|by injection H as <-]. inv_ok H. simpl.
  pose proof (ri_start r Hr _ Ep) as Hp. simpl in Hp.
  apply bcast_length in Heqr0; [|congruence]. apply bcast_length in Heqr1; rewrite ?length_map in *; congruence.
Qed.

Lemma limit_rates_ok l i p dt d d' : limit_rates l i p dt d = Ok d' ->
  length d' = length d /\ (forall k, k < i -> d' !! k = d !! k) /\
  forall k j q x, l !! k = Some j -> isfinite (max_rate j) = true -> p !! (i + k) = Some q -> d' !! (i + k) = Some x ->
    isnan q = false -> let step := max_rate j *f dt in within (span_lo (q -f step) (q +f step) q) x (span_hi (q -f step) (q +f step) q).
Proof.
  revert i d. induction l as [|j l IH]; intros i d H; simpl in H.
  { injection H as <-. by split_and!. }
  destruct (isfinite (max_rate j)) eqn:Ef.
  - destruct (d !! i) as [x|] eqn:Ex; [|done]. destruct (p !! i) as [q|] eqn:Eq; [|done].
    destruct (IH _ _ H) as (L & F & B). rewrite length_insert in L. split; [done|]. split.
    { intros k Hk. rewrite F by lia. apply list_lookup_insert_ne. lia. }
    intros [|k] j' q' x' Hj Hf Hq Hx Hn; simpl in Hj.
    + simplify_eq. rewrite Nat.add_0_r in *. rewrite F in Hx by lia. rewrite list_lookup_insert_eq in Hx by (by eapply lookup_lt_Some).
      simplify_eq. by apply clip_span.
    + rewrite <-Nat.add_succ_comm in *. by eapply B.
  - destruct (IH _ _ H) as (L & F & B). split; [done|]. split; [intros k Hk; apply F; lia|].
    intros [|k] j' q' x' Hj Hf Hq Hx Hn; simpl in Hj; [congruence|]. rewrite <-Nat.add_succ_comm in *. by eapply B.
Qed.

Lemma limit_length r dt x y : rinv r -> limit r dt x = Ok y -> length x.1 = length js -> length y.1 = length js.
Proof.
  intros Hr H Hx. unfold limit in H. destruct (prev r) as [[p pg]|] eqn:Ep; [|by injection H as <-].
  destruct (dt >f f1e_9); [|by injection H as <-]. inv_ok H. simpl. apply limit_rates_ok in Heqr0 as [L _]. congruence.
Qed.

Lemma clamp_inside d : lims -> inside (zip_with clamp js d).
Proof.
  intros Hl i j x Hj Hx. rewrite lookup_zip_with, Hj in Hx. simpl in Hx.
  destruct (d !! i); simpl in Hx; [|done]. injection Hx as <-. apply clip_within. by apply (Forall_lookup_1 _ _ _ _ Hl Hj).
Qed.

(** The frame that leaves [map_frame], and the target before the joint limits. *)
Lemma map_frame_inv r leader now r' out : rinv r -> lims -> all_finite leader = true ->
  map_frame r leader now = Ok (r', out) ->
  exists x y, limit r (time_step r now) x = Ok y /\ length y.1 = length js /\ out = Some (zip_with clamp js y.1, y.2) /\
    prev r' = out /\ last_ok r' = out /\ joints r' = js /\ align r' = align r /\ start r' = start r.
Proof.
  intros Hr Hl Hf H. unfold map_frame in H. rewrite Hf in H. cbn [negb] in H. inv_chain H. injection H as <- <-.
  rewrite (ri_joints r Hr). exists a2, a3. split; [done|]. split; [|done].
  eapply limit_length; [done..|]. eapply soft_length; [done..|]. eapply smooth_length; [done..|]. simpl.
  apply rmap_ok_length in Heqr0. rewrite Heqr0, length_zip_with, (ri_joints r Hr).
  destruct (align r) as [al|] eqn:Ea; cbn [default from_option id]; cbv beta delta [id].
  - rewrite (ri_align r Hr al Ea). lia.
  - rewrite length_replicate. unfold n_out. rewrite (ri_joints r Hr). lia.
Qed.

Lemma map_frame_rinv r leader now r' out : rinv r -> lims -> map_frame r leader now = Ok (r', out) -> rinv r'.
Proof.
  intros Hr Hl H. destruct (all_finite leader) eqn:Hf.
  2: { unfold map_frame in H. rewrite Hf in H. cbn [negb] in H. by injection H as <- _. }
  destruct (map_frame_inv r leader now r' out Hr Hl Hf H) as (x & y & _ & Hy & -> & P & L & J & A & S).
  assert (length (zip_with clamp js y.1) = length js) as Hz by (rewrite length_zip_with; lia).
  split; rewrite ?J, ?A, ?S, ?P, ?L; try done.
  - apply Hr.
  - apply Hr.
  - by intros p [= <-].
  - intros p [= <-]. by apply clamp_inside.
  - intros p [= <-]. split; [done|by apply clamp_inside].
Qed.

Lemma rstep_inv r c : lims -> rcall_ok c -> rinv r -> rinv (rstep r c).
Proof.
  intros Hl Hc Hr. destruct c as [l f|f x|l now|p]; cbn [rstep].
  - destruct (auto_align r l f) as [r'|] eqn:E; [|done]. unfold auto_align in E. pass_guard E E0. inv_ok E.
    apply negb_false_iff, Nat.eqb_eq in E0. destruct Hr as [J A S P I L]. unfold n_out in E0. rewrite J in E0.
    split; try done. intros o [= <-]. apply rmap_ok_length in Heqr0. rewrite Heqr0, length_zip_with. rewrite J. lia.
  - destruct Hr as [J A S P I L], Hc as [C1 C2]. split; try done; intros q [= <-]; done.
  - destruct (map_frame r l now) as [[r' o]|] eqn:E; [|done]. by eapply map_frame_rinv.
  - destruct Hr as [J A S P I L], Hc as [C1 C2]. split; try done; cbn [prev with_prev].
    + intros q Hq. apply fmap_Some in Hq as (q' & _ & ->). done.
    + intros q Hq. apply fmap_Some in Hq as (q' & _ & ->). done.
Qed.

(** The promise of one frame. *)
Definition bounded_frame (r : Retargeter) (now : float) (out : vec) : Prop :=
  length out = length js /\ inside out /\
  forall p pg i j q x, prev r = Some (p, pg) -> js !! i = Some j -> p !! i = Some q -> out !! i = Some x ->
    isnan q = false -> fltb f1e_9 (time_step r now) = true -> isfinite (max_rate j) = true ->
    let step := max_rate j *f time_step r now in
    within (span_lo (q -f step) (q +f step) q) x (span_hi (q -f step) (q +f step) q).

Lemma span_holds a b q : isnan a = false -> isnan b = false -> isnan q = false ->
  fleb (span_lo a b q) q = true /\ fleb q (span_hi a b q) = true.
Proof.
  intros Na Nb Nq. split; [apply (np_min_spec _ q (np_min_nan a b Na Nb) Nq)|apply (np_max_spec _ q (np_max_nan a b Na Nb) Nq)].
Qed.

Lemma frame_bounded r leader now r' out g : rinv r -> lims -> all_finite leader = true ->
  map_frame r leader now = Ok (r', Some (out, g)) -> bounded_frame r now out.
Proof.
  intros Hr Hl Hf H. destruct (map_frame_inv r leader now r' _ Hr Hl Hf H) as (x & y & Hlim & Hy & Ho & _). injection Ho as -> _.
  split; [rewrite length_zip_with; lia|]. split; [by apply clamp_inside|].
  intros p pg i j q z Hp Hj Hq Hz Hn Hdt Hm step. unfold limit in Hlim. rewrite Hp, Hdt in Hlim. inv_ok Hlim. cbn [fst] in *.
  rewrite lookup_zip_with, Hj in Hz. simpl in Hz. destruct (a !! i) as [w|] eqn:Ew; simpl in Hz; [|done]. injection Hz as <-.
  rewrite (ri_joints r Hr) in Heqr0. apply limit_rates_ok in Heqr0 as (_ & _ & B). specialize (B i j q w Hj Hm Hq Ew Hn). simpl in B.
  fold step in B. destruct (isnan (clip w (lower j) (upper j))) eqn:En; [by left|].
  assert (isnan w = false) as Nw.
  { destruct (isnan w) eqn:E; [|done]. rewrite clip_isnan in En; auto. }
  destruct B as [B|[B1 B2]]; [congruence|].
  assert (isnan (q -f step) = false /\ isnan (q +f step) = false) as [Ns1 Ns2].
  { destruct (isnan (q -f step)) eqn:E1; [|destruct (isnan (q +f step)) eqn:E2; [|done]]; exfalso;
      apply fleb_nan in B1 as [B1 _]; unfold span_lo in B1; rewrite np_min_isnan in B1; try done; left; apply np_min_isnan; auto. }
  destruct (span_holds (q -f step) (q +f step) q Ns1 Ns2 Hn) as [S1 S2].
  pose proof (ri_inside r Hr _ Hp i j q Hj Hq) as [Hi|[I1 I2]]; [congruence|].
  apply (clip_hull w (lower j) (upper j) _ _ q); [done..|]. by right.
Qed.
End Facts.

(** After any history that started inside the limits, every frame mapped from a
    finite leader state gives one target per joint, inside the joint's limits,
    and no joint moves outside the interval its rate limit spans around the
    previous target (an entry may be NaN when its arithmetic overflowed; the
    safety monitor refuses such a target). *)
Theorem retarget_bounded js g a ramp hold r0 past leader now r' out grip :
  Retargeter_new js g a ramp hold = Ok r0 -> lims js -> Forall (rcall_ok js) past ->
  let r := run_steps rstep r0 past in
  all_finite leader = true -> map_frame r leader now = Ok (r', Some (out, grip)) -> bounded_frame js r now out.
Proof.
  intros Hn Hl Hp r Hf Hm. eapply frame_bounded; [|done..].
  assert (rinv js r0) as H0 by (unfold Retargeter_new in Hn; inv_ok Hn; by split).
  subst r. clear -Hl Hp H0. revert r0 H0. induction Hp as [|c past Hc _ IH]; intros r0 H0; simpl; [done|].
  apply IH. by apply rstep_inv.
Qed.

(** A leader state that is not finite produces no new target: the last good one
    is held (or none is given), and nothing the retargeter remembers changes. *)
Theorem stale_leader_holds r leader now :
  all_finite leader = false -> map_frame r leader now = Ok (r, if hold_last_on_stale r then last_ok r else None).
Proof. intros H. unfold map_frame. by rewrite H. Qed.

(** A successful gripper map is NaN or between the closed and open widths. *)
Theorem gripper_in_stroke g leader w :
  isfinite (open_finger_m g) = true -> isfinite (closed_finger_m g) = true -> apply_gripper g leader = Ok w ->
  within (py_min (open_finger_m g) (closed_finger_m g)) w (py_max (open_finger_m g) (closed_finger_m g)).
Proof.
  intros Ho Hc H. unfold apply_gripper in H. inv_ok H. apply clip_within. unfold py_min, py_max.
  apply finite_not_nan in Ho, Hc.
  destruct (closed_finger_m g <f open_finger_m g) eqn:E1, (open_finger_m g <f closed_finger_m g) eqn:E2; auto.
Qed.

(** ** A two-joint retargeter *)

Module MappingDemo.
Definition joint (src : Z) (sgn : float) : JointMapping := {|
  src_index := src; sign := sgn; offset := f0; scale := f1; lower := fopp f2; upper := f2; max_rate := f1 |}.
Definition js : list JointMapping := [joint 0 f1; joint 1 (fopp f1)].
Definition grip : GripperMapping := {| g_src_index := -1; open_finger_m := f1; closed_finger_m := f0; max_rate_m_s := finf |}.
Definition r0 : Retargeter := {|
  joints := js; gripper := Some grip; alpha := f1; ramp_s := f0; hold_last_on_stale := true; align := None; prev := None;
  start := None; ramp_elapsed := f0; last_t := None; last_ok := None |}.
Definition past : list rcall := [Reset [f0; f0] f0; Frame [f0; f0; f1] f1].
Definition r1 : Retargeter := run_steps rstep r0 past.
Definition r2 : Retargeter := rstep r1 (Frame [f2; f2; f0] f2).

(** One second at 1 rad/s: both joints asked to move by 2 move by 1. *)
Example rate_limited : map_frame r1 [f2; f2; f0] f2 = Ok (r2, Some ([f1; fopp f1], f0)).
Proof. vm_compute. reflexivity. Qed.

Example retarget_bounded_witness : bounded_frame js r1 f2 [f1; fopp f1].
Proof.
  apply (retarget_bounded js (Some grip) f1 f0 true r0 past [f2; f2; f0] f2 r2 [f1; fopp f1] f0); try (vm_compute; reflexivity).
  - repeat constructor.
  - constructor; [|by repeat constructor]. split; [reflexivity|].
    intros [|[|i]] j x; simpl; intros [= <-] [= <-]; right; split; vm_compute; reflexivity.
Defined.

Example stale_leader_holds_witness : map_frame r2 [fnan; f0; f0] f2 = Ok (r2, Some ([f1; fopp f1], f0)).
Proof. exact (stale_leader_holds r2 [fnan; f0; f0] f2 eq_refl). Defined.

Example gripper_in_stroke_witness : within f0 f1 f1.
Proof. apply (gripper_in_stroke grip [f0; f2] f1); vm_compute; reflexivity. Defined.
End MappingDemo.
