(* ===== verification/Teleop.v ===== *)
(** The teleoperation loop ([leader_follower/loop.py]): one tick composes the
    leader gate, the retargeter, the collision guard, the target gate, the send
    and the feedback gate; [run] repeats it until a stop, an interrupt, the
    duration or a stop request.

    What the outside does is the input: each iteration carries the clock
    reading, the leader's answer, whether the send raises and the feedback.  The
    interrupt arrives between ticks, a run's input list ends when a stop was
    requested, and closing the devices does not raise.  The opening and
    the start-up alignment come before the loop's handlers.  Calls on the follower
    and the closes are logged in order. *)
From Stdlib Require Import SpecFloat PrimFloat FloatOps.
From S2P Require Import Prelude Floats Motion Safety Mapping.

(** Calls on the devices. *)
Inductive ev := Open | Send (arm : vec) (grip : float) | SafeStop | CloseFollower | CloseLeader | CloseMonitor.

Record TeleopStats := {
  ticks : Z; sends : Z; safety_stops : Z; mean_dt_s : float; max_dt_s : float; last_collision_distance_m : float }.
Definition stats0 : TeleopStats := {|
  ticks := 0; sends := 0; safety_stops := 0; mean_dt_s := f0; max_dt_s := f0; last_collision_distance_m := finf |}.

(** The answers one tick gets. *)
Record tick_in := {
  now : float;
  leader : result vec;
  send_raises : option exn;
  feedback : option (result (option FeedbackSample));   (** [None]: no feedback source configured *)
}.

(** How a tick ends: normally, by a [SafetyStop], or by another exception. *)
Inductive outcome := Done | Stopped (source why : string) | Raised (e : exn).

Section Loop.
Context {G : Type} `{CollisionGuard G}.

Record TeleopLoop := {
  retargeter : Retargeter; monitor : SafetyMonitor G; num_arm_joints : nat; do_auto_align : bool; hz : float;
  stats : TeleopStats; log : list ev   (** in order *) }.

Definition with_retargeter (r : Retargeter) (s : TeleopLoop) : TeleopLoop := {|
  retargeter := r; monitor := monitor s; num_arm_joints := num_arm_joints s; do_auto_align := do_auto_align s; hz := hz s;
  stats := stats s; log := log s |}.
Definition with_monitor (m : SafetyMonitor G) (s : TeleopLoop) : TeleopLoop := {|
  retargeter := retargeter s; monitor := m; num_arm_joints := num_arm_joints s; do_auto_align := do_auto_align s; hz := hz s;
  stats := stats s; log := log s |}.
Definition with_stats (f : TeleopStats -> TeleopStats) (s : TeleopLoop) : TeleopLoop := {|
  retargeter := retargeter s; monitor := monitor s; num_arm_joints := num_arm_joints s; do_auto_align := do_auto_align s;
  hz := hz s; stats := f (stats s); log := log s |}.
Definition emit (e : ev) (s : TeleopLoop) : TeleopLoop := {|
  retargeter := retargeter s; monitor := monitor s; num_arm_joints := num_arm_joints s; do_auto_align := do_auto_align s;
  hz := hz s; stats := stats s; log := log s ++ [e] |}.
Definition count (t k st : Z) (s : TeleopStats) : TeleopStats := {|
  ticks := ticks s + t; sends := sends s + k; safety_stops := safety_stops s + st; mean_dt_s := mean_dt_s s;
  max_dt_s := max_dt_s s; last_collision_distance_m := last_collision_distance_m s |}.

(** [_read_feedback]: an exception becomes a faulty sample. *)
Definition read_feedback (s : TeleopLoop) (t : tick_in) : option FeedbackSample :=
  match feedback t with
  | None => None
  | Some (Ok x) => x
  | Some (Err _) => Some {| arm_q := replicate (num_arm_joints s) fnan; arm_dq := None; gripper_width_m := None;
                            timestamp := now t; fault := true; fault_reason := "feedback read raised"; fb_armed := None |}
  end.

(** The warning-zone slowdown of [once]. *)
Definition slow_down (r : Retargeter) (v : SafetyVerdict) (target : vec) : result (Retargeter * vec) :=
  match prev r with
  | Some (p, pg) =>
      if speed_scale v <f f1 then
        diff <-- bcast fsub target p ;;
        new <-- bcast fadd p (map (fun x => x *f speed_scale v) diff) ;;
        Ok (with_prev (Some (new, pg)) r, new)
      else Ok (r, target)
  | None => Ok (r, target)
  end.

(** After the target gate: slow down, send, read back. *)
Definition deliver (s : TeleopLoop) (t : tick_in) (v : SafetyVerdict) (target : vec) (grip : float) : TeleopLoop * outcome :=
  match slow_down (retargeter s) v target with
  | Err e => (s, Raised e)
  | Ok (r, target) =>
      let s := emit (Send target grip) (with_retargeter r s) in
      match send_raises t with
      | Some e => (s, Raised e)
      | None =>
          let s := with_stats (count 0 1 0) s in
          let '(m, v) := check_feedback (monitor s) (read_feedback s t) (now t) in
          let s := with_monitor m s in
          if negb (ok v) then (s, Stopped "feedback" (reason v)) else (with_stats (count 1 0 0) s, Done)
      end
  end.

(** From the mapped target on: steps 4 to 8. *)
Definition check_and_deliver (s : TeleopLoop) (t : tick_in) (x target : vec) (grip : float) : TeleopLoop * outcome :=
  match set_other_state (collision (monitor s)) x with
  | Err e => (s, Raised e)
  | Ok g =>
      let '(m, res) := check_and_clamp_target (with_collision g (monitor s)) target in
      let s := with_monitor m s in
      match res with
      | Err e => (s, Raised e)
      | Ok (v, target) => if negb (ok v) then (s, Stopped "target" (reason v)) else deliver s t v target grip
      end
  end.

Definition once (s : TeleopLoop) (t : tick_in) : TeleopLoop * outcome :=
  match leader t with
  | Err e => (s, Raised e)
  | Ok x =>
      let '(m, v) := check_leader (monitor s) x (now t) in
      let s := with_monitor m s in
      if negb (ok v) then (s, Stopped "leader" (reason v))
      else match map_frame (retargeter s) x (now t) with
           | Err e => (s, Raised e)
           | Ok (r, None) => (with_retargeter r s, Stopped "retarget" "no target")
           | Ok (r, Some (target, grip)) => check_and_deliver (with_retargeter r s) t x target grip
           end
  end.

Definition startup_align (s : TeleopLoop) (x : vec) (arm : vec) (grip : float) : result TeleopLoop :=
  r <-- (if do_auto_align s then auto_align (retargeter s) x arm else Ok (retargeter s)) ;;
  Ok (with_retargeter (reset r arm grip) s).

(** Timing statistics of a completed tick. *)
Definition account (prev_tick_t t d : float) (s : TeleopStats) : TeleopStats :=
  let dt := t -f prev_tick_t in
  let go := (1 <? ticks s)%Z in
  {| ticks := ticks s; sends := sends s; safety_stops := safety_stops s;
     mean_dt_s := if go then mean_dt_s s +f (dt -f mean_dt_s s) /f of_Z (ticks s) else mean_dt_s s;
     max_dt_s := if go then py_max (max_dt_s s) dt else max_dt_s s;
     last_collision_distance_m := d |}.

(** The deadline after a tick and the time to sleep; [t1] and [t2] are the
    clock readings it takes. *)
Definition pace (period next_t t1 t2 : float) : float * option float :=
  if period >f f0 then
    let next := next_t +f period in
    let sleep := next -f t1 in
    if sleep <f fopp period then (t2, None) else (next, if sleep >f f0 then Some sleep else None)
  else (next_t, None).

(** How a run ends. *)
Inductive ending := Finished | StoppedBy (source why : string) | Interrupted | RaisedBy (e : exn).
Inductive iteration := Tick (t : tick_in) | Interrupt.

Fixpoint iterate (s : TeleopLoop) (start prev_tick_t : float) (duration : option float) (l : list iteration) : TeleopLoop * ending :=
  match l with
  | [] => (s, Finished)
  | Interrupt :: _ => (emit SafeStop s, Interrupted)
  | Tick t :: l =>
      if match duration with Some d => (now t -f start) >=f d | None => false end then (s, Finished)
      else
        match once s t with
        | (s, Done) =>
            iterate (with_stats (account prev_tick_t (now t) (last_distance (monitor s))) s) start (now t) duration l
        | (s, Stopped src why) => (emit SafeStop (with_stats (count 0 0 1) s), StoppedBy src why)
        | (s, Raised e) => (s, RaisedBy e)
        end
  end.

Definition close_all (s : TeleopLoop) : TeleopLoop := emit CloseMonitor (emit CloseLeader (emit CloseFollower s)).

(** [run]: the leader and follower states read at start-up, the start time,
    and the iterations. *)
Definition run (s : TeleopLoop) (x : result vec) (arm : result (vec * float)) (start : float) (duration : option float)
    (l : list iteration) : TeleopLoop * ending :=
  let s := emit Open s in
  match (x <-- x ;; a <-- arm ;; startup_align s x a.1 a.2) with
  | Err e => (s, RaisedBy e)
  | Ok s => let '(s, e) := iterate s start start duration l in (close_all s, e)
  end.
End Loop.
Arguments TeleopLoop : clear implicits.

(** ** Properties *)

Section Facts.
Context {G : Type} `{CollisionGuard G} (l : SafetyLimits) (lo hi : vec).
Context (Hl : lims_ok l lo hi) (Hslow : isfinite (collision_slow_scale l) = true).

Definition same (a b : vec) : Prop := Forall2 (fun x y => feqb x y = true) a b.

Lemma same_refl a : all_finite a = true -> same a a.
Proof.
  intros H1. apply Forall_Forall2_diag. apply forallb_Forall in H1. eapply Forall_impl; [exact H1|].
  intros x Hx. apply feqb_spec. destruct (proj1 (isnan_key x) (finite_not_nan x Hx)) as [k Hk]. eauto.
Qed.

(** One entry of the slowdown, when the previous target is the target. *)
Lemma slow_entry x k : isfinite x = true -> isfinite k = true ->
  feqb (x +f (x -f x) *f k) x = true /\ isfinite (x +f (x -f x) *f k) = true.
Proof.
  intros Hx Hk. rewrite (fsub_diag x Hx). unfold f0. destruct (fmul_zero_l false k Hk) as [s ->]. by apply fadd_zero_r.
Qed.

Lemma slow_vector x k d new : all_finite x = true -> isfinite k = true ->
  bcast fsub x x = Ok d -> bcast fadd x (map (fun a => a *f k) d) = Ok new -> same new x /\ all_finite new = true.
Proof.
  intros Hx Hk H1 H2. unfold bcast in H1. rewrite Nat.eqb_refl in H1. injection H1 as <-.
  unfold bcast in H2. rewrite length_map, length_zip_with, Nat.min_id, Nat.eqb_refl in H2. injection H2 as <-.
  induction x as [|a x IH]; simpl; [split; [constructor|done]|]. simpl in Hx. apply andb_true_iff in Hx as [Ha Hx].
  destruct (slow_entry a k Ha Hk) as [E1 E2]. destruct (IH Hx) as [I1 I2]. split; [by constructor|]. by rewrite E2, I2.
Qed.

Lemma slow_down_same r v target pg r' out : prev r = Some (target, pg) -> all_finite target = true ->
  isfinite (speed_scale v) = true -> slow_down r v target = Ok (r', out) -> same out target /\ all_finite out = true.
Proof.
  intros Hp Ht Hv Hs. unfold slow_down in Hs. rewrite Hp in Hs.
  destruct (speed_scale v <f f1); [|injection Hs as _ <-; split; [by apply same_refl|done]].
  inv_chain Hs. injection Hs as _ <-. by eapply slow_vector.
Qed.

Lemma map_frame_prev r x t r' o : all_finite x = true -> map_frame r x t = Ok (r', Some o) -> prev r' = Some o.
Proof. intros Hf Hm. unfold map_frame in Hm. rewrite Hf in Hm. cbn [negb] in Hm. inv_chain Hm. by injection Hm as <- <-. Qed.

Lemma leader_finite (m : SafetyMonitor G) x t : ok (check_leader m x t).2 = true -> all_finite x = true.
Proof.
  unfold check_leader. destruct (_ || _) eqn:E; [done|]. intros _. apply orb_false_iff in E as [_ E]. by apply negb_false_iff in E.
Qed.

(** An arm vector the follower may be sent. *)
Definition safe (arm : vec) : Prop := length arm = length lo /\ all_finite arm = true /\ in_limits l lo hi arm.

Lemma same_safe arm target : same arm target -> all_finite arm = true -> length target = length lo -> in_limits l lo hi target -> safe arm.
Proof.
  intros Hs Hf Hn Hi. split; [by rewrite (Forall2_length _ _ _ Hs)|]. split; [done|].
  intros i a b v Ha Hb Hv. destruct (Forall2_lookup_l _ _ _ _ _ Hs Hv) as (w & Hw & E).
  destruct (Hi i a b w Ha Hb Hw) as [L1 L2]. apply feqb_fleb in E as [E1 E2].
  split; [exact (fleb_trans _ _ _ L1 E2)|exact (fleb_trans _ _ _ E1 L2)].
Qed.

(** What a tick does to the monitor and the log. *)
Definition tick_ok (s : TeleopLoop G) (t : tick_in) (out : TeleopLoop G * outcome) : Prop :=
  mon_inv l lo hi (monitor out.1) /\
  ((log out.1 = log s /\ out.2 <> Done) \/
   exists x r' target arm grip, log out.1 = log s ++ [Send arm grip] /\
     leader t = Ok x /\ map_frame (retargeter s) x (now t) = Ok (r', Some (target, grip)) /\ same arm target /\ safe arm).

Lemma deliver_ok (s : TeleopLoop G) t v target grip :
  mon_inv l lo hi (monitor s) -> prev (retargeter s) = Some (target, grip) -> all_finite target = true ->
  isfinite (speed_scale v) = true -> length target = length lo -> in_limits l lo hi target ->
  let out := deliver s t v target grip in
  mon_inv l lo hi (monitor out.1) /\
  ((log out.1 = log s /\ out.2 <> Done) \/ exists arm, log out.1 = log s ++ [Send arm grip] /\ same arm target /\ safe arm).
Proof.
  intros Hm Hp Hf Hv Hn Hi. unfold deliver. cbv zeta.
  destruct (slow_down (retargeter s) v target) as [[r arm]|e] eqn:Es; [|split; [done|by left]].
  destruct (slow_down_same _ _ _ _ _ _ Hp Hf Hv Es) as [Hs Ha]. pose proof (same_safe arm target Hs Ha Hn Hi) as Hsafe.
  destruct (send_raises t) as [e|]; [split; [done|right; by exists arm]|].
  set (s1 := with_stats (count 0 1 0) (emit (Send arm grip) (with_retargeter r s))).
  pose proof (mstep_inv l lo hi (monitor s1) (Feedback (read_feedback s1 t) (now t)) Hl Hm) as Hm'. cbn [mstep] in Hm'.
  destruct (check_feedback (monitor s1) (read_feedback s1 t) (now t)) as [m v'].
  destruct (negb (ok v')); (split; [exact Hm'|right; by exists arm]).
Qed.

Lemma once_ok (s : TeleopLoop G) t : mon_inv l lo hi (monitor s) -> tick_ok s t (once s t).
Proof.
  intros Hm. unfold tick_ok, once. destruct (leader t) as [x|e]; [|split; [done|by left]].
  pose proof (mstep_inv l lo hi (monitor s) (Leader x (now t)) Hl Hm) as Hm1. cbn [mstep] in Hm1.
  pose proof (leader_finite (monitor s) x (now t)) as Hx.
  destruct (check_leader (monitor s) x (now t)) as [m v]. cbn [fst snd] in *.
  destruct (ok v); [|split; [done|by left]]. cbn [negb]. specialize (Hx eq_refl).
  cbn [retargeter with_monitor]. destruct (map_frame (retargeter s) x (now t)) as [[r [[target grip]|]]|e] eqn:Em;
    [|split; [done|by left]..].
  apply (map_frame_prev _ _ _ _ _ Hx) in Em as Hp.
  unfold check_and_deliver. cbn [monitor with_retargeter with_monitor].
  destruct (set_other_state (collision m) x) as [g|e]; [|split; [done|by left]].
  assert (mon_inv l lo hi (with_collision g m)) as Hm2 by exact (mstep_inv l lo hi m (Other g) Hl Hm1).
  destruct (target_step l lo hi (with_collision g m) target Hl Hm2) as [Hm3 Ht].
  destruct (check_and_clamp_target (with_collision g m) target) as [m3 [[v3 out]|e]]; cbn [fst snd] in *; [|split; [done|by left]].
  destruct (Ht v3 out eq_refl) as (-> & Hok & _). destruct (ok v3); [|split; [done|by left]]. cbn [negb].
  destruct (Hok eq_refl) as (Hn & Hf & Hi & _ & _ & _ & Hsc).
  destruct (deliver_ok (with_monitor m3 (with_retargeter r (with_monitor m s))) t v3 target grip) as [HA HB]; try done.
  { rewrite Hsc. by destruct (_ <=f _). }
  split; [exact HA|]. destruct HB as [HB|(arm & HB & HC)]; [by left|right]. by exists x, r, target, arm, grip.
Qed.

(** The events that end a run. *)
Definition stopping (e : ending) : list ev := match e with StoppedBy _ _ | Interrupted => [SafeStop] | _ => [] end.
Definition closing (e : ending) : list ev := stopping e ++ [CloseFollower; CloseLeader; CloseMonitor].

Lemma iterate_log (s : TeleopLoop G) start p d its : mon_inv l lo hi (monitor s) ->
  let out := iterate s start p d its in
  exists sent, Forall (fun x => safe x.1) sent /\ log out.1 = log s ++ map (fun x => Send x.1 x.2) sent ++ stopping out.2.
Proof.
  revert s p. induction its as [|[t|] its IH]; intros s p Hm; cbn [iterate].
  { exists []. split; [constructor|]. simpl. by rewrite app_nil_r. }
  2: { exists []. split; [constructor|]. done. }
  destruct (match d with Some d => _ | None => false end).
  { exists []. split; [constructor|]. simpl. by rewrite app_nil_r. }
  pose proof (once_ok s t Hm) as [Hm1 Hlog]. destruct (once s t) as [s1 o]. cbn [fst snd] in *.
  assert (exists sent, Forall (fun x : vec * float => safe x.1) sent /\ log s1 = log s ++ map (fun x => Send x.1 x.2) sent) as (sent & F & L).
  { destruct Hlog as [[-> _]|(x & r & target & arm & grip & -> & _ & _ & _ & Hs)].
    - exists []. split; [constructor|]. simpl. by rewrite app_nil_r.
    - exists [(arm, grip)]. split; [|done]. constructor; [exact Hs|constructor]. }
  destruct o as [|src why|e]; cbn [fst snd].
  - destruct (IH (with_stats (account p (now t) (last_distance (monitor s1))) s1) (now t) Hm1) as (sent2 & F2 & L2).
    exists (sent ++ sent2). split; [by apply Forall_app|]. rewrite L2. cbn [log with_stats]. rewrite L, map_app, <-!app_assoc. done.
  - exists sent. split; [done|]. cbn [log emit with_stats]. rewrite L, <-app_assoc. done.
  - exists sent. split; [done|]. rewrite L. simpl. by rewrite app_nil_r.
Qed.
End Facts.

(** C19: with a finite joint margin and a finite collision slow scale (the
    constructor asks neither), a run whose follower opens is one of two.  When
    the start-up alignment raises, the opening is all that reaches the devices:
    the run raises that exception with nothing sent and the follower left open,
    no [safe_stop] and no close behind it.  Otherwise, whatever the leader, the
    operator, the follower and the feedback do, the run sends only arm targets
    that are finite, complete and inside every joint limit less the margin, and
    ends by closing the three devices, after a [safe_stop] and with no send
    behind it when a safety gate tripped or the operator interrupted between
    two ticks. *)
Theorem run_is_safe {G} `{CollisionGuard G} l lo hi g m0 r align n hz x arm start d its :
  SafetyLimits_new l = Ok l -> isfinite (joint_margin_rad l) = true -> isfinite (collision_slow_scale l) = true ->
  SafetyMonitor_new l lo hi g = Ok m0 ->
  let s := {| retargeter := r; monitor := m0; num_arm_joints := n; do_auto_align := align; hz := hz; stats := stats0; log := [] |} in
  let out := run s x arm start d its in
  match x <-- x ;; a <-- arm ;; startup_align (emit Open s) x a.1 a.2 with
  | Err e => log out.1 = [Open] /\ out.2 = RaisedBy e
  | Ok _ => exists sent, Forall (fun y => safe l lo hi y.1) sent /\
      log out.1 = Open :: map (fun y => Send y.1 y.2) sent ++ closing out.2
  end.
Proof.
  intros H1 H2 H3 H4 s. destruct (monitor_new_inv l lo hi g m0 H4) as (Hn & Hle & Hm). cbv zeta.
  unfold run. fold s. destruct (_ <-- x ;; _) as [s1|e] eqn:E; [|done].
  assert (monitor s1 = m0 /\ log s1 = [Open]) as [Em El].
  { unfold rbind in E. destruct x as [x|]; [|done]. destruct arm as [arm|]; [|done]. unfold startup_align in E. inv_ok E. done. }
  destruct (iterate_log l lo hi ltac:(done) H3 s1 start start d its) as (sent & F & L); [by rewrite Em|].
  destruct (iterate s1 start start d its) as [s2 e]. cbn [fst snd] in *. exists sent. split; [done|].
  cbn [close_all emit log]. rewrite L, El. cbn [app]. f_equal. by rewrite <-!app_assoc.
Qed.

(** The warning-zone slowdown does nothing: whatever scale the monitor asks
    for, the target sent is the retargeter's own output for that tick, because
    the step is scaled around the retargeter's previous target, which [map] has
    already replaced by the new one. *)
Theorem slowdown_has_no_effect {G} `{CollisionGuard G} l lo hi (s : TeleopLoop G) t arm grip :
  lims_ok l lo hi -> isfinite (collision_slow_scale l) = true -> mon_inv l lo hi (monitor s) ->
  log (once s t).1 = log s ++ [Send arm grip] ->
  exists x r' target, leader t = Ok x /\ map_frame (retargeter s) x (now t) = Ok (r', Some (target, grip)) /\ same arm target.
Proof.
  intros Hl Hs Hm Hlog. destruct (once_ok l lo hi Hl Hs s t Hm) as [_ [[E _]|(x & r & target & arm' & grip' & E & Hx & Hr & Hsame & _)]].
  - rewrite Hlog in E. exfalso. apply (f_equal length) in E. rewrite length_app in E. simpl in E. lia.
  - rewrite Hlog in E. apply app_inv_head in E. injection E as <- <-. by exists x, r, target.
Qed.

(** ** A one-joint loop in the warning zone *)

Module TeleopDemo.
Import SafetyDemo.
Definition half : float := Eval vm_compute in Prim2SF 0.5%float.
(** Always half a metre away: inside the warning zone, outside the stop zone. *)
Inductive NearGuard := near.
#[export] Instance near_guard : CollisionGuard NearGuard := {
  set_other_state g _ := Ok g; min_distance _ _ := Ok half }.

Definition r0 : Retargeter := {|
  joints := [MappingDemo.joint 0 f1]; gripper := None; alpha := f1; ramp_s := f0; hold_last_on_stale := true;
  align := None; prev := None; Mapping.start := None; ramp_elapsed := f0; last_t := None; last_ok := None |}.
Definition s0 : TeleopLoop NearGuard := {|
  retargeter := r0; monitor := SafetyDemo.start near; num_arm_joints := 1; do_auto_align := false; hz := f1; stats := stats0; log := [] |}.
Definition tick (t q : float) (fb : float) : tick_in := {|
  now := t; leader := Ok [q]; send_raises := None; feedback := Some (Ok (Some (sample fb))) |}.
Definition its : list iteration := [Tick (tick f1 f0 f0); Tick (tick f2 f1 f2); Tick (tick f2 fnan f2)].

(** The scale asked for is 0 (stand still), and the arm is sent to 1. *)
Example slow_scale_ignored : collision_slow_scale limits0 = f0 /\
  run s0 (Ok [f0]) (Ok ([f0], f0)) f0 None its =
    ((run s0 (Ok [f0]) (Ok ([f0], f0)) f0 None its).1, StoppedBy "leader" "leader data illegal") /\
  log (run s0 (Ok [f0]) (Ok ([f0], f0)) f0 None its).1 =
    [Open; Send [f0] f0; Send [f1] f0; SafeStop; CloseFollower; CloseLeader; CloseMonitor].
Proof. vm_compute. done. Qed.

(** A leader that cannot be read at start-up leaves the follower open. *)
Definition mute : exn := RuntimeError "leader read failed".
Lemma run_is_safe_witness :
  (exists sent, Forall (fun y => safe limits0 [fopp f2] [f2] y.1) sent /\
    log (run s0 (Ok [f0]) (Ok ([f0], f0)) f0 None its).1 =
      Open :: map (fun y => Send y.1 y.2) sent ++ closing (run s0 (Ok [f0]) (Ok ([f0], f0)) f0 None its).2) /\
  (log (run s0 (Err mute) (Ok ([f0], f0)) f0 None its).1 = [Open] /\ (run s0 (Err mute) (Ok ([f0], f0)) f0 None its).2 = RaisedBy mute).
Proof.
  assert (H := fun x => run_is_safe limits0 [fopp f2] [f2] near (SafetyDemo.start near) r0 false 1 f1 x (Ok ([f0], f0)) f0 None its
    ltac:(reflexivity) ltac:(reflexivity) ltac:(reflexivity) ltac:(reflexivity)).
  split; [exact (H (Ok [f0]))|exact (H (Err mute))].
Defined.

Definition s1 : TeleopLoop NearGuard := with_retargeter (reset r0 [f0] f0) s0.
Example slowdown_has_no_effect_witness : exists x r' target,
  leader (tick f1 f1 f1) = Ok x /\ map_frame (retargeter s1) x f1 = Ok (r', Some (target, f0)) /\ same [f1] target.
Proof.
  apply (slowdown_has_no_effect limits0 [fopp f2] [f2] s1 (tick f1 f1 f1) [f1] f0).
  - split_and!; vm_compute; reflexivity.
  - reflexivity.
  - split; done.
  - vm_compute. reflexivity.
Defined.
End TeleopDemo.
