(* ===== verification/S288.v ===== *)
(** The S288 servo layer of the leader arm ([leader_follower/s288.py]): unit
    conversions, the frame check sequence, the 20-byte command and 26-byte
    feedback frames, the serial bus and the joint chain.

    The serial port is outside: a read loop sees a list of polls (what each
    [read] returned, or that the deadline had passed) and a write attempt
    succeeds or fails.  The lock only serialises callers, and the simulated bus
    is not modelled. *)
From Stdlib Require Import SpecFloat PrimFloat FloatOps.
From S2P Require Import Prelude Floats Wire.
Open Scope Z_scope.

(** ** Units *)

Definition fl (x : PrimFloat.float) : float := Prim2SF x.
Definition two_pi : float := Eval vm_compute in fl (2 * 3.141592653589793).
Definition c32768 : float := Eval vm_compute in fl 32768.
Definition c2_56 : float := Eval vm_compute in fl 2.560.
Definition c256000 : float := Eval vm_compute in fl 256000.
Definition c1280000 : float := Eval vm_compute in fl 1280000.
Definition c128000000 : float := Eval vm_compute in fl 128000000.
Definition ftwo : float := Eval vm_compute in fl 2.

Record S288Spec := { gear_ratio : float; torque_constant : float; encoder_steps : Z }.
Definition default_spec : S288Spec := Eval vm_compute in
  {| gear_ratio := fl (70070 / 243); torque_constant := fl 0.554; encoder_steps := 8192 |}.

Section Units.
Context (s : S288Spec).
Definition ratio2 : float := gear_ratio s *f gear_ratio s.
Definition output_to_rotor_angle (q : float) : float := q *f gear_ratio s.
Definition output_to_rotor_velocity (dq : float) : float := dq *f gear_ratio s.
Definition output_to_rotor_torque (tau : float) : float := tau /f gear_ratio s.
Definition output_to_rotor_kp (kp : float) : float := kp /f ratio2.
Definition output_to_rotor_kd (kd : float) : float := kd /f ratio2.
Definition rotor_to_output_angle (q : float) : float := q /f gear_ratio s.
Definition rotor_to_output_velocity (dq : float) : float := dq /f gear_ratio s.
Definition rotor_to_output_torque (tau : float) : float := tau *f gear_ratio s.
Definition torque_to_current (tau : float) : float := tau /f torque_constant s.
Definition output_pos_to_raw (q : float) : float := q *f gear_ratio s *f (c32768 /f two_pi).
Definition raw_to_output_pos (raw : float) : float := raw *f two_pi /f c32768 /f gear_ratio s.
Definition raw_to_rotor_pos (raw : float) : float := raw *f two_pi /f c32768.
Definition output_spd_to_raw (dq : float) : float := dq *f gear_ratio s *f (c2_56 /f two_pi).
Definition raw_to_output_spd (raw : float) : float := raw *f two_pi /f c2_56 /f gear_ratio s.
Definition raw_to_rotor_spd (raw : float) : float := raw *f two_pi /f c2_56.
Definition output_torque_to_raw (tau : float) : float := tau /f gear_ratio s *f c256000.
Definition raw_to_output_torque (raw : float) : float := raw /f c256000 *f gear_ratio s.
Definition raw_to_rotor_torque (raw : float) : float := raw /f c256000.
Definition output_kp_to_raw (kp : float) : float := kp /f ratio2 *f c1280000.
Definition raw_to_output_kp (raw : float) : float := raw /f c1280000 *f ratio2.
Definition output_kd_to_raw (kd : float) : float := kd /f ratio2 *f c128000000.
Definition raw_to_output_kd (raw : float) : float := raw /f c128000000 *f ratio2.
Definition ex_pos_to_rad (out_pos : float) : float := out_pos *f two_pi /f of_Z (encoder_steps s).
End Units.

(** ** CRC32 *)

Definition M32 : Z := 0xFFFFFFFF.
Definition POLY : Z := 0x04C11DB7.
Definition crc_shift (crc : Z) : Z :=
  if Z.land crc 0x80000000 =? 0 then Z.land (Z.shiftl crc 1) M32 else Z.land (Z.lxor (Z.shiftl crc 1) POLY) M32.
Definition build_crc32_table : list Z :=
  map (fun i => Nat.iter 8 crc_shift (Z.land (Z.shiftl (Z.of_nat i) 24) M32)) (seq 0 256).
Definition CRC32_TABLE : list Z := Eval vm_compute in build_crc32_table.

(** One table look-up; the index is below 256 for a byte. *)
Definition crc_byte (crc b : Z) : Z :=
  Z.lxor (nth (Z.to_nat (Z.lxor (Z.shiftr crc 24) b)) CRC32_TABLE 0) (Z.land (Z.shiftl crc 8) M32).
Fixpoint crc_words (crc : Z) (data : bytes) : Z :=
  match data with
  | b3 :: b2 :: b1 :: b0 :: rest => crc_words (crc_byte (crc_byte (crc_byte (crc_byte crc b0) b1) b2) b3) rest
  | _ => crc
  end.
Definition crc32_unitree (data : bytes) : Z := Z.land (crc_words M32 data) M32.

Definition clip16 (v : Z) : Z := Z.max (-32768) (Z.min 32767 v).
Definition clip32 (v : Z) : Z := Z.max (-2147483648) (Z.min 2147483647 v).

(** ** Frames *)

Record S288Command := { q_out : float; dq_out : float; tau_out : float; kp_out : float; kd_out : float }.
Definition command0 : S288Command := {| q_out := f0; dq_out := f0; tau_out := f0; kp_out := f0; kd_out := f0 |}.

Record S288State := {
  motor_id : Z; s_q_rotor : float; s_dq_rotor : float; s_tau_rotor : float; s_q_out : float; s_dq_out : float;
  s_tau_out : float; temperature_c : float; voltage_v : float; error : Z; has_output_angle : bool;
  ex_pos_rad : float; sensor_c : float; warn : Z }.

Definition header_cmd : bytes := [0xFE; 0xEE].
Definition header_fb : bytes := [0xFC; 0xEE].
Definition MODE_STOP : Z := 0.
Definition MODE_FOC : Z := 1.
Definition control_len : nat := 20.
Definition response_len : nat := 26.

Definition mode_byte (id mode : Z) (timeout : bool) : Z :=
  Z.lor (Z.lor (Z.land id 0x0F) (Z.shiftl (Z.land mode 0x07) 4)) (Z.shiftl (if timeout then 1 else 0) 7).

Definition raw16 (x : float) : result Z := n <-- py_round x ;; Ok (clip16 n).
Definition raw32 (x : float) : result Z := n <-- py_round x ;; Ok (clip32 n).

(** "<hhihh" *)
Definition COMD_FMT : list fld := [N 2; N 2; N 4; N 2; N 2].

Definition pack_command (id : Z) (c : S288Command) (spec : S288Spec) (mode : option Z) (timeout : option bool) : result bytes :=
  let mode := default MODE_FOC mode in
  let timeout := default true timeout in
  tor <-- raw16 (output_torque_to_raw spec (tau_out c)) ;;
  spd <-- raw16 (output_spd_to_raw spec (dq_out c)) ;;
  pos <-- raw32 (output_pos_to_raw spec (q_out c)) ;;
  kp <-- raw16 (output_kp_to_raw spec (kp_out c)) ;;
  kd <-- raw16 (output_kd_to_raw spec (kd_out c)) ;;
  comd <-- pack COMD_FMT [VI tor; VI spd; VI pos; VI kp; VI kd] ;;
  let frame := header_cmd ++ [mode_byte id mode timeout; 0x00] ++ comd in
  crc <-- pack [U 4] [VI (crc32_unitree frame)] ;;
  Ok (frame ++ crc).

Definition pack_stop (id : Z) (timeout : bool) : result bytes :=
  pack_command id command0 default_spec (Some MODE_STOP) (Some timeout).

(** The feedback body from byte 3: temperature, winding sensor, voltage,
    torque, speed, position, error word, output encoder with flags, two bytes. *)
Definition FBK_FMT : list fld := [N 1; U 1; U 1; N 2; N 2; N 4; U 4; U 2; U 1; U 1].

Definition state_of (spec : S288Spec) (mode temp sensor vol tor spd pos merror outpos : Z) : S288State := {|
  motor_id := Z.land mode 0x0F;
  s_q_rotor := raw_to_rotor_pos (of_Z pos); s_dq_rotor := raw_to_rotor_spd (of_Z spd);
  s_tau_rotor := raw_to_rotor_torque (of_Z tor);
  s_q_out := raw_to_output_pos spec (of_Z pos); s_dq_out := raw_to_output_spd spec (of_Z spd);
  s_tau_out := raw_to_output_torque spec (of_Z tor);
  temperature_c := of_Z temp; voltage_v := of_Z vol /f ftwo; error := merror; has_output_angle := true;
  ex_pos_rad := ex_pos_to_rad spec (of_Z (Z.land outpos 0x1FFF)); sensor_c := of_Z sensor;
  warn := Z.land (Z.shiftr outpos 13) 0x07 |}.

Definition decode_fbk (spec : S288Spec) (mode : Z) (vs : list val) : result S288State :=
  match vs with
  | [VI temp; VI sensor; VI vol; VI tor; VI spd; VI pos; VI merror; VI outpos; VI _; VI _] =>
      Ok (state_of spec mode temp sensor vol tor spd pos merror outpos)
  | _ => Err StructError
  end.

Definition slice (a b : nat) (l : bytes) : bytes := take (b - a) (drop a l).

Definition unpack_state (frame : bytes) (spec : S288Spec) : result S288State :=
  raise_if (length frame <? response_len)%nat of ValueError "S288 feedback frame too short" ;;
  raise_if negb (bool_decide (take 2 frame = header_fb)) of ValueError "S288 feedback header mismatch" ;;
  raise_if negb (le_val (slice 22 26 frame) =? crc32_unitree (slice 2 22 frame)) of ValueError "S288 feedback CRC mismatch" ;;
  match slice 2 3 frame with [mode] => decode_fbk spec mode (read FBK_FMT (drop 3 frame)) | _ => Err StructError end.

(** The arguments of [build_feedback_frame]. *)
Record fb_args := {
  a_q : float; a_dq : float; a_tau : float; a_temp : Z; a_sensor : Z; a_vol : float; a_error : Z; a_ex : float;
  a_warn : Z; a_mode : Z; a_timeout : bool }.

Definition outpos_word (spec : S288Spec) (ex : float) (w : Z) : result Z :=
  n <-- py_round (ex /f two_pi *f of_Z (encoder_steps spec)) ;;
  Ok (Z.lor (Z.land (Z.land n 0x1FFF) 0x1FFF) (Z.shiftl (Z.land w 0x07) 13)).

Definition build_feedback_frame (id : Z) (spec : S288Spec) (a : fb_args) : result bytes :=
  pos <-- raw32 (output_pos_to_raw spec (a_q a)) ;;
  spd <-- raw16 (output_spd_to_raw spec (a_dq a)) ;;
  tor <-- raw16 (output_torque_to_raw spec (a_tau a)) ;;
  outpos <-- outpos_word spec (a_ex a) (a_warn a) ;;
  v <-- py_round (a_vol a *f ftwo) ;;
  let vol := Z.max 0 (Z.min 255 v) in
  fbk <-- pack FBK_FMT [VI (a_temp a); VI (Z.land (a_sensor a) 0xFF); VI (Z.land vol 0xFF); VI tor; VI spd; VI pos;
                        VI (Z.land (a_error a) M32); VI outpos; VI 0; VI 0] ;;
  let frame := header_fb ++ [mode_byte id (a_mode a) (a_timeout a)] ++ fbk in
  crc <-- pack [U 4] [VI (crc32_unitree (slice 2 22 frame))] ;;
  Ok (frame ++ crc).

(** ** The serial bus *)

(** One look at the port inside a read loop: the deadline had passed, or a
    [read] of what is still missing returned these bytes. *)
Inductive poll := Late | Got (bs : bytes).

(** Reads until [need] bytes are buffered or the deadline passes. *)
Fixpoint fill (need : nat) (buf : bytes) (ps : list poll) : bytes * list poll :=
  if (length buf <? need)%nat then
    match ps with
    | [] => (buf, [])
    | Late :: ps => (buf, ps)
    | Got bs :: ps => fill need (buf ++ take (need - length buf) bs) ps
    end
  else (buf, ps).

(** [bytes.find]: the first position where [pat] starts. *)
Fixpoint find_at (pat l : bytes) (i : nat) : option nat :=
  if bool_decide (take (length pat) l = pat) then Some i
  else match l with [] => None | _ :: l => find_at pat l (S i) end.

Definition read_response (ps : list poll) : option bytes :=
  let '(buf, ps) := fill response_len [] ps in
  match find_at header_fb buf 0 with
  | None => None
  | Some idx =>
      let '(buf, _) := fill (idx + response_len) buf ps in
      if (length buf <? idx + response_len)%nat then None else Some (slice idx (idx + response_len) buf)
  end.

(** The write attempts ([reset], [write], [flush]), at most [n] of them from the
    [k]-th: [attempts k] is [None], or the serial exception of the [k]-th. *)
Fixpoint write_frame (n k : nat) (attempts : nat -> option exn) : result unit :=
  match n with
  | O => Ok tt
  | S n => match attempts k with
           | None => Ok tt
           | Some e => match n with O => Err e | S _ => write_frame n (S k) attempts end
           end
  end.

Record exchange_in := { attempts : nat -> option exn; polls : list poll }.

Record SerialS288Bus := {
  ids : list Z; spec : S288Spec; write_retries : nat;
  last_states : gmap Z S288State; last_command : gmap Z S288Command }.
Definition SerialS288Bus_new (ids : list Z) (spec : S288Spec) (retries : Z) : SerialS288Bus := {|
  ids := ids; spec := spec; write_retries := Z.to_nat (Z.max 1 retries); last_states := ∅;
  last_command := list_to_map (map (fun i => (i, command0)) ids) |}.

(** Sends one command and stores the motor's answer. *)
Definition exchange_one (b : SerialS288Bus) (id : Z) (c : S288Command) (x : exchange_in) : result SerialS288Bus :=
  _ <-- pack_command id c (spec b) None None ;;
  _ <-- write_frame (write_retries b) 0 (attempts x) ;;
  match read_response (polls x) with
  | None => Err (TimeoutError "S288 no valid feedback")
  | Some payload =>
      st <-- unpack_state payload (spec b) ;;
      Ok {| ids := ids b; spec := spec b; write_retries := write_retries b;
            last_states := <[id := st]> (last_states b); last_command := last_command b |}
  end.

Definition remember (id : Z) (c : S288Command) (b : SerialS288Bus) : SerialS288Bus := {|
  ids := ids b; spec := spec b; write_retries := write_retries b; last_states := last_states b;
  last_command := <[id := c]> (last_command b) |}.

(** The rounds over [l], with the bus as an exception leaves it. *)
Fixpoint write_round (commands : gmap Z S288Command) (b : SerialS288Bus) (l : list Z) (xs : Z -> exchange_in) : SerialS288Bus * option exn :=
  match l with
  | [] => (b, None)
  | id :: l =>
      let c := default (default command0 (last_command b !! id)) (commands !! id) in
      let b := remember id c b in
      match exchange_one b id c (xs id) with Ok b => write_round commands b l xs | Err e => (b, Some e) end
  end.
Definition write_commands (commands : gmap Z S288Command) (b : SerialS288Bus) (xs : Z -> exchange_in) : SerialS288Bus * option exn :=
  write_round commands b (ids b) xs.

Fixpoint read_round (b : SerialS288Bus) (l : list Z) (xs : Z -> exchange_in) : SerialS288Bus * option exn :=
  match l with
  | [] => (b, None)
  | id :: l =>
      match exchange_one b id (default command0 (last_command b !! id)) (xs id) with
      | Ok b => read_round b l xs
      | Err e => (b, Some e)
      end
  end.
Definition read_states (b : SerialS288Bus) (xs : Z -> exchange_in) : SerialS288Bus * result (gmap Z S288State) :=
  let '(b, e) := read_round b (ids b) xs in
  (b, match e with None => Ok (last_states b) | Some e => Err e end).

(** ** The joint chain *)

(** [read_arrays] on the states the bus returned: positions, velocities and
    single-turn angles in motor order. *)
Fixpoint read_arrays (motor_ids : list Z) (states : gmap Z S288State) : result (vec * vec * vec) :=
  match motor_ids with
  | [] => Ok ([], [], [])
  | id :: l =>
      match states !! id with
      | None => Err (RuntimeError "S288 state feedback missing")
      | Some st => r <-- read_arrays l states ;;
                   Ok (s_q_out st :: r.1.1, s_dq_out st :: r.1.2, ex_pos_rad st :: r.2)
      end
  end.

(** [command_positions] with scalar gains, as the commands handed to the bus. *)
Definition position_commands (motor_ids : list Z) (q : vec) (kp kd : float) (dq tau : vec) : result (gmap Z S288Command) :=
  raise_if negb (length q =? length motor_ids)%nat of ValueError "q_out has the wrong length" ;;
  let zeros := replicate (length motor_ids) f0 in
  let dq := match dq with [] => zeros | _ => dq end in
  let tau := match tau with [] => zeros | _ => tau end in
  cs <-- rmap (fun i => match motor_ids !! i, q !! i, dq !! i, tau !! i with
                        | Some id, Some q, Some dq, Some tau =>
                            Ok (id, {| q_out := q; dq_out := dq; tau_out := tau; kp_out := kp; kd_out := kd |})
                        | _, _, _, _ => Err IndexError
                        end) (seq 0 (length motor_ids)) ;;
  Ok (list_to_map (reverse cs)).
Definition release_commands (motor_ids : list Z) : gmap Z S288Command :=
  list_to_map (map (fun i => (i, command0)) motor_ids).

(** ** The check sequence *)

Definition word32 (x : Z) : Prop := 0 <= x < 2 ^ 32.
Abbreviation Sk k := (Nat.iter k crc_shift).

Lemma M32_ones : M32 = Z.ones 32.
Proof. reflexivity. Qed.

Lemma land_top x : (Z.land x 0x80000000 =? 0) = negb (Z.testbit x 31).
Proof.
  change 0x80000000 with (2 ^ 31). destruct (Z.testbit x 31) eqn:E; simpl.
  - apply Z.eqb_neq. intros H. apply (f_equal (fun z => Z.testbit z 31)) in H.
    rewrite Z.land_spec, E, Z.pow2_bits_true, Z.bits_0 in H by lia. done.
  - apply Z.eqb_eq. apply Z.bits_inj'. intros n Hn. rewrite Z.land_spec, Z.bits_0, Z.pow2_bits_eqb by lia.
    destruct (Z.eqb_spec 31 n) as [<- |]; [by rewrite E|apply andb_false_r].
Qed.

Lemma crc_shift_alt x :
  crc_shift x = Z.lxor (Z.land (Z.shiftl x 1) M32) (if Z.testbit x 31 then POLY else 0).
Proof.
  unfold crc_shift. rewrite land_top. destruct (Z.testbit x 31); simpl negb; cbn match.
  - apply Z.bits_inj'. intros n Hn. rewrite Z.land_spec, !Z.lxor_spec, Z.land_spec.
    assert (Z.testbit POLY n = Z.testbit POLY n && Z.testbit M32 n) as ->.
    { rewrite <-Z.land_spec. done. }
    destruct (Z.testbit (Z.shiftl x 1) n), (Z.testbit POLY n), (Z.testbit M32 n); done.
  - by rewrite Z.lxor_0_r.
Qed.

Lemma crc_shift_lxor x y : crc_shift (Z.lxor x y) = Z.lxor (crc_shift x) (crc_shift y).
Proof.
  rewrite !crc_shift_alt, Z.shiftl_lxor, Z.lxor_spec. apply Z.bits_inj'. intros n Hn.
  rewrite !Z.lxor_spec, !Z.land_spec, Z.lxor_spec.
  destruct (Z.testbit x 31), (Z.testbit y 31); cbn [xorb]; rewrite ?Z.bits_0;
    destruct (Z.testbit (Z.shiftl x 1) n), (Z.testbit (Z.shiftl y 1) n), (Z.testbit M32 n), (Z.testbit POLY n); reflexivity.
Qed.

Lemma Sk_lxor k x y : Sk k (Z.lxor x y) = Z.lxor (Sk k x) (Sk k y).
Proof. induction k as [|k IH]; [done|]. rewrite !Nat.iter_succ, IH. apply crc_shift_lxor. Qed.

Lemma crc_shift_range x : word32 (crc_shift x).
Proof.
  unfold crc_shift, word32. rewrite M32_ones. destruct (_ =? 0); rewrite Z.land_ones by lia; apply Z.mod_pos_bound; lia.
Qed.
Lemma Sk_range k x : word32 x -> word32 (Sk k x).
Proof. intros H. destruct k as [|k]; [done|]. rewrite Nat.iter_succ. apply crc_shift_range. Qed.

Lemma testbit_high x k : 0 <= x < 2 ^ k -> 0 <= k -> Z.testbit x k = false.
Proof. intros Hx Hk. rewrite <-(Z.mod_small x (2 ^ k)) by lia. apply Z.mod_pow2_bits_high. lia. Qed.

(** Bits that have not reached the top only move up. *)
Lemma Sk_low k x : (k <= 32)%nat -> 0 <= x < 2 ^ (32 - Z.of_nat k) -> Sk k x = Z.shiftl x (Z.of_nat k).
Proof.
  revert x. induction k as [|k IH]; intros x Hk Hx; [by rewrite Z.shiftl_0_r|].
  assert (2 ^ (32 - Z.of_nat (S k)) <= 2 ^ (32 - Z.of_nat k)) as Hp by (apply Z.pow_le_mono_r; lia).
  rewrite Nat.iter_succ, IH by lia.
  assert (0 <= Z.shiftl x (Z.of_nat k) < 2 ^ 31) as Hr.
  { rewrite Z.shiftl_mul_pow2 by lia. split; [nia|].
    replace 31 with ((32 - Z.of_nat (S k)) + Z.of_nat k) by lia. rewrite Z.pow_add_r by lia. nia. }
  rewrite crc_shift_alt, testbit_high, Z.lxor_0_r by lia. rewrite Z.shiftl_shiftl by lia. rewrite M32_ones, Z.land_ones by lia.
  replace (Z.of_nat k + 1) with (Z.of_nat (S k)) by lia. apply Z.mod_small.
  replace (Z.of_nat (S k)) with (Z.of_nat k + 1) by lia. rewrite <-Z.shiftl_shiftl by lia.
  rewrite (Z.shiftl_mul_pow2 _ 1) by lia. lia.
Qed.

Lemma table_entry i : 0 <= i < 256 -> nth (Z.to_nat i) CRC32_TABLE 0 = Sk 8 (Z.shiftl i 24).
Proof.
  intros Hi. change CRC32_TABLE with build_crc32_table. unfold build_crc32_table.
  rewrite (nth_indep _ 0 (Sk 8 (Z.land (Z.shiftl (Z.of_nat 0) 24) M32))) by (rewrite length_map, length_seq; lia).
  rewrite (map_nth (fun i => Sk 8 (Z.land (Z.shiftl (Z.of_nat i) 24) M32))), seq_nth by lia.
  rewrite Nat.add_0_l, Z2Nat.id by lia. f_equal. rewrite M32_ones, Z.land_ones, Z.shiftl_mul_pow2 by lia. apply Z.mod_small. lia.
Qed.

Definition byte_ok (b : Z) : Prop := 0 <= b < 256.

Lemma byte_shift b k : byte_ok b -> 0 <= k <= 24 -> 0 <= Z.shiftl b k < 2 ^ (8 + k).
Proof. intros Hb Hk. unfold byte_ok in Hb. rewrite Z.shiftl_mul_pow2, Z.pow_add_r by lia. nia. Qed.

Lemma split_word c : word32 c ->
  c = Z.lxor (Z.shiftl (Z.shiftr c 24) 24) (Z.land c (Z.ones 24)) /\ 0 <= Z.shiftr c 24 < 256 /\
  0 <= Z.land c (Z.ones 24) < 2 ^ 24 /\ Z.land (Z.shiftl c 8) M32 = Z.shiftl (Z.land c (Z.ones 24)) 8.
Proof.
  intros Hc. unfold word32 in Hc. split; [|split; [|split]].
  - apply Z.bits_inj'. intros n Hn. rewrite Z.lxor_spec, Z.land_spec. destruct (Z.ltb_spec n 24).
    + rewrite Z.shiftl_spec_low, Z.ones_spec_low by lia. by rewrite andb_true_r.
    + rewrite Z.shiftl_spec, Z.shiftr_spec, Z.ones_spec_high by lia.
      replace (n - 24 + 24) with n by lia. by rewrite andb_false_r, xorb_false_r.
  - rewrite Z.shiftr_div_pow2 by lia. split; [apply Z.div_pos; lia|apply Z.div_lt_upper_bound; lia].
  - rewrite Z.land_ones by lia. apply Z.mod_pos_bound. lia.
  - rewrite M32_ones, !Z.land_ones, !Z.shiftl_mul_pow2 by lia.
    replace (2 ^ 32) with (2 ^ 24 * 2 ^ 8) by lia. rewrite Z.mul_mod_distr_r by lia. done.
Qed.

(** The table step is eight bit steps. *)
Lemma crc_byte_bits c b : word32 c -> byte_ok b -> crc_byte c b = Sk 8 (Z.lxor c (Z.shiftl b 24)).
Proof.
  intros Hc Hb. destruct (split_word c Hc) as (E & Hh & Hlo & Hs). unfold crc_byte. rewrite Hs.
  set (h := Z.shiftr c 24) in *. set (lo := Z.land c (Z.ones 24)) in *.
  assert (0 <= Z.lxor h b < 256) as Hx.
  { unfold byte_ok in Hb. split; [apply Z.lxor_nonneg; lia|]. rewrite <-(Z.mod_small h 256), <-(Z.mod_small b 256) by lia.
    change 256 with (2 ^ 8) at 1 2. rewrite <-!Z.land_ones by lia.
    replace (Z.lxor (Z.land h (Z.ones 8)) (Z.land b (Z.ones 8))) with (Z.land (Z.lxor h b) (Z.ones 8)).
    - rewrite Z.land_ones by lia. apply Z.mod_pos_bound. lia.
    - apply Z.bits_inj'. intros n Hn. rewrite !Z.lxor_spec, !Z.land_spec, Z.lxor_spec.
      by destruct (Z.testbit h n), (Z.testbit b n), (Z.testbit (Z.ones 8) n). }
  rewrite table_entry by done. rewrite E at 1. rewrite (Z.lxor_comm (Z.shiftl h 24)), Z.lxor_assoc, <-Z.shiftl_lxor, Sk_lxor.
  rewrite (Sk_low 8 lo) by (try lia; apply Hlo). apply Z.lxor_comm.
Qed.

Lemma crc_shift_kernel x : word32 x -> crc_shift x = 0 -> x = 0.
Proof.
  unfold word32. intros Hx H. rewrite crc_shift_alt in H.
  assert (Z.testbit x 31 = false) as Ht.
  { apply (f_equal (fun z => Z.testbit z 0)) in H. rewrite Z.lxor_spec, Z.land_spec, Z.shiftl_spec_low, Z.bits_0 in H by lia.
    by destruct (Z.testbit x 31). }
  rewrite Ht, Z.lxor_0_r, M32_ones, Z.land_ones, Z.shiftl_mul_pow2 in H by lia.
  apply Z.mod_divide in H as [q Hq]; [|lia]. assert (q = 0 \/ q = 1) as [-> | ->] by lia; [lia|].
  assert (x = 2 ^ 31) as -> by lia. done.
Qed.

Lemma lxor_range x y : word32 x -> word32 y -> word32 (Z.lxor x y).
Proof.
  unfold word32. intros Hx Hy. rewrite <-(Z.mod_small x (2 ^ 32)), <-(Z.mod_small y (2 ^ 32)) by lia.
  rewrite <-!Z.land_ones by lia.
  replace (Z.lxor (Z.land x (Z.ones 32)) (Z.land y (Z.ones 32))) with (Z.land (Z.lxor x y) (Z.ones 32)).
  - rewrite Z.land_ones by lia. apply Z.mod_pos_bound. lia.
  - apply Z.bits_inj'. intros n Hn. rewrite !Z.lxor_spec, !Z.land_spec, Z.lxor_spec.
    by destruct (Z.testbit x n), (Z.testbit y n), (Z.testbit (Z.ones 32) n).
Qed.

Lemma Sk_inj k x y : word32 x -> word32 y -> Sk k x = Sk k y -> x = y.
Proof.
  intros Hx Hy H. apply Z.lxor_eq. assert (Sk k (Z.lxor x y) = 0) as H0 by (rewrite Sk_lxor, H; apply Z.lxor_nilpotent).
  clear H. pose proof (lxor_range x y Hx Hy) as Hr. revert H0. induction k as [|k IH]; [done|].
  rewrite Nat.iter_succ. intros H. apply IH, crc_shift_kernel; [by apply Sk_range|done].
Qed.

(** A frame word as the checksum reads it: last byte first. *)
Definition word_of (b3 b2 b1 b0 : Z) : Z :=
  Z.lxor (Z.lxor (Z.lxor (Z.shiftl b0 24) (Z.shiftl b1 16)) (Z.shiftl b2 8)) b3.

Lemma crc_byte_range c b : word32 c -> byte_ok b -> word32 (crc_byte c b).
Proof.
  intros Hc Hb. rewrite crc_byte_bits by done. apply Sk_range, lxor_range; [done|].
  pose proof (byte_shift b 24 Hb). unfold word32. lia.
Qed.

(** Feeding the next byte after [8 * k] bit steps. *)
Lemma crc_byte_next k j x b : word32 x -> byte_ok b -> (8 * k + j = 24)%nat ->
  crc_byte (Sk (8 * k) x) b = Sk (8 * S k) (Z.lxor x (Z.shiftl b (Z.of_nat j))).
Proof.
  intros Hx Hb Hk. rewrite crc_byte_bits by (try done; by apply Sk_range).
  replace (8 * S k)%nat with (8 + 8 * k)%nat by lia. rewrite Nat.iter_add. f_equal. rewrite Sk_lxor. f_equal.
  pose proof (byte_shift b (Z.of_nat j) Hb). rewrite Sk_low by (try lia; replace (32 - Z.of_nat (8 * k)) with (8 + Z.of_nat j) by lia; lia).
  rewrite Z.shiftl_shiftl by lia. f_equal. lia.
Qed.

Lemma crc_word c b3 b2 b1 b0 : word32 c -> Forall byte_ok [b3; b2; b1; b0] ->
  crc_byte (crc_byte (crc_byte (crc_byte c b0) b1) b2) b3 = Sk 32 (Z.lxor c (word_of b3 b2 b1 b0)).
Proof.
  intros Hc Hb. repeat (apply Forall_cons in Hb as [? Hb]).
  assert (forall b k, byte_ok b -> 0 <= k <= 24 -> word32 (Z.shiftl b k)) as Hw.
  { intros b k H' Hk. pose proof (byte_shift b k H' Hk) as Hp. unfold word32. split; [lia|].
    eapply Z.lt_le_trans; [apply Hp|]. apply Z.pow_le_mono_r; lia. }
  rewrite (crc_byte_bits c b0) by done. change (Sk 8) with (Sk (8 * 1)).
  rewrite (crc_byte_next 1 16), (crc_byte_next 2 8), (crc_byte_next 3 0) by (try done; repeat apply lxor_range; auto with lia).
  change (8 * 4)%nat with 32%nat. f_equal. unfold word_of. simpl Z.of_nat. rewrite Z.shiftl_0_r, !Z.lxor_assoc. done.
Qed.

Lemma word_of_range b3 b2 b1 b0 : Forall byte_ok [b3; b2; b1; b0] -> word32 (word_of b3 b2 b1 b0).
Proof.
  intros Hb. repeat (apply Forall_cons in Hb as [? Hb]). unfold word_of.
  pose proof (byte_shift b0 24). pose proof (byte_shift b1 16). pose proof (byte_shift b2 8). unfold byte_ok in *.
  repeat apply lxor_range; unfold word32; lia.
Qed.

Lemma lxor_add_low h lo k : 0 <= k -> 0 <= lo < 2 ^ k -> Z.lxor (Z.shiftl h k) lo = Z.shiftl h k + lo.
Proof.
  intros Hk Hlo. symmetry. apply Z.add_nocarry_lxor. apply Z.bits_inj'. intros n Hn. rewrite Z.land_spec, Z.bits_0.
  destruct (Z.ltb_spec n k); [by rewrite Z.shiftl_spec_low by lia|].
  rewrite <-(Z.mod_small lo (2 ^ k)) by lia. by rewrite Z.mod_pow2_bits_high, andb_false_r by lia.
Qed.

Lemma word_of_sum b3 b2 b1 b0 : Forall byte_ok [b3; b2; b1; b0] ->
  word_of b3 b2 b1 b0 = b0 * 2 ^ 24 + b1 * 2 ^ 16 + b2 * 2 ^ 8 + b3.
Proof.
  intros Hb. repeat (apply Forall_cons in Hb as [? Hb]). unfold word_of, byte_ok in *. rewrite !Z.lxor_assoc.
  rewrite (lxor_add_low b2 b3 8) by lia. rewrite (Z.shiftl_mul_pow2 b2) by lia.
  rewrite (lxor_add_low b1 _ 16) by lia. rewrite (Z.shiftl_mul_pow2 b1) by lia.
  rewrite (lxor_add_low b0 _ 24) by lia. rewrite (Z.shiftl_mul_pow2 b0) by lia. lia.
Qed.

Lemma crc_words_range c l : word32 c -> Forall byte_ok l -> word32 (crc_words c l).
Proof.
  revert c. induction l as [l IH] using (induction_ltof1 _ (@length Z)). intros c Hc Hl.
  destruct l as [|b3 [|b2 [|b1 [|b0 l]]]]; try done. cbn [crc_words].
  repeat (apply Forall_cons in Hl as [? Hl]). apply IH; [unfold ltof; simpl; lia| |done]. by repeat apply crc_byte_range.
Qed.

Lemma crc_words_app n c pre l : length pre = (4 * n)%nat -> crc_words c (pre ++ l) = crc_words (crc_words c pre) l.
Proof.
  revert c pre. induction n as [|n IH]; intros c pre Hn.
  - destruct pre; [done|simpl in Hn; lia].
  - destruct pre as [|b3 [|b2 [|b1 [|b0 pre]]]]; simpl in Hn; try lia. cbn [app crc_words]. apply IH. lia.
Qed.

Lemma crc_words_inj c c' l : word32 c -> word32 c' -> Forall byte_ok l -> crc_words c l = crc_words c' l -> c = c'.
Proof.
  revert c c'. induction l as [l IH] using (induction_ltof1 _ (@length Z)). intros c c' Hc Hc' Hl H.
  destruct l as [|b3 [|b2 [|b1 [|b0 l]]]]; try done. cbn [crc_words] in H.
  pose proof Hl as Hl'. repeat (apply Forall_cons in Hl' as [? Hl']).
  assert (Forall byte_ok [b3; b2; b1; b0]) as Hb by (exact (Forall_take byte_ok 4 _ Hl)).
  apply IH in H; [|unfold ltof; simpl; lia|by repeat apply crc_byte_range|by repeat apply crc_byte_range|done].
  rewrite !crc_word in H by done. pose proof (word_of_range _ _ _ _ Hb) as Hw.
  apply Sk_inj in H; [|by apply lxor_range..]. apply (f_equal (fun z => Z.lxor z (word_of b3 b2 b1 b0))) in H.
  by rewrite !Z.lxor_assoc, !Z.lxor_nilpotent, !Z.lxor_0_r in H.
Qed.

Lemma word_of_inj b3 b2 b1 b0 d3 d2 d1 d0 : Forall byte_ok [b3; b2; b1; b0] -> Forall byte_ok [d3; d2; d1; d0] ->
  word_of b3 b2 b1 b0 = word_of d3 d2 d1 d0 -> [b3; b2; b1; b0] = [d3; d2; d1; d0].
Proof.
  intros Hok Hok' H. rewrite !word_of_sum in H by done.
  repeat (apply Forall_cons in Hok as [? Hok]). repeat (apply Forall_cons in Hok' as [? Hok']). unfold byte_ok in *.
  assert (b0 = d0) by lia. assert (b1 = d1) by lia. assert (b2 = d2) by lia. assert (b3 = d3) by lia. congruence.
Qed.

Lemma crc_words_word c b3 b2 b1 b0 : word32 c -> Forall byte_ok [b3; b2; b1; b0] ->
  crc_words c [b3; b2; b1; b0] = Sk 32 (Z.lxor c (word_of b3 b2 b1 b0)).
Proof. intros Hc Hb. cbn [crc_words]. by apply crc_word. Qed.

Lemma crc_one_word c w w' : word32 c -> length w = 4%nat -> length w' = 4%nat -> Forall byte_ok w -> Forall byte_ok w' ->
  crc_words c w = crc_words c w' -> w = w'.
Proof.
  intros Hc Hw Hw' Hok Hok'.
  destruct w as [|b3 [|b2 [|b1 [|b0 [|]]]]]; try done. destruct w' as [|d3 [|d2 [|d1 [|d0 [|]]]]]; try done.
  rewrite !crc_words_word by done. intros H.
  pose proof (word_of_range _ _ _ _ Hok) as Hr. pose proof (word_of_range _ _ _ _ Hok') as Hr'.
  apply Sk_inj in H; [|by apply lxor_range..]. apply (f_equal (Z.lxor c)) in H.
  rewrite <-!Z.lxor_assoc, !Z.lxor_nilpotent, !Z.lxor_0_l in H. by apply word_of_inj.
Qed.

Lemma crc32_words data : Forall byte_ok data -> crc32_unitree data = crc_words M32 data.
Proof.
  intros Hd. unfold crc32_unitree. rewrite M32_ones, Z.land_ones by lia. apply Z.mod_small, crc_words_range; [by split|done].
Qed.

(** Two data blocks that differ in exactly one aligned word differ in their checksum. *)
Lemma crc_word_error n pre w w' post : length pre = (4 * n)%nat -> length w = 4%nat -> length w' = 4%nat -> w <> w' ->
  Forall byte_ok (pre ++ w ++ post) -> Forall byte_ok w' ->
  crc32_unitree (pre ++ w ++ post) <> crc32_unitree (pre ++ w' ++ post).
Proof.
  intros Hn Hw Hw' Hne Hok Hok' H. apply Forall_app in Hok as [Hpre Hok]. apply Forall_app in Hok as [Hokw Hpost].
  rewrite !crc32_words in H by (by repeat apply Forall_app_2).
  rewrite (crc_words_app n M32 pre (w ++ post)), (crc_words_app n M32 pre (w' ++ post)) in H by done.
  assert (word32 (crc_words M32 pre)) as Hc by (apply crc_words_range; [by split|done]).
  revert H Hc. generalize (crc_words M32 pre). intros c H Hc.
  rewrite (crc_words_app 1 c w post), (crc_words_app 1 c w' post) in H by done.
  apply crc_words_inj in H; [|by apply crc_words_range..|done]. by apply Hne, (crc_one_word c).
Qed.

(** The reference: the same polynomial bit by bit, on words read last byte first. *)
Definition crc_bits (c b : Z) : Z := Sk 8 (Z.lxor c (Z.shiftl b 24)).
Fixpoint swap_words (data : bytes) : bytes :=
  match data with b3 :: b2 :: b1 :: b0 :: rest => b0 :: b1 :: b2 :: b3 :: swap_words rest | _ => [] end.

Lemma crc_words_cons c b3 b2 b1 b0 l :
  crc_words c (b3 :: b2 :: b1 :: b0 :: l) = crc_words (crc_byte (crc_byte (crc_byte (crc_byte c b0) b1) b2) b3) l.
Proof. reflexivity. Qed.
Lemma swap_words_cons b3 b2 b1 b0 l : swap_words (b3 :: b2 :: b1 :: b0 :: l) = [b0; b1; b2; b3] ++ swap_words l.
Proof. reflexivity. Qed.
Lemma fold_left_cons {A B} (f : A -> B -> A) b l a : fold_left f (b :: l) a = fold_left f l (f a b).
Proof. reflexivity. Qed.

(** The table-driven checksum is the bit-by-bit CRC of polynomial 0x04C11DB7
    over the little-endian words, most significant byte first. *)
Theorem crc_table_is_bitwise data : Forall byte_ok data ->
  crc32_unitree data = fold_left crc_bits (swap_words data) M32.
Proof.
  intros Hd. rewrite crc32_words by done. assert (word32 M32) as HM by (by split). revert HM. generalize M32.
  induction data as [data IH] using (induction_ltof1 _ (@length Z)). intros c Hc.
  destruct data as [|b3 [|b2 [|b1 [|b0 l]]]]; try done. rewrite crc_words_cons, swap_words_cons.
  repeat (apply Forall_cons in Hd as [? Hd]). rewrite IH; [|unfold ltof; simpl; lia|done|by repeat apply crc_byte_range].
  assert (forall x b, word32 x -> byte_ok b -> crc_bits x b = crc_byte x b) as Hbits by (intros; symmetry; by apply crc_byte_bits).
  assert (word32 (crc_byte c b0)) by (by apply crc_byte_range).
  assert (word32 (crc_byte (crc_byte c b0) b1)) by (by apply crc_byte_range).
  assert (word32 (crc_byte (crc_byte (crc_byte c b0) b1) b2)) by (by apply crc_byte_range).
  cbn [app]. rewrite !fold_left_cons, (Hbits c b0), (Hbits _ b1), (Hbits _ b2), (Hbits _ b3) by done. reflexivity.
Qed.

(** ** Frames *)

Lemma slice_mid h m t : slice (length h) (length h + length m) (h ++ m ++ t) = m.
Proof.
  unfold slice. rewrite drop_app_length. replace (length h + length m - length h)%nat with (length m) by lia. apply take_app_length.
Qed.

Lemma frame_parts (h m t : bytes) : length h = 2%nat -> length m = 20%nat -> length t = 4%nat ->
  length (h ++ m ++ t) = 26%nat /\ take 2 (h ++ m ++ t) = h /\
  slice 22 26 (h ++ m ++ t) = t /\ slice 2 22 (h ++ m ++ t) = m.
Proof.
  intros Hh Hm Ht. rewrite !length_app. split; [lia|]. split; [by rewrite <-Hh, take_app_length|]. split.
  - rewrite app_assoc. assert (length (h ++ m) = 22%nat) as Hl by (rewrite length_app; lia).
    pose proof (slice_mid (h ++ m) t []) as Hs. rewrite Hl, Ht, app_nil_r in Hs. exact Hs.
  - pose proof (slice_mid h m t) as Hs. by rewrite Hh, Hm in Hs.
Qed.

(** What decoding does on 26 bytes. *)
Lemma unpack_parts sp h m t : length h = 2%nat -> length m = 20%nat -> length t = 4%nat ->
  unpack_state (h ++ m ++ t) sp =
    (raise_if negb (bool_decide (h = header_fb)) of ValueError "S288 feedback header mismatch" ;;
     raise_if negb (le_val t =? crc32_unitree m) of ValueError "S288 feedback CRC mismatch" ;;
     match m with [] => Err StructError | mode :: body => decode_fbk sp mode (read FBK_FMT (body ++ t)) end).
Proof.
  intros Hh Hm Ht. destruct (frame_parts h m t Hh Hm Ht) as (L1 & L2 & L3 & L4).
  unfold unpack_state. rewrite L1, L2, L3, L4. cbn [Nat.ltb Nat.leb response_len].
  destruct h as [|h0 [|h1 [|]]]; try done. destruct m as [|mode body]; [done|]. reflexivity.
Qed.

(** A feedback frame that decodes is refused once any one aligned 4-byte word
    of its checked part is changed, however it is changed. *)
Theorem corrupted_feedback_refused sp n h pre w w' post tail st :
  length h = 2%nat -> length pre = (4 * n)%nat -> length w = 4%nat -> length w' = 4%nat ->
  length (pre ++ w ++ post) = 20%nat -> length tail = 4%nat ->
  Forall byte_ok (pre ++ w ++ post) -> Forall byte_ok w' -> w <> w' ->
  unpack_state (h ++ (pre ++ w ++ post) ++ tail) sp = Ok st ->
  unpack_state (h ++ (pre ++ w' ++ post) ++ tail) sp = Err (ValueError "S288 feedback CRC mismatch").
Proof.
  intros Hh Hpre Hw Hw' Hlen Ht Hok Hok' Hne.
  assert (crc32_unitree (pre ++ w ++ post) <> crc32_unitree (pre ++ w' ++ post)) as Hcrc by (by apply (crc_word_error n)).
  assert (length (pre ++ w' ++ post) = 20%nat) as Hlen' by (rewrite !length_app in *; lia).
  rewrite !unpack_parts by done. destruct (negb (bool_decide (h = header_fb))); [done|].
  destruct (Z.eqb_spec (le_val tail) (crc32_unitree (pre ++ w ++ post))) as [E|]; [|done]. intros _.
  destruct (Z.eqb_spec (le_val tail) (crc32_unitree (pre ++ w' ++ post))); [congruence|done].
Qed.

Lemma lor_add_low h lo k : 0 <= k -> 0 <= lo < 2 ^ k -> Z.lor lo (Z.shiftl h k) = lo + h * 2 ^ k.
Proof.
  intros Hk Hlo. rewrite <-Z.shiftl_mul_pow2, Z.add_comm, <-(lxor_add_low h lo k), Z.lor_comm by lia. symmetry. apply Z.lxor_lor.
  apply Z.bits_inj'. intros n Hn. rewrite Z.land_spec, Z.bits_0.
  destruct (Z.ltb_spec n k); [by rewrite Z.shiftl_spec_low by lia|].
  rewrite <-(Z.mod_small lo (2 ^ k)) by lia. by rewrite Z.mod_pow2_bits_high, andb_false_r by lia.
Qed.

Lemma land_15 x : Z.land x 0x0F = x mod 16.
Proof. exact (Z.land_ones x 4 ltac:(lia)). Qed.
Lemma land_7 x : Z.land x 0x07 = x mod 8.
Proof. exact (Z.land_ones x 3 ltac:(lia)). Qed.
Lemma land_1FFF x : Z.land x 0x1FFF = x mod 2 ^ 13.
Proof. exact (Z.land_ones x 13 ltac:(lia)). Qed.

Lemma mode_byte_fields id mode t :
  byte_ok (mode_byte id mode t) /\ Z.land (mode_byte id mode t) 0x0F = Z.land id 0x0F /\
  Z.land (Z.shiftr (mode_byte id mode t) 4) 0x07 = Z.land mode 0x07 /\ Z.shiftr (mode_byte id mode t) 7 = (if t then 1 else 0).
Proof.
  unfold mode_byte, byte_ok. rewrite !land_15, !land_7.
  pose proof (Z.mod_pos_bound id 16) as Ha. pose proof (Z.mod_pos_bound mode 8) as Hb.
  revert Ha Hb. generalize (id mod 16), (mode mod 8). intros a b Ha Hb.
  rewrite (lor_add_low b a 4), lor_add_low by lia. rewrite !Z.shiftr_div_pow2 by lia. split; [destruct t; lia|]. split.
  { symmetry. apply (Z.mod_unique _ _ (b + (if t then 8 else 0))); destruct t; lia. }
  split; [|symmetry; apply (Z.div_unique _ _ _ (a + b * 16)); destruct t; lia].
  assert ((a + b * 2 ^ 4 + (if t then 1 else 0) * 2 ^ 7) / 2 ^ 4 = b + (if t then 8 else 0)) as ->.
  { symmetry. apply (Z.div_unique _ _ _ a); destruct t; lia. }
  symmetry. apply (Z.mod_unique _ _ (if t then 1 else 0)); destruct t; lia.
Qed.

Lemma outpos_fields n w :
  let o := Z.lor (Z.land (Z.land n 0x1FFF) 0x1FFF) (Z.shiftl (Z.land w 0x07) 13) in
  0 <= o < 65536 /\ Z.land o 0x1FFF = Z.land n 0x1FFF /\ Z.land (Z.shiftr o 13) 0x07 = Z.land w 0x07.
Proof.
  cbv zeta. rewrite !land_7, !land_1FFF, Z.mod_mod by lia.
  pose proof (Z.mod_pos_bound n (2 ^ 13)) as Ha. pose proof (Z.mod_pos_bound w 8) as Hb.
  revert Ha Hb. generalize (n mod 2 ^ 13), (w mod 8). intros a b Ha Hb.
  rewrite lor_add_low, Z.shiftr_div_pow2 by lia. split; [lia|]. split.
  - symmetry. apply (Z.mod_unique _ _ b); lia.
  - assert ((a + b * 2 ^ 13) / 2 ^ 13 = b) as -> by (symmetry; apply (Z.div_unique _ _ _ a); lia). apply Z.mod_small. lia.
Qed.

Lemma clip16_range v : - 2 ^ 15 <= clip16 v < 2 ^ 15.
Proof. unfold clip16. lia. Qed.
Lemma clip32_range v : - 2 ^ 31 <= clip32 v < 2 ^ 31.
Proof. unfold clip32. lia. Qed.
Lemma raw16_ok x : isfinite x = true -> exists v, raw16 x = Ok v /\ - 2 ^ 15 <= v < 2 ^ 15.
Proof.
  intros Hx. unfold raw16. assert (exists n, py_round x = Ok n) as [n ->] by (destruct x; try done; simpl; eauto).
  exists (clip16 n). split; [done|apply clip16_range].
Qed.
Lemma raw32_ok x : isfinite x = true -> exists v, raw32 x = Ok v /\ - 2 ^ 31 <= v < 2 ^ 31.
Proof.
  intros Hx. unfold raw32. assert (exists n, py_round x = Ok n) as [n ->] by (destruct x; try done; simpl; eauto).
  exists (clip32 n). split; [done|apply clip32_range].
Qed.

Lemma pack_N w v : (0 < w)%nat -> - 2 ^ (8 * Z.of_nat w - 1) <= v < 2 ^ (8 * Z.of_nat w - 1) ->
  exists b, pack1 (N w) (VI v) = Ok b /\ length b = w.
Proof.
  intros Hw Hv. unfold pack1. rewrite (proj2 (Z.leb_le _ _)), (proj2 (Z.ltb_lt _ _)) by lia. cbn [andb negb].
  eexists. split; [done|apply le_length].
Qed.

Lemma crc32_range data : 0 <= crc32_unitree data < 256 ^ 4.
Proof. unfold crc32_unitree. rewrite M32_ones, Z.land_ones by lia. apply Z.mod_pos_bound. lia. Qed.
Lemma pack_crc data : pack [U 4] [VI (crc32_unitree data)] = Ok (le 4 (crc32_unitree data)).
Proof.
  pose proof (crc32_range data) as H. unfold pack, pack1. change (256 ^ Z.of_nat 4) with (256 ^ 4).
  rewrite (proj2 (Z.leb_le _ _)), (proj2 (Z.ltb_lt _ _)) by lia. cbn [andb negb rbind]. by rewrite app_nil_r.
Qed.

(** The five raw values of a command. *)
Definition raw_values (c : S288Command) (sp : S288Spec) : list float :=
  [output_torque_to_raw sp (tau_out c); output_spd_to_raw sp (dq_out c); output_pos_to_raw sp (q_out c);
   output_kp_to_raw sp (kp_out c); output_kd_to_raw sp (kd_out c)].

Lemma comd_packs tor spd pos kp kd :
  - 2 ^ 15 <= tor < 2 ^ 15 -> - 2 ^ 15 <= spd < 2 ^ 15 -> - 2 ^ 31 <= pos < 2 ^ 31 -> - 2 ^ 15 <= kp < 2 ^ 15 -> - 2 ^ 15 <= kd < 2 ^ 15 ->
  exists b, pack COMD_FMT [VI tor; VI spd; VI pos; VI kp; VI kd] = Ok b.
Proof.
  intros H1 H2 H3 H4 H5.
  destruct (pack_N 2 tor) as (b1 & E1 & _); [lia..|]. destruct (pack_N 2 spd) as (b2 & E2 & _); [lia..|].
  destruct (pack_N 4 pos) as (b3 & E3 & _); [lia..|]. destruct (pack_N 2 kp) as (b4 & E4 & _); [lia..|].
  destruct (pack_N 2 kd) as (b5 & E5 & _); [lia..|].
  eexists. unfold COMD_FMT. cbn [pack]. rewrite E1, E2, E3, E4, E5. cbn [rbind]. reflexivity.
Qed.

(** Whatever the target, a command whose five raw values are finite packs: every
    field saturates instead of overflowing.  The frame is 20 bytes with the
    header and the mode byte, its fields read back as the saturated rounded
    values, and its last word is the checksum of the first 16 bytes. *)
Theorem command_frame id c sp mode timeout :
  all_finite (raw_values c sp) = true ->
  exists tor spd pos kp kd frame,
    rmap raw16 [output_torque_to_raw sp (tau_out c); output_spd_to_raw sp (dq_out c);
                output_kp_to_raw sp (kp_out c); output_kd_to_raw sp (kd_out c)] = Ok [tor; spd; kp; kd] /\
    raw32 (output_pos_to_raw sp (q_out c)) = Ok pos /\
    pack_command id c sp mode timeout = Ok frame /\ length frame = control_len /\
    take 3 frame = header_cmd ++ [mode_byte id (default MODE_FOC mode) (default true timeout)] /\
    read COMD_FMT (drop 4 frame) = [VI tor; VI spd; VI pos; VI kp; VI kd] /\
    le_val (drop 16 frame) = crc32_unitree (take 16 frame).
Proof.
  unfold raw_values. cbn [all_finite forallb]. intros Hf. repeat (apply andb_true_iff in Hf as [? Hf]).
  destruct (raw16_ok (output_torque_to_raw sp (tau_out c))) as (tor & R1 & B1); [done|].
  destruct (raw16_ok (output_spd_to_raw sp (dq_out c))) as (spd & R2 & B2); [done|].
  destruct (raw32_ok (output_pos_to_raw sp (q_out c))) as (pos & R3 & B3); [done|].
  destruct (raw16_ok (output_kp_to_raw sp (kp_out c))) as (kp & R4 & B4); [done|].
  destruct (raw16_ok (output_kd_to_raw sp (kd_out c))) as (kd & R5 & B5); [done|].
  destruct (comd_packs tor spd pos kp kd B1 B2 B3 B4 B5) as (comd & Ec).
  destruct (pack_ok _ _ _ (le 4 (crc32_unitree (header_cmd ++ [mode_byte id (default MODE_FOC mode) (default true timeout); 0] ++ comd))) Ec)
    as [Lc Rc]; [by repeat constructor|].
  set (fr := header_cmd ++ [mode_byte id (default MODE_FOC mode) (default true timeout); 0] ++ comd) in *.
  assert (length fr = 16%nat) as Lf by (unfold fr; rewrite !length_app, Lc; done).
  exists tor, spd, pos, kp, kd, (fr ++ le 4 (crc32_unitree fr)).
  split; [cbn [rmap]; by rewrite R1, R2, R4, R5|]. split; [done|]. split.
  { unfold pack_command. rewrite R1, R2, R3, R4, R5. cbn [rbind]. rewrite Ec. cbn [rbind]. fold fr. rewrite pack_crc. done. }
  split; [rewrite length_app, Lf, le_length; done|]. split; [done|]. split.
  - change (drop 4 (fr ++ le 4 (crc32_unitree fr))) with (comd ++ le 4 (crc32_unitree fr)). exact Rc.
  - rewrite <-Lf, take_app_length, drop_app_length. apply le_val_le. pose proof (crc32_range fr). simpl. lia.
Qed.

(** A feedback frame built from physical values decodes, and decodes to exactly
    the state of the saturated raw values: the motor id's low four bits, the
    error word, the 13-bit output angle and the three warning bits come back. *)
Theorem feedback_roundtrip id sp a frame :
  build_feedback_frame id sp a = Ok frame ->
  length frame = response_len /\
  exists tor spd pos outpos vol,
    raw16 (output_torque_to_raw sp (a_tau a)) = Ok tor /\ raw16 (output_spd_to_raw sp (a_dq a)) = Ok spd /\
    raw32 (output_pos_to_raw sp (a_q a)) = Ok pos /\ outpos_word sp (a_ex a) (a_warn a) = Ok outpos /\
    let st := state_of sp (mode_byte id (a_mode a) (a_timeout a)) (a_temp a) (Z.land (a_sensor a) 0xFF) vol tor spd pos
                (Z.land (a_error a) M32) outpos in
    unpack_state frame sp = Ok st /\ motor_id st = Z.land id 0x0F /\ error st = Z.land (a_error a) M32 /\
    warn st = Z.land (a_warn a) 0x07.
Proof.
  intros H. unfold build_feedback_frame in H. inv_chain H. rename a0 into pos, a1 into spd, a2 into tor, a3 into outpos, a4 into v, a5 into fbk.
  set (vol := Z.land (Z.max 0 (Z.min 255 v)) 0xFF) in *.
  destruct (pack_ok _ _ _ a6 Heqr4) as [Lf Rf]; [by repeat constructor|].
  rewrite pack_crc in Heqr5. set (mb := mode_byte id (a_mode a) (a_timeout a)) in *.
  assert (slice 2 22 (header_fb ++ [mb] ++ fbk) = mb :: fbk) as Es.
  { unfold slice. change (drop 2 (header_fb ++ [mb] ++ fbk)) with (mb :: fbk). apply take_ge. simpl. rewrite Lf. done. }
  rewrite Es in Heqr5. assert (a6 = le 4 (crc32_unitree (mb :: fbk))) as -> by congruence.
  assert (frame = (header_fb ++ [mb] ++ fbk) ++ le 4 (crc32_unitree (mb :: fbk))) as -> by congruence.
  set (cs := le 4 (crc32_unitree (mb :: fbk))) in *.
  assert (length cs = 4%nat) as Lc by apply le_length.
  change ((header_fb ++ [mb] ++ fbk) ++ cs) with (header_fb ++ (mb :: fbk) ++ cs).
  assert (length (mb :: fbk) = 20%nat) as Lm by (simpl; rewrite Lf; done).
  destruct (frame_parts header_fb (mb :: fbk) cs eq_refl Lm Lc) as (Ll & _).
  split; [done|]. exists tor, spd, pos, outpos, vol. split_and!; try done. cbv zeta. split_and!; try done.
  - rewrite unpack_parts by done. rewrite bool_decide_true by done. cbn [negb].
    assert (le_val cs = crc32_unitree (mb :: fbk)) as -> by (apply le_val_le; pose proof (crc32_range (mb :: fbk)); simpl; lia).
    rewrite Z.eqb_refl. cbn [negb]. by rewrite Rf.
  - apply mode_byte_fields.
  - unfold outpos_word in Heqr2. inv_ok Heqr2. apply outpos_fields.
Qed.

(** ** The bus *)

Lemma fill_prefix need buf ps : buf `prefix_of` (fill need buf ps).1.
Proof.
  revert buf. induction ps as [|[|bs] ps IH]; intros buf; cbn [fill]; destruct (length buf <? need)%nat; try done.
  etrans; [|apply IH]. by apply prefix_app_r.
Qed.

Lemma find_at_spec pat l i k : find_at pat l i = Some k -> (i <= k)%nat /\ take (length pat) (drop (k - i) l) = pat.
Proof.
  revert i. induction l as [|x l IH]; intros i; cbn [find_at].
  - destruct (bool_decide _) eqn:E; [|done]. intros [= <-]. apply bool_decide_eq_true in E. by rewrite Nat.sub_diag.
  - destruct (bool_decide (take (length pat) (x :: l) = pat)) eqn:E.
    + intros [= <-]. apply bool_decide_eq_true in E. by rewrite Nat.sub_diag.
    + intros H. destruct (IH (S i) H) as [H1 H2]. split; [lia|]. replace (k - i)%nat with (S (k - S i)) by lia. exact H2.
Qed.

Lemma prefix_window (a b pat : bytes) k : a `prefix_of` b -> take (length pat) (drop k a) = pat -> take (length pat) (drop k b) = pat.
Proof.
  intros [c ->] H. destruct (decide (k <= length a)%nat).
  - rewrite drop_app_le by lia. rewrite take_app_le; [done|]. apply (f_equal length) in H. rewrite length_take in H. lia.
  - rewrite drop_ge, take_nil in H by lia. by rewrite <-H.
Qed.

(** Whatever chunks, noise and pauses the port shows, an answer of
    [read_response] is exactly one frame long and starts with the feedback
    header, so decoding it can only fail on the checksum. *)
Theorem response_is_framed ps f sp : read_response ps = Some f ->
  length f = response_len /\ take 2 f = header_fb /\
  (forall e, unpack_state f sp = Err e -> e = ValueError "S288 feedback CRC mismatch").
Proof.
  unfold read_response. destruct (fill response_len [] ps) as [buf rest].
  destruct (find_at header_fb buf 0) as [idx|] eqn:Ef; [|done].
  pose proof (fill_prefix (idx + response_len) buf rest) as Hp.
  destruct (fill (idx + response_len) buf rest) as [buf' rest']. cbn [fst] in Hp.
  destruct (length buf' <? idx + response_len)%nat eqn:El; [done|]. apply Nat.ltb_ge in El. intros [= <-].
  apply find_at_spec in Ef as [_ Hh]. rewrite Nat.sub_0_r in Hh. apply (prefix_window _ _ _ _ Hp) in Hh.
  assert (length (slice idx (idx + response_len) buf') = response_len) as Hlen.
  { unfold slice. rewrite length_take, length_drop. unfold response_len in *. lia. }
  assert (take 2 (slice idx (idx + response_len) buf') = header_fb) as Htake.
  { unfold slice. rewrite take_take. replace (2 `min` (idx + response_len - idx))%nat with 2%nat by (unfold response_len; lia). exact Hh. }
  split; [done|]. split; [done|]. intros e He. revert Hlen Htake He. generalize (slice idx (idx + response_len) buf').
  clear. intros f Hlen Htake He. rewrite <-(take_drop 2 f), <-(take_drop 20 (drop 2 f)), Htake in He.
  rewrite unpack_parts in He by (rewrite ?length_take, ?length_drop, ?Hlen; done).
  rewrite bool_decide_true in He by done. cbn [negb] in He. destruct (negb _) in He; [congruence|].
  by destruct f as [|h0 [|h1 [|m f]]].
Qed.

Lemma exchange_spec b id c x b' : exchange_one b id c x = Ok b' ->
  ids b' = ids b /\ spec b' = spec b /\ exists payload st, read_response (polls x) = Some payload /\ unpack_state payload (spec b) = Ok st /\
    last_states b' = <[id := st]> (last_states b).
Proof.
  unfold exchange_one. intros H. inv_chain H. injection H as <-. split; [done|]. split; [done|]. eauto.
Qed.

Definition fresh_state (sp : S288Spec) (xs : Z -> exchange_in) (id : Z) (m : gmap Z S288State) : Prop :=
  exists payload st, read_response (polls (xs id)) = Some payload /\ unpack_state payload sp = Ok st /\ m !! id = Some st.

Lemma read_round_fresh l b xs b' : read_round b l xs = (b', None) ->
  forall id, (id ∈ l \/ fresh_state (spec b) xs id (last_states b)) -> fresh_state (spec b) xs id (last_states b').
Proof.
  revert b. induction l as [|i l IH]; intros b H id Hid; cbn [read_round] in H.
  { injection H as <-. destruct Hid as [Hid|]; [by apply elem_of_nil in Hid|done]. }
  destruct (exchange_one _ _ _ _) as [b1|] eqn:E; [|done].
  destruct (exchange_spec _ _ _ _ _ E) as (_ & Hs & payload & st & E1 & E2 & E3). rewrite <-Hs. apply (IH b1 H). rewrite Hs, E3.
  destruct (decide (id = i)) as [-> |Hne].
  - right. exists payload, st. by rewrite lookup_insert_eq.
  - destruct Hid as [Hid|(p & s & P1 & P2 & P3)].
    + left. by apply elem_of_cons in Hid as [|].
    + right. exists p, s. by rewrite lookup_insert_ne.
Qed.

(** A successful poll of the bus returns, for every motor, the state decoded
    from the answer it got in this very round: never a remembered one. *)
Theorem read_states_fresh b xs b' m : read_states b xs = (b', Ok m) -> forall id, id ∈ ids b -> fresh_state (spec b) xs id m.
Proof.
  unfold read_states. destruct (read_round b (ids b) xs) as [b1 [e|]] eqn:E; [done|]. intros [= <- <-] id Hid.
  apply (read_round_fresh _ _ _ _ E). by left.
Qed.

(** ** A servo on the wire *)

Module S288Demo.
Definition args : fb_args := {|
  a_q := f1; a_dq := f0; a_tau := f0; a_temp := 25; a_sensor := 30; a_vol := ftwo; a_error := 0; a_ex := f1; a_warn := 5;
  a_mode := 1; a_timeout := true |}.
Definition frame (id : Z) : bytes := match build_feedback_frame id default_spec args with Ok f => f | Err _ => [] end.
Definition command1 : S288Command := {| q_out := f1; dq_out := f0; tau_out := f0; kp_out := f1; kd_out := f1 |}.
Definition noise : bytes := [0x00; 0xFC; 0x13].
Definition answer (id : Z) : exchange_in := {|
  attempts := fun k => match k with O => Some (TimeoutError "write") | _ => None end;
  polls := [Got noise; Got (take 23 (frame id)); Got (drop 23 (frame id))] |}.
Definition bus : SerialS288Bus := SerialS288Bus_new [3; 4] default_spec 4.

Example crc_table_is_bitwise_witness : crc32_unitree [1; 2; 3; 4; 5; 6; 7; 8] = fold_left crc_bits [4; 3; 2; 1; 8; 7; 6; 5] M32.
Proof. exact (crc_table_is_bitwise [1; 2; 3; 4; 5; 6; 7; 8] ltac:(repeat (constructor; [split; lia|]); constructor)). Defined.

Example command_frame_witness : exists tor spd pos kp kd f,
  rmap raw16 [output_torque_to_raw default_spec f0; output_spd_to_raw default_spec f0;
              output_kp_to_raw default_spec f1; output_kd_to_raw default_spec f1] = Ok [tor; spd; kp; kd] /\
  raw32 (output_pos_to_raw default_spec f1) = Ok pos /\
  pack_command 3 command1 default_spec None None = Ok f /\ length f = control_len /\
  take 3 f = header_cmd ++ [mode_byte 3 MODE_FOC true] /\
  read COMD_FMT (drop 4 f) = [VI tor; VI spd; VI pos; VI kp; VI kd] /\ le_val (drop 16 f) = crc32_unitree (take 16 f).
Proof. exact (command_frame 3 command1 default_spec None None eq_refl). Defined.

Example feedback_roundtrip_witness : build_feedback_frame 3 default_spec args = Ok (frame 3) /\ length (frame 3) = response_len.
Proof.
  assert (build_feedback_frame 3 default_spec args = Ok (frame 3)) as H by (vm_compute; reflexivity).
  split; [exact H|]. exact (proj1 (feedback_roundtrip 3 default_spec args (frame 3) H)).
Defined.

Example corrupted_feedback_refused_witness :
  unpack_state (header_fb ++ ([] ++ [0; 0; 0; 0] ++ drop 6 (take 22 (frame 3))) ++ drop 22 (frame 3)) default_spec =
    Err (ValueError "S288 feedback CRC mismatch").
Proof.
  eapply (corrupted_feedback_refused default_spec 0 header_fb [] (take 4 (drop 2 (frame 3))) [0; 0; 0; 0]
    (drop 6 (take 22 (frame 3))) (drop 22 (frame 3))); try (vm_compute; reflexivity).
  - vm_compute. repeat (constructor; [split; [discriminate|reflexivity]|]). constructor.
  - repeat (constructor; [split; [discriminate|reflexivity]|]). constructor.
  - vm_compute. discriminate.
Defined.

Example response_is_framed_witness : read_response (polls (answer 3)) = Some (frame 3) /\ length (frame 3) = response_len.
Proof.
  assert (read_response (polls (answer 3)) = Some (frame 3)) as H by (vm_compute; reflexivity).
  split; [exact H|]. apply (response_is_framed (polls (answer 3)) (frame 3) default_spec H).
Defined.

Definition polled : SerialS288Bus * result (gmap Z S288State) := read_states bus answer.
Example read_states_fresh_witness : exists m, polled.2 = Ok m /\ fresh_state default_spec answer 4 m.
Proof.
  destruct polled as [b' [m|e]] eqn:E; [|exfalso; revert E; vm_compute; discriminate].
  exists m. split; [reflexivity|]. apply (read_states_fresh bus answer b' m E). right. left.
Defined.

(** The answering motor's id is not compared with the one addressed: motor 4
    is given the state motor 3 sent. *)
Example answer_of_any_motor_accepted :
  match read_states bus (fun _ => answer 3) with (_, Ok m) => motor_id <$> m !! 4 | _ => None end = Some 3.
Proof. vm_compute. reflexivity. Qed.
End S288Demo.
