(* ===== verification/Hand.v ===== *)
(** The self-sensing hand ([end_effectors/franka_hand.py] and
    [end_effectors/hand_move.py]): the command envelope of a gripper, the
    resolution of a request inside it, the grasp request/result state machine
    and the position-only move.

    A request or configuration dictionary is a finite map from keys to values; a
    number is its binary64 value.  A state sample holds the truth values the
    code reads from its keys. *)
From Stdlib Require Import SpecFloat PrimFloat FloatOps.
From S2P Require Import Prelude Floats.

Definition c_0 : float := f0.
Definition c_001 : float := Eval vm_compute in Prim2SF 0.001%float.
Definition c_075 : float := Eval vm_compute in Prim2SF 0.075%float.
Definition c_045 : float := Eval vm_compute in Prim2SF 0.045%float.
Definition c_05 : float := Eval vm_compute in Prim2SF 0.05%float.
Definition c_02 : float := Eval vm_compute in Prim2SF 0.02%float.
Definition c_40 : float := Eval vm_compute in Prim2SF 40%float.
Definition c_8 : float := Eval vm_compute in Prim2SF 8%float.

(** ** The envelope *)

Record HandLimits := { width_max_m : float; speed_max_mps : float; force_min_n : float; force_max_n : float }.
Definition force_grasp (l : HandLimits) : bool := force_max_n l >f f0.
Definition FRANKA_HAND : HandLimits := Eval vm_compute in {|
  width_max_m := Prim2SF 0.08%float; speed_max_mps := Prim2SF 0.10%float; force_min_n := Prim2SF 30%float;
  force_max_n := Prim2SF 70%float |}.

(** The words of a LIMITS line, its numbers already read by [float()]. *)
Definition parse_limits (head : string) (vs : list (result float)) : result HandLimits :=
  raise_if negb (length vs =? 4) || negb (bool_decide (head = "LIMITS")) of ValueError "LIMITS needs width_max speed_max force_min force_max" ;;
  xs <-- rmap (fun x => x) vs ;;
  let l := {| width_max_m := fget xs 0; speed_max_mps := fget xs 1; force_min_n := fget xs 2; force_max_n := fget xs 3 |} in
  raise_if negb (all_finite xs && (width_max_m l >f f0) && (speed_max_mps l >f f0)
                 && ((f0 <=f force_min_n l) && (force_min_n l <=f force_max_n l)))
    of ValueError "invalid hand limits" ;;
  Ok l.

Definition require_force_grasp (l : HandLimits) (mode : string) : result unit :=
  raise_if bool_decide (mode = "close") && negb (force_grasp l) of ValueError "this gripper has no calibrated force grasp" ;;
  Ok tt.

(** ** Request parameters *)

Inductive jval := JNum (x : float) | JStr (s : string) | JBool (b : bool) | JOther.
Abbreviation dict := (gmap string jval).
Definition dget (d : dict) (k : string) (x : jval) : jval := default x (d !! k).

Record params := {
  width_m : float; force_n : float; speed_mps : float; epsilon_inner_m : float; epsilon_outer_m : float; open_width_m : float }.

(** [x == v] of a float and a dictionary value. *)
Definition num_eq (x : float) (v : jval) : bool :=
  match v with JNum y => x =f y | JBool b => x =f (if b then f1 else f0) | _ => false end.

Definition in_range (lo hi : float) (positive : bool) (v : jval) : result float :=
  match v with
  | JNum x => raise_if negb (isfinite x) || negb ((lo <=f x) && (x <=f hi)) || (positive && (x =f f0))
                of ValueError "must be finite numeric in its range" ;; Ok x
  | _ => Err (ValueError "must be finite numeric in its range")
  end.

(** [mode] of a payload: a key that is not there is ["close"]. *)
Definition mode_of (payload : dict) : jval := dget payload "mode" (JStr "close").

Definition resolve_grasp_parameters (config payload : dict) (l : HandLimits) : result params :=
  mode <-- match mode_of payload with
           | JStr "close" => Ok false
           | JStr "release" => Ok true
           | _ => Err (ValueError "mode must be close or release")
           end ;;
  let value k d := dget payload k (dget config k (JNum d)) in
  let width := dget payload "width_m" (if mode then dget config "open_width_m" (JNum c_075) else dget config "grasp_width_m" (JNum c_045)) in
  w <-- in_range f0 (width_max_m l) false width ;;
  f <-- (if force_grasp l then in_range (force_min_n l) (force_max_n l) false (value "force_n" c_40) else Ok f0) ;;
  s <-- in_range f0 (speed_max_mps l) true (value "speed_mps" c_05) ;;
  ei <-- in_range f0 (width_max_m l) false (value "epsilon_inner_m" c_02) ;;
  eo <-- in_range f0 (width_max_m l) false (value "epsilon_outer_m" c_02) ;;
  ow <-- in_range f0 (width_max_m l) false (value "open_width_m" c_075) ;;
  raise_if mode && (negb (num_eq w (dget config "open_width_m" (JNum c_075))) || negb (num_eq s (dget config "speed_mps" (JNum c_05))))
    of ValueError "release must use configured open width and speed" ;;
  Ok {| width_m := w; force_n := f; speed_mps := s; epsilon_inner_m := ei; epsilon_outer_m := eo; open_width_m := ow |}.

(** ** Grasp requests *)

Module Grasp.
Definition GRASP_TIMEOUT_S : float := c_8.

(** A state sample; [sample_seq] is [None] when the key is missing. *)
Record sample := { measured : bool; busy : bool; sample_seq : option Z; is_grasped : bool; width : float }.
Record answer := { request_id : string; target_id : string; ok : bool; reason : string }.
Record pend := {
  p_request_id : string; p_target_id : string; deadline : float; gdone_base : Z; p_release : bool; p_width_m : float }.

Record t := {
  measured_completion : bool; config : dict; limits : HandLimits; parameters : params;
  pending : option pend; held : option pend; held_seen_grasped : bool }.

Definition new (cfg : dict) (measured_completion : bool) : result t :=
  p <-- resolve_grasp_parameters cfg ∅ FRANKA_HAND ;;
  Ok {| measured_completion := measured_completion; config := cfg; limits := FRANKA_HAND; parameters := p;
        pending := None; held := None; held_seen_grasped := false |}.

Definition with_jaws (s : t) (p h : option pend) (seen : bool) : t := {|
  measured_completion := measured_completion s; config := config s; limits := limits s; parameters := parameters s;
  pending := p; held := h; held_seen_grasped := seen |}.
Definition with_parameters (s : t) (p : params) : t := {|
  measured_completion := measured_completion s; config := config s; limits := limits s; parameters := p;
  pending := pending s; held := held s; held_seen_grasped := held_seen_grasped s |}.

Definition answer_of (p : pend) (ok : bool) (why : string) : answer := {|
  request_id := p_request_id p; target_id := p_target_id p; ok := ok; reason := why |}.

Inductive action := DoGrasp | DoOpen.

(** [on_request]; [rid] and [tid] are the payload's ids. *)
Definition on_request (s : t) (payload : dict) (rid tid : string) (gdone : Z) (now : float) : t * option action * option answer :=
  let mode := match mode_of payload with JStr m => m | _ => "?" end in
  match (_ <-- require_force_grasp (limits s) mode ;; resolve_grasp_parameters (config s) payload (limits s)) with
  | Err _ => (s, None, Some {| request_id := rid; target_id := tid; ok := false; reason := "refused" |})
  | Ok p =>
      let s := with_parameters s p in
      let release := bool_decide (mode = "release") in
      if release && negb (measured_completion s) then
        (with_jaws s None None (held_seen_grasped s), Some DoOpen,
         Some {| request_id := rid; target_id := tid; ok := true; reason := "released" |})
      else
        (with_jaws s (Some {| p_request_id := rid; p_target_id := tid; deadline := now +f GRASP_TIMEOUT_S; gdone_base := gdone;
                              p_release := release; p_width_m := width_m p |}) None (held_seen_grasped s),
         Some (if release then DoOpen else DoGrasp), None)
  end.

Definition fail (s : t) (why : string) (rid : option string) : t * option answer :=
  let p := match pending s with Some p => Some p | None => held s end in
  if match rid with
     | Some i => match p with Some p => negb (bool_decide (p_request_id p = i)) | None => true end
     | None => false
     end
  then (s, None)
  else (with_jaws s None None (held_seen_grasped s), (fun p => answer_of p false why) <$> p).

Definition confirms (p : pend) (st : sample) : bool :=
  if p_release p then negb (is_grasped st) && (fabs (width st -f p_width_m p) <=f c_001) else is_grasped st.
Definition fresh (st : option sample) (done_seq : Z) : option sample :=
  match st with
  | Some x => if measured x && negb (busy x) && (done_seq <? default (-1) (sample_seq x))%Z then Some x else None
  | None => None
  end.

Definition poll_measured (s : t) (p : pend) (st : option sample) (gdone : Z) (gdone_ok : bool) (now : float) (done_seq : Z)
    : t * option answer :=
  let late := if now >=f deadline p then fail s "hand action completion/measurement timeout" None else (s, None) in
  if (gdone_base p <? gdone)%Z then
    if negb gdone_ok then fail s "hand action failed" None
    else match fresh st done_seq with
         | Some x =>
             if negb (confirms p x) then fail s "measured Hand state does not confirm action" None
             else (with_jaws s None (if p_release p then held s else Some p) (if p_release p then held_seen_grasped s else true),
                   Some (answer_of p true (if p_release p then "released" else "grasped")))
         | None => late
         end
  else late.

Definition poll_verdict (s : t) (p : pend) (st : option sample) (gdone : Z) (gdone_ok : bool) (now : float) : t * option answer :=
  if (gdone_base p <? gdone)%Z then
    if gdone_ok then (with_jaws s None (Some p) false, Some (answer_of p true "grasped"))
    else (with_jaws s None (held s) (held_seen_grasped s), Some (answer_of p false "no object"))
  else if now >=f deadline p then
    if match st with Some x => is_grasped x | None => false end
    then (with_jaws s None (Some p) false, Some (answer_of p true "grasped (is_grasped fallback)"))
    else (with_jaws s None (held s) (held_seen_grasped s), Some (answer_of p false "no result from hand (timeout)"))
  else (s, None).

Definition poll_held (s : t) (st : option sample) : t * option answer :=
  match held s with
  | None => (s, None)
  | Some h =>
      match st with
      | None => if measured_completion s then fail s "held Hand feedback stale" None else (s, None)
      | Some x =>
          if is_grasped x then (with_jaws s (pending s) (held s) true, None)
          else if held_seen_grasped s
          then (with_jaws s (pending s) None (held_seen_grasped s), Some (answer_of h false "object lost"))
          else (s, None)
      end
  end.

Definition poll (s : t) (st : option sample) (gdone : Z) (gdone_ok : bool) (now : float) (done_seq : Z) : t * option answer :=
  match pending s with
  | Some p => if measured_completion s then poll_measured s p st gdone gdone_ok now done_seq
              else poll_verdict s p st gdone gdone_ok now
  | None => poll_held s st
  end.
End Grasp.

(** ** Position-only moves *)

Module Move.
Record sample := {
  available : bool; measured : bool; busy : bool; is_grasped : bool; sample_seq : option Z; width : option jval }.
Record pend := { p_request_id : string; p_width_m : float; deadline : float; done_seq : option Z }.
Record t := { pending : option pend; limits : HandLimits }.
Definition new : t := {| pending := None; limits := FRANKA_HAND |}.
Record answer := { request_id : string; ok : bool; reason : string; width_m : option float }.

Definition seq_of (s : sample) : Z := default 0%Z (sample_seq s).

(** [start]: the MOVE command's width and speed. *)
Definition start (s : t) (request : dict) (st : sample) (now : float) : result (t * (float * float)) :=
  raise_if match pending s with Some _ => true | None => false end of ValueError "hand move already pending" ;;
  rid <-- match request !! "request_id" with
          | Some (JStr i) => raise_if bool_decide (i = "") of ValueError "hand move requires a request_id" ;; Ok i
          | _ => Err (ValueError "hand move requires a request_id")
          end ;;
  raise_if negb (available st && measured st) || busy st of ValueError "hand unavailable, stale, or busy" ;;
  raise_if is_grasped st of ValueError "position move refused while holding an object" ;;
  raise_if match request !! "width_m", request !! "speed_mps" with Some _, Some _ => false | _, _ => true end
    of ValueError "position move requires explicit width and speed" ;;
  p <-- resolve_grasp_parameters ∅ request (limits s) ;;
  Ok ({| pending := Some {| p_request_id := rid; p_width_m := Hand.width_m p; deadline := now +f c_8; done_seq := None |};
         limits := limits s |}, (Hand.width_m p, speed_mps p)).

Definition fail (s : t) (why : string) : t * option answer :=
  match pending s with
  | None => (s, None)
  | Some p => ({| pending := None; limits := limits s |},
               Some {| request_id := p_request_id p; ok := false; reason := why; width_m := None |})
  end.

(** [done] of a result with its id, verdict and reason. *)
Definition done_ (s : t) (rid : string) (rok : bool) (why : option string) (st : sample) : t * option answer :=
  match pending s with
  | None => (s, None)
  | Some p =>
      if negb (bool_decide (rid = p_request_id p)) then (s, None)
      else if negb rok then fail s (default "hand move failed" why)
      else ({| pending := Some {| p_request_id := p_request_id p; p_width_m := p_width_m p; deadline := deadline p;
                                  done_seq := Some (seq_of st) |}; limits := limits s |}, None)
  end.

Definition at_target (p : pend) (w : option jval) : option float :=
  match w with
  | Some (JNum x) => if isfinite x && negb (fabs (x -f p_width_m p) >f c_001) then Some x else None
  | _ => None
  end.

Definition poll (s : t) (st : sample) (now : float) : t * option answer :=
  match pending s with
  | None => (s, None)
  | Some p =>
      if negb (available st) then fail s "hand unavailable"
      else if now >=f deadline p then fail s "hand move timeout"
      else if negb (measured st) then (s, None)
      else if is_grasped st then fail s "unexpected object in position-only move"
      else if match done_seq p with None => true | Some d => (seq_of st <=? d)%Z end then (s, None)
      else if busy st then (s, None)
      else match at_target p (width st) with
           | None => fail s "hand stopped outside position tolerance"
           | Some x => ({| pending := None; limits := limits s |},
                        Some {| request_id := p_request_id p; ok := true; reason := "position reached"; width_m := Some x |})
           end
  end.
End Move.

(** ** Properties *)

Lemma in_range_ok lo hi pos v x : in_range lo hi pos v = Ok x ->
  isfinite x = true /\ fleb lo x = true /\ fleb x hi = true /\ (pos = true -> feqb x f0 = false).
Proof.
  destruct v as [y| | |]; simpl; try done. intros H. pass_guard H E. injection H as <-. breflect. split_and!; try done.
  intros ->. done.
Qed.

(** Inside a gripper's envelope: what a resolved request may command. *)
Definition inside_envelope (l : HandLimits) (p : params) : Prop :=
  (forall w, w ∈ [width_m p; epsilon_inner_m p; epsilon_outer_m p; open_width_m p] ->
     isfinite w = true /\ fleb f0 w = true /\ fleb w (width_max_m l) = true) /\
  isfinite (speed_mps p) = true /\ fltb f0 (speed_mps p) = true /\ fleb (speed_mps p) (speed_max_mps l) = true /\
  (if force_grasp l then fleb (force_min_n l) (force_n p) = true /\ fleb (force_n p) (force_max_n l) = true else force_n p = f0).

(** Every accepted request stays inside the gripper's stated envelope, whatever
    the configuration and the payload hold (a speed is positive, and a gripper
    without a force grasp is commanded no force); and a release uses the
    configured open width and speed. *)
Theorem resolved_inside_envelope config payload l p :
  resolve_grasp_parameters config payload l = Ok p ->
  inside_envelope l p /\
  (mode_of payload = JStr "release" ->
     num_eq (width_m p) (dget config "open_width_m" (JNum c_075)) = true /\
     num_eq (speed_mps p) (dget config "speed_mps" (JNum c_05)) = true).
Proof.
  unfold resolve_grasp_parameters. intros H. apply rbind_ok in H as (mode & Hm & H).
  apply rbind_ok in H as (w & Hw & H). apply rbind_ok in H as (f & Hf & H). apply rbind_ok in H as (s & Hs & H).
  apply rbind_ok in H as (ei & Hei & H). apply rbind_ok in H as (eo & Heo & H). apply rbind_ok in H as (ow & How & H).
  pass_guard H E. injection H as <-. cbn [width_m speed_mps].
  apply in_range_ok in Hw as (W1 & W2 & W3 & _). apply in_range_ok in Hei as (A1 & A2 & A3 & _).
  apply in_range_ok in Heo as (B1 & B2 & B3 & _). apply in_range_ok in How as (C1 & C2 & C3 & _).
  apply in_range_ok in Hs as (S1 & S2 & S3 & S4). specialize (S4 eq_refl). split.
  - unfold inside_envelope. cbn [width_m force_n speed_mps epsilon_inner_m epsilon_outer_m open_width_m]. split.
    { intros x Hx. repeat (apply elem_of_cons in Hx as [-> |Hx]; [done|]). by apply elem_of_nil in Hx. }
    split; [done|]. split.
    { destruct (f0 <f s) eqn:L; [done|]. apply fltb_false in L; [|done|by apply finite_not_nan].
      pose proof (fleb_antisym _ _ L S2). congruence. }
    split; [done|]. destruct (force_grasp l); [apply in_range_ok in Hf as (_ & ? & ? & _); done|by injection Hf as <-].
  - intros Hr. rewrite Hr in Hm. injection Hm as <-. cbn [andb] in E. apply orb_false_iff in E as [E1 E2].
    by apply negb_false_iff in E1, E2.
Qed.

Module GraspFacts.
Import Grasp.

(** With measured completion, success is claimed only for the pending
    request, after the hand reported that action done and well, on a measured
    idle sample taken after it that confirms the grasp (or, for a release, an
    empty hand within a millimetre of the opening). *)
Theorem success_is_measured s st gdone gok now dseq a :
  measured_completion s = true -> (poll s st gdone gok now dseq).2 = Some a -> ok a = true ->
  exists p x, pending s = Some p /\ request_id a = p_request_id p /\ (gdone_base p < gdone)%Z /\ gok = true /\
    st = Some x /\ measured x = true /\ busy x = false /\ (dseq < default (-1) (sample_seq x))%Z /\
    (if p_release p then is_grasped x = false /\ fleb (fabs (width x -f p_width_m p)) c_001 = true else is_grasped x = true) /\
    held (poll s st gdone gok now dseq).1 = (if p_release p then held s else Some p).
Proof.
  intros Hm Hp Ha. unfold poll in *. destruct (pending s) as [p|] eqn:Ep; rewrite ?Hm in *.
  2: { exfalso. unfold poll_held in Hp. destruct (held s); [|done]. destruct st as [x|].
       - destruct (is_grasped x); [done|]. destruct (held_seen_grasped s); [|done]. injection Hp as <-. done.
       - rewrite Hm in Hp. unfold fail in Hp. rewrite Ep in Hp. destruct (held s); [|done]. simpl in Hp. injection Hp as <-. done. }
  assert (forall why a', (fail s why None).2 = Some a' -> ok a' = false) as Hfail.
  { intros why a' Hf. unfold fail in Hf. rewrite Ep in Hf. simpl in Hf. by injection Hf as <-. }
  unfold poll_measured in *. destruct (gdone_base p <? gdone)%Z eqn:Eg.
  2: { destruct (fleb (deadline p) now); [|done]. apply Hfail in Hp. congruence. }
  destruct gok; cbn [negb] in *; [|apply Hfail in Hp; congruence].
  destruct (fresh st dseq) as [x|] eqn:Ef.
  2: { destruct (fleb (deadline p) now); [|done]. apply Hfail in Hp. congruence. }
  destruct (confirms p x) eqn:Ec; cbn [negb] in *; [|apply Hfail in Hp; congruence].
  injection Hp as <-. exists p, x. unfold fresh in Ef. destruct st as [y|]; [|done].
  destruct (measured y && negb (busy y) && _) eqn:E; [|done]. injection Ef as <-. breflect.
  unfold confirms in Ec. split_and!; try done. destruct (p_release p); [|done]. by breflect.
Qed.

(** Every close (and measured release) is answered by its deadline: a poll at
    or after it answers the pending request and clears it. *)
Theorem answered_by_deadline s p st gdone gok now dseq :
  pending s = Some p -> fleb (deadline p) now = true ->
  exists a, (poll s st gdone gok now dseq).2 = Some a /\ request_id a = p_request_id p /\
    target_id a = p_target_id p /\ pending (poll s st gdone gok now dseq).1 = None.
Proof.
  intros Hp Hd. unfold poll. rewrite Hp.
  assert (forall why, exists a, (fail s why None).2 = Some a /\ request_id a = p_request_id p /\ target_id a = p_target_id p /\
    pending (fail s why None).1 = None) as Hfail by (intros why; unfold fail; rewrite Hp; eexists; done).
  destruct (measured_completion s).
  - unfold poll_measured. rewrite Hd. destruct (gdone_base p <? gdone)%Z; [|done]. destruct gok; cbn [negb]; [|done].
    destruct (fresh st dseq) as [x|]; [|done]. destruct (confirms p x); cbn [negb]; [|done]. eexists. done.
  - unfold poll_verdict. rewrite Hd. destruct (gdone_base p <? gdone)%Z; [destruct gok; eexists; done|].
    destruct (match st with Some x => is_grasped x | None => false end); eexists; done.
Qed.

(** What may happen between two requests. *)
Inductive ev := Poll (st : option sample) (gdone : Z) (gok : bool) (now : float) (dseq : Z) | Fail (why : string) (rid : option string).
Definition do_ev (s : t) (e : ev) : t * option answer :=
  match e with Poll st g k now d => poll s st g k now d | Fail why rid => fail s why rid end.
Fixpoint answers (s : t) (l : list ev) : list answer :=
  match l with
  | [] => []
  | e :: l => match (do_ev s e).2 with Some a => [a] | None => [] end ++ answers (do_ev s e).1 l
  end.

Definition mine (p : pend) (a : answer) : Prop := request_id a = p_request_id p /\ target_id a = p_target_id p.

Lemma answers_idle s l : pending s = None -> held s = None -> answers s l = [].
Proof.
  revert s. induction l as [|e l IH]; intros s Hp Hh; [done|]. cbn [answers].
  assert ((do_ev s e).2 = None /\ pending (do_ev s e).1 = None /\ held (do_ev s e).1 = None) as (-> & H1 & H2).
  { destruct e as [st g k now d|why rid]; cbn [do_ev].
    - unfold poll, poll_held. by rewrite Hp, Hh.
    - unfold fail. rewrite Hp, Hh. by destruct rid. }
  by apply IH.
Qed.

(** A step from a held grasp keeps watching it, or reports its failure and ends. *)
Lemma held_step s h e : pending s = None -> held s = Some h ->
  pending (do_ev s e).1 = None /\
  (((do_ev s e).2 = None /\ held (do_ev s e).1 = Some h) \/
   (held (do_ev s e).1 = None /\ exists a, (do_ev s e).2 = Some a /\ mine h a /\ ok a = false)).
Proof.
  intros Hp Hh. destruct e as [st g k now d|why rid]; cbn [do_ev].
  - unfold poll. rewrite Hp. unfold poll_held. rewrite Hh. destruct st as [x|].
    + destruct (is_grasped x); [by split; [|left]|]. destruct (held_seen_grasped s); [|by split; [|left]].
      split; [done|]. right. split; [done|]. eexists. done.
    + destruct (measured_completion s); [|by split; [|left]]. unfold fail. rewrite Hp, Hh. split; [done|]. right.
      split; [done|]. eexists. done.
  - unfold fail. rewrite Hp, Hh. destruct (match rid with Some _ => _ | None => _ end); [by split; [|left]|].
    split; [done|]. right. split; [done|]. eexists. done.
Qed.

Lemma answers_held s h l : pending s = None -> held s = Some h ->
  answers s l = [] \/ exists a, answers s l = [a] /\ mine h a /\ ok a = false.
Proof.
  revert s. induction l as [|e l IH]; intros s Hp Hh; [by left|]. cbn [answers].
  destruct (held_step s h e Hp Hh) as [H1 [[-> H2]|(H2 & a & -> & Ha & Hb)]]; [by apply IH|].
  right. exists a. by rewrite answers_idle.
Qed.

(** A step of a pending request waits, or answers it: a failure ends it, a
    success may leave it held. *)
Lemma pending_step s p e : pending s = Some p -> held s = None ->
  ((do_ev s e).2 = None /\ pending (do_ev s e).1 = Some p /\ held (do_ev s e).1 = None) \/
  (pending (do_ev s e).1 = None /\ exists a, (do_ev s e).2 = Some a /\ mine p a /\
     (held (do_ev s e).1 = None \/ (held (do_ev s e).1 = Some p /\ ok a = true))).
Proof.
  intros Hp Hh.
  assert (forall why, pending (fail s why None).1 = None /\ exists a, (fail s why None).2 = Some a /\ mine p a /\ held (fail s why None).1 = None) as Hf
    by (intros why; unfold fail; rewrite Hp; split; [done|]; eexists; done).
  assert (forall why, (pending (fail s why None).1 = None /\ exists a, (fail s why None).2 = Some a /\ mine p a /\
     (held (fail s why None).1 = None \/ (held (fail s why None).1 = Some p /\ ok a = true)))) as Hf2
    by (intros why; destruct (Hf why) as (F1 & a & F2 & F3 & F4); split; [done|]; exists a; auto).
  destruct e as [st g k now d|why rid]; cbn [do_ev].
  - unfold poll. rewrite Hp. destruct (measured_completion s).
    + unfold poll_measured. destruct (gdone_base p <? g)%Z; [|destruct (fleb (deadline p) now); [right; apply Hf2|by left]].
      destruct k; cbn [negb]; [|right; apply Hf2].
      destruct (fresh st d) as [x|]; [|destruct (fleb (deadline p) now); [right; apply Hf2|by left]].
      destruct (confirms p x); cbn [negb]; [|right; apply Hf2]. right. split; [done|]. eexists. split; [done|]. split; [done|].
      cbn [held with_jaws fst]. destruct (p_release p); [by left|by right].
    + unfold poll_verdict. destruct (gdone_base p <? g)%Z.
      * right. destruct k; (split; [done|]); eexists; (split; [done|]); (split; [done|]); [by right|by left].
      * destruct (fleb (deadline p) now); [|by left]. right.
        destruct (match st with Some x => is_grasped x | None => false end); (split; [done|]); eexists; (split; [done|]); (split; [done|]); [by right|by left].
  - unfold fail. rewrite Hp. destruct (match rid with Some _ => _ | None => _ end); [by left|]. right. split; [done|]. eexists. split; [done|].
    split; [done|]. by left.
Qed.

(** A request is answered at most once, and a confirmed grasp is followed by at
    most one more answer, its failure (dropped, stale or lost transport): in
    any history without a new request, every answer carries the request's
    ids, and a second one only follows a success and is a failure. *)
Theorem answers_of_a_request s p l : pending s = Some p -> held s = None ->
  answers s l = [] \/ (exists a, answers s l = [a] /\ mine p a) \/
  (exists a b, answers s l = [a; b] /\ mine p a /\ mine p b /\ ok a = true /\ ok b = false).
Proof.
  revert s. induction l as [|e l IH]; intros s Hp Hh; [by left|]. cbn [answers].
  destruct (pending_step s p e Hp Hh) as [(-> & H1 & H2)|(H1 & a & -> & Ha & [H2|[H2 Hok]])].
  - by apply IH.
  - right. left. exists a. by rewrite answers_idle.
  - right. destruct (answers_held _ p l H1 H2) as [-> |(b & -> & Hb & Hbf)]; [left; by exists a|right; by exists a, b].
Qed.
End GraspFacts.

Module MoveFacts.
Import Move.

Inductive ev := Start (request : dict) (st : sample) (now : float)
  | Done (rid : string) (rok : bool) (why : option string) (st : sample)
  | Poll (st : sample) (now : float) | Fail (why : string).
Definition step (s : t) (e : ev) : t :=
  match e with
  | Start r st now => match start s r st now with Ok (s, _) => s | Err _ => s end
  | Done rid k why st => (done_ s rid k why st).1
  | Poll st now => (poll s st now).1
  | Fail why => (fail s why).1
  end.

(** The completion that set [done_seq]: it named the move then in flight. *)
Definition completed (past : list ev) (p : pend) (d : Z) : Prop :=
  exists l1 why st l2 p0, past = l1 ++ Done (p_request_id p) true why st :: l2 /\ seq_of st = d /\
    pending (run_steps step new l1) = Some p0 /\ p_request_id p0 = p_request_id p /\ p_width_m p0 = p_width_m p.

Lemma completed_snoc past e p d : completed past p d -> completed (past ++ [e]) p d.
Proof.
  intros (l1 & why & st & l2 & p0 & -> & H). exists l1, why, st, (l2 ++ [e]), p0. split; [by rewrite <-app_assoc|done].
Qed.

Definition kept (s s' : t) : Prop := pending s' = pending s \/ pending s' = None.
Lemma fail_kept s why : kept s (fail s why).1.
Proof. unfold fail, kept. destruct (pending s) eqn:E; auto. Qed.
Lemma poll_kept s st now : kept s (poll s st now).1.
Proof.
  unfold poll. destruct (pending s) as [p|] eqn:E; [|by left].
  repeat (case_goal; try apply fail_kept); try (by left); by right.
Qed.

Lemma done_seq_completed past p d :
  pending (run_steps step new past) = Some p -> done_seq p = Some d -> completed past p d.
Proof.
  revert p d. induction past as [|e past IH] using rev_ind; intros p d Hp Hd; [done|].
  rewrite run_steps_app in Hp. change (pending (step (run_steps step new past) e) = Some p) in Hp.
  set (s := run_steps step new past) in *.
  assert (pending s = Some p -> completed (past ++ [e]) p d) as Hkeep by (intros H; by apply completed_snoc, IH).
  destruct e as [r st now|rid k why st|st now|why]; cbn [step] in Hp.
  - destruct (start s r st now) as [[s' ?]|] eqn:E; [|auto]. exfalso. unfold start in E.
    inv_chain E; injection E as <- _; cbn [pending] in Hp; injection Hp as <-; done.
  - unfold done_ in Hp. destruct (pending s) as [q|] eqn:Eq; [|cbn [fst] in Hp; congruence].
    destruct (bool_decide (rid = p_request_id q)) eqn:Er; cbn [negb] in Hp;
      [|cbn [fst] in Hp; apply Hkeep; congruence]. apply bool_decide_eq_true in Er.
    destruct k; cbn [negb] in Hp.
    + cbn [fst pending] in Hp. injection Hp as <-. cbn [done_seq] in Hd. injection Hd as <-.
      exists past, why, st, [], q. cbn [p_request_id]. rewrite <-Er. by split_and!.
    + unfold fail in Hp. rewrite Eq in Hp. done.
  - destruct (poll_kept s st now) as [H|H]; rewrite H in Hp; [auto|done].
  - destruct (fail_kept s why) as [H|H]; rewrite H in Hp; [auto|done].
Qed.

(** Whatever happened before, a position move is reported reached only for the
    move in flight, before its deadline, on an available, measured, idle and
    empty hand within a millimetre of the requested width, by a sample newer
    than the one current when the hand reported that very request done. *)
Theorem reached_is_measured past st now a :
  let s := run_steps step new past in
  (poll s st now).2 = Some a -> ok a = true ->
  exists p d x, pending s = Some p /\ request_id a = p_request_id p /\ fleb (deadline p) now = false /\
    available st = true /\ measured st = true /\ busy st = false /\ is_grasped st = false /\
    width st = Some (JNum x) /\ isfinite x = true /\ fltb c_001 (fabs (x -f p_width_m p)) = false /\
    completed past p d /\ (d < seq_of st)%Z.
Proof.
  intros s Hp Ha. unfold poll in Hp. destruct (pending s) as [p|] eqn:Ep; [|done].
  assert (forall why, (fail s why).2 <> Some a) as Hf.
  { intros why H. unfold fail in H. rewrite Ep in H. injection H as <-. done. }
  destruct (available st) eqn:E1; cbn [negb] in Hp; [|by apply Hf in Hp].
  destruct (fleb (deadline p) now) eqn:E2; [by apply Hf in Hp|].
  destruct (measured st) eqn:E3; cbn [negb] in Hp; [|done].
  destruct (is_grasped st) eqn:E4; [by apply Hf in Hp|].
  destruct (done_seq p) as [d|] eqn:E5; [|done]. destruct (seq_of st <=? d)%Z eqn:E6; [done|].
  destruct (busy st) eqn:E7; [done|]. destruct (at_target p (width st)) as [x|] eqn:E8; [|by apply Hf in Hp].
  injection Hp as <-. unfold at_target in E8. destruct (width st) as [[y| | |]|] eqn:Ew; try done.
  destruct (isfinite y && _) eqn:E9; [|done]. injection E8 as <-. breflect.
  exists p, d, y. split_and!; try done. by apply done_seq_completed.
Qed.

(** A pending move is answered at or after its deadline. *)
Theorem move_answered_by_deadline s p st now : pending s = Some p -> fleb (deadline p) now = true ->
  exists a, (poll s st now).2 = Some a /\ request_id a = p_request_id p /\ ok a = false /\ pending (poll s st now).1 = None.
Proof.
  intros Hp Hd. unfold poll. rewrite Hp, Hd.
  assert (forall why, exists a, (fail s why).2 = Some a /\ request_id a = p_request_id p /\ ok a = false /\ pending (fail s why).1 = None) as Hf
    by (intros why; unfold fail; rewrite Hp; eexists; done).
  destruct (available st); apply Hf.
Qed.
End MoveFacts.

(** ** A close and a move *)

Module HandDemo.
Definition p0 : params := {|
  width_m := c_045; force_n := c_40; speed_mps := c_05; epsilon_inner_m := c_02; epsilon_outer_m := c_02; open_width_m := c_075 |}.

Example resolved_inside_envelope_witness : inside_envelope FRANKA_HAND p0.
Proof. apply (resolved_inside_envelope ∅ {["mode" := JStr "close"]} FRANKA_HAND p0). vm_compute. reflexivity. Defined.

Import Grasp.
Definition idle (m : bool) : t := {|
  measured_completion := m; config := ∅; limits := FRANKA_HAND; parameters := p0; pending := None; held := None;
  held_seen_grasped := false |}.
Definition closing (m : bool) : t := (on_request (idle m) ∅ "r1" "box" 0 f0).1.1.
Definition waiting : pend := {|
  p_request_id := "r1"; p_target_id := "box"; deadline := c_8; gdone_base := 0; p_release := false; p_width_m := c_045 |}.
Example closing_pending m : pending (closing m) = Some waiting /\ held (closing m) = None.
Proof. destruct m; vm_compute; done. Qed.
Definition gripped (g : bool) : sample := {| measured := true; busy := false; sample_seq := Some 7%Z; is_grasped := g; width := c_045 |}.
Definition yes : answer := {| request_id := "r1"; target_id := "box"; ok := true; reason := "grasped" |}.

Example success_is_measured_witness : exists p x, pending (closing true) = Some p /\ request_id yes = p_request_id p /\
  (gdone_base p < 1)%Z /\ true = true /\ Some (gripped true) = Some x /\ measured x = true /\ busy x = false /\
  (6 < default (-1) (sample_seq x))%Z /\
  (if p_release p then is_grasped x = false /\ fleb (fabs (width x -f p_width_m p)) c_001 = true else is_grasped x = true) /\
  held (poll (closing true) (Some (gripped true)) 1 true f0 6).1 = (if p_release p then held (closing true) else Some p).
Proof. apply (GraspFacts.success_is_measured (closing true) (Some (gripped true)) 1 true f0 6 yes); vm_compute; reflexivity. Defined.

Example answered_by_deadline_witness : exists a, (poll (closing false) None 0 false c_8 0).2 = Some a /\ request_id a = "r1" /\
  target_id a = "box" /\ pending (poll (closing false) None 0 false c_8 0).1 = None.
Proof. apply (GraspFacts.answered_by_deadline (closing false) waiting None 0 false c_8 0); vm_compute; reflexivity. Defined.

(** Grasped, seen held, dropped, and silent afterwards. *)
Definition history : list GraspFacts.ev :=
  [GraspFacts.Poll (Some (gripped false)) 1 true f0 0; GraspFacts.Poll (Some (gripped true)) 1 true f0 0;
   GraspFacts.Poll (Some (gripped false)) 1 true f0 0; GraspFacts.Poll (Some (gripped false)) 1 true f0 0].
Example answers_of_a_request_witness : map ok (GraspFacts.answers (closing false) history) = [true; false] /\
  (GraspFacts.answers (closing false) history = [] \/
   (exists a, GraspFacts.answers (closing false) history = [a] /\ GraspFacts.mine waiting a) \/
   (exists a b, GraspFacts.answers (closing false) history = [a; b] /\ GraspFacts.mine waiting a /\ GraspFacts.mine waiting b /\
      ok a = true /\ ok b = false)).
Proof.
  split; [vm_compute; reflexivity|].
  apply (GraspFacts.answers_of_a_request (closing false) waiting history); vm_compute; reflexivity.
Defined.

Definition mstate (seq : Z) : Move.sample := {|
  Move.available := true; Move.measured := true; Move.busy := false; Move.is_grasped := false; Move.sample_seq := Some seq;
  Move.width := Some (JNum c_045) |}.
Definition request : dict := {[ "request_id" := JStr "m1"; "width_m" := JNum c_045; "speed_mps" := JNum c_05 ]}.
Definition mpast : list MoveFacts.ev := [MoveFacts.Start request (mstate 1) f0; MoveFacts.Done "m1" true None (mstate 3)].
Definition moving : Move.t := run_steps MoveFacts.step Move.new mpast.
Definition reached : Move.answer := {| Move.request_id := "m1"; Move.ok := true; Move.reason := "position reached"; Move.width_m := Some c_045 |}.

Example reached_is_measured_witness : exists p d x, Move.pending moving = Some p /\ "m1" = Move.p_request_id p /\
  fleb (Move.deadline p) f1 = false /\ Move.available (mstate 4) = true /\ Move.measured (mstate 4) = true /\
  Move.busy (mstate 4) = false /\ Move.is_grasped (mstate 4) = false /\ Move.width (mstate 4) = Some (JNum x) /\
  isfinite x = true /\ fltb c_001 (fabs (x -f Move.p_width_m p)) = false /\ MoveFacts.completed mpast p d /\ (d < 4)%Z.
Proof. apply (MoveFacts.reached_is_measured mpast (mstate 4) f1 reached); vm_compute; reflexivity. Defined.

Example move_answered_by_deadline_witness : exists a, (Move.poll moving (mstate 4) c_8).2 = Some a /\
  Move.request_id a = "m1" /\ Move.ok a = false /\ Move.pending (Move.poll moving (mstate 4) c_8).1 = None.
Proof.
  apply (MoveFacts.move_answered_by_deadline moving
    {| Move.p_request_id := "m1"; Move.p_width_m := c_045; Move.deadline := c_8; Move.done_seq := Some 3%Z |} (mstate 4) c_8);
    vm_compute; reflexivity.
Defined.
End HandDemo.
